(* ===== verification/_CoqProject ===== *)
-Q . S2P
Prelude.v
Riscv.v
PhysMem.v
Kalloc.v
PageTable.v
Vm.v
VmFree.v
Cow.v
Shm.v
Fork.v
UserMem.v
CopyOut.v
Brd.v
VmSample.v
Spin.v
Sem.v
UserIface.v
Ring.v
VmUser.v
Asm.v
AsmSample.v
Pipe.v
PipeSample.v
CStrings.v
TextTools.v
Umalloc.v
Printf.v
Console.v
ConsoleSample.v
Block.v
Sleeplock.v
Virtio.v
Bio.v
Log.v
LogCrash.v
LogTxn.v
LogSample.v
Fs.v
FsBlocks.v
FsPath.v
FsInode.v
FsMap.v
FsRead.v
FsWrite.v
FsSample.v
File.v
Sysfile.v
Shell.v
Proc.v
SleepWake.v
ProcSpec.v
ProcSample.v
Sysproc.v
Trap.v
TrapSpec.v
TrapUser.v
TrapSample.v
Exec.v
ExecSpace.v
ExecSpec.v
ExecRun.v
ExecSample.v
Mkfs.v
MkfsSpec.v
MkfsRun.v
MkfsMain.v
MkfsImage.v
MkfsSample.v
