(* ===== verification/Prelude.v ===== *)
(** * A verification of the xv6 kernel of this repository

    The kernel is a set of C components that share one address space: a physical
    page allocator, page tables with copy-on-write, shared pages, locks, a buffer
    cache with a write-ahead log on a virtio disk, a file system, pipes, a console,
    and a table of processes.  The user library and some of its programs run on
    its system calls.  Each component is a file of this library, or a few where
    its theorems are long.

    ** How code is modelled

    Kernel operations are computations of the monad [M S A] of this file.  They
    take the spin locks that the thread holds and the state [S] of the component;
    they return, [Panic], reach undefined behaviour ([Undef]), sleep ([Blocked]) or
    run out of the fuel of a loop ([OutOfFuel]).  [wp m L s Q] says that [m]
    returns, with the same locks, and that [Q] holds: a theorem stated with [wp]
    is one of total correctness.  Where it is stated with [= Ok ...] it says the
    same.  A loop has fuel that its source determines (the length of the array,
    the number of pages, of bytes, ...); the theorems show it is enough.  C
    integers are [Z] values with the wrap-around of their width written out.
    Code that sleeps is cut where it sleeps, and the theorems quantify over what
    happens in between, or interleave the pieces by a step relation.  Hardware
    and what components promise to each other are type classes.

    ** The files

    - Memory: Riscv (riscv.h, memlayout.h), PhysMem (memory, memset and memmove of
      string.c), Kalloc (kalloc.c), PageTable and Vm (vm.c: walk, mappages, growth),
      VmFree (freewalk, uvmfree), Cow and Fork (uvmcow, uvmcopy), Shm (shm.c), UserMem
      and CopyOut (copyin, copyinstr, vmfault, copyout), VmSample (witnesses).
      Shown: the free list holds exactly the unreferenced pages in every reachable
      state; fork isolates parent and child; the copies between kernel and user move
      exactly the bytes asked for and touch no page of others; what a process maps is
      given back.
    - Locks and sleep: Spin (spinlock.c as interleaved atomic steps: mutual
      exclusion), Sleeplock (sleeplock.c), Sem (sem.c: counting, and the waiter that
      sem_free strands), SleepWake (sleep and wakeup of proc.c interleaved: no wakeup
      is lost).
    - Byte streams: Ring (circular buffers), UserIface (what the streams need of user
      memory, an interface that VmUser discharges with the virtual memory), Pipe
      (pipe.c), Console (console.c, uart.c: the line discipline, and the progress of
      a write), with PipeSample and ConsoleSample for witnesses.
    - Text: CStrings (string.c and ulib.c), Printf (printf.c of the kernel and of the
      user library, translated separately: both print what one reference format
      language says), TextTools (grep.c, wc.c).
    - Disk: Block (blocks of bytes and the interface of a cache), Virtio (virtio_disk.c
      with a device that follows the virtio specification and reports no I/O error;
      an error status panics), Bio (bio.c), Log, LogCrash
      and LogTxn (log.c: every crash point recovers to a whole transaction; the log
      never overflows), LogSample (witnesses).
    - Files: Fs (all of fs.c), FsBlocks (bitmap), FsPath (path names), FsInode (dinodes),
      FsMap (bmap), FsRead and FsWrite (readi and writei), FsSample (witnesses), File
      (file.c, ext.c, the sharing of pipes), Sysfile (sysfile.c, the fetching of
      arguments of syscall.c).
    - Processes: Proc (proc.c), ProcSpec and ProcSample (wakeup, reparent, kill).
    - The RAM disk: Brd (brd.c: reads and writes are those of an array of bytes,
      and unloading gives its pages back).
    - Traps: Asm (trampoline.S, kernelvec.S, swtch.S and entry.S as instructions on a
      hart with address translation: registers are saved and restored), Sysproc
      (sysproc.c), Trap (trap.c, plic.c and the table of syscall.c, whose file system and
      process handlers outside this state are the interface [OtherCalls]), TrapSpec (page
      faults, dispatch, the clock), TrapUser (a page fault from the user program to
      the kernel and back), AsmSample and TrapSample (witnesses).
    - exec: Exec (exec.c, elf.h and sys_exec, over an interface of the file system),
      ExecSpace (building, writing and freeing the address space of a process, with
      every page accounted for), ExecSpec (the image an executable describes, the
      layout of the stack, and loading), ExecRun (the stack, the commit and the
      failures: kexec as a whole), ExecSample (witness).
    - User level: Umalloc (umalloc.c: the blocks of malloc are disjoint), Shell (sh.c: the
      parser accepts exactly the grammar, and commands run with the descriptors they
      name; malloc is assumed to succeed).
    - The file system image: Mkfs (mkfs.c), MkfsSpec (the image as a map of blocks),
      MkfsRun (its operations), MkfsMain and MkfsImage (the whole program: the image
      holds a root directory naming every file, with its contents, and a bitmap of the
      blocks in use), MkfsSample (witnesses).

    Theorems named [..._panics...], [..._leaks], [..._strands...], [..._hole], [..._reads_boot_block],
    [..._overclaims], [..._unchecked] and [kkill_zero_kills_next] state behaviour of the
    code that is not what it means to do.

    ** Bounds

    The tables have the sizes of param.h.  The number of processes, harts, requests
    and steps of the interleaving theorems is unbounded, or NPROC where the code scans
    the table.  writei is proved for the writes filewrite makes, at most three blocks.
    exec is proved for fewer than MAXARG strings of less than a page each, which is what
    sys_exec passes.  The crash theorems quantify over every prefix of the writes of a commit.

    ** Not modelled

    the register handshake of virtio_disk_init; main.c and start.c (machine-mode
    registers and calls of the initialization functions); failing allocations of the
    shell; the other user programs and the test programs. *)

From stdpp Require Export base list gmap strings sets.
From Stdlib Require Export ZArith Lia.

(** * Fixed-width integers

    C integers are [Z] values kept in the range of their type; the wrap-around
    of an operation is written out at the operation. *)

Local Open Scope Z_scope.

Definition u8 (x : Z) : Z := x mod 2 ^ 8.
Definition u16 (x : Z) : Z := x mod 2 ^ 16.
Definition u32 (x : Z) : Z := x mod 2 ^ 32.
Definition u64 (x : Z) : Z := x mod 2 ^ 64.
Definition s16 (x : Z) : Z := (x + 2 ^ 15) mod 2 ^ 16 - 2 ^ 15.
Definition s32 (x : Z) : Z := (x + 2 ^ 31) mod 2 ^ 32 - 2 ^ 31.

Definition INT_MAX : Z := 2 ^ 31 - 1.

(** Discharge goals that mix linear arithmetic with [/] and [mod]. *)
Ltac zdiv := Z.div_mod_to_equations; lia.

Lemma u64_small (x : Z) : 0 <= x < 2 ^ 64 -> u64 x = x.
Proof. intros. unfold u64. by apply Z.mod_small. Qed.

Lemma u64_range (x : Z) : 0 <= u64 x < 2 ^ 64.
Proof. unfold u64. apply Z.mod_pos_bound. lia. Qed.

Lemma u32_small (x : Z) : 0 <= x < 2 ^ 32 -> u32 x = x.
Proof. intros. unfold u32. by apply Z.mod_small. Qed.

Lemma u32_range (x : Z) : 0 <= u32 x < 2 ^ 32.
Proof. unfold u32. apply Z.mod_pos_bound. lia. Qed.

Lemma u8_range (x : Z) : 0 <= u8 x < 256.
Proof. unfold u8. apply Z.mod_pos_bound. lia. Qed.

Lemma u8_small (x : Z) : 0 <= x < 256 -> u8 x = x.
Proof. intros. unfold u8. by apply Z.mod_small. Qed.

Lemma s32_small (x : Z) : - 2 ^ 31 <= x < 2 ^ 31 -> s32 x = x.
Proof. intros. unfold s32. rewrite Z.mod_small; lia. Qed.

Lemma s32_range (x : Z) : - 2 ^ 31 <= s32 x < 2 ^ 31.
Proof. unfold s32. pose proof (Z.mod_pos_bound (x + 2 ^ 31) (2 ^ 32) eq_refl). lia. Qed.

(** Values in the range of their type, and the range of every value. *)
Create HintDb width.
#[export] Hint Resolve u64_range u32_range u8_range : width.
#[export] Hint Rewrite u64_small u32_small u8_small s32_small using lia : width.

(** The bit operators of C. *)
Declare Scope c_scope.
Delimit Scope c_scope with c.
Infix ".&" := Z.land (at level 42, left associativity) : c_scope.
Infix ".|" := Z.lor (at level 44, left associativity) : c_scope.
Infix ".<<" := Z.shiftl (at level 41, left associativity) : c_scope.
Infix ".>>" := Z.shiftr (at level 41, left associativity) : c_scope.
Notation ".~ x" := (Z.lnot x) (at level 35, right associativity) : c_scope.

(** * Bit lemmas shared by the page-table and bitmap code *)

(** [x] has one of the bits of the mask [f] set: the C test [x & f]. *)
Definition has_bits (x f : Z) : bool := negb (Z.land x f =? 0).

(** For a mask of one bit it is a bit test. *)
Lemma has_bits_testbit (x k : Z) : 0 <= k -> has_bits x (Z.shiftl 1 k) = Z.testbit x k.
Proof.
  intros Hk. unfold has_bits. rewrite Z.shiftl_1_l. apply eq_true_iff_eq.
  rewrite negb_true_iff, Z.eqb_neq. split.
  - intros Hne. destruct (Z.testbit x k) eqn:E; [done|]. destruct Hne.
    apply Z.bits_inj'. intros i Hi. rewrite Z.land_spec, Z.bits_0, Z.pow2_bits_eqb by done.
    destruct (Z.eqb_spec k i) as [->|]; [by rewrite E|]. apply andb_false_r.
  - intros E H0. apply (f_equal (fun y => Z.testbit y k)) in H0.
    by rewrite Z.land_spec, Z.bits_0, E, Z.pow2_bits_true in H0.
Qed.

(** Or-ing bits below [n] into a value shifted left by [n] is an addition. *)
Lemma lor_shiftl_add (x f n : Z) :
  0 <= n -> 0 <= f < 2 ^ n -> Z.lor (Z.shiftl x n) f = x * 2 ^ n + f.
Proof.
  intros Hn Hf. rewrite <- Z.shiftl_mul_pow2 by done.
  assert (Hdisj : Z.land (Z.shiftl x n) f = 0).
  { apply Z.bits_inj'; intros i Hi.
    rewrite Z.land_spec, Z.bits_0, Z.shiftl_spec by lia.
    destruct (decide (i < n)); [by rewrite Z.testbit_neg_r by lia|].
    destruct (decide (f = 0)) as [->|]; [by rewrite Z.bits_0, andb_false_r|].
    rewrite (Z.bits_above_log2 f), andb_false_r; [done|lia|].
    apply Z.log2_lt_pow2; [lia|].
    eapply Z.lt_le_trans; [apply Hf|]. apply Z.pow_le_mono_r; lia. }
  rewrite <- Z.lxor_lor by done. symmetry. by apply Z.add_nocarry_lxor.
Qed.

Lemma land_lnot_ones (x n : Z) :
  0 <= n -> Z.land x (Z.lnot (2 ^ n - 1)) = x - x mod 2 ^ n.
Proof.
  intros Hn. replace (2 ^ n - 1) with (Z.ones n) by (rewrite Z.ones_equiv; lia).
  rewrite <- Z.ldiff_land, Z.ldiff_ones_r, Z.shiftr_div_pow2, Z.shiftl_mul_pow2 by done.
  pose proof (Z.div_mod x (2 ^ n)). lia.
Qed.

(** * Occurrences in a list *)

(** How many times [x] occurs in [l]. *)
Fixpoint cnt (l : list Z) (x : Z) : Z :=
  match l with
  | [] => 0
  | y :: l' => (if decide (y = x) then 1 else 0) + cnt l' x
  end.

Lemma cnt_app l l' x : cnt (l ++ l') x = cnt l x + cnt l' x.
Proof. induction l; simpl; lia. Qed.

Lemma cnt_nonneg l x : 0 <= cnt l x.
Proof. induction l; simpl; [lia|]. case_decide; lia. Qed.

Lemma cnt_elem_of l x : x ∈ l <-> 0 < cnt l x.
Proof.
  induction l as [|y l IH]; simpl; [set_solver by lia|].
  rewrite elem_of_cons, IH. pose proof (cnt_nonneg l x). case_decide; naive_solver lia.
Qed.

Lemma cnt_notin l x : x ∉ l <-> cnt l x = 0.
Proof. rewrite cnt_elem_of. pose proof (cnt_nonneg l x). lia. Qed.

Lemma cnt_NoDup l x : NoDup l -> x ∈ l -> cnt l x = 1.
Proof.
  induction 1 as [|y l Hy Hl IH]; simpl; [set_solver|].
  intros [->|Hx]%elem_of_cons.
  - rewrite decide_True by done. apply cnt_notin in Hy. lia.
  - rewrite decide_False by (intros ->; done). rewrite IH by done. lia.
Qed.

(** * Table scans

    [for (i = 0; i < N; i++) if (c(t[i])) break;]: the index of the first entry
    that satisfies the test. *)
Fixpoint find_idx {A} (P : A -> bool) (l : list A) : option nat :=
  match l with
  | [] => None
  | x :: l' => if P x then Some O else S <$> find_idx P l'
  end.

Lemma find_idx_Some {A} (P : A -> bool) l i :
  find_idx P l = Some i <->
  (exists x, l !! i = Some x /\ P x = true) /\
  (forall j y, (j < i)%nat -> l !! j = Some y -> P y = false).
Proof.
  revert i. induction l as [|x l IH]; intros i; simpl.
  { split; [done|]. by intros [(? & ? & _) _]. }
  destruct (P x) eqn:HP.
  - split.
    + intros [= <-]. split; [by exists x|]. intros j y Hj. lia.
    + intros [_ Hj]. destruct i as [|i]; [done|]. specialize (Hj O x). simpl in Hj.
      rewrite HP in Hj. by discriminate Hj; [lia|].
  - rewrite fmap_Some. setoid_rewrite IH. split.
    + intros (k & [Hx Hj] & ->). split; [done|]. intros [|j] y Hlt Hy; simpl in Hy.
      * by injection Hy as <-.
      * apply (Hj j); [lia|done].
    + intros [(y & Hy & HPy) Hj]. destruct i as [|i]; simpl in Hy; [congruence|].
      exists i. split; [|done]. split; [by exists y|]. intros j z Hlt Hz.
      apply (Hj (S j)); [lia|done].
Qed.

Lemma find_idx_None {A} (P : A -> bool) l :
  find_idx P l = None <-> forall x, x ∈ l -> P x = false.
Proof.
  induction l as [|x l IH]; simpl; [set_solver|]. destruct (P x) eqn:HP.
  - split; [done|]. intros Hx. specialize (Hx x). rewrite HP in Hx. by discriminate Hx; left.
  - rewrite fmap_None, IH. set_solver.
Qed.

(** * The kernel monad

    Kernel code runs as one thread that owns a stack of spin locks.  A
    computation of type [M S A] takes the locks the thread holds and the state
    [S] of the component, and returns normally, panics, reaches undefined
    behaviour of C (an access outside an object), blocks in [sleep] with nobody
    to wake it, or runs out of the fuel of a loop. *)

(** The spin locks of the kernel. *)
Inductive lock :=
  | kmem_lock | ref_lock | shm_lock | sem_table_lock | sem_lock (i : nat)
  | wait_lock | pid_lock | proc_lock (i : nat)
  | buf_lock (i : nat) | inode_lock (i : nat)
  | bcache_lock | log_lock | itable_lock | ftable_lock
  | pipe_lock (a : Z) | cons_lock | tx_lock | vdisk_lock | rd_lock | tickslock.

#[export] Instance lock_eq_dec : EqDecision lock.
Proof. solve_decision. Defined.

Inductive outcome (S A : Type) :=
  | Ok (a : A) (L : list lock) (s : S)
  | Panic (msg : string)
  | Undef (msg : string)
  | Blocked (msg : string)
  | OutOfFuel.
Arguments Ok {S A}.
Arguments Panic {S A}.
Arguments Undef {S A}.
Arguments Blocked {S A}.
Arguments OutOfFuel {S A}.

Definition M (S A : Type) : Type := list lock -> S -> outcome S A.

#[export] Instance M_ret {S} : MRet (M S) := fun A a L s => Ok a L s.
#[export] Instance M_bind {S} : MBind (M S) := fun A B k m L s =>
  match m L s with
  | Ok a L' s' => k a L' s'
  | Panic e => Panic e
  | Undef e => Undef e
  | Blocked e => Blocked e
  | OutOfFuel => OutOfFuel
  end.

Section Operations.
Context {S : Type}.

Definition panic {A} (msg : string) : M S A := fun _ _ => Panic msg.
Definition undef {A} (msg : string) : M S A := fun _ _ => Undef msg.
Definition blocked {A} (msg : string) : M S A := fun _ _ => Blocked msg.
Definition gets {A} (f : S -> A) : M S A := fun L s => Ok (f s) L s.
Definition modify (f : S -> S) : M S unit := fun L s => Ok tt L (f s).

Fixpoint lock_remove (l : lock) (L : list lock) : list lock :=
  match L with
  | [] => []
  | x :: L' => if decide (x = l) then L' else x :: lock_remove l L'
  end.

(** [acquire] and [release] as the thread sees them: a lock it already holds
    panics (holding(lk)), as does the release of one it does not hold. *)
Definition acquire (l : lock) : M S unit := fun L s =>
  if decide (l ∈ L) then Panic "acquire" else Ok tt (l :: L) s.
Definition release (l : lock) : M S unit := fun L s =>
  if decide (l ∈ L) then Ok tt (lock_remove l L) s else Panic "release".

(** A loop: the body returns [inl x] to go round again with [x], or [inr a]
    to leave the loop with the value [a]. *)
Fixpoint loop {X A} (fuel : nat) (body : X -> M S (X + A)) (x : X) : M S A :=
  match fuel with
  | O => fun _ _ => OutOfFuel
  | Datatypes.S n =>
      mbind (fun r => match r with inl x' => loop n body x' | inr a => mret a end)
            (body x)
  end.
End Operations.

(** A component embedded in a larger state, and the operations of the component
    run there. *)
Class Lens (S C : Type) := {
  view : S -> C;
  over : C -> S -> S;
  view_over : forall c s, view (over c s) = c;
  over_view : forall s, over (view s) s = s;
  over_over : forall c c' s, over c (over c' s) = over c s
}.

Definition zoom {S C A} `{Lens S C} (m : M C A) : M S A := fun L s =>
  match m L (view s) with
  | Ok a L' c => Ok a L' (over c s)
  | Panic e => Panic e
  | Undef e => Undef e
  | Blocked e => Blocked e
  | OutOfFuel => OutOfFuel
  end.

(** * Weakest preconditions

    [wpl m L s Q]: run with the locks [L] from [s], [m] returns normally (it
    neither panics, nor is undefined, nor blocks, nor runs out of fuel) and the
    value, the locks and the state satisfy [Q].  [wp] adds that the locks held
    on return are those held on entry. *)

Definition wpl {S A} (m : M S A) (L : list lock) (s : S)
    (Q : A -> list lock -> S -> Prop) : Prop :=
  match m L s with Ok a L' s' => Q a L' s' | _ => False end.

Definition wp {S A} (m : M S A) (L : list lock) (s : S) (Q : A -> S -> Prop) : Prop :=
  wpl m L s (fun a L' s' => L' = L /\ Q a s').

(** A run that returns [r]. *)
Definition returns {S A} (m : M S A) (L : list lock) (s : S) (r : A) : Prop :=
  match m L s with Ok r' _ _ => r' = r | _ => False end.

(** [m] panics. *)
Definition panics {S A} (m : M S A) (L : list lock) (s : S) (msg : string) : Prop :=
  m L s = Panic msg.

(** [m] returns with [Q], or panics: it terminates and is not undefined. *)
Definition safe {S A} (m : M S A) (L : list lock) (s : S) (Q : A -> S -> Prop) : Prop :=
  match m L s with Ok a L' s' => L' = L /\ Q a s' | Panic _ => True | _ => False end.

(** None of the locks [ls] is held. *)
Definition avail (ls L : list lock) : Prop := forall l, l ∈ ls -> l ∉ L.

Section Rules.
Context {S : Type}.
Implicit Types (L : list lock) (s : S).

Lemma wpl_ret {A} (a : A) L s Q : Q a L s -> wpl (mret a) L s Q.
Proof. done. Qed.

Lemma wpl_bind {A B} (m : M S A) (k : A -> M S B) L s Q :
  wpl m L s (fun a L' s' => wpl (k a) L' s' Q) -> wpl (m ≫= k) L s Q.
Proof. unfold wpl, mbind, M_bind. by destruct (m L s). Qed.

Lemma wpl_mono {A} (m : M S A) L s (Q Q' : A -> list lock -> S -> Prop) :
  wpl m L s Q -> (forall a L' s', Q a L' s' -> Q' a L' s') -> wpl m L s Q'.
Proof. unfold wpl. destruct (m L s); naive_solver. Qed.

(** Calling an operation whose specification is known. *)
Lemma wpl_call {A} (m : M S A) L s (P : A -> S -> Prop) Q :
  wp m L s P -> (forall a s', P a s' -> Q a L s') -> wpl m L s Q.
Proof. intros Hm Hk. eapply wpl_mono; [exact Hm|]. naive_solver. Qed.

Lemma wp_intro {A} (m : M S A) L s (Q : A -> S -> Prop) :
  wpl m L s (fun a L' s' => L' = L /\ Q a s') -> wp m L s Q.
Proof. done. Qed.

Lemma wp_mono {A} (m : M S A) L s (Q Q' : A -> S -> Prop) :
  wp m L s Q -> (forall a s', Q a s' -> Q' a s') -> wp m L s Q'.
Proof. intros H ?. eapply wpl_mono; [exact H|]. naive_solver. Qed.

(** What a specification says of a run whose result is known. *)
Lemma wp_result {A} (m : M S A) L s (r0 : A) (Q : A -> S -> Prop) :
  returns m L s r0 -> wp m L s Q -> wp m L s (fun r s' => r = r0 /\ Q r s').
Proof. unfold returns, wp, wpl. destruct (m L s); naive_solver. Qed.

Lemma wpl_assoc {A B C} (a : M S A) (b : A -> M S B) (k : B -> M S C) L s Q :
  wpl ((a ≫= b) ≫= k) L s Q -> wpl (a ≫= fun x => b x ≫= k) L s Q.
Proof. unfold wpl, mbind, M_bind. by destruct (a L s). Qed.

Lemma wp_run {A} (m : M S A) L s (Q : A -> S -> Prop) a L' s' :
  wp m L s Q -> m L s = Ok a L' s' -> L' = L /\ Q a s'.
Proof. unfold wp, wpl. intros Hw E. by rewrite E in Hw. Qed.

Lemma wp_exists {A} (m : M S A) L s (Q : A -> S -> Prop) :
  wp m L s Q -> exists a s', m L s = Ok a L s' /\ Q a s'.
Proof. unfold wp, wpl. destruct (m L s); naive_solver. Qed.

Lemma wpl_gets {A} (f : S -> A) L s Q : Q (f s) L s -> wpl (gets f) L s Q.
Proof. done. Qed.

Lemma wpl_modify (f : S -> S) L s Q : Q tt L (f s) -> wpl (modify f) L s Q.
Proof. done. Qed.

Lemma wpl_acquire l L s Q : l ∉ L -> Q tt (l :: L) s -> wpl (acquire l) L s Q.
Proof. intros. unfold wpl, acquire. by rewrite decide_False. Qed.

Lemma wpl_release l L s Q : Q tt L s -> wpl (release l) (l :: L) s Q.
Proof.
  intros. unfold wpl, release. rewrite decide_True by constructor.
  simpl. by rewrite decide_True.
Qed.

Lemma wpl_zoom {C A} `{Lens S C} (m : M C A) L s Q :
  wpl m L (view s) (fun a L' c => Q a L' (over c s)) -> wpl (zoom m) L s Q.
Proof. unfold wpl, zoom. by destruct (m L (view s)). Qed.

(** An operation of a component run in the larger state changes nothing else. *)
Lemma zoom_wp {C A} `{Lens S C} (m : M C A) L s (Q : A -> C -> Prop) :
  wp m L (view s) Q -> wp (zoom m) L s (fun a s' => exists c, s' = over c s /\ Q a c).
Proof. unfold wp, wpl, zoom. destruct (m L (view s)); naive_solver. Qed.

Lemma panics_bind {A B} (m : M S A) (k : A -> M S B) L s msg :
  wpl m L s (fun a L' s' => panics (k a) L' s' msg) -> panics (m ≫= k) L s msg.
Proof. unfold wpl, panics, mbind, M_bind. by destruct (m L s). Qed.

Lemma panics_head {A B} (m : M S A) (k : A -> M S B) L s msg :
  panics m L s msg -> panics (m ≫= k) L s msg.
Proof. unfold panics, mbind, M_bind. by intros ->. Qed.

Lemma panics_zoom {C A} `{Lens S C} (m : M C A) L s msg :
  panics m L (view s) msg -> panics (zoom m) L s msg.
Proof. unfold panics, zoom. by intros ->. Qed.

Lemma loop_S {X A} k (body : X -> M S (X + A)) x :
  loop (Datatypes.S k) body x = (r ← body x; match r with inl x' => loop k body x' | inr a => mret a end).
Proof. done. Qed.

(** A loop with an invariant [I] and a measure that every round decreases
    terminates whenever its fuel exceeds the measure. *)
Lemma wpl_loop_state {X A} (I : X -> S -> Prop) (measure : X -> S -> nat)
    (body : X -> M S (X + A)) (Q : A -> S -> Prop) L fuel x s :
  (forall x s, I x s -> wp (body x) L s (fun r s' =>
     match r with
     | inl x' => I x' s' /\ (measure x' s' < measure x s)%nat
     | inr a => Q a s'
     end)) ->
  I x s -> (measure x s < fuel)%nat -> wp (loop fuel body x) L s Q.
Proof.
  intros Hbody. revert x s. induction fuel as [|n IH]; intros x s HI Hm; [lia|].
  simpl. apply wpl_bind. eapply wpl_call; [by apply Hbody|].
  intros [x'|a] s' Hr; simpl in Hr; [|by apply wpl_ret].
  destruct Hr. apply IH; [done|lia].
Qed.

Lemma wpl_loop {X A} (I : X -> S -> Prop) (measure : X -> nat)
    (body : X -> M S (X + A)) (Q : A -> S -> Prop) L fuel x s :
  (forall x s, I x s -> wp (body x) L s (fun r s' =>
     match r with
     | inl x' => I x' s' /\ (measure x' < measure x)%nat
     | inr a => Q a s'
     end)) ->
  I x s -> (measure x < fuel)%nat -> wp (loop fuel body x) L s Q.
Proof. apply (wpl_loop_state I (fun x _ => measure x)). Qed.

Lemma safe_wp {A} (m : M S A) L s (Q : A -> S -> Prop) : wp m L s Q -> safe m L s Q.
Proof. unfold wp, wpl, safe. by destruct (m L s). Qed.

Lemma safe_bind {A B} (m : M S A) (k : A -> M S B) L s (P : A -> S -> Prop) (Q : B -> S -> Prop) :
  safe m L s P -> (forall a s', P a s' -> safe (k a) L s' Q) -> safe (m ≫= k) L s Q.
Proof. unfold safe, mbind, M_bind. destruct (m L s); try done. intros [-> HP] Hk. by apply Hk. Qed.

Lemma safe_ret {A} (a : A) L s (Q : A -> S -> Prop) : Q a s -> safe (mret a) L s Q.
Proof. done. Qed.

Lemma safe_panic {A} msg L s (Q : A -> S -> Prop) : safe (panic msg) L s Q.
Proof. done. Qed.

Lemma safe_mono {A} (m : M S A) L s (Q Q' : A -> S -> Prop) : safe m L s Q -> (forall a s', Q a s' -> Q' a s') -> safe m L s Q'.
Proof. unfold safe. destruct (m L s); naive_solver. Qed.

Lemma safe_loop {X A} (I : X -> S -> Prop) (measure : X -> S -> nat) (body : X -> M S (X + A)) (Q : A -> S -> Prop) L fuel x s :
  (forall x s, I x s -> safe (body x) L s (fun r s' =>
     match r with inl x' => I x' s' /\ (measure x' s' < measure x s)%nat | inr a => Q a s' end)) ->
  I x s -> (measure x s < fuel)%nat -> safe (loop fuel body x) L s Q.
Proof.
  intros Hbody. revert x s. induction fuel as [|n IH]; intros x s HI Hm; [lia|]. rewrite loop_S.
  eapply safe_bind; [by apply Hbody|]. intros [x'|a] s' Hr; [|done]. destruct Hr. apply IH; [done|lia].
Qed.
End Rules.

Lemma avail_head l ls L : avail (l :: ls) L -> l ∉ L.
Proof. intros H. apply H. by left. Qed.

Lemma avail_push l ls L : avail ls L -> l ∉ ls -> avail ls (l :: L).
Proof. intros H ? x Hx [->|]%elem_of_cons; [done|]. by apply (H x). Qed.

Lemma avail_incl ls ls' L : avail ls L -> ls' ⊆ ls -> avail ls' L.
Proof. intros H Hs l Hl. apply H. by apply Hs. Qed.

Lemma avail_nil ls : avail ls [].
Proof. intros l _ H. by apply elem_of_nil in H. Qed.

(** Lock side conditions: [l ∉ L] and [avail ls (l :: L)] from an [avail]
    hypothesis. *)
Ltac solve_avail :=
  lazymatch goal with
  | H : avail _ ?L |- _ ∉ ?L => apply H; set_solver
  | |- avail _ [] => apply avail_nil
  | |- avail _ _ =>
      repeat (apply avail_push; [|set_solver]);
      first [assumption | eapply avail_incl; [eassumption|set_solver]]
  | |- _ ∉ _ => set_solver
  end.

(** One step of the monad: binds, returns, reads, updates and locks; calls and
    branches are left to the proof. *)
Ltac wstep :=
  lazymatch goal with
  | |- wp _ _ _ _ => apply wp_intro
  | |- wpl (_ ≫= _) _ _ _ => apply wpl_bind
  | |- wpl (mret _) _ _ _ => apply wpl_ret
  | |- wpl (gets _) _ _ _ => apply wpl_gets
  | |- wpl (modify _) _ _ _ => apply wpl_modify
  | |- wpl (acquire _) _ _ _ => apply wpl_acquire; [solve_avail|]
  | |- wpl (release _) _ _ _ => apply wpl_release
  | |- wpl (zoom _) _ _ _ => apply wpl_zoom
  end; cbv beta.

Ltac wsteps := repeat wstep.

(** Take a branch whose condition is known, or split on it. *)
Ltac wtrue := rewrite decide_True; cbv beta.
Ltac wfalse := rewrite decide_False; cbv beta.
Ltac wcase :=
  lazymatch goal with
  | |- wpl (if decide ?P then _ else _) _ _ _ => destruct (decide P)
  end.
Tactic Notation "wcase" "as" ident(H) :=
  lazymatch goal with
  | |- wpl (if decide ?P then _ else _) _ _ _ => destruct (decide P) as [H|H]
  end.

(** Call an operation by its specification lemma. *)
Tactic Notation "wcall" uconstr(lem) := eapply wpl_call; [eapply lem|].
