(* ===== verification/Riscv.v ===== *)
(** Constants and macros of kernel/param.h, kernel/memlayout.h and
    kernel/riscv.h: sizes, the physical and virtual memory layout, page rounding,
    the page-table-entry encoding and the Sv39 index extraction, with the
    arithmetic facts the memory components use. *)
From S2P Require Import Prelude.
Local Open Scope Z_scope.

(** * Memory layout *)

Definition PGSIZE : Z := 4096.
Definition PGSHIFT : Z := 12.
Definition KERNBASE : Z := 0x80000000.
Definition PHYSTOP : Z := KERNBASE + 512 * 1024 * 1024.
Definition MAXVA : Z := Z.shiftl 1 (9 + 9 + 9 + 12 - 1).
Definition TRAMPOLINE : Z := MAXVA - PGSIZE.
Definition TRAPFRAME : Z := TRAMPOLINE - PGSIZE.
Definition KSTACK (p : Z) : Z := TRAMPOLINE - (p + 1) * 2 * PGSIZE.

(** * Page rounding (on uint64) *)

Definition PGROUNDUP (sz : Z) : Z := Z.land (u64 (sz + PGSIZE - 1)) (Z.lnot (PGSIZE - 1)).
Definition PGROUNDDOWN (a : Z) : Z := Z.land a (Z.lnot (PGSIZE - 1)).

(** * Page-table entries *)

Definition PTE_V : Z := Z.shiftl 1 0.
Definition PTE_R : Z := Z.shiftl 1 1.
Definition PTE_W : Z := Z.shiftl 1 2.
Definition PTE_X : Z := Z.shiftl 1 3.
Definition PTE_U : Z := Z.shiftl 1 4.
Definition PTE_C : Z := Z.shiftl 1 5.

Definition PA2PTE (pa : Z) : Z := u64 (Z.shiftl (Z.shiftr pa 12) 10).
Definition PTE2PA (pte : Z) : Z := u64 (Z.shiftl (Z.shiftr pte 10) 12).
Definition PTE_FLAGS (pte : Z) : Z := Z.land pte 0x3FF.

Definition PXMASK : Z := 0x1FF.
Definition PXSHIFT (level : Z) : Z := PGSHIFT + 9 * level.
Definition PX (level va : Z) : Z := Z.land (Z.shiftr va (PXSHIFT level)) PXMASK.

(** * The satp register: Sv39 and the page number of the root *)
Definition SATP_SV39 : Z := Z.shiftl 8 60.
Definition MAKE_SATP (pagetable : Z) : Z := Z.lor SATP_SV39 (Z.shiftr pagetable 12).

(** * Rounding *)

Lemma PGROUNDDOWN_eq (a : Z) : PGROUNDDOWN a = a - a mod PGSIZE.
Proof. unfold PGROUNDDOWN. change PGSIZE with (2 ^ 12). apply land_lnot_ones. lia. Qed.

Lemma PGROUNDUP_eq (sz : Z) :
  0 <= sz <= 2 ^ 64 - PGSIZE ->
  PGROUNDUP sz = (sz + PGSIZE - 1) / PGSIZE * PGSIZE.
Proof.
  unfold PGROUNDUP. change PGSIZE with (2 ^ 12). intros.
  rewrite u64_small, land_lnot_ones by lia. zdiv.
Qed.

Lemma PGROUNDUP_aligned (sz : Z) : PGROUNDUP sz mod PGSIZE = 0.
Proof.
  unfold PGROUNDUP. change PGSIZE with (2 ^ 12). rewrite land_lnot_ones by lia. zdiv.
Qed.

Lemma PGROUNDDOWN_aligned (a : Z) : PGROUNDDOWN a mod PGSIZE = 0.
Proof. rewrite PGROUNDDOWN_eq. unfold PGSIZE. zdiv. Qed.

Lemma PGROUNDUP_bounds (sz : Z) :
  0 <= sz <= 2 ^ 64 - PGSIZE -> sz <= PGROUNDUP sz < sz + PGSIZE.
Proof. intros. rewrite PGROUNDUP_eq by done. unfold PGSIZE in *. zdiv. Qed.

Lemma PGROUNDUP_id (sz : Z) :
  0 <= sz <= 2 ^ 64 - PGSIZE -> sz mod PGSIZE = 0 -> PGROUNDUP sz = sz.
Proof. intros. rewrite PGROUNDUP_eq by done. unfold PGSIZE in *. zdiv. Qed.

Lemma PGROUNDDOWN_id (a : Z) : a mod PGSIZE = 0 -> PGROUNDDOWN a = a.
Proof. intros. rewrite PGROUNDDOWN_eq. lia. Qed.

Lemma PGROUNDDOWN_bounds (a : Z) : PGROUNDDOWN a <= a < PGROUNDDOWN a + PGSIZE.
Proof. rewrite PGROUNDDOWN_eq. unfold PGSIZE. zdiv. Qed.

(** * Indices *)

Lemma PX_eq (level va : Z) : 0 <= level -> PX level va = va / 2 ^ (12 + 9 * level) mod 512.
Proof.
  intros. unfold PX, PXSHIFT, PGSHIFT. change PXMASK with (Z.ones 9).
  rewrite Z.land_ones by lia. rewrite Z.shiftr_div_pow2 by lia. done.
Qed.

Lemma PX_range (level va : Z) : 0 <= level -> 0 <= PX level va < 512.
Proof. intros. rewrite PX_eq by done. apply Z.mod_pos_bound. lia. Qed.

(** The addresses that three levels of 9-bit indices tell apart; the code stays
    in the lower half of them, below [MAXVA]. *)
Definition VASPACE : Z := 2 ^ 39.

Lemma MAXVA_VASPACE (va : Z) : va < MAXVA -> va < VASPACE.
Proof. change MAXVA with (2 ^ 38). unfold VASPACE. lia. Qed.

(** The virtual page number is made of the three indices. *)
Lemma PX_vpn (va : Z) :
  0 <= va < VASPACE -> va / PGSIZE = PX 2 va * 2 ^ 18 + PX 1 va * 2 ^ 9 + PX 0 va.
Proof.
  unfold VASPACE. intros Hva. rewrite !PX_eq by lia. unfold PGSIZE.
  change (2 ^ (12 + 9 * 2)) with (4096 * 512 * 512).
  change (2 ^ (12 + 9 * 1)) with (4096 * 512). change (2 ^ (12 + 9 * 0)) with 4096.
  rewrite <- !Z.div_div by lia. zdiv.
Qed.

Lemma PX_inj (va va' : Z) :
  0 <= va < VASPACE -> 0 <= va' < VASPACE ->
  PX 2 va = PX 2 va' -> PX 1 va = PX 1 va' -> PX 0 va = PX 0 va' ->
  va / PGSIZE = va' / PGSIZE.
Proof. intros. rewrite !PX_vpn by done. congruence. Qed.

(** Every triple of indices is that of an address. *)
Lemma PX_compose (i j k : Z) :
  0 <= i < 512 -> 0 <= j < 512 -> 0 <= k < 512 ->
  let va := (i * 2 ^ 18 + j * 2 ^ 9 + k) * PGSIZE in
  0 <= va < VASPACE /\ PX 2 va = i /\ PX 1 va = j /\ PX 0 va = k.
Proof.
  intros Hi Hj Hk va. unfold va, VASPACE, PGSIZE. rewrite !PX_eq by lia.
  change (2 ^ (12 + 9 * 2)) with (4096 * 512 * 512).
  change (2 ^ (12 + 9 * 1)) with (4096 * 512). change (2 ^ (12 + 9 * 0)) with 4096.
  rewrite <- !Z.div_div, Z.div_mul by lia. split_and!; zdiv.
Qed.

(** Addresses of the same page have the same indices. *)
Lemma PX_page (level va va' : Z) :
  0 <= level -> va / PGSIZE = va' / PGSIZE -> PX level va = PX level va'.
Proof.
  intros Hl Hv. rewrite !PX_eq by done. unfold PGSIZE in Hv.
  rewrite Z.pow_add_r by lia. change (2 ^ 12) with 4096.
  rewrite <- !Z.div_div by lia. by rewrite Hv.
Qed.

(** * Entries *)

(** A physical page that an entry can name: aligned and within 56 bits. *)
Definition pte_page (pa : Z) : Prop := 0 <= pa < 2 ^ 56 /\ pa mod PGSIZE = 0.

Lemma PA2PTE_eq (pa : Z) : pte_page pa -> PA2PTE pa = pa / PGSIZE * 1024.
Proof.
  intros [Hr Ha]. unfold PA2PTE, PGSIZE in *.
  rewrite Z.shiftr_div_pow2, Z.shiftl_mul_pow2 by lia.
  change (2 ^ 12) with 4096. change (2 ^ 10) with 1024. apply u64_small. zdiv.
Qed.

Lemma PTE_lor_eq (pa fl : Z) :
  pte_page pa -> 0 <= fl < 1024 -> Z.lor (PA2PTE pa) fl = pa / PGSIZE * 1024 + fl.
Proof.
  intros Hp Hf. rewrite PA2PTE_eq by done.
  replace (pa / PGSIZE * 1024) with (Z.shiftl (pa / PGSIZE) 10)
    by (rewrite Z.shiftl_mul_pow2; lia).
  rewrite lor_shiftl_add, Z.shiftl_mul_pow2 by lia. reflexivity.
Qed.

Lemma PTE_lor_range (pa fl : Z) :
  pte_page pa -> 0 <= fl < 1024 -> 0 <= Z.lor (PA2PTE pa) fl < 2 ^ 64.
Proof.
  intros Hp Hf. rewrite PTE_lor_eq by done. destruct Hp. unfold PGSIZE in *. zdiv.
Qed.

Lemma PTE2PA_lor (pa fl : Z) :
  pte_page pa -> 0 <= fl < 1024 -> PTE2PA (Z.lor (PA2PTE pa) fl) = pa.
Proof.
  intros Hp Hf. rewrite PTE_lor_eq by done. destruct Hp. unfold PTE2PA, PGSIZE in *.
  rewrite Z.shiftr_div_pow2, Z.shiftl_mul_pow2 by lia.
  change (2 ^ 12) with 4096. change (2 ^ 10) with 1024.
  rewrite Z.div_add_l, (Z.div_small fl), Z.add_0_r by lia.
  rewrite u64_small; zdiv.
Qed.

Lemma PTE_FLAGS_lor (pa fl : Z) :
  pte_page pa -> 0 <= fl < 1024 -> PTE_FLAGS (Z.lor (PA2PTE pa) fl) = fl.
Proof.
  intros Hp Hf. rewrite PTE_lor_eq by done. unfold PTE_FLAGS.
  change 1023 with (Z.ones 10). rewrite Z.land_ones by lia.
  change (2 ^ 10) with 1024.
  rewrite Z.add_comm, Z.mod_add by lia. by apply Z.mod_small.
Qed.

(** Tests of the low ten bits see only the flags. *)
Lemma has_bits_lor (pa fl m : Z) :
  pte_page pa -> 0 <= fl < 1024 -> 0 <= m < 1024 ->
  has_bits (Z.lor (PA2PTE pa) fl) m = has_bits fl m.
Proof.
  intros Hp Hf Hm. unfold has_bits.
  rewrite <- (PTE_FLAGS_lor pa fl) at 2 by done. unfold PTE_FLAGS.
  rewrite <- Z.land_assoc. do 3 f_equal. symmetry.
  change 1023 with (Z.ones 10). rewrite Z.land_comm, Z.land_ones by lia.
  by apply Z.mod_small.
Qed.

Lemma PTE_FLAGS_range (pte : Z) : 0 <= PTE_FLAGS pte < 1024.
Proof.
  unfold PTE_FLAGS. change 1023 with (Z.ones 10). rewrite Z.land_ones by lia.
  apply Z.mod_pos_bound. lia.
Qed.

Lemma has_bits_flags (v m : Z) : 0 <= m < 1024 -> has_bits (PTE_FLAGS v) m = has_bits v m.
Proof.
  intros Hm. unfold has_bits, PTE_FLAGS. rewrite <- Z.land_assoc. do 3 f_equal.
  change 1023 with (Z.ones 10). rewrite Z.land_comm, Z.land_ones by lia. by apply Z.mod_small.
Qed.

Lemma lor_low_range (a b : Z) : 0 <= a < 1024 -> 0 <= b < 1024 -> 0 <= Z.lor a b < 1024.
Proof.
  intros. split; [apply Z.lor_nonneg; lia|].
  destruct (decide (Z.lor a b = 0)) as [->|]; [lia|].
  change 1024 with (2 ^ 10). apply Z.log2_lt_pow2; [pose proof (Z.lor_nonneg a b); lia|].
  rewrite Z.log2_lor by lia.
  assert (Hl : forall x, 0 <= x < 1024 -> Z.log2 x < 10).
  { intros x Hx. destruct (decide (x = 0)) as [->|]; [done|].
    apply Z.log2_lt_pow2; lia. }
  apply Z.max_lub_lt; by apply Hl.
Qed.
