(* ===== verification/PhysMem.v ===== *)
(** Physical memory: RAM as a map from addresses to bytes, little-endian loads
    and stores, and the bulk operations of kernel/string.c on RAM ([memset],
    [memmove]).  Every access checks that it stays inside RAM; one that does not
    is undefined behaviour. *)
From S2P Require Import Prelude Riscv.
Local Open Scope Z_scope.

(** * Bytes and little-endian words *)

Section Bytes.
Implicit Types (m : gmap Z Z) (a x v : Z) (n : nat).

(** The byte at [a]. *)
Definition byte m a : Z := u8 (default 0 (m !! a)).

Fixpoint load_le m a n : Z :=
  match n with
  | O => 0
  | S k => byte m a + 256 * load_le m (a + 1) k
  end.

Fixpoint store_le m a n v : gmap Z Z :=
  match n with
  | O => m
  | S k => store_le (<[a := u8 v]> m) (a + 1) k (v / 256)
  end.

Lemma byte_range m a : 0 <= byte m a < 256.
Proof. apply u8_range. Qed.

Lemma byte_insert_eq m a v : byte (<[a := v]> m) a = u8 v.
Proof. unfold byte. by rewrite lookup_insert_eq. Qed.

Lemma byte_insert_ne m a x v : a <> x -> byte (<[a := v]> m) x = byte m x.
Proof. intros. unfold byte. by rewrite lookup_insert_ne. Qed.

Lemma u8_u8 x : u8 (u8 x) = u8 x.
Proof. apply u8_small, u8_range. Qed.

Lemma byte_store_le_out m a n v x :
  x < a \/ a + Z.of_nat n <= x -> byte (store_le m a n v) x = byte m x.
Proof.
  revert m a v. induction n as [|n IH]; intros m a v Hx; [done|].
  simpl. rewrite IH by lia. apply byte_insert_ne. lia.
Qed.

Lemma load_le_ext m m' a n :
  (forall x, a <= x < a + Z.of_nat n -> byte m x = byte m' x) ->
  load_le m a n = load_le m' a n.
Proof.
  revert a. induction n as [|n IH]; intros a Hx; [done|].
  simpl. rewrite Hx, (IH (a + 1)); [done| |lia]. intros. apply Hx. lia.
Qed.

Lemma load_le_range m a n : 0 <= load_le m a n < 256 ^ Z.of_nat n.
Proof.
  revert a. induction n as [|n IH]; intros a; [simpl; lia|].
  replace (Z.of_nat (S n)) with (Z.succ (Z.of_nat n)) by lia.
  rewrite Z.pow_succ_r by lia. simpl.
  pose proof (byte_range m a). specialize (IH (a + 1)). nia.
Qed.

Lemma load_store_le m a n v :
  load_le (store_le m a n v) a n = v mod 256 ^ Z.of_nat n.
Proof.
  revert m a v. induction n as [|n IH]; intros m a v.
  { simpl. by rewrite Z.mod_1_r. }
  replace (Z.of_nat (S n)) with (Z.succ (Z.of_nat n)) by lia.
  rewrite Z.pow_succ_r by lia. simpl.
  rewrite IH, byte_store_le_out, byte_insert_eq, u8_u8 by lia.
  rewrite (Z.rem_mul_r v 256) by lia. done.
Qed.

Lemma load_store_le_ne m a b n k v :
  a + Z.of_nat k <= b \/ b + Z.of_nat n <= a ->
  load_le (store_le m a k v) b n = load_le m b n.
Proof. intros. apply load_le_ext. intros. apply byte_store_le_out. lia. Qed.

Lemma load_le_zero m a n :
  (forall x, a <= x < a + Z.of_nat n -> byte m x = 0) -> load_le m a n = 0.
Proof.
  revert a. induction n as [|n IH]; intros a Hx; [done|].
  simpl. rewrite Hx, IH; [done| |lia]. intros. apply Hx. lia.
Qed.

(** ** memset: the loop of kernel/string.c, byte by byte *)
Fixpoint memset_bytes m (dst c : Z) n : gmap Z Z :=
  match n with
  | O => m
  | S k => memset_bytes (<[dst := u8 c]> m) (dst + 1) c k
  end.

Lemma byte_memset m dst c n x :
  byte (memset_bytes m dst c n) x =
    if decide (dst <= x < dst + Z.of_nat n) then u8 c else byte m x.
Proof.
  revert m dst. induction n as [|n IH]; intros m dst.
  { simpl. rewrite decide_False by lia. done. }
  simpl. rewrite IH. repeat case_decide; try lia; try done.
  - replace x with dst by lia. by rewrite byte_insert_eq, u8_u8.
  - apply byte_insert_ne. lia.
Qed.

(** ** memmove: ascending copy, and descending copy when the destination
    overlaps the end of the source *)
Fixpoint copy_up m (d s : Z) n : gmap Z Z :=
  match n with
  | O => m
  | S k => copy_up (<[d := byte m s]> m) (d + 1) (s + 1) k
  end.

(** [d] and [s] are one past the end of the two areas. *)
Fixpoint copy_down m (d s : Z) n : gmap Z Z :=
  match n with
  | O => m
  | S k => copy_down (<[d - 1 := byte m (s - 1)]> m) (d - 1) (s - 1) k
  end.

Definition memmove_bytes m (dst src : Z) n : gmap Z Z :=
  if decide (n = O) then m
  else if decide (src < dst /\ src + Z.of_nat n > dst)
  then copy_down m (dst + Z.of_nat n) (src + Z.of_nat n) n
  else copy_up m dst src n.

Lemma byte_copy_up m d s n x :
  d <= s \/ s + Z.of_nat n <= d ->
  byte (copy_up m d s n) x =
    if decide (d <= x < d + Z.of_nat n) then byte m (s + (x - d)) else byte m x.
Proof.
  revert m d s. induction n as [|n IH]; intros m d s Hov.
  { simpl. rewrite decide_False by lia. done. }
  simpl. rewrite IH by lia. repeat case_decide; try lia.
  - rewrite byte_insert_ne by lia. f_equal. lia.
  - replace x with d by lia. rewrite byte_insert_eq, u8_small by apply byte_range.
    f_equal. lia.
  - apply byte_insert_ne. lia.
Qed.

Lemma byte_copy_down m d s n x :
  s < d ->
  byte (copy_down m d s n) x =
    if decide (d - Z.of_nat n <= x < d) then byte m (s - (d - x)) else byte m x.
Proof.
  revert m d s. induction n as [|n IH]; intros m d s Hov.
  { simpl. rewrite decide_False by lia. done. }
  simpl. rewrite IH by lia. repeat case_decide; try lia.
  - rewrite byte_insert_ne by lia. f_equal. lia.
  - replace x with (d - 1) by lia. rewrite byte_insert_eq, u8_small by apply byte_range.
    f_equal. lia.
  - apply byte_insert_ne. lia.
Qed.

(** memmove copies the source as it was before the call, also when the two
    areas overlap. *)
Lemma byte_memmove m dst src n x :
  byte (memmove_bytes m dst src n) x =
    if decide (dst <= x < dst + Z.of_nat n) then byte m (src + (x - dst)) else byte m x.
Proof.
  unfold memmove_bytes. case_decide; [subst; rewrite decide_False by lia; done|].
  case_decide.
  - rewrite byte_copy_down by lia. repeat case_decide; try lia; try done. f_equal. lia.
  - apply byte_copy_up. lia.
Qed.

(** ** Byte strings *)
Fixpoint load_bytes m a n : list Z :=
  match n with O => [] | S k => byte m a :: load_bytes m (a + 1) k end.

Fixpoint store_bytes m a (bs : list Z) : gmap Z Z :=
  match bs with [] => m | b :: bs' => store_bytes (<[a := u8 b]> m) (a + 1) bs' end.

Lemma length_load_bytes m a n : length (load_bytes m a n) = n.
Proof. revert a. induction n; intros; simpl; auto. Qed.

Lemma byte_store_bytes_out m a bs x :
  x < a \/ a + Z.of_nat (length bs) <= x -> byte (store_bytes m a bs) x = byte m x.
Proof.
  revert m a. induction bs as [|b bs IH]; intros m a Hx; [done|].
  simpl in *. rewrite IH by lia. apply byte_insert_ne. lia.
Qed.

Lemma byte_store_bytes_in m a bs i b :
  bs !! i = Some b -> byte (store_bytes m a bs) (a + Z.of_nat i) = u8 b.
Proof.
  revert m a i. induction bs as [|c bs IH]; intros m a [|i] Hi; simpl in *; try done.
  - injection Hi as ->. rewrite byte_store_bytes_out by lia.
    rewrite Z.add_0_r, byte_insert_eq. apply u8_u8.
  - replace (a + Z.of_nat (S i)) with (a + 1 + Z.of_nat i) by lia. by apply IH.
Qed.

Lemma load_bytes_lookup m a n i :
  (i < n)%nat -> load_bytes m a n !! i = Some (byte m (a + Z.of_nat i)).
Proof.
  revert a i. induction n as [|n IH]; intros a [|i] Hi; try lia; simpl.
  - by rewrite Z.add_0_r.
  - rewrite IH by lia. do 2 f_equal. lia.
Qed.

Lemma load_bytes_ext m m' a n :
  (forall x, a <= x < a + Z.of_nat n -> byte m x = byte m' x) ->
  load_bytes m a n = load_bytes m' a n.
Proof.
  revert a. induction n as [|n IH]; intros a Hx; [done|].
  simpl. rewrite Hx, (IH (a + 1)); [done| |lia]. intros. apply Hx. lia.
Qed.
End Bytes.

(** The bulk operations are used through their byte-wise specifications. *)
#[global] Opaque memset_bytes memmove_bytes load_bytes store_bytes load_le store_le byte.

(** * The memory state

    RAM, and the two global tables of kernel/kalloc.c: the head of the list of
    free pages ([kmem.freelist]) and the reference counts ([ref_count]). *)
Record mem := mkMem {
  ram : gmap Z Z;
  freelist : Z;
  ref_count : gmap Z Z
}.

Definition set_ram (f : gmap Z Z -> gmap Z Z) (s : mem) : mem :=
  mkMem (f (ram s)) (freelist s) (ref_count s).
Definition set_freelist (p : Z) (s : mem) : mem :=
  mkMem (ram s) p (ref_count s).
Definition set_ref (i v : Z) (s : mem) : mem :=
  mkMem (ram s) (freelist s) (<[i := v]> (ref_count s)).

(** An area of [n] bytes at [a] lies in RAM. *)
Definition ram_ok (a n : Z) : Prop := KERNBASE <= a /\ a + n <= PHYSTOP.
#[export] Instance ram_ok_dec a n : Decision (ram_ok a n).
Proof. unfold ram_ok. apply _. Defined.

Definition load64 (a : Z) : M mem Z :=
  if decide (ram_ok a 8) then gets (fun s => load_le (ram s) a 8) else undef "load".
Definition store64 (a v : Z) : M mem unit :=
  if decide (ram_ok a 8) then modify (set_ram (fun m => store_le m a 8 v)) else undef "store".

Definition memset (dst c : Z) (n : Z) : M mem unit :=
  if decide (ram_ok dst n) then modify (set_ram (fun m => memset_bytes m dst c (Z.to_nat n)))
  else undef "memset".
Definition memmove (dst src n : Z) : M mem unit :=
  if decide (ram_ok dst n /\ ram_ok src n)
  then modify (set_ram (fun m => memmove_bytes m dst src (Z.to_nat n)))
  else undef "memmove".

(** memmove between RAM and a kernel buffer that is not modelled in RAM (a local
    variable or a field of a kernel structure), given by its bytes. *)
Definition memmove_to (dst : Z) (bs : list Z) : M mem unit :=
  if decide (ram_ok dst (Z.of_nat (length bs)))
  then modify (set_ram (fun m => store_bytes m dst bs)) else undef "memmove".
Definition memmove_from (src n : Z) : M mem (list Z) :=
  if decide (ram_ok src n) then gets (fun s => load_bytes (ram s) src (Z.to_nat n))
  else undef "memmove".

(** Two memories agree on the page at [p]. *)
Definition same_page (m m' : gmap Z Z) (p : Z) : Prop :=
  forall x, p <= x < p + PGSIZE -> byte m x = byte m' x.

#[export] Instance same_page_equiv p : Equivalence (fun m m' => same_page m m' p).
Proof.
  split; [done|intros ?? H x ?; symmetry; by apply H
         |intros ??? H1 H2 x ?; etrans; [by apply H1|by apply H2]].
Qed.

Lemma same_page_trans m1 m2 m3 p :
  same_page m1 m2 p -> same_page m2 m3 p -> same_page m1 m3 p.
Proof. intros H1 H2 x ?. etrans; [by apply H1|by apply H2]. Qed.

Lemma same_page_sym m1 m2 p : same_page m1 m2 p -> same_page m2 m1 p.
Proof. intros H1 x ?. symmetry. by apply H1. Qed.

(** The [i]-th 64-bit word of the page at [p]. *)
Definition word (m : gmap Z Z) (p i : Z) : Z := load_le m (p + 8 * i) 8.

Lemma word_same_page m m' p i :
  same_page m m' p -> 0 <= i < 512 -> word m p i = word m' p i.
Proof. intros H ?. apply load_le_ext. intros. apply H. unfold PGSIZE. lia. Qed.

Lemma word_range m p i : 0 <= word m p i < 2 ^ 64.
Proof. apply (load_le_range m (p + 8 * i) 8). Qed.

(** Pages are aligned, so distinct pages are disjoint. *)
Lemma pages_disjoint (p q x : Z) :
  p mod PGSIZE = 0 -> q mod PGSIZE = 0 -> p <> q ->
  p <= x < p + PGSIZE -> q <= x < q + PGSIZE -> False.
Proof. unfold PGSIZE. intros. zdiv. Qed.

Lemma same_page_store_le m p q i v :
  p mod PGSIZE = 0 -> q mod PGSIZE = 0 -> p <> q -> 0 <= i < 512 ->
  same_page m (store_le m (p + 8 * i) 8 v) q.
Proof.
  intros Hp Hq Hne Hi x Hx. symmetry. apply byte_store_le_out.
  destruct (decide (p <= x < p + PGSIZE)); [by destruct (pages_disjoint p q x)|].
  unfold PGSIZE in *. lia.
Qed.

Lemma word_store_eq m p i v :
  0 <= v < 2 ^ 64 -> word (store_le m (p + 8 * i) 8 v) p i = v.
Proof. intros. unfold word. rewrite load_store_le. by apply Z.mod_small. Qed.

Lemma word_store_first m p v :
  0 <= v < 2 ^ 64 -> word (store_le m p 8 v) p 0 = v.
Proof. intros. rewrite <- (Z.add_0_r p) at 1. by apply (word_store_eq m p 0 v). Qed.

Lemma word_store_ne m p i j v :
  i <> j -> word (store_le m (p + 8 * i) 8 v) p j = word m p j.
Proof. intros. unfold word. apply load_store_le_ne. simpl. lia. Qed.

Lemma same_page_memset m p q c :
  p mod PGSIZE = 0 -> q mod PGSIZE = 0 -> p <> q ->
  same_page m (memset_bytes m p c (Z.to_nat PGSIZE)) q.
Proof.
  intros Hp Hq Hne x Hx. rewrite byte_memset, decide_False; [done|].
  rewrite Z2Nat.id by done. intros ?. by destruct (pages_disjoint p q x).
Qed.

Lemma same_page_memmove m p q src :
  p mod PGSIZE = 0 -> q mod PGSIZE = 0 -> p <> q ->
  same_page m (memmove_bytes m p src (Z.to_nat PGSIZE)) q.
Proof.
  intros Hp Hq Hne x Hx. rewrite byte_memmove, decide_False; [done|].
  rewrite Z2Nat.id by done. intros ?. by destruct (pages_disjoint p q x).
Qed.

Lemma word_memset_zero m p i :
  0 <= i < 512 -> word (memset_bytes m p 0 (Z.to_nat PGSIZE)) p i = 0.
Proof.
  intros. apply load_le_zero. intros x Hx. rewrite byte_memset, decide_True; [done|].
  rewrite Z2Nat.id by done. unfold PGSIZE. lia.
Qed.

Section Access.
Implicit Types (L : list lock) (s : mem).

Lemma wpl_load64 a L s Q :
  ram_ok a 8 -> Q (load_le (ram s) a 8) L s -> wpl (load64 a) L s Q.
Proof. intros. unfold load64. by rewrite decide_True. Qed.

Lemma wpl_store64 a v L s Q :
  ram_ok a 8 -> Q tt L (set_ram (fun m => store_le m a 8 v) s) -> wpl (store64 a v) L s Q.
Proof. intros. unfold store64. by rewrite decide_True. Qed.

Lemma wpl_memset dst c n L s Q :
  ram_ok dst n -> Q tt L (set_ram (fun m => memset_bytes m dst c (Z.to_nat n)) s) ->
  wpl (memset dst c n) L s Q.
Proof. intros. unfold memset. by rewrite decide_True. Qed.

Lemma wpl_memmove dst src n L s Q :
  ram_ok dst n -> ram_ok src n ->
  Q tt L (set_ram (fun m => memmove_bytes m dst src (Z.to_nat n)) s) ->
  wpl (memmove dst src n) L s Q.
Proof. intros. unfold memmove. by rewrite decide_True. Qed.

Lemma wpl_memmove_to dst bs L s Q :
  ram_ok dst (Z.of_nat (length bs)) ->
  Q tt L (set_ram (fun m => store_bytes m dst bs) s) -> wpl (memmove_to dst bs) L s Q.
Proof. intros. unfold memmove_to. by rewrite decide_True. Qed.

Lemma wpl_memmove_from src n L s Q :
  ram_ok src n -> Q (load_bytes (ram s) src (Z.to_nat n)) L s ->
  wpl (memmove_from src n) L s Q.
Proof. intros. unfold memmove_from. by rewrite decide_True. Qed.
End Access.
