(* ===== verification/Kalloc.v ===== *)
(** The physical page allocator, kernel/kalloc.c: a list of free pages threaded
    through the first word of each free page, and a reference count per page.
    [kmem_rep] relates the memory state to the abstract list of free pages; every
    operation is specified against that list. *)
From S2P Require Import Prelude Riscv PhysMem.
Local Open Scope Z_scope.

(** The addresses the linker script kernel/kernel.ld provides. *)
Class KernelImage := {
  trampoline : Z;
  etext : Z;
  end_ : Z;
  trampoline_aligned : trampoline mod PGSIZE = 0;
  etext_aligned : etext mod PGSIZE = 0;
  trampoline_lo : KERNBASE <= trampoline;
  trampoline_hi : trampoline < etext;
  etext_hi : etext <= end_;
  end_hi : end_ <= PHYSTOP
}.

(** * The operations *)
Section Operations.
Context `{KernelImage}.

Definition PA2INDEX (pa : Z) : Z := pa / PGSIZE.

(** Accesses to [ref_count], an array of [PHYSTOP / PGSIZE] ints. *)
Definition ref_load (i : Z) : M mem Z :=
  if decide (0 <= i < PHYSTOP / PGSIZE)
  then gets (fun s => s32 (default 0 (ref_count s !! i))) else undef "ref_count".
Definition ref_store (i v : Z) : M mem unit :=
  if decide (0 <= i < PHYSTOP / PGSIZE)
  then modify (set_ref i (s32 v)) else undef "ref_count".

Definition incref (pa : Z) : M mem unit :=
  acquire ref_lock;;
  c ← ref_load (PA2INDEX pa);
  ref_store (PA2INDEX pa) (c + 1);;
  release ref_lock.

(** Free the page: drop one reference, and put the page on the free list when
    it was the last one. *)
Definition kfree (pa : Z) : M mem unit :=
  if decide (pa mod PGSIZE <> 0 \/ pa < end_ \/ pa >= PHYSTOP) then panic "kfree"
  else
    acquire ref_lock;;
    c ← ref_load (PA2INDEX pa);
    if decide (c <= 0)
    then panic "kfree: reference count less than or equal to 0"
    else
      ref_store (PA2INDEX pa) (c - 1);;
      c' ← ref_load (PA2INDEX pa);
      if decide (c' > 0) then release ref_lock
      else
        release ref_lock;;
        memset pa 1 PGSIZE;;
        acquire kmem_lock;;
        head ← gets freelist;
        store64 pa head;;
        modify (set_freelist pa);;
        release kmem_lock.

(** Allocate a page; 0 when there is none. *)
Definition kalloc : M mem Z :=
  acquire kmem_lock;;
  r ← gets freelist;
  (if decide (r <> 0)
   then next ← load64 r; modify (set_freelist next)
   else mret tt);;
  release kmem_lock;;
  (if decide (r <> 0)
   then
     memset r 5 PGSIZE;;
     acquire ref_lock;;
     ref_store (PA2INDEX r) 1;;
     release ref_lock
   else mret tt);;
  mret r.

(** One round of the loop of freerange at page [p]. *)
Definition freerange_body (pa_end p : Z) : M mem (Z + unit) :=
  if decide (p + PGSIZE <= pa_end)
  then
    acquire ref_lock;;
    ref_store (PA2INDEX p) 1;;
    release ref_lock;;
    kfree p;;
    mret (inl (p + PGSIZE))
  else mret (inr tt).

Definition freerange (pa_start pa_end : Z) : M mem unit :=
  loop (S (Z.to_nat (PHYSTOP / PGSIZE))) (freerange_body pa_end) (PGROUNDUP pa_start).

(** initlock does not change the modelled state. *)
Definition kinit : M mem unit := freerange end_ PHYSTOP.
End Operations.

(** * The representation of the free list *)
Section Representation.
Context `{KernelImage}.
Implicit Types (s : mem) (fl : list Z) (L : list lock).

(** A page the allocator manages. *)
Definition page_ok (p : Z) : Prop := p mod PGSIZE = 0 /\ end_ <= p /\ p < PHYSTOP.

(** The reference count of the page at [p]. *)
Definition ref s (p : Z) : Z := s32 (default 0 (ref_count s !! PA2INDEX p)).

(** Starting at [head], the first words of the pages of [fl] link them in
    order, and the last holds 0. *)
Fixpoint chain (m : gmap Z Z) (head : Z) fl : Prop :=
  match fl with
  | [] => head = 0
  | p :: fl' => head = p /\ chain m (word m p 0) fl'
  end.

Record kmem_rep s fl : Prop := {
  rep_chain : chain (ram s) (freelist s) fl;
  rep_nodup : NoDup fl;
  rep_pages : forall p, p ∈ fl -> page_ok p;
  rep_refs : forall p, p ∈ fl -> ref s p = 0
}.

(** The states agree on the contents and counts of all pages outside [X]. *)
Definition agree_off (X : gset Z) s s' : Prop :=
  forall q, q mod PGSIZE = 0 -> q ∉ X ->
    same_page (ram s) (ram s') q /\ ref s' q = ref s q.

Lemma agree_off_refl X s : agree_off X s s.
Proof. by intros q _ _. Qed.

Lemma agree_off_mono X Y s s' : agree_off X s s' -> X ⊆ Y -> agree_off Y s s'.
Proof. intros Hs ? q ??. apply Hs; set_solver. Qed.

Lemma agree_off_trans X s1 s2 s3 :
  agree_off X s1 s2 -> agree_off X s2 s3 -> agree_off X s1 s3.
Proof.
  intros H12 H23 q Hq HX. destruct (H12 q Hq HX), (H23 q Hq HX).
  split; [by eapply same_page_trans|congruence].
Qed.

Lemma page_ok_ram p i : page_ok p -> 0 <= i < 512 -> ram_ok (p + 8 * i) 8.
Proof.
  intros (Ha & Hlo & Hhi) ?. pose proof trampoline_lo. pose proof trampoline_hi.
  pose proof etext_hi. unfold ram_ok, PHYSTOP, KERNBASE, PGSIZE in *. zdiv.
Qed.

Lemma page_ok_first p : page_ok p -> ram_ok p 8.
Proof. intros Hp. pose proof (page_ok_ram p 0 Hp) as Ha. rewrite Z.mul_0_r, Z.add_0_r in Ha. apply Ha. lia. Qed.

Lemma page_ok_whole p : page_ok p -> ram_ok p PGSIZE.
Proof.
  intros (Ha & Hlo & Hhi). pose proof trampoline_lo. pose proof trampoline_hi.
  pose proof etext_hi. unfold ram_ok, PHYSTOP, KERNBASE, PGSIZE in *. zdiv.
Qed.

Lemma page_ok_pos p : page_ok p -> KERNBASE < p.
Proof.
  intros (_ & ? & _). pose proof trampoline_lo. pose proof trampoline_hi.
  pose proof etext_hi. lia.
Qed.

Lemma page_ok_index p : page_ok p -> 0 <= PA2INDEX p < PHYSTOP / PGSIZE.
Proof.
  intros Hp. pose proof (page_ok_pos p Hp). destruct Hp as (Ha & Hlo & Hhi).
  unfold PA2INDEX, PHYSTOP, KERNBASE, PGSIZE in *. zdiv.
Qed.

Lemma page_ok_pte p : page_ok p -> pte_page p.
Proof.
  intros Hp. pose proof (page_ok_pos p Hp). destruct Hp as (Ha & Hlo & Hhi).
  split; [unfold PHYSTOP, KERNBASE in *; lia|done].
Qed.

Lemma PA2INDEX_inj p q :
  p mod PGSIZE = 0 -> q mod PGSIZE = 0 -> PA2INDEX p = PA2INDEX q -> p = q.
Proof. unfold PA2INDEX, PGSIZE. intros. zdiv. Qed.

Lemma ref_range s p : - 2 ^ 31 <= ref s p < 2 ^ 31.
Proof.
  unfold ref, s32.
  pose proof (Z.mod_pos_bound (default 0 (ref_count s !! PA2INDEX p) + 2 ^ 31) (2 ^ 32)). lia.
Qed.

Lemma ref_set_eq s p v : ref (set_ref (PA2INDEX p) (s32 v) s) p = s32 v.
Proof.
  unfold ref. simpl. rewrite lookup_insert_eq. simpl.
  apply s32_small. unfold s32. pose proof (Z.mod_pos_bound (v + 2 ^ 31) (2 ^ 32)). lia.
Qed.

Lemma ref_set_ne s p q v :
  p mod PGSIZE = 0 -> q mod PGSIZE = 0 -> p <> q ->
  ref (set_ref (PA2INDEX p) v s) q = ref s q.
Proof.
  intros. unfold ref. simpl. rewrite lookup_insert_ne; [done|].
  intros ?. by apply (PA2INDEX_inj p q) in H3.
Qed.

Lemma chain_ext m m' head fl :
  (forall p, p ∈ fl -> same_page m m' p) -> chain m head fl -> chain m' head fl.
Proof.
  revert head. induction fl as [|p fl IH]; intros head Hs; simpl; [done|].
  intros [-> Hc]. split; [done|].
  rewrite <- (word_same_page m m') by (lia || apply Hs; set_solver).
  apply IH; [set_solver|done].
Qed.

(** The free list survives every change that leaves its pages alone. *)
Lemma kmem_rep_agree X s s' fl :
  agree_off X s s' -> freelist s' = freelist s ->
  (forall p, p ∈ fl -> p ∉ X) -> kmem_rep s fl -> kmem_rep s' fl.
Proof.
  intros Ha Hf HX [Hc Hn Hp Hr].
  assert (Hq : forall p, p ∈ fl -> same_page (ram s) (ram s') p /\ ref s' p = ref s p).
  { intros p Hin. apply Ha; [by apply Hp|by apply HX]. }
  split; [|done|done|].
  - rewrite Hf. eapply chain_ext; [|done]. intros. by apply Hq.
  - intros p Hin. destruct (Hq p Hin) as [_ ->]. by apply Hr.
Qed.

Lemma rep_head_range s fl : kmem_rep s fl -> 0 <= freelist s < 2 ^ 64.
Proof.
  intros Hrep. pose proof (rep_chain _ _ Hrep) as Hc.
  destruct fl as [|p fl]; simpl in Hc; [lia|]. destruct Hc as [-> _].
  assert (Hp : page_ok p) by (apply (rep_pages _ _ Hrep); set_solver).
  pose proof (page_ok_pos p Hp). destruct Hp as (_ & _ & ?).
  unfold PHYSTOP, KERNBASE in *. lia.
Qed.

Lemma chain_head m head p fl : chain m head (p :: fl) -> head = p.
Proof. by intros [? _]. Qed.

Lemma agree_set_ref s p v :
  p mod PGSIZE = 0 -> agree_off {[p]} s (set_ref (PA2INDEX p) v s).
Proof.
  intros Hp q Hq Hne. split; [done|]. apply ref_set_ne; [done|done|set_solver].
Qed.

Lemma agree_memset s p c :
  p mod PGSIZE = 0 ->
  agree_off {[p]} s (set_ram (fun m => memset_bytes m p c (Z.to_nat PGSIZE)) s).
Proof.
  intros Hp q Hq Hne. split; [|done]. apply same_page_memset; [done|done|set_solver].
Qed.

Lemma agree_store s p i v :
  p mod PGSIZE = 0 -> 0 <= i < 512 ->
  agree_off {[p]} s (set_ram (fun m => store_le m (p + 8 * i) 8 v) s).
Proof.
  intros Hp Hi q Hq Hne. split; [|done]. apply same_page_store_le; [done|done|set_solver|done].
Qed.

Lemma agree_store_first s p v :
  p mod PGSIZE = 0 -> agree_off {[p]} s (set_ram (fun m => store_le m p 8 v) s).
Proof.
  intros Hp. pose proof (agree_store s p 0 v Hp) as Ha.
  rewrite Z.mul_0_r, Z.add_0_r in Ha. apply Ha. lia.
Qed.

Lemma agree_set_freelist X s p : agree_off X s (set_freelist p s).
Proof. by intros q _ _. Qed.
End Representation.

(** * Specifications of the operations *)
Section Specifications.
Context `{KernelImage}.
Implicit Types (s : mem) (fl : list Z) (L : list lock).

Lemma wpl_ref_load p L s Q :
  page_ok p -> Q (ref s p) L s -> wpl (ref_load (PA2INDEX p)) L s Q.
Proof. intros ?%page_ok_index ?. unfold ref_load. by rewrite decide_True. Qed.

Lemma wpl_ref_store p v L s Q :
  page_ok p -> Q tt L (set_ref (PA2INDEX p) (s32 v) s) ->
  wpl (ref_store (PA2INDEX p) v) L s Q.
Proof. intros ?%page_ok_index ?. unfold ref_store. by rewrite decide_True. Qed.

Lemma incref_wp p L s :
  page_ok p -> avail [ref_lock] L ->
  wp (incref p) L s (fun _ s' => s' = set_ref (PA2INDEX p) (s32 (ref s p + 1)) s).
Proof.
  intros. unfold incref. wsteps. apply wpl_ref_load; [done|].
  wsteps. apply wpl_ref_store; [done|]. by wsteps.
Qed.

(** What allocation establishes about the page [p] it returns. *)
Record allocated s s' (p : Z) (fl' : list Z) : Prop := {
  alloc_rep : kmem_rep s' fl';
  alloc_page : page_ok p;
  alloc_ref : ref s' p = 1;
  alloc_agree : agree_off {[p]} s s';
  alloc_junk : forall x, p <= x < p + PGSIZE -> byte (ram s') x = 5
}.

Lemma kalloc_wp L s fl :
  kmem_rep s fl -> avail [kmem_lock; ref_lock] L ->
  wp kalloc L s (fun r s' =>
    match fl with
    | [] => r = 0 /\ s' = s
    | p :: fl' => r = p /\ allocated s s' p fl'
    end).
Proof.
  intros Hrep HL. pose proof (rep_chain _ _ Hrep) as Hc. unfold kalloc.
  destruct fl as [|p fl']; simpl in Hc.
  { wsteps. rewrite Hc. rewrite decide_False by (by intros []). by wsteps. }
  destruct Hc as [Hh Hc].
  assert (Hp : page_ok p) by (apply (rep_pages _ _ Hrep); set_solver).
  pose proof (page_ok_pos p Hp).
  wsteps. rewrite Hh. rewrite decide_True by (unfold KERNBASE in *; lia).
  wsteps. apply wpl_load64; [by apply page_ok_first|].
  wsteps. rewrite decide_True by (unfold KERNBASE in *; lia). wsteps.
  apply wpl_memset; [by apply page_ok_whole|].
  wsteps. apply wpl_ref_store; [done|]. wsteps. split_and!; [done|done|].
  pose proof (rep_nodup _ _ Hrep) as [Hnin Hnd]%NoDup_cons.
  assert (Hag : agree_off {[p]} s (set_ref (PA2INDEX p) (s32 1)
    (set_ram (fun m => memset_bytes m p 5 (Z.to_nat PGSIZE))
      (set_freelist (load_le (ram s) p 8) s)))).
  { eapply agree_off_trans; [by apply agree_set_freelist|].
    eapply agree_off_trans; [apply agree_memset, Hp|apply agree_set_ref, Hp]. }
  split; [|done|by rewrite ref_set_eq|done|].
  - eapply (kmem_rep_agree {[p]} (set_freelist (load_le (ram s) p 8) s)).
    + eapply agree_off_trans; [apply agree_memset, Hp|apply agree_set_ref, Hp].
    + done.
    + set_solver.
    + split; [|done| |]; simpl.
      * unfold word in Hc. by rewrite Z.mul_0_r, Z.add_0_r in Hc.
      * intros q ?. apply (rep_pages _ _ Hrep). set_solver.
      * intros q ?. apply (rep_refs _ _ Hrep). set_solver.
  - intros x Hx. simpl. rewrite byte_memset, decide_True; [done|].
    by rewrite Z2Nat.id.
Qed.

(** kfree of a page with other references only drops the count. *)
Lemma kfree_shared_wp p L s fl :
  kmem_rep s fl -> page_ok p -> 1 < ref s p -> avail [kmem_lock; ref_lock] L ->
  wp (kfree p) L s (fun _ s' =>
    s' = set_ref (PA2INDEX p) (s32 (ref s p - 1)) s /\ kmem_rep s' fl /\
    ref s' p = ref s p - 1 /\ agree_off {[p]} s s').
Proof.
  intros Hrep Hp Hr HL. pose proof (ref_range s p). unfold kfree.
  rewrite decide_False by (destruct Hp; lia). wsteps.
  apply wpl_ref_load; [done|]. rewrite decide_False by lia. wsteps.
  apply wpl_ref_store; [done|]. wsteps. apply wpl_ref_load; [done|].
  rewrite ref_set_eq, s32_small by lia. rewrite decide_True by lia. wsteps.
  rewrite <- (s32_small (ref s p - 1)) by lia.
  split_and!; [done|done| |by rewrite ref_set_eq|by apply agree_set_ref, Hp].
  eapply (kmem_rep_agree {[p]}); [by apply agree_set_ref, Hp|done| |done].
  intros q Hq ->%elem_of_singleton. rewrite (rep_refs _ _ Hrep) in Hr by done. lia.
Qed.

(** kfree of the last reference puts the page at the head of the free list. *)
Lemma kfree_last_wp p L s fl :
  kmem_rep s fl -> page_ok p -> ref s p = 1 -> avail [kmem_lock; ref_lock] L ->
  wp (kfree p) L s (fun _ s' =>
    kmem_rep s' (p :: fl) /\ ref s' p = 0 /\ agree_off {[p]} s s').
Proof.
  intros Hrep Hp Hr HL. unfold kfree.
  rewrite decide_False by (destruct Hp; lia). wsteps.
  apply wpl_ref_load; [done|]. rewrite decide_False by lia. wsteps.
  apply wpl_ref_store; [done|]. wsteps. apply wpl_ref_load; [done|].
  rewrite ref_set_eq, Hr. rewrite decide_False by (by vm_compute). wsteps.
  apply wpl_memset; [by apply page_ok_whole|]. wsteps.
  apply wpl_store64; [by apply page_ok_first|]. wsteps. split; [done|].
  match goal with |- kmem_rep ?s' _ /\ _ => assert (Hag : agree_off {[p]} s s') end.
  { eapply agree_off_trans; [|by apply agree_set_freelist].
    eapply agree_off_trans; [|apply agree_store_first, Hp].
    eapply agree_off_trans; [|apply agree_memset, Hp]. apply agree_set_ref, Hp. }
  assert (Hnin : p ∉ fl).
  { intros Hin. rewrite (rep_refs _ _ Hrep) in Hr by done. lia. }
  assert (Hr0 : forall s', ref_count s' = ref_count (set_ref (PA2INDEX p) (s32 0) s) ->
    ref s' p = 0).
  { intros s' Hs. unfold ref. rewrite Hs. simpl. by rewrite lookup_insert_eq. }
  split_and!; [|by apply Hr0|done]. split.
  - simpl. split; [done|]. rewrite word_store_first by (by apply rep_head_range in Hrep).
    eapply chain_ext; [|apply (rep_chain _ _ Hrep)]. intros q Hq.
    apply Hag; [by apply (rep_pages _ _ Hrep)|set_solver].
  - constructor; [done|by apply (rep_nodup _ _ Hrep)].
  - intros q [->|Hq]%elem_of_cons; [done|by apply (rep_pages _ _ Hrep)].
  - intros q [->|Hq]%elem_of_cons; [by apply Hr0|].
    destruct (Hag q) as [_ ->]; [by apply (rep_pages _ _ Hrep)|set_solver|].
    by apply (rep_refs _ _ Hrep).
Qed.

(** One reference was dropped for every occurrence of a page in [ps]; the
    pages whose count reached 0 went to the free list, and every page outside
    [X] that is still referenced, or never was in [ps], kept its contents. *)
Record released (X : gset Z) s fl (ps : list Z) s' fl' : Prop := {
  rl_kmem : kmem_rep s' fl';
  rl_ref : forall p, p mod PGSIZE = 0 -> ref s' p = ref s p - cnt ps p;
  rl_nonneg : forall p, p ∈ ps -> page_ok p /\ 0 <= ref s' p;
  rl_freed : exists freed, fl' = freed ++ fl /\
    forall p, p ∈ freed <-> p ∈ ps /\ ref s' p = 0;
  rl_same : forall p, p mod PGSIZE = 0 -> p ∉ X -> p ∉ ps \/ 0 < ref s' p ->
    same_page (ram s) (ram s') p
}.

Lemma released_refl X s fl : kmem_rep s fl -> released X s fl [] s fl.
Proof.
  intros. split; [done|simpl; lia|by intros ? ?%elem_of_nil| |done].
  exists []. split; [done|]. set_solver.
Qed.

Lemma released_trans X s1 fl1 ps s2 fl2 qs s3 fl3 :
  released X s1 fl1 ps s2 fl2 -> released X s2 fl2 qs s3 fl3 ->
  released X s1 fl1 (ps ++ qs) s3 fl3.
Proof.
  intros [_ Hr1 Hn1 (f1 & -> & Hf1) Hs1] [Hk2 Hr2 Hn2 (f2 & -> & Hf2) Hs2].
  assert (Hal : forall p, p ∈ ps \/ p ∈ qs -> p mod PGSIZE = 0).
  { intros p [Hp|Hp]; [apply (Hn1 p Hp)|apply (Hn2 p Hp)]. }
  assert (Hge : forall p, p ∈ ps -> 0 <= ref s3 p).
  { intros p Hp. destruct (decide (p ∈ qs)); [by apply Hn2|].
    rewrite Hr2 by eauto. apply cnt_notin in n. rewrite n.
    destruct (Hn1 p Hp). lia. }
  split.
  - done.
  - intros p Hp. rewrite Hr2, Hr1, cnt_app by done. lia.
  - intros p [Hp|Hp]%elem_of_app; [split; [by apply Hn1|by apply Hge]|by apply Hn2].
  - exists (f2 ++ f1). split; [by rewrite app_assoc|]. intros p.
    rewrite !elem_of_app, Hf1, Hf2. split.
    + intros [[? ?]|[Hp H0]]; [by auto|]. split; [by left|].
      specialize (Hge p Hp). rewrite Hr2 in Hge |- * by eauto.
      pose proof (cnt_nonneg qs p). lia.
    + intros [[Hp|Hp] H0]; [|by left].
      destruct (decide (p ∈ qs)) as [|Hq]; [by left|right]. split; [done|].
      apply cnt_notin in Hq. rewrite Hr2 in H0 by eauto. lia.
  - intros p Hp HX Hor. pose proof (Hr2 p Hp). pose proof (cnt_nonneg qs p).
    pose proof (Hr1 p Hp).
    eapply same_page_trans; [apply Hs1|apply Hs2]; try done; set_solver by lia.
Qed.

Lemma released_mono X Y s fl ps s' fl' :
  released X s fl ps s' fl' -> X ⊆ Y -> released Y s fl ps s' fl'.
Proof. intros [] ?. split; try done. set_solver. Qed.

Lemma kfree_wp p L s fl :
  kmem_rep s fl -> page_ok p -> 1 <= ref s p -> avail [kmem_lock; ref_lock] L ->
  wp (kfree p) L s (fun _ s' => exists fl', released ∅ s fl [p] s' fl').
Proof.
  intros Hk Hp Hr HL. destruct (decide (ref s p = 1)) as [H1|].
  - eapply wp_mono; [by eapply kfree_last_wp|]. intros _ s' (Hk' & H0 & Ha).
    exists (p :: fl). split; [done| | | |].
    + intros q Hq. simpl. case_decide as Hd; [subst; lia|].
      destruct (Ha q Hq) as [_ ->]; [set_solver|lia].
    + intros q ->%list_elem_of_singleton. split; [done|lia].
    + exists [p]. split; [done|]. intros q. rewrite list_elem_of_singleton. naive_solver.
    + intros q Hq _ Hor. apply Ha; [done|]. set_solver by lia.
  - eapply wp_mono; [eapply kfree_shared_wp; [done|done|lia|done]|].
    intros _ s' (Hs & Hk' & H0 & Ha).
    exists fl. split; [done| | | |].
    + intros q Hq. simpl. case_decide as Hd; [subst q; lia|].
      destruct (Ha q Hq) as [_ ->]; [set_solver|lia].
    + intros q ->%list_elem_of_singleton. split; [done|lia].
    + exists []. split; [done|]. intros q. rewrite list_elem_of_singleton, elem_of_nil.
      naive_solver lia.
    + intros q Hq _ Hor. subst s'. done.
Qed.

(** Both branches of kfree. *)
Lemma kfree_case_wp p L s fl :
  kmem_rep s fl -> page_ok p -> 1 <= ref s p -> avail [kmem_lock; ref_lock] L ->
  wp (kfree p) L s (fun _ s' =>
    ref s' p = ref s p - 1 /\ agree_off {[p]} s s' /\
    if decide (ref s p = 1) then kmem_rep s' (p :: fl)
    else kmem_rep s' fl /\ ram s' = ram s).
Proof.
  intros Hk Hp Hr HL. case_decide as E.
  - eapply wp_mono; [by eapply kfree_last_wp|]. intros _ s' (? & ? & ?). split_and!; [lia|done|done].
  - eapply wp_mono; [eapply kfree_shared_wp; [done|done|lia|done]|].
    intros _ s' (-> & ? & ? & ?). done.
Qed.

(** [n] consecutive pages from [p0]. *)
Definition page_range (p0 : Z) (n : nat) : list Z :=
  (fun i => p0 + PGSIZE * Z.of_nat i) <$> seq 0 n.

Lemma page_range_S p0 n : page_range p0 (S n) = page_range p0 n ++ [p0 + PGSIZE * Z.of_nat n].
Proof. unfold page_range. by rewrite seq_S, fmap_app. Qed.

Lemma elem_of_page_range p0 n q :
  q ∈ page_range p0 n <-> exists i : nat, (i < n)%nat /\ q = p0 + PGSIZE * Z.of_nat i.
Proof.
  unfold page_range. rewrite list_elem_of_fmap. setoid_rewrite elem_of_seq.
  split; intros (i & ? & ?); exists i; split; auto; lia.
Qed.

Lemma freerange_body_wp pa_end p L s fl :
  page_ok p -> p + PGSIZE <= pa_end -> kmem_rep s fl -> p ∉ fl ->
  avail [kmem_lock; ref_lock] L ->
  wp (freerange_body pa_end p) L s (fun r s' => r = inl (p + PGSIZE) /\ kmem_rep s' (p :: fl)).
Proof.
  intros Hp Hle Hrep Hnin HL. unfold freerange_body. wstep. wtrue; [|done]. wsteps.
  apply wpl_ref_store; [done|]. wsteps. wcall (kfree_last_wp p _ _ fl).
  - eapply (kmem_rep_agree {[p]}); [by apply agree_set_ref, Hp|done|set_solver|done].
  - done.
  - by rewrite ref_set_eq.
  - done.
  - intros _ s' (Hrep' & _). by wsteps.
Qed.

(** freerange adds the whole pages of the range to the free list, the last
    one first. *)
Lemma freerange_wp pa_start pa_end L s fl :
  end_ <= pa_start -> pa_start <= pa_end -> pa_end <= PHYSTOP ->
  kmem_rep s fl -> (forall p, p ∈ fl -> p < pa_start \/ pa_end <= p) ->
  avail [kmem_lock; ref_lock] L ->
  let p0 := PGROUNDUP pa_start in
  wp (freerange pa_start pa_end) L s (fun _ s' =>
    kmem_rep s' (reverse (page_range p0 (Z.to_nat ((pa_end - p0) / PGSIZE))) ++ fl)).
Proof.
  intros Hlo Hmid Hhi Hrep Hfl HL p0.
  pose proof trampoline_lo. pose proof trampoline_hi. pose proof etext_hi.
  assert (Hp0 : pa_start <= p0 < pa_start + PGSIZE)
    by (apply PGROUNDUP_bounds; unfold PHYSTOP, KERNBASE, PGSIZE in *; lia).
  pose proof (PGROUNDUP_aligned pa_start) as Hal. fold p0 in Hal.
  apply (wpl_loop (fun p s => exists k : nat, p = p0 + PGSIZE * Z.of_nat k /\
      (k = O \/ p <= pa_end) /\ kmem_rep s (reverse (page_range p0 k) ++ fl))
    (fun p => Z.to_nat ((pa_end - p) / PGSIZE))).
  - intros p s1 (k & -> & Hk & Hrep1).
    destruct (decide (p0 + PGSIZE * Z.of_nat k + PGSIZE <= pa_end)).
    + eapply wp_mono; [apply freerange_body_wp; [|done|exact Hrep1| |done]|].
      * unfold page_ok. unfold PGSIZE in *. split_and!; [zdiv|lia|lia].
      * rewrite elem_of_app, elem_of_reverse, elem_of_page_range.
        intros [(i & ? & ?)|?%Hfl]; unfold PGSIZE in *; lia.
      * intros r s' [-> Hrep']. split.
        -- exists (S k). split_and!; [lia|lia|].
           by rewrite page_range_S, reverse_snoc.
        -- unfold PGSIZE in *. zdiv.
    + unfold freerange_body. wstep. wfalse; [|done]. wsteps. split; [done|].
      replace (Z.to_nat ((pa_end - p0) / PGSIZE)) with k; [done|].
      unfold PGSIZE in *. zdiv.
  - exists O. split_and!; [lia|by left|done].
  - unfold PHYSTOP, KERNBASE, PGSIZE in *. zdiv.
Qed.
End Specifications.

(** * What the allocator guarantees *)
Section Correctness.
Context `{KernelImage}.
Implicit Types (s : mem) (fl : list Z) (L : list lock).

(** The invariant of the allocator: a managed page is on the free list exactly
    when nobody references it, and no count is negative. *)
Definition kmem_inv s : Prop :=
  exists fl, kmem_rep s fl /\
    forall p, page_ok p -> 0 <= ref s p /\ (p ∈ fl <-> ref s p = 0).

(** The steps of the kernel on the allocator: the three operations, and a write
    by a client to a page it holds a reference to. *)
Inductive kstep : mem -> mem -> Prop :=
  | step_kalloc s r L s' : kalloc [] s = Ok r L s' -> kstep s s'
  | step_kfree s p L s' : kfree p [] s = Ok tt L s' -> kstep s s'
  | step_incref s p L s' :
      page_ok p -> 0 < ref s p < INT_MAX -> incref p [] s = Ok tt L s' -> kstep s s'
  | step_write s p i v : page_ok p -> 0 < ref s p -> 0 <= i < 512 ->
      kstep s (set_ram (fun m => store_le m (p + 8 * i) 8 v) s).

Lemma kinit_wp L s :
  freelist s = 0 -> avail [kmem_lock; ref_lock] L ->
  wp kinit L s (fun _ s' => kmem_rep s' (reverse (page_range (PGROUNDUP end_)
    (Z.to_nat ((PHYSTOP - PGROUNDUP end_) / PGSIZE))))).
Proof.
  intros Hf HL. pose proof (freerange_wp end_ PHYSTOP L s []) as Hw. cbv zeta in Hw.
  rewrite app_nil_r in Hw. apply Hw; try done; try apply end_hi; [|set_solver].
  split; [done|constructor|set_solver|set_solver].
Qed.

(** The pages given to the allocator are all the managed pages. *)
Lemma managed_pages p :
  page_ok p -> p ∈ page_range (PGROUNDUP end_)
    (Z.to_nat ((PHYSTOP - PGROUNDUP end_) / PGSIZE)).
Proof.
  intros (Hal & Hlo & Hhi). pose proof trampoline_lo. pose proof trampoline_hi.
  pose proof etext_hi. pose proof end_hi. pose proof (PGROUNDUP_aligned end_).
  assert (end_ <= PGROUNDUP end_ < end_ + PGSIZE)
    by (apply PGROUNDUP_bounds; unfold PHYSTOP, KERNBASE, PGSIZE in *; lia).
  apply elem_of_page_range. exists (Z.to_nat ((p - PGROUNDUP end_) / PGSIZE)).
  unfold PHYSTOP, KERNBASE, PGSIZE in *. split; zdiv.
Qed.

Lemma kfree_Ok p L s r L' s' :
  kfree p L s = Ok r L' s' -> page_ok p /\ 0 < ref s p.
Proof.
  unfold kfree. case_decide as Hb; [done|].
  assert (Hp : page_ok p) by (unfold page_ok; split_and!; [destruct (decide (p mod PGSIZE = 0)); tauto|lia|lia]).
  unfold mbind, M_bind, acquire. case_decide; [done|]. unfold ref_load at 1.
  rewrite decide_True by by apply page_ok_index. simpl. fold (ref s p).
  case_decide; [done|]. intros _. split; [done|lia].
Qed.

(** A change of one page that stays, or becomes, referenced. *)
Lemma kmem_inv_page s s' p :
  agree_off {[p]} s s' -> freelist s' = freelist s -> 0 < ref s p -> 0 < ref s' p ->
  kmem_inv s -> kmem_inv s'.
Proof.
  intros Ha Hf Hr Hr' (fl & Hk & Hi).
  assert (Hp : p ∉ fl) by (intros Hin; rewrite (rep_refs _ _ Hk) in Hr by done; lia).
  exists fl. split; [eapply kmem_rep_agree; [done|done|set_solver|done]|].
  intros q Hq. destruct (decide (q = p)) as [->|]; [split; [lia|split; [done|lia]]|].
  destruct (Ha q) as [_ ->]; [apply Hq|set_solver|]. by apply Hi.
Qed.

Lemma kalloc_inv s r L s' : kalloc [] s = Ok r L s' -> kmem_inv s -> kmem_inv s'.
Proof.
  intros Hrun (fl & Hk & Hi).
  pose proof (wp_run _ _ _ _ _ _ _ (kalloc_wp [] s fl Hk (avail_nil _)) Hrun) as [_ Hr].
  destruct fl as [|p fl]; [destruct Hr as [_ ->]; by exists []|].
  destruct Hr as [_ [Hk' Hp Hr1 Ha _]]. exists fl. split; [done|].
  pose proof (rep_nodup _ _ Hk) as [Hnin _]%NoDup_cons.
  intros q Hq. destruct (decide (q = p)) as [->|]; [split; [lia|split; [done|lia]]|].
  destruct (Ha q) as [_ ->]; [apply Hq|set_solver|]. specialize (Hi q Hq). set_solver.
Qed.

Lemma kfree_inv s p L s' : kfree p [] s = Ok tt L s' -> kmem_inv s -> kmem_inv s'.
Proof.
  intros Hrun (fl & Hk & Hi). apply kfree_Ok in Hrun as Hok. destruct Hok as [Hp Hr].
  assert (Hw := kfree_wp p [] s fl Hk Hp ltac:(lia) (avail_nil _)).
  destruct (wp_run _ _ _ _ _ _ _ Hw Hrun) as [_ [fl' Hrel]]. destruct Hrel as [Hk' Href Hn (freed & -> & Hfr) _]. exists (freed ++ fl).
  split; [done|]. intros q Hq. specialize (Hi q Hq). specialize (Hfr q).
  specialize (Href q (proj1 Hq)). simpl in Href. rewrite elem_of_app, Hfr, list_elem_of_singleton.
  case_decide as E; [subst q|].
  - split; [lia|]. destruct Hi as [_ Hi]. rewrite Hi. naive_solver lia.
  - replace (ref s' q) with (ref s q) by lia. naive_solver.
Qed.

Lemma incref_inv s p L s' :
  page_ok p -> 0 < ref s p < INT_MAX -> incref p [] s = Ok tt L s' -> kmem_inv s -> kmem_inv s'.
Proof.
  intros Hp Hr Hrun Hi. destruct (wp_run _ _ _ _ _ _ _ (incref_wp p [] s Hp (avail_nil _)) Hrun) as [_ ->].
  eapply kmem_inv_page; [apply agree_set_ref, Hp|done|lia| |done].
  rewrite ref_set_eq, s32_small; unfold INT_MAX in *; lia.
Qed.

Lemma kstep_inv s s' : kstep s s' -> kmem_inv s -> kmem_inv s'.
Proof.
  intros [ | | |s1 p i v Hp Hr Hi];
    [by eapply kalloc_inv|by eapply kfree_inv|by eapply incref_inv|].
  eapply kmem_inv_page; [apply agree_store; [apply Hp|done]|done|done|done].
Qed.

(** C1. After kinit has run from a zeroed allocator, and after any sequence of
    allocations, frees, reference increments and client writes to referenced
    pages, the free list holds exactly the managed pages whose reference count is
    0, without repetition: no page is lost, and no page in use is free. *)
Theorem allocator_invariant s0 s1 s2 L :
  freelist s0 = 0 -> kinit [] s0 = Ok tt L s1 -> rtc kstep s1 s2 -> kmem_inv s2.
Proof.
  intros Hf Hrun Hsteps. destruct (wp_run _ _ _ _ _ _ _ (kinit_wp [] s0 Hf (avail_nil _)) Hrun) as [_ Hk].
  assert (H1 : kmem_inv s1).
  { eexists. split; [exact Hk|]. intros p Hp. apply managed_pages, elem_of_reverse in Hp.
    rewrite (rep_refs _ _ Hk) by done. split; [lia|done]. }
  clear Hk Hrun. induction Hsteps as [|s1 s2 s3 Hst _ IH]; [done|].
  by apply IH, (kstep_inv s1).
Qed.

(** kinit, run from a zeroed allocator, returns normally with every whole
    page between the end of the kernel image and PHYSTOP on the free list. *)
Theorem kinit_correct s :
  freelist s = 0 ->
  wp kinit [] s (fun _ s' => exists fl, kmem_rep s' fl /\ forall p, p ∈ fl <-> page_ok p).
Proof.
  intros Hf. eapply wp_mono; [by apply kinit_wp, avail_nil|]. intros ? s' Hk.
  eexists. split; [exact Hk|]. intros p. split; [apply (rep_pages _ _ Hk)|].
  intros Hp. by apply elem_of_reverse, managed_pages.
Qed.

(** kalloc returns 0 and changes nothing exactly when no page is free;
    otherwise it returns a free page, takes it off the list, gives it one
    reference, fills it with junk (5) and changes no other page. *)
Theorem kalloc_correct L s fl :
  kmem_rep s fl -> avail [kmem_lock; ref_lock] L ->
  wp kalloc L s (fun r s' =>
    (r = 0 <-> fl = []) /\ (fl = [] -> s' = s) /\
    (r <> 0 -> exists fl', fl = r :: fl' /\ (r ∉ fl') /\ ref s r = 0 /\ allocated s s' r fl')).
Proof.
  intros Hk HL. eapply wp_mono; [by apply kalloc_wp|]. intros r s' Hr.
  destruct fl as [|p fl']; [by destruct Hr as [-> ->]|].
  destruct Hr as [-> Hal]. pose proof (page_ok_pos _ (alloc_page _ _ _ _ Hal)).
  pose proof (rep_nodup _ _ Hk) as [Hnin _]%NoDup_cons.
  split_and!; [|done|].
  - split; [unfold KERNBASE in *; lia|done].
  - intros _. exists fl'. split_and!; [done|done| |done]. apply (rep_refs _ _ Hk). set_solver.
Qed.

(** kfree of a page drops one reference.  While others remain the page and
    the free list are untouched; the last one puts the page at the head of the
    free list.  No other page changes in either case. *)
Theorem kfree_correct p L s fl :
  kmem_rep s fl -> page_ok p -> 1 <= ref s p -> avail [kmem_lock; ref_lock] L ->
  wp (kfree p) L s (fun _ s' =>
    ref s' p = ref s p - 1 /\ agree_off {[p]} s s' /\
    if decide (ref s p = 1) then kmem_rep s' (p :: fl)
    else kmem_rep s' fl /\ ram s' = ram s).
Proof. intros. by apply kfree_case_wp. Qed.

(** kfree panics on an address that is not a managed page, and on a page that
    has no reference left: a double free is caught, never executed. *)
Theorem kfree_rejects p L s :
  avail [ref_lock] L -> ~ page_ok p \/ ref s p <= 0 -> exists msg, kfree p L s = Panic msg.
Proof.
  intros HL Hbad. unfold kfree. case_decide as Hb; [eauto|].
  assert (Hp : page_ok p).
  { unfold page_ok. split_and!; [destruct (decide (p mod PGSIZE = 0)); tauto|lia|lia]. }
  destruct Hbad as [|Hr]; [done|]. unfold mbind, M_bind, acquire.
  rewrite decide_False by solve_avail. unfold ref_load at 1.
  rewrite decide_True by by apply page_ok_index. simpl. fold (ref s p).
  rewrite decide_True by done. eexists. done.
Qed.

(** Allocating a page and freeing it at once restores the free list, in the
    same order, and every other page. *)
Theorem kalloc_kfree_roundtrip L s p fl :
  kmem_rep s (p :: fl) -> avail [kmem_lock; ref_lock] L ->
  wp (r ← kalloc; kfree r) L s (fun _ s' => kmem_rep s' (p :: fl) /\ agree_off {[p]} s s').
Proof.
  intros Hk HL. wsteps. wcall kalloc_wp; [done|done|]. intros r s1 [-> Hal].
  destruct Hal as [Hk1 Hp Hr Ha1 _].
  eapply wpl_mono; [exact (kfree_last_wp p L s1 fl Hk1 Hp Hr HL)|].
  intros [] L' s2 (-> & Hk2 & _ & Ha2). split_and!; [done|done|by eapply agree_off_trans].
Qed.
End Correctness.

(** * A small machine

    An image that leaves 16 pages to the allocator, and a memory in which the
    first page is in use and the others are free. *)
Module Sample.
Definition pg (i : Z) : Z := PHYSTOP - PGSIZE * (16 - i).

Definition image : KernelImage.
Proof.
  refine {| trampoline := KERNBASE + PGSIZE; etext := KERNBASE + 2 * PGSIZE; end_ := pg 0 |};
    by vm_compute.
Defined.

Definition free_pages : list Z := pg <$> [1; 2; 3; 4; 5; 6; 7; 8; 9; 10; 11; 12; 13; 14; 15].

Definition zeroed : mem := mkMem ∅ 0 ∅.

Definition memory : mem :=
  mkMem (foldr (fun i m => store_le m (pg i) 8 (pg (i + 1))) ∅
           [1; 2; 3; 4; 5; 6; 7; 8; 9; 10; 11; 12; 13; 14])
    (pg 1) {[PA2INDEX (pg 0) := 1]}.

#[export] Existing Instance image.

Lemma memory_free : kmem_rep memory free_pages.
Proof.
  split.
  - vm_compute. tauto.
  - apply (bool_decide_unpack _). by vm_compute.
  - apply Forall_forall. repeat constructor; by vm_compute.
  - apply Forall_forall. repeat constructor; by vm_compute.
Qed.

Lemma page0_ok : page_ok (pg 0).
Proof. by vm_compute. Qed.

(** kinit and one allocation, on the small machine. *)
Lemma allocator_invariant_witness :
  exists s1 s2, kinit [] zeroed = Ok tt [] s1 /\ kalloc [] s1 = Ok (pg 15) [] s2 /\ kmem_inv s2.
Proof.
  destruct (wp_exists _ _ _ _ (kinit_wp [] zeroed eq_refl (avail_nil _))) as ([] & s1 & Hinit & Hk).
  destruct (wp_exists _ _ _ _ (kalloc_wp [] s1 _ Hk (avail_nil _))) as (r & s2 & Hal & Hr).
  assert (r = pg 15) as -> by exact (proj1 Hr).
  exists s1, s2. split; [exact Hinit|]. split; [exact Hal|].
  apply (allocator_invariant zeroed s1 s2 [] eq_refl Hinit).
  apply rtc_once. by eapply step_kalloc.
Defined.

Lemma kinit_correct_witness :
  wp kinit [] zeroed (fun _ s' => exists fl, kmem_rep s' fl /\ forall p, p ∈ fl <-> page_ok p).
Proof. apply (kinit_correct zeroed). reflexivity. Defined.

Lemma kalloc_correct_witness :
  wp kalloc [] memory (fun r s' =>
    (r = 0 <-> free_pages = []) /\ (free_pages = [] -> s' = memory) /\
    (r <> 0 -> exists fl', free_pages = r :: fl' /\ (r ∉ fl') /\ ref memory r = 0 /\
      allocated memory s' r fl')).
Proof. apply (kalloc_correct [] memory free_pages memory_free (avail_nil _)). Defined.

Lemma kfree_correct_witness :
  wp (kfree (pg 0)) [] memory (fun _ s' =>
    ref s' (pg 0) = 0 /\ agree_off {[pg 0]} memory s' /\ kmem_rep s' (pg 0 :: free_pages)).
Proof.
  apply (kfree_correct (pg 0) [] memory free_pages memory_free page0_ok);
    [by vm_compute|apply avail_nil].
Defined.

Lemma kfree_rejects_witness : exists msg, kfree (pg 1) [] memory = Panic msg.
Proof. apply (kfree_rejects (pg 1) [] memory (avail_nil _)). right. by vm_compute. Defined.

Lemma kalloc_kfree_roundtrip_witness :
  wp (r ← kalloc; kfree r) [] memory (fun _ s' =>
    kmem_rep s' free_pages /\ agree_off {[pg 1]} memory s').
Proof. apply (kalloc_kfree_roundtrip [] memory (pg 1) _ memory_free (avail_nil _)). Defined.
End Sample.
