(* ===== verification/PageTable.v ===== *)
(** Sv39 page tables in RAM, the part of kernel/vm.c that walks and extends
    them: [walk], [walkaddr], [mappages], [uvmcreate], [ismapped], [uvmclear].

    A page table is described by the tree of its page-table pages: a map from
    paths (the list of indices followed from the root) to page addresses.
    [pt_rep] says that memory holds such a tree; [pte_at] is the abstract view, a
    function from virtual addresses to leaf entries. *)
From S2P Require Import Prelude Riscv PhysMem Kalloc.
Local Open Scope Z_scope.

(** * The operations *)
Section Operations.
Context `{KernelImage}.

(** The body of walk from [level] down: the address of the leaf entry of
    [va], or 0. *)
Fixpoint walk_level (level : nat) (pagetable va : Z) (alloc : bool) : M mem Z :=
  match level with
  | O => mret (pagetable + 8 * PX 0 va)
  | S level' =>
      let pte := pagetable + 8 * PX (Z.of_nat level) va in
      v ← load64 pte;
      if has_bits v PTE_V then walk_level level' (PTE2PA v) va alloc
      else if negb alloc then mret 0
      else
        pagetable' ← kalloc;
        if decide (pagetable' = 0) then mret 0
        else
          memset pagetable' 0 PGSIZE;;
          store64 pte (Z.lor (PA2PTE pagetable') PTE_V);;
          walk_level level' pagetable' va alloc
  end.

Definition walk (pagetable va : Z) (alloc : bool) : M mem Z :=
  if decide (va >= MAXVA) then panic "walk" else walk_level 2 pagetable va alloc.

Definition walkaddr (pagetable va : Z) : M mem Z :=
  if decide (va >= MAXVA) then mret 0
  else
    pte ← walk pagetable va false;
    if decide (pte = 0) then mret 0
    else
      v ← load64 pte;
      if negb (has_bits v PTE_V) then mret 0
      else if negb (has_bits v PTE_U) then mret 0
      else mret (PTE2PA v).

Definition mappages_body (pagetable last perm : Z) (x : Z * Z) : M mem ((Z * Z) + Z) :=
  let '(a, pa) := x in
  pte ← walk pagetable a true;
  if decide (pte = 0) then mret (inr (-1))
  else
    v ← load64 pte;
    if has_bits v PTE_V then panic "mappages: remap"
    else
      store64 pte (Z.lor (Z.lor (PA2PTE pa) perm) PTE_V);;
      if decide (a = last) then mret (inr 0)
      else mret (inl (u64 (a + PGSIZE), u64 (pa + PGSIZE))).

Definition mappages (pagetable va size pa perm : Z) : M mem Z :=
  if decide (va mod PGSIZE <> 0) then panic "mappages: va not aligned"
  else if decide (size mod PGSIZE <> 0) then panic "mappages: size not aligned"
  else if decide (size = 0) then panic "mappages: size"
  else
    let last := u64 (va + size - PGSIZE) in
    loop (S (Z.to_nat (size / PGSIZE))) (mappages_body pagetable last perm) (va, pa).

Definition uvmcreate : M mem Z :=
  pagetable ← kalloc;
  if decide (pagetable = 0) then mret 0
  else memset pagetable 0 PGSIZE;; mret pagetable.

Definition ismapped (pagetable va : Z) : M mem Z :=
  pte ← walk pagetable va false;
  if decide (pte = 0) then mret 0
  else
    v ← load64 pte;
    if has_bits v PTE_V then mret 1 else mret 0.

Definition uvmclear (pagetable va : Z) : M mem unit :=
  pte ← walk pagetable va false;
  if decide (pte = 0) then panic "uvmclear"
  else
    v ← load64 pte;
    store64 pte (Z.land v (Z.lnot PTE_U)).
End Operations.

(** * The tree of page-table pages *)
Abbreviation ptree := (gmap (list Z) Z).

Section Tree.
Context `{KernelImage}.
Implicit Types (s : mem) (T : ptree) (π : list Z) (fl : list Z).

Record pt_rep s (root : Z) T : Prop := {
  pt_root : T !! [] = Some root;
  pt_len : forall π p, T !! π = Some p -> (length π <= 2)%nat;
  pt_inj : forall π π' p, T !! π = Some p -> T !! π' = Some p -> π = π';
  pt_page : forall π p, T !! π = Some p -> page_ok p;
  pt_ref : forall π p, T !! π = Some p -> ref s p = 1;
  pt_parent : forall π i q, T !! (π ++ [i]) = Some q -> is_Some (T !! π) /\ 0 <= i < 512;
  pt_entry : forall π p i, T !! π = Some p -> (length π < 2)%nat -> 0 <= i < 512 ->
    match T !! (π ++ [i]) with
    | Some q => word (ram s) p i = Z.lor (PA2PTE q) PTE_V
    | None => has_bits (word (ram s) p i) PTE_V = false
    end
}.

(** The page-table pages. *)
Definition pt_set T : gset Z := map_img T.

(** The path from the root to the leaf page of [va]. *)
Definition vpath (va : Z) : list Z := [PX 2 va; PX 1 va].

(** The leaf entry of [va]; 0 where there is no leaf page. *)
Definition pte_at s T (va : Z) : Z :=
  match T !! vpath va with
  | Some q => word (ram s) q (PX 0 va)
  | None => 0
  end.

Lemma elem_of_pt_set T p : p ∈ pt_set T <-> exists π, T !! π = Some p.
Proof. apply elem_of_map_img. Qed.

Lemma pt_set_free s root T fl p :
  pt_rep s root T -> kmem_rep s fl -> p ∈ pt_set T -> p ∉ fl.
Proof.
  intros HT Hk [π Hπ]%elem_of_pt_set Hin.
  pose proof (pt_ref _ _ _ HT _ _ Hπ). rewrite (rep_refs _ _ Hk) in * by done. lia.
Qed.

(** A page table is untouched by changes outside its pages. *)
Lemma pt_rep_agree X s s' root T :
  agree_off X s s' -> pt_set T ## X -> pt_rep s root T -> pt_rep s' root T.
Proof.
  intros Ha HX HT.
  assert (Hp : forall π p, T !! π = Some p -> same_page (ram s) (ram s') p /\ ref s' p = ref s p).
  { intros π p Hπ. apply Ha; [by apply (pt_page _ _ _ HT π)|].
    intros ?. apply (HX p); [|done]. apply elem_of_pt_set. by exists π. }
  destruct HT as [Hr Hl Hi Hpg Href Hpar He]. split; try done.
  - intros π p Hπ. destruct (Hp π p Hπ) as [_ ->]. by eapply Href.
  - intros π p i Hπ Hlen Hi'. specialize (He π p i Hπ Hlen Hi').
    rewrite <- (word_same_page (ram s) (ram s')); [done|by eapply Hp|done].
Qed.

Lemma pte_at_agree X s s' root T va :
  agree_off X s s' -> pt_set T ## X -> pt_rep s root T -> pte_at s' T va = pte_at s T va.
Proof.
  intros Ha HX HT. unfold pte_at. destruct (T !! vpath va) as [q|] eqn:Hq; [|done].
  symmetry. apply word_same_page; [|by apply PX_range].
  apply Ha; [by apply (pt_page _ _ _ HT _ _ Hq)|].
  intros ?. apply (HX q); [|done]. apply elem_of_pt_set. by eexists.
Qed.
End Tree.

(** * Extending a tree *)
Section Extension.
Context `{KernelImage}.
Implicit Types (s : mem) (T : ptree) (π : list Z) (fl : list Z).

(** The table evolved: the tree gained pages taken off the free list, and no
    page outside the tree changed. *)
Record pt_grow (root : Z) s T fl s' T' fl' : Prop := {
  gr_rep : pt_rep s' root T';
  gr_kmem : kmem_rep s' fl';
  gr_sub : T ⊆ T';
  gr_used : exists used, fl = used ++ fl' /\ pt_set T' = pt_set T ∪ list_to_set used;
  gr_agree : agree_off (pt_set T') s s'
}.

(** ... and every leaf entry reads as before. *)
Definition pt_step (root : Z) s T fl s' T' fl' : Prop :=
  pt_grow root s T fl s' T' fl' /\ forall va, pte_at s' T' va = pte_at s T va.

Lemma pt_grow_refl root s T fl :
  pt_rep s root T -> kmem_rep s fl -> pt_grow root s T fl s T fl.
Proof.
  intros. split; try done. exists []. split; [done|]. set_solver.
Qed.

Lemma pt_grow_trans root s1 T1 fl1 s2 T2 fl2 s3 T3 fl3 :
  pt_grow root s1 T1 fl1 s2 T2 fl2 -> pt_grow root s2 T2 fl2 s3 T3 fl3 ->
  pt_grow root s1 T1 fl1 s3 T3 fl3.
Proof.
  intros [? ? ? (u1 & -> & Hu1) Ha1] [? ? ? (u2 & -> & Hu2) Ha2].
  split; [done|done|by etrans| |].
  - exists (u1 ++ u2). split; [by rewrite app_assoc|].
    rewrite Hu2, Hu1, list_to_set_app_L. set_solver.
  - eapply agree_off_trans; [|done]. eapply agree_off_mono; [done|]. set_solver.
Qed.

Lemma pt_step_refl root s T fl :
  pt_rep s root T -> kmem_rep s fl -> pt_step root s T fl s T fl.
Proof. split; [by apply pt_grow_refl|done]. Qed.

Lemma pt_step_trans root s1 T1 fl1 s2 T2 fl2 s3 T3 fl3 :
  pt_step root s1 T1 fl1 s2 T2 fl2 -> pt_step root s2 T2 fl2 s3 T3 fl3 ->
  pt_step root s1 T1 fl1 s3 T3 fl3.
Proof.
  intros [? Hp1] [? Hp2]. split; [by eapply pt_grow_trans|]. intros. by rewrite Hp2, Hp1.
Qed.

(** ** A fresh zeroed page [q] linked below [p] at index [i] *)
Section Link.
Context (root : Z) (s s1 : mem) (T : ptree) (fl π : list Z) (p i q : Z).
Hypothesis HT : pt_rep s root T.
Hypothesis Hπ : T !! π = Some p.
Hypothesis Hlen : (length π < 2)%nat.
Hypothesis Hi : 0 <= i < 512.
Hypothesis Hnone : T !! (π ++ [i]) = None.
Hypothesis Hq0 : ref s q = 0.
Hypothesis Halloc : allocated s s1 q fl.

Let Hp : page_ok p := pt_page _ _ _ HT _ _ Hπ.
Let Hq : page_ok q := alloc_page _ _ _ _ Halloc.
Let T' : ptree := <[π ++ [i] := q]> T.
Let s2 : mem :=
  set_ram (fun m => store_le m (p + 8 * i) 8 (Z.lor (PA2PTE q) PTE_V))
    (set_ram (fun m => memset_bytes m q 0 (Z.to_nat PGSIZE)) s1).

Lemma link_fresh π' p' : T !! π' = Some p' -> p' <> q.
Proof using All. intros Hp' ->. pose proof (pt_ref _ _ _ HT _ _ Hp'). lia. Qed.

Lemma link_agree1 : agree_off {[p; q]} s1 s2.
Proof using All.
  eapply agree_off_trans; eapply agree_off_mono.
  - apply agree_memset, Hq.
  - set_solver.
  - apply agree_store; [apply Hp|done].
  - set_solver.
Qed.

Lemma link_agree : agree_off {[p; q]} s s2.
Proof using All.
  eapply agree_off_trans; [|exact link_agree1].
  eapply agree_off_mono; [apply Halloc|set_solver].
Qed.

Lemma link_other π' p' :
  T !! π' = Some p' -> p' <> p ->
  same_page (ram s) (ram s2) p' /\ ref s2 p' = ref s p'.
Proof using All.
  intros Hp' ?. apply link_agree; [by apply (pt_page _ _ _ HT _ _ Hp')|].
  apply link_fresh in Hp'. set_solver.
Qed.

Lemma link_word_new j : 0 <= j < 512 -> word (ram s2) q j = 0.
Proof using All.
  intros Hj. etrans; [|by apply (word_memset_zero (ram s1) q j)].
  symmetry. apply word_same_page; [|done].
  apply same_page_store_le; [apply Hp|apply Hq| |done].
  by eapply link_fresh.
Qed.

Lemma link_word_parent j :
  0 <= j < 512 -> j <> i -> word (ram s2) p j = word (ram s) p j.
Proof using All.
  intros Hj Hne. simpl. rewrite word_store_ne by done. symmetry.
  pose proof (link_fresh _ _ Hπ).
  apply word_same_page; [|done]. eapply same_page_trans.
  - apply (alloc_agree _ _ _ _ Halloc p); [apply Hp|set_solver].
  - apply same_page_memset; [apply Hq|apply Hp|done].
Qed.

Lemma link_ref π' p' : T !! π' = Some p' -> ref s2 p' = 1.
Proof using All.
  intros Hp'. pose proof (link_fresh _ _ Hp').
  change (ref s1 p' = 1).
  destruct (alloc_agree _ _ _ _ Halloc p') as [_ ->];
    [by apply (pt_page _ _ _ HT _ _ Hp')|set_solver|by eapply (pt_ref _ _ _ HT)].
Qed.

Lemma link_entry π' p' j :
  T' !! π' = Some p' -> (length π' < 2)%nat -> 0 <= j < 512 ->
  match T' !! (π' ++ [j]) with
  | Some q' => word (ram s2) p' j = Z.lor (PA2PTE q') PTE_V
  | None => has_bits (word (ram s2) p' j) PTE_V = false
  end.
Proof using All.
  intros [[<- <-]|[Hne Hp']]%lookup_insert_Some Hlen' Hj; unfold T'.
  - rewrite lookup_insert_ne by (intros Hc; apply (f_equal length) in Hc;
      rewrite !length_app in Hc; simpl in Hc; lia).
    rewrite link_word_new by done.
    destruct (T !! ((π ++ [i]) ++ [j])) eqn:E; [|done].
    apply (pt_parent _ _ _ HT) in E as [[? ?] _]. congruence.
  - destruct (decide (p' = p)) as [->|Hpp].
    + assert (π' = π) as -> by by eapply (pt_inj _ _ _ HT).
      destruct (decide (j = i)) as [->|Hji].
      * rewrite lookup_insert_eq. simpl.
        apply word_store_eq, PTE_lor_range; [apply page_ok_pte, Hq|done].
      * rewrite lookup_insert_ne, link_word_parent by (done || by intros [_ ?]%app_inj_tail).
        by apply (pt_entry _ _ _ HT).
    + rewrite lookup_insert_ne by (intros [<- <-]%app_inj_tail; congruence).
      rewrite <- (word_same_page (ram s)); [by apply (pt_entry _ _ _ HT)| |done].
      by eapply link_other.
Qed.

Lemma link_rep : pt_rep s2 root T'.
Proof using All.
  split.
  - unfold T'. rewrite lookup_insert_ne; [apply (pt_root _ _ _ HT)|]. by destruct π.
  - intros π' p' [[<- <-]|[_ Hp']]%lookup_insert_Some; [|by eapply (pt_len _ _ _ HT)].
    rewrite length_app. simpl. lia.
  - intros π1 π2 p' [[<- <-]|[? H1]]%lookup_insert_Some [[<- Hqp]|[? H2]]%lookup_insert_Some;
      [done|by destruct (link_fresh _ _ H2)|by destruct (link_fresh _ _ H1)
      |by eapply (pt_inj _ _ _ HT)].
  - intros π' p' [[<- <-]|[_ Hp']]%lookup_insert_Some;
      [exact Hq|by eapply (pt_page _ _ _ HT)].
  - intros π' p' [[<- <-]|[_ Hp']]%lookup_insert_Some;
      [exact (alloc_ref _ _ _ _ Halloc)|by eapply link_ref].
  - intros π' j p' [[Heq <-]|[_ Hp']]%lookup_insert_Some; unfold T'.
    + apply app_inj_tail in Heq as [<- <-]. split; [|done].
      rewrite lookup_insert_ne; [eauto|]. intros Hc. apply (f_equal length) in Hc.
      rewrite length_app in Hc. simpl in Hc. lia.
    + apply (pt_parent _ _ _ HT) in Hp' as [[p'' Hp''] ?]. split; [|done].
      destruct (decide (π' = π ++ [i])) as [->|]; [congruence|].
      rewrite lookup_insert_ne by done. eauto.
  - apply link_entry.
Qed.

Lemma link_kmem : kmem_rep s2 fl.
Proof using All.
  eapply (kmem_rep_agree {[p; q]} s1); [exact link_agree1|done| |apply Halloc].
  intros x Hx. apply (rep_refs _ _ (alloc_rep _ _ _ _ Halloc)) in Hx as Hx0.
  rewrite not_elem_of_union, !not_elem_of_singleton.
  pose proof (alloc_ref _ _ _ _ Halloc). split; intros ->; [|lia].
  pose proof (link_ref _ _ Hπ) as Hr. change (ref s1 p = 1) in Hr. lia.
Qed.

Lemma link_ptes va : pte_at s2 T' va = pte_at s T va.
Proof using All.
  unfold pte_at, T'. destruct (decide (π ++ [i] = vpath va)) as [<-|Hne].
  - rewrite lookup_insert_eq, Hnone. apply link_word_new. by apply PX_range.
  - rewrite lookup_insert_ne by done. destruct (T !! vpath va) as [q'|] eqn:Hq'; [|done].
    symmetry. apply word_same_page; [|by apply PX_range].
    eapply link_other; [done|]. intros ->.
    assert (π = vpath va) as E by by eapply (pt_inj _ _ _ HT).
    rewrite E in Hlen. simpl in Hlen. lia.
Qed.

Lemma pt_link : pt_step root s T (q :: fl) s2 T' fl.
Proof using All.
  assert (Hset : pt_set T' = {[q]} ∪ pt_set T) by by apply map_img_insert_notin_L.
  split; [|apply link_ptes].
  split; [apply link_rep|apply link_kmem|by apply insert_subseteq| |].
  - exists [q]. split; [done|]. rewrite Hset. set_solver.
  - eapply agree_off_mono; [apply link_agree|]. rewrite Hset.
    assert (p ∈ pt_set T) by (apply elem_of_pt_set; eauto). set_solver.
Qed.
End Link.
End Extension.

(** * walk *)
Section Walk.
Context `{KernelImage}.
Implicit Types (s : mem) (T : ptree) (π : list Z) (fl : list Z) (L : list lock).

(** The indices below level [n]. *)
Fixpoint vsuffix (n : nat) (va : Z) : list Z :=
  match n with O => [] | S k => PX (Z.of_nat n) va :: vsuffix k va end.

Lemma vpath_suffix va : vpath va = vsuffix 2 va.
Proof. done. Qed.

(** The address of the entry of [va] in the leaf page at path [π], or 0. *)
Definition slot T π (va : Z) : Z :=
  match T !! π with Some q => q + 8 * PX 0 va | None => 0 end.

Lemma pt_prefix s root T π π' q :
  pt_rep s root T -> T !! (π ++ π') = Some q -> is_Some (T !! π).
Proof.
  intros HT. revert q. induction π' as [|i π' IH] using rev_ind; intros q.
  - rewrite app_nil_r. eauto.
  - rewrite app_assoc. intros [[q' Hq'] _]%(pt_parent _ _ _ HT). by eapply IH.
Qed.

Lemma child_valid s root T π p i q :
  pt_rep s root T -> T !! π = Some p -> (length π < 2)%nat -> 0 <= i < 512 ->
  T !! (π ++ [i]) = Some q ->
  has_bits (word (ram s) p i) PTE_V = true /\ PTE2PA (word (ram s) p i) = q.
Proof.
  intros HT Hπ Hlen Hi Hq. pose proof (pt_entry _ _ _ HT _ _ i Hπ Hlen Hi) as He.
  rewrite Hq in He. rewrite He.
  assert (pte_page q) by by eapply page_ok_pte, (pt_page _ _ _ HT).
  rewrite has_bits_lor, PTE2PA_lor by done. done.
Qed.

Lemma child_invalid s root T π p i :
  pt_rep s root T -> T !! π = Some p -> (length π < 2)%nat -> 0 <= i < 512 ->
  T !! (π ++ [i]) = None -> has_bits (word (ram s) p i) PTE_V = false.
Proof.
  intros HT Hπ Hlen Hi Hq. pose proof (pt_entry _ _ _ HT _ _ i Hπ Hlen Hi) as He.
  by rewrite Hq in He.
Qed.

Lemma walk_level_look_wp n π p va L s root T :
  pt_rep s root T -> T !! π = Some p -> (length π + n = 2)%nat ->
  wp (walk_level n p va false) L s (fun r s' => s' = s /\ r = slot T (π ++ vsuffix n va) va).
Proof.
  intros HT. revert π p. induction n as [|n IH]; intros π p Hπ Hlen; simpl.
  { wsteps. rewrite app_nil_r. unfold slot. by rewrite Hπ. }
  set (i := PX (Z.of_nat (S n)) va). assert (Hi : 0 <= i < 512) by (apply PX_range; lia).
  assert (Hl : (length π < 2)%nat) by lia.
  wsteps. apply wpl_load64. { apply page_ok_ram; [by eapply (pt_page _ _ _ HT)|done]. }
  fold (word (ram s) p i). destruct (T !! (π ++ [i])) as [q|] eqn:Hq.
  - edestruct (child_valid s root T π p i q) as [-> ->]; [done..|].
    eapply wpl_mono; [apply (IH (π ++ [i]) q Hq); rewrite length_app; simpl; lia|].
    intros r L' s' (-> & -> & ->). by rewrite <- app_assoc.
  - rewrite (child_invalid s root T π p i) by done. simpl. wsteps.
    split_and!; [done|done|]. unfold slot.
    destruct (T !! (π ++ i :: vsuffix n va)) as [q|] eqn:E; [|done].
    change (i :: vsuffix n va) with ([i] ++ vsuffix n va) in E.
    rewrite app_assoc in E. apply (pt_prefix _ _ _ _ _ _ HT) in E as [??]. congruence.
Qed.

Lemma walk_level_alloc_wp n π p va L s root T fl :
  pt_rep s root T -> kmem_rep s fl -> T !! π = Some p -> (length π + n = 2)%nat ->
  avail [kmem_lock; ref_lock] L ->
  wp (walk_level n p va true) L s (fun r s' => exists T' fl',
    pt_step root s T fl s' T' fl' /\ (length fl <= length fl' + n)%nat /\
    (r = 0 /\ fl' = [] \/
     exists q, T' !! (π ++ vsuffix n va) = Some q /\ r = q + 8 * PX 0 va)).
Proof.
  revert π p s T fl. induction n as [|n IH]; intros π p s T fl HT Hk Hπ Hlen HL; simpl.
  { wsteps. split; [done|]. exists T, fl. split; [by apply pt_step_refl|]. split; [lia|]. right.
    exists p. by rewrite app_nil_r. }
  set (i := PX (Z.of_nat (S n)) va). assert (Hi : 0 <= i < 512) by (apply PX_range; lia).
  assert (Hl : (length π < 2)%nat) by lia.
  assert (Hp : page_ok p) by by eapply (pt_page _ _ _ HT).
  assert (Hl' : (length (π ++ [i]) + n = 2)%nat) by (rewrite length_app; simpl; lia).
  wsteps. apply wpl_load64; [by apply page_ok_ram|].
  fold (word (ram s) p i). destruct (T !! (π ++ [i])) as [q|] eqn:Hq.
  { edestruct (child_valid s root T π p i q) as [-> ->]; [done..|].
    eapply wpl_mono; [by eapply (IH (π ++ [i]) q)|].
    intros r L' s' (-> & T' & fl' & Hst & Hn & Hr). rewrite <- app_assoc in Hr.
    split; [done|]. exists T', fl'. split; [done|]. split; [lia|done]. }
  rewrite (child_invalid s root T π p i) by done. simpl. wsteps.
  wcall kalloc_wp; [done|done|]. intros r s1 Hal. destruct fl as [|q fl1].
  { destruct Hal as [-> ->]. wtrue; [|done]. wsteps. split; [done|].
    exists T, []. split; [by apply pt_step_refl|]. split; [simpl; lia|by left]. }
  destruct Hal as [-> Hal]. pose proof (alloc_page _ _ _ _ Hal) as Hqp.
  pose proof (page_ok_pos _ Hqp). wfalse; [|unfold KERNBASE in *; lia]. wsteps.
  apply wpl_memset; [by apply page_ok_whole|]. wsteps.
  apply wpl_store64; [by apply page_ok_ram|].
  assert (Hq0 : ref s q = 0) by (apply (rep_refs _ _ Hk); set_solver).
  pose proof (pt_link root s s1 T fl1 π p i q HT Hπ Hl Hi Hq Hq0 Hal) as Hst.
  eapply wpl_mono.
  { destruct Hst as [Hgr _].
    eapply (IH (π ++ [i]) q); [apply Hgr|apply Hgr|apply lookup_insert_eq|done|done]. }
  intros r L' s' (-> & T' & fl' & Hst' & Hn & Hr). rewrite <- app_assoc in Hr.
  split; [done|]. exists T', fl'. split; [by eapply pt_step_trans|]. split; [simpl; lia|done].
Qed.

(** Where the leaf page exists, [alloc] makes no difference. *)
Lemma walk_level_present_wp n π p va alloc q L s root T :
  pt_rep s root T -> T !! π = Some p -> (length π + n = 2)%nat ->
  T !! (π ++ vsuffix n va) = Some q ->
  wp (walk_level n p va alloc) L s (fun r s' => s' = s /\ r = q + 8 * PX 0 va).
Proof.
  intros HT. revert π p. induction n as [|n IH]; intros π p Hπ Hlen Hq; simpl.
  { wsteps. rewrite app_nil_r in Hq. naive_solver. }
  set (i := PX (Z.of_nat (S n)) va). assert (Hi : 0 <= i < 512) by (apply PX_range; lia).
  simpl in Hq. fold i in Hq. change (i :: vsuffix n va) with ([i] ++ vsuffix n va) in Hq.
  rewrite app_assoc in Hq. destruct (pt_prefix _ _ _ _ _ _ HT Hq) as [c Hc].
  wsteps. apply wpl_load64. { apply page_ok_ram; [by eapply (pt_page _ _ _ HT)|done]. }
  fold (word (ram s) p i). edestruct (child_valid s root T π p i c) as [-> ->]; [done|done|lia|done..|].
  apply (IH (π ++ [i]) c Hc); [rewrite length_app; simpl; lia|done].
Qed.

Lemma walk_present_wp va alloc q L s root T :
  pt_rep s root T -> va < MAXVA -> T !! vpath va = Some q ->
  wp (walk root va alloc) L s (fun r s' => s' = s /\ r = q + 8 * PX 0 va).
Proof.
  intros HT ??. unfold walk. wfalse; [|lia].
  eapply (walk_level_present_wp 2 []); [done|apply (pt_root _ _ _ HT)|done|done].
Qed.

Lemma walk_look_wp va L s root T :
  pt_rep s root T -> va < MAXVA ->
  wp (walk root va false) L s (fun r s' => s' = s /\ r = slot T (vpath va) va).
Proof.
  intros HT ?. unfold walk. wfalse; [|lia].
  eapply (walk_level_look_wp 2 []); [done|apply (pt_root _ _ _ HT)|done].
Qed.

Lemma walk_alloc_wp va L s root T fl :
  pt_rep s root T -> kmem_rep s fl -> va < MAXVA -> avail [kmem_lock; ref_lock] L ->
  wp (walk root va true) L s (fun r s' => exists T' fl',
    pt_step root s T fl s' T' fl' /\ (length fl <= length fl' + 2)%nat /\
    (r = 0 /\ fl' = [] \/ exists q, T' !! vpath va = Some q /\ r = q + 8 * PX 0 va)).
Proof.
  intros HT ???. unfold walk. wfalse; [|lia].
  eapply (walk_level_alloc_wp 2 []); [done|done|apply (pt_root _ _ _ HT)|done|done].
Qed.
End Walk.

(** * Writing leaf entries *)
Section Leaf.
Context `{KernelImage}.
Implicit Types (s : mem) (T : ptree) (π : list Z) (fl : list Z) (L : list lock).

(** The leaf entries outside the pages of [P] read the same. *)
Definition ptes_same_off (P : Z -> Prop) s T s' T' : Prop :=
  forall va, 0 <= va < VASPACE -> ~ P (va / PGSIZE) -> pte_at s' T' va = pte_at s T va.

Lemma pte_at_page s T va va' :
  va / PGSIZE = va' / PGSIZE -> pte_at s T va = pte_at s T va'.
Proof.
  intros. unfold pte_at, vpath.
  by rewrite (PX_page 2 va va'), (PX_page 1 va va'), (PX_page 0 va va').
Qed.

Lemma pte_at_range s T va : 0 <= pte_at s T va < 2 ^ 64.
Proof. unfold pte_at. destruct (T !! vpath va); [apply word_range|lia]. Qed.

(** The state after a store of [v] in the leaf entry of [va]. *)
Definition leaf_state s (q va v : Z) : mem :=
  set_ram (fun m => store_le m (q + 8 * PX 0 va) 8 v) s.

Lemma leaf_store_grow root s T fl va q v :
  pt_rep s root T -> kmem_rep s fl -> T !! vpath va = Some q ->
  pt_grow root s T fl (leaf_state s q va v) T fl.
Proof.
  intros HT Hk Hq. pose proof (pt_page _ _ _ HT _ _ Hq) as Hqp.
  assert (Hag : agree_off {[q]} s (leaf_state s q va v))
    by (apply agree_store; [apply Hqp|by apply PX_range]).
  assert (Hin : q ∈ pt_set T) by (apply elem_of_pt_set; eauto).
  split; [| |done| |].
  - split; try by apply HT.
    intros π p i Hπ Hlen Hi. pose proof (pt_entry _ _ _ HT _ _ i Hπ Hlen Hi) as He.
    rewrite <- (word_same_page (ram s)); [done| |done].
    apply Hag; [by apply (pt_page _ _ _ HT _ _ Hπ)|]. intros ->%elem_of_singleton.
    assert (π = vpath va) as -> by by eapply (pt_inj _ _ _ HT). simpl in Hlen. lia.
  - eapply kmem_rep_agree; [exact Hag|done| |done].
    intros p Hp ->%elem_of_singleton. by eapply (pt_set_free s root T).
  - exists []. split; [done|set_solver].
  - eapply agree_off_mono; [exact Hag|set_solver].
Qed.

Lemma leaf_store_at s T va q v :
  T !! vpath va = Some q -> 0 <= v < 2 ^ 64 -> pte_at (leaf_state s q va v) T va = v.
Proof. intros Hq Hv. unfold pte_at. rewrite Hq. by apply word_store_eq. Qed.

Lemma leaf_store_off root s T va q v :
  pt_rep s root T -> T !! vpath va = Some q -> 0 <= va < VASPACE ->
  ptes_same_off (fun n => n = va / PGSIZE) s T (leaf_state s q va v) T.
Proof.
  intros HT Hq Hva va' Hva' Hne. unfold pte_at.
  destruct (T !! vpath va') as [q'|] eqn:Hq'; [|done].
  destruct (decide (q' = q)) as [->|].
  - assert (vpath va = vpath va') as [= E2 E1] by by eapply (pt_inj _ _ _ HT).
    apply word_store_ne. intros E0. apply Hne. symmetry. by apply PX_inj.
  - symmetry. apply word_same_page; [|by apply PX_range].
    apply same_page_store_le; [by apply (pt_page _ _ _ HT _ _ Hq)
      |by apply (pt_page _ _ _ HT _ _ Hq')|done|by apply PX_range].
Qed.

(** The entry that maps [pa] with permissions [perm]. *)
Definition pte_entry (pa perm : Z) : Z := Z.lor (Z.lor (PA2PTE pa) perm) PTE_V.

Lemma pte_entry_eq pa perm : pte_entry pa perm = Z.lor (PA2PTE pa) (Z.lor perm PTE_V).
Proof. unfold pte_entry. by rewrite Z.lor_assoc. Qed.

Lemma perm_V_range perm : 0 <= perm < 1024 -> 0 <= Z.lor perm PTE_V < 1024.
Proof. intros. by apply lor_low_range. Qed.

Lemma pte_entry_range pa perm :
  pte_page pa -> 0 <= perm < 1024 -> 0 <= pte_entry pa perm < 2 ^ 64.
Proof. intros. rewrite pte_entry_eq. apply PTE_lor_range; [done|by apply perm_V_range]. Qed.

Lemma pte_entry_pa pa perm :
  pte_page pa -> 0 <= perm < 1024 -> PTE2PA (pte_entry pa perm) = pa.
Proof. intros. rewrite pte_entry_eq. apply PTE2PA_lor; [done|by apply perm_V_range]. Qed.

Lemma pte_entry_flags pa perm :
  pte_page pa -> 0 <= perm < 1024 -> PTE_FLAGS (pte_entry pa perm) = Z.lor perm PTE_V.
Proof. intros. rewrite pte_entry_eq. apply PTE_FLAGS_lor; [done|by apply perm_V_range]. Qed.

Lemma has_bits_V_lor perm : has_bits (Z.lor perm PTE_V) PTE_V = true.
Proof.
  unfold has_bits, PTE_V. rewrite Z.land_lor_distr_l.
  rewrite negb_true_iff. apply Z.eqb_neq. intros [_ ?]%Z.lor_eq_0_iff. done.
Qed.

Lemma pte_entry_valid pa perm :
  pte_page pa -> 0 <= perm < 1024 -> has_bits (pte_entry pa perm) PTE_V = true.
Proof.
  intros. rewrite pte_entry_eq, has_bits_lor by (done || by apply perm_V_range).
  apply has_bits_V_lor.
Qed.

Lemma wpl_load_leaf root T va q L s Q :
  pt_rep s root T -> T !! vpath va = Some q -> Q (pte_at s T va) L s ->
  wpl (load64 (q + 8 * PX 0 va)) L s Q.
Proof.
  intros HT Hq HQ. apply wpl_load64.
  - apply page_ok_ram; [by eapply (pt_page _ _ _ HT)|by apply PX_range].
  - unfold pte_at in HQ. by rewrite Hq in HQ.
Qed.

Lemma wpl_store_leaf root T va q v L s Q :
  pt_rep s root T -> T !! vpath va = Some q -> Q tt L (leaf_state s q va v) ->
  wpl (store64 (q + 8 * PX 0 va) v) L s Q.
Proof.
  intros HT Hq HQ. apply wpl_store64; [|done].
  apply page_ok_ram; [by eapply (pt_page _ _ _ HT)|by apply PX_range].
Qed.

Lemma slot_nonzero root s T va q :
  pt_rep s root T -> T !! vpath va = Some q -> q + 8 * PX 0 va <> 0.
Proof.
  intros HT Hq. pose proof (page_ok_pos q (pt_page _ _ _ HT _ _ Hq)).
  pose proof (PX_range 0 va). unfold KERNBASE in *. lia.
Qed.

(** Reading through the table. *)
Lemma walkaddr_wp root va L s T :
  pt_rep s root T -> 
  wp (walkaddr root va) L s (fun r s' => s' = s /\
    r = if decide (va < MAXVA /\ has_bits (pte_at s T va) PTE_V && has_bits (pte_at s T va) PTE_U = true)
        then PTE2PA (pte_at s T va) else 0).
Proof.
  intros HT. unfold walkaddr. wstep. destruct (decide (va >= MAXVA)).
  { wsteps. rewrite decide_False by lia. done. }
  wsteps. wcall walk_look_wp; [done|lia|]. intros r s' [-> ->]. unfold slot.
  destruct (T !! vpath va) as [q|] eqn:Hq.
  2:{ wtrue; [|done]. wsteps. unfold pte_at. rewrite Hq. rewrite decide_False; [done|by intros [_ ?]]. }
  wfalse; [|by eapply slot_nonzero]. wsteps. eapply wpl_load_leaf; [done|done|].
  destruct (has_bits (pte_at s T va) PTE_V); cbn [negb andb];
    [|wsteps; rewrite decide_False; [done|by intros [_ ?]]].
  destruct (has_bits (pte_at s T va) PTE_U); cbn [negb andb]; wsteps.
  - rewrite decide_True by (split; [lia|done]). done.
  - rewrite decide_False; [done|by intros [_ ?]].
Qed.

Lemma ismapped_wp root va L s T :
  pt_rep s root T -> va < MAXVA ->
  wp (ismapped root va) L s (fun r s' => s' = s /\
    r = if has_bits (pte_at s T va) PTE_V then 1 else 0).
Proof.
  intros HT Hva. unfold ismapped. wsteps. wcall walk_look_wp; [done|done|]. intros r s' [-> ->].
  unfold slot. destruct (T !! vpath va) as [q|] eqn:Hq.
  - wfalse; [|by eapply slot_nonzero]. wsteps. eapply wpl_load_leaf; [done|done|].
    destruct (has_bits (pte_at s T va) PTE_V); by wsteps.
  - wtrue; [|done]. wsteps. unfold pte_at. by rewrite Hq.
Qed.

Lemma uvmclear_wp root va L s T fl :
  pt_rep s root T -> kmem_rep s fl -> 0 <= va < MAXVA -> is_Some (T !! vpath va) ->
  wp (uvmclear root va) L s (fun _ s' => pt_grow root s T fl s' T fl /\
    pte_at s' T va = Z.land (pte_at s T va) (Z.lnot PTE_U) /\
    ptes_same_off (fun n => n = va / PGSIZE) s T s' T).
Proof.
  intros HT Hk Hva [q Hq]. unfold uvmclear. wsteps. wcall walk_look_wp; [done|lia|].
  intros r s' [-> ->]. unfold slot. rewrite Hq. wfalse; [|by eapply slot_nonzero]. wsteps.
  eapply wpl_load_leaf; [done|done|]. wsteps. eapply wpl_store_leaf; [done|done|].
  split; [done|]. split_and!.
  - by apply leaf_store_grow.
  - apply leaf_store_at; [done|]. pose proof (pte_at_range s T va).
    split; [apply Z.land_nonneg; lia|]. rewrite <- Z.ldiff_land.
    rewrite <- (Z.mod_small (pte_at s T va) (2 ^ 64)) by lia.
    rewrite <- Z.land_ones, Z.ldiff_land, <- Z.land_assoc, (Z.land_comm (Z.ones 64)), Z.land_assoc, Z.land_ones by lia.
    apply Z.mod_pos_bound. lia.
  - apply (leaf_store_off root); [done|done|]. split; [lia|apply MAXVA_VASPACE; lia].
Qed.

(** A new table: one zeroed page, which maps nothing. *)
Lemma uvmcreate_wp L s fl :
  kmem_rep s fl -> avail [kmem_lock; ref_lock] L ->
  wp uvmcreate L s (fun r s' =>
    match fl with
    | [] => r = 0 /\ s' = s
    | p :: fl' => r = p /\ kmem_rep s' fl' /\ pt_rep s' p {[ [] := p ]} /\
        (forall va, pte_at s' {[ [] := p ]} va = 0) /\ agree_off {[p]} s s'
    end).
Proof.
  intros Hk HL. unfold uvmcreate. wsteps. wcall kalloc_wp; [done|done|]. intros r s1 Hr.
  destruct fl as [|p fl']; [destruct Hr as [-> ->]; wtrue; [by wsteps|done]|].
  destruct Hr as [-> [Hk1 Hp Hr1 Ha1 _]]. pose proof (page_ok_pos _ Hp).
  wfalse; [|unfold KERNBASE in *; lia]. wsteps. apply wpl_memset; [by apply page_ok_whole|].
  wsteps. pose proof (rep_nodup _ _ Hk) as [Hnin _]%NoDup_cons.
  pose proof (agree_memset s1 p 0 (proj1 Hp)) as Ha2. split_and!; [done|done| | | |].
  - eapply kmem_rep_agree; [exact Ha2|done|set_solver|done].
  - split.
    + by rewrite lookup_singleton_eq.
    + intros π q [<- _]%lookup_singleton_Some. simpl. lia.
    + intros π π' q [<- _]%lookup_singleton_Some [<- _]%lookup_singleton_Some. done.
    + intros π q [_ <-]%lookup_singleton_Some. done.
    + intros π q [_ <-]%lookup_singleton_Some. done.
    + intros π i q [E _]%lookup_singleton_Some. by destruct π.
    + intros π q i [<- <-]%lookup_singleton_Some _ Hi. rewrite lookup_singleton_ne by done.
      simpl. by rewrite word_memset_zero.
  - intros va. unfold pte_at. by rewrite lookup_singleton_ne.
  - by eapply agree_off_trans.
Qed.
End Leaf.

(** * mappages *)
Section Mappages.
Context `{KernelImage}.
Implicit Types (s : mem) (T : ptree) (fl : list Z) (L : list lock).

(** [n] pages from [va] are mapped to consecutive physical pages from [pa]. *)
Definition mapped_to s T (va n pa perm : Z) : Prop :=
  forall j, 0 <= j < n -> pte_at s T (va + PGSIZE * j) = pte_entry (pa + PGSIZE * j) perm.

(** The virtual page numbers of [n] pages from [va]. *)
Definition vrange (va n : Z) (v : Z) : Prop := va / PGSIZE <= v < va / PGSIZE + n.

(** The outcome of mapping [n] pages of which the first [k] succeeded. *)
Definition maps root s T fl (va pa perm k : Z) s' T' fl' : Prop :=
  pt_grow root s T fl s' T' fl' /\ mapped_to s' T' va k pa perm /\
  ptes_same_off (vrange va k) s T s' T'.

Lemma vpn_add va j : va mod PGSIZE = 0 -> (va + PGSIZE * j) / PGSIZE = va / PGSIZE + j.
Proof. unfold PGSIZE. intros. zdiv. Qed.

Lemma maps_extend root s T fl va pa perm k s1 T1 fl1 s2 T2 fl2 :
  va mod PGSIZE = 0 -> 0 <= va -> 0 <= k -> va + PGSIZE * (k + 1) <= VASPACE ->
  maps root s T fl va pa perm k s1 T1 fl1 ->
  pt_grow root s1 T1 fl1 s2 T2 fl2 ->
  pte_at s2 T2 (va + PGSIZE * k) = pte_entry (pa + PGSIZE * k) perm ->
  ptes_same_off (fun v => v = (va + PGSIZE * k) / PGSIZE) s1 T1 s2 T2 ->
  maps root s T fl va pa perm (k + 1) s2 T2 fl2.
Proof.
  intros Hal Hva Hk Hhi (Hg & Hm & Ho) Hg2 Hnew Hoff.
  rewrite vpn_add in Hoff by done. split; [by eapply pt_grow_trans|]. split.
  - intros j Hj. destruct (decide (j = k)) as [->|]; [done|].
    rewrite Hoff; [apply Hm; lia|unfold PGSIZE in *; lia|rewrite vpn_add by done; lia].
  - intros a Ha Hn. unfold vrange in *. rewrite Hoff by lia. apply Ho; [done|].
    unfold vrange. lia.
Qed.

(** One round of the loop of mappages. *)
Lemma mappages_body_wp root last perm a pa L s T fl :
  pt_rep s root T -> kmem_rep s fl -> 0 <= a < MAXVA -> pte_page pa -> 0 <= perm < 1024 ->
  has_bits (pte_at s T a) PTE_V = false -> avail [kmem_lock; ref_lock] L ->
  wp (mappages_body root last perm (a, pa)) L s (fun r s' => exists T' fl',
    pt_grow root s T fl s' T' fl' /\ (length fl <= length fl' + 2)%nat /\
    (r = inr (-1) /\ fl' = [] /\ (forall va, pte_at s' T' va = pte_at s T va) \/
     r = (if decide (a = last) then inr 0 else inl (u64 (a + PGSIZE), u64 (pa + PGSIZE))) /\
     pte_at s' T' a = pte_entry pa perm /\
     ptes_same_off (fun v => v = a / PGSIZE) s T s' T')).
Proof.
  intros HT Hk Ha Hpa Hperm HV HL. pose proof (MAXVA_VASPACE a (proj2 Ha)).
  unfold mappages_body. wsteps.
  wcall walk_alloc_wp; [done|done|lia|done|].
  intros r s1 (T1 & fl1 & [Hg Hp] & Hfew & [[-> ->]|(q & Hq & ->)]).
  { wtrue; [|done]. wsteps. split; [done|]. exists T1, []. eauto 6. }
  pose proof (gr_rep _ _ _ _ _ _ _ Hg) as HT1.
  wfalse; [|by eapply slot_nonzero]. wsteps. eapply wpl_load_leaf; [done|done|].
  rewrite Hp, HV. wsteps. eapply wpl_store_leaf; [done|done|].
  fold (pte_entry pa perm).
  assert (Hpost : exists T' fl', pt_grow root s T fl (leaf_state s1 q a (pte_entry pa perm)) T' fl' /\
    (length fl <= length fl' + 2)%nat /\
    pte_at (leaf_state s1 q a (pte_entry pa perm)) T' a = pte_entry pa perm /\
    ptes_same_off (fun v => v = a / PGSIZE) s T (leaf_state s1 q a (pte_entry pa perm)) T').
  { exists T1, fl1. split_and!.
    - eapply pt_grow_trans; [done|]. eapply leaf_store_grow; [done|apply Hg|done].
    - done.
    - apply leaf_store_at; [done|by apply pte_entry_range].
    - intros va Hva Hne. rewrite <- Hp. eapply leaf_store_off; [done|done|lia|done|done]. }
  destruct Hpost as (T' & fl' & ? & ? & ? & ?).
  wcase; wsteps; (split; [done|]); exists T', fl'; (split; [done|]); (split; [done|]); by right.
Qed.

Lemma mappages_wp root va size pa perm L s T fl :
  pt_rep s root T -> kmem_rep s fl ->
  va mod PGSIZE = 0 -> size mod PGSIZE = 0 -> 0 < size -> 0 <= va -> va + size <= MAXVA ->
  pa mod PGSIZE = 0 -> 0 <= pa -> pa + size <= 2 ^ 56 -> 0 <= perm < 1024 ->
  (forall a, va <= a < va + size -> has_bits (pte_at s T a) PTE_V = false) ->
  avail [kmem_lock; ref_lock] L ->
  wp (mappages root va size pa perm) L s (fun r s' => exists T' fl' k,
    maps root s T fl va pa perm k s' T' fl' /\ Z.of_nat (length fl) <= Z.of_nat (length fl') + 2 * (size / PGSIZE) /\
    (r = 0 /\ k = size / PGSIZE \/ r = -1 /\ 0 <= k < size / PGSIZE /\ fl' = [])).
Proof.
  intros HT Hk Hva Hsz Hpos Hlo Hhi Hpaa Hpa Hpah Hperm HV HL.
  unfold mappages. do 3 (wfalse; [|lia]).
  assert (Hlast : u64 (va + size - PGSIZE) = va + PGSIZE * (size / PGSIZE - 1)).
  { rewrite u64_small; unfold PGSIZE in *; [zdiv|]. change MAXVA with (2 ^ 38) in *. zdiv. }
  rewrite Hlast.
  apply (wpl_loop (fun x s1 => exists k T1 fl1,
      x = (va + PGSIZE * k, pa + PGSIZE * k) /\ 0 <= k < size / PGSIZE /\
      maps root s T fl va pa perm k s1 T1 fl1 /\ Z.of_nat (length fl) <= Z.of_nat (length fl1) + 2 * k)
    (fun x => Z.to_nat (size / PGSIZE - (x.1 - va) / PGSIZE))).
  - intros x s1 (k & T1 & fl1 & -> & Hkr & Hm & Hfew). destruct Hm as (Hg & Hm & Ho).
    change MAXVA with (2 ^ 38) in *.
    assert (Hin : va <= va + PGSIZE * k < va + size) by (unfold PGSIZE in *; zdiv).
    eapply wp_mono; [eapply (mappages_body_wp _ _ _ _ _ L s1 T1 fl1)|]; try done.
    + apply Hg.
    + apply Hg.
    + change MAXVA with (2 ^ 38). lia.
    + split; unfold PGSIZE in *; zdiv.
    + rewrite Ho; [by apply HV|unfold VASPACE; lia|].
      rewrite vpn_add by done. unfold vrange. lia.
    + intros r s2 (T2 & fl2 & Hg2 & Hfew2 & [(-> & -> & Hp)|(-> & Hnew & Hoff)]).
      * exists T2, [], k. split; [|split; [lia|by right]]. split; [by eapply pt_grow_trans|]. split.
        -- intros j Hj. rewrite Hp. by apply Hm.
        -- intros a Ha Hn. rewrite Hp. by apply Ho.
      * assert (Hm2 : maps root s T fl va pa perm (k + 1) s2 T2 fl2).
        { eapply (maps_extend root s T fl va pa perm k s1 T1 fl1); try done; try lia.
          unfold VASPACE, PGSIZE in *. zdiv. }
        case_decide as Hd.
        -- exists T2, fl2, (k + 1). split; [done|]. split; [lia|]. left. split; [done|].
           unfold PGSIZE in *. lia.
        -- split.
           ++ exists (k + 1), T2, fl2. split_and!; try done; try lia.
              2: { unfold PGSIZE in *. lia. }
              f_equal; rewrite u64_small; unfold PGSIZE in *; zdiv.
           ++ simpl. rewrite u64_small by (unfold PGSIZE in *; lia). unfold PGSIZE in *. zdiv.
  - exists 0, T, fl. split; [f_equal; lia|]. split; [unfold PGSIZE in *; zdiv|].
    split; [|lia]. split; [by apply pt_grow_refl|]. split; [intros j Hj; lia|]. by intros a _ _.
  - simpl. unfold PGSIZE in *. zdiv.
Qed.

(** Mapping a single page. *)
Lemma map_page_wp root va pa perm L s T fl :
  pt_rep s root T -> kmem_rep s fl -> va mod PGSIZE = 0 -> 0 <= va < MAXVA ->
  pte_page pa -> 0 <= perm < 1024 -> has_bits (pte_at s T va) PTE_V = false ->
  avail [kmem_lock; ref_lock] L ->
  wp (mappages root va PGSIZE pa perm) L s (fun r s' => exists T' fl',
    pt_grow root s T fl s' T' fl' /\ (length fl <= length fl' + 2)%nat /\
    (r = 0 /\ pte_at s' T' va = pte_entry pa perm /\
       ptes_same_off (fun v => v = va / PGSIZE) s T s' T' \/
     r = -1 /\ fl' = [] /\ ptes_same_off (fun _ => False) s T s' T')).
Proof.
  intros HT Hk Hal Hva [Hpa Hpal] Hperm HV HL. change MAXVA with (2 ^ 38) in *.
  eapply wp_mono.
  { eapply (mappages_wp root va PGSIZE pa perm L s T fl);
      try done; try (change MAXVA with (2 ^ 38); unfold PGSIZE in *; zdiv).
    intros a Ha. rewrite (pte_at_page s T a va); [done|]. unfold PGSIZE in *. zdiv. }
  intros r s' (T' & fl' & k & (Hg & Hm & Ho) & Hfew & Hr). exists T', fl'. split; [done|].
  change (PGSIZE / PGSIZE) with 1 in *. split; [lia|]. destruct Hr as [[-> ->]|(-> & ? & ->)].
  - left. specialize (Hm 0). rewrite !Z.mul_0_r, !Z.add_0_r in Hm. split_and!; [done|apply Hm; lia|].
    intros v Hv Hn. apply Ho; [done|]. unfold vrange. lia.
  - right. split_and!; [done|done|]. intros v Hv _. apply Ho; [done|]. unfold vrange. lia.
Qed.

(** mappages refuses to map over a valid entry. *)
Lemma mappages_remap root va pa perm L s T :
  pt_rep s root T -> va mod PGSIZE = 0 -> 0 <= va < MAXVA ->
  has_bits (pte_at s T va) PTE_V = true ->
  panics (mappages root va PGSIZE pa perm) L s "mappages: remap".
Proof.
  intros HT Hal Hva HV. unfold mappages. wfalse; [|lia]. wfalse; [|by intros []].
  wfalse; [|done]. cbn [loop].
  apply panics_head. unfold mappages_body. apply panics_bind.
  destruct (T !! vpath va) as [q|] eqn:Hq; [|unfold pte_at in HV; by rewrite Hq in HV].
  wcall walk_present_wp; [done|lia|done|]. intros r s' [-> ->].
  wfalse; [|by eapply slot_nonzero]. apply panics_bind. eapply wpl_load_leaf; [done|done|].
  by rewrite HV.
Qed.
End Mappages.
