(* ===== verification/Vm.v ===== *)
(** User address spaces, the part of kernel/vm.c that unmaps, shrinks and grows
    them: [uvmunmap], [uvmdealloc], [uvmalloc]. *)
From S2P Require Import Prelude Riscv PhysMem Kalloc PageTable.
Local Open Scope Z_scope.

(** * The operations *)
Section Operations.
Context `{KernelImage}.

Definition uvmunmap_body (pagetable va npages : Z) (do_free : bool) (a : Z) : M mem (Z + unit) :=
  if decide (a < u64 (va + npages * PGSIZE))
  then
    pte ← walk pagetable a false;
    (if decide (pte = 0) then mret tt
     else
       v ← load64 pte;
       if negb (has_bits v PTE_V) then mret tt
       else
         (if do_free then kfree (PTE2PA v) else mret tt);;
         store64 pte 0);;
    mret (inl (u64 (a + PGSIZE)))
  else mret (inr tt).

Definition uvmunmap (pagetable va npages : Z) (do_free : bool) : M mem unit :=
  if decide (va mod PGSIZE <> 0) then panic "uvmunmap: not aligned"
  else loop (S (Z.to_nat npages)) (uvmunmap_body pagetable va npages do_free) va.

Definition uvmdealloc (pagetable oldsz newsz : Z) : M mem Z :=
  if decide (newsz >= oldsz) then mret oldsz
  else
    (if decide (PGROUNDUP newsz < PGROUNDUP oldsz)
     then
       let npages := s32 ((PGROUNDUP oldsz - PGROUNDUP newsz) / PGSIZE) in
       uvmunmap pagetable (PGROUNDUP newsz) (u64 npages) true
     else mret tt);;
    mret newsz.

Definition uvmalloc_body (pagetable oldsz newsz xperm a : Z) : M mem (Z + Z) :=
  if decide (a < newsz)
  then
    mem ← kalloc;
    if decide (mem = 0)
    then uvmdealloc pagetable a oldsz;; mret (inr 0)
    else
      memset mem 0 PGSIZE;;
      r ← mappages pagetable a PGSIZE mem (Z.lor (Z.lor PTE_R PTE_U) xperm);
      if decide (r <> 0)
      then kfree mem;; uvmdealloc pagetable a oldsz;; mret (inr 0)
      else mret (inl (u64 (a + PGSIZE)))
  else mret (inr newsz).

Definition uvmalloc (pagetable oldsz newsz xperm : Z) : M mem Z :=
  if decide (newsz < oldsz) then mret oldsz
  else
    let oldsz := PGROUNDUP oldsz in
    loop (S (Z.to_nat ((newsz + PGSIZE - oldsz) / PGSIZE)))
      (uvmalloc_body pagetable oldsz newsz xperm) oldsz.
End Operations.

(** * Unmapping *)
Section Unmap.
Context `{KernelImage}.
Implicit Types (s : mem) (T : ptree) (fl : list Z) (L : list lock).

(** The physical page an entry maps, if it is valid. *)
Definition upage (v : Z) : list Z := if has_bits v PTE_V then [PTE2PA v] else [].

(** The physical pages mapped by [n] pages from [va], in order. *)
Fixpoint upages s T (va : Z) (n : nat) : list Z :=
  match n with
  | O => []
  | S k => upages s T va k ++ upage (pte_at s T (va + PGSIZE * Z.of_nat k))
  end.

(** The entry left by uvmunmap. *)
Definition unmapped (v : Z) : Z := if has_bits v PTE_V then 0 else v.

Lemma upages_prefix s T va k n :
  (k <= n)%nat -> (upages s T va k) `prefix_of` (upages s T va n).
Proof.
  induction 1 as [|n ? IH]; [done|]. simpl. by apply prefix_app_r.
Qed.

Lemma upages_ext s T s' T' va n :
  (forall j, 0 <= j < Z.of_nat n ->
     pte_at s' T' (va + PGSIZE * j) = pte_at s T (va + PGSIZE * j)) ->
  upages s' T' va n = upages s T va n.
Proof.
  induction n as [|n IH]; intros Hj; [done|]. simpl. rewrite IH by (intros; apply Hj; lia).
  by rewrite Hj by lia.
Qed.

Lemma elem_of_upages s T va n p :
  p ∈ upages s T va n <-> exists j, 0 <= j < Z.of_nat n /\
    has_bits (pte_at s T (va + PGSIZE * j)) PTE_V = true /\
    PTE2PA (pte_at s T (va + PGSIZE * j)) = p.
Proof.
  induction n as [|n IH]; simpl.
  { rewrite elem_of_nil. split; [done|]. intros (j & ? & _). lia. }
  rewrite elem_of_app, IH. unfold upage. split.
  - intros [(j & ? & ?)|Hp]; [exists j; split; [lia|done]|].
    exists (Z.of_nat n). split; [lia|]. destruct (has_bits _ _); set_solver.
  - intros (j & Hj & HV & <-). destruct (decide (j = Z.of_nat n)) as [->|].
    + right. rewrite HV. set_solver.
    + left. exists j. split; [lia|done].
Qed.

Lemma released_agree X s fl ps s' fl' :
  released X s fl ps s' fl' -> agree_off (X ∪ list_to_set ps) s s'.
Proof.
  intros [_ Hr _ _ Hs] q Hq [HX Hps]%not_elem_of_union. rewrite elem_of_list_to_set in Hps.
  split; [apply Hs; auto|]. rewrite Hr by done. apply cnt_notin in Hps. lia.
Qed.

Lemma grow_released root s T fl s' :
  pt_rep s root T -> pt_grow root s T fl s' T fl -> released (pt_set T) s fl [] s' fl.
Proof.
  intros HT [HT' Hk _ _ Ha]. split; [done| |by intros ? ?%elem_of_nil| |].
  - intros p Hp. simpl. destruct (decide (p ∈ pt_set T)) as [Hin|].
    + apply elem_of_pt_set in Hin as [π Hπ].
      rewrite (pt_ref _ _ _ HT _ _ Hπ), (pt_ref _ _ _ HT' _ _ Hπ). lia.
    + destruct (Ha p) as [_ ->]; [done|done|lia].
  - exists []. split; [done|]. set_solver.
  - intros p Hp HX _. by apply Ha.
Qed.

(** What uvmunmap of the first [k] pages has done. *)
Definition unmaps root s T fl (va : Z) (k : nat) (do_free : bool) s' fl' : Prop :=
  pt_rep s' root T /\
  released (pt_set T) s fl (if do_free then upages s T va k else []) s' fl' /\
  (forall j, 0 <= j < Z.of_nat k ->
    pte_at s' T (va + PGSIZE * j) = unmapped (pte_at s T (va + PGSIZE * j))) /\
  ptes_same_off (vrange va (Z.of_nat k)) s T s' T.

(** The pages that are unmapped are data pages with enough references. *)
Definition freeable s T (ps : list Z) : Prop :=
  forall p, p ∈ ps -> page_ok p /\ (p ∉ pt_set T) /\ cnt ps p <= ref s p.

Lemma cnt_prefix (l l' : list Z) x : l `prefix_of` l' -> cnt l x <= cnt l' x.
Proof. intros [k ->]. rewrite cnt_app. pose proof (cnt_nonneg k x). lia. Qed.

Lemma unmaps_refl root s T fl va do_free :
  pt_rep s root T -> kmem_rep s fl -> unmaps root s T fl va 0 do_free s fl.
Proof.
  intros. split; [done|]. split; [by destruct do_free; apply released_refl|].
  split; [lia|done].
Qed.

(** Adding the page number [k] to what is unmapped. *)
Lemma unmaps_extend root s T fl va k do_free s1 fl1 s2 fl2 :
  let a := va + PGSIZE * Z.of_nat k in
  va mod PGSIZE = 0 -> 0 <= va -> a < VASPACE ->
  unmaps root s T fl va k do_free s1 fl1 ->
  pt_rep s2 root T ->
  released (pt_set T) s1 fl1 (if do_free then upage (pte_at s T a) else []) s2 fl2 ->
  pte_at s2 T a = unmapped (pte_at s T a) ->
  ptes_same_off (fun v => v = a / PGSIZE) s1 T s2 T ->
  unmaps root s T fl va (S k) do_free s2 fl2.
Proof.
  intros a Hal Hva Ha (HT1 & Hr1 & Hc1 & Ho1) HT2 Hr2 Hc2 Ho2.
  assert (Hvpn : a / PGSIZE = va / PGSIZE + Z.of_nat k) by by apply vpn_add.
  split_and!; [done| | |].
  - destruct do_free; [by eapply released_trans|]. exact (released_trans _ _ _ _ _ _ _ _ _ Hr1 Hr2).
  - intros j Hj. destruct (decide (j = Z.of_nat k)) as [->|]; [done|].
    rewrite Ho2; [apply Hc1; lia|unfold a, PGSIZE in *; lia|].
    rewrite vpn_add by done. lia.
  - intros v Hv Hn. unfold vrange in *. rewrite Ho2 by lia. apply Ho1; [done|].
    unfold vrange. lia.
Qed.

(** Dropping references to data pages, then writing a leaf entry. *)
Lemma released_leaf root s T fl ps s1 fl1 va q v :
  pt_rep s root T -> released ∅ s fl ps s1 fl1 -> (forall p, p ∈ ps -> p ∉ pt_set T) ->
  T !! vpath va = Some q -> 0 <= va < VASPACE -> 0 <= v < 2 ^ 64 ->
  let s2 := leaf_state s1 q va v in
  pt_rep s2 root T /\ released (pt_set T) s fl ps s2 fl1 /\ pte_at s2 T va = v /\
  ptes_same_off (fun n => n = va / PGSIZE) s T s2 T.
Proof.
  intros HT Hr Hps Hq Hva Hv s2. pose proof (released_agree _ _ _ _ _ _ Hr) as Ha.
  assert (Hd : pt_set T ## ∅ ∪ list_to_set ps) by set_solver.
  assert (HT1 : pt_rep s1 root T) by by eapply pt_rep_agree.
  pose proof (leaf_store_grow root s1 T fl1 va q v HT1 (rl_kmem _ _ _ _ _ _ Hr) Hq) as Hg.
  split_and!.
  - apply Hg.
  - rewrite <- (app_nil_r ps). eapply released_trans; [|by eapply grow_released].
    eapply released_mono; [done|set_solver].
  - by apply leaf_store_at.
  - intros va' Hva' Hne. etrans; [by eapply leaf_store_off|]. by eapply pte_at_agree.
Qed.

(** The page number [k] still has a reference when its turn comes. *)
Lemma freeable_next s T va n k fl s1 fl1 :
  let v := pte_at s T (va + PGSIZE * Z.of_nat k) in
  (k < n)%nat -> freeable s T (upages s T va n) ->
  released (pt_set T) s fl (upages s T va k) s1 fl1 -> has_bits v PTE_V = true ->
  page_ok (PTE2PA v) /\ (PTE2PA v ∉ pt_set T) /\ 1 <= ref s1 (PTE2PA v).
Proof.
  intros v Hk Hfr Hr1 HV.
  assert (Hpre : (upages s T va k ++ [PTE2PA v]) `prefix_of` (upages s T va n)).
  { pose proof (upages_prefix s T va (S k) n) as Hp. simpl in Hp. fold v in Hp.
    unfold upage in Hp. rewrite HV in Hp. apply Hp. lia. }
  destruct (Hfr (PTE2PA v)) as (Hok & Hnin & Hc).
  { destruct Hpre as [l ->]. set_solver. }
  split_and!; [done|done|]. rewrite (rl_ref _ _ _ _ _ _ Hr1) by apply Hok.
  apply (cnt_prefix _ _ (PTE2PA v)) in Hpre. rewrite cnt_app in Hpre. simpl in Hpre.
  rewrite decide_True in Hpre by done. lia.
Qed.

(** One round of the loop of uvmunmap. *)
Lemma uvmunmap_body_wp root va n k do_free L s T fl s1 fl1 :
  let a := va + PGSIZE * Z.of_nat k in
  va mod PGSIZE = 0 -> 0 <= va -> (k < n)%nat -> va + Z.of_nat n * PGSIZE <= MAXVA ->
  (do_free = true -> freeable s T (upages s T va n)) ->
  unmaps root s T fl va k do_free s1 fl1 -> avail [kmem_lock; ref_lock] L ->
  wp (uvmunmap_body root va (Z.of_nat n) do_free a) L s1 (fun r s2 =>
    r = inl (a + PGSIZE) /\ exists fl2, unmaps root s T fl va (S k) do_free s2 fl2).
Proof.
  intros a Hal Hva Hk Hhi Hfr Hun HL. pose proof Hun as (HT1 & Hr1 & Hc1 & Ho1).
  pose proof (rl_kmem _ _ _ _ _ _ Hr1) as Hk1.
  assert (Ham : a < MAXVA) by (unfold a, PGSIZE in *; lia).
  assert (Ha : 0 <= a < VASPACE) by (split; [unfold a, PGSIZE; lia|by apply MAXVA_VASPACE]).
  assert (Hs : pte_at s1 T a = pte_at s T a).
  { apply Ho1; [done|]. unfold a, vrange. rewrite vpn_add by done. lia. }
  unfold uvmunmap_body. wstep. change MAXVA with (2 ^ 38) in *.
  rewrite (u64_small (va + _)) by (unfold PGSIZE in *; lia).
  wtrue; [|unfold a, PGSIZE in *; lia]. wstep.
  wcall walk_look_wp; [done|change MAXVA with (2 ^ 38); lia|]. intros r s' [-> ->].
  rewrite u64_small by (unfold PGSIZE in *; lia).
  assert (Hnop : upage (pte_at s T a) = [] -> unmapped (pte_at s T a) = pte_at s T a ->
    unmaps root s T fl va (S k) do_free s1 fl1).
  { intros Hu Hm. eapply unmaps_extend; try done; [apply Ha| |fold a; by rewrite Hm].
    fold a. rewrite Hu. by destruct do_free; apply released_refl. }
  unfold slot. destruct (T !! vpath a) as [q|] eqn:Hq.
  2:{ wstep. wtrue; [|done]. wsteps. split_and!; [done|done|]. exists fl1. 
      assert (pte_at s T a = 0) as E by (unfold pte_at; by rewrite Hq).
      apply Hnop; by rewrite E. }
  wstep. wfalse; [|by eapply slot_nonzero]. wstep. eapply wpl_load_leaf; [done|done|].
  rewrite Hs. unfold upage, unmapped in Hnop. fold a in Hnop.
  destruct (has_bits (pte_at s T a) PTE_V) eqn:HV; simpl.
  2:{ wsteps. split_and!; [done|done|]. exists fl1. by apply Hnop. }
  set (v := pte_at s T a) in *.
  assert (Hpa : do_free = true ->
    page_ok (PTE2PA v) /\ (PTE2PA v ∉ pt_set T) /\ 1 <= ref s1 (PTE2PA v)).
  { intros ->. by eapply freeable_next; [|by apply Hfr|done|]. }
  wsteps. eapply (wpl_mono _ _ _ (fun _ L' s2 => L' = L /\ exists fl2,
    released ∅ s1 fl1 (if do_free then [PTE2PA v] else []) s2 fl2)).
  { destruct do_free; [|wsteps; split; [done|]; exists fl1; by apply released_refl].
    destruct Hpa as (? & ? & ?); [done|]. by eapply kfree_wp. }
  intros _ L' s2 (-> & fl2 & Hr2).
  assert (HT2 : pt_rep s2 root T).
  { eapply pt_rep_agree; [by eapply released_agree| |done].
    destruct do_free; [|set_solver]. destruct Hpa as (? & ? & ?); set_solver. }
  wsteps. eapply wpl_store_leaf; [done|done|]. wsteps. split_and!; [done|done|].
  exists fl2. edestruct (released_leaf root s1 T fl1 _ s2 fl2 a q 0 HT1 Hr2)
    as (HT3 & Hr3 & Hc3 & Ho3); [|exact Hq|exact Ha|lia|].
  - destruct do_free; [|set_solver]. destruct Hpa as (? & ? & ?); set_solver.
  - eapply unmaps_extend; try done; [apply Ha| |]; fold a v; unfold upage, unmapped; by rewrite HV.
Qed.

Lemma uvmunmap_wp root va npages do_free L s T fl :
  pt_rep s root T -> kmem_rep s fl -> va mod PGSIZE = 0 -> 0 <= va -> 0 <= npages ->
  va + npages * PGSIZE <= MAXVA ->
  (do_free = true -> freeable s T (upages s T va (Z.to_nat npages))) ->
  avail [kmem_lock; ref_lock] L ->
  wp (uvmunmap root va npages do_free) L s (fun _ s' =>
    exists fl', unmaps root s T fl va (Z.to_nat npages) do_free s' fl').
Proof.
  intros HT Hk Hal Hva Hn Hhi Hfr HL. unfold uvmunmap. wfalse; [|lia].
  apply (wpl_loop (fun a s1 => exists k fl1, a = va + PGSIZE * Z.of_nat k /\
      (k <= Z.to_nat npages)%nat /\ unmaps root s T fl va k do_free s1 fl1)
    (fun a => Z.to_nat (npages - (a - va) / PGSIZE))).
  - intros a s1 (k & fl1 & -> & Hkn & Hun). destruct (decide (k = Z.to_nat npages)) as [->|].
    + unfold uvmunmap_body. wstep. change MAXVA with (2 ^ 38) in *.
      wfalse; [wsteps; eauto|]. rewrite u64_small; unfold PGSIZE in *; lia.
    + eapply wp_mono.
      { pose proof (uvmunmap_body_wp root va (Z.to_nat npages) k do_free L s T fl s1 fl1) as Hb.
        cbv zeta in Hb. rewrite Z2Nat.id in Hb by done. by apply Hb; try lia. }
      intros r s2 [-> [fl2 Hun2]]. split; [exists (S k), fl2; split_and!; [|lia|done]|];
        unfold PGSIZE in *; zdiv.
  - exists 0%nat, fl. split_and!; [lia|lia|by apply unmaps_refl].
  - rewrite Z.sub_diag. change (0 / PGSIZE) with 0. lia.
Qed.
End Unmap.

(** * Shrinking *)
Section Dealloc.
Context `{KernelImage}.
Implicit Types (s : mem) (T : ptree) (fl : list Z) (L : list lock).

(** The number of pages given up when a process shrinks. *)
Definition dpages (oldsz newsz : Z) : nat :=
  Z.to_nat ((PGROUNDUP oldsz - PGROUNDUP newsz) / PGSIZE).

Lemma uvmdealloc_wp root oldsz newsz L s T fl :
  pt_rep s root T -> kmem_rep s fl -> 0 <= newsz -> newsz < oldsz -> oldsz <= MAXVA ->
  freeable s T (upages s T (PGROUNDUP newsz) (dpages oldsz newsz)) ->
  avail [kmem_lock; ref_lock] L ->
  wp (uvmdealloc root oldsz newsz) L s (fun r s' => r = newsz /\
    exists fl', unmaps root s T fl (PGROUNDUP newsz) (dpages oldsz newsz) true s' fl').
Proof.
  intros HT Hk Hlo Hlt Hhi Hfr HL. change MAXVA with (2 ^ 38) in *.
  unfold dpages in *. unfold uvmdealloc. wstep. wfalse; [|lia].
  pose proof (PGROUNDUP_aligned newsz). pose proof (PGROUNDUP_aligned oldsz).
  assert (Hup : forall x, 0 <= x <= 2 ^ 38 -> x <= PGROUNDUP x < x + PGSIZE)
    by (intros; apply PGROUNDUP_bounds; unfold PGSIZE; lia).
  pose proof (Hup newsz) as Hn. pose proof (Hup oldsz) as Ho.
  set (b := PGROUNDUP newsz) in *. set (e := PGROUNDUP oldsz) in *.
  wstep. wcase.
  - rewrite s32_small by (unfold PGSIZE in *; zdiv). rewrite u64_small by (unfold PGSIZE in *; zdiv).
    wcall uvmunmap_wp; try done; change MAXVA with (2 ^ 38); try (unfold PGSIZE in *; zdiv).
  - assert ((e - b) / PGSIZE = 0) as -> by (unfold PGSIZE in *; zdiv).
    wsteps. split_and!; [done|done|]. exists fl. by apply unmaps_refl.
Qed.
End Dealloc.

(** * A freshly allocated, zeroed page *)
Section Fresh.
Context `{KernelImage}.
Implicit Types (s : mem) (T : ptree) (fl : list Z) (L : list lock).

Definition zero_page (m : gmap Z Z) (p : Z) : Prop :=
  forall x, p <= x < p + PGSIZE -> byte m x = 0.

(** The state [s1], reached from [s] by allocating [p] and filling it, is as good
    for the table at [root] as [s] was. *)
Record fresh root s T fl (p : Z) s1 : Prop := {
  fr_rep : pt_rep s1 root T;
  fr_kmem : kmem_rep s1 fl;
  fr_page : page_ok p;
  fr_ref0 : ref s p = 0;
  fr_ref : ref s1 p = 1;
  fr_out : p ∉ pt_set T;
  fr_free : p ∉ fl;
  fr_ptes : forall va, pte_at s1 T va = pte_at s T va;
  fr_agree : agree_off {[p]} s s1
}.

(** Any change of the contents of the new page keeps it fresh. *)
Lemma fresh_fill root s T p fl s1 s2 :
  pt_rep s root T -> kmem_rep s (p :: fl) -> allocated s s1 p fl ->
  agree_off {[p]} s1 s2 -> freelist s2 = freelist s1 -> ref s2 p = ref s1 p ->
  fresh root s T fl p s2.
Proof.
  intros HT Hk [Hk1 Hp Hr1 Ha1 _] Ha2 Hf Hr2.
  pose proof (rep_nodup _ _ Hk) as [Hnin _]%NoDup_cons.
  assert (Hpt : p ∉ pt_set T).
  { intros Hin. apply (pt_set_free s root T (p :: fl) p); [done..|]. set_solver. }
  assert (Ha : agree_off {[p]} s s2) by by eapply agree_off_trans.
  split; try done.
  - eapply pt_rep_agree; [done|set_solver|done].
  - eapply kmem_rep_agree; [exact Ha2|done|set_solver|done].
  - apply (rep_refs _ _ Hk). set_solver.
  - congruence.
  - intros va. eapply pte_at_agree; [done|set_solver|done].
Qed.

(** The allocation of a zeroed page, as several functions do it. *)
Lemma kalloc_fresh_wp {A} root L s T fl (none : M mem A) (k : Z -> M mem A) Q :
  pt_rep s root T -> kmem_rep s fl -> avail [kmem_lock; ref_lock] L ->
  (fl = [] -> wpl none L s Q) ->
  (forall p fl1 s1, fl = p :: fl1 -> fresh root s T fl1 p s1 -> zero_page (ram s1) p ->
     p <> 0 -> wpl (k p) L s1 Q) ->
  wpl (p ← kalloc; if decide (p = 0) then none else memset p 0 PGSIZE;; k p) L s Q.
Proof.
  intros HT Hk HL Hnone Hsome. wsteps. wcall kalloc_wp; [done|done|]. intros r s1 Hr.
  destruct fl as [|p fl1]; [destruct Hr as [-> ->]; wtrue; [by apply Hnone|done]|].
  destruct Hr as [-> Hal]. pose proof (alloc_page _ _ _ _ Hal) as Hp.
  pose proof (page_ok_pos _ Hp). assert (p <> 0) by (unfold KERNBASE in *; lia).
  wfalse; [|done]. wsteps. apply wpl_memset; [by apply page_ok_whole|].
  eapply (Hsome p fl1); [done| | |done].
  - eapply fresh_fill; [done|done|done|apply agree_memset, Hp|done|done].
  - intros x Hx. simpl. rewrite byte_memset, decide_True; [done|]. by rewrite Z2Nat.id.
Qed.

(** Mapping a fresh page, and freeing it again when that fails. *)
Lemma map_fresh_wp root va perm L s T p fl1 s1 :
  kmem_rep s (p :: fl1) -> fresh root s T fl1 p s1 ->
  va mod PGSIZE = 0 -> 0 <= va < MAXVA -> 0 <= perm < 1024 ->
  has_bits (pte_at s T va) PTE_V = false -> avail [kmem_lock; ref_lock] L ->
  wp (mappages root va PGSIZE p perm) L s1 (fun r s2 => exists T2 fl2 used,
    pt_rep s2 root T2 /\ kmem_rep s2 fl2 /\ T ⊆ T2 /\ fl1 = used ++ fl2 /\
    pt_set T2 = pt_set T ∪ list_to_set used /\ ref s2 p = 1 /\ (p ∉ pt_set T2) /\
    same_page (ram s1) (ram s2) p /\ agree_off (pt_set T2 ∪ {[p]}) s s2 /\ (length used <= 2)%nat /\
    (r = 0 /\ pte_at s2 T2 va = pte_entry p perm /\
       ptes_same_off (fun v => v = va / PGSIZE) s T s2 T2 \/
     r = -1 /\ fl2 = [] /\ ptes_same_off (fun _ => False) s T s2 T2)).
Proof.
  intros Hk Hf Hal Hva Hperm HV HL.
  eapply wp_mono.
  { eapply (map_page_wp root va p perm L s1 T fl1 (fr_rep _ _ _ _ _ _ Hf) (fr_kmem _ _ _ _ _ _ Hf)).
    - done.
    - done.
    - exact (page_ok_pte _ (fr_page _ _ _ _ _ _ Hf)).
    - done.
    - by rewrite (fr_ptes _ _ _ _ _ _ Hf).
    - done. }
  intros r s2 (T2 & fl2 & [HT2 Hk2 Hsub (used & Hu & Hs) Ha] & Hfew & Hr). rewrite Hu, length_app in Hfew.
  assert (Hpt : p ∉ pt_set T2).
  { rewrite Hs. pose proof (fr_out _ _ _ _ _ _ Hf). pose proof (fr_free _ _ _ _ _ _ Hf).
    set_solver. }
  destruct (Ha p) as [Hsame Hrp]; [exact (proj1 (fr_page _ _ _ _ _ _ Hf))|done|].
  exists T2, fl2, used. split_and!; try done.
  - rewrite Hrp. apply Hf.
  - eapply agree_off_trans; eapply agree_off_mono; [apply Hf|set_solver|exact Ha|set_solver].
  - lia.
  - destruct Hr as [(? & ? & Ho)|(? & ? & Ho)]; [left|right]; split_and!; try done;
      intros v Hv Hn; rewrite Ho by (done || tauto); apply Hf.
Qed.
End Fresh.

(** * Growing *)
Section Alloc.
Context `{KernelImage}.
Context (root : Z) (s : mem) (T : ptree) (fl : list Z) (base perm : Z).
Implicit Types (L : list lock) (ps : list Z).

(** From [s], the pages [ps] were taken off the free list, zeroed and mapped one
    after the other from [base]; page-table pages may have been added. *)
Record grown ps (s1 : mem) (T1 : ptree) (fl1 : list Z) : Prop := {
  gw_rep : pt_rep s1 root T1;
  gw_kmem : kmem_rep s1 fl1;
  gw_sub : T ⊆ T1;
  gw_perm : exists used, fl ≡ₚ used ++ ps ++ fl1 /\ pt_set T1 = pt_set T ∪ list_to_set used;
  gw_ref : forall p, p ∈ ps -> ref s1 p = 1;
  gw_zero : forall p, p ∈ ps -> zero_page (ram s1) p;
  gw_ptes : forall j p, ps !! j = Some p ->
    pte_at s1 T1 (base + PGSIZE * Z.of_nat j) = pte_entry p perm;
  gw_off : ptes_same_off (vrange base (Z.of_nat (length ps))) s T s1 T1;
  gw_agree : agree_off (pt_set T1 ∪ list_to_set fl) s s1
}.

(** The table after a failed attempt: the pages of the attempt are free again
    and their entries invalid; page-table pages that were added stay. *)
Record undone (n : nat) (s1 : mem) (T1 : ptree) (fl1 : list Z) : Prop := {
  un_rep : pt_rep s1 root T1;
  un_kmem : kmem_rep s1 fl1;
  un_sub : T ⊆ T1;
  un_perm : exists used, fl ≡ₚ used ++ fl1 /\ pt_set T1 = pt_set T ∪ list_to_set used;
  un_ptes : forall j, 0 <= j < Z.of_nat n ->
    has_bits (pte_at s1 T1 (base + PGSIZE * j)) PTE_V = false;
  un_off : ptes_same_off (vrange base (Z.of_nat n)) s T s1 T1;
  un_agree : agree_off (pt_set T1 ∪ list_to_set fl) s s1
}.

Hypothesis HT : pt_rep s root T.
Hypothesis Hk : kmem_rep s fl.
Hypothesis Hbase : base mod PGSIZE = 0.
Hypothesis Hbase0 : 0 <= base.
Hypothesis Hperm : 0 <= perm < 1024.

Lemma grown_refl : grown [] s T fl.
Proof using All.
  split; try done; try set_solver.
  exists []. split; [done|]. set_solver.
Qed.

Lemma grown_nodup ps s1 T1 fl1 : grown ps s1 T1 fl1 -> NoDup ps.
Proof using All.
  intros Hg. destruct (gw_perm _ _ _ _ Hg) as (used & Hp & _).
  pose proof (rep_nodup _ _ Hk) as Hn. rewrite Hp in Hn.
  by apply NoDup_app in Hn as (_ & _ & (? & _ & _)%NoDup_app).
Qed.

Lemma grown_page ps s1 T1 fl1 p :
  grown ps s1 T1 fl1 -> p ∈ ps -> page_ok p /\ (p ∈ fl) /\ (p ∉ pt_set T1) /\ (p ∉ fl1).
Proof using All.
  intros Hg Hin. destruct (gw_perm _ _ _ _ Hg) as (used & Hp & Hs).
  assert (Hfl : p ∈ fl) by (rewrite Hp; set_solver).
  pose proof (rep_nodup _ _ Hk) as Hn. rewrite Hp in Hn.
  apply NoDup_app in Hn as (_ & Hd & (_ & Hd' & _)%NoDup_app).
  split_and!; [by apply (rep_pages _ _ Hk)|done| |by apply Hd'].
  rewrite Hs. intros [Hin'|Hu]%elem_of_union.
  - by apply (pt_set_free s root T fl p).
  - apply elem_of_list_to_set in Hu. apply (Hd p Hu). set_solver.
Qed.

Lemma grown_upages ps s1 T1 fl1 : grown ps s1 T1 fl1 -> upages s1 T1 base (length ps) = ps.
Proof using All.
  intros Hg.
  assert (Hj : forall k, (k <= length ps)%nat -> upages s1 T1 base k = take k ps).
  { induction k as [|k IH]; intros Hle; [done|]. simpl. rewrite IH by lia.
    destruct (lookup_lt_is_Some_2 ps k) as [p Hpk]; [lia|].
    assert (Hpp : pte_page p).
    { apply page_ok_pte. eapply grown_page; [done|]. by eapply list_elem_of_lookup_2. }
    rewrite (gw_ptes _ _ _ _ Hg _ _ Hpk), (take_S_r _ _ p) by done. f_equal.
    unfold upage. by rewrite pte_entry_valid, pte_entry_pa. }
  rewrite Hj by done. by rewrite take_ge.
Qed.

Lemma grown_freeable ps s1 T1 fl1 : grown ps s1 T1 fl1 -> freeable s1 T1 ps.
Proof using All.
  intros Hg p Hp. destruct (grown_page _ _ _ _ _ Hg Hp) as (? & _ & ? & _).
  split_and!; [done|done|]. rewrite (gw_ref _ _ _ _ Hg) by done.
  by rewrite cnt_NoDup by (done || by eapply grown_nodup).
Qed.

(** The table and the free pages change, the mapped pages do not. *)
Lemma grown_keep ps s1 T1 fl1 s2 T2 fl2 used :
  grown ps s1 T1 fl1 -> pt_rep s2 root T2 -> kmem_rep s2 fl2 -> T1 ⊆ T2 ->
  fl1 ≡ₚ used ++ fl2 -> pt_set T2 = pt_set T1 ∪ list_to_set used ->
  ptes_same_off (fun _ => False) s1 T1 s2 T2 ->
  base + PGSIZE * Z.of_nat (length ps) <= MAXVA ->
  agree_off (pt_set T2 ∪ list_to_set fl1) s1 s2 -> grown ps s2 T2 fl2.
Proof using All.
  intros Hg HT2 Hk2 Hsub Hp Hs Ho Hhi Ha.
  destruct (gw_perm _ _ _ _ Hg) as (used0 & Hp0 & Hs0).
  assert (Hsame : forall p, p ∈ ps -> same_page (ram s1) (ram s2) p /\ ref s2 p = ref s1 p).
  { intros p Hin. destruct (grown_page _ _ _ _ _ Hg Hin) as (Hok & _ & Hpt & Hnf).
    apply Ha; [apply Hok|]. rewrite Hs. rewrite Hp in Hnf |- *. set_solver. }
  split; [done|done|by etrans; [apply Hg|]| | | | | |].
  - exists (used0 ++ used). split; [rewrite Hp0, Hp; solve_Permutation|].
    rewrite Hs, Hs0, list_to_set_app_L. set_solver.
  - intros p Hin. destruct (Hsame p Hin) as [_ ->]. by apply (gw_ref _ _ _ _ Hg).
  - intros p Hin x Hx. destruct (Hsame p Hin) as [Hb _]. rewrite <- Hb by done.
    by apply (gw_zero _ _ _ _ Hg p).
  - intros j p Hj. rewrite Ho; [by apply (gw_ptes _ _ _ _ Hg)| |by intros []].
    apply lookup_lt_Some in Hj. split; [unfold PGSIZE; lia|].
    apply MAXVA_VASPACE. unfold PGSIZE in *. lia.
  - intros va Hva Hn. rewrite Ho by (done || tauto). by apply (gw_off _ _ _ _ Hg).
  - eapply agree_off_trans; eapply agree_off_mono.
    + apply (gw_agree _ _ _ _ Hg).
    + intros p. rewrite Hp0, Hs. set_solver.
    + exact Ha.
    + intros p. rewrite Hp0. set_solver.
Qed.

(** One more page is mapped. *)
Lemma grown_snoc ps s1 T1 p fl1 s2 T2 fl2 used :
  let a := base + PGSIZE * Z.of_nat (length ps) in
  grown ps s1 T1 (p :: fl1) -> pt_rep s2 root T2 -> kmem_rep s2 fl2 -> T1 ⊆ T2 ->
  fl1 = used ++ fl2 -> pt_set T2 = pt_set T1 ∪ list_to_set used -> a < MAXVA ->
  ref s2 p = 1 -> zero_page (ram s2) p -> pte_at s2 T2 a = pte_entry p perm ->
  ptes_same_off (fun v => v = a / PGSIZE) s1 T1 s2 T2 ->
  agree_off (pt_set T2 ∪ {[p]}) s1 s2 -> grown (ps ++ [p]) s2 T2 fl2.
Proof using All.
  intros a Hg HT2 Hk2 Hsub Hp Hs Hhi Hr Hz Hpte Ho Ha.
  destruct (gw_perm _ _ _ _ Hg) as (used0 & Hp0 & Hs0).
  assert (Hsame : forall q, q ∈ ps -> same_page (ram s1) (ram s2) q /\ ref s2 q = ref s1 q).
  { intros q Hin. destruct (grown_page _ _ _ _ _ Hg Hin) as (Hok & _ & Hpt & Hnf).
    apply Ha; [apply Hok|]. rewrite Hs. set_solver. }
  assert (Hvpn : a / PGSIZE = base / PGSIZE + Z.of_nat (length ps)) by by apply vpn_add.
  split; [done|done|by etrans; [apply Hg|]| | | | | |].
  - exists (used0 ++ used). split; [rewrite Hp0, Hp; solve_Permutation|].
    rewrite Hs, Hs0, list_to_set_app_L. set_solver.
  - intros q [Hin| ->%list_elem_of_singleton]%elem_of_app; [|done].
    destruct (Hsame q Hin) as [_ ->]. by apply (gw_ref _ _ _ _ Hg).
  - intros q [Hin| ->%list_elem_of_singleton]%elem_of_app x Hx; [|by apply Hz].
    destruct (Hsame q Hin) as [Hb _]. rewrite <- Hb by done. by apply (gw_zero _ _ _ _ Hg q).
  - intros j q [Hj|[Hge Hj]]%lookup_app_Some.
    + rewrite Ho; [by apply (gw_ptes _ _ _ _ Hg)| |]; apply lookup_lt_Some in Hj.
      * apply MAXVA_VASPACE in Hhi. unfold a, PGSIZE in *. lia.
      * rewrite vpn_add by done. lia.
    + apply list_lookup_singleton_Some in Hj as [Hj <-].
      by replace j with (length ps) by lia.
  - rewrite length_app. simpl. intros va Hva Hn. unfold vrange in *.
    rewrite Ho by lia. apply (gw_off _ _ _ _ Hg); [done|]. unfold vrange. lia.
  - eapply agree_off_trans; eapply agree_off_mono.
    + apply (gw_agree _ _ _ _ Hg).
    + rewrite Hs. set_solver.
    + exact Ha.
    + intros q. rewrite Hp0. set_solver.
Qed.

(** Unmapping everything that was mapped undoes the growth. *)
Lemma grown_unmaps ps s1 T1 fl1 s2 fl2 :
  grown ps s1 T1 fl1 -> base + PGSIZE * Z.of_nat (length ps) <= MAXVA ->
  unmaps root s1 T1 fl1 base (length ps) true s2 fl2 ->
  undone (length ps) s2 T1 fl2.
Proof using All.
  intros Hg Hhi (HT2 & Hr2 & Hc2 & Ho2).
  rewrite (grown_upages _ _ _ _ Hg) in Hr2.
  destruct (gw_perm _ _ _ _ Hg) as (used & Hp & Hs).
  destruct (rl_freed _ _ _ _ _ _ Hr2) as (freed & -> & Hf).
  assert (Hfp : freed ≡ₚ ps).
  { apply NoDup_Permutation; [|by eapply grown_nodup|].
    - by pose proof (rep_nodup _ _ (rl_kmem _ _ _ _ _ _ Hr2)) as (? & _ & _)%NoDup_app.
    - intros p. rewrite Hf. split; [by intros []|]. intros Hin. split; [done|].
      rewrite (rl_ref _ _ _ _ _ _ Hr2) by (by eapply grown_page).
      rewrite (gw_ref _ _ _ _ Hg), cnt_NoDup by (done || by eapply grown_nodup). done. }
  split; [done|apply Hr2|apply Hg| | | |].
  - exists used. split; [|done]. by rewrite Hfp.
  - intros j Hj. rewrite Hc2 by done. unfold unmapped.
    by destruct (has_bits (pte_at s1 T1 _) PTE_V) eqn:E.
  - intros va Hva Hn. rewrite Ho2 by done. by apply (gw_off _ _ _ _ Hg).
  - eapply agree_off_trans; eapply agree_off_mono.
    + apply (gw_agree _ _ _ _ Hg).
    + intros p. rewrite Hp. set_solver.
    + by eapply released_agree.
    + intros p. rewrite Hp. set_solver.
Qed.

Lemma grown_undo_wp ps s1 T1 fl1 L :
  grown ps s1 T1 fl1 -> base + PGSIZE * Z.of_nat (length ps) <= MAXVA ->
  avail [kmem_lock; ref_lock] L ->
  wp (uvmdealloc root (base + PGSIZE * Z.of_nat (length ps)) base) L s1 (fun r s2 =>
    r = base /\ exists fl2, undone (length ps) s2 T1 fl2).
Proof using All.
  intros Hg Hhi HL. pose proof Hhi as Hhi'. change MAXVA with (2 ^ 38) in Hhi'.
  destruct (decide (length ps = 0%nat)) as [E|].
  - unfold uvmdealloc. wstep. wtrue; [|lia]. wsteps. split_and!; [done|lia|]. exists fl1.
    eapply grown_unmaps; [done|done|]. rewrite E. apply unmaps_refl; apply Hg.
  - assert (Hb : PGROUNDUP base = base) by (apply PGROUNDUP_id; unfold PGSIZE in *; lia).
    assert (Hd : dpages (base + PGSIZE * Z.of_nat (length ps)) base = length ps).
    { unfold dpages. rewrite Hb, PGROUNDUP_id; unfold PGSIZE in *; zdiv. }
    eapply wp_mono.
    { eapply (uvmdealloc_wp _ _ _ _ _ T1 fl1); try done; [apply Hg|apply Hg|unfold PGSIZE; lia|].
      rewrite Hb, Hd, (grown_upages _ _ _ _ Hg). by eapply grown_freeable. }
    intros r s2 (-> & fl2 & Hun). rewrite Hb, Hd in Hun. split; [done|]. exists fl2.
    by eapply grown_unmaps.
Qed.

(** One round of the loop of uvmalloc. *)
Lemma uvmalloc_body_wp newsz xperm ps s1 T1 fl1 L :
  let a := base + PGSIZE * Z.of_nat (length ps) in
  perm = Z.lor (Z.lor PTE_R PTE_U) xperm -> grown ps s1 T1 fl1 ->
  a < newsz -> a < MAXVA -> has_bits (pte_at s T a) PTE_V = false ->
  avail [kmem_lock; ref_lock] L ->
  wp (uvmalloc_body root base newsz xperm a) L s1 (fun r s2 => exists T2 fl2,
    (exists p, r = inl (a + PGSIZE) /\ grown (ps ++ [p]) s2 T2 fl2 /\ (length fl1 <= length fl2 + 3)%nat) \/
    r = inr 0 /\ undone (length ps) s2 T2 fl2 /\ (length fl1 <= 3)%nat).
Proof using All.
  intros a Hpe Hg Ha Hmax HV HL. unfold uvmalloc_body. wstep. wtrue; [|done].
  assert (Hav : 0 <= a < MAXVA) by (unfold a, PGSIZE in *; lia).
  assert (Hpte : pte_at s1 T1 a = pte_at s T a).
  { apply (gw_off _ _ _ _ Hg); [split; [lia|apply MAXVA_VASPACE, Hav]|].
    unfold vrange, a. rewrite vpn_add by done. lia. }
  eapply kalloc_fresh_wp; [apply Hg|apply Hg|done| |].
  { intros ->. wstep. wcall (grown_undo_wp ps s1 T1 []); [done|fold a; lia|done|].
    intros ? s2 (_ & fl2 & Hu). wsteps. split; [done|]. exists T1, fl2. right. split_and!; [done|done|simpl; lia]. }
  intros p fl2 s2 -> Hf Hz _. rewrite <- Hpe. wstep.
  wcall (map_fresh_wp root a perm L s1 T1 p fl2 s2); try done; [apply Hg| |by rewrite Hpte|].
  { unfold a, PGSIZE in *. zdiv. }
  intros r s3 (T3 & fl3 & used & HT3 & Hk3 & Hsub & Hu & Hs & Hr3 & Hpt & Hsame & Hag & Hfew & Hor).
  destruct Hor as [(-> & Hp & Ho)|(-> & -> & Ho)].
  - wfalse; [|by intros []]. wsteps. split; [done|]. exists T3, fl3. left. exists p. split.
    + rewrite u64_small; [done|]. change MAXVA with (2 ^ 38) in *. unfold PGSIZE. lia.
    + split; [|rewrite Hu; simpl; rewrite length_app; lia]. eapply grown_snoc; try done.
      intros x Hx. rewrite <- Hsame by done. by apply Hz.
  - wtrue; [|done]. wstep. wcall (kfree_last_wp p _ _ []); try done; [exact (fr_page _ _ _ _ _ _ Hf)|].
    intros ? s4 (Hk4 & Hr4 & Ha4). rewrite app_nil_r in Hu.
    assert (Hg4 : grown ps s4 T3 [p]).
    { eapply (grown_keep _ s1 T1 (p :: fl2) s4 T3 [p] used); try done; [| | | |].
      - eapply pt_rep_agree; [done|set_solver|done].
      - rewrite Hu. solve_Permutation.
      - intros va Hva Hn. rewrite <- Ho by done. eapply pte_at_agree; [done|set_solver|done].
      - fold a. lia.
      - eapply agree_off_trans; eapply agree_off_mono; [done|set_solver|done|set_solver]. }
    wsteps. wcall (grown_undo_wp ps s4 T3 [p]); [done|fold a; lia|done|].
    intros ? s5 (_ & fl5 & Hu5). wsteps. split; [done|]. exists T3, fl5. right. split_and!; [done|done|simpl; rewrite Hu; lia].
Qed.

(** How many pages cover the bytes from [base] up to [newsz]. *)
Definition npages_upto (newsz : Z) : Z := (newsz + PGSIZE - 1 - base) / PGSIZE.

Lemma uvmalloc_loop_wp newsz xperm L fuel :
  perm = Z.lor (Z.lor PTE_R PTE_U) xperm -> base < newsz + PGSIZE ->
  (forall k, (k <= length fl)%nat -> base + PGSIZE * Z.of_nat k < newsz ->
    base + PGSIZE * Z.of_nat k < MAXVA /\ has_bits (pte_at s T (base + PGSIZE * Z.of_nat k)) PTE_V = false) ->
  avail [kmem_lock; ref_lock] L -> (Z.to_nat (npages_upto newsz) < fuel)%nat ->
  wp (loop fuel (uvmalloc_body root base newsz xperm) base) L s (fun r s' =>
    exists T' fl',
      (exists ps, r = newsz /\ Z.of_nat (length ps) = npages_upto newsz /\ grown ps s' T' fl' /\
         (length fl <= length fl' + 3 * length ps)%nat) \/
      (exists n, r = 0 /\ Z.of_nat n < npages_upto newsz /\ undone n s' T' fl' /\ (n <= length fl <= 3 * n + 3)%nat)).
Proof using All.
  intros Hpe Hlt HV HL Hfuel. unfold npages_upto in *.
  apply (wpl_loop (fun a s1 => exists ps T1 fl1, a = base + PGSIZE * Z.of_nat (length ps) /\
      a < newsz + PGSIZE /\ grown ps s1 T1 fl1 /\ (length fl <= length fl1 + 3 * length ps)%nat)
    (fun a => Z.to_nat ((newsz + PGSIZE - 1 - a) / PGSIZE))).
  - intros a s1 (ps & T1 & fl1 & -> & Hbd & Hg & Hfew).
    assert (Hps : (length ps <= length fl)%nat).
    { destruct (gw_perm _ _ _ _ Hg) as (used & Hp & _). rewrite Hp, !length_app. lia. }
    destruct (decide (base + PGSIZE * Z.of_nat (length ps) < newsz)) as [Ha|Ha].
    + destruct (HV (length ps) Hps Ha) as [Ham HV'].
      eapply wp_mono; [by apply (uvmalloc_body_wp newsz xperm ps s1 T1 fl1)|].
      intros r s2 (T2 & fl2 & [(p & -> & Hg2 & Hn2)|(-> & Hu & Hn2)]).
      * split; [exists (ps ++ [p]), T2, fl2; rewrite length_app; split_and!; try done|];
          simpl; try lia; unfold PGSIZE in *; zdiv.
      * exists T2, fl2. right. exists (length ps). split_and!; [done| |done|lia|lia].
        unfold PGSIZE in *. zdiv.
    + unfold uvmalloc_body. wstep. wfalse; [|done]. wsteps. split; [done|].
      exists T1, fl1. left. exists ps. split_and!; [done| |done|done]. unfold PGSIZE in *. zdiv.
  - exists [], T, fl. simpl. split_and!; [lia|lia|by apply grown_refl|lia].
  - done.
Qed.
End Alloc.

(** * What unmapping, shrinking and growing guarantee *)
Section Correctness.
Context `{KernelImage}.
Implicit Types (s : mem) (T : ptree) (fl : list Z) (L : list lock).

(** [newsz] may be any number: as soon as the free pages do not reach beyond what
    can be mapped, a larger one fails. *)
Lemma uvmalloc_any_wp root oldsz newsz xperm L s T fl :
  let base := PGROUNDUP oldsz in
  let perm := Z.lor (Z.lor PTE_R PTE_U) xperm in
  pt_rep s root T -> kmem_rep s fl -> 0 <= oldsz <= newsz -> oldsz <= MAXVA ->
  0 <= xperm < 1024 ->
  (forall k, (k <= length fl)%nat -> base + PGSIZE * Z.of_nat k < newsz ->
    base + PGSIZE * Z.of_nat k < MAXVA /\ has_bits (pte_at s T (base + PGSIZE * Z.of_nat k)) PTE_V = false) ->
  avail [kmem_lock; ref_lock] L ->
  wp (uvmalloc root oldsz newsz xperm) L s (fun r s' => exists T' fl',
    (exists ps, r = newsz /\ Z.of_nat (length ps) = npages_upto base newsz /\
       grown root s T fl base perm ps s' T' fl' /\ (length fl <= length fl' + 3 * length ps)%nat) \/
    (exists n, r = 0 /\ Z.of_nat n < npages_upto base newsz /\
       undone root s T fl base n s' T' fl' /\ (n <= length fl <= 3 * n + 3)%nat)).
Proof.
  intros base perm HT Hk Hsz Hmax Hx HV HL. change MAXVA with (2 ^ 38) in Hmax.
  assert (Hb : oldsz <= base < oldsz + PGSIZE) by (apply PGROUNDUP_bounds; unfold PGSIZE; lia).
  assert (Hp : 0 <= perm < 1024) by by apply lor_low_range.
  unfold uvmalloc. wfalse; [|lia]. fold base.
  apply (uvmalloc_loop_wp root s T fl base perm); try done; try lia.
  - apply PGROUNDUP_aligned.
  - unfold npages_upto, PGSIZE in *. zdiv.
Qed.

Lemma uvmalloc_wp root oldsz newsz xperm L s T fl :
  let base := PGROUNDUP oldsz in
  let perm := Z.lor (Z.lor PTE_R PTE_U) xperm in
  pt_rep s root T -> kmem_rep s fl -> 0 <= oldsz <= newsz -> newsz <= MAXVA ->
  0 <= xperm < 1024 ->
  (forall va, base <= va < newsz -> has_bits (pte_at s T va) PTE_V = false) ->
  avail [kmem_lock; ref_lock] L ->
  wp (uvmalloc root oldsz newsz xperm) L s (fun r s' => exists T' fl',
    (exists ps, r = newsz /\ Z.of_nat (length ps) = npages_upto base newsz /\
       grown root s T fl base perm ps s' T' fl') \/
    (exists n, r = 0 /\ Z.of_nat n < npages_upto base newsz /\
       undone root s T fl base n s' T' fl')).
Proof.
  intros base perm HT Hk Hsz Hmax Hx HV HL. eapply wp_mono.
  { apply (uvmalloc_any_wp root oldsz newsz xperm L s T fl); try done; [lia|].
    intros k _ Hlt. fold base in Hlt |- *. split; [lia|]. apply HV. unfold PGSIZE in *. lia. }
  intros r s' (T' & fl' & [(ps & ? & ? & ? & _)|(n & ? & ? & ? & _)]); exists T', fl'; eauto.
Qed.

(** uvmunmap of a range of pages returns normally.  It clears the entry of
    every page of the range that was mapped, leaves every other entry of the
    address space alone and, when asked to free, drops exactly one reference per
    mapping: pages whose last mapping went away join the free list and no other
    data page changes. *)
Theorem uvmunmap_correct root va npages do_free L s T fl :
  pt_rep s root T -> kmem_rep s fl -> va mod PGSIZE = 0 -> 0 <= va -> 0 <= npages ->
  va + npages * PGSIZE <= MAXVA ->
  (do_free = true -> freeable s T (upages s T va (Z.to_nat npages))) ->
  avail [kmem_lock; ref_lock] L ->
  wp (uvmunmap root va npages do_free) L s (fun _ s' =>
    pt_rep s' root T /\
    (forall a, va <= a < va + npages * PGSIZE ->
       pte_at s' T a = if has_bits (pte_at s T a) PTE_V then 0 else pte_at s T a) /\
    (forall a, 0 <= a < MAXVA -> a < va \/ va + npages * PGSIZE <= a ->
       pte_at s' T a = pte_at s T a) /\
    exists fl', released (pt_set T) s fl
      (if do_free then upages s T va (Z.to_nat npages) else []) s' fl').
Proof.
  intros HT Hk Hal Hva Hn Hhi Hfr HL. eapply wp_mono; [by eapply uvmunmap_wp|].
  intros [] s' (fl' & HT' & Hr & Hc & Ho). split_and!; [done| | |by eauto].
  - intros a Ha. set (j := a / PGSIZE - va / PGSIZE).
    assert (Hj : a / PGSIZE = (va + PGSIZE * j) / PGSIZE) by (rewrite vpn_add by done; lia).
    rewrite !(pte_at_page _ T a (va + PGSIZE * j)) by done. apply Hc.
    unfold j, PGSIZE in *. rewrite Z2Nat.id by done. zdiv.
  - intros a Ha Hout. apply Ho; [split; [lia|apply MAXVA_VASPACE; lia]|].
    unfold vrange, PGSIZE in *. rewrite Z2Nat.id by done. zdiv.
Qed.

(** uvmalloc either grows the address space up to [newsz], every new page
    zeroed, with one reference, taken off the free list and mapped readable and
    user-accessible with [xperm]; or it returns 0 having given back every page it
    took: the entries of the range are invalid, all others as before, and the
    free pages are the former ones less the page-table pages that were added. *)
Theorem uvmalloc_correct root oldsz newsz xperm L s T fl :
  let base := PGROUNDUP oldsz in
  let perm := Z.lor (Z.lor PTE_R PTE_U) xperm in
  pt_rep s root T -> kmem_rep s fl -> 0 <= oldsz <= newsz -> newsz <= MAXVA ->
  0 <= xperm < 1024 ->
  (forall va, base <= va < newsz -> has_bits (pte_at s T va) PTE_V = false) ->
  avail [kmem_lock; ref_lock] L ->
  wp (uvmalloc root oldsz newsz xperm) L s (fun r s' => exists T' fl',
    (exists ps, r = newsz /\ Z.of_nat (length ps) = npages_upto base newsz /\
       grown root s T fl base perm ps s' T' fl') \/
    (exists n, r = 0 /\ Z.of_nat n < npages_upto base newsz /\
       undone root s T fl base n s' T' fl')).
Proof. exact (uvmalloc_wp root oldsz newsz xperm L s T fl). Qed.

(** Shrinking after a successful growth restores the address space: with the
    pages of the growth private, uvmdealloc returns the old size, the entries of
    the range are invalid again, all others are those before the growth and the
    free pages are the former ones less the page-table pages. *)
Theorem uvmalloc_uvmdealloc_roundtrip root oldsz newsz xperm L s T fl :
  let base := PGROUNDUP oldsz in
  pt_rep s root T -> kmem_rep s fl -> oldsz mod PGSIZE = 0 -> newsz mod PGSIZE = 0 ->
  0 <= oldsz < newsz -> newsz <= MAXVA -> 0 <= xperm < 1024 ->
  (forall va, base <= va < newsz -> has_bits (pte_at s T va) PTE_V = false) ->
  avail [kmem_lock; ref_lock] L ->
  wp (r ← uvmalloc root oldsz newsz xperm;
      if decide (r = 0) then mret 0 else uvmdealloc root newsz oldsz) L s (fun r s' =>
    exists T' fl' n, (r = 0 \/ r = oldsz) /\ undone root s T fl base n s' T' fl').
Proof.
  intros base HT Hk Hal Hal' Hsz Hmax Hx HV HL. pose proof Hmax as Hmax'.
  change MAXVA with (2 ^ 38) in Hmax'.
  assert (Hb : base = oldsz) by (apply PGROUNDUP_id; unfold PGSIZE in *; lia).
  wsteps. wcall uvmalloc_wp; try done; [lia|].
  intros r s1 (T1 & fl1 & [(ps & -> & Hlen & Hg)|(n & -> & _ & Hu)]).
  - wfalse; [|lia]. fold base in Hg, Hlen. rewrite Hb in Hg, Hlen |- *.
    assert (Hn : newsz = oldsz + PGSIZE * Z.of_nat (length ps))
      by (rewrite Hlen; unfold npages_upto, PGSIZE in *; zdiv).
    assert (Hp : 0 <= Z.lor (Z.lor PTE_R PTE_U) xperm < 1024) by by apply lor_low_range.
    pose proof (grown_undo_wp root s T fl oldsz _ HT Hk Hal (proj1 Hsz) Hp ps s1 T1 fl1 L Hg) as Hw.
    rewrite <- Hn in Hw. eapply wpl_call; [by apply Hw|].
    intros r s2 (-> & fl2 & Hu). split; [done|]. exists T1, fl2, (length ps). auto.
  - wtrue; [|done]. wsteps. split; [done|]. exists T1, fl1, n. auto.
Qed.
End Correctness.
