(* ===== verification/VmFree.v ===== *)
(** Freeing an address space, kernel/vm.c: [freewalk] gives back the pages of a
    page table whose leaf entries are all invalid, and [uvmfree] unmaps the user
    memory first. *)
From S2P Require Import Prelude Riscv PhysMem Kalloc PageTable Vm.
Local Open Scope Z_scope.

(** * The operations *)
Section Operations.
Context `{KernelImage}.

(** One round of the loop of freewalk; [rec] is the recursive call. *)
Definition freewalk_body (rec : Z -> M mem unit) (pagetable i : Z) : M mem (Z + unit) :=
  if decide (i < 512)
  then
    pte ← load64 (pagetable + 8 * i);
    (if andb (has_bits pte PTE_V)
             (negb (has_bits pte (Z.lor (Z.lor PTE_R PTE_W) PTE_X)))
     then
       rec (PTE2PA pte);;
       store64 (pagetable + 8 * i) 0
     else if has_bits pte PTE_V then panic "freewalk: leaf"
     else mret tt);;
    mret (inl (i + 1))
  else mret (inr tt).

(** The recursion of freewalk, [fuel] levels deep. *)
Fixpoint freewalk_level (fuel : nat) (pagetable : Z) : M mem unit :=
  match fuel with
  | O => fun _ _ => OutOfFuel
  | S fuel' =>
      loop 513 (freewalk_body (freewalk_level fuel') pagetable) 0;;
      kfree pagetable
  end.

(** A Sv39 table has three levels. *)
Definition freewalk (pagetable : Z) : M mem unit := freewalk_level 3 pagetable.

Definition uvmfree (pagetable sz : Z) : M mem unit :=
  (if decide (sz > 0)
   then uvmunmap pagetable 0 (PGROUNDUP sz / PGSIZE) true else mret tt);;
  freewalk pagetable.
End Operations.

(** * Freeing the page-table pages *)
Section Freewalk.
Context `{KernelImage}.
Context (s0 : mem) (root : Z) (T : ptree).
Implicit Types (s : mem) (fl ps π : list Z) (L : list lock).

(** The shape of the tree does not depend on the state any more. *)
Hypothesis HT : pt_rep s0 root T.

(** The entry [v] at index [i] of the page at path [π] is the one the tree asks
    for: a link to the child, or an invalid entry. *)
Definition entry_ok π (i v : Z) : Prop :=
  match T !! (π ++ [i]) with
  | Some q => v = Z.lor (PA2PTE q) PTE_V
  | None => has_bits v PTE_V = false
  end.

(** The pages at and below path [π] are intact and map nothing. *)
Definition intact s π : Prop :=
  forall π' p, T !! (π ++ π') = Some p ->
    ref s p = 1 /\ forall i, 0 <= i < 512 -> entry_ok (π ++ π') i (word (ram s) p i).

(** [ps] are the pages at and below path [π]. *)
Definition subtree π ps : Prop := forall p, p ∈ ps <-> exists π', T !! (π ++ π') = Some p.

(** [ps] are the pages below the first [n] entries of path [π]. *)
Definition subtrees π (n : Z) ps : Prop :=
  forall p, p ∈ ps <-> exists i π', 0 <= i < n /\ T !! (π ++ i :: π') = Some p.

Lemma intact_same s s' π :
  intact s π ->
  (forall π' p, T !! (π ++ π') = Some p -> same_page (ram s) (ram s') p /\ ref s' p = ref s p) ->
  intact s' π.
Proof using HT.
  intros Hi Hs π' p Hp. destruct (Hi _ _ Hp) as [Hr He]. destruct (Hs _ _ Hp) as [Hm ->].
  split; [done|]. intros i Hir. rewrite <- (word_same_page (ram s)) by done. by apply He.
Qed.

Lemma intact_child s π i : intact s π -> intact s (π ++ [i]).
Proof using HT.
  intros Hi π' p. rewrite <- app_assoc. apply Hi.
Qed.

(** Pages of different children are different. *)
Lemma subtrees_other π n ps i π' q :
  subtrees π n ps -> n <= i -> T !! (π ++ i :: π') = Some q -> q ∉ ps.
Proof using HT.
  intros Hps Hn Hq (j & π'' & Hj & Hq')%Hps.
  assert (E : π ++ i :: π' = π ++ j :: π'') by by eapply (pt_inj _ _ _ HT).
  apply app_inj_1 in E as [_ [= -> _]]; [lia|done].
Qed.

Lemma subtrees_self π n ps p : subtrees π n ps -> T !! π = Some p -> p ∉ ps.
Proof using HT.
  intros Hps Hp (j & π'' & Hj & Hq')%Hps.
  assert (E : π = π ++ j :: π'') by by eapply (pt_inj _ _ _ HT).
  apply (f_equal length) in E. rewrite length_app in E. simpl in E. lia.
Qed.

Lemma subtrees_S π n ps qs :
  0 <= n -> subtrees π n ps -> subtree (π ++ [n]) qs -> subtrees π (n + 1) (ps ++ qs).
Proof using HT.
  intros Hn Hps Hqs p. rewrite elem_of_app, (Hps p), (Hqs p). split.
  - intros [(i & π' & Hi & Hp)|(π' & Hp)]; [exists i, π'; split; [lia|done]|].
    rewrite <- app_assoc in Hp. exists n, π'. split; [lia|done].
  - intros (i & π' & Hi & Hp). destruct (decide (i = n)) as [->|].
    + right. exists π'. by rewrite <- app_assoc.
    + left. exists i, π'. split; [lia|done].
Qed.

Lemma subtree_none π : T !! π = None -> subtree π [].
Proof using HT.
  intros Hn p. rewrite elem_of_nil. split; [done|]. intros [π' Hp].
  apply (pt_prefix _ _ _ _ _ _ HT) in Hp as [??]. congruence.
Qed.

Lemma subtree_all π p ps : T !! π = Some p -> subtrees π 512 ps -> subtree π (ps ++ [p]).
Proof using HT.
  intros Hp Hps q. rewrite elem_of_app, (Hps q), list_elem_of_singleton. split.
  - intros [(i & π' & _ & Hq)| ->]; [by exists (i :: π')|]. exists []. by rewrite app_nil_r.
  - intros [[|i π'] Hq]; [rewrite app_nil_r in Hq; right; congruence|left].
    exists i, π'. split; [|done]. change (i :: π') with ([i] ++ π') in Hq.
    rewrite app_assoc in Hq. apply (pt_prefix _ _ _ _ _ _ HT) in Hq as [q' Hq'].
    by apply (pt_parent _ _ _ HT) in Hq' as [_ ?].
Qed.

(** The state of the loop over the entries of the page [p] at path [π], before
    index [n]: the pages below the earlier entries were released. *)
Record walking s fl π (p n : Z) ps s1 fl1 : Prop := {
  wk_sub : subtrees π n ps;
  wk_rel : released ({[p]} ∪ list_to_set ps) s fl ps s1 fl1;
  wk_words : forall j, n <= j < 512 -> word (ram s1) p j = word (ram s) p j
}.

Lemma walking_child s fl π p n ps s1 fl1 π' q :
  intact s π -> T !! π = Some p -> walking s fl π p n ps s1 fl1 ->
  T !! (π ++ n :: π') = Some q ->
  same_page (ram s) (ram s1) q /\ ref s1 q = ref s q.
Proof using HT.
  intros Hi Hp [Hsub Hrel _] Hq.
  assert (Hq' : q mod PGSIZE = 0) by (by apply (pt_page _ _ _ HT _ _ Hq)).
  assert (Hnin : q ∉ ps) by (by eapply subtrees_other; [done|done|done]).
  assert (q <> p).
  { intros ->. assert (E : π = π ++ n :: π') by by eapply (pt_inj _ _ _ HT).
    apply (f_equal length) in E. rewrite length_app in E. simpl in E. lia. }
  split; [apply (rl_same _ _ _ _ _ _ Hrel); [done|set_solver|by left]|].
  rewrite (rl_ref _ _ _ _ _ _ Hrel) by done. apply cnt_notin in Hnin. lia.
Qed.

(** A store to a page in use drops no reference. *)
Lemma store_released s fl p i v :
  kmem_rep s fl -> page_ok p -> ref s p <> 0 -> 0 <= i < 512 ->
  released {[p]} s fl [] (set_ram (fun m => store_le m (p + 8 * i) 8 v) s) fl.
Proof using HT.
  intros Hk Hp Hr Hi. pose proof (agree_store s p i v (proj1 Hp) Hi) as Ha.
  split; [|simpl; intros; change (ref s p0 = ref s p0 - 0); lia|by intros ? ?%elem_of_nil| |].
  - eapply kmem_rep_agree; [exact Ha|done| |done].
    intros q Hq ->%elem_of_singleton. by apply Hr, (rep_refs _ _ Hk).
  - exists []. split; [done|]. set_solver.
  - intros q Hq Hn _. by apply Ha.
Qed.

(** The entry [n] was a link to [q], whose subtree [qs] is now released. *)
Lemma walking_link s fl π p n ps s1 fl1 qs s2 fl2 :
  T !! π = Some p -> ref s p = 1 -> 0 <= n < 512 ->
  walking s fl π p n ps s1 fl1 -> subtree (π ++ [n]) qs ->
  released (list_to_set qs) s1 fl1 qs s2 fl2 ->
  walking s fl π p (n + 1) (ps ++ qs)
    (set_ram (fun m => store_le m (p + 8 * n) 8 0) s2) fl2.
Proof using HT.
  intros Hp Hr Hn [Hsub Hrel Hw] Hqs Hrel2.
  pose proof (pt_page _ _ _ HT _ _ Hp) as Hpok.
  pose proof (subtrees_S _ _ _ _ (proj1 Hn) Hsub Hqs) as Hsub2.
  assert (Hnin : p ∉ ps ++ qs) by by eapply subtrees_self.
  assert (Hrel3 : released ({[p]} ∪ list_to_set (ps ++ qs)) s fl (ps ++ qs) s2 fl2).
  { eapply released_trans; eapply released_mono; [exact Hrel|set_solver|exact Hrel2|set_solver]. }
  split; [done| |].
  - rewrite <- (app_nil_r (ps ++ qs)) at 2. eapply released_trans; [done|].
    eapply released_mono; [apply store_released; [apply Hrel3|done| |done]|set_solver].
    rewrite (rl_ref _ _ _ _ _ _ Hrel3) by apply Hpok. apply cnt_notin in Hnin. lia.
  - intros j Hj. simpl. rewrite word_store_ne by lia. rewrite <- Hw by lia. symmetry.
    apply word_same_page; [|lia].
    apply (rl_same _ _ _ _ _ _ Hrel2); [apply Hpok|set_solver|left; set_solver].
Qed.

Lemma freewalk_body_wp rec s fl π p n ps s1 fl1 L :
  T !! π = Some p -> (length π <= 2)%nat -> intact s π -> 0 <= n < 512 ->
  walking s fl π p n ps s1 fl1 -> avail [kmem_lock; ref_lock] L ->
  (forall q, T !! (π ++ [n]) = Some q -> intact s1 (π ++ [n]) -> kmem_rep s1 fl1 ->
     wp (rec q) L s1 (fun _ s2 => exists qs fl2,
       subtree (π ++ [n]) qs /\ released (list_to_set qs) s1 fl1 qs s2 fl2)) ->
  wp (freewalk_body rec p n) L s1 (fun r s2 => r = inl (n + 1) /\
    exists ps2 fl2, walking s fl π p (n + 1) ps2 s2 fl2).
Proof using HT.
  intros Hp Hlen Hi Hn Hwk HL Hrec.
  pose proof (pt_page _ _ _ HT _ _ Hp) as Hpok.
  destruct (Hi [] p) as [Hr He]; [by rewrite app_nil_r|]. rewrite app_nil_r in He.
  specialize (He n Hn). unfold freewalk_body. wstep. wtrue; [|lia]. wsteps.
  apply wpl_load64; [by apply page_ok_ram|]. fold (word (ram s1) p n).
  rewrite (wk_words _ _ _ _ _ _ _ _ Hwk) by lia. unfold entry_ok in He.
  destruct (T !! (π ++ [n])) as [q|] eqn:Hq.
  - rewrite He. assert (Hqp : pte_page q) by by eapply page_ok_pte, (pt_page _ _ _ HT).
    rewrite !has_bits_lor, PTE2PA_lor by done. simpl. wsteps.
    wcall (Hrec q); [done| |apply (wk_rel _ _ _ _ _ _ _ _ Hwk)|].
    { apply (intact_same s); [by apply intact_child|].
      intros π' q'. rewrite <- app_assoc. simpl. intros Hq'. by eapply walking_child. }
    intros [] s2 (qs & fl2 & Hqs & Hrel). wsteps.
    apply wpl_store64; [by apply page_ok_ram|]. wsteps. split_and!; [done|done|].
    exists (ps ++ qs), fl2. by eapply walking_link.
  - rewrite He. simpl. wsteps. split_and!; [done|done|].
    exists (ps ++ []), fl1. pose proof (subtree_none _ Hq) as Hnone.
    destruct Hwk as [Hsub Hrel Hw]. split; [by apply subtrees_S; [lia|..]| |].
    + by rewrite app_nil_r.
    + intros j Hj. apply Hw. lia.
Qed.

Lemma freewalk_level_wp fuel π p L s fl :
  (length π + fuel = 3)%nat -> T !! π = Some p -> intact s π -> kmem_rep s fl ->
  avail [kmem_lock; ref_lock] L ->
  wp (freewalk_level fuel p) L s (fun _ s' => exists ps fl',
    subtree π ps /\ released (list_to_set ps) s fl ps s' fl').
Proof using HT.
  revert π p s fl. induction fuel as [|fuel IH]; intros π p s fl Hlen Hp Hi Hk HL.
  { pose proof (pt_len _ _ _ HT _ _ Hp). lia. }
  pose proof (pt_page _ _ _ HT _ _ Hp) as Hpok.
  cbn [freewalk_level]. wstep. wstep.
  eapply (wpl_call _ _ _ (fun _ s1 => exists ps fl1, walking s fl π p 512 ps s1 fl1)).
  { apply (wpl_loop (fun n s1 => 0 <= n <= 512 /\ exists ps fl1, walking s fl π p n ps s1 fl1)
      (fun n => Z.to_nat (512 - n))); [| |simpl; lia].
    - intros n s1 (Hn & ps & fl1 & Hwk). destruct (decide (n < 512)).
      + eapply wp_mono.
        { eapply (freewalk_body_wp _ s fl π p n ps s1 fl1); try done; try lia.
          intros q Hq Hi1 Hk1. apply IH; try done. rewrite length_app. simpl. lia. }
        intros r s2 (-> & ps2 & fl2 & Hwk2). split; [split; [lia|eauto]|lia].
      + unfold freewalk_body. wstep. wfalse; [|done]. wsteps. split; [done|].
        replace n with 512 in Hwk by lia. eauto.
    - split; [lia|]. exists [], fl. split; [|by apply released_refl|done].
      intros q. rewrite elem_of_nil. split; [done|]. intros (i & ? & ? & _). lia. }
  intros [] s1 (ps & fl1 & [Hsub Hrel _]).
  assert (Hnin : p ∉ ps) by by eapply subtrees_self.
  wcall (kfree_wp p L s1 fl1); [apply Hrel|done| |done|].
  - rewrite (rl_ref _ _ _ _ _ _ Hrel) by apply Hpok. apply cnt_notin in Hnin.
    destruct (Hi [] p) as [-> _]; [by rewrite app_nil_r|]. lia.
  - intros [] s2 [fl2 Hrel2]. split; [done|]. exists (ps ++ [p]), fl2.
    split; [by apply subtree_all|].
    eapply released_trans; eapply released_mono; [exact Hrel|set_solver|exact Hrel2|set_solver].
Qed.
End Freewalk.

(** * Freeing a whole address space *)
Section Uvmfree.
Context `{KernelImage}.
Implicit Types (s : mem) (T : ptree) (fl ps : list Z) (L : list lock).

(** No leaf entry of the table is valid. *)
Definition no_leaves s T : Prop :=
  forall va, 0 <= va < VASPACE -> has_bits (pte_at s T va) PTE_V = false.

Lemma pt_indices s root T π p i :
  pt_rep s root T -> T !! π = Some p -> i ∈ π -> 0 <= i < 512.
Proof.
  intros HT. revert p. induction π as [|j π IH] using rev_ind; intros p Hp; [set_solver|].
  apply (pt_parent _ _ _ HT) in Hp as [[q Hq] Hj].
  intros [Hin| ->%list_elem_of_singleton]%elem_of_app; [by eapply IH|done].
Qed.

Lemma no_leaves_intact s root T : pt_rep s root T -> no_leaves s T -> intact T s [].
Proof.
  intros HT Hno π p Hp. simpl in *. split; [by eapply (pt_ref _ _ _ HT)|].
  intros k Hk. destruct (decide (length π < 2)%nat) as [Hl|Hl].
  { by apply (pt_entry _ _ _ HT). }
  unfold entry_ok. destruct (T !! (π ++ [k])) as [q|] eqn:Hq.
  { apply (pt_len _ _ _ HT) in Hq. rewrite length_app in Hq. simpl in Hq. lia. }
  pose proof (pt_len _ _ _ HT _ _ Hp) as Hl2.
  destruct π as [|i [|j [|? ?]]]; simpl in Hl, Hl2; try lia.
  assert (0 <= i < 512) by (eapply pt_indices; [done|done|set_solver]).
  assert (0 <= j < 512) by (eapply pt_indices; [done|done|set_solver]).
  destruct (PX_compose i j k) as (Hva & E2 & E1 & E0); [done..|].
  specialize (Hno _ Hva). unfold pte_at, vpath in Hno.
  by rewrite E2, E1, E0, Hp in Hno.
Qed.

Lemma freewalk_wp root L s T fl :
  pt_rep s root T -> kmem_rep s fl -> no_leaves s T -> avail [kmem_lock; ref_lock] L ->
  wp (freewalk root) L s (fun _ s' => exists ps fl',
    (forall p, p ∈ ps <-> p ∈ pt_set T) /\ released (pt_set T) s fl ps s' fl').
Proof.
  intros HT Hk Hno HL. eapply wp_mono.
  { eapply (freewalk_level_wp s root T HT 3 []); [done|apply HT| |done|done].
    by eapply no_leaves_intact. }
  intros [] s' (ps & fl' & Hps & Hrel). exists ps, fl'.
  assert (Hin : forall p, p ∈ ps <-> p ∈ pt_set T).
  { intros p. rewrite (Hps p), elem_of_pt_set. done. }
  split; [done|]. eapply released_mono; [done|]. intros p. rewrite elem_of_list_to_set.
  apply Hin.
Qed.

(** The number of pages of an address space of [sz] bytes. *)
Definition upages_of (sz : Z) : nat := Z.to_nat (PGROUNDUP sz / PGSIZE).

Lemma uvmfree_wp root sz L s T fl :
  pt_rep s root T -> kmem_rep s fl -> 0 <= sz <= MAXVA ->
  freeable s T (upages s T 0 (upages_of sz)) ->
  (forall va, PGROUNDUP sz <= va < VASPACE -> has_bits (pte_at s T va) PTE_V = false) ->
  avail [kmem_lock; ref_lock] L ->
  wp (uvmfree root sz) L s (fun _ s' => exists ps fl',
    (forall p, p ∈ ps <-> p ∈ pt_set T) /\
    released (pt_set T) s fl (upages s T 0 (upages_of sz) ++ ps) s' fl').
Proof.
  intros HT Hk Hsz Hfr Hno HL. change MAXVA with (2 ^ 38) in Hsz. unfold upages_of in *.
  assert (Hup : sz <= PGROUNDUP sz < sz + PGSIZE) by (apply PGROUNDUP_bounds; unfold PGSIZE; lia).
  pose proof (PGROUNDUP_aligned sz) as Hal. set (e := PGROUNDUP sz) in *.
  unfold uvmfree. wsteps. fold e.
  eapply (wpl_call _ _ _ (fun _ s1 => exists fl1,
    unmaps root s T fl 0 (Z.to_nat (e / PGSIZE)) true s1 fl1)).
  { destruct (decide (sz > 0)).
    - apply uvmunmap_wp; try done; [unfold PGSIZE in *; zdiv|].
      change MAXVA with (2 ^ 38). unfold PGSIZE in *. zdiv.
    - assert (e / PGSIZE = 0) as -> by (unfold PGSIZE in *; zdiv).
      wsteps. split; [done|]. exists fl. by apply unmaps_refl. }
  intros [] s1 (fl1 & HT1 & Hr1 & Hc1 & Ho1).
  wcall (freewalk_wp root L s1 T fl1); [done|apply Hr1| |done|].
  - intros va Hva. set (j := va / PGSIZE).
    destruct (decide (j < e / PGSIZE)) as [Hj|Hj].
    + rewrite (pte_at_page s1 T va (0 + PGSIZE * j)) by (rewrite vpn_add; done).
      rewrite Hc1 by (unfold j, PGSIZE in *; zdiv). unfold unmapped.
      by destruct (has_bits (pte_at s T _) PTE_V) eqn:E.
    + rewrite Ho1; [apply Hno; unfold j, PGSIZE in *; zdiv|done|].
      unfold vrange. change (0 / PGSIZE) with 0. unfold j in *. unfold PGSIZE in *. zdiv.
  - intros [] s2 (ps & fl2 & Hps & Hr2). split; [done|]. exists ps, fl2. split; [done|].
    by eapply released_trans.
Qed.

Lemma uvmfree_pages_wp root sz L s T fl :
  pt_rep s root T -> kmem_rep s fl -> 0 <= sz <= MAXVA ->
  freeable s T (upages s T 0 (upages_of sz)) ->
  (forall va, PGROUNDUP sz <= va < VASPACE -> has_bits (pte_at s T va) PTE_V = false) ->
  avail [kmem_lock; ref_lock] L ->
  let us := upages s T 0 (upages_of sz) in
  wp (uvmfree root sz) L s (fun _ s' => exists fl', kmem_rep s' fl' /\
    (forall p, p ∈ fl' <-> p ∈ fl \/ p ∈ pt_set T \/ p ∈ us /\ cnt us p = ref s p) /\
    (forall p, p ∈ us -> ref s' p = ref s p - cnt us p) /\
    agree_off (pt_set T ∪ list_to_set us) s s').
Proof.
  intros HT Hk Hsz Hfr Hno HL us. eapply wp_mono; [by eapply uvmfree_wp|]. fold us.
  intros [] s' (ps & fl' & Hps & Hrel). exists fl'.
  assert (Hus : forall p, p ∈ us -> p mod PGSIZE = 0 /\ cnt ps p = 0).
  { intros p Hp. destruct (Hfr p Hp) as ([? _] & Hn & _). split; [done|].
    apply cnt_notin. by rewrite Hps. }
  destruct (rl_freed _ _ _ _ _ _ Hrel) as (freed & Hfl & Hf). split_and!.
  - apply Hrel.
  - intros p. rewrite Hfl, elem_of_app, Hf, elem_of_app, Hps. split.
    + intros [[[Hp|Hp] H0]|Hp]; [|by auto..]. right; right. split; [done|].
      rewrite (rl_ref _ _ _ _ _ _ Hrel), cnt_app in H0 by (by apply Hus).
      destruct (Hus p Hp). lia.
    + intros [Hp|[Hp|[Hp Hc]]]; [by right| |]; left; (split; [by auto|]).
      * pose proof Hp as [π Hπ]%elem_of_pt_set.
        rewrite (rl_ref _ _ _ _ _ _ Hrel) by (by apply (pt_page _ _ _ HT _ _ Hπ)).
        destruct (rl_nonneg _ _ _ _ _ _ Hrel p) as [Hok Hge]; [rewrite elem_of_app, Hps; auto|].
        rewrite (rl_ref _ _ _ _ _ _ Hrel) in Hge by apply Hok.
        rewrite (pt_ref _ _ _ HT _ _ Hπ) in *.
        assert (Hin : p ∈ us ++ ps) by (rewrite elem_of_app, Hps; auto).
        apply cnt_elem_of in Hin. lia.
      * destruct (Hus p Hp). rewrite (rl_ref _ _ _ _ _ _ Hrel), cnt_app by done. lia.
  - intros p Hp. destruct (Hus p Hp). rewrite (rl_ref _ _ _ _ _ _ Hrel), cnt_app by done. lia.
  - eapply agree_off_mono; [by eapply released_agree|]. intros p.
    rewrite !elem_of_union, !elem_of_list_to_set, elem_of_app, Hps. tauto.
Qed.

(** C16. Freeing an address space whose user memory lies below [sz] returns
    normally (freewalk meets no leaf), gives back every page-table page, drops one
    reference for every mapping of a user page, frees exactly the user pages whose
    last reference that was, and leaves every other page and count unchanged. *)
Theorem uvmfree_correct root sz L s T fl :
  pt_rep s root T -> kmem_rep s fl -> 0 <= sz <= MAXVA ->
  freeable s T (upages s T 0 (upages_of sz)) ->
  (forall va, PGROUNDUP sz <= va < VASPACE -> has_bits (pte_at s T va) PTE_V = false) ->
  avail [kmem_lock; ref_lock] L ->
  let us := upages s T 0 (upages_of sz) in
  wp (uvmfree root sz) L s (fun _ s' => exists fl', kmem_rep s' fl' /\
    (forall p, p ∈ fl' <-> p ∈ fl \/ p ∈ pt_set T \/ p ∈ us /\ cnt us p = ref s p) /\
    (forall p, p ∈ us -> ref s' p = ref s p - cnt us p) /\
    agree_off (pt_set T ∪ list_to_set us) s s').
Proof. exact (uvmfree_pages_wp root sz L s T fl). Qed.
End Uvmfree.
