(* ===== verification/Cow.v ===== *)
(** Copy-on-write, kernel/vm.c: [uvmcow] gives a process a private, writable copy
    of a page it shares since fork.  The same steps are inlined in copyout. *)
From S2P Require Import Prelude Riscv PhysMem Kalloc PageTable Vm.
Local Open Scope Z_scope.

(** * The operations *)
Section Operations.
Context `{KernelImage}.

(** The flags of the private copy: writable, no longer copy-on-write.  [flags]
    is a C [uint]. *)
Definition cow_flags (flags : Z) : Z := u32 (Z.lor (Z.land flags (Z.lnot PTE_C)) PTE_W).

Definition uvmcow (pagetable va : Z) : M mem Z :=
  let va := PGROUNDDOWN va in
  if decide (va >= MAXVA) then mret (-1)
  else
    pte ← walk pagetable va false;
    if decide (pte = 0) then mret (-1)
    else
      v ← load64 pte;
      if negb (has_bits v PTE_V) then mret (-1)
      else if negb (has_bits v PTE_U) then mret (-1)
      else if has_bits v PTE_W then mret 0
      else if negb (has_bits v PTE_C) then mret (-1)
      else
        let pa := PTE2PA v in
        mem ← kalloc;
        if decide (mem = 0) then mret (-1)
        else
          memmove mem pa PGSIZE;;
          store64 pte (Z.lor (PA2PTE mem) (cow_flags (PTE_FLAGS v)));;
          kfree pa;;
          mret 0.
End Operations.

(** * Flags *)

Lemma land_lnot_low (f m : Z) : 0 <= f < 1024 -> 0 <= Z.land f (Z.lnot m) < 1024.
Proof.
  intros Hf. assert (E : f = Z.land f (Z.ones 10)).
  { rewrite Z.land_ones by lia. change (2 ^ 10) with 1024. by rewrite Z.mod_small. }
  rewrite E, <- Z.land_assoc, (Z.land_comm (Z.ones 10)), Z.land_assoc, Z.land_ones by lia.
  apply Z.mod_pos_bound. lia.
Qed.

Lemma cow_flags_eq (f : Z) :
  0 <= f < 1024 -> cow_flags f = Z.lor (Z.land f (Z.lnot PTE_C)) PTE_W.
Proof.
  intros Hf. apply u32_small.
  assert (Hw : 0 <= PTE_W < 1024) by done.
  pose proof (lor_low_range _ PTE_W (land_lnot_low f PTE_C Hf) Hw). lia.
Qed.

Lemma cow_flags_range (f : Z) : 0 <= f < 1024 -> 0 <= cow_flags f < 1024.
Proof. intros. rewrite cow_flags_eq by done. apply lor_low_range; [by apply land_lnot_low|done]. Qed.

Lemma cow_flags_W (f : Z) : 0 <= f < 1024 -> has_bits (cow_flags f) PTE_W = true.
Proof.
  intros. rewrite cow_flags_eq by done. unfold PTE_W at 2.
  rewrite has_bits_testbit, Z.lor_spec by done. by rewrite orb_true_r.
Qed.

Lemma cow_flags_C (f : Z) : 0 <= f < 1024 -> has_bits (cow_flags f) PTE_C = false.
Proof.
  intros. rewrite cow_flags_eq by done. unfold PTE_C at 2.
  rewrite has_bits_testbit, Z.lor_spec, Z.land_spec by done. by rewrite andb_false_r.
Qed.

(** The other permissions stay. *)
Lemma cow_flags_other (f k : Z) :
  0 <= f < 1024 -> 0 <= k -> k <> 2 -> k <> 5 ->
  has_bits (cow_flags f) (Z.shiftl 1 k) = has_bits f (Z.shiftl 1 k).
Proof.
  intros Hf Hk H2 H5. rewrite cow_flags_eq, !has_bits_testbit, Z.lor_spec, Z.land_spec by done.
  rewrite Z.lnot_spec by done. unfold PTE_C, PTE_W.
  rewrite !Z.shiftl_1_l, !Z.pow2_bits_false by lia. by rewrite andb_true_r, orb_false_r.
Qed.

(** * Breaking a share *)
Section Break.
Context `{KernelImage}.
Implicit Types (s : mem) (T : ptree) (fl : list Z) (L : list lock).

(** The page that [va] maps in [s], shared copy-on-write, was replaced by a
    private writable copy [p], the first page of the free list [p :: fl]. *)
Record cow_copy root s T fl (va p : Z) s' fl' : Prop := {
  cc_rep : pt_rep s' root T;
  cc_kmem : kmem_rep s' fl';
  cc_free : fl' = if decide (ref s (PTE2PA (pte_at s T va)) = 1)
                  then PTE2PA (pte_at s T va) :: fl else fl;
  cc_pte : pte_at s' T va = Z.lor (PA2PTE p) (cow_flags (PTE_FLAGS (pte_at s T va)));
  cc_off : ptes_same_off (fun n => n = va / PGSIZE) s T s' T;
  cc_page : page_ok p;
  cc_out : p ∉ pt_set T;
  cc_ref : ref s' p = 1;
  cc_bytes : forall i, 0 <= i < PGSIZE ->
    byte (ram s') (p + i) = byte (ram s) (PTE2PA (pte_at s T va) + i);
  cc_old : ref s' (PTE2PA (pte_at s T va)) = ref s (PTE2PA (pte_at s T va)) - 1;
  cc_same : ref s (PTE2PA (pte_at s T va)) <> 1 ->
    same_page (ram s) (ram s') (PTE2PA (pte_at s T va));
  cc_agree : agree_off (pt_set T ∪ {[p; PTE2PA (pte_at s T va)]}) s s'
}.

(** Putting the pieces of the replacement together: the copy [p] is made ([s2]),
    the entry redirected, and one reference to the old page dropped ([s4]). *)
Lemma cow_assemble root s T fl va q p s2 s4 :
  let v := pte_at s T va in
  let pa := PTE2PA v in
  let s3 := leaf_state s2 q va (Z.lor (PA2PTE p) (cow_flags (PTE_FLAGS v))) in
  pt_rep s root T -> T !! vpath va = Some q -> 0 <= va < VASPACE ->
  page_ok pa -> pa ∉ pt_set T -> pa <> p -> fresh root s T fl p s2 ->
  (forall i, 0 <= i < PGSIZE -> byte (ram s2) (p + i) = byte (ram s) (pa + i)) ->
  ref s4 pa = ref s3 pa - 1 -> agree_off {[pa]} s3 s4 ->
  (if decide (ref s3 pa = 1) then kmem_rep s4 (pa :: fl)
   else kmem_rep s4 fl /\ ram s4 = ram s3) ->
  exists fl', cow_copy root s T fl va p s4 fl'.
Proof.
  intros v pa s3 HT Hq Hva Hpa Hpt Hne Hf Hb Hr4 Ha4 Hk4.
  pose proof (fr_page _ _ _ _ _ _ Hf) as Hp. pose proof (fr_out _ _ _ _ _ _ Hf) as Hout.
  pose proof (fr_rep _ _ _ _ _ _ Hf) as HT2. pose proof (fr_agree _ _ _ _ _ _ Hf) as Ha2.
  assert (Hv : 0 <= Z.lor (PA2PTE p) (cow_flags (PTE_FLAGS v)) < 2 ^ 64)
    by (apply PTE_lor_range; [by apply page_ok_pte|apply cow_flags_range, PTE_FLAGS_range]).
  pose proof (leaf_store_grow root s2 T fl va q (Z.lor (PA2PTE p) (cow_flags (PTE_FLAGS v)))
    HT2 (fr_kmem _ _ _ _ _ _ Hf) Hq) as [HT3 _ _ _ Ha3]. fold s3 in HT3, Ha3.
  assert (Hpa3 : same_page (ram s) (ram s3) pa /\ ref s3 pa = ref s pa).
  { eapply (agree_off_trans (pt_set T ∪ {[p]})); [eapply agree_off_mono; [exact Ha2|set_solver]
      |eapply agree_off_mono; [exact Ha3|set_solver]|apply Hpa|set_solver]. }
  assert (Hp4 : same_page (ram s2) (ram s4) p /\ ref s4 p = ref s2 p).
  { eapply (agree_off_trans (pt_set T ∪ {[pa]})); [eapply agree_off_mono; [exact Ha3|set_solver]
      |eapply agree_off_mono; [exact Ha4|set_solver]|apply Hp|set_solver]. }
  assert (Hd : pt_set T ## {[pa]}) by set_solver.
  destruct Hpa3 as [Hs3 Hr3]. destruct Hp4 as [Hs4 Hrp4]. rewrite Hr3 in Hk4, Hr4.
  exists (if decide (ref s pa = 1) then pa :: fl else fl). split; try done.
  - by eapply pt_rep_agree.
  - case_decide; [done|apply Hk4].
  - rewrite (pte_at_agree {[pa]} s3 s4 root) by done. by apply leaf_store_at.
  - intros va' Hva' Hn. rewrite (pte_at_agree {[pa]} s3 s4 root) by done.
    rewrite <- (fr_ptes _ _ _ _ _ _ Hf). by eapply leaf_store_off.
  - rewrite Hrp4. apply Hf.
  - intros i Hi. rewrite <- (Hs4 (p + i)) by lia. by apply Hb.
  - intros Hn. rewrite decide_False in Hk4 by done. destruct Hk4 as [_ ->]. done.
  - eapply agree_off_trans; [eapply agree_off_mono; [exact Ha2|set_solver]|].
    eapply agree_off_trans; eapply agree_off_mono; [exact Ha3|set_solver|exact Ha4|set_solver].
Qed.

Lemma cow_break_wp {A} root va q L s T fl (none : M mem A) (k : Z -> M mem A) Q :
  let v := pte_at s T va in
  let pa := PTE2PA v in
  pt_rep s root T -> kmem_rep s fl -> T !! vpath va = Some q -> 0 <= va < VASPACE ->
  page_ok pa -> pa ∉ pt_set T -> 1 <= ref s pa -> avail [kmem_lock; ref_lock] L ->
  (fl = [] -> wpl none L s Q) ->
  (forall p fl1 s' fl', fl = p :: fl1 -> cow_copy root s T fl1 va p s' fl' -> p <> 0 ->
     wpl (k p) L s' Q) ->
  wpl (p ← kalloc;
       if decide (p = 0) then none
       else
         memmove p pa PGSIZE;;
         store64 (q + 8 * PX 0 va) (Z.lor (PA2PTE p) (cow_flags (PTE_FLAGS v)));;
         kfree pa;;
         k p) L s Q.
Proof.
  intros v pa HT Hk Hq Hva Hpa Hpt Hr HL Hnone Hsome. wsteps.
  wcall kalloc_wp; [done|done|]. intros r s1 Hal.
  destruct fl as [|p fl1]; [destruct Hal as [-> ->]; wtrue; [by apply Hnone|done]|].
  destruct Hal as [-> Hal]. pose proof (alloc_page _ _ _ _ Hal) as Hp.
  pose proof (page_ok_pos _ Hp). assert (p <> 0) by (unfold KERNBASE in *; lia).
  wfalse; [|done]. wsteps. apply wpl_memmove; [by apply page_ok_whole..|].
  set (s2 := set_ram _ s1). wsteps.
  assert (Hf : fresh root s T fl1 p s2).
  { eapply fresh_fill; try done. intros x Hx Hn. split; [|done].
    apply same_page_memmove; [apply Hp|done|set_solver]. }
  assert (Hne : pa <> p) by (intros E; pose proof (fr_ref0 _ _ _ _ _ _ Hf); rewrite E in Hr; lia).
  eapply wpl_store_leaf; [apply (fr_rep _ _ _ _ _ _ Hf)|done|].
  set (s3 := leaf_state _ _ _ _). wsteps.
  assert (Hr3 : ref s3 pa = ref s pa) by (apply (fr_agree _ _ _ _ _ _ Hf); [apply Hpa|set_solver]).
  assert (Hk3 : kmem_rep s3 fl1).
  { eapply (leaf_store_grow root s2 T fl1 va q); [apply Hf|apply Hf|done]. }
  wcall (kfree_case_wp pa L s3 fl1); [done|done|lia|done|].
  intros [] s4 (Hr4 & Ha4 & Hk4).
  destruct (cow_assemble root s T fl1 va q p s2 s4) as [fl' Hcc]; try done.
  { intros i Hi. simpl. rewrite byte_memmove, decide_True by (rewrite Z2Nat.id by done; lia).
    replace (pa + (p + i - p)) with (pa + i) by lia. symmetry.
    apply (alloc_agree _ _ _ _ Hal pa); [apply Hpa|set_solver|lia]. }
  by eapply Hsome.
Qed.
End Break.

(** * uvmcow *)
Section Uvmcow.
Context `{KernelImage}.
Implicit Types (s : mem) (T : ptree) (fl : list Z) (L : list lock).

(** The entry [v] is one that a write fault may break: valid, user, read-only and
    copy-on-write. *)
Definition breakable (v : Z) : bool :=
  has_bits v PTE_V && has_bits v PTE_U && negb (has_bits v PTE_W) && has_bits v PTE_C.

(** The page behind an entry is a data page that somebody references. *)
Definition data_page s T (p : Z) : Prop := page_ok p /\ (p ∉ pt_set T) /\ 1 <= ref s p.

Lemma uvmcow_wp root va L s T fl :
  let a := PGROUNDDOWN va in
  let v := pte_at s T a in
  pt_rep s root T -> kmem_rep s fl -> 0 <= va ->
  (a < MAXVA -> breakable v = true -> data_page s T (PTE2PA v)) ->
  avail [kmem_lock; ref_lock] L ->
  wp (uvmcow root va) L s (fun r s' =>
    if decide (a < MAXVA /\ breakable v = true)
    then match fl with
         | [] => r = -1 /\ s' = s
         | p :: fl1 => r = 0 /\ exists fl', cow_copy root s T fl1 a p s' fl'
         end
    else s' = s /\
      r = if decide (a < MAXVA /\ has_bits v PTE_V && has_bits v PTE_U && has_bits v PTE_W = true)
          then 0 else -1).
Proof.
  intros a v HT Hk Hva Hd HL. unfold uvmcow. fold a. cbv zeta. wstep.
  assert (Ha : 0 <= a) by (pose proof (PGROUNDDOWN_bounds va); unfold a; rewrite PGROUNDDOWN_eq;
    unfold PGSIZE; zdiv).
  destruct (decide (a >= MAXVA)) as [Hmax|Hmax].
  { wsteps. rewrite !decide_False by lia. done. }
  wsteps. wcall walk_look_wp; [done|lia|]. intros r s' [-> ->]. unfold slot.
  destruct (T !! vpath a) as [q|] eqn:Hq.
  2:{ assert (Hv : v = 0) by (unfold v, pte_at; by rewrite Hq). rewrite Hv.
      wtrue; [|done]. wsteps. rewrite !decide_False; [done|by intros [_ ?]..]. }
  wfalse; [|by eapply slot_nonzero]. wsteps. eapply wpl_load_leaf; [done|done|]. fold v.
  unfold breakable in *.
  destruct (has_bits v PTE_V); cbn [negb andb] in *;
    [|wsteps; rewrite !decide_False; [done|by intros [_ ?]..]].
  destruct (has_bits v PTE_U); cbn [negb andb] in *;
    [|wsteps; rewrite !decide_False; [done|by intros [_ ?]..]].
  destruct (has_bits v PTE_W); cbn [negb andb] in *.
  { wsteps. rewrite decide_False by (by intros [_ ?]). rewrite decide_True by (split; [lia|done]).
    done. }
  destruct (has_bits v PTE_C); cbn [negb andb] in *;
    [|wsteps; rewrite !decide_False; [done|by intros [_ ?]..]].
  destruct (decide (a < MAXVA /\ true = true)) as [_|Hn]; [|destruct Hn; split; [lia|done]].
  destruct Hd as (Hp & Hpt & Hr); [lia|done|].
  eapply cow_break_wp; try done; [split; [lia|apply MAXVA_VASPACE; lia]| |].
  - intros ->. by wsteps.
  - intros p fl1 s' fl' -> Hcc _. wsteps. split_and!; [done|done|by exists fl'].
Qed.

(** A write fault on a copy-on-write page gives the process a private copy:
    the entry now maps a page taken off the free list, writable, no longer
    copy-on-write and with its other permissions kept; the copy has one reference
    and the contents of the old page; the old page loses one reference and, unless
    that was the last, keeps its contents for its other users; nothing else in the
    address space or in memory changes. *)
Theorem uvmcow_private_copy root va L s T p fl :
  let a := PGROUNDDOWN va in
  let v := pte_at s T a in
  pt_rep s root T -> kmem_rep s (p :: fl) -> 0 <= va -> a < MAXVA -> breakable v = true ->
  data_page s T (PTE2PA v) -> avail [kmem_lock; ref_lock] L ->
  wp (uvmcow root va) L s (fun r s' => r = 0 /\ pt_rep s' root T /\
    (let v' := pte_at s' T a in
     PTE2PA v' = p /\ has_bits v' PTE_W = true /\ has_bits v' PTE_C = false /\
     has_bits v' PTE_V = true /\ has_bits v' PTE_U = true /\
     has_bits v' PTE_X = has_bits v PTE_X) /\
    ref s' p = 1 /\ (forall i, 0 <= i < PGSIZE -> byte (ram s') (p + i) = byte (ram s) (PTE2PA v + i)) /\
    ref s' (PTE2PA v) = ref s (PTE2PA v) - 1 /\
    (ref s (PTE2PA v) <> 1 -> same_page (ram s) (ram s') (PTE2PA v)) /\
    ptes_same_off (fun n => n = a / PGSIZE) s T s' T /\
    agree_off (pt_set T ∪ {[p; PTE2PA v]}) s s').
Proof.
  intros a v HT Hk Hva Ha Hb Hd HL. eapply wp_mono; [by apply (uvmcow_wp root va L s T (p :: fl))|]. fold a v.
  intros r s' Hr. cbv beta in Hr. rewrite decide_True in Hr by done. destruct Hr as (-> & fl' & Hcc).
  pose proof (PTE_FLAGS_range v) as Hf. pose proof (cow_flags_range _ Hf) as Hcf.
  pose proof (page_ok_pte _ (cc_page _ _ _ _ _ _ _ _ Hcc)) as Hpp.
  unfold breakable in Hb. rewrite !andb_true_iff in Hb. destruct Hb as [[[HV HU] _] _].
  split; [done|]. split; [apply Hcc|]. split.
  - cbv zeta. rewrite (cc_pte _ _ _ _ _ _ _ _ Hcc), PTE2PA_lor, !has_bits_lor by done.
    fold v. split_and!; [done|by apply cow_flags_W|by apply cow_flags_C| | |];
      [rewrite (cow_flags_other _ 0)|rewrite (cow_flags_other _ 4)|rewrite (cow_flags_other _ 3)];
      try done; by rewrite has_bits_flags.
  - split_and!; apply Hcc.
Qed.

(** uvmcow does nothing when there is nothing to do: it returns 0 on an
    entry that is already writable, and -1, without changing anything, on an
    address outside the user range, an unmapped or kernel page, a read-only page
    that is not copy-on-write, or when memory is exhausted. *)
Theorem uvmcow_otherwise root va L s T fl :
  let a := PGROUNDDOWN va in
  let v := pte_at s T a in
  pt_rep s root T -> kmem_rep s fl -> 0 <= va ->
  MAXVA <= a \/ breakable v = false \/ (fl = [] /\ data_page s T (PTE2PA v)) ->
  avail [kmem_lock; ref_lock] L ->
  wp (uvmcow root va) L s (fun r s' => s' = s /\
    r = if decide (a < MAXVA /\ has_bits v PTE_V && has_bits v PTE_U && has_bits v PTE_W = true)
        then 0 else -1).
Proof.
  intros a v HT Hk Hva Hor HL. destruct (decide (a < MAXVA /\ breakable v = true)) as [[Ha Hb]|Hn].
  - destruct Hor as [?|[?|[-> Hd]]]; [lia|congruence|].
    eapply wp_mono; [by apply (uvmcow_wp root va L s T [])|]. fold a v. intros r s' Hr. cbv beta in Hr.
    rewrite decide_True in Hr by done. destruct Hr as [-> ->]. split; [done|].
    rewrite decide_False; [done|]. intros [_ Hw]. unfold breakable in Hb.
    rewrite !andb_true_iff in *. rewrite negb_true_iff in Hb. intuition congruence.
  - eapply wp_mono; [eapply (uvmcow_wp root va L s T fl); try done; intros; by destruct Hn|].
    fold a v. intros r s' Hr. cbv beta in Hr. by rewrite decide_False in Hr by done.
Qed.
End Uvmcow.
