(* ===== verification/Shm.v ===== *)
(** Shared memory pages, kernel/shm.c: a table of [SHM_MAX] frames, each a
    physical page known by an identifier.  [shm_open] maps a frame at the end of
    the caller's address space, creating it on first use; [shm_close] drops it. *)
From S2P Require Import Prelude Riscv PhysMem Kalloc PageTable Vm.
Local Open Scope Z_scope.

(** * State *)

Definition SHM_MAX : nat := 8.

(** An entry of [shm_table.frames]. *)
Record shm_frame := mkFrame { fr_id : Z; fr_pa : Z; fr_cnt : Z }.

Definition free_frame : shm_frame := mkFrame 0 0 0.

(** Memory, the frame table, and the two fields of the current process that the
    memory code uses ([myproc()->sz] and [myproc()->pagetable]). *)
Record vms := mkVms {
  vm_mem : mem;
  frames : list shm_frame;
  p_sz : Z;
  p_pagetable : Z
}.

Definition set_frame (i : nat) (f : shm_frame) (s : vms) : vms :=
  mkVms (vm_mem s) (<[i := f]> (frames s)) (p_sz s) (p_pagetable s).
Definition set_sz (sz : Z) (s : vms) : vms :=
  mkVms (vm_mem s) (frames s) sz (p_pagetable s).

#[export] Program Instance vms_mem : Lens vms mem := {
  view := vm_mem;
  over m s := mkVms m (frames s) (p_sz s) (p_pagetable s)
}.
Next Obligation. done. Qed.
Next Obligation. by intros []. Qed.
Next Obligation. done. Qed.

(** * The operations *)
Section Operations.
Context `{KernelImage}.

(** initlock does not change the modelled state. *)
Definition shminit : M vms unit :=
  modify (fun s => mkVms (vm_mem s) (replicate SHM_MAX free_frame) (p_sz s) (p_pagetable s)).

(** The test of the scans of shm_open and shm_close: the [int] argument is
    compared with a [uint] field. *)
Definition frame_is (id : Z) (f : shm_frame) : bool :=
  (fr_id f =? u32 id) && negb (fr_pa f =? 0).

(** The first scan of shm_open. *)
Definition shm_find (id : Z) : M vms Z :=
  fs ← gets frames;
  match find_idx (frame_is id) fs with
  | Some i =>
      let f := nth i fs free_frame in
      modify (set_frame i (mkFrame (fr_id f) (fr_pa f) (s32 (fr_cnt f + 1))));;
      zoom (incref (fr_pa f));;
      mret (fr_pa f)
  | None => mret 0
  end.

(** The second scan, when the first found nothing; [None] is the early return
    of -1, with the lock released. *)
Definition shm_create (id : Z) : M vms (option Z) :=
  fs ← gets frames;
  match find_idx (fun f => fr_pa f =? 0) fs with
  | Some i =>
      pa ← zoom kalloc;
      if decide (pa = 0) then release shm_lock;; mret None
      else
        zoom (memset pa 0 PGSIZE);;
        modify (set_frame i (mkFrame (u32 id) pa 1));;
        zoom (incref pa);;
        mret (Some pa)
  | None => mret (Some 0)
  end.

(** The last part of shm_open: map the page found at the end of the process. *)
Definition shm_map (pa : Z) : M vms Z :=
  if decide (pa = 0) then mret (u64 (-1))
  else
    sz ← gets p_sz;
    pagetable ← gets p_pagetable;
    let va := PGROUNDUP sz in
    r ← zoom (mappages pagetable va PGSIZE pa (Z.lor (Z.lor PTE_W PTE_R) PTE_U));
    if decide (r < 0) then mret (u64 (-1))
    else
      modify (set_sz (u64 (va + PGSIZE)));;
      mret va.

Definition shm_open (id : Z) : M vms Z :=
  acquire shm_lock;;
  pa ← shm_find id;
  r ← (if decide (pa = 0) then shm_create id else mret (Some pa));
  match r with
  | None => mret (u64 (-1))
  | Some pa => release shm_lock;; shm_map pa
  end.

Definition shm_close (id : Z) : M vms Z :=
  acquire shm_lock;;
  fs ← gets frames;
  match find_idx (frame_is id) fs with
  | Some i =>
      let f := nth i fs free_frame in
      let c := s32 (fr_cnt f - 1) in
      modify (set_frame i (mkFrame (fr_id f) (fr_pa f) c));;
      (if decide (c = 0)
       then
         zoom (kfree (fr_pa f));;
         modify (set_frame i (mkFrame 0 0 c))
       else mret tt);;
      release shm_lock;;
      mret 0
  | None => release shm_lock;; mret (-1)
  end.

Definition is_shared_page (pa : Z) : M vms Z :=
  acquire shm_lock;;
  fs ← gets frames;
  let yes := match find_idx (fun f => fr_pa f =? pa) fs with Some _ => 1 | None => 0 end in
  release shm_lock;;
  mret yes.
End Operations.

(** * The abstract table: identifier to page and number of opens *)
Section View.
Context `{KernelImage}.
Implicit Types (s : vms) (V : gmap Z (Z * Z)) (fs : list shm_frame).

Record frames_rep fs V : Prop := {
  fv_len : length fs = SHM_MAX;
  fv_view : forall id pa c, V !! id = Some (pa, c) <->
    pa <> 0 /\ exists i, fs !! i = Some (mkFrame id pa c);
  fv_uniq : forall i j f g, fs !! i = Some f -> fs !! j = Some g ->
    fr_pa f <> 0 -> fr_pa g <> 0 -> fr_id f = fr_id g -> i = j
}.

(** The pages of the table are referenced data pages, one frame each. *)
Record shm_pages (m : mem) V : Prop := {
  sp_page : forall id pa c, V !! id = Some (pa, c) -> page_ok pa /\ 1 <= ref m pa /\ 1 <= c;
  sp_inj : forall id id' pa c c', V !! id = Some (pa, c) -> V !! id' = Some (pa, c') -> id = id'
}.

Lemma frames_init : frames_rep (replicate SHM_MAX free_frame) ∅.
Proof.
  split; [done| |].
  - intros id pa c. rewrite lookup_empty. split; [done|].
    intros (Hpa & i & [E _]%lookup_replicate). unfold free_frame in E. congruence.
  - intros i j f g [-> _]%lookup_replicate _ Hpa. by destruct Hpa.
Qed.

Lemma frame_is_true id f : frame_is id f = true <-> fr_id f = u32 id /\ fr_pa f <> 0.
Proof. unfold frame_is. rewrite andb_true_iff, negb_true_iff, Z.eqb_eq, Z.eqb_neq. done. Qed.

(** The scan finds the frame of an identifier exactly when the table has one. *)
Lemma scan_found fs V id i :
  frames_rep fs V -> find_idx (frame_is id) fs = Some i ->
  exists pa c, V !! u32 id = Some (pa, c) /\ fs !! i = Some (mkFrame (u32 id) pa c) /\
    nth i fs free_frame = mkFrame (u32 id) pa c.
Proof.
  intros Hf [(f & Hi & Ht) _]%find_idx_Some. apply frame_is_true in Ht as [Hid Hpa].
  destruct f as [fid pa c]; simpl in *; subst fid. exists pa, c. split_and!; [|done|].
  - apply (fv_view _ _ Hf). eauto.
  - by rewrite nth_lookup, Hi.
Qed.

Lemma scan_missed fs V id :
  frames_rep fs V -> find_idx (frame_is id) fs = None -> V !! u32 id = None.
Proof.
  intros Hf Hn. destruct (V !! u32 id) as [[pa c]|] eqn:E; [|done].
  apply (fv_view _ _ Hf) in E as (Hpa & i & Hi). rewrite find_idx_None in Hn.
  apply list_elem_of_lookup_2 in Hi as Hin. apply Hn in Hin.
  assert (Ht : frame_is id (mkFrame (u32 id) pa c) = true) by by apply frame_is_true.
  congruence.
Qed.

(** Updating the count of a frame. *)
Lemma frames_count fs V i id pa c c' :
  frames_rep fs V -> fs !! i = Some (mkFrame id pa c) -> pa <> 0 ->
  frames_rep (<[i := mkFrame id pa c']> fs) (<[id := (pa, c')]> V).
Proof.
  intros [Hl Hv Hu] Hi Hpa. pose proof (lookup_lt_Some _ _ _ Hi) as Hlt.
  split; [by rewrite length_insert| |].
  - intros id0 pa0 c0. rewrite lookup_insert_Some. split.
    + intros [[<- [= <- <-]]|[Hne Hin]].
      * split; [done|]. exists i. by apply list_lookup_insert_eq.
      * apply Hv in Hin as (Hp0 & j & Hj). split; [done|]. exists j.
        rewrite list_lookup_insert_ne; [done|]. intros <-. congruence.
    + intros (Hp0 & j & [(<- & [= <- <- <-] & _)|[Hne Hj]]%list_lookup_insert_Some); [by left|].
      right. split; [|by apply Hv; eauto]. intros <-. apply Hne.
      by eapply (Hu i j _ _ Hi Hj).
  - intros j k f g [(<- & <- & _)|[Hn1 Hj]]%list_lookup_insert_Some
      [(<- & <- & _)|[Hn2 Hk]]%list_lookup_insert_Some Hf Hg E; simpl in *; try done.
    + by apply (Hu i k _ _ Hi Hk).
    + by apply (Hu j i _ _ Hj Hi).
    + by apply (Hu j k _ _ Hj Hk).
Qed.

(** Filling a free frame. *)
Lemma frames_fill fs V i f id pa c :
  frames_rep fs V -> fs !! i = Some f -> fr_pa f = 0 -> pa <> 0 -> V !! id = None ->
  frames_rep (<[i := mkFrame id pa c]> fs) (<[id := (pa, c)]> V).
Proof.
  intros [Hl Hv Hu] Hi Hf0 Hpa Hid. pose proof (lookup_lt_Some _ _ _ Hi) as Hlt.
  assert (Hno : forall j g, fs !! j = Some g -> fr_pa g <> 0 -> fr_id g <> id).
  { intros j [gi gp gc] Hj Hg E. simpl in *. subst gi.
    assert (V !! id = Some (gp, gc)) by (apply Hv; eauto). congruence. }
  split; [by rewrite length_insert| |].
  - intros id0 pa0 c0. rewrite lookup_insert_Some. split.
    + intros [[<- [= <- <-]]|[Hne Hin]].
      * split; [done|]. exists i. by apply list_lookup_insert_eq.
      * apply Hv in Hin as (Hp0 & j & Hj). split; [done|]. exists j.
        rewrite list_lookup_insert_ne; [done|]. intros <-. rewrite Hi in Hj.
        injection Hj as ->. done.
    + intros (Hp0 & j & [(<- & [= <- <- <-] & _)|[Hne Hj]]%list_lookup_insert_Some); [by left|].
      right. split; [|by apply Hv; eauto]. intros <-. by apply (Hno _ _ Hj).
  - intros j k g h [(<- & <- & _)|[Hn1 Hj]]%list_lookup_insert_Some
      [(<- & <- & _)|[Hn2 Hk]]%list_lookup_insert_Some Hg Hh E; simpl in *; try done.
    + by destruct (Hno _ _ Hk).
    + by destruct (Hno _ _ Hj).
    + by apply (Hu j k _ _ Hj Hk).
Qed.

(** Emptying a frame. *)
Lemma frames_drop fs V i id pa c c' :
  frames_rep fs V -> fs !! i = Some (mkFrame id pa c) -> pa <> 0 ->
  frames_rep (<[i := mkFrame 0 0 c']> fs) (delete id V).
Proof.
  intros [Hl Hv Hu] Hi Hpa. pose proof (lookup_lt_Some _ _ _ Hi) as Hlt.
  split; [by rewrite length_insert| |].
  - intros id0 pa0 c0. rewrite lookup_delete_Some. split.
    + intros [Hne Hin]. apply Hv in Hin as (Hp0 & j & Hj). split; [done|]. exists j.
      rewrite list_lookup_insert_ne; [done|]. intros <-. congruence.
    + intros (Hp0 & j & [(<- & [= <- <- <-] & _)|[Hne Hj]]%list_lookup_insert_Some); [done|].
      split; [|by apply Hv; eauto]. intros <-. apply Hne. by apply (Hu i j _ _ Hi Hj).
  - intros j k g h [(<- & <- & _)|[Hn1 Hj]]%list_lookup_insert_Some
      [(<- & <- & _)|[Hn2 Hk]]%list_lookup_insert_Some Hg Hh E; simpl in *; try done.
    by apply (Hu j k _ _ Hj Hk).
Qed.
End View.

(** * Specifications *)
Section Specifications.
Context `{KernelImage}.
Implicit Types (s : vms) (V : gmap Z (Z * Z)) (T : ptree) (fl : list Z) (L : list lock).

Definition shm_ok s V : Prop := frames_rep (frames s) V /\ shm_pages (vm_mem s) V.

(** The fields of the process are untouched. *)
Definition same_proc s s' : Prop := p_sz s' = p_sz s /\ p_pagetable s' = p_pagetable s.

Lemma shm_pages_agree X (m m' : mem) V :
  agree_off X m m' -> (forall id pa c, V !! id = Some (pa, c) -> pa ∉ X) ->
  shm_pages m V -> shm_pages m' V.
Proof.
  intros Ha HX [Hp Hi]. split; [|done]. intros id pa c Hin.
  destruct (Hp _ _ _ Hin) as (Hok & Hr & Hc). split_and!; [done| |done].
  destruct (Ha pa) as [_ ->]; [apply Hok|by eapply HX|done].
Qed.

Lemma shm_pages_insert (m : mem) V id pa c :
  shm_pages m V -> page_ok pa -> 1 <= ref m pa -> 1 <= c ->
  (forall id' c', V !! id' = Some (pa, c') -> id' = id) -> shm_pages m (<[id := (pa, c)]> V).
Proof.
  intros [Hp Hi] Hok Hr Hc Hu. split.
  - intros id0 pa0 c0 [[<- [= <- <-]]|[_ Hin]]%lookup_insert_Some; [done|by eapply Hp].
  - intros i1 i2 p c1 c2 [[<- [= <- <-]]|[H1 Hin1]]%lookup_insert_Some
      [[<- E]|[H2 Hin2]]%lookup_insert_Some.
    + done.
    + symmetry. by eapply Hu.
    + injection E as -> <-. by eapply Hu.
    + by eapply Hi.
Qed.

(** A free page is not in the table. *)
Lemma shm_page_not_free (m : mem) V fl id pa c :
  shm_pages m V -> kmem_rep m fl -> V !! id = Some (pa, c) -> pa ∉ fl.
Proof.
  intros Hp Hk Hin Hfl. destruct (sp_page _ _ Hp _ _ _ Hin) as (_ & Hr & _).
  rewrite (rep_refs _ _ Hk) in Hr by done. lia.
Qed.

Lemma shm_find_wp id L s V :
  shm_ok s V -> avail [ref_lock] L ->
  wp (shm_find id) L s (fun r s' => same_proc s s' /\
    match V !! u32 id with
    | Some (pa, c) => r = pa /\ frames_rep (frames s') (<[u32 id := (pa, s32 (c + 1))]> V) /\
        vm_mem s' = set_ref (PA2INDEX pa) (s32 (ref (vm_mem s) pa + 1)) (vm_mem s)
    | None => r = 0 /\ s' = s
    end).
Proof.
  intros [Hf Hp] HL. unfold shm_find. wsteps.
  destruct (find_idx (frame_is id) (frames s)) as [i|] eqn:Hi.
  - destruct (scan_found _ _ _ _ Hf Hi) as (pa & c & HV & Hfi & ->). simpl.
    destruct (sp_page _ _ Hp _ _ _ HV) as (Hok & _ & _).
    wsteps. wcall (incref_wp pa L); [done|done|]. intros [] m ->. wsteps.
    rewrite HV. split_and!; try done.
    eapply frames_count; [done|done|]. pose proof (page_ok_pos pa Hok). unfold KERNBASE in *. lia.
  - wsteps. by rewrite (scan_missed _ _ _ Hf Hi).
Qed.

(** What a newly created frame looks like. *)
Record created s V fl (id pa : Z) s' : Prop := {
  cr_frames : frames_rep (frames s') (<[u32 id := (pa, 1)]> V);
  cr_proc : same_proc s s';
  cr_page : page_ok pa;
  cr_kmem : kmem_rep (vm_mem s') fl;
  cr_zero : zero_page (ram (vm_mem s')) pa;
  cr_ref0 : ref (vm_mem s) pa = 0;
  cr_ref : ref (vm_mem s') pa = 2;
  cr_agree : agree_off {[pa]} (vm_mem s) (vm_mem s')
}.

Lemma shm_create_wpl id L s V fl :
  shm_ok s V -> kmem_rep (vm_mem s) fl -> V !! u32 id = None ->
  avail [shm_lock; kmem_lock; ref_lock] L ->
  wpl (shm_create id) (shm_lock :: L) s (fun r L' s' =>
    match r with
    | None => L' = L /\ s' = s /\ fl = []
    | Some pa => L' = shm_lock :: L /\
        (pa = 0 /\ s' = s /\ (forall f, f ∈ frames s -> fr_pa f <> 0) \/
         exists fl1, fl = pa :: fl1 /\ created s V fl1 id pa s')
    end).
Proof.
  intros [Hf Hp] Hk HV HL. unfold shm_create. wsteps.
  destruct (find_idx (fun f => fr_pa f =? 0) (frames s)) as [i|] eqn:Hi.
  2:{ wsteps. split; [done|]. left. split_and!; [done|done|]. intros f Hin.
      rewrite find_idx_None in Hi. by apply Hi, Z.eqb_neq in Hin. }
  apply find_idx_Some in Hi as [(f & Hfi & Hf0%Z.eqb_eq) _].
  wsteps. wcall kalloc_wp; [done|solve_avail|]. intros r m1 Hal.
  destruct fl as [|p fl1].
  { destruct Hal as [-> ->]. wtrue; [|done]. wsteps. by destruct s. }
  destruct Hal as [-> Hal]. pose proof (alloc_page _ _ _ _ Hal) as Hok.
  pose proof (page_ok_pos _ Hok). assert (p <> 0) by (unfold KERNBASE in *; lia).
  wfalse; [|done]. wsteps. apply wpl_memset; [by apply page_ok_whole|]. simpl. wsteps.
  wcall incref_wp; [done|solve_avail|]. intros [] m2 ->. simpl. wsteps.
  split; [done|]. right. exists fl1. split; [done|].
  pose proof (rep_nodup _ _ Hk) as [Hnin _]%NoDup_cons.
  assert (Hag : agree_off {[p]} m1 (set_ref (PA2INDEX p) (s32 (ref m1 p + 1))
    (set_ram (fun m => memset_bytes m p 0 (Z.to_nat PGSIZE)) m1))).
  { eapply agree_off_trans; [apply agree_memset, Hok|apply agree_set_ref, Hok]. }
  split; simpl; try done.
  - eapply frames_fill; done.
  - eapply kmem_rep_agree; [exact Hag|done|set_solver|apply Hal].
  - intros x Hx. simpl. rewrite byte_memset, decide_True; [done|]. by rewrite Z2Nat.id.
  - apply (rep_refs _ _ Hk). set_solver.
  - etrans; [apply ref_set_eq|]. change (s32 (ref m1 p + 1) = 2). by rewrite (alloc_ref _ _ _ _ Hal).
  - eapply agree_off_trans; [apply Hal|exact Hag].
Qed.

(** The permissions of a shared mapping. *)
Definition shm_perm : Z := Z.lor (Z.lor PTE_W PTE_R) PTE_U.

(** The page [pa] is mapped at the end of the process: what mappages did. *)
Record shm_mapped s T fl (pa : Z) s' T' fl' : Prop := {
  sm_grow : pt_grow (p_pagetable s) (vm_mem s) T fl (vm_mem s') T' fl';
  sm_frames : frames s' = frames s;
  sm_pte : pte_at (vm_mem s') T' (PGROUNDUP (p_sz s)) = pte_entry pa shm_perm;
  sm_off : ptes_same_off (fun n => n = PGROUNDUP (p_sz s) / PGSIZE) (vm_mem s) T (vm_mem s') T';
  sm_sz : p_sz s' = PGROUNDUP (p_sz s) + PGSIZE;
  sm_table : p_pagetable s' = p_pagetable s
}.

Lemma shm_map_wp pa L s T fl :
  let va := PGROUNDUP (p_sz s) in
  pt_rep (vm_mem s) (p_pagetable s) T -> kmem_rep (vm_mem s) fl -> page_ok pa ->
  0 <= p_sz s -> p_sz s < MAXVA - PGSIZE ->
  has_bits (pte_at (vm_mem s) T va) PTE_V = false -> avail [kmem_lock; ref_lock] L ->
  wp (shm_map pa) L s (fun r s' => exists T' fl',
    r = va /\ shm_mapped s T fl pa s' T' fl' \/
    r = u64 (-1) /\ fl' = [] /\ frames s' = frames s /\ same_proc s s' /\
      pt_grow (p_pagetable s) (vm_mem s) T fl (vm_mem s') T' fl' /\
      ptes_same_off (fun _ => False) (vm_mem s) T (vm_mem s') T').
Proof.
  intros va HT Hk Hpa Hlo Hhi HV HL. change MAXVA with (2 ^ 38) in Hhi.
  assert (Hva : p_sz s <= va < p_sz s + PGSIZE) by (apply PGROUNDUP_bounds; unfold PGSIZE in *; lia).
  pose proof (page_ok_pos _ Hpa). unfold shm_map. wstep.
  wfalse; [|unfold KERNBASE in *; lia]. wsteps. fold va.
  wcall (map_page_wp (p_pagetable s) va pa shm_perm L (vm_mem s) T fl); try done.
  { apply PGROUNDUP_aligned. }
  { change MAXVA with (2 ^ 38). unfold PGSIZE in *. lia. }
  { by apply page_ok_pte. }
  intros r m (T' & fl' & Hg & _ & [(-> & Hp & Ho)|(-> & -> & Ho)]).
  - wfalse; [|lia]. wsteps. split; [done|]. exists T', fl'. left. split; [done|]. split; try done.
    simpl. apply u64_small. unfold PGSIZE in *. lia.
  - wtrue; [|lia]. wsteps. split; [done|]. exists T', []. right. split_and!; done.
Qed.

(** The state [s1] in which the page [pa] of [id], old or new, was found and its
    references counted, [c] opens in all. *)
Record acquired s V fl (id pa c : Z) s1 fl1 : Prop := {
  aq_ok : shm_ok s1 (<[u32 id := (pa, c)]> V);
  aq_kmem : kmem_rep (vm_mem s1) fl1;
  aq_proc : same_proc s s1;
  aq_page : page_ok pa;
  aq_agree : agree_off {[pa]} (vm_mem s) (vm_mem s1);
  aq_how :
    V !! u32 id = Some (pa, c - 1) /\ fl1 = fl /\ ram (vm_mem s1) = ram (vm_mem s) /\
      ref (vm_mem s1) pa = ref (vm_mem s) pa + 1 \/
    V !! u32 id = None /\ c = 1 /\ fl = pa :: fl1 /\ zero_page (ram (vm_mem s1)) pa /\
      ref (vm_mem s) pa = 0 /\ ref (vm_mem s1) pa = 2
}.

(** The counters have room for one more open of [id]. *)
Definition counters_ok s V (id : Z) : Prop :=
  forall pa c, V !! u32 id = Some (pa, c) -> c < INT_MAX /\ ref (vm_mem s) pa < INT_MAX.

Lemma acquired_existing s V fl id pa c s1 :
  shm_ok s V -> kmem_rep (vm_mem s) fl -> counters_ok s V id -> V !! u32 id = Some (pa, c) ->
  same_proc s s1 -> frames_rep (frames s1) (<[u32 id := (pa, s32 (c + 1))]> V) ->
  vm_mem s1 = set_ref (PA2INDEX pa) (s32 (ref (vm_mem s) pa + 1)) (vm_mem s) ->
  acquired s V fl id pa (c + 1) s1 fl.
Proof.
  intros [Hf Hp] Hk Hc HV Hpr Hf1 Hm. destruct (Hc _ _ HV) as [Hc1 Hr1].
  destruct (sp_page _ _ Hp _ _ _ HV) as (Hok & Hr & Hcp). unfold INT_MAX in *.
  rewrite s32_small in Hf1 by lia.
  assert (Ha : agree_off {[pa]} (vm_mem s) (vm_mem s1)) by (rewrite Hm; apply agree_set_ref, Hok).
  assert (Hr' : ref (vm_mem s1) pa = ref (vm_mem s) pa + 1).
  { rewrite Hm, ref_set_eq. apply s32_small. lia. }
  assert (Hp1 : shm_pages (vm_mem s1) V).
  { split; [|apply Hp]. intros id' p' c' Hin. destruct (sp_page _ _ Hp _ _ _ Hin) as (Hok' & ? & ?).
    split_and!; [done| |done]. destruct (decide (p' = pa)) as [->|]; [lia|].
    destruct (Ha p') as [_ ->]; [apply Hok'|set_solver|done]. }
  split; [| |done|done|done|].
  - split; [done|]. apply shm_pages_insert; [done|done|lia|lia|].
    intros id' c' Hin. by apply (sp_inj _ _ Hp _ _ _ _ _ Hin HV).
  - eapply kmem_rep_agree; [done|by rewrite Hm| |done].
    intros q Hq ->%elem_of_singleton. by apply (shm_page_not_free _ _ _ _ _ _ Hp Hk HV).
  - left. rewrite Hm. split_and!; [by replace (c + 1 - 1) with c by lia|done|done|].
    by rewrite <- Hm.
Qed.

Lemma acquired_new s V fl id pa s1 :
  shm_ok s V -> kmem_rep (vm_mem s) (pa :: fl) -> V !! u32 id = None ->
  created s V fl id pa s1 -> acquired s V (pa :: fl) id pa 1 s1 fl.
Proof.
  intros [Hf Hp] Hk HV [Hf1 Hpr Hok Hk1 Hz Hr0 Hr2 Ha].
  assert (Hno : forall id' p' c', V !! id' = Some (p', c') -> p' <> pa).
  { intros id' p' c' Hin ->. destruct (sp_page _ _ Hp _ _ _ Hin) as (_ & ? & _). lia. }
  split; try done.
  - split; [done|]. apply shm_pages_insert; [|done|lia|lia|].
    + eapply shm_pages_agree; [done| |done]. intros id' p' c' Hin%Hno. set_solver.
    + intros id' c' Hin%Hno. done.
  - right. done.
Qed.

(** The outcome [r], [s'] of shm_open once a page was acquired: it is mapped at
    the old end of the process, or the page table could not be extended. *)
Definition opened s V T fl (id r : Z) s' : Prop :=
  exists pa c s1 fl1 T' fl', acquired s V fl id pa c s1 fl1 /\
    (r = PGROUNDUP (p_sz s) /\ shm_mapped s1 T fl1 pa s' T' fl' \/
     r = u64 (-1) /\ fl' = [] /\ frames s' = frames s1 /\ same_proc s1 s' /\
       pt_grow (p_pagetable s) (vm_mem s1) T fl1 (vm_mem s') T' fl' /\
       ptes_same_off (fun _ => False) (vm_mem s) T (vm_mem s') T').

(** What shm_open needs of the process and of the table. *)
Record open_pre s V T fl (id : Z) : Prop := {
  op_ok : shm_ok s V;
  op_pt : pt_rep (vm_mem s) (p_pagetable s) T;
  op_kmem : kmem_rep (vm_mem s) fl;
  op_lo : 0 <= p_sz s;
  op_hi : p_sz s < MAXVA - PGSIZE;
  op_unmapped : has_bits (pte_at (vm_mem s) T (PGROUNDUP (p_sz s))) PTE_V = false;
  op_data : forall id' pa c, V !! id' = Some (pa, c) -> pa ∉ pt_set T;
  op_counters : counters_ok s V id
}.

Lemma acquired_disjoint s V T fl id pa c s1 fl1 :
  open_pre s V T fl id -> acquired s V fl id pa c s1 fl1 -> pt_set T ## {[pa]}.
Proof.
  intros Hpre Haq.
  destruct (aq_how _ _ _ _ _ _ _ _ Haq) as [(HVi & _)|(_ & _ & _ & _ & Hr0 & _)].
  - apply (op_data _ _ _ _ _ Hpre) in HVi. set_solver.
  - apply disjoint_singleton_r. intros [π Hπ]%elem_of_pt_set.
    pose proof (pt_ref _ _ _ (op_pt _ _ _ _ _ Hpre) _ _ Hπ). lia.
Qed.

Lemma shm_map_acquired_wp id L s V T fl pa c s1 fl1 :
  open_pre s V T fl id -> acquired s V fl id pa c s1 fl1 -> avail [kmem_lock; ref_lock] L ->
  wp (shm_map pa) L s1 (opened s V T fl id).
Proof.
  intros Hpre Haq HL. pose proof (acquired_disjoint _ _ _ _ _ _ _ _ _ Hpre Haq) as Hnin.
  pose proof Haq as [_ Hk1 [Es Ep] Hpa Ha _]. pose proof (op_pt _ _ _ _ _ Hpre) as HT.
  pose proof (shm_map_wp pa L s1 T fl1) as Hw. cbv zeta in Hw. rewrite Es, Ep in Hw.
  eapply wp_mono; [apply Hw; try done|].
  - by eapply pt_rep_agree.
  - apply Hpre.
  - apply Hpre.
  - rewrite (pte_at_agree {[pa]} (vm_mem s) _ (p_pagetable s)) by done. apply Hpre.
  - intros r s' (T' & fl' & Hr). exists pa, c, s1, fl1, T', fl'. split; [done|].
    destruct Hr as [[-> Hm]|(-> & -> & Hf & Hpr & Hg & Ho)]; [by left|right].
    split_and!; try done. intros v Hv Hn. rewrite Ho by done.
    by apply (pte_at_agree {[pa]} _ _ (p_pagetable s)).
Qed.

(** shm_open fails without any effect, or finds or creates the page and tries to
    map it. *)
Lemma shm_open_wp id L s V T fl :
  open_pre s V T fl id -> avail [shm_lock; kmem_lock; ref_lock] L ->
  wp (shm_open id) L s (fun r s' =>
    r = u64 (-1) /\ s' = s /\ V !! u32 id = None /\
      (fl = [] \/ forall f, f ∈ frames s -> fr_pa f <> 0) \/
    opened s V T fl id r s').
Proof.
  intros Hpre HL. pose proof Hpre as [Hok _ Hk _ _ _ _ Hc]. unfold shm_open. wsteps.
  wcall shm_find_wp; [done|solve_avail|]. intros r s1 (Hpr & Hr).
  destruct (V !! u32 id) as [[pa c]|] eqn:HVi.
  - destruct Hr as (-> & Hf1 & Hm). destruct (sp_page _ _ (proj2 Hok) _ _ _ HVi) as (Hpa & _ & _).
    pose proof (page_ok_pos _ Hpa). wfalse; [|unfold KERNBASE in *; lia]. wsteps.
    wcall (shm_map_acquired_wp id L s V T fl pa (c + 1) s1 fl);
      [done|by apply acquired_existing|solve_avail|]. auto.
  - destruct Hr as [-> ->]. wtrue; [|done]. wsteps.
    eapply wpl_mono; [by apply (shm_create_wpl id L s V fl)|].
    intros [pa|] L' s1.
    + intros [-> [(-> & -> & Hfull)|(fl1 & -> & Hcr)]]; wsteps.
      * unfold shm_map. wtrue; [|done]. wsteps. auto 7.
      * wcall (shm_map_acquired_wp id L s V T (pa :: fl1) pa 1 s1 fl1);
          [done|by apply acquired_new|solve_avail|]. auto.
    + intros (-> & -> & ->). wsteps. auto 7.
Qed.
End Specifications.

(** * What shared memory guarantees *)
Section Correctness.
Context `{KernelImage}.
Implicit Types (s : vms) (V : gmap Z (Z * Z)) (T : ptree) (fl : list Z) (L : list lock).

(** The table after an open, whether the mapping succeeded or not. *)
Lemma acquired_grow s V T fl id pa c s1 fl1 s' T' fl' :
  open_pre s V T fl id -> acquired s V fl id pa c s1 fl1 ->
  pt_grow (p_pagetable s) (vm_mem s1) T fl1 (vm_mem s') T' fl' -> frames s' = frames s1 ->
  shm_ok s' (<[u32 id := (pa, c)]> V) /\
  (forall id' p' c', <[u32 id := (pa, c)]> V !! id' = Some (p', c') -> p' ∉ pt_set T').
Proof.
  intros Hpre Haq [_ _ _ (used & Hu & Hs) Ha] Hfr.
  pose proof (acquired_disjoint _ _ _ _ _ _ _ _ _ Hpre Haq) as Hd.
  destruct (aq_ok _ _ _ _ _ _ _ _ Haq) as [Hf1 Hp1].
  assert (Hout : forall id' p' c', <[u32 id := (pa, c)]> V !! id' = Some (p', c') ->
    p' ∉ pt_set T').
  { intros id' p' c' Hin. pose proof (shm_page_not_free _ _ _ _ _ _ Hp1 (aq_kmem _ _ _ _ _ _ _ _ Haq) Hin).
    assert (p' ∉ pt_set T).
    { apply lookup_insert_Some in Hin as [[_ [= <- _]]|[_ Hin]]; [set_solver|].
      by eapply (op_data _ _ _ _ _ Hpre). }
    rewrite Hs. set_solver. }
  split; [|done]. split; [by rewrite Hfr|]. by eapply shm_pages_agree.
Qed.

(** Another process's page table survives an open. *)
Lemma acquired_other s V T fl id pa c s1 fl1 s' T' fl' root2 T2 :
  acquired s V fl id pa c s1 fl1 -> kmem_rep (vm_mem s) fl ->
  pt_grow (p_pagetable s) (vm_mem s1) T fl1 (vm_mem s') T' fl' ->
  pt_rep (vm_mem s) root2 T2 -> pt_set T ## pt_set T2 ->
  (forall id' p c', V !! id' = Some (p, c') -> p ∉ pt_set T2) ->
  pt_rep (vm_mem s') root2 T2 /\ (forall va, pte_at (vm_mem s') T2 va = pte_at (vm_mem s) T2 va) /\
  pt_set T' ## pt_set T2.
Proof.
  intros Haq Hk [_ _ _ (used & Hu & Hs) Ha] HT2 Hd Hdata.
  assert (Hpa : pt_set T2 ## {[pa]}).
  { apply disjoint_singleton_r.
    destruct (aq_how _ _ _ _ _ _ _ _ Haq) as [(HVi & _)|(_ & _ & Hfl & _)]; [by eapply Hdata|].
    intros Hin. apply (pt_set_free _ _ _ _ _ HT2 Hk Hin). rewrite Hfl. set_solver. }
  assert (HT21 : pt_rep (vm_mem s1) root2 T2) by (eapply pt_rep_agree; [apply Haq|done|done]).
  assert (Hd' : pt_set T2 ## pt_set T').
  { rewrite Hs. intros q Hq [?|Hin]%elem_of_union; [set_solver|].
    apply (pt_set_free _ _ _ _ _ HT21 (aq_kmem _ _ _ _ _ _ _ _ Haq) Hq). set_solver. }
  split; [by eapply pt_rep_agree|]. split; [|set_solver].
  intros va. etrans; [by eapply pte_at_agree|]. eapply pte_at_agree; [apply Haq|done|done].
Qed.

(** The scheduler runs another process. *)
Definition switch_to (sz pagetable : Z) (s : vms) : vms :=
  mkVms (vm_mem s) (frames s) sz pagetable.

(** The other process is as ready for an open as the first one was. *)
Lemma second_open_pre s V T fl id pa c s1 fl1 s' T' fl' szB ptB TB :
  open_pre s V T fl id -> acquired s V fl id pa c s1 fl1 ->
  pt_grow (p_pagetable s) (vm_mem s1) T fl1 (vm_mem s') T' fl' -> frames s' = frames s1 ->
  open_pre (switch_to szB ptB s) V TB fl id -> pt_set T ## pt_set TB ->
  (forall p c', V !! u32 id = Some (p, c') -> c' + 1 < INT_MAX /\ ref (vm_mem s) p + 1 < INT_MAX) ->
  open_pre (switch_to szB ptB s') (<[u32 id := (pa, c)]> V) TB fl' id /\ pt_set T' ## pt_set TB.
Proof.
  intros Hpre Haq Hg Hfr HB Hd Hroom.
  destruct (acquired_grow _ _ _ _ _ _ _ _ _ _ _ _ Hpre Haq Hg Hfr) as [Hok' Hout].
  destruct (acquired_other _ _ _ _ _ _ _ _ _ _ _ _ ptB TB Haq (op_kmem _ _ _ _ _ Hpre) Hg
    (op_pt _ _ _ _ _ HB) Hd (op_data _ _ _ _ _ HB)) as (HTB & Hpte & Hd').
  split; [|done]. split; try done; try apply HB.
  - apply Hg.
  - simpl. rewrite Hpte. apply HB.
  - intros id' p' c' [[_ [= <- _]]|[_ Hin]]%lookup_insert_Some; [|by apply (op_data _ _ _ _ _ HB) in Hin].
    destruct (aq_how _ _ _ _ _ _ _ _ Haq) as [(HVi & _)|(_ & _ & Hfl & _)].
    + by apply (op_data _ _ _ _ _ HB) in HVi.
    + intros Hin. apply (pt_set_free _ _ _ _ _ (op_pt _ _ _ _ _ HB) (op_kmem _ _ _ _ _ HB) Hin).
      rewrite Hfl. set_solver.
  - intros p' c'. rewrite lookup_insert_eq. intros [= <- <-]. simpl.
    destruct (gr_agree _ _ _ _ _ _ _ Hg pa) as [_ ->];
      [apply (aq_page _ _ _ _ _ _ _ _ Haq)|by eapply Hout, lookup_insert_eq|].
    destruct (aq_how _ _ _ _ _ _ _ _ Haq) as [(HVi & _ & _ & ->)|(_ & -> & _ & _ & _ & ->)].
    + apply Hroom in HVi. lia.
    + unfold INT_MAX. lia.
Qed.

(** Two processes that open the same identifier, one after the other, get
    the same physical page, mapped readable and writable at the old end of each
    address space, with one more open counted for each of them. *)
Theorem shm_open_shares_page id L s V TA TB fl szB ptB :
  open_pre s V TA fl id -> open_pre (switch_to szB ptB s) V TB fl id ->
  pt_set TA ## pt_set TB ->
  (forall p c', V !! u32 id = Some (p, c') -> c' + 1 < INT_MAX /\ ref (vm_mem s) p + 1 < INT_MAX) ->
  avail [shm_lock; kmem_lock; ref_lock] L ->
  wp (r1 ← shm_open id; modify (switch_to szB ptB);; r2 ← shm_open id; mret (r1, r2)) L s
    (fun r s' => r.1 <> u64 (-1) -> r.2 <> u64 (-1) ->
      r.1 = PGROUNDUP (p_sz s) /\ r.2 = PGROUNDUP szB /\
      exists TA' TB' pa c, shm_ok s' (<[u32 id := (pa, c)]> V) /\
        c = default 0 (snd <$> V !! u32 id) + 2 /\
        pt_rep (vm_mem s') (p_pagetable s) TA' /\ pt_rep (vm_mem s') ptB TB' /\
        pte_at (vm_mem s') TA' r.1 = pte_entry pa shm_perm /\
        pte_at (vm_mem s') TB' r.2 = pte_entry pa shm_perm).
Proof.
  intros HA HB Hd Hroom HL. wsteps. wcall shm_open_wp; [done|done|]. intros r1 s1 H1. wsteps.
  destruct H1 as [(-> & -> & _)|(pa & c & s1' & fl1 & TA' & fl' & Haq & Hres)].
  { wcall shm_open_wp; [exact HB|done|]. intros r2 s2 _. wsteps. split; [done|]. by intros []. }
  assert (Hgf : pt_grow (p_pagetable s) (vm_mem s1') TA fl1 (vm_mem s1) TA' fl' /\
    frames s1 = frames s1').
  { destruct Hres as [[_ Hm]|(_ & _ & ? & _ & ? & _)]; [|done].
    pose proof (sm_grow _ _ _ _ _ _ _ Hm) as Hg. rewrite (proj2 (aq_proc _ _ _ _ _ _ _ _ Haq)) in Hg.
    split; [done|]. apply Hm. }
  destruct Hgf as [Hg Hfr].
  destruct (second_open_pre _ _ _ _ _ _ _ _ _ _ _ _ szB ptB TB HA Haq Hg Hfr HB Hd Hroom) as [HB' Hd'].
  wcall shm_open_wp; [exact HB'|done|]. intros r2 s2 H2. wsteps. split; [done|]. simpl.
  intros Hr1 Hr2. destruct Hres as [[-> Hm]|[-> _]]; [|done].
  destruct H2 as [(-> & _)|(pa2 & c2 & s2' & fl2 & TB' & fl2' & Haq2 & Hres2)]; [done|].
  destruct Hres2 as [[-> Hm2]|[-> _]]; [|done].
  destruct (aq_how _ _ _ _ _ _ _ _ Haq2) as [(HV2 & _)|(HV2 & _)];
    rewrite lookup_insert_eq in HV2; [|done].
  injection HV2 as <- Hc2.
  pose proof (sm_grow _ _ _ _ _ _ _ Hm2) as Hg2.
  rewrite (proj2 (aq_proc _ _ _ _ _ _ _ _ Haq2)) in Hg2. simpl in Hg2.
  destruct (acquired_grow _ _ _ _ _ _ _ _ _ _ _ _ HA Haq Hg Hfr) as [_ Hout].
  destruct (acquired_grow _ _ _ _ _ _ _ _ _ _ _ _ HB' Haq2 Hg2 (sm_frames _ _ _ _ _ _ _ Hm2)) as [Hok2 _].
  rewrite insert_insert_eq in Hok2.
  destruct (acquired_other _ _ _ _ _ _ _ _ _ _ _ _ (p_pagetable s) TA' Haq2 (op_kmem _ _ _ _ _ HB') Hg2
    (gr_rep _ _ _ _ _ _ _ Hg) (symmetry Hd') Hout) as (HTA2 & HpteA & _).
  pose proof (sm_pte _ _ _ _ _ _ _ Hm) as HpA. pose proof (sm_pte _ _ _ _ _ _ _ Hm2) as HpB.
  rewrite (proj1 (aq_proc _ _ _ _ _ _ _ _ Haq)) in HpA.
  rewrite (proj1 (aq_proc _ _ _ _ _ _ _ _ Haq2)) in HpB.
  split_and!; [done|done|]. exists TA', TB', pa, c2. split_and!; [done| |done|apply Hg2| |done].
  - destruct (aq_how _ _ _ _ _ _ _ _ Haq) as [(-> & _)|(-> & -> & _)]; simpl; lia.
  - by rewrite HpteA.
Qed.

Lemma shm_pages_drop (m m' : mem) V id pa c :
  shm_pages m V -> V !! id = Some (pa, c) -> agree_off {[pa]} m m' -> shm_pages m' (delete id V).
Proof.
  intros Hp HV Ha. split.
  - intros id' p' c' [Hne Hin]%lookup_delete_Some.
    destruct (sp_page _ _ Hp _ _ _ Hin) as (Hok & Hr & Hc). split_and!; [done| |done].
    destruct (Ha p') as [_ ->]; [apply Hok| |done]. intros ->%elem_of_singleton.
    by apply Hne, (sp_inj _ _ Hp _ _ _ _ _ HV Hin).
  - intros i1 i2 p c1 c2 [_ H1]%lookup_delete_Some [_ H2]%lookup_delete_Some.
    by apply (sp_inj _ _ Hp _ _ _ _ _ H1 H2).
Qed.

(** shm_close returns -1 and changes nothing when nobody has the identifier
    open.  Otherwise it returns 0 and drops one open: while others remain only
    the count changes; the last one takes the identifier out of the table and
    drops the table's own reference to the page, which is freed if no process
    maps it any more. *)
Theorem shm_close_correct id L s V fl :
  shm_ok s V -> kmem_rep (vm_mem s) fl -> avail [shm_lock; kmem_lock; ref_lock] L ->
  (forall pa c, V !! u32 id = Some (pa, c) -> c <= INT_MAX) ->
  wp (shm_close id) L s (fun r s' => same_proc s s' /\
    match V !! u32 id with
    | None => r = -1 /\ s' = s
    | Some (pa, c) => r = 0 /\
        if decide (c = 1)
        then shm_ok s' (delete (u32 id) V) /\
             exists fl', released ∅ (vm_mem s) fl [pa] (vm_mem s') fl'
        else shm_ok s' (<[u32 id := (pa, c - 1)]> V) /\ vm_mem s' = vm_mem s
    end).
Proof.
  intros [Hf Hp] Hk HL Hmax. unfold shm_close. wsteps.
  destruct (find_idx (frame_is id) (frames s)) as [i|] eqn:Hi.
  2:{ wsteps. by rewrite (scan_missed _ _ _ Hf Hi). }
  destruct (scan_found _ _ _ _ Hf Hi) as (pa & c & HV & Hfi & ->). simpl. rewrite HV.
  destruct (sp_page _ _ Hp _ _ _ HV) as (Hok & Hr & Hc). specialize (Hmax _ _ HV).
  pose proof (page_ok_pos _ Hok). assert (Hne : pa <> 0) by (unfold KERNBASE in *; lia).
  unfold INT_MAX in Hmax. rewrite s32_small by lia. wsteps.
  destruct (decide (c = 1)) as [E|E].
  - wtrue; [|lia]. wsteps. wcall (kfree_wp pa _ _ fl); [done|done|done|solve_avail|].
    intros [] m [fl' Hrel]. wsteps. split_and!; try done.
    + split; simpl; [rewrite list_insert_insert_eq; by eapply frames_drop|].
      eapply shm_pages_drop; [done|done|]. eapply agree_off_mono; [by eapply released_agree|].
      set_solver.
    + by exists fl'.
  - wfalse; [|lia]. wsteps. split_and!; try done.
    split; simpl; [by eapply frames_count|]. apply shm_pages_insert; [done|done|done|lia|].
    intros id' c' Hin. by apply (sp_inj _ _ Hp _ _ _ _ _ Hin HV).
Qed.

(** shm_open never checks the end of the address space against the
    trapframe: on a process whose memory ends just below a mapped page, opening
    an existing identifier panics the kernel in mappages. *)
Theorem shm_open_panics_when_mapped id L s V T fl pa c :
  let va := PGROUNDUP (p_sz s) in
  shm_ok s V -> pt_rep (vm_mem s) (p_pagetable s) T -> kmem_rep (vm_mem s) fl ->
  0 <= p_sz s -> va < MAXVA -> has_bits (pte_at (vm_mem s) T va) PTE_V = true ->
  V !! u32 id = Some (pa, c) -> pa ∉ pt_set T ->
  avail [shm_lock; kmem_lock; ref_lock] L ->
  panics (shm_open id) L s "mappages: remap".
Proof.
  intros va Hok HT Hk Hlo Hhi HV Hin Hpt HL. unfold shm_open. apply panics_bind. wsteps.
  apply panics_bind. wcall shm_find_wp; [done|solve_avail|]. intros r s1 ([Es Ep] & Hr).
  rewrite Hin in Hr. destruct Hr as (-> & _ & Hm).
  destruct (sp_page _ _ (proj2 Hok) _ _ _ Hin) as (Hpa & Hr & _).
  pose proof (page_ok_pos _ Hpa). assert (Hne : pa <> 0) by (unfold KERNBASE in *; lia).
  apply panics_bind. wfalse; [|done]. wsteps. apply panics_bind. wsteps.
  unfold shm_map. wfalse; [|done]. apply panics_bind. wsteps. apply panics_bind. wsteps.
  apply panics_head, panics_zoom. rewrite Es, Ep. fold va.
  assert (Ha : agree_off {[pa]} (vm_mem s) (vm_mem s1)) by (rewrite Hm; apply agree_set_ref, Hpa).
  apply (mappages_remap _ _ _ _ _ _ T).
  - eapply pt_rep_agree; [done|set_solver|done].
  - apply PGROUNDUP_aligned.
  - split; [|done]. unfold va, PGROUNDUP. apply Z.land_nonneg. left. apply u64_range.
  - rewrite (pte_at_agree {[pa]} (vm_mem s) _ (p_pagetable s)) by (done || set_solver). done.
Qed.

(** A table that could not be extended has the leaf pages it had. *)
Lemma pt_grow_no_room root (m m' : mem) T T' fl' va :
  pt_grow root m T [] m' T' fl' -> T !! vpath va = None -> T' !! vpath va = None.
Proof.
  intros [HT' _ Hsub (used & Hu & Hs) _] Hn. destruct (T' !! vpath va) as [q|] eqn:Hq; [|done].
  destruct used; [|done]. assert (Hin : q ∈ pt_set T) by (rewrite <- (union_empty_r_L (pt_set T));
    change ∅ with (list_to_set (C := gset Z) (@nil Z)); rewrite <- Hs; apply elem_of_pt_set; eauto).
  apply elem_of_pt_set in Hin as [π Hπ]. pose proof (lookup_weaken _ _ _ _ Hπ Hsub) as Hπ'.
  rewrite (pt_inj _ _ _ HT' _ _ _ Hπ' Hq) in Hπ. congruence.
Qed.

(** When the page table cannot be extended, shm_open of an existing
    identifier returns -1 but keeps the open it counted and the reference it took
    to the page, although nothing was mapped: the frame leaks. *)
Theorem shm_open_failure_leaks id L s V T pa c :
  open_pre s V T [] id -> V !! u32 id = Some (pa, c) ->
  T !! vpath (PGROUNDUP (p_sz s)) = None -> avail [shm_lock; kmem_lock; ref_lock] L ->
  wp (shm_open id) L s (fun r s' => r = u64 (-1) /\ p_sz s' = p_sz s /\
    shm_ok s' (<[u32 id := (pa, c + 1)]> V) /\
    ref (vm_mem s') pa = ref (vm_mem s) pa + 1).
Proof.
  intros Hpre HV HT HL. eapply wp_mono; [by apply (shm_open_wp id L s V T [])|].
  intros r s' [(_ & _ & HV' & _)|(pa' & c' & s1 & fl1 & T' & fl' & Haq & Hres)]; [congruence|].
  destruct (aq_how _ _ _ _ _ _ _ _ Haq) as [(HV' & -> & _ & Hr)|(HV' & _)]; [|congruence].
  rewrite HV in HV'. injection HV' as <- Hc.
  destruct Hres as [[_ Hm]|(-> & _ & Hfr & [Es _] & Hg & _)].
  - pose proof (pt_grow_no_room _ _ _ _ _ _ _ (sm_grow _ _ _ _ _ _ _ Hm) HT) as HT'.
    pose proof (sm_pte _ _ _ _ _ _ _ Hm) as Hp. rewrite (proj1 (aq_proc _ _ _ _ _ _ _ _ Haq)) in Hp.
    pose proof (pte_entry_valid pa shm_perm (page_ok_pte _ (aq_page _ _ _ _ _ _ _ _ Haq))) as Hv.
    rewrite <- Hp in Hv. unfold pte_at in Hv. rewrite HT' in Hv. by discriminate Hv.
  - destruct (acquired_grow _ _ _ _ _ _ _ _ _ _ _ _ Hpre Haq Hg Hfr) as [Hok Hout].
    replace (c + 1) with c' by lia. split_and!; [done| |done|].
    + rewrite Es. apply Haq.
    + destruct (gr_agree _ _ _ _ _ _ _ Hg pa) as [_ ->]; [apply (aq_page _ _ _ _ _ _ _ _ Haq)| |done].
      by eapply Hout, lookup_insert_eq.
Qed.
End Correctness.
