(* ===== verification/Fork.v ===== *)
(** Copying an address space for fork, kernel/vm.c [uvmcopy]: the child maps the
    parent's pages; writable pages become read-only and copy-on-write in both,
    except shared-memory pages. *)
From S2P Require Import Prelude Riscv PhysMem Kalloc PageTable Vm Cow Shm.
Local Open Scope Z_scope.

(** * The operations *)
Section Operations.
Context `{KernelImage}.

(** The flags of a page shared by fork ([flags] is a C [uint]). *)
Definition share_flags (flags : Z) : Z := u32 (Z.lor (Z.land flags (Z.lnot PTE_W)) PTE_C).

(** One round of the loop of uvmcopy at page [i]: [inr None] leaves the loop
    normally, [inr (Some i)] goes to [err]. *)
Definition uvmcopy_body (old new sz i : Z) : M vms (Z + option Z) :=
  if decide (i < sz)
  then
    pte ← zoom (walk old i false);
    if decide (pte = 0) then mret (inl (u64 (i + PGSIZE)))
    else
      v ← zoom (load64 pte);
      if negb (has_bits v PTE_V) then mret (inl (u64 (i + PGSIZE)))
      else
        let pa := PTE2PA v in
        let flags := PTE_FLAGS v in
        flags ←
          (if has_bits flags PTE_W
           then
             sh ← is_shared_page pa;
             if decide (sh = 0)
             then
               let flags := share_flags flags in
               zoom (store64 pte (Z.lor (PA2PTE pa) flags));;
               mret flags
             else mret flags
           else mret flags);
        r ← zoom (mappages new i PGSIZE pa flags);
        if decide (r <> 0) then mret (inr (Some i))
        else
          zoom (incref pa);;
          mret (inl (u64 (i + PGSIZE)))
  else mret (inr None).

Definition uvmcopy (old new sz : Z) : M vms Z :=
  r ← loop (S (Z.to_nat ((sz + PGSIZE - 1) / PGSIZE))) (uvmcopy_body old new sz) 0;
  match r with
  | None => mret 0
  | Some i =>
      zoom (uvmunmap new 0 (i / PGSIZE) true);;
      mret (-1)
  end.
End Operations.

(** * Flags *)

Lemma share_flags_eq (f : Z) :
  0 <= f < 1024 -> share_flags f = Z.lor (Z.land f (Z.lnot PTE_W)) PTE_C.
Proof.
  intros Hf. apply u32_small. assert (Hc : 0 <= PTE_C < 1024) by done.
  pose proof (lor_low_range _ PTE_C (land_lnot_low f PTE_W Hf) Hc). lia.
Qed.

Lemma share_flags_range (f : Z) : 0 <= f < 1024 -> 0 <= share_flags f < 1024.
Proof. intros. rewrite share_flags_eq by done. apply lor_low_range; [by apply land_lnot_low|done]. Qed.

Lemma share_flags_W (f : Z) : 0 <= f < 1024 -> has_bits (share_flags f) PTE_W = false.
Proof.
  intros. rewrite share_flags_eq by done. unfold PTE_W at 2.
  rewrite has_bits_testbit, Z.lor_spec, Z.land_spec by done. by rewrite andb_false_r.
Qed.

Lemma share_flags_C (f : Z) : 0 <= f < 1024 -> has_bits (share_flags f) PTE_C = true.
Proof.
  intros. rewrite share_flags_eq by done. unfold PTE_C at 2.
  rewrite has_bits_testbit, Z.lor_spec by done. by rewrite orb_true_r.
Qed.

Lemma share_flags_other (f k : Z) :
  0 <= f < 1024 -> 0 <= k -> k <> 2 -> k <> 5 ->
  has_bits (share_flags f) (Z.shiftl 1 k) = has_bits f (Z.shiftl 1 k).
Proof.
  intros Hf Hk H2 H5. rewrite share_flags_eq, !has_bits_testbit, Z.lor_spec, Z.land_spec by done.
  rewrite Z.lnot_spec by done. unfold PTE_C, PTE_W.
  rewrite !Z.shiftl_1_l, !Z.pow2_bits_false by lia. by rewrite andb_true_r, orb_false_r.
Qed.

(** Or-ing in a bit that is set changes nothing. *)
Lemma lor_set_bit (f k : Z) : 0 <= k -> has_bits f (Z.shiftl 1 k) = true -> Z.lor f (Z.shiftl 1 k) = f.
Proof.
  intros Hk Hb. rewrite has_bits_testbit in Hb by done. apply Z.bits_inj'. intros i Hi.
  rewrite Z.lor_spec, Z.shiftl_1_l, Z.pow2_bits_eqb by done.
  destruct (Z.eqb_spec k i) as [->|]; [by rewrite Hb|by rewrite orb_false_r].
Qed.

(** * Entries after fork *)
Section Entries.
Context `{KernelImage}.
Context (fs : list shm_frame).

Definition shared (pa : Z) : bool := bool_decide (pa ∈ (fr_pa <$> fs)).

(** The flags and the entry that parent and child have after the copy. *)
Definition fork_flags (v : Z) : Z :=
  if has_bits (PTE_FLAGS v) PTE_W && negb (shared (PTE2PA v))
  then share_flags (PTE_FLAGS v) else PTE_FLAGS v.

Definition fork_pte (v : Z) : Z :=
  if has_bits v PTE_V then Z.lor (PA2PTE (PTE2PA v)) (fork_flags v) else v.

(** A valid entry holds nothing but a page and flags. *)
Definition pte_wf (v : Z) : Prop := v = Z.lor (PA2PTE (PTE2PA v)) (PTE_FLAGS v).

Lemma fork_flags_range v : 0 <= fork_flags v < 1024.
Proof.
  unfold fork_flags. destruct (_ && _); [apply share_flags_range|]; apply PTE_FLAGS_range.
Qed.

Lemma fork_flags_V v : has_bits v PTE_V = true -> has_bits (fork_flags v) PTE_V = true.
Proof.
  intros HV. rewrite <- has_bits_flags in HV by done. unfold fork_flags.
  destruct (_ && _); [|done]. rewrite (share_flags_other _ 0); [done|apply PTE_FLAGS_range|lia..].
Qed.

(** The entry mappages writes for the child is the parent's new entry. *)
Lemma fork_pte_entry v :
  has_bits v PTE_V = true -> pte_entry (PTE2PA v) (fork_flags v) = fork_pte v.
Proof.
  intros HV. rewrite pte_entry_eq. unfold fork_pte. rewrite HV. f_equal.
  apply (lor_set_bit _ 0); [lia|by apply fork_flags_V].
Qed.

Lemma fork_pte_range v : 0 <= v < 2 ^ 64 -> pte_page (PTE2PA v) -> 0 <= fork_pte v < 2 ^ 64.
Proof.
  intros. unfold fork_pte. destruct (has_bits v PTE_V); [|done].
  apply PTE_lor_range; [done|apply fork_flags_range].
Qed.

Lemma is_shared_page_wp pa L s :
  frames s = fs -> shm_lock ∉ L ->
  wp (is_shared_page pa) L s (fun r s' => s' = s /\ r = if shared pa then 1 else 0).
Proof.
  intros Hf HL. unfold is_shared_page. wstep. wstep. apply wpl_acquire; [done|]. wsteps.
  split_and!; [done|done|]. rewrite Hf. unfold shared.
  destruct (find_idx (fun f => fr_pa f =? pa) fs) as [i|] eqn:E.
  - apply find_idx_Some in E as [(f & Hi & Hp%Z.eqb_eq) _]. rewrite bool_decide_true; [done|].
    apply list_elem_of_fmap. exists f. split; [done|]. by eapply list_elem_of_lookup_2.
  - rewrite bool_decide_false; [done|]. intros (f & -> & Hin)%list_elem_of_fmap.
    rewrite find_idx_None in E. apply E in Hin. by rewrite Z.eqb_refl in Hin.
Qed.
End Entries.

(** * The copy, page by page *)
Section Copy.
Context `{KernelImage}.
Context (fs : list shm_frame) (m : mem) (old new : Z) (To Tn : ptree) (fl : list Z) (n : nat).

(** The [j]-th user page. *)
Local Abbreviation pg j := (0 + PGSIZE * j) (only parsing).

Record copy_pre : Prop := {
  pre_old : pt_rep m old To;
  pre_new : pt_rep m new Tn;
  pre_kmem : kmem_rep m fl;
  pre_disj : pt_set To ## pt_set Tn;
  pre_max : PGSIZE * Z.of_nat n <= MAXVA;
  pre_page : forall j, 0 <= j < Z.of_nat n -> has_bits (pte_at m To (pg j)) PTE_V = true ->
    let p := PTE2PA (pte_at m To (pg j)) in
    page_ok p /\ (p ∉ pt_set To ∪ pt_set Tn) /\ 1 <= ref m p /\ ref m p + Z.of_nat n <= INT_MAX /\
    pte_wf (pte_at m To (pg j));
  pre_empty : forall j, 0 <= j < Z.of_nat n -> has_bits (pte_at m Tn (pg j)) PTE_V = false
}.

(** The first [ko] pages are protected in the parent, the first [kn] of them
    mapped in the child and the references of the first [kr] counted. *)
Record copied (ko kn kr : nat) (m1 : mem) (T1 : ptree) (fl1 : list Z) : Prop := {
  cp_old : pt_rep m1 old To;
  cp_new : pt_rep m1 new T1;
  cp_kmem : kmem_rep m1 fl1;
  cp_used : exists used, fl = used ++ fl1 /\ pt_set T1 = pt_set Tn ∪ list_to_set used;
  cp_optes : forall j, 0 <= j < Z.of_nat ko -> pte_at m1 To (pg j) = fork_pte fs (pte_at m To (pg j));
  cp_nptes : forall j, 0 <= j < Z.of_nat kn ->
    pte_at m1 T1 (pg j) = if has_bits (pte_at m To (pg j)) PTE_V
                          then fork_pte fs (pte_at m To (pg j)) else pte_at m Tn (pg j);
  cp_ooff : ptes_same_off (vrange 0 (Z.of_nat ko)) m To m1 To;
  cp_noff : ptes_same_off (vrange 0 (Z.of_nat kn)) m Tn m1 T1;
  cp_refs : forall p, p mod PGSIZE = 0 -> p ∉ pt_set T1 ->
    ref m1 p = ref m p + cnt (upages m To 0 kr) p;
  cp_same : forall p, p mod PGSIZE = 0 -> p ∉ pt_set To ∪ pt_set T1 -> same_page (ram m) (ram m1) p
}.

Hypothesis Hpre : copy_pre.

Lemma copied_refl : copied 0 0 0 m Tn fl.
Proof using All.
  destruct Hpre. split; try done; try lia.
  - exists []. split; [done|set_solver].
  - intros p _ _. simpl. lia.
Qed.

Lemma copied_disj ko kn kr m1 T1 fl1 : copied ko kn kr m1 T1 fl1 -> pt_set To ## pt_set T1.
Proof using All.
  intros Hc. destruct (cp_used _ _ _ _ _ _ Hc) as (used & Hu & ->).
  intros p Hp [?|Hin]%elem_of_union; [by apply (pre_disj Hpre p)|].
  apply (pt_set_free _ _ _ _ _ (pre_old Hpre) (pre_kmem Hpre) Hp).
  rewrite Hu, elem_of_app. left. by apply elem_of_list_to_set in Hin.
Qed.

Lemma copied_page ko kn kr m1 T1 fl1 j :
  copied ko kn kr m1 T1 fl1 -> 0 <= j < Z.of_nat n -> has_bits (pte_at m To (pg j)) PTE_V = true ->
  page_ok (PTE2PA (pte_at m To (pg j))) /\ PTE2PA (pte_at m To (pg j)) ∉ pt_set To ∪ pt_set T1.
Proof using All.
  intros Hc Hj HV. destruct (pre_page Hpre j Hj HV) as (Hok & Hnin & Hr & _).
  destruct (cp_used _ _ _ _ _ _ Hc) as (used & Hu & ->). split; [done|].
  rewrite !elem_of_union, elem_of_list_to_set in *. intros [?|[?|Hin]]; [by auto..|].
  rewrite (rep_refs _ _ (pre_kmem Hpre)) in Hr; [lia|]. rewrite Hu, elem_of_app. by left.
Qed.

Lemma pg_range j k : 0 <= j < Z.of_nat k -> (k <= n)%nat -> 0 <= pg j < VASPACE.
Proof using All.
  intros Hj Hk. pose proof (pre_max Hpre). split; [unfold PGSIZE; lia|].
  apply MAXVA_VASPACE. unfold PGSIZE in *. lia.
Qed.

Lemma pg_vpn j : pg j / PGSIZE = j.
Proof using All. rewrite vpn_add by done. done. Qed.

(** Protecting the next page of the parent. *)
Lemma copied_protect k m1 T1 fl1 m2 :
  let j := Z.of_nat k in
  (k < n)%nat -> copied k k k m1 T1 fl1 -> pt_grow old m1 To fl1 m2 To fl1 ->
  pte_at m2 To (pg j) = fork_pte fs (pte_at m To (pg j)) ->
  ptes_same_off (fun v => v = pg j / PGSIZE) m1 To m2 To ->
  copied (S k) k k m2 T1 fl1.
Proof using All.
  intros j Hk Hc [HT2 Hk2 _ _ Ha] Hp Ho. pose proof (copied_disj _ _ _ _ _ _ Hc) as Hd.
  assert (Hd' : pt_set T1 ## pt_set To) by set_solver. rewrite pg_vpn in Ho.
  pose proof Hc as [Hc1 Hc2 _ Hc4 Hc5 Hc6 Hc7 Hc8 Hc9 Hc10].
  assert (Hn2 : forall va, pte_at m2 T1 va = pte_at m1 T1 va)
    by (intros va; by apply (pte_at_agree (pt_set To) m1 m2 new T1)).
  split; try done.
  - by eapply pt_rep_agree.
  - intros i Hi. destruct (decide (i = j)) as [->|]; [done|].
    rewrite Ho; [apply Hc5; lia|by apply (pg_range _ (S k)); [lia|lia]|by rewrite pg_vpn].
  - intros i Hi. rewrite Hn2. by apply Hc6.
  - intros va Hva Hn. unfold vrange in *. change (0 / PGSIZE) with 0 in *. rewrite Ho; [|done|lia].
    apply Hc7; [done|]. unfold vrange. change (0 / PGSIZE) with 0. lia.
  - intros va Hva Hn. rewrite Hn2. by apply Hc8.
  - intros p Hal Hnin. rewrite <- Hc9 by done.
    destruct (decide (p ∈ pt_set To)) as [[π Hπ]%elem_of_pt_set|]; [|by apply Ha].
    by rewrite (pt_ref _ _ _ HT2 _ _ Hπ), (pt_ref _ _ _ Hc1 _ _ Hπ).
  - intros p Hal Hnin. eapply same_page_trans; [by apply Hc10|].
    apply Ha; [done|]. rewrite elem_of_union in Hnin. auto.
Qed.

(** The child's table grew, and now maps [kn'] pages. *)
Lemma copied_extend ko kn kr m2 T1 fl1 kn' m3 T3 fl3 :
  copied ko kn kr m2 T1 fl1 -> pt_grow new m2 T1 fl1 m3 T3 fl3 ->
  (forall j, 0 <= j < Z.of_nat kn' ->
    pte_at m3 T3 (pg j) = if has_bits (pte_at m To (pg j)) PTE_V
                          then fork_pte fs (pte_at m To (pg j)) else pte_at m Tn (pg j)) ->
  ptes_same_off (vrange 0 (Z.of_nat kn')) m Tn m3 T3 -> copied ko kn' kr m3 T3 fl3.
Proof using All.
  intros Hc Hg Hnew Hoff. pose proof (copied_disj _ _ _ _ _ _ Hc) as Hd.
  pose proof Hc as [Hc1 Hc2 Hc3 (used & Hu & Hs) Hc5 Hc6 Hc7 Hc8 Hc9 Hc10].
  pose proof Hg as [HT3 Hk3 _ (used3 & Hu3 & Hs3) Ha].
  assert (Hd' : pt_set To ## pt_set T3).
  { rewrite Hs3. intros p Hp [?|Hin]%elem_of_union; [by apply (Hd p)|].
    apply (pt_set_free _ _ _ _ _ Hc1 Hc3 Hp). rewrite Hu3, elem_of_app. left.
    by apply elem_of_list_to_set in Hin. }
  assert (Hsub : forall p, p ∉ pt_set T3 -> p ∉ pt_set T1) by (rewrite Hs3; intros p; rewrite elem_of_union; tauto).
  assert (Ho2 : forall va, pte_at m3 To va = pte_at m2 To va)
    by (intros va; by apply (pte_at_agree (pt_set T3) m2 m3 old To)).
  split; try done.
  - by eapply pt_rep_agree.
  - exists (used ++ used3). rewrite Hu, Hu3, Hs3, Hs, list_to_set_app_L, app_assoc. split; [done|].
    by rewrite (assoc_L (∪)).
  - intros i Hi. rewrite Ho2. by apply Hc5.
  - intros va Hva Hn. rewrite Ho2. by apply Hc7.
  - intros p Hal Hnin. destruct (Ha p Hal Hnin) as [_ ->]. by apply Hc9; [|apply Hsub].
  - intros p Hal Hnin. rewrite elem_of_union in Hnin. eapply same_page_trans.
    + apply Hc10; [done|]. rewrite elem_of_union. intros [?|?]; [tauto|]. by apply (Hsub p); tauto.
    + apply Ha; tauto.
Qed.

(** ... without any new mapping. *)
Lemma copied_unmapped ko kn kr m2 T1 fl1 m3 T3 fl3 :
  (kn <= n)%nat -> copied ko kn kr m2 T1 fl1 -> pt_grow new m2 T1 fl1 m3 T3 fl3 ->
  ptes_same_off (fun _ => False) m2 T1 m3 T3 -> copied ko kn kr m3 T3 fl3.
Proof using All.
  intros Hkn Hc Hg Ho. eapply copied_extend; [done|done| |].
  - intros i Hi. rewrite Ho; [by apply (cp_nptes _ _ _ _ _ _ Hc)|by apply (pg_range _ kn)|by intros []].
  - intros va Hva Hn. rewrite Ho; [by apply (cp_noff _ _ _ _ _ _ Hc)|done|by intros []].
Qed.

(** ... with the next page mapped. *)
Lemma copied_mapped ko k kr m2 T1 fl1 m3 T3 fl3 :
  let v := pte_at m To (pg (Z.of_nat k)) in
  (k < n)%nat -> copied ko k kr m2 T1 fl1 -> pt_grow new m2 T1 fl1 m3 T3 fl3 ->
  has_bits v PTE_V = true -> pte_at m3 T3 (pg (Z.of_nat k)) = fork_pte fs v ->
  ptes_same_off (fun x => x = pg (Z.of_nat k) / PGSIZE) m2 T1 m3 T3 ->
  copied ko (S k) kr m3 T3 fl3.
Proof using All.
  intros v Hk Hc Hg HV Hp Ho. rewrite pg_vpn in Ho. eapply copied_extend; [done|done| |].
  - intros i Hi. destruct (decide (i = Z.of_nat k)) as [->|]; [by fold v; rewrite HV|].
    rewrite Ho; [apply (cp_nptes _ _ _ _ _ _ Hc); lia|by apply (pg_range _ (S k)); lia|by rewrite pg_vpn].
  - intros va Hva Hn. unfold vrange in *. change (0 / PGSIZE) with 0 in *. rewrite Ho; [|done|lia].
    apply (cp_noff _ _ _ _ _ _ Hc); [done|]. unfold vrange. change (0 / PGSIZE) with 0. lia.
Qed.

Lemma cnt_upages_le k p : cnt (upages m To 0 k) p <= Z.of_nat k.
Proof using All.
  induction k as [|k IH]; [done|]. simpl. rewrite cnt_app. unfold upage.
  destruct (has_bits _ _); simpl; [case_decide|]; lia.
Qed.

(** Counting the reference of the page just mapped. *)
Lemma copied_incref ko kn k m3 T3 fl3 :
  let v := pte_at m To (pg (Z.of_nat k)) in
  (k < n)%nat -> copied ko kn k m3 T3 fl3 -> has_bits v PTE_V = true ->
  copied ko kn (S k) (set_ref (PA2INDEX (PTE2PA v)) (s32 (ref m3 (PTE2PA v) + 1)) m3) T3 fl3.
Proof using All.
  intros v Hk Hc HV. destruct (pre_page Hpre (Z.of_nat k)) as (Hok & _ & Hr & Hmax & _); [lia|done|].
  destruct (copied_page _ _ _ _ _ _ (Z.of_nat k) Hc) as [_ Hnin]; [lia|done|].
  fold v in Hok, Hr, Hmax, Hnin. rewrite not_elem_of_union in Hnin. destruct Hnin as [Hno Hnn].
  pose proof (agree_set_ref m3 (PTE2PA v) (s32 (ref m3 (PTE2PA v) + 1)) (proj1 Hok)) as Ha.
  pose proof Hc as [Hc1 Hc2 Hc3 Hc4 Hc5 Hc6 Hc7 Hc8 Hc9 Hc10].
  pose proof (Hc9 _ (proj1 Hok) Hnn) as Hrv. pose proof (cnt_upages_le k (PTE2PA v)).
  pose proof (cnt_nonneg (upages m To 0 k) (PTE2PA v)).
  split; try done.
  - eapply pt_rep_agree; [exact Ha|by apply disjoint_singleton_r|done].
  - eapply pt_rep_agree; [exact Ha|by apply disjoint_singleton_r|done].
  - eapply kmem_rep_agree; [exact Ha|done| |done].
    intros q Hq ->%elem_of_singleton. rewrite (rep_refs _ _ Hc3) in Hrv by done. lia.
  - intros p Hal Hnp. cbn [upages]. rewrite cnt_app. fold v. unfold upage. rewrite HV. simpl.
    case_decide as E.
    + subst p. rewrite ref_set_eq, Hrv, s32_small; [lia|]. unfold INT_MAX in *. lia.
    + rewrite ref_set_ne by (done || apply Hok). rewrite Hc9 by done. lia.
Qed.

(** A page that is not there. *)
Lemma copied_skip k m1 T1 fl1 :
  let v := pte_at m To (pg (Z.of_nat k)) in
  (k < n)%nat -> copied k k k m1 T1 fl1 -> has_bits v PTE_V = false ->
  copied (S k) (S k) (S k) m1 T1 fl1.
Proof using All.
  intros v Hk Hc HV. pose proof Hc as [Hc1 Hc2 Hc3 Hc4 Hc5 Hc6 Hc7 Hc8 Hc9 Hc10].
  assert (Hin : ~ vrange 0 (Z.of_nat k) (pg (Z.of_nat k) / PGSIZE)).
  { rewrite pg_vpn. unfold vrange. change (0 / PGSIZE) with 0. lia. }
  assert (Hr : 0 <= pg (Z.of_nat k) < VASPACE) by (apply (pg_range _ (S k)); lia).
  assert (Hw : forall x, ~ vrange 0 (Z.of_nat (S k)) x -> ~ vrange 0 (Z.of_nat k) x)
    by (unfold vrange; lia).
  split; try done.
  - intros i Hi. destruct (decide (i = Z.of_nat k)) as [->|]; [|apply Hc5; lia].
    rewrite Hc7 by done. unfold fork_pte. fold v. by rewrite HV.
  - intros i Hi. destruct (decide (i = Z.of_nat k)) as [->|]; [|apply Hc6; lia].
    fold v. rewrite HV. by apply Hc8.
  - intros va Hva Hn. apply Hc7; auto.
  - intros va Hva Hn. apply Hc8; auto.
  - intros p Hal Hnp. simpl. rewrite cnt_app. fold v. unfold upage. rewrite HV. simpl.
    rewrite Z.add_0_r. by apply Hc9.
Qed.

Context (s : vms).
Hypothesis Hs : vm_mem s = m.
Hypothesis Hfs : frames s = fs.

(** The entry of the page whose turn it is has not been touched yet. *)
Lemma copied_next_pte k m1 T1 fl1 :
  (k < n)%nat -> copied k k k m1 T1 fl1 ->
  pte_at m1 To (pg (Z.of_nat k)) = pte_at m To (pg (Z.of_nat k)) /\
  pte_at m1 T1 (pg (Z.of_nat k)) = pte_at m Tn (pg (Z.of_nat k)).
Proof using Hpre.
  intros Hk Hc. assert (Hr : 0 <= pg (Z.of_nat k) < VASPACE) by (apply (pg_range _ (S k)); lia).
  assert (Hin : ~ vrange 0 (Z.of_nat k) (pg (Z.of_nat k) / PGSIZE)).
  { rewrite pg_vpn. unfold vrange. change (0 / PGSIZE) with 0. lia. }
  split; [by apply (cp_ooff _ _ _ _ _ _ Hc)|by apply (cp_noff _ _ _ _ _ _ Hc)].
Qed.

(** The write protection of the parent's page in uvmcopy. *)
Lemma protect_wp k m1 T1 fl1 q L :
  let v := pte_at m To (pg (Z.of_nat k)) in
  let pa := PTE2PA v in
  (k < n)%nat -> copied k k k m1 T1 fl1 -> has_bits v PTE_V = true ->
  To !! vpath (pg (Z.of_nat k)) = Some q -> shm_lock ∉ L ->
  wp (if has_bits (PTE_FLAGS v) PTE_W
      then
        sh ← is_shared_page pa;
        if decide (sh = 0)
        then
          zoom (store64 (q + 8 * PX 0 (pg (Z.of_nat k)))
                  (Z.lor (PA2PTE pa) (share_flags (PTE_FLAGS v))));;
          mret (share_flags (PTE_FLAGS v))
        else mret (PTE_FLAGS v)
      else mret (PTE_FLAGS v)) L (over m1 s)
    (fun f s' => f = fork_flags fs v /\ exists m2, s' = over m2 s /\ copied (S k) k k m2 T1 fl1).
Proof using All.
  intros v pa Hk Hc HV Hq HL. destruct (copied_next_pte k m1 T1 fl1 Hk Hc) as [Hov _]. fold v in Hov.
  destruct (pre_page Hpre (Z.of_nat k)) as (Hok & _ & _ & _ & Hwf); [lia|done|]. fold v pa in Hok, Hwf.
  pose proof (cp_old _ _ _ _ _ _ Hc) as HTo. pose proof (cp_kmem _ _ _ _ _ _ Hc) as Hk1.
  assert (Hr : 0 <= pg (Z.of_nat k) < VASPACE) by (apply (pg_range _ (S k)); lia).
  assert (Hkeep : fork_flags fs v = PTE_FLAGS v -> copied (S k) k k m1 T1 fl1).
  { intros Hf. eapply copied_protect; [done|done|by apply pt_grow_refl| |done].
    rewrite Hov. fold v. unfold fork_pte. rewrite HV, Hf. done. }
  unfold fork_flags in *. fold pa in Hkeep |- *. destruct (has_bits (PTE_FLAGS v) PTE_W) eqn:HW; cbn [andb negb] in *.
  2:{ wsteps. split_and!; [done|done|]. exists m1. auto. }
  wsteps. wcall (is_shared_page_wp fs pa); [done|done|]. intros r s' [-> ->].
  destruct (shared fs pa) eqn:Hsh; cbn [andb negb] in *.
  { wfalse; [|done]. wsteps. split_and!; [done|done|]. exists m1. auto. }
  wtrue; [|done]. wsteps. eapply wpl_store_leaf; [done|done|]. simpl. wsteps.
  split_and!; [done|done|]. eexists. split; [done|].
  assert (Hpv : fork_pte fs v = Z.lor (PA2PTE pa) (share_flags (PTE_FLAGS v))).
  { unfold fork_pte, fork_flags. fold pa. by rewrite HV, HW, Hsh. }
  eapply copied_protect; [done|done|by eapply leaf_store_grow| |by eapply leaf_store_off].
  fold v. rewrite Hpv. apply leaf_store_at; [done|].
  apply PTE_lor_range; [by apply page_ok_pte|apply share_flags_range, PTE_FLAGS_range].
Qed.

Lemma uvmcopy_body_wp sz k m1 T1 fl1 L :
  (k < n)%nat -> pg (Z.of_nat k) < sz -> copied k k k m1 T1 fl1 ->
  avail [shm_lock; kmem_lock; ref_lock] L ->
  wp (uvmcopy_body old new sz (pg (Z.of_nat k))) L (over m1 s) (fun r s' => exists m2 T2 fl2,
    s' = over m2 s /\ (length fl1 <= length fl2 + 2)%nat /\
    (r = inl (pg (Z.of_nat (S k))) /\ copied (S k) (S k) (S k) m2 T2 fl2 \/
     r = inr (Some (pg (Z.of_nat k))) /\ fl2 = [] /\ copied (S k) k k m2 T2 fl2)).
Proof using All.
  intros Hk Hsz Hc HL. destruct (copied_next_pte k m1 T1 fl1 Hk Hc) as [Hov Hnv].
  pose proof (pre_max Hpre) as Hmax.
  assert (Ha : 0 <= pg (Z.of_nat k) < MAXVA) by (unfold PGSIZE in *; lia).
  assert (Hnext : u64 (pg (Z.of_nat k) + PGSIZE) = pg (Z.of_nat (S k))).
  { change MAXVA with (2 ^ 38) in *. rewrite u64_small; unfold PGSIZE in *; lia. }
  assert (Hskip : has_bits (pte_at m To (pg (Z.of_nat k))) PTE_V = false ->
    exists m2 T2 fl2, over m1 s = over m2 s /\ (length fl1 <= length fl2 + 2)%nat /\
    (@inl Z (option Z) (u64 (pg (Z.of_nat k) + PGSIZE)) = inl (pg (Z.of_nat (S k))) /\
       copied (S k) (S k) (S k) m2 T2 fl2 \/
     inl (u64 (pg (Z.of_nat k) + PGSIZE)) = inr (Some (pg (Z.of_nat k))) /\ fl2 = [] /\
       copied (S k) k k m2 T2 fl2)).
  { intros HV. exists m1, T1, fl1. split_and!; [done|lia|]. left. rewrite Hnext. split; [done|].
    by apply copied_skip. }
  set (a := pg (Z.of_nat k)) in *. set (v := pte_at m To a) in *.
  unfold uvmcopy_body. wstep. wtrue; [|done]. wsteps.
  wcall walk_look_wp; [apply Hc|lia|]. intros r m1' [-> ->]. rewrite over_over. unfold slot.
  destruct (To !! vpath a) as [q|] eqn:Hq.
  2:{ wtrue; [|done]. wsteps. split; [done|]. apply Hskip. unfold v, pte_at. by rewrite Hq. }
  wfalse; [|by eapply (slot_nonzero old m1); [apply Hc|]]. wsteps.
  eapply wpl_load_leaf; [apply Hc|done|]. rewrite !view_over, !over_over, Hov.
  destruct (has_bits v PTE_V) eqn:HV; cbn [negb].
  2:{ wsteps. split; [done|]. by apply Hskip. }
  destruct (pre_page Hpre (Z.of_nat k)) as (Hok & _); [lia|done|]. fold a v in Hok.
  wsteps. wcall (protect_wp k m1 T1 fl1 q L); try done; [solve_avail|].
  intros f s' (-> & m2 & -> & Hc2). wsteps.
  wcall (map_page_wp new a (PTE2PA v) (fork_flags fs v) L m2 T1 fl1).
  { apply Hc2. }
  { apply Hc2. }
  { unfold a, PGSIZE. zdiv. }
  { done. }
  { by apply page_ok_pte. }
  { apply fork_flags_range. }
  { rewrite (cp_noff _ _ _ _ _ _ Hc2).
    - apply (pre_empty Hpre). lia.
    - split; [lia|apply MAXVA_VASPACE; lia].
    - unfold a. rewrite pg_vpn. unfold vrange. change (0 / PGSIZE) with 0. lia. }
  { solve_avail. }
  intros r m3 (T3 & fl3 & Hg & Hlen & [(-> & Hp & Ho)|(-> & -> & Ho)]); rewrite over_over.
  - wfalse; [|by intros []]. wsteps. wcall incref_wp; [done|solve_avail|]. intros [] m4 ->.
    rewrite over_over. wsteps. split; [done|]. eexists _, T3, fl3. split_and!; [done|done|]. left.
    rewrite Hnext, view_over. split; [done|]. apply copied_incref; [done| |done].
    eapply copied_mapped; [done|done|done|done| |done].
    fold a v. rewrite Hp. by apply fork_pte_entry.
  - wtrue; [|done]. wsteps. split; [done|]. exists m3, T3, []. split_and!; [done|done|]. right.
    split_and!; [done|done|]. eapply copied_unmapped; [lia|done|done|done].
Qed.

Lemma uvmcopy_loop_wp sz L :
  0 <= sz -> n = Z.to_nat ((sz + PGSIZE - 1) / PGSIZE) ->
  avail [shm_lock; kmem_lock; ref_lock] L ->
  wp (loop (S n) (uvmcopy_body old new sz) 0) L s (fun r s' => exists m2 T2 fl2, s' = over m2 s /\
    (length fl <= length fl2 + 2 * n)%nat /\
    (r = None /\ copied n n n m2 T2 fl2 \/
     exists k, (k < n)%nat /\ r = Some (pg (Z.of_nat k)) /\ fl2 = [] /\ copied (S k) k k m2 T2 fl2)).
Proof using All.
  intros Hsz Hn HL.
  apply (wpl_loop (fun i s1 => exists k m1 T1 fl1, i = pg (Z.of_nat k) /\ (k <= n)%nat /\
      s1 = over m1 s /\ (length fl <= length fl1 + 2 * k)%nat /\ copied k k k m1 T1 fl1) (fun i => (n - Z.to_nat (i / PGSIZE))%nat)).
  - intros i s1 (k & m1 & T1 & fl1 & -> & Hk & -> & Hlen & Hc). destruct (decide (k = n)) as [E|].
    + unfold uvmcopy_body. wstep. wfalse; [|rewrite E, Hn; unfold PGSIZE; zdiv]. wsteps.
      split; [done|]. rewrite E in Hc. exists m1, T1, fl1. split_and!; [done|lia|by left].
    + eapply wp_mono; [apply (uvmcopy_body_wp sz k m1 T1 fl1); [lia| |done|done]|].
      { assert (Z.of_nat k < (sz + PGSIZE - 1) / PGSIZE) by lia. unfold PGSIZE in *. zdiv. }
      intros r s2 (m2 & T2 & fl2 & -> & Hlen2 & [[-> Hc2]|(-> & -> & Hc2)]).
      * split; [exists (S k), m2, T2, fl2; split_and!; [done|lia|done|lia|done]|].
        rewrite !pg_vpn. lia.
      * exists m2, T2, []. split_and!; [done|simpl in *; lia|]. right. exists k. split_and!; [lia|done|done|done].
  - exists 0%nat, m, Tn, fl. split_and!; [done|lia| |lia|apply copied_refl].
    rewrite <- Hs. symmetry. exact (over_view s).
  - change (0 / PGSIZE) with 0. lia.
Qed.

(** The pages the child maps are the parent's. *)
Lemma copied_upages ko k kr m1 T1 fl1 :
  (k <= n)%nat -> copied ko k kr m1 T1 fl1 -> upages m1 T1 0 k = upages m To 0 k.
Proof using All.
  intros Hk Hc.
  assert (Hi : forall i, (i <= k)%nat -> upages m1 T1 0 i = upages m To 0 i).
  { induction i as [|i IH]; intros Hik; [done|]. cbn [upages]. rewrite IH by lia. f_equal.
    rewrite (cp_nptes _ _ _ _ _ _ Hc) by lia. unfold upage.
    destruct (has_bits (pte_at m To _) PTE_V) eqn:HV.
    - destruct (pre_page Hpre (Z.of_nat i)) as (Hok & _); [lia|done|].
      unfold fork_pte. rewrite HV, has_bits_lor, PTE2PA_lor, fork_flags_V;
        try done; try apply fork_flags_range; by apply page_ok_pte.
    - by rewrite (pre_empty Hpre) by lia. }
  by apply Hi.
Qed.

Lemma copied_freeable ko k m1 T1 fl1 :
  (k <= n)%nat -> copied ko k k m1 T1 fl1 -> freeable m1 T1 (upages m To 0 k).
Proof using All.
  intros Hk Hc p (j & Hj & HV & <-)%elem_of_upages.
  destruct (pre_page Hpre j) as (Hok & _ & Hr & _); [lia|done|].
  destruct (copied_page _ _ _ _ _ _ j Hc) as [_ Hnin]; [lia|done|].
  rewrite elem_of_union in Hnin. split_and!; [done|tauto|].
  rewrite (cp_refs _ _ _ _ _ _ Hc); [lia|apply Hok|tauto].
Qed.

(** After a failure: the child maps nothing, the counts are the old ones and no
    page has changed; some of the parent's pages stay write-protected. *)
Record uncopied (ko : nat) (m1 : mem) (T1 : ptree) : Prop := {
  uc_old : pt_rep m1 old To;
  uc_new : pt_rep m1 new T1;
  uc_optes : forall j, 0 <= j < Z.of_nat ko -> pte_at m1 To (pg j) = fork_pte fs (pte_at m To (pg j));
  uc_ooff : ptes_same_off (vrange 0 (Z.of_nat ko)) m To m1 To;
  uc_nptes : forall j, 0 <= j < Z.of_nat n -> has_bits (pte_at m1 T1 (pg j)) PTE_V = false;
  uc_refs : forall p, p mod PGSIZE = 0 -> p ∉ pt_set T1 -> ref m1 p = ref m p;
  uc_same : forall p, p mod PGSIZE = 0 -> p ∉ pt_set To ∪ pt_set T1 -> same_page (ram m) (ram m1) p
}.

Lemma copied_undo ko k m1 T1 fl1 m2 fl2 :
  (k <= n)%nat -> copied ko k k m1 T1 fl1 -> unmaps new m1 T1 fl1 0 k true m2 fl2 ->
  uncopied ko m2 T1 /\ kmem_rep m2 fl2.
Proof using All.
  intros Hk Hc (HT2 & Hr & Hz & Ho). rewrite (copied_upages _ _ _ _ _ _ Hk Hc) in Hr.
  pose proof (copied_disj _ _ _ _ _ _ Hc) as Hd. pose proof (released_agree _ _ _ _ _ _ Hr) as Ha.
  assert (Hdo : pt_set To ## pt_set T1 ∪ list_to_set (upages m To 0 k)).
  { intros p Hp [?|Hin]%elem_of_union; [by apply (Hd p)|].
    apply elem_of_list_to_set, elem_of_upages in Hin as (j & Hj & HV & <-).
    destruct (copied_page _ _ _ _ _ _ j Hc) as [_ Hnin]; [lia|done|]. set_solver. }
  assert (Hrefs : forall p, p mod PGSIZE = 0 -> p ∉ pt_set T1 -> ref m2 p = ref m p).
  { intros p Hal Hnin. rewrite (rl_ref _ _ _ _ _ _ Hr) by done.
    rewrite (cp_refs _ _ _ _ _ _ Hc) by done. lia. }
  assert (Hoe : forall va, pte_at m2 To va = pte_at m1 To va)
    by (intros va; eapply pte_at_agree; [exact Ha|done|apply Hc]).
  split; [|apply Hr]. split; try done.
  - eapply pt_rep_agree; [exact Ha|done|apply Hc].
  - intros j Hj. rewrite Hoe. by apply (cp_optes _ _ _ _ _ _ Hc).
  - intros va Hva Hn. rewrite Hoe. by apply (cp_ooff _ _ _ _ _ _ Hc).
  - intros j Hj. destruct (decide (j < Z.of_nat k)).
    + rewrite Hz by lia. unfold unmapped. by destruct (has_bits (pte_at m1 T1 _) PTE_V) eqn:E.
    + assert (Hnr : ~ vrange 0 (Z.of_nat k) (pg j / PGSIZE))
        by (rewrite pg_vpn; unfold vrange; change (0 / PGSIZE) with 0; lia).
      assert (Hjr : 0 <= pg j < VASPACE) by by apply (pg_range _ n).
      rewrite Ho, (cp_noff _ _ _ _ _ _ Hc) by done. by apply (pre_empty Hpre).
  - intros p Hal Hnin. eapply same_page_trans; [by apply (cp_same _ _ _ _ _ _ Hc)|].
    rewrite elem_of_union in Hnin. apply (rl_same _ _ _ _ _ _ Hr); [done|tauto|].
    destruct (decide (p ∈ upages m To 0 k)) as [Hin|]; [right|by left].
    rewrite Hrefs by tauto. apply elem_of_upages in Hin as (j & Hj & HV & <-).
    destruct (pre_page Hpre j) as (_ & _ & ? & _); [lia|done|lia].
Qed.

Lemma uvmcopy_wp sz L :
  0 <= sz -> n = Z.to_nat ((sz + PGSIZE - 1) / PGSIZE) ->
  avail [shm_lock; kmem_lock; ref_lock] L ->
  wp (uvmcopy old new sz) L s (fun r s' => exists m2 T2 fl2, s' = over m2 s /\ kmem_rep m2 fl2 /\
    (r = 0 /\ (length fl <= length fl2 + 2 * n)%nat /\ copied n n n m2 T2 fl2 \/
     r = -1 /\ (length fl <= 2 * n)%nat /\ exists ko, (ko <= n)%nat /\ uncopied ko m2 T2)).
Proof using All.
  intros Hsz Hn HL. unfold uvmcopy. rewrite <- Hn. wsteps.
  wcall uvmcopy_loop_wp; [done|done|done|].
  intros r s1 (m1 & T1 & fl1 & -> & Hlen & [[-> Hc]|(k & Hk & -> & -> & Hc)]); wsteps.
  - split; [done|]. exists m1, T1, fl1. split_and!; [done|apply Hc|by left].
  - pose proof (pre_max Hpre) as Hmax. rewrite pg_vpn, view_over.
    wcall (uvmunmap_wp new 0 (Z.of_nat k) true L m1 T1 []); try done.
    { apply Hc. }
    { apply Hc. }
    { lia. }
    { unfold PGSIZE in *. lia. }
    { intros _. rewrite Nat2Z.id, (copied_upages _ _ _ _ _ _ (Nat.lt_le_incl _ _ Hk) Hc).
      eapply copied_freeable; [lia|done]. }
    { solve_avail. }
    intros [] m2 [fl2 Hun]. rewrite Nat2Z.id in Hun. rewrite over_over. wsteps. split; [done|].
    destruct (copied_undo (S k) k m1 T1 [] m2 fl2) as [Hu Hk2]; [lia|done|done|].
    exists m2, T1, fl2. split_and!; [done|done|]. right. split_and!; [done|done|]. exists (S k). split; [lia|done].
Qed.
End Copy.

(** * What fork's copy guarantees *)
Section Correctness.
Context `{KernelImage}.

(** The number of pages of [sz] bytes. *)
Definition npages (sz : Z) : nat := Z.to_nat ((sz + PGSIZE - 1) / PGSIZE).


(** A private writable user page, as fork finds it. *)
Definition private_writable (fs : list shm_frame) (v : Z) : Prop :=
  has_bits v PTE_V = true /\ has_bits v PTE_U = true /\ has_bits v PTE_W = true /\
  shared fs (PTE2PA v) = false.

Lemma fork_pte_breakable fs v :
  pte_page (PTE2PA v) -> private_writable fs v ->
  breakable (fork_pte fs v) = true /\ PTE2PA (fork_pte fs v) = PTE2PA v.
Proof.
  intros Hp (HV & HU & HW & Hsh). pose proof (fork_flags_range fs v) as Hr.
  pose proof (PTE_FLAGS_range v) as Hf.
  unfold breakable, fork_pte. rewrite HV, !has_bits_lor, PTE2PA_lor by done. split; [|done].
  rewrite fork_flags_V by done. unfold fork_flags. rewrite has_bits_flags, HW, Hsh by done.
  cbn [andb negb]. rewrite share_flags_W, share_flags_C by done.
  rewrite (share_flags_other _ 4) by (done || lia). change (Z.shiftl 1 4) with PTE_U.
  by rewrite has_bits_flags, HU.
Qed.

Lemma private_fork_flags fs v :
  private_writable fs v -> fork_flags fs v = share_flags (PTE_FLAGS v).
Proof. intros (_ & _ & HW & Hsh). unfold fork_flags. by rewrite has_bits_flags, HW, Hsh by done. Qed.

(** What parent and child see once the child broke the share of page [j]. *)
Lemma fork_cow_facts fs m old new To Tn fl n j m2 T2 p fl2 m3 fl3 :
  let a := 0 + PGSIZE * j in
  let v := pte_at m To a in
  let pa := PTE2PA v in
  copy_pre m old new To Tn fl n -> 0 <= j < Z.of_nat n -> private_writable fs v ->
  copied fs m old new To Tn fl n n n m2 T2 (p :: fl2) -> ref m2 pa = ref m pa + 1 ->
  cow_copy new m2 T2 fl2 a p m3 fl3 ->
  pt_rep m3 old To /\ pt_rep m3 new T2 /\ p <> pa /\
  pte_at m3 T2 a = Z.lor (PA2PTE p) (cow_flags (fork_flags fs v)) /\ page_ok p /\
  (forall i, 0 <= i < PGSIZE -> byte (ram m3) (p + i) = byte (ram m) (pa + i)) /\
  (forall i, 0 <= i < Z.of_nat n -> pte_at m3 To (0 + PGSIZE * i) = fork_pte fs (pte_at m To (0 + PGSIZE * i))) /\
  same_page (ram m) (ram m3) pa /\
  ref m3 p = 1 /\ ref m3 pa = ref m pa.
Proof.
  intros a v pa Hpre Hj Hpw Hc Hr2 Hcc.
  destruct (pre_page _ _ _ _ _ _ _ Hpre j Hj (proj1 Hpw)) as (Hok & _ & Hr & _).
  fold a v pa in Hok, Hr.
  destruct (fork_pte_breakable fs v (page_ok_pte _ Hok) Hpw) as [_ Hpa].
  pose proof (cp_nptes _ _ _ _ _ _ _ _ _ _ _ _ _ Hc j Hj) as Hpte. fold a v in Hpte.
  pose proof (cp_optes _ _ _ _ _ _ _ _ _ _ _ _ _ Hc j Hj) as Hopte. fold a v in Hopte.
  rewrite (proj1 Hpw) in Hpte.
  destruct (copied_page _ _ _ _ _ _ _ _ Hpre _ _ _ _ _ _ _ Hc Hj (proj1 Hpw)) as [_ Hnin].
  fold a v pa in Hnin. rewrite not_elem_of_union in Hnin. destruct Hnin as [Hno Hnn].
  pose proof (cp_kmem _ _ _ _ _ _ _ _ _ _ _ _ _ Hc) as Hk2.
  pose proof (cp_old _ _ _ _ _ _ _ _ _ _ _ _ _ Hc) as HTo.
  pose proof (copied_disj _ _ _ _ _ _ _ _ Hpre _ _ _ _ _ _ Hc) as Hd.
  assert (Hp0 : ref m2 p = 0) by (apply (rep_refs _ _ Hk2); set_solver).
  assert (Hpt : p ∉ pt_set To) by (intros Hin; apply (pt_set_free _ _ _ _ _ HTo Hk2 Hin); set_solver).
  destruct Hcc as [HT3 _ _ Hpte3 _ Hpok _ Hr3 Hb Hr3a Hs3 Ha3]. rewrite Hpte, Hpa in *.
  assert (Hdis : pt_set To ## pt_set T2 ∪ {[p; pa]}) by set_solver.
  assert (Hsame : same_page (ram m) (ram m2) pa).
  { apply (cp_same _ _ _ _ _ _ _ _ _ _ _ _ _ Hc); [apply Hok|]. by rewrite not_elem_of_union. }
  pose proof (cow_flags_range _ (PTE_FLAGS_range (fork_pte fs v))) as Hcf.
  pose proof (page_ok_pte _ Hpok) as Hpp.
  split_and!; try done.
  - by eapply pt_rep_agree.
  - intros ->. lia.
  - rewrite Hpte3. do 2 f_equal. unfold fork_pte. rewrite (proj1 Hpw).
    apply PTE_FLAGS_lor; [by apply page_ok_pte|apply fork_flags_range].
  - intros i Hi. rewrite Hb by done. symmetry. apply Hsame. lia.
  - intros i Hi. rewrite (pte_at_agree _ m2 m3 old To _ Ha3 Hdis HTo).
    by apply (cp_optes _ _ _ _ _ _ _ _ _ _ _ _ _ Hc).
  - eapply same_page_trans; [done|]. apply Hs3. change (ref m2 pa <> 1). lia.
  - change (ref m3 pa = ref m2 pa - 1) in Hr3a. lia.
Qed.

End Correctness.
