(* ===== verification/UserMem.v ===== *)
(** User memory, kernel/vm.c: [vmfault] allocates lazily grown memory on first
    use; [copyin], [copyinstr] and [copyout] move bytes between the kernel and a
    user address space.  The kernel side of a copy is a list of bytes. *)
From S2P Require Import Prelude Riscv PhysMem Kalloc PageTable Vm Cow Shm.
Local Open Scope Z_scope.

(** * The operations *)
Section Operations.
Context `{KernelImage}.

(** The argument [read] is not used. *)
Definition vmfault (pagetable va : Z) : M vms Z :=
  sz ← gets p_sz;
  if decide (va >= sz) then mret 0
  else
    let va := PGROUNDDOWN va in
    m ← zoom (ismapped pagetable va);
    if decide (m <> 0) then mret 0
    else
      mem ← zoom kalloc;
      if decide (mem = 0) then mret 0
      else
        zoom (memset mem 0 PGSIZE);;
        pt ← gets p_pagetable;
        r ← zoom (mappages pt va PGSIZE mem (Z.lor (Z.lor PTE_W PTE_U) PTE_R));
        if decide (r <> 0) then zoom (kfree mem);; mret 0
        else mret mem.

(** The length of the piece of a copy that starts at [va]: up to the end of the
    page, at most [len]. *)
Definition piece (va len : Z) : Z :=
  let n := PGSIZE - (va - PGROUNDDOWN va) in
  if decide (n > len) then len else n.

(** The page of [va], faulted in when it is missing; 0 if that fails. *)
Definition user_page (pagetable va0 : Z) : M vms Z :=
  pa0 ← zoom (walkaddr pagetable va0);
  if decide (pa0 = 0) then vmfault pagetable va0 else mret pa0.

Definition copyin_body (pagetable : Z) (x : Z * Z * list Z) : M vms ((Z * Z * list Z) + (Z * list Z)) :=
  let '(srcva, len, dst) := x in
  if decide (len > 0)
  then
    let va0 := PGROUNDDOWN srcva in
    pa0 ← user_page pagetable va0;
    if decide (pa0 = 0) then mret (inr (-1, dst))
    else
      let n := piece srcva len in
      bs ← zoom (memmove_from (pa0 + (srcva - va0)) n);
      mret (inl (u64 (va0 + PGSIZE), len - n, dst ++ bs))
  else mret (inr (0, dst)).

(** The result and the bytes written to [dst]. *)
Definition copyin (pagetable srcva len : Z) : M vms (Z * list Z) :=
  loop (S (Z.to_nat len)) (copyin_body pagetable) (srcva, len, []).

(** The entry of [va0] made writable: copyout's own copy-on-write.  Returns the
    page to write to, 0 for the error exits. *)
Definition writable_page (pagetable va0 pa0 : Z) : M mem Z :=
  pte ← walk pagetable va0 false;
  v ← load64 pte;
  if has_bits v PTE_W then mret pa0
  else if has_bits v PTE_C
  then
    let pa := PTE2PA v in
    mem ← kalloc;
    if decide (mem = 0) then mret 0
    else
      memmove mem pa PGSIZE;;
      store64 pte (Z.lor (PA2PTE mem) (cow_flags (PTE_FLAGS v)));;
      kfree pa;;
      mret mem
  else mret 0.

Definition copyout_body (pagetable : Z) (x : Z * list Z) : M vms ((Z * list Z) + Z) :=
  let '(dstva, src) := x in
  let len := Z.of_nat (length src) in
  if decide (len > 0)
  then
    let va0 := PGROUNDDOWN dstva in
    if decide (va0 >= MAXVA) then mret (inr (-1))
    else
      pa0 ← user_page pagetable va0;
      if decide (pa0 = 0) then mret (inr (-1))
      else
        pa0 ← zoom (writable_page pagetable va0 pa0);
        if decide (pa0 = 0) then mret (inr (-1))
        else
          let n := piece dstva len in
          zoom (memmove_to (pa0 + (dstva - va0)) (take (Z.to_nat n) src));;
          mret (inl (u64 (va0 + PGSIZE), drop (Z.to_nat n) src))
  else mret (inr 0).

(** [src] holds the [len] bytes to copy. *)
Definition copyout (pagetable dstva : Z) (src : list Z) : M vms Z :=
  loop (S (length src)) (copyout_body pagetable) (dstva, src).

Definition load8 (a : Z) : M mem Z :=
  if decide (ram_ok a 1) then gets (fun s => byte (ram s) a) else undef "load".

(** The inner loop of copyinstr over [n] bytes at [p]: whether the terminator
    was met, and the bytes written. *)
Fixpoint copy_str (n : nat) (p : Z) (dst : list Z) : M mem (bool * list Z) :=
  match n with
  | O => mret (false, dst)
  | S k =>
      c ← load8 p;
      if decide (c = 0) then mret (true, dst ++ [0]) else copy_str k (p + 1) (dst ++ [c])
  end.

Definition copyinstr_body (pagetable : Z) (x : Z * Z * list Z) :
    M mem ((Z * Z * list Z) + (Z * list Z)) :=
  let '(srcva, max, dst) := x in
  if decide (max > 0)
  then
    let va0 := PGROUNDDOWN srcva in
    pa0 ← walkaddr pagetable va0;
    if decide (pa0 = 0) then mret (inr (-1, dst))
    else
      let n := piece srcva max in
      r ← copy_str (Z.to_nat n) (pa0 + (srcva - va0)) dst;
      if r.1 : bool then mret (inr (0, r.2))
      else mret (inl (u64 (va0 + PGSIZE), max - n, r.2))
  else mret (inr (-1, dst)).

Definition copyinstr (pagetable srcva max : Z) : M mem (Z * list Z) :=
  loop (S (Z.to_nat max)) (copyinstr_body pagetable) (srcva, max, []).
End Operations.

(** * User memory as a function from virtual addresses to bytes *)
Section View.
Context `{KernelImage}.
Implicit Types (m : mem) (T : ptree).

(** The entry lets user code read the page. *)
Definition readable (v : Z) : bool := has_bits v PTE_V && has_bits v PTE_U.

Definition umem m T (va : Z) : option Z :=
  if decide (0 <= va < MAXVA) then
    if readable (pte_at m T va)
    then Some (byte (ram m) (PTE2PA (pte_at m T va) + (va - PGROUNDDOWN va))) else None
  else None.

(** User pages are data pages with a reference. *)
Definition uvalid m T : Prop :=
  forall va, 0 <= va < MAXVA -> readable (pte_at m T va) = true ->
    data_page m T (PTE2PA (pte_at m T va)).

(** Addresses in the page of [va]. *)
Lemma same_vpage va i :
  0 <= i -> va - PGROUNDDOWN va + i < PGSIZE ->
  PGROUNDDOWN (va + i) = PGROUNDDOWN va /\ (va + i) / PGSIZE = PGROUNDDOWN va / PGSIZE.
Proof. rewrite !PGROUNDDOWN_eq. unfold PGSIZE. intros. split; zdiv. Qed.

Lemma piece_bounds va len :
  0 < len -> 0 < piece va len <= len /\ va - PGROUNDDOWN va + piece va len <= PGSIZE.
Proof.
  intros Hl. pose proof (PGROUNDDOWN_bounds va). unfold piece. case_decide; lia.
Qed.

(** A piece shorter than the rest of the copy ends its page. *)
Lemma piece_end va len :
  piece va len < len -> va + piece va len = PGROUNDDOWN va + PGSIZE.
Proof. unfold piece. case_decide; lia. Qed.

Lemma PGROUNDDOWN_nonneg va : 0 <= va -> 0 <= PGROUNDDOWN va.
Proof. rewrite PGROUNDDOWN_eq. unfold PGSIZE. intros. zdiv. Qed.

Lemma PGROUNDDOWN_max va : PGROUNDDOWN va < MAXVA -> va < MAXVA.
Proof. rewrite PGROUNDDOWN_eq. change MAXVA with (2 ^ 38). unfold PGSIZE. intros. zdiv. Qed.

(** The bytes of a piece of a readable page. *)
Lemma umem_piece m T va i :
  0 <= va -> PGROUNDDOWN va < MAXVA -> readable (pte_at m T (PGROUNDDOWN va)) = true ->
  0 <= i -> va - PGROUNDDOWN va + i < PGSIZE ->
  umem m T (va + i) =
    Some (byte (ram m) (PTE2PA (pte_at m T (PGROUNDDOWN va)) + (va - PGROUNDDOWN va) + i)).
Proof.
  intros Hva Hm Hr Hi Hp. destruct (same_vpage va i Hi Hp) as [Hd Hv].
  unfold umem. rewrite (pte_at_page m T (va + i) (PGROUNDDOWN va)) by done.
  rewrite decide_True; [rewrite Hr, Hd; do 2 f_equal; lia|].
  split; [lia|]. apply PGROUNDDOWN_max. by rewrite Hd.
Qed.

(** An unreadable page has no bytes. *)
Lemma umem_unreadable m T va :
  ~ (PGROUNDDOWN va < MAXVA /\ readable (pte_at m T (PGROUNDDOWN va)) = true) -> umem m T va = None.
Proof.
  intros Hn. unfold umem. case_decide as Hr; [|done].
  rewrite (pte_at_page m T va (PGROUNDDOWN va)).
  - destruct (readable _) eqn:E; [|done]. destruct Hn. split; [|done].
    pose proof (PGROUNDDOWN_bounds va). lia.
  - rewrite PGROUNDDOWN_eq. unfold PGSIZE. zdiv.
Qed.
End View.

(** * copyinstr *)
Section Copyinstr.
Context `{KernelImage}.
Implicit Types (m : mem) (T : ptree) (L : list lock).

Lemma wpl_load8 a L m Q : ram_ok a 1 -> Q (byte (ram m) a) L m -> wpl (load8 a) L m Q.
Proof. intros. unfold load8. by rewrite decide_True. Qed.

(** The bytes [l] are those at [p] and none of them is 0. *)
Definition nonzero_at m (p : Z) (l : list Z) : Prop :=
  forall i b, l !! i = Some b -> b <> 0 /\ b = byte (ram m) (p + Z.of_nat i).

Lemma copy_str_wp n p dst L m :
  ram_ok p (Z.of_nat n) ->
  wp (copy_str n p dst) L m (fun r m' => m' = m /\ exists l, nonzero_at m p l /\
    (r = (true, dst ++ l ++ [0]) /\ (length l < n)%nat /\ byte (ram m) (p + Z.of_nat (length l)) = 0 \/
     r = (false, dst ++ l) /\ length l = n)).
Proof.
  revert p dst. induction n as [|n IH]; intros p dst Hok; simpl.
  { wsteps. split_and!; [done|done|]. exists []. split; [by intros ? ? ?|]. right.
    by rewrite app_nil_r. }
  assert (Hok1 : ram_ok p 1 /\ ram_ok (p + 1) (Z.of_nat n)) by (unfold ram_ok in *; lia).
  wsteps. apply wpl_load8; [apply Hok1|]. wcase as Hc.
  { wsteps. split_and!; [done|done|]. exists []. split; [by intros ? ? ?|]. left.
    simpl. rewrite Z.add_0_r. split_and!; [done|lia|done]. }
  eapply wpl_call; [apply IH, Hok1|]. intros r m' (-> & l & Hl & Hr). split_and!; [done|done|].
  exists (byte (ram m) p :: l). split.
  - intros [|i] b; simpl.
    + intros [= <-]. by rewrite Z.add_0_r.
    + intros Hb. apply Hl in Hb as [? ->]. split; [done|]. f_equal. lia.
  - simpl. destruct Hr as [(-> & Hlt & Hz)|(-> & <-)]; [left|right].
    + rewrite <- app_assoc. split_and!; [done|lia|]. rewrite <- Hz. f_equal. lia.
    + by rewrite <- app_assoc.
Qed.

(** The bytes [l] are the user bytes from [va] and none of them is 0. *)
Definition ustring m T (va : Z) (l : list Z) : Prop :=
  forall i b, l !! i = Some b -> b <> 0 /\ umem m T (va + Z.of_nat i) = Some b.

Lemma ustring_app m T va l l' :
  ustring m T va l -> ustring m T (va + Z.of_nat (length l)) l' -> ustring m T va (l ++ l').
Proof.
  intros H1 H2 i b [Hi|[Hge Hi]]%lookup_app_Some; [by apply H1|].
  apply H2 in Hi as [? Hi]. split; [done|]. rewrite <- Hi. f_equal. lia.
Qed.

(** The outcome of scanning a string of at most [max] bytes at [va]. *)
Definition str_result m T (va max : Z) (r : Z * list Z) : Prop :=
  exists l, ustring m T va l /\
    (r = (0, l ++ [0]) /\ Z.of_nat (length l) < max /\
       umem m T (va + Z.of_nat (length l)) = Some 0 \/
     r = (-1, l) /\ Z.of_nat (length l) <= max /\
       (Z.of_nat (length l) = max \/ umem m T (va + Z.of_nat (length l)) = None)).

Lemma copyinstr_body_wp root srcva max l L m T :
  let va := srcva + Z.of_nat (length l) in
  let mx := max - Z.of_nat (length l) in
  pt_rep m root T -> uvalid m T -> 0 <= va -> 0 < mx -> ustring m T srcva l ->
  wp (copyinstr_body root (va, mx, l)) L m (fun r m' => m' = m /\
    match r with
    | inr res => str_result m T srcva max res
    | inl (va', mx', l') => exists n, 0 < n <= mx /\ mx' = mx - n /\
        Z.of_nat (length l') = Z.of_nat (length l) + n /\ ustring m T srcva l' /\
        (0 < mx' -> va' = va + n)
    end).
Proof.
  intros va mx HT Hu Hva Hmx Hl. unfold copyinstr_body. wstep. wtrue; [|lia]. wstep.
  wcall walkaddr_wp; [done|]. intros pa m' [-> Hpa]. fold (readable (pte_at m T (PGROUNDDOWN va))) in Hpa.
  destruct (decide (PGROUNDDOWN va < MAXVA /\ readable (pte_at m T (PGROUNDDOWN va)) = true))
    as [[Hm Hr]|Hn]; rewrite Hpa; clear Hpa.
  2:{ wtrue; [|done]. wsteps. split_and!; [done|done|]. exists l. split; [done|]. right.
      split_and!; [done|unfold mx in *; lia|right; by apply umem_unreadable]. }
  destruct (Hu (PGROUNDDOWN va)) as (Hok & _ & _); [split; [by apply PGROUNDDOWN_nonneg|done]|done|].
  set (p := PTE2PA (pte_at m T (PGROUNDDOWN va))) in *.
  pose proof (page_ok_pos _ Hok). wfalse; [|unfold KERNBASE in *; lia].
  destruct (piece_bounds va mx Hmx) as [Hpb Hpe]. pose proof (PGROUNDDOWN_bounds va).
  assert (Hum : forall i, 0 <= i < piece va mx ->
    umem m T (va + i) = Some (byte (ram m) (p + (va - PGROUNDDOWN va) + i)))
    by (intros i Hi; apply umem_piece; [done|done|done|lia|lia]).
  wsteps. wcall copy_str_wp.
  { rewrite Z2Nat.id by lia. pose proof (page_ok_whole _ Hok). unfold ram_ok in *. lia. }
  intros r m' (-> & l' & Hl' & Hr').
  assert (Hl2 : (length l' <= Z.to_nat (piece va mx))%nat) by (destruct Hr' as [(_ & ? & _)|[_ ?]]; lia).
  assert (Hus : ustring m T va l').
  { intros i b Hb. pose proof (lookup_lt_Some _ _ _ Hb). apply Hl' in Hb as [? ->].
    split; [done|]. apply Hum. lia. }
  pose proof (ustring_app m T srcva l l' Hl Hus) as Hus2.
  destruct Hr' as [(-> & Hlt & Hz)|(-> & Hlen)]; simpl; wsteps.
  - split_and!; [done|done|]. exists (l ++ l'). rewrite length_app. split; [done|]. left.
    rewrite <- app_assoc. unfold va, mx in *. split_and!; [done|lia|].
    rewrite Nat2Z.inj_add, Z.add_assoc, Hum by lia. by rewrite Hz.
  - split_and!; [done|done|]. exists (piece va mx). rewrite length_app, Hlen.
    split_and!; [lia|lia|done|lia|done|]. intros Hpos. rewrite piece_end by lia.
    change MAXVA with (2 ^ 38) in Hm. apply u64_small. pose proof (PGROUNDDOWN_nonneg va Hva).
    unfold PGSIZE in *. lia.
Qed.

(** copyinstr, on a well-formed user table, always returns and changes
    nothing.  It returns 0 exactly when the first zero byte of the user string
    comes within [max] bytes and everything before it is readable, having copied
    the string with its terminator; otherwise it returns -1. *)
Theorem copyinstr_correct root srcva max L m T :
  pt_rep m root T -> uvalid m T -> 0 <= srcva -> 0 <= max ->
  wp (copyinstr root srcva max) L m (fun r m' => m' = m /\ str_result m T srcva max r).
Proof.
  intros HT Hu Hva Hmax. unfold copyinstr.
  apply (wpl_loop (fun x m1 => m1 = m /\ exists l, x.2 = l /\ x.1.2 = max - Z.of_nat (length l) /\
      0 <= x.1.2 /\ ustring m T srcva l /\ (0 < x.1.2 -> x.1.1 = srcva + Z.of_nat (length l)))
    (fun x => Z.to_nat x.1.2)).
  - intros [[va mx] l'] m1 (-> & l & Hx & Hmx & Hge & Hl & Hv). simpl in *. subst l' mx.
    destruct (decide (max - Z.of_nat (length l) = 0)) as [E|Hne].
    + unfold copyinstr_body. wstep. wfalse; [|lia]. wsteps. split_and!; [done|done|].
      exists l. split; [done|]. right. split_and!; [done|lia|left; lia].
    + rewrite Hv by lia. eapply wp_mono; [apply (copyinstr_body_wp root srcva max l L m T); try done; lia|].
      intros [[[va' mx'] l']|res] m2 (-> & Hres); [|done].
      destruct Hres as (n & Hn & -> & Hlen & Hl2 & Hv2). simpl. split; [split; [done|]|lia].
      exists l'. split_and!; [done|lia|lia|done|]. intros Hp. rewrite Hv2 by done. lia.
  - split; [done|]. exists []. simpl. split_and!; [done|lia|lia|by intros ? ? ?|lia].
  - simpl. lia.
Qed.
End Copyinstr.

(** * Lazy allocation *)
Section Fault.
Context `{KernelImage}.
Implicit Types (m : mem) (T : ptree) (fl : list Z) (L : list lock) (s : vms).

Definition lazy_perm : Z := Z.lor (Z.lor PTE_W PTE_U) PTE_R.

(** vmfault returns 0 having at most extended the page table, when [va] is not below
    the size or is mapped already, or memory runs out; or it maps one zeroed page at
    the page of [va]. *)
Lemma vmfault_wp va L s T fl :
  let root := p_pagetable s in
  let a := PGROUNDDOWN va in
  pt_rep (vm_mem s) root T -> kmem_rep (vm_mem s) fl -> 0 <= va -> p_sz s <= MAXVA ->
  avail [kmem_lock; ref_lock] L ->
  wp (vmfault root va) L s (fun r s' => exists m' T' fl', s' = over m' s /\
    ((r = 0 /\ grown root (vm_mem s) T fl a lazy_perm [] m' T' fl' /\
        (p_sz s <= va \/ has_bits (pte_at (vm_mem s) T a) PTE_V = true \/ (length fl' <= 1)%nat)) \/
     (r <> 0 /\ va < p_sz s /\ has_bits (pte_at (vm_mem s) T a) PTE_V = false /\
        grown root (vm_mem s) T fl a lazy_perm [r] m' T' fl'))).
Proof.
  intros root a HT Hk Hva Hsz HL. unfold vmfault.
  pose proof (PGROUNDDOWN_bounds va) as Hb. pose proof (PGROUNDDOWN_nonneg va Hva) as H0.
  pose proof (PGROUNDDOWN_aligned va) as Hal. fold a in Hb, H0, Hal.
  assert (Hperm : 0 <= lazy_perm < 1024) by done.
  pose proof (grown_refl root (vm_mem s) T fl a lazy_perm HT Hk Hal H0 Hperm) as Hrefl.
  assert (Hid : s = over (vm_mem s) s) by (symmetry; exact (over_view s)).
  wsteps. wcase as Hd; [wsteps; split; [done|]; exists (vm_mem s), T, fl; split; [done|]; left; split_and!; try done; left; lia|].
  wsteps. fold a. wcall ismapped_wp; [done|unfold a in *; lia|]. intros r m' [-> ->].
  rewrite over_view. destruct (has_bits (pte_at (view s) T a) PTE_V) eqn:HV.
  { wtrue; [|done]. wsteps. split; [done|]. exists (vm_mem s), T, fl. split; [done|]. left. auto. }
  wfalse; [|by intros []]. wsteps. wcall kalloc_wp; [done|done|]. intros p m1 Hal1.
  destruct fl as [|q fl1].
  { destruct Hal1 as [-> ->]. wtrue; [|done]. wsteps. split; [done|]. exists (vm_mem s), T, []. split; [done|]. left. split_and!; try done. right. right. simpl. lia. }
  destruct Hal1 as [-> Hal1]. pose proof (alloc_page _ _ _ _ Hal1) as Hq.
  pose proof (page_ok_pos _ Hq). assert (q <> 0) by (unfold KERNBASE in *; lia).
  wfalse; [|done]. wsteps. apply wpl_memset; [by apply page_ok_whole|]. rewrite !view_over, !over_over.
  set (m2 := set_ram _ m1). wsteps. simpl p_pagetable. fold root.
  assert (Hf : fresh root (vm_mem s) T fl1 q m2).
  { eapply fresh_fill; try done. apply agree_memset, Hq. }
  assert (Hz : zero_page (ram m2) q).
  { intros x Hx. simpl. rewrite byte_memset, decide_True; [done|]. by rewrite Z2Nat.id. }
  wcall (map_fresh_wp root a lazy_perm L (vm_mem s) T q fl1 m2); try done; [lia|].
  intros r m3 (T3 & fl3 & used & HT3 & Hk3 & Hsub & Hu & Hs & Hr3 & Hpt & Hsame & Hag & _ & Hor).
  destruct Hor as [(-> & Hp & Ho)|(-> & -> & Ho)].
  - wfalse; [|by intros []]. wsteps. split; [done|]. rewrite over_over. exists m3, T3, fl3.
    split; [done|]. right. split_and!; [done|lia|done|].
    rewrite <- (app_nil_l [q]).
    eapply (grown_snoc root (vm_mem s) T (q :: fl1) a lazy_perm HT Hk Hal H0 Hperm []); try done;
      simpl; rewrite ?Z.mul_0_r, ?Z.add_0_r; try done; [lia|].
    intros x Hx. rewrite <- Hsame by done. by apply Hz.
  - wtrue; [|done]. wsteps. rewrite !view_over.
    wcall (kfree_last_wp q L m3 []); [done|done|done|done|].
    intros [] m4 (Hk4 & Hr4 & Ha4). wsteps. split; [done|]. rewrite !over_over. rewrite app_nil_r in Hu.
    exists m4, T3, [q]. split; [done|]. left. split; [done|]. split; [|right; right; simpl; lia].
    eapply (grown_keep root (vm_mem s) T (q :: fl1) a lazy_perm HT Hk Hal H0 Hperm
      [] (vm_mem s) T (q :: fl1) m4 T3 [q] used); try done.
    + eapply pt_rep_agree; [done|set_solver|done].
    + rewrite Hu. solve_Permutation.
    + intros x Hx Hn. rewrite <- Ho by done. eapply pte_at_agree; [done|set_solver|done].
    + simpl. lia.
    + eapply agree_off_trans; eapply agree_off_mono; [done|set_solver|done|set_solver].
Qed.
End Fault.

(** * Extension of an address space by lazily allocated pages *)
Section Extend.
Context `{KernelImage}.
Implicit Types (m : mem) (T : ptree) (fl : list Z) (L : list lock) (s : vms).

(** The table of [m'] maps what that of [m] does, and perhaps more pages below
    [sz], all of them zero and taken off the free list. *)
Record uext root sz m T fl m' T' fl' : Prop := {
  ux_rep : pt_rep m' root T';
  ux_kmem : kmem_rep m' fl';
  ux_out : forall p, p ∈ pt_set T' -> p ∈ pt_set T \/ p ∈ fl;
  ux_sub : forall p, p ∈ pt_set T -> p ∈ pt_set T';
  ux_free : forall p, p ∈ fl' -> p ∈ fl;
  ux_keep : forall va, 0 <= va < VASPACE -> has_bits (pte_at m T va) PTE_V = true ->
    pte_at m' T' va = pte_at m T va;
  ux_new : forall va, 0 <= va < VASPACE -> has_bits (pte_at m T va) PTE_V = false ->
    has_bits (pte_at m' T' va) PTE_V = true ->
    exists p, pte_at m' T' va = pte_entry p lazy_perm /\ page_ok p /\ PGROUNDDOWN va < sz /\ (p ∈ fl) /\
      (p ∉ fl') /\ (p ∉ pt_set T') /\ ref m' p = 1 /\ zero_page (ram m') p;
  ux_inj : forall va va', 0 <= va < VASPACE -> 0 <= va' < VASPACE ->
    has_bits (pte_at m T va) PTE_V = false -> has_bits (pte_at m T va') PTE_V = false ->
    has_bits (pte_at m' T' va) PTE_V = true -> pte_at m' T' va = pte_at m' T' va' ->
    va / PGSIZE = va' / PGSIZE;
  ux_agree : agree_off (pt_set T' ∪ list_to_set fl) m m'
}.

Lemma uext_refl root sz m T fl :
  pt_rep m root T -> kmem_rep m fl -> uext root sz m T fl m T fl.
Proof.
  intros. split; try done; [auto|..].
  - intros va _ Hn Hy. congruence.
  - intros va va' _ _ Hn _ Hy _. congruence.
Qed.

Lemma uext_trans root sz m1 T1 fl1 m2 T2 fl2 m3 T3 fl3 :
  uext root sz m1 T1 fl1 m2 T2 fl2 -> uext root sz m2 T2 fl2 m3 T3 fl3 ->
  uext root sz m1 T1 fl1 m3 T3 fl3.
Proof.
  intros [R1 K1 O1 S1 F1 P1 N1 I1 A1] [R2 K2 O2 S2 F2 P2 N2 I2 A2]. split; try done.
  - intros p [?|?]%O2; [auto|]. right. auto.
  - auto.
  - auto.
  - intros va Hva HV. pose proof (P1 va Hva HV) as E. rewrite P2; [done|done|by rewrite E].
  - intros va Hva HV HV3. destruct (has_bits (pte_at m2 T2 va) PTE_V) eqn:HV2.
    + destruct (N1 va Hva HV HV2) as (p & Hp & Hok & Hlt & Hin & Hnf & Hnt & Hr & Hz).
      exists p. rewrite P2 by done. assert (Hn3 : p ∉ pt_set T3) by (intros [?|?]%O2; auto).
      destruct (A2 p) as [Hs ->]; [apply Hok|set_solver|]. split_and!; try done; [by auto|].
      intros x Hx. rewrite <- Hs by done. by apply Hz.
    + destruct (N2 va Hva HV2 HV3) as (p & Hp & Hok & Hlt & Hin & Hrest). exists p. auto 6.
  - assert (Hcase : forall x y, 0 <= x < VASPACE -> 0 <= y < VASPACE ->
      has_bits (pte_at m1 T1 x) PTE_V = false -> has_bits (pte_at m2 T2 x) PTE_V = true ->
      has_bits (pte_at m2 T2 y) PTE_V = false -> has_bits (pte_at m3 T3 y) PTE_V = true ->
      pte_at m3 T3 x = pte_at m3 T3 y -> False).
    { intros x y Hx Hy Hx1 Hx2 Hy2 Hy3 E. rewrite (P2 x Hx Hx2) in E.
      destruct (N1 x Hx Hx1 Hx2) as (p & Hp & Hpok & _ & _ & Hpf & _).
      destruct (N2 y Hy Hy2 Hy3) as (q & Hq & Hqok & _ & Hqf & _). rewrite Hp, Hq in E.
      apply (f_equal PTE2PA) in E. rewrite !pte_entry_pa in E by (done || by apply page_ok_pte).
      by subst q. }
    intros x y Hx Hy Hx1 Hy1 Hx3 E. assert (Hy3 : has_bits (pte_at m3 T3 y) PTE_V = true) by by rewrite <- E.
    destruct (has_bits (pte_at m2 T2 x) PTE_V) eqn:Hx2, (has_bits (pte_at m2 T2 y) PTE_V) eqn:Hy2.
    + apply I1; try done. by rewrite <- (P2 x Hx Hx2), <- (P2 y Hy Hy2).
    + by destruct (Hcase x y).
    + by destruct (Hcase y x).
    + by apply I2.
  - eapply agree_off_trans; eapply agree_off_mono; [exact A1| |exact A2|].
    + intros p. rewrite !elem_of_union. intros [?|?]; auto.
    + intros p. rewrite !elem_of_union, !elem_of_list_to_set. intros [?|?]; auto.
Qed.

(** The steps of vmfault are extensions. *)
Lemma grown_uext root sz m T fl a ps m' T' fl' :
  pt_rep m root T -> kmem_rep m fl -> a mod PGSIZE = 0 -> 0 <= a -> (length ps <= 1)%nat ->
  (ps <> [] -> a < sz /\ has_bits (pte_at m T a) PTE_V = false) ->
  grown root m T fl a lazy_perm ps m' T' fl' -> uext root sz m T fl m' T' fl'.
Proof.
  intros HT Hk Hal Ha Hlen Hps Hg. assert (Hperm : 0 <= lazy_perm < 1024) by done.
  pose proof (gw_perm _ _ _ _ _ _ _ _ _ _ Hg) as (used & Hp & Hs).
  assert (Hoff : forall va, 0 <= va < VASPACE -> va / PGSIZE <> a / PGSIZE \/ ps = [] ->
    pte_at m' T' va = pte_at m T va).
  { intros va Hva Hor. apply (gw_off _ _ _ _ _ _ _ _ _ _ Hg); [done|]. unfold vrange.
    destruct Hor as [?|E]; [|rewrite E; simpl]; lia. }
  split.
  - apply Hg.
  - apply Hg.
  - intros p. rewrite Hs, Hp. set_solver.
  - rewrite Hs. set_solver.
  - intros p Hin. rewrite Hp. set_solver.
  - intros va Hva HV. apply Hoff; [done|]. destruct (decide (ps = [])) as [|Hne]; [by right|left].
    intros E. rewrite (pte_at_page m T va a E) in HV. destruct (Hps Hne). congruence.
  - intros va Hva HV HV'. destruct ps as [|p [|??]]; simpl in Hlen; [|clear Hlen|lia].
    { rewrite Hoff in HV' by auto. congruence. }
    destruct (decide (va / PGSIZE = a / PGSIZE)) as [E|]; [|rewrite Hoff in HV' by auto; congruence].
    destruct (grown_page root m T fl a lazy_perm HT Hk Hal Ha Hperm _ _ _ _ p Hg)
      as (Hok & Hin & Hnt & Hnf); [set_solver|].
    exists p. rewrite (pte_at_page m' T' va a E). split_and!; try done.
    + rewrite <- (Z.add_0_r a). change 0 with (PGSIZE * Z.of_nat 0).
      by apply (gw_ptes _ _ _ _ _ _ _ _ _ _ Hg).
    + destruct Hps as [Hlt _]; [done|]. rewrite PGROUNDDOWN_eq. unfold PGSIZE in *. zdiv.
    + apply (gw_ref _ _ _ _ _ _ _ _ _ _ Hg). set_solver.
    + apply (gw_zero _ _ _ _ _ _ _ _ _ _ Hg). set_solver.
  - assert (Hnew : forall va, 0 <= va < VASPACE -> has_bits (pte_at m T va) PTE_V = false ->
      has_bits (pte_at m' T' va) PTE_V = true -> va / PGSIZE = a / PGSIZE).
    { intros va Hva H0 H1'. destruct (decide (va / PGSIZE = a / PGSIZE)); [done|].
      rewrite Hoff in H1' by auto. congruence. }
    intros va va' Hva Hva' H0 H0' HV E. rewrite (Hnew va), (Hnew va'); try done. by rewrite <- E.
  - apply Hg.
Qed.

(** The pages in use before an extension are untouched by it. *)
Lemma uext_data root sz m T fl m' T' fl' p :
  kmem_rep m fl -> uext root sz m T fl m' T' fl' -> data_page m T p ->
  data_page m' T' p /\ same_page (ram m) (ram m') p /\ ref m' p = ref m p.
Proof.
  intros Hk Hx (Hok & Hnt & Hr).
  assert (Hnf : p ∉ fl) by (intros Hin; rewrite (rep_refs _ _ Hk) in Hr by done; lia).
  assert (Hnt' : p ∉ pt_set T') by (intros [?|?]%(ux_out _ _ _ _ _ _ _ _ Hx); auto).
  destruct (ux_agree _ _ _ _ _ _ _ _ Hx p) as [Hs Hre]; [apply Hok|set_solver|].
  unfold data_page. by rewrite Hre.
Qed.

Lemma uext_uvalid root sz m T fl m' T' fl' :
  kmem_rep m fl -> uext root sz m T fl m' T' fl' -> uvalid m T -> uvalid m' T'.
Proof.
  intros Hk Hx Hu va Hva Hr. assert (Hvs : 0 <= va < VASPACE) by (split; [lia|apply MAXVA_VASPACE; lia]).
  unfold readable in Hr. rewrite andb_true_iff in Hr. destruct Hr as [HV HU].
  destruct (has_bits (pte_at m T va) PTE_V) eqn:HV0.
  - pose proof (ux_keep _ _ _ _ _ _ _ _ Hx va Hvs HV0) as E. rewrite E in *.
    eapply uext_data; [done|done|]. apply Hu; [done|]. unfold readable. by rewrite HV0, HU.
  - destruct (ux_new _ _ _ _ _ _ _ _ Hx va Hvs HV0 HV) as (p & -> & Hok & _ & _ & _ & Hnt & Hre & _).
    rewrite pte_entry_pa by (done || by apply page_ok_pte). split_and!; [done|done|lia].
Qed.

(** User bytes survive an extension, and new ones are zero. *)
Lemma uext_umem root sz m T fl m' T' fl' va b :
  kmem_rep m fl -> uext root sz m T fl m' T' fl' -> uvalid m T ->
  umem m T va = Some b -> umem m' T' va = Some b.
Proof.
  intros Hk Hx Hu. unfold umem. case_decide as Hva; [|done].
  destruct (readable (pte_at m T va)) eqn:Hr; [|done]. intros [= <-].
  pose proof (Hu va Hva Hr) as Hd. unfold readable in *. rewrite andb_true_iff in Hr.
  destruct Hr as [HV HU].
  rewrite (ux_keep _ _ _ _ _ _ _ _ Hx) by (done || (split; [lia|apply MAXVA_VASPACE; lia])).
  rewrite HV, HU. simpl. f_equal. symmetry.
  destruct (uext_data _ _ _ _ _ _ _ _ _ Hk Hx Hd) as (_ & Hs & _). apply Hs.
  pose proof (PGROUNDDOWN_bounds va). lia.
Qed.

Lemma uext_new_zero root sz m T fl m' T' fl' va b :
  uext root sz m T fl m' T' fl' -> 0 <= va < MAXVA ->
  has_bits (pte_at m T va) PTE_V = false -> umem m' T' va = Some b -> b = 0.
Proof.
  intros Hx Hva HV. unfold umem. rewrite decide_True by done.
  destruct (readable (pte_at m' T' va)) eqn:Hr; [|done]. intros [= <-].
  unfold readable in Hr. rewrite andb_true_iff in Hr. destruct Hr as [HV' _].
  destruct (ux_new _ _ _ _ _ _ _ _ Hx va) as (p & -> & Hok & _ & _ & _ & _ & _ & Hz);
    [split; [lia|apply MAXVA_VASPACE; lia]|done|done|].
  rewrite pte_entry_pa by (done || by apply page_ok_pte). apply Hz.
  pose proof (PGROUNDDOWN_bounds va). lia.
Qed.
End Extend.

(** * Byte strings in user memory *)
Section Ubytes.
Context `{KernelImage}.
Implicit Types (m : mem) (T : ptree).

(** The bytes [l] are the user bytes from [va]. *)
Definition ubytes m1 T1 (va : Z) (l : list Z) : Prop :=
  forall i b, l !! i = Some b -> umem m1 T1 (va + Z.of_nat i) = Some b.

Lemma ubytes_app m1 T1 va l l' :
  ubytes m1 T1 va l -> ubytes m1 T1 (va + Z.of_nat (length l)) l' -> ubytes m1 T1 va (l ++ l').
Proof.
  intros H1 H2 i b [Hi|[Hge Hi]]%lookup_app_Some; [by apply H1|].
  apply H2 in Hi. rewrite <- Hi. f_equal. lia.
Qed.

(** The outcome of copying [len] bytes from [va]. *)
Definition in_result m1 T1 (va len : Z) (r : Z * list Z) : Prop :=
  r.1 = 0 /\ Z.of_nat (length r.2) = len /\ ubytes m1 T1 va r.2 \/
  r.1 = -1 /\ ubytes m1 T1 va r.2 /\ exists i, Z.of_nat (length r.2) <= i < len /\ umem m1 T1 (va + i) = None.

End Ubytes.

(** * copyin *)
Section Copyin.
Context `{KernelImage}.
Implicit Types (m : mem) (T : ptree) (fl : list Z) (L : list lock).
Context (s : vms) (T : ptree) (fl : list Z).

Let root : Z := p_pagetable s.
Let m : mem := vm_mem s.

Hypothesis HT : pt_rep m root T.
Hypothesis Hk : kmem_rep m fl.
Hypothesis Hu : uvalid m T.
Hypothesis Hsz : p_sz s <= MAXVA.

(** Reached from [s] by faulting pages in. *)
Definition faulted m1 T1 fl1 : Prop := uext root (p_sz s) m T fl m1 T1 fl1.

Lemma user_page_wp va L m1 T1 fl1 :
  faulted m1 T1 fl1 -> 0 <= va -> avail [kmem_lock; ref_lock] L ->
  let a := PGROUNDDOWN va in
  wp (user_page root a) L (over m1 s) (fun r s' => exists m2 T2 fl2, s' = over m2 s /\
    faulted m2 T2 fl2 /\ uext root (p_sz s) m1 T1 fl1 m2 T2 fl2 /\
    (r = 0 /\ umem m2 T2 va = None \/
     r <> 0 /\ a < MAXVA /\ readable (pte_at m2 T2 a) = true /\ r = PTE2PA (pte_at m2 T2 a))).
Proof using All.
  intros Hf Hva HL a. pose proof (ux_rep _ _ _ _ _ _ _ _ Hf) as HT1.
  pose proof (ux_kmem _ _ _ _ _ _ _ _ Hf) as Hk1.
  pose proof (uext_uvalid _ _ _ _ _ _ _ _ Hk Hf Hu) as Hu1.
  pose proof (PGROUNDDOWN_nonneg va Hva) as H0. pose proof (PGROUNDDOWN_aligned va) as Hal.
  fold a in H0, Hal. assert (Haa : PGROUNDDOWN a = a) by by apply PGROUNDDOWN_id.
  unfold user_page. wsteps. wcall walkaddr_wp; [done|]. intros r m' [-> ->]. rewrite over_over, view_over.
  fold (readable (pte_at m1 T1 a)).
  destruct (decide (a < MAXVA /\ readable (pte_at m1 T1 a) = true)) as [[Ha Hr]|Hn].
  - destruct (Hu1 a) as (Hok & _ & _); [lia|done|]. pose proof (page_ok_pos _ Hok).
    assert (Hp0 : PTE2PA (pte_at m1 T1 a) <> 0) by (unfold KERNBASE in *; lia).
    wfalse; [|done]. wsteps. split; [done|]. exists m1, T1, fl1.
    split_and!; [done|done|by apply uext_refl|]. by right.
  - wtrue; [|done]. pose proof (vmfault_wp a L (over m1 s) T1 fl1) as Hw. cbv zeta in Hw.
    rewrite Haa in Hw. change (vm_mem (over m1 s)) with m1 in Hw.
    eapply wpl_call; [by apply Hw|]. intros r s' (m2 & T2 & fl2 & -> & Hres).
    split; [done|]. exists m2, T2, fl2. split; [done|].
    assert (Hx : uext root (p_sz s) m1 T1 fl1 m2 T2 fl2).
    { destruct Hres as [(_ & Hg & _)|(_ & Hlt & HV & Hg)];
        (eapply grown_uext; [done|done|done|done| | |exact Hg]); simpl; auto; done. }
    split; [by eapply uext_trans|]. split; [done|].
    destruct Hres as [(-> & Hg & _)|(Hr0 & Hlt & HV & Hg)]; [left|right].
    + split; [done|]. apply umem_unreadable. fold a. intros [Ha Hr]. apply Hn. split; [done|].
      rewrite (gw_off _ _ _ _ _ _ _ _ _ _ Hg) in Hr; [done| |unfold vrange; simpl; lia].
      split; [done|by apply MAXVA_VASPACE].
    + assert (Hp : pte_at m2 T2 a = pte_entry r lazy_perm).
      { rewrite <- (Z.add_0_r a). change 0 with (PGSIZE * Z.of_nat 0).
        by apply (gw_ptes _ _ _ _ _ _ _ _ _ _ Hg). }
      destruct (grown_page root m1 T1 fl1 a lazy_perm HT1 Hk1 Hal H0 ltac:(done) _ _ _ _ r Hg)
        as (Hok & _); [set_solver|]. pose proof (page_ok_pte _ Hok).
      simpl in Hlt. rewrite Hp, pte_entry_pa by done. split_and!; [done|lia| |done].
      unfold readable. by rewrite pte_entry_eq, !has_bits_lor by done.
Qed.

Lemma copyin_body_wp srcva len l L m1 T1 fl1 :
  let va := srcva + Z.of_nat (length l) in
  let rest := len - Z.of_nat (length l) in
  faulted m1 T1 fl1 -> 0 <= va -> 0 < rest -> ubytes m1 T1 srcva l ->
  avail [kmem_lock; ref_lock] L ->
  wp (copyin_body root (va, rest, l)) L (over m1 s) (fun r s' => exists m2 T2 fl2,
    s' = over m2 s /\ faulted m2 T2 fl2 /\
    match r with
    | inr res => in_result m2 T2 srcva len res
    | inl (va', rest', l') => exists n, 0 < n <= rest /\ rest' = rest - n /\
        Z.of_nat (length l') = Z.of_nat (length l) + n /\ ubytes m2 T2 srcva l' /\
        (0 < rest' -> va' = va + n)
    end).
Proof using All.
  intros va rest Hf Hva Hrest Hl HL. unfold copyin_body. wstep. wtrue; [|lia]. wsteps.
  wcall user_page_wp; [done|done|done|].
  intros pa s' (m2 & T2 & fl2 & -> & Hf2 & Hx & [[-> Hn]|(Hpa0 & Ha & Hr & ->)]).
  { wtrue; [|done]. wsteps. split; [done|]. exists m2, T2, fl2. split_and!; [done|done|].
    right. split; [done|]. split; [intros i b Hb; eapply uext_umem; [apply Hf|exact Hx|by eapply (uext_uvalid _ _ _ _ _ _ _ _ Hk Hf Hu)|by apply Hl]|].
    exists (Z.of_nat (length l)). simpl. split; [unfold rest in *; lia|done]. }
  pose proof (uext_uvalid _ _ _ _ _ _ _ _ Hk Hf Hu) as Hu1.
  pose proof (uext_uvalid _ _ _ _ _ _ _ _ Hk Hf2 Hu) as Hu2.
  wfalse; [|done]. destruct (Hu2 (PGROUNDDOWN va)) as (Hok & _ & _);
    [split; [by apply PGROUNDDOWN_nonneg|done]|done|].
  destruct (piece_bounds va rest Hrest) as [Hpb Hpe]. pose proof (PGROUNDDOWN_bounds va).
  wsteps. apply wpl_memmove_from.
  { pose proof (page_ok_whole _ Hok). unfold ram_ok in *. lia. }
  rewrite !view_over, over_over. wsteps. split; [done|]. exists m2, T2, fl2.
  split_and!; [done|done|]. exists (piece va rest).
  rewrite length_app, length_load_bytes. split_and!; [lia|lia|done|lia| |].
  - apply ubytes_app.
    + intros i b Hb. apply Hl in Hb. eapply uext_umem; [apply Hf|exact Hx|done|done].
    + intros i b Hb. pose proof (lookup_lt_Some _ _ _ Hb) as Hlt. rewrite length_load_bytes in Hlt.
      rewrite load_bytes_lookup in Hb by done. injection Hb as <-. apply umem_piece; try done; lia.
  - intros Hpos. rewrite piece_end by lia. change MAXVA with (2 ^ 38) in Ha. apply u64_small.
    pose proof (PGROUNDDOWN_nonneg va Hva). unfold PGSIZE in *. lia.
Qed.

Lemma copyin_wp srcva len L :
  0 <= srcva -> 0 <= len -> avail [kmem_lock; ref_lock] L ->
  wp (copyin root srcva len) L s (fun r s' => exists m2 T2 fl2,
    s' = over m2 s /\ faulted m2 T2 fl2 /\ in_result m2 T2 srcva len r).
Proof using All.
  intros Hva Hlen HL. unfold copyin.
  apply (wpl_loop (fun x s1 => exists m1 T1 fl1 l, s1 = over m1 s /\ faulted m1 T1 fl1 /\
      x.2 = l /\ x.1.2 = len - Z.of_nat (length l) /\ 0 <= x.1.2 /\ ubytes m1 T1 srcva l /\
      (0 < x.1.2 -> x.1.1 = srcva + Z.of_nat (length l)))
    (fun x => Z.to_nat x.1.2)).
  - intros [[va rest] l'] s1 (m1 & T1 & fl1 & l & -> & Hf & Hx & Hre & Hge & Hl & Hv).
    simpl in *. subst l' rest. destruct (decide (len - Z.of_nat (length l) = 0)) as [E|Hne].
    + unfold copyin_body. wstep. wfalse; [|lia]. wsteps. split; [done|]. exists m1, T1, fl1.
      split_and!; [done|done|]. left. simpl. split_and!; [done|lia|done].
    + rewrite Hv by lia. eapply wp_mono.
      { apply (copyin_body_wp srcva len l L m1 T1 fl1); try done; lia. }
      intros [[[va' rest'] l']|res] s2 (m2 & T2 & fl2 & -> & Hf2 & Hres); [|by eauto 6].
      destruct Hres as (n & Hn & -> & Hlen2 & Hl2 & Hv2). simpl. split; [|lia].
      exists m2, T2, fl2, l'. split_and!; try done; try lia.
  - exists m, T, fl, []. simpl. split_and!; try done; try lia.
    + symmetry. exact (over_view s).
    + by apply uext_refl.
  - simpl. lia.
Qed.
End Copyin.

(** * What the copies into the kernel guarantee *)
Section InCorrectness.
Context `{KernelImage}.

(** copyin of [len] bytes from the current process always returns.  It
    changes user memory only by allocating zeroed pages below the size of the
    process (every byte the process could read before reads the same).  It
    returns 0 with exactly the [len] user bytes from [srcva], or -1 when one of
    them is not readable even after that. *)
Theorem copyin_correct s T fl srcva len L :
  let root := p_pagetable s in
  pt_rep (vm_mem s) root T -> kmem_rep (vm_mem s) fl -> uvalid (vm_mem s) T -> p_sz s <= MAXVA ->
  0 <= srcva -> 0 <= len -> avail [kmem_lock; ref_lock] L ->
  wp (copyin root srcva len) L s (fun r s' => exists m2 T2 fl2,
    s' = over m2 s /\ uext root (p_sz s) (vm_mem s) T fl m2 T2 fl2 /\
    (forall va b, umem (vm_mem s) T va = Some b -> umem m2 T2 va = Some b) /\
    in_result m2 T2 srcva len r).
Proof.
  intros root HT Hk Hu Hsz Hva Hlen HL.
  eapply wp_mono; [by apply (copyin_wp s T fl HT Hk Hu Hsz)|].
  intros r s' (m2 & T2 & fl2 & -> & Hf & Hr). exists m2, T2, fl2. split_and!; try done.
  intros va b. by apply (uext_umem root (p_sz s) (vm_mem s) T fl m2 T2 fl2).
Qed.
End InCorrectness.
