(* ===== verification/CopyOut.v ===== *)
(** copyout, kernel/vm.c: the bytes arrive in user memory and nowhere else, also
    through lazily allocated and copy-on-write pages.  The operations are defined
    in UserMem. *)
From S2P Require Import Prelude Riscv PhysMem Kalloc PageTable Vm Cow Shm UserMem.
Local Open Scope Z_scope.

(** * Steps that keep the user's view *)
Section Keep.
Context `{KernelImage}.
Implicit Types (m : mem) (T : ptree) (fl : list Z) (L : list lock).

(** No page is mapped readable at two addresses. *)
Definition noalias m T : Prop :=
  forall va va', 0 <= va < MAXVA -> 0 <= va' < MAXVA ->
    readable (pte_at m T va) = true -> readable (pte_at m T va') = true ->
    PTE2PA (pte_at m T va) = PTE2PA (pte_at m T va') -> va / PGSIZE = va' / PGSIZE.

(** Somebody else relies on the contents of [p]: it is referenced from outside
    this table, and the table does not map it writable. *)
Definition foreign m T (p : Z) : Prop :=
  page_ok p /\ (p ∉ pt_set T) /\ 1 <= ref m p /\
  forall va, 0 <= va < MAXVA -> readable (pte_at m T va) = true -> PTE2PA (pte_at m T va) = p ->
    has_bits (pte_at m T va) PTE_W = false /\ 2 <= ref m p.

(** [p] is still relied on, with the same contents, and private if it was. *)
Definition kept m m' T' (p : Z) : Prop :=
  foreign m' T' p /\ same_page (ram m) (ram m') p /\ (ref m p = 1 -> ref m' p = 1).

Lemma kept_trans m1 m2 T2 m3 T3 p : kept m1 m2 T2 p -> kept m2 m3 T3 p -> kept m1 m3 T3 p.
Proof. intros (_ & S1 & R1) (F2 & S2 & R2). split; [done|]. split; [by eapply same_page_trans|auto]. Qed.

(** A page that belongs to one component of the kernel alone. *)
Definition own m T (p : Z) : Prop := foreign m T p /\ ref m p = 1.

(** No address of the process reaches [p]. *)
Definition unreached m T (p : Z) : Prop :=
  (p ∉ pt_set T) /\ forall va, 0 <= va < MAXVA -> readable (pte_at m T va) = true -> PTE2PA (pte_at m T va) <> p.

Lemma own_unreached m T p : own m T p -> unreached m T p.
Proof. intros [(_ & Hnt & _ & Hmap) H1]. split; [done|]. intros va Hva Hr E. destruct (Hmap va Hva Hr E). lia. Qed.

Lemma unreached_own m T p : page_ok p -> unreached m T p -> ref m p = 1 -> own m T p.
Proof. intros Hok [Hnt Hun] H1. split; [|done]. split_and!; [done|done|lia|]. intros va Hva Hr E. by destruct (Hun va). Qed.

Lemma kept_own m m' T T' p : own m T p -> kept m m' T' p -> own m' T' p.
Proof. intros [_ H1] (? & _ & ?). split; auto. Qed.

(** A step that changes the table at [root] but nothing the user, or anybody
    else, can see. *)
Record ukeep root m T m' T' fl' : Prop := {
  uk_rep : pt_rep m' root T';
  uk_kmem : kmem_rep m' fl';
  uk_valid : uvalid m' T';
  uk_noalias : noalias m' T';
  uk_umem : forall va b, umem m T va = Some b -> umem m' T' va = Some b;
  uk_foreign : forall p, foreign m T p -> kept m m' T' p
}.

Lemma ukeep_refl root m T fl :
  pt_rep m root T -> kmem_rep m fl -> uvalid m T -> noalias m T -> ukeep root m T m T fl.
Proof. intros. by split. Qed.

Lemma ukeep_trans root m1 T1 m2 T2 fl2 m3 T3 fl3 :
  ukeep root m1 T1 m2 T2 fl2 -> ukeep root m2 T2 m3 T3 fl3 -> ukeep root m1 T1 m3 T3 fl3.
Proof.
  intros [_ _ _ _ U1 F1] [R2 K2 V2 N2 U2 F2]. split; try done; [by auto|].
  intros p Hp%F1. eapply kept_trans; [done|]. apply F2, Hp.
Qed.

Lemma readable_V v : readable v = true -> has_bits v PTE_V = true.
Proof. unfold readable. rewrite andb_true_iff. by intros []. Qed.

Lemma va_space va : 0 <= va < MAXVA -> 0 <= va < VASPACE.
Proof. intros. split; [lia|apply MAXVA_VASPACE; lia]. Qed.

(** Faulting pages in. *)
Lemma uext_ukeep root sz m T fl m' T' fl' :
  kmem_rep m fl -> uvalid m T -> noalias m T -> uext root sz m T fl m' T' fl' ->
  ukeep root m T m' T' fl'.
Proof.
  intros Hk Hu Hn Hx.
  assert (Hold : forall va, 0 <= va < MAXVA -> has_bits (pte_at m T va) PTE_V = true ->
    pte_at m' T' va = pte_at m T va)
    by (intros va Hva%va_space; by apply (ux_keep _ _ _ _ _ _ _ _ Hx)).
  assert (Hnew : forall va, 0 <= va < MAXVA -> has_bits (pte_at m T va) PTE_V = false ->
    readable (pte_at m' T' va) = true -> PTE2PA (pte_at m' T' va) ∈ fl).
  { intros va Hva%va_space HV Hr%readable_V.
    destruct (ux_new _ _ _ _ _ _ _ _ Hx va Hva HV Hr) as (p & -> & Hok & _ & Hin & _).
    by rewrite pte_entry_pa by (done || by apply page_ok_pte). }
  assert (Hnf : forall p, 1 <= ref m p -> p ∉ fl)
    by (intros p Hr Hin; rewrite (rep_refs _ _ Hk) in Hr by done; lia).
  split; try apply Hx.
  - by eapply uext_uvalid.
  - intros va va' Hva Hva' Hr Hr' E.
    destruct (has_bits (pte_at m T va) PTE_V) eqn:HV, (has_bits (pte_at m T va') PTE_V) eqn:HV'.
    + apply Hn; try done; by rewrite <- ?(Hold va), <- ?(Hold va') by done.
    + exfalso. pose proof (Hnew va' Hva' HV' Hr') as Hin. rewrite <- E, Hold in Hin by done.
      rewrite Hold in Hr by done. destruct (Hu va Hva Hr) as (_ & _ & ?). by eapply Hnf.
    + exfalso. pose proof (Hnew va Hva HV Hr) as Hin. rewrite E, Hold in Hin by done.
      rewrite Hold in Hr' by done. destruct (Hu va' Hva' Hr') as (_ & _ & ?). by eapply Hnf.
    + apply va_space in Hva, Hva'. apply readable_V in Hr, Hr'.
      apply (ux_inj _ _ _ _ _ _ _ _ Hx); try done.
      destruct (ux_new _ _ _ _ _ _ _ _ Hx va Hva HV Hr) as (p & Ep & Hok & _).
      destruct (ux_new _ _ _ _ _ _ _ _ Hx va' Hva' HV' Hr') as (p' & Ep' & Hok' & _).
      rewrite Ep, Ep' in E |- *. rewrite !pte_entry_pa in E by (done || by apply page_ok_pte). by subst.
  - intros va b. by eapply uext_umem.
  - intros p (Hok & Hnt & Hr & Hmap).
    destruct (uext_data _ _ _ _ _ _ _ _ p Hk Hx) as ((_ & Hnt' & _) & Hs & Hre); [done|].
    split; [|split; [done|by rewrite Hre]]. unfold foreign. rewrite Hre. split_and!; try done.
    intros va Hva Hrd E. destruct (has_bits (pte_at m T va) PTE_V) eqn:HV.
    + rewrite Hold in * by done. by apply Hmap.
    + exfalso. apply (Hnf p Hr). rewrite <- E. by apply Hnew.
Qed.

(** A change of one page [p] that the process does not reach. *)
Record private_step root m T (p : Z) m' : Prop := {
  ps_rep : pt_rep m' root T;
  ps_valid : uvalid m' T;
  ps_noalias : noalias m' T;
  ps_unreached : unreached m' T p;
  ps_pte : forall va, pte_at m' T va = pte_at m T va;
  ps_umem : forall x, umem m' T x = umem m T x;
  ps_kept : forall q, q <> p -> foreign m T q -> kept m m' T q
}.

Lemma agree_private root m T p m' :
  pt_rep m root T -> uvalid m T -> noalias m T -> agree_off {[p]} m m' -> unreached m T p -> private_step root m T p m'.
Proof.
  intros HT Hu Hn Ha [Hnt Hun].
  assert (Hpte : forall va, pte_at m' T va = pte_at m T va) by (intros va; eapply pte_at_agree; [done|set_solver|done]).
  assert (Hq : forall q, q <> p -> q mod PGSIZE = 0 -> same_page (ram m) (ram m') q /\ ref m' q = ref m q) by (intros q Hne Hal; apply Ha; [done|set_solver]).
  split; try done.
  - eapply pt_rep_agree; [done|set_solver|done].
  - intros va Hva. rewrite Hpte. intros Hr. destruct (Hu va Hva Hr) as (Hok & Hqt & Href). destruct (Hq (PTE2PA (pte_at m T va))) as [_ E]; [by apply Hun|apply Hok|].
    split_and!; [done|done|by rewrite E].
  - intros va va'. rewrite !Hpte. apply Hn.
  - split; [done|]. intros va Hva. rewrite Hpte. by apply Hun.
  - intros x. unfold umem. case_decide as Hx; [|done]. rewrite Hpte. destruct (readable _) eqn:Hr; [|done]. f_equal.
    destruct (Hu x Hx Hr) as (Hok & _). destruct (Hq (PTE2PA (pte_at m T x))) as [Hs _]; [by apply Hun|apply Hok|].
    symmetry. apply Hs. pose proof (PGROUNDDOWN_bounds x). lia.
  - intros q Hne (Hok & Hqt & Href & Hmap). destruct (Hq q Hne) as [Hs Hr]; [apply Hok|]. split; [|split; [done|by rewrite Hr]].
    unfold foreign. rewrite Hr. split_and!; try done. intros va Hva. rewrite Hpte. by apply Hmap.
Qed.
End Keep.

(** Breaking a copy-on-write share. *)
Section KeepCow.
Context `{KernelImage}.
Context (root : Z) (m : mem) (T : ptree) (fl : list Z) (a p : Z) (m' : mem) (fl' : list Z).

Let v : Z := pte_at m T a.
Let pa : Z := PTE2PA v.

Hypothesis Hk : kmem_rep m (p :: fl).
Hypothesis Hu : uvalid m T.
Hypothesis Hn : noalias m T.
Hypothesis Ha : 0 <= a < MAXVA.
Hypothesis Hal : a mod PGSIZE = 0.
Hypothesis Hr : readable v = true.
Hypothesis Hcc : cow_copy root m T fl a p m' fl'.

Lemma cow_p0 : ref m p = 0.
Proof using All. apply (rep_refs _ _ Hk). set_solver. Qed.

(** The new entry of [a]. *)
Lemma cow_new_pte :
  readable (pte_at m' T a) = true /\ has_bits (pte_at m' T a) PTE_W = true /\
  PTE2PA (pte_at m' T a) = p.
Proof using All.
  pose proof (page_ok_pte _ (cc_page _ _ _ _ _ _ _ _ Hcc)) as Hp.
  pose proof (PTE_FLAGS_range v) as Hf. pose proof (cow_flags_range _ Hf) as Hcf.
  rewrite (cc_pte _ _ _ _ _ _ _ _ Hcc). fold v. unfold readable in *.
  rewrite !has_bits_lor, PTE2PA_lor by done.
  rewrite andb_true_iff in Hr. destruct Hr as [HV HU].
  split_and!; [|by apply cow_flags_W|done].
  rewrite (cow_flags_other _ 0), (cow_flags_other _ 4) by (done || lia).
  change (Z.shiftl 1 0) with PTE_V. change (Z.shiftl 1 4) with PTE_U.
  by rewrite !has_bits_flags, HV, HU.
Qed.

(** Addresses in the page of [a], and elsewhere. *)
Lemma cow_at va : va / PGSIZE = a / PGSIZE -> pte_at m' T va = pte_at m' T a /\ pte_at m T va = v.
Proof using All. intros E. split; by apply pte_at_page. Qed.

Lemma cow_off va :
  0 <= va < MAXVA -> va / PGSIZE <> a / PGSIZE -> pte_at m' T va = pte_at m T va.
Proof using All. intros Hva%va_space Hne. by apply (cc_off _ _ _ _ _ _ _ _ Hcc). Qed.

(** The pages of the other readable addresses are untouched. *)
Lemma cow_off_page va :
  0 <= va < MAXVA -> va / PGSIZE <> a / PGSIZE -> readable (pte_at m T va) = true ->
  let q := PTE2PA (pte_at m T va) in
  q <> p /\ q <> pa /\ data_page m T q /\ same_page (ram m) (ram m') q /\ ref m' q = ref m q.
Proof using All.
  intros Hva Hne Hrd q. destruct (Hu va Hva Hrd) as (Hok & Hnt & Href). fold q in Hok, Hnt, Href.
  assert (Hqp : q <> p) by (intros E; pose proof cow_p0; rewrite E in Href; lia).
  assert (Hqa : q <> pa) by (intros E; apply Hne; by apply Hn).
  split_and!; try done; apply (cc_agree _ _ _ _ _ _ _ _ Hcc); try apply Hok;
    fold v pa; set_solver.
Qed.

Lemma cow_ukeep : ukeep root m T m' T fl'.
Proof using All.
  destruct cow_new_pte as (Hnr & _ & Hnp). destruct (Hu a Ha Hr) as (Hpok & Hpnt & Hpr).
  fold v pa in Hpok, Hpnt, Hpr. pose proof cow_p0 as Hp0.
  split.
  - apply Hcc.
  - apply Hcc.
  - intros va Hva Hrd. destruct (decide (va / PGSIZE = a / PGSIZE)) as [E|Hne].
    + rewrite (proj1 (cow_at va E)), Hnp.
      split_and!; [exact (cc_page _ _ _ _ _ _ _ _ Hcc)|exact (cc_out _ _ _ _ _ _ _ _ Hcc)|].
      rewrite (cc_ref _ _ _ _ _ _ _ _ Hcc). lia.
    + rewrite cow_off in * by done. destruct (cow_off_page va Hva Hne Hrd) as (_ & _ & (? & ? & ?) & _ & Hre).
      split_and!; [done|done|]. by rewrite Hre.
  - assert (Hcase : forall x y, 0 <= x < MAXVA -> x / PGSIZE <> a / PGSIZE -> y / PGSIZE = a / PGSIZE ->
      readable (pte_at m' T x) = true -> PTE2PA (pte_at m' T x) <> PTE2PA (pte_at m' T y)).
    { intros x y Hx Hne E Hrx. rewrite (proj1 (cow_at y E)), Hnp, cow_off by done.
      rewrite cow_off in Hrx by done. by apply cow_off_page. }
    intros x y Hx Hy Hrx Hry E.
    destruct (decide (x / PGSIZE = a / PGSIZE)) as [Ex|Ex], (decide (y / PGSIZE = a / PGSIZE)) as [Ey|Ey].
    + congruence.
    + symmetry in E. by destruct (Hcase y x Hy Ey Ex Hry).
    + by destruct (Hcase x y Hx Ex Ey Hrx).
    + rewrite !cow_off in * by done. by apply Hn.
  - intros va b. unfold umem. case_decide as Hva; [|done].
    pose proof (PGROUNDDOWN_bounds va) as Hb.
    destruct (decide (va / PGSIZE = a / PGSIZE)) as [E|Hne].
    + destruct (cow_at va E) as [-> ->]. rewrite Hnr, Hr, Hnp. intros [= <-]. f_equal.
      rewrite (cc_bytes _ _ _ _ _ _ _ _ Hcc) by lia. done.
    + rewrite cow_off by done. destruct (readable (pte_at m T va)) eqn:Hrd; [|done].
      intros [= <-]. f_equal. symmetry. apply (cow_off_page va Hva Hne Hrd). lia.
  - intros q (Hok & Hnt & Href & Hmap). assert (Hqp : q <> p) by (intros ->; lia).
    assert (Hq : same_page (ram m) (ram m') q /\ 1 <= ref m' q /\ (q <> pa -> ref m' q = ref m q)).
    { destruct (decide (q = pa)) as [->|Hne].
      - destruct (Hmap a Ha Hr eq_refl) as [_ H2]. pose proof (cc_old _ _ _ _ _ _ _ _ Hcc) as Ho.
        change (ref m' pa = ref m pa - 1) in Ho. split_and!; [|lia|done].
        apply (cc_same _ _ _ _ _ _ _ _ Hcc). change (ref m pa <> 1). lia.
      - destruct (cc_agree _ _ _ _ _ _ _ _ Hcc q) as [? ->]; [apply Hok|fold v pa; set_solver|done]. }
    destruct Hq as (Hs & Href' & Hre). split; [|split; [done|]].
    2:{ intros H1. rewrite Hre; [done|]. intros ->. destruct (Hmap a Ha Hr eq_refl). lia. }
    split_and!; try done.
    intros va Hva Hrd E. destruct (decide (va / PGSIZE = a / PGSIZE)) as [Eq|Hne].
    + exfalso. rewrite (proj1 (cow_at va Eq)), Hnp in E. by apply Hqp.
    + rewrite cow_off in * by done. destruct (cow_off_page va Hva Hne Hrd) as (_ & Hqa & _).
      rewrite E in Hqa. rewrite Hre by done. by apply Hmap.
Qed.
End KeepCow.

(** * Making the page writable, and writing *)
Section Write.
Context `{KernelImage}.
Implicit Types (m : mem) (T : ptree) (fl : list Z) (L : list lock).

Lemma writable_page_wp root a L m T fl :
  let v := pte_at m T a in
  pt_rep m root T -> kmem_rep m fl -> uvalid m T -> noalias m T ->
  0 <= a < MAXVA -> a mod PGSIZE = 0 -> readable v = true -> avail [kmem_lock; ref_lock] L ->
  wp (writable_page root a (PTE2PA v)) L m (fun r m' => exists fl', ukeep root m T m' T fl' /\
    (r = 0 /\ m' = m /\ fl' = fl /\ has_bits v PTE_W = false /\ (has_bits v PTE_C = false \/ fl = []) \/
     r <> 0 /\ readable (pte_at m' T a) = true /\ has_bits (pte_at m' T a) PTE_W = true /\
       r = PTE2PA (pte_at m' T a))).
Proof.
  intros v HT Hk Hu Hn Ha Hal Hr HL. destruct (Hu a Ha Hr) as (Hok & Hnt & Href). fold v in Hok, Hnt, Href.
  pose proof (page_ok_pos _ Hok). pose proof (ukeep_refl root m T fl HT Hk Hu Hn) as Hrefl.
  destruct (T !! vpath a) as [q|] eqn:Hq.
  2:{ unfold v, pte_at in Hr. by rewrite Hq in Hr. }
  unfold writable_page. wsteps. wcall walk_present_wp; [done|lia|done|]. intros r m' [-> ->].
  wsteps. eapply wpl_load_leaf; [done|done|]. fold v.
  destruct (has_bits v PTE_W) eqn:HW.
  { wsteps. split; [done|]. exists fl. split; [done|]. right. split_and!; try done.
    unfold KERNBASE in *. lia. }
  destruct (has_bits v PTE_C) eqn:HC.
  2:{ wsteps. split; [done|]. exists fl. split; [done|]. left. split_and!; auto. }
  eapply cow_break_wp; try done; [by apply va_space| |].
  { intros ->. wsteps. split; [done|]. exists []. split; [done|]. left. split_and!; auto. }
  intros p fl1 m1 fl2 -> Hcc Hp0. wsteps. split; [done|]. exists fl2.
  split; [by apply (cow_ukeep root m T fl1 a p)|]. right.
  destruct (cow_new_pte root m T fl1 a p m1 fl2) as (? & ? & ?); done.
Qed.

(** Storing bytes in a page that the table maps writable. *)
Section Store.
Context (root : Z) (m : mem) (T : ptree) (fl : list Z) (va : Z) (bs : list Z).

Let a : Z := PGROUNDDOWN va.
Let p : Z := PTE2PA (pte_at m T a).
Let m' : mem := set_ram (fun r => store_bytes r (p + (va - a)) bs) m.

Hypothesis HT : pt_rep m root T.
Hypothesis Hk : kmem_rep m fl.
Hypothesis Hu : uvalid m T.
Hypothesis Hn : noalias m T.
Hypothesis Ha : 0 <= a < MAXVA.
Hypothesis Hr : readable (pte_at m T a) = true.
Hypothesis HW : has_bits (pte_at m T a) PTE_W = true.
Hypothesis Hlen : va - a + Z.of_nat (length bs) <= PGSIZE.
Hypothesis Hbs : Forall (fun b => 0 <= b < 256) bs.

Lemma store_page_data : data_page m T p.
Proof using All. by apply Hu. Qed.

Lemma store_agree : agree_off {[p]} m m'.
Proof using All.
  intros q Hq Hne. split; [|done]. intros x Hx. symmetry. apply byte_store_bytes_out.
  pose proof (PGROUNDDOWN_bounds va) as Hb. fold a in Hb.
  destruct (decide (p <= x < p + PGSIZE)); [|lia].
  destruct (pages_disjoint p q x); try done; [apply store_page_data|set_solver].
Qed.

Lemma store_pte x : pte_at m' T x = pte_at m T x.
Proof using All.
  destruct store_page_data as (_ & ? & _). eapply pte_at_agree; [apply store_agree|set_solver|done].
Qed.

Lemma store_rep : pt_rep m' root T /\ kmem_rep m' fl.
Proof using All.
  destruct store_page_data as (_ & Hnt & Href). split.
  - eapply pt_rep_agree; [apply store_agree|set_solver|done].
  - eapply kmem_rep_agree; [apply store_agree|done| |done].
    intros q Hq ->%elem_of_singleton. rewrite (rep_refs _ _ Hk) in Href by done. lia.
Qed.

Lemma store_valid : uvalid m' T /\ noalias m' T.
Proof using All.
  split.
  - intros x Hx. rewrite store_pte. apply (Hu x Hx).
  - intros x y Hx Hy. rewrite !store_pte. apply (Hn x y Hx Hy).
Qed.

Lemma store_in i b : bs !! i = Some b -> umem m' T (va + Z.of_nat i) = Some b.
Proof using All.
  intros Hi. pose proof (lookup_lt_Some _ _ _ Hi). pose proof (PGROUNDDOWN_bounds va) as Hb. fold a in Hb.
  rewrite umem_piece; rewrite ?store_pte; try done; try (fold a; lia).
  fold a p. f_equal. simpl. rewrite (byte_store_bytes_in _ _ _ _ _ Hi).
  apply u8_small. by eapply (Forall_lookup_1 (fun b => 0 <= b < 256)).
Qed.

Lemma store_out x b :
  umem m T x = Some b -> x < va \/ va + Z.of_nat (length bs) <= x -> umem m' T x = Some b.
Proof using All.
  unfold umem. case_decide as Hx; [|done]. rewrite store_pte.
  destruct (readable (pte_at m T x)) eqn:Hrx; [|done]. intros [= <-] Hout. f_equal. simpl.
  pose proof (PGROUNDDOWN_bounds va) as Hb. pose proof (PGROUNDDOWN_bounds x). fold a in Hb.
  set (o := x - PGROUNDDOWN x) in *. set (q := PTE2PA (pte_at m T x)).
  destruct (decide (x / PGSIZE = a / PGSIZE)) as [E|Hne].
  - assert (Hq : q = p) by (unfold q, p; by rewrite (pte_at_page m T x a E)).
    assert (PGROUNDDOWN x = a).
    { unfold a in *. rewrite !PGROUNDDOWN_eq in *. unfold PGSIZE in *. zdiv. }
    apply byte_store_bytes_out. rewrite Hq. lia.
  - assert (Hq : q <> p) by (intros E; apply Hne; by apply Hn).
    symmetry. apply (store_agree q); [apply (Hu x Hx Hrx)|set_solver|lia].
Qed.

Lemma store_foreign q : foreign m T q -> kept m m' T q.
Proof using All.
  intros (Hok & Hnt & Href & Hmap).
  assert (Hq : q <> p) by (intros ->; destruct (Hmap a Ha Hr eq_refl); congruence).
  split; [|split; [apply store_agree; [apply Hok|set_solver]|done]].
  split_and!; try done. intros x Hx. rewrite store_pte. by apply (Hmap x Hx).
Qed.
End Store.
End Write.

(** * copyout *)
Section Copyout.
Context `{KernelImage}.
Context (s : vms) (T : ptree) (dstva : Z).

Let root : Z := p_pagetable s.
Let m : mem := vm_mem s.

Hypothesis Hsz : p_sz s <= MAXVA.
Hypothesis Hdst : 0 <= dstva.

(** The bytes [l] were written from [dstva] on, and nothing else. *)
Record wrote (l : list Z) (m1 : mem) (T1 : ptree) (fl1 : list Z) : Prop := {
  wr_rep : pt_rep m1 root T1;
  wr_kmem : kmem_rep m1 fl1;
  wr_valid : uvalid m1 T1;
  wr_noalias : noalias m1 T1;
  wr_bytes : ubytes m1 T1 dstva l;
  wr_keep : forall x b, umem m T x = Some b -> x < dstva \/ dstva + Z.of_nat (length l) <= x ->
    umem m1 T1 x = Some b;
  wr_foreign : forall p, foreign m T p -> kept m m1 T1 p
}.

Lemma wrote_ukeep l m1 T1 fl1 m2 T2 fl2 :
  wrote l m1 T1 fl1 -> ukeep root m1 T1 m2 T2 fl2 -> wrote l m2 T2 fl2.
Proof using All.
  intros [_ _ _ _ B K F] [R2 K2 V2 N2 U2 F2]. split; try done.
  - intros i b Hb. by apply U2, B.
  - intros x b Hx Hout. by apply U2, K.
  - intros p Hp%F. eapply kept_trans; [done|]. apply F2, Hp.
Qed.

Lemma wrote_store l m1 T1 fl1 bs :
  let va := dstva + Z.of_nat (length l) in
  let a := PGROUNDDOWN va in
  let p := PTE2PA (pte_at m1 T1 a) in
  wrote l m1 T1 fl1 -> a < MAXVA -> readable (pte_at m1 T1 a) = true ->
  has_bits (pte_at m1 T1 a) PTE_W = true -> va - a + Z.of_nat (length bs) <= PGSIZE ->
  Forall (fun b => 0 <= b < 256) bs ->
  wrote (l ++ bs) (set_ram (fun r => store_bytes r (p + (va - a)) bs) m1) T1 fl1.
Proof using All.
  intros va a p [R1 K1 V1 N1 B K F] Ha Hr HW Hlen Hbs.
  assert (Ha0 : 0 <= a < MAXVA) by (split; [apply PGROUNDDOWN_nonneg; unfold va; lia|done]).
  destruct (store_rep root m1 T1 fl1 va bs R1 K1 V1 N1 Ha0 Hr HW Hlen Hbs) as [R2 K2].
  destruct (store_valid root m1 T1 fl1 va bs R1 K1 V1 N1 Ha0 Hr HW Hlen Hbs) as [V2 N2].
  pose proof (store_out root m1 T1 fl1 va bs R1 K1 V1 N1 Ha0 Hr HW Hlen Hbs) as Hout.
  split; try done.
  - apply ubytes_app.
    + intros i b Hb. pose proof (lookup_lt_Some _ _ _ Hb). apply Hout; [by apply B|].
      left. unfold va. lia.
    + intros i b Hb. by apply (store_in root m1 T1 fl1 va bs R1 K1 V1 N1 Ha0 Hr HW Hlen Hbs).
  - intros x b Hx Hx'. rewrite length_app in Hx'. apply Hout; [apply K; [done|lia]|]. unfold va. lia.
  - intros q Hq%F. eapply kept_trans; [done|].
    apply (store_foreign root m1 T1 fl1 va bs R1 K1 V1 N1 Ha0 Hr HW Hlen Hbs q), Hq.
Qed.

(** Why the copy stops at [va]: no page, or one that cannot be made writable. *)
Definition stuck m1 T1 (fl1 : list Z) (va : Z) : Prop :=
  umem m1 T1 va = None \/
  let v := pte_at m1 T1 (PGROUNDDOWN va) in
  has_bits v PTE_W = false /\ (has_bits v PTE_C = false \/ fl1 = []).

Lemma copyout_body_wp l src L m1 T1 fl1 :
  let va := dstva + Z.of_nat (length l) in
  wrote l m1 T1 fl1 -> src <> [] -> Forall (fun b => 0 <= b < 256) src ->
  avail [kmem_lock; ref_lock] L ->
  wp (copyout_body root (va, src)) L (over m1 s) (fun r s' => exists m2 T2 fl2, s' = over m2 s /\
    match r with
    | inr res => res = -1 /\ wrote l m2 T2 fl2 /\ stuck m2 T2 fl2 va
    | inl (va', src') => exists n, (0 < n <= length src)%nat /\ src' = drop n src /\
        wrote (l ++ take n src) m2 T2 fl2 /\ (src' <> [] -> va' = va + Z.of_nat n)
    end).
Proof using All.
  intros va Hw Hne Hby HL. pose proof Hw as [R1 K1 V1 N1 _ _ _].
  assert (Hlen : 0 < Z.of_nat (length src)) by (destruct src; [done|simpl; lia]).
  assert (Hva : 0 <= va) by (unfold va; lia). pose proof (PGROUNDDOWN_nonneg va Hva) as Ha0.
  unfold copyout_body. wstep. wtrue; [|lia]. wcase as Hmax.
  { wsteps. split; [done|]. exists m1, T1, fl1. split_and!; try done. left.
    apply umem_unreadable. lia. }
  wsteps. pose proof (user_page_wp (@over vms mem vms_mem m1 s) T1 fl1 R1 K1 V1 Hsz va L m1 T1 fl1) as Hup.
  rewrite over_over in Hup. eapply wpl_call; [apply Hup; [by apply uext_refl|done|done]|].
  intros pa s' (m2 & T2 & fl2 & -> & _ & Hx & Hor). rewrite over_over.
  pose proof (uext_ukeep _ _ _ _ _ _ _ _ K1 V1 N1 Hx) as Hk2.
  pose proof (wrote_ukeep _ _ _ _ _ _ _ Hw Hk2) as Hw2. pose proof Hw2 as [R2 K2 V2 N2 _ _ _].
  destruct Hor as [[-> Hn]|(Hpa0 & Ha & Hr & ->)].
  { wtrue; [|done]. wsteps. split; [done|]. exists m2, T2, fl2. split_and!; try done. by left. }
  wfalse; [|done]. wsteps. rewrite view_over.
  wcall (writable_page_wp root (PGROUNDDOWN va) L m2 T2 fl2); try done; [apply PGROUNDDOWN_aligned|].
  intros p m3 (fl3 & Hk3 & Hor). rewrite over_over.
  pose proof (wrote_ukeep _ _ _ _ _ _ _ Hw2 Hk3) as Hw3.
  destruct Hor as [(-> & -> & -> & Hstuck)|(Hp0 & Hr3 & HW3 & ->)].
  { wtrue; [|done]. wsteps. split; [done|]. exists m2, T2, fl2. split_and!; try done. by right. }
  wfalse; [|done]. destruct (wr_valid _ _ _ _ Hw3 (PGROUNDDOWN va)) as (Hok & _ & _); [lia|done|].
  destruct (piece_bounds va (Z.of_nat (length src)) Hlen) as [Hpb Hpe].
  pose proof (PGROUNDDOWN_bounds va) as Hb. set (n := piece va (Z.of_nat (length src))) in *.
  assert (Htl : length (take (Z.to_nat n) src) = Z.to_nat n) by (rewrite length_take; lia).
  wsteps. apply wpl_memmove_to.
  { rewrite Htl, Z2Nat.id by lia. pose proof (page_ok_whole _ Hok). unfold ram_ok in *. lia. }
  rewrite view_over, over_over. wsteps. split; [done|]. eexists _, T2, fl3. split; [done|].
  exists (Z.to_nat n). split_and!; [lia|lia|done| |].
  - apply wrote_store; try done; [fold va; rewrite Htl; lia|by apply Forall_take].
  - intros Hd. change MAXVA with (2 ^ 38) in Ha. rewrite Z2Nat.id by lia.
    unfold n. rewrite piece_end; [apply u64_small; unfold PGSIZE in *; lia|].
    fold n. destruct (decide (n < Z.of_nat (length src))); [done|]. destruct Hd.
    apply drop_ge. lia.
Qed.

Lemma copyout_wp src L fl :
  pt_rep m root T -> kmem_rep m fl -> uvalid m T -> noalias m T ->
  Forall (fun b => 0 <= b < 256) src -> avail [kmem_lock; ref_lock] L ->
  wp (copyout root dstva src) L s (fun r s' => exists m2 T2 fl2 k, s' = over m2 s /\
    wrote (take k src) m2 T2 fl2 /\
    (r = 0 /\ k = length src \/
     r = -1 /\ (k < length src)%nat /\ stuck m2 T2 fl2 (dstva + Z.of_nat k))).
Proof using All.
  intros HT Hk Hu Hn Hby HL. unfold copyout.
  apply (wpl_loop (fun x s1 => exists m1 T1 fl1 k, s1 = over m1 s /\ (k <= length src)%nat /\
      wrote (take k src) m1 T1 fl1 /\ x.2 = drop k src /\
      (x.2 <> [] -> x.1 = dstva + Z.of_nat k)) (fun x => length x.2)).
  - intros [va rest] s1 (m1 & T1 & fl1 & k & -> & Hkl & Hw & Hx & Hv). simpl in *. subst rest.
    assert (Htk : length (take k src) = k) by (rewrite length_take; lia).
    destruct (decide (drop k src = [])) as [E|Hne].
    + unfold copyout_body. wstep. rewrite E. simpl length. wfalse; [|lia]. wsteps. split; [done|].
      exists m1, T1, fl1, k. split_and!; [done|done|]. left. split; [done|].
      apply (f_equal length) in E. rewrite length_drop in E. simpl in E. lia.
    + rewrite Hv by done. pose proof (copyout_body_wp (take k src) (drop k src) L m1 T1 fl1) as Hb.
      rewrite Htk in Hb. eapply wp_mono; [apply Hb; try done; by apply Forall_drop|].
      assert (Hlt : (k < length src)%nat).
      { destruct (decide (k < length src)%nat); [done|]. destruct Hne. apply drop_ge. lia. }
      intros [[va' rest']|res] s2 (m2 & T2 & fl2 & -> & Hres).
      * destruct Hres as (n & Hn' & -> & Hw2 & Hv2). rewrite length_drop in Hn'. simpl.
        rewrite take_take_drop in Hw2. split; [|rewrite !length_drop; lia].
        exists m2, T2, fl2, (k + n)%nat. rewrite drop_drop in *. split_and!; [done|lia|done|done|].
        intros Hd. rewrite Hv2 by done. lia.
      * destruct Hres as (-> & Hw2 & Hst). exists m2, T2, fl2, k. split_and!; [done|done|]. by right.
  - exists m, T, fl, 0%nat. simpl. split_and!; [symmetry; exact (over_view s)|lia| |done|lia].
    split; try done; intros; by auto.
  - simpl. lia.
Qed.
End Copyout.

Section OutCorrectness.
Context `{KernelImage}.

(** C3. copyout always returns.  It writes a prefix of [src] at [dstva]: all of
    it when it returns 0; when it returns -1 it stopped at an address with no
    page, or whose page is neither writable nor can be copied.  Every other byte
    the process could read is unchanged, and so is every page that others rely
    on: writes never leak through copy-on-write sharing. *)
Theorem copyout_correct s T fl dstva src L :
  let root := p_pagetable s in
  let m := vm_mem s in
  pt_rep m root T -> kmem_rep m fl -> uvalid m T -> noalias m T -> p_sz s <= MAXVA ->
  0 <= dstva -> Forall (fun b => 0 <= b < 256) src -> avail [kmem_lock; ref_lock] L ->
  wp (copyout root dstva src) L s (fun r s' => exists m2 T2 fl2 k,
    s' = over m2 s /\ pt_rep m2 root T2 /\ kmem_rep m2 fl2 /\ uvalid m2 T2 /\ noalias m2 T2 /\
    ubytes m2 T2 dstva (take k src) /\
    (forall x b, umem m T x = Some b -> x < dstva \/ dstva + Z.of_nat (length (take k src)) <= x ->
       umem m2 T2 x = Some b) /\
    (forall p, foreign m T p -> same_page (ram m) (ram m2) p) /\
    (r = 0 /\ k = length src \/
     r = -1 /\ (k < length src)%nat /\ stuck m2 T2 fl2 (dstva + Z.of_nat k))).
Proof.
  intros root m HT Hk Hu Hn Hsz Hd Hby HL.
  eapply wp_mono; [by apply (copyout_wp s T dstva Hsz Hd src L fl)|].
  intros r s' (m2 & T2 & fl2 & k & -> & [R K V N B E F] & Hr). exists m2, T2, fl2, k.
  split_and!; try done. intros p (_ & Hp & _)%F. exact Hp.
Qed.
End OutCorrectness.
