(* ===== verification/Brd.v ===== *)
(** The RAM disk, kernel/brd.c: a device of [RD_SIZE] bytes whose pages are
    allocated when they are first written.  Pages that were never written read as
    zeros.  The device is reached through the device switch, so reads and writes
    move bytes between the device and the memory of the current process. *)
From S2P Require Import Prelude Riscv PhysMem Kalloc PageTable Vm Cow Shm UserMem CopyOut.
Local Open Scope Z_scope.

Definition RD_SIZE : Z := 256 * 1024 * 1024.
Definition RD_PAGES : Z := RD_SIZE / PGSIZE.

(** The memory of the kernel and the current process, [rd_dev] (the pages that
    are missing from the table are null) and whether [devsw] has its functions. *)
Record rds := mkRds { rd_vm : vms; rd_pages : gmap Z Z; rd_loaded : Z; rd_devsw : bool }.

#[export] Program Instance rds_vms : Lens rds vms := {
  view := rd_vm;
  over v s := mkRds v (rd_pages s) (rd_loaded s) (rd_devsw s)
}.
Next Obligation. done. Qed.
Next Obligation. by intros []. Qed.
Next Obligation. done. Qed.

#[export] Program Instance rds_mem : Lens rds mem := {
  view s := vm_mem (rd_vm s);
  over m s := mkRds (over m (rd_vm s)) (rd_pages s) (rd_loaded s) (rd_devsw s)
}.
Next Obligation. done. Qed.
Next Obligation. by intros [[] ?]. Qed.
Next Obligation. done. Qed.

(** * The operations *)
Section Operations.
Context `{KernelImage}.

Definition page_at (pg : gmap Z Z) (i : Z) : Z := default 0 (pg !! i).
Definition set_page (i p : Z) (s : rds) : rds := mkRds (rd_vm s) (<[i := p]> (rd_pages s)) (rd_loaded s) (rd_devsw s).
Definition set_loaded (b : bool) (s : rds) : rds := mkRds (rd_vm s) (rd_pages s) (if b then 1 else 0) b.

(** initlock does not change the modelled state. *)
Definition rd_init : M rds unit := modify (fun s => mkRds (rd_vm s) (rd_pages s) 0 (rd_devsw s)).

Definition rd_walk (idx : Z) (alloc : bool) : M rds Z :=
  if decide (idx >= RD_PAGES) then mret 0
  else
    pa ← gets (fun s => page_at (rd_pages s) idx);
    if decide (pa = 0 /\ alloc = true)
    then
      pa ← zoom kalloc;
      if decide (pa = 0) then mret 0
      else zoom (memset pa 0 PGSIZE);; modify (set_page idx pa);; mret pa
    else mret pa.

(** What is read or written of [n] bytes at [off]: in C the sum is unsigned. *)
Definition clip (off n : Z) : Z := if decide (u32 (off + n) > RD_SIZE) then RD_SIZE - off else n.
(** The page, the offset in it and the length of the next piece. *)
Definition rd_idx (off total : Z) : Z := u32 (off + total) / PGSIZE.
Definition rd_off (off total : Z) : Z := u32 (off + total) mod PGSIZE.
Definition rd_len (off total n : Z) : Z :=
  let m := PGSIZE - rd_off off total in if decide (m > n - total) then n - total else m.

(** [m] bytes at the kernel address [src] to the destination; a copy to the user
    takes the bytes before it starts. *)
Definition copy_to (user_dst : bool) (dst src m : Z) : M rds Z :=
  if user_dst
  then
    bs ← zoom (memmove_from src m);
    pt ← gets (fun s => p_pagetable (rd_vm s));
    zoom (copyout pt dst bs)
  else zoom (memmove dst src m);; mret 0.

(** A hole reads as zeros, through a page that is given back; -1 on failure. *)
Definition read_hole (user_dst : bool) (dst m : Z) : M rds Z :=
  zero_page ← zoom kalloc;
  if decide (zero_page = 0) then mret (-1)
  else
    zoom (memset zero_page 0 PGSIZE);;
    r ← copy_to user_dst dst zero_page m;
    zoom (kfree zero_page);;
    mret r.

Definition rd_read_body (user_dst : bool) (dst off n total : Z) : M rds (Z + Z) :=
  if decide (total < n)
  then
    let m := rd_len off total n in
    acquire rd_lock;;
    pa ← rd_walk (rd_idx off total) false;
    release rd_lock;;
    if decide (pa = 0)
    then
      r ← read_hole user_dst (u64 (dst + total)) m;
      if decide (r < 0) then mret (inr (-1)) else mret (inl (s32 (total + m)))
    else
      r ← copy_to user_dst (u64 (dst + total)) (pa + rd_off off total) m;
      if decide (r < 0) then mret (inr (-1)) else mret (inl (s32 (total + m)))
  else mret (inr total).

Definition rd_read (user_dst : bool) (dst off n : Z) : M rds Z :=
  loaded ← gets rd_loaded;
  if decide (loaded = 0 \/ off >= RD_SIZE) then mret (-1)
  else
    let n := clip off n in
    loop (S (Z.to_nat n)) (rd_read_body user_dst dst off n) 0.

(** [m] bytes from the source to the kernel address [dst]; a copy from the user
    that fails has stored the bytes it read. *)
Definition copy_from (user_src : bool) (dst src m : Z) : M rds Z :=
  if user_src
  then
    pt ← gets (fun s => p_pagetable (rd_vm s));
    r ← zoom (copyin pt src m);
    zoom (memmove_to dst r.2);;
    mret r.1
  else zoom (memmove dst src m);; mret 0.

Definition rd_write_body (user_src : bool) (src off n total : Z) : M rds (Z + Z) :=
  if decide (total < n)
  then
    let m := rd_len off total n in
    acquire rd_lock;;
    pa ← rd_walk (rd_idx off total) true;
    release rd_lock;;
    if decide (pa = 0) then mret (inr (if decide (total > 0) then total else -1))
    else
      r ← copy_from user_src (pa + rd_off off total) (u64 (src + total)) m;
      if decide (r < 0) then mret (inr (-1)) else mret (inl (s32 (total + m)))
  else mret (inr total).

Definition rd_write (user_src : bool) (src off n : Z) : M rds Z :=
  loaded ← gets rd_loaded;
  if decide (loaded = 0 \/ off >= RD_SIZE) then mret (-1)
  else
    let n := clip off n in
    loop (S (Z.to_nat n)) (rd_write_body user_src src off n) 0.

Definition sys_load_ramdisk : M rds Z :=
  acquire rd_lock;;
  loaded ← gets rd_loaded;
  if decide (loaded <> 0) then release rd_lock;; mret (-1)
  else
    modify (set_loaded true);;
    release rd_lock;;
    mret 0.

Definition unload_body (i : Z) : M rds (Z + unit) :=
  if decide (i < RD_PAGES)
  then
    p ← gets (fun s => page_at (rd_pages s) i);
    (if decide (p <> 0) then zoom (kfree p);; modify (set_page i 0) else mret tt);;
    mret (inl (i + 1))
  else mret (inr tt).

Definition sys_unload_ramdisk : M rds Z :=
  acquire rd_lock;;
  loaded ← gets rd_loaded;
  if decide (loaded = 0) then release rd_lock;; mret (-1)
  else
    modify (set_loaded false);;
    loop (S (Z.to_nat RD_PAGES)) unload_body 0;;
    release rd_lock;;
    mret 0.
End Operations.

(** * The representation *)
Section Representation.
Context `{KernelImage}.
Implicit Types (m : mem) (T : ptree) (fl : list Z) (L : list lock) (pg : gmap Z Z).

Record rd_rep root m T fl pg : Prop := {
  rd_pt : pt_rep m root T;
  rd_kmem : kmem_rep m fl;
  rd_valid : uvalid m T;
  rd_noalias : noalias m T;
  rd_own : forall i, page_at pg i <> 0 -> 0 <= i < RD_PAGES /\ own m T (page_at pg i);
  rd_inj : forall i j, page_at pg i = page_at pg j -> page_at pg i <> 0 -> i = j
}.

(** The bytes of the device: a page that is missing reads as zeros. *)
Definition content m pg (x : Z) : Z :=
  let p := page_at pg (x / PGSIZE) in if decide (p = 0) then 0 else byte (ram m) (p + x mod PGSIZE).

Lemma free_unreached root m T fl p : pt_rep m root T -> kmem_rep m fl -> uvalid m T -> p ∈ fl -> unreached m T p.
Proof.
  intros HT Hk Hu Hp. split.
  - intros Hin. by apply (pt_set_free m root T fl p).
  - intros va Hva Hr E. destruct (Hu va Hva Hr) as (_ & _ & H1). rewrite E, (rep_refs _ _ Hk) in H1 by done. lia.
Qed.

Lemma rd_rep_free root m T fl pg p i : rd_rep root m T fl pg -> p ∈ fl -> page_at pg i = p -> False.
Proof.
  intros HR Hp E. assert (Hok : page_ok p) by by apply (rep_pages _ _ (rd_kmem _ _ _ _ _ HR)).
  pose proof (page_ok_pos _ Hok). destruct (rd_own _ _ _ _ _ HR i) as (_ & _ & H1); [unfold KERNBASE in *; lia|].
  rewrite E, (rep_refs _ _ (rd_kmem _ _ _ _ _ HR)) in H1 by done. lia.
Qed.

(** A change of the page [p], which the process does not reach. *)
Record quiet root m T pg (p : Z) m' fl' : Prop := {
  qt_rep : rd_rep root m' T fl' pg;
  qt_unreached : unreached m' T p;
  qt_pte : forall va, pte_at m' T va = pte_at m T va;
  qt_umem : forall x, umem m' T x = umem m T x;
  qt_kept : forall q, q <> p -> foreign m T q -> kept m m' T q;
  qt_content : forall x, page_at pg (x / PGSIZE) <> p -> content m' pg x = content m pg x
}.

Lemma rd_rep_step root m T fl pg p m' fl' :
  rd_rep root m T fl pg -> agree_off {[p]} m m' -> unreached m T p -> kmem_rep m' fl' ->
  (forall i, page_at pg i = p -> p <> 0 -> ref m' p = 1) -> quiet root m T pg p m' fl'.
Proof.
  intros [HT Hk Hu Hn Ho Hi] Ha Hun Hk' Hp. destruct (agree_private root m T p m' HT Hu Hn Ha Hun) as [HT' Hu' Hn' Hun' Hpte Hum Hkept].
  split; try done.
  - split; try done. intros i Hne. destruct (Ho i Hne) as [Hr Hown]. split; [done|]. destruct (decide (page_at pg i = p)) as [E|Hnp].
    + rewrite E in *. apply unreached_own; [apply Hown|done|by apply (Hp i)].
    + eapply kept_own; [done|]. apply Hkept; [done|apply Hown].
  - intros x Hne. unfold content. case_decide as E; [done|]. destruct (Ho _ E) as [_ [Hfo _]]. destruct (Hkept _ Hne Hfo) as (_ & Hs & _).
    symmetry. apply Hs. unfold PGSIZE. zdiv.
Qed.

(** A step of the process's memory. *)
Lemma rd_rep_kept root m T fl pg m' T' fl' :
  rd_rep root m T fl pg -> pt_rep m' root T' -> kmem_rep m' fl' -> uvalid m' T' -> noalias m' T' ->
  (forall p, foreign m T p -> kept m m' T' p) ->
  rd_rep root m' T' fl' pg /\ forall x, content m' pg x = content m pg x.
Proof.
  intros [_ _ _ _ Ho Hi] HT Hk Hu Hn Hf. split.
  - split; try done. intros i Hne. destruct (Ho i Hne) as [Hr Hown]. split; [done|]. eapply kept_own; [done|]. apply Hf, Hown.
  - intros x. unfold content. case_decide as E; [done|]. destruct (Ho _ E) as [_ [Hfo _]]. destruct (Hf _ Hfo) as (_ & Hs & _).
    symmetry. apply Hs. unfold PGSIZE. zdiv.
Qed.

(** The allocation of a zeroed page. *)
Lemma rd_alloc root m T fl pg p m1 m2 : rd_rep root m T (p :: fl) pg -> allocated m m1 p fl ->
  m2 = set_ram (fun r => memset_bytes r p 0 (Z.to_nat PGSIZE)) m1 ->
  quiet root m T pg p m2 fl /\ own m2 T p /\ zero_page (ram m2) p /\ (forall i, page_at pg i <> p) /\ forall q, foreign m T q -> q <> p.
Proof.
  intros HR [Hk1 Hok Hr1 Ha1 _] ->. pose proof HR as [HT Hk Hu _ _ _].
  assert (Hin : p ∈ p :: fl) by by left.
  assert (Hne : forall i, page_at pg i <> p) by (intros i E; by eapply rd_rep_free).
  assert (HQ : quiet root m T pg p (set_ram (fun r => memset_bytes r p 0 (Z.to_nat PGSIZE)) m1) fl).
  { eapply rd_rep_step; [done| |by eapply free_unreached| |by intros i E; destruct (Hne i)].
    - eapply agree_off_trans; [done|]. apply agree_memset, Hok.
    - eapply kmem_rep_agree; [apply agree_memset, Hok|done| |done]. pose proof (rep_nodup _ _ Hk) as [Hnin _]%NoDup_cons.
      intros q Hq ->%elem_of_singleton. done. }
  split_and!; try done.
  - apply unreached_own; [done|by apply HQ|done].
  - intros x Hx. simpl. rewrite byte_memset, decide_True; [done|]. by rewrite Z2Nat.id.
  - intros q (_ & _ & H1 & _) ->. rewrite (rep_refs _ _ Hk) in H1 by done. lia.
Qed.
End Representation.

(** * Pieces of the device *)
Section Pieces.
Context `{KernelImage}.
Implicit Types (m : mem) (pg : gmap Z Z).

(** The [n] bytes of the device from [off] on. *)
Definition cbytes m pg (off n : Z) : list Z := content m pg <$> seqZ off n.

Lemma cbytes_app m pg off n k : 0 <= n -> 0 <= k -> cbytes m pg off (n + k) = cbytes m pg off n ++ cbytes m pg (off + n) k.
Proof. intros. unfold cbytes. by rewrite seqZ_app, fmap_app by done. Qed.

Lemma length_cbytes m pg off n : length (cbytes m pg off n) = Z.to_nat n.
Proof. unfold cbytes. by rewrite length_fmap, length_seqZ. Qed.

Lemma cbytes_ext m pg m' pg' off n : (forall x, content m' pg' x = content m pg x) -> cbytes m' pg' off n = cbytes m pg off n.
Proof. intros E. apply list_fmap_ext. intros. apply E. Qed.

Lemma piece_facts off total n : 0 <= off -> 0 <= total < n -> off + n <= RD_SIZE ->
  off + total = PGSIZE * rd_idx off total + rd_off off total /\ 0 <= rd_off off total < PGSIZE /\
  0 < rd_len off total n <= n - total /\ rd_off off total + rd_len off total n <= PGSIZE /\ 0 <= rd_idx off total < RD_PAGES.
Proof.
  intros Ho Ht Hn. unfold rd_len, rd_idx, rd_off. change RD_PAGES with 65536. change RD_SIZE with 268435456 in *.
  rewrite u32_small by lia. unfold PGSIZE. case_decide; zdiv.
Qed.

Lemma content_piece m pg i o j : 0 <= o -> 0 <= j -> o + j < PGSIZE ->
  content m pg (PGSIZE * i + o + j) = if decide (page_at pg i = 0) then 0 else byte (ram m) (page_at pg i + o + j).
Proof.
  intros. unfold content. replace ((PGSIZE * i + o + j) / PGSIZE) with i by (unfold PGSIZE in *; zdiv).
  replace ((PGSIZE * i + o + j) mod PGSIZE) with (o + j) by (unfold PGSIZE in *; zdiv). case_decide; [done|]. f_equal. lia.
Qed.

Lemma cbytes_piece m pg i o n : 0 <= o -> 0 <= n -> o + n <= PGSIZE ->
  cbytes m pg (PGSIZE * i + o) n = if decide (page_at pg i = 0) then replicate (Z.to_nat n) 0 else load_bytes (ram m) (page_at pg i + o) (Z.to_nat n).
Proof.
  intros Ho Hn Hb. apply list_eq. intros j. destruct (decide (j < Z.to_nat n)%nat) as [Hj|Hj].
  - unfold cbytes. rewrite list_lookup_fmap, lookup_seqZ_lt by lia. simpl. rewrite content_piece by lia.
    case_decide; [by rewrite lookup_replicate_2|]. by rewrite load_bytes_lookup.
  - rewrite !lookup_ge_None_2; [done| |by rewrite length_cbytes; lia]. case_decide; [rewrite length_replicate|rewrite length_load_bytes]; lia.
Qed.

Lemma zero_page_bytes m p n : zero_page (ram m) p -> n <= PGSIZE -> load_bytes (ram m) p (Z.to_nat n) = replicate (Z.to_nat n) 0.
Proof.
  intros Hz Hn. apply list_eq. intros j. destruct (decide (j < Z.to_nat n)%nat).
  - rewrite load_bytes_lookup, lookup_replicate_2 by done. f_equal. apply Hz. lia.
  - rewrite !lookup_ge_None_2; [done|rewrite length_replicate; lia|rewrite length_load_bytes; lia].
Qed.

Lemma load_bytes_bytes m a n : Forall (fun b => 0 <= b < 256) (load_bytes (ram m) a n).
Proof.
  apply Forall_lookup. intros i b Hi. pose proof (lookup_lt_Some _ _ _ Hi) as Hl. rewrite length_load_bytes in Hl.
  rewrite load_bytes_lookup in Hi by done. injection Hi as <-. apply byte_range.
Qed.
End Pieces.

(** * Reading *)
Section Read.
Context `{KernelImage}.
Implicit Types (s : rds) (m : mem) (T : ptree) (fl : list Z) (L : list lock).

Notation mem_of s := (vm_mem (rd_vm s)).
Notation root_of s := (p_pagetable (rd_vm s)).

(** The device and the current process are well-formed. *)
Definition rd_state s T fl : Prop := rd_rep (root_of s) (mem_of s) T fl (rd_pages s) /\ p_sz (rd_vm s) <= MAXVA.

(** From [s] to [s'] the bytes [l] were written to user memory at [dst] and
    nothing else changed, neither in the device nor in a page of others. *)
Record reads s T (dst : Z) (l : list Z) s' T' fl' : Prop := {
  ro_state : rd_state s' T' fl';
  ro_same : s' = over (mem_of s') s;
  ro_content : forall x, content (mem_of s') (rd_pages s') x = content (mem_of s) (rd_pages s) x;
  ro_bytes : ubytes (mem_of s') T' dst l;
  ro_keep : forall x b, umem (mem_of s) T x = Some b -> x < dst \/ dst + Z.of_nat (length l) <= x -> umem (mem_of s') T' x = Some b;
  ro_kept : forall q, foreign (mem_of s) T q -> kept (mem_of s) (mem_of s') T' q
}.

(** Why a read stops at [va]: no memory, or no page that can be written. *)
Definition unwritable m T fl (va : Z) : Prop :=
  fl = [] \/ umem m T va = None \/
  let v := pte_at m T (PGROUNDDOWN va) in has_bits v PTE_W = false /\ (has_bits v PTE_C = false \/ (length fl <= 1)%nat).

Lemma reads_refl s T fl dst : rd_state s T fl -> reads s T dst [] s T fl.
Proof. intros HS. split; try done. by destruct s as [[] ???]. Qed.

Lemma reads_trans s T dst l s1 T1 fl1 l2 s2 T2 fl2 :
  reads s T dst l s1 T1 fl1 -> reads s1 T1 (dst + Z.of_nat (length l)) l2 s2 T2 fl2 -> reads s T dst (l ++ l2) s2 T2 fl2.
Proof.
  intros [_ E1 C1 B1 K1 F1] [S2 E2 C2 B2 K2 F2]. split; try done.
  - rewrite E2, E1. done.
  - intros x. by rewrite C2.
  - apply ubytes_app; [|done]. intros i b Hi. pose proof (lookup_lt_Some _ _ _ Hi). apply K2; [by apply B1|lia].
  - intros x b Hx Hout. rewrite length_app in Hout. apply K2; [apply K1; [done|lia]|lia].
  - intros q Hq. eapply kept_trans; [by apply F1|]. apply F2, F1, Hq.
Qed.

Lemma reads_wrote s T fl dst l m2 T2 fl2 : rd_state s T fl -> wrote (rd_vm s) T dst l m2 T2 fl2 -> reads s T dst l (over m2 s) T2 fl2.
Proof.
  intros [HR Hsz] [R K V N B U F]. destruct (rd_rep_kept _ _ _ _ _ _ _ _ HR R K V N F) as [HR2 HC]. by split.
Qed.

Lemma copy_to_user_wp s T fl dst p src n L : rd_state s T fl -> page_ok p -> p <= src -> 0 <= n -> src + n <= p + PGSIZE -> 0 <= dst -> avail [kmem_lock; ref_lock] L ->
  let bs := load_bytes (ram (mem_of s)) src (Z.to_nat n) in
  wp (copy_to true dst src n) L s (fun r s' => exists m2 T2 fl2 k, s' = over m2 s /\ wrote (rd_vm s) T dst (take k bs) m2 T2 fl2 /\
    (r = 0 /\ k = length bs \/ r = -1 /\ (k < length bs)%nat /\ stuck m2 T2 fl2 (dst + Z.of_nat k))).
Proof.
  intros [[HT Hk Hu Hn _ _] Hsz] Hok Hlo Hn0 Hhi Hd HL bs. unfold copy_to. wsteps. unfold memmove_from.
  wtrue; [|pose proof (page_ok_whole _ Hok); unfold ram_ok in *; lia]. wsteps. rewrite over_view. fold bs.
  eapply wpl_call; [apply (copyout_wp (rd_vm s) T dst Hsz Hd bs L fl HT Hk Hu Hn); [apply load_bytes_bytes|done]|].
  intros r v (m2 & T2 & fl2 & k & -> & Hw & Hr). split; [done|]. by exists m2, T2, fl2, k.
Qed.

Lemma read_hole_wp s T fl dst n L : rd_state s T fl -> 0 < n <= PGSIZE -> 0 <= dst -> avail [kmem_lock; ref_lock] L ->
  wp (read_hole true dst n) L s (fun r s' => exists T' fl' k, reads s T dst (replicate k 0) s' T' fl' /\
    (r = 0 /\ k = Z.to_nat n \/ r = -1 /\ (k < Z.to_nat n)%nat /\ unwritable (mem_of s') T' fl' (dst + Z.of_nat k))).
Proof.
  intros HS Hn Hd HL. pose proof HS as [HR Hsz]. unfold read_hole. wsteps. wcall kalloc_wp; [apply HR|done|]. intros p m1 Hp.
  destruct fl as [|q fl]; [destruct Hp as [-> ->]|destruct Hp as [-> Hal]].
  { wtrue; [|done]. wsteps. split; [done|]. exists T, [], O. split; [|right; split_and!; [done|lia|by left]].
    replace (over (view s) s) with s by (symmetry; apply over_view). by apply reads_refl. }
  pose proof (alloc_page _ _ _ _ Hal) as Hok. pose proof (page_ok_pos _ Hok). wfalse; [|unfold KERNBASE in *; lia]. wsteps.
  apply wpl_memset; [by apply page_ok_whole|]. set (m2 := set_ram _ (view (over m1 s))).
  destruct (rd_alloc _ _ _ _ _ _ _ m2 HR Hal eq_refl) as (HQ & Hown & Hz & Hni & Hnf). rewrite over_over. wstep.
  assert (HS2 : rd_state (over m2 s) T fl) by (split; [apply HQ|done]).
  eapply wpl_call; [by apply (copy_to_user_wp _ T fl dst q q n L HS2); try done; lia|].
  intros r s' (m3 & T3 & fl3 & k & -> & Hw & Hr). rewrite over_over. wsteps. change (mem_of (over m2 s)) with m2 in *.
  rewrite (zero_page_bytes m2 q n Hz) in Hw, Hr by lia. rewrite take_replicate in Hw. rewrite length_replicate in Hr.
  pose proof (reads_wrote _ _ _ _ _ _ _ _ HS2 Hw) as Hrd. pose proof (wr_foreign _ _ _ _ _ _ _ Hw) as Hkf. change (vm_mem (rd_vm (over m2 s))) with m2 in Hkf.
  pose proof (kept_own _ _ _ _ _ Hown (Hkf q (proj1 Hown))) as Hown3.
  wcall (kfree_last_wp q L m3 fl3); [by eapply wr_kmem|done|by apply Hown3|done|]. intros _ m4 (Hk4 & _ & Ha4). rewrite over_over. wsteps. split; [done|].
  pose proof (ro_state _ _ _ _ _ _ _ Hrd) as [HR3 _].
  destruct (rd_rep_step _ _ _ _ _ q m4 (q :: fl3) HR3 Ha4 (own_unreached _ _ _ Hown3) Hk4) as [HR4 _ Hpte4 Hum4 Hkp4 HC4]; [by intros i ?%Hni|].
  exists T3, (q :: fl3), (min k (Z.to_nat n)). split; [split|].
  - by split.
  - done.
  - intros x. etrans; [apply HC4, Hni|]. etrans; [apply (ro_content _ _ _ _ _ _ _ Hrd)|]. apply (qt_content _ _ _ _ _ _ _ HQ), Hni.
  - intros i b Hi. rewrite Hum4. by apply (ro_bytes _ _ _ _ _ _ _ Hrd).
  - intros x b Hx Hout. rewrite Hum4. apply (ro_keep _ _ _ _ _ _ _ Hrd); [|done]. by rewrite (qt_umem _ _ _ _ _ _ _ HQ).
  - intros x Hx. eapply kept_trans; [apply (qt_kept _ _ _ _ _ _ _ HQ); [by apply Hnf|done]|]. eapply kept_trans; [apply Hkf, (qt_kept _ _ _ _ _ _ _ HQ); [by apply Hnf|done]|].
    apply Hkp4; [by apply Hnf|]. apply Hkf, (qt_kept _ _ _ _ _ _ _ HQ); [by apply Hnf|done].
  - destruct Hr as [[-> ->]|(-> & Hlt & Hst)]; [left; split; [done|lia]|right]. split_and!; [done|lia|]. replace (min k (Z.to_nat n)) with k by lia.
    unfold unwritable. cbn [rd_vm over rds_mem]. right. rewrite Hpte4, Hum4. destruct Hst as [?|[? [?| ->]]]; [by left|right; split; auto..].
Qed.

Lemma rd_walk_find_wp s idx L : 0 <= idx < RD_PAGES -> wp (rd_walk idx false) L s (fun r s' => r = page_at (rd_pages s) idx /\ s' = s).
Proof. intros Hi. unfold rd_walk. wsteps. wfalse; [|lia]. wsteps. wfalse; [|by intros [_ ?]]. by wsteps. Qed.

(** The next piece of a read of [n] bytes at [off]. *)
Lemma rd_read_body_wp s T fl dst off n total L : rd_state s T fl -> 0 <= off -> 0 <= total < n -> off + n <= RD_SIZE -> 0 <= dst -> avail [rd_lock; kmem_lock; ref_lock] L ->
  dst + total < 2 ^ 64 ->
  wp (rd_read_body true dst off n total) L s (fun r s' => exists T' fl' l, reads s T (dst + total) l s' T' fl' /\
    match r with
    | inl t => total < t <= n /\ l = cbytes (mem_of s) (rd_pages s) (off + total) (t - total)
    | inr res => res = -1 /\ l `prefix_of` cbytes (mem_of s) (rd_pages s) (off + total) (n - total) /\ Z.of_nat (length l) < n - total /\ unwritable (mem_of s') T' fl' (dst + total + Z.of_nat (length l))
    end).
Proof.
  intros HS Ho Ht Hn Hd HL Hw. destruct (piece_facts off total n Ho Ht Hn) as (Ex & Hro & Hlen & Hpg & Hix).
  unfold rd_read_body. wstep. wtrue; [|lia]. set (i := rd_idx off total) in *. set (o := rd_off off total) in *. set (k := rd_len off total n) in *.
  change RD_SIZE with 268435456 in Hn.
  wsteps. eapply wpl_call; [by apply rd_walk_find_wp|]. intros ? ? [-> ->]. wsteps. rewrite u64_small by lia.
  assert (Hcb : cbytes (mem_of s) (rd_pages s) (off + total) (n - total) = cbytes (mem_of s) (rd_pages s) (off + total) k ++ cbytes (mem_of s) (rd_pages s) (off + total + k) (n - total - k)).
  { rewrite <- cbytes_app by lia. f_equal. lia. }
  rewrite Hcb. pose proof (cbytes_piece (mem_of s) (rd_pages s) i o k ltac:(lia) ltac:(lia) Hpg) as Hc. rewrite <- Ex in Hc. rewrite Hc. clear Hcb.
  assert (HL' : avail [kmem_lock; ref_lock] L) by solve_avail.
  destruct (decide (page_at (rd_pages s) i = 0)) as [Hp|Hp].
  - wstep. eapply wpl_call; [by apply (read_hole_wp s T fl (dst + total) k); try done; lia|]. intros r s' (T' & fl' & j & Hrd & Hr).
    destruct Hr as [[-> ->]|(-> & Hlt & Hun)].
    + wfalse; [|lia]. wsteps. split; [done|]. exists T', fl', (replicate (Z.to_nat k) 0). rewrite s32_small by lia. split_and!; [done|lia|lia|].
      replace (total + k - total) with k by lia. by rewrite Hc.
    + wtrue; [|lia]. wsteps. split; [done|]. exists T', fl', (replicate j 0). rewrite length_replicate. split_and!; [done|done| |lia|done].
      apply prefix_app_r. exists (replicate (Z.to_nat k - j) 0). rewrite <- replicate_add. f_equal. lia.
  - wstep. destruct HS as [HR Hsz]. destruct (rd_own _ _ _ _ _ HR i Hp) as [_ [(Hok & _) _]].
    eapply wpl_call; [by apply (copy_to_user_wp s T fl (dst + total) (page_at (rd_pages s) i)); try done; lia|].
    intros r s' (m2 & T2 & fl2 & j & -> & Hwr & Hr). apply (reads_wrote _ _ fl) in Hwr; [|done]. rewrite length_load_bytes in Hr.
    destruct Hr as [[-> ->]|(-> & Hlt & Hun)].
    + wfalse; [|lia]. wsteps. split; [done|]. eexists T2, fl2, _. rewrite s32_small by lia. split; [exact Hwr|]. split; [lia|].
      replace (total + k - total) with k by lia. rewrite Hc. apply take_ge. by rewrite length_load_bytes.
    + wtrue; [|lia]. wsteps. split; [done|]. eexists T2, fl2, _. split; [exact Hwr|]. rewrite length_take, length_load_bytes.
      split_and!; [done|apply prefix_app_r, prefix_take|lia|]. replace (min j (Z.to_nat k)) with j by lia.
      unfold unwritable. right. destruct Hun as [?|[? [?| ->]]]; [by left|right; split; auto..].
Qed.

(** Reading from a well-formed device. *)
Lemma rd_read_wp s T fl dst off n L : rd_state s T fl -> rd_loaded s <> 0 -> 0 <= off < RD_SIZE -> 0 <= n < 2 ^ 31 -> 0 <= dst < 2 ^ 64 -> avail [rd_lock; kmem_lock; ref_lock] L ->
  let all := cbytes (mem_of s) (rd_pages s) off (Z.min n (RD_SIZE - off)) in
  wp (rd_read true dst off n) L s (fun r s' => exists T' fl' l, reads s T dst l s' T' fl' /\
    (r = Z.of_nat (length all) /\ l = all \/
     r = -1 /\ l `prefix_of` all /\ (length l < length all)%nat /\ unwritable (mem_of s') T' fl' (dst + Z.of_nat (length l)))).
Proof.
  intros HS Hld Ho Hn Hd HL. unfold rd_read. wsteps. wfalse; [|intros [?|?]; [done|lia]].
  assert (Hclip : clip off n = Z.min n (RD_SIZE - off)).
  { unfold clip. change RD_SIZE with 268435456 in *. rewrite u32_small by lia. case_decide; lia. }
  rewrite Hclip. set (c := Z.min n (RD_SIZE - off)). assert (Hc : 0 <= c /\ off + c <= RD_SIZE) by (unfold c; lia). clearbody c. clear Hclip.
  rewrite length_cbytes. apply (wpl_loop (fun total s1 => 0 <= total <= c /\ exists T1 fl1, reads s T dst (cbytes (mem_of s) (rd_pages s) off total) s1 T1 fl1) (fun total => Z.to_nat (c - total))).
  - intros total s1 [Ht (T1 & fl1 & Hrd)]. destruct (decide (total < c)) as [Hlt|Hge].
    + assert (Hwrap : dst + total < 2 ^ 64).
      { destruct (decide (total = 0)) as [->|]; [lia|]. assert (Hb0 : is_Some (cbytes (mem_of s) (rd_pages s) off total !! O)) by (apply lookup_lt_is_Some_2; rewrite length_cbytes; lia).
        destruct Hb0 as [b Hb]. apply (ro_bytes _ _ _ _ _ _ _ Hrd) in Hb. unfold umem in Hb. case_decide; [|done]. change MAXVA with (2 ^ 38) in *. change RD_SIZE with 268435456 in *. lia. }
      eapply wp_mono; [by apply (rd_read_body_wp s1 T1 fl1 dst off c total L); try done; [apply Hrd|lia..]|].
      intros r s2 (T2 & fl2 & l & Hrd2 & Hr). pose proof (fun o k => cbytes_ext _ _ _ _ o k (ro_content _ _ _ _ _ _ _ Hrd)) as Hext.
      replace (dst + total) with (dst + Z.of_nat (length (cbytes (mem_of s) (rd_pages s) off total))) in Hrd2 by (rewrite length_cbytes; lia).
      pose proof (reads_trans _ _ _ _ _ _ _ _ _ _ _ Hrd Hrd2) as Hall. destruct r as [t|res].
      * destruct Hr as [Ht' ->]. rewrite Hext in Hall. rewrite <- cbytes_app in Hall by lia. replace (total + (t - total)) with t in Hall by lia. split; [split; [lia|]; by eauto|lia].
      * destruct Hr as (-> & Hpre & Hlen & Hun). rewrite Hext in Hpre. eexists T2, fl2, _. split; [exact Hall|]. right. rewrite length_app, length_cbytes. split_and!; [done| |lia|].
        -- replace c with (total + (c - total)) by lia. rewrite cbytes_app by lia. by apply prefix_app.
        -- replace (dst + Z.of_nat (Z.to_nat total + length l)) with (dst + total + Z.of_nat (length l)) by lia. done.
    + unfold rd_read_body. wstep. wfalse; [|lia]. wsteps. split; [done|]. assert (total = c) as -> by lia. eexists T1, fl1, _. split; [exact Hrd|]. left. split; [lia|done].
  - split; [lia|]. exists T, fl. apply reads_refl, HS.
  - lia.
Qed.
End Read.

(** * Writing *)
Section Write.
Context `{KernelImage}.
Implicit Types (s : rds) (m : mem) (T : ptree) (fl : list Z) (L : list lock).

Notation mem_of s := (vm_mem (rd_vm s)).
Notation root_of s := (p_pagetable (rd_vm s)).

(** From [s] to [s'] the bytes [l] were stored at [off] of the device; the
    process reads what it read before, and the pages of others are untouched. *)
Record writes s T (off : Z) (l : list Z) s' T' fl' : Prop := {
  wo_state : rd_state s' T' fl';
  wo_vm : rd_vm s' = over (mem_of s') (rd_vm s);
  wo_flags : rd_loaded s' = rd_loaded s /\ rd_devsw s' = rd_devsw s;
  wo_in : forall i b, l !! i = Some b -> content (mem_of s') (rd_pages s') (off + Z.of_nat i) = b;
  wo_out : forall x, x < off \/ off + Z.of_nat (length l) <= x -> content (mem_of s') (rd_pages s') x = content (mem_of s) (rd_pages s) x;
  wo_umem : forall x b, umem (mem_of s) T x = Some b -> umem (mem_of s') T' x = Some b;
  wo_kept : forall q, foreign (mem_of s) T q -> (forall i, page_at (rd_pages s) i <> q) ->
    kept (mem_of s) (mem_of s') T' q /\ forall i, page_at (rd_pages s') i <> q
}.

Lemma writes_refl s T fl off : rd_state s T fl -> writes s T off [] s T fl.
Proof. intros HS. split; try done. by destruct s as [[] ???]. Qed.

Lemma writes_trans s T off l s1 T1 fl1 l2 s2 T2 fl2 :
  writes s T off l s1 T1 fl1 -> writes s1 T1 (off + Z.of_nat (length l)) l2 s2 T2 fl2 -> writes s T off (l ++ l2) s2 T2 fl2.
Proof.
  intros [_ E1 [Fl1 Fd1] I1 O1 U1 K1] [S2 E2 [Fl2 Fd2] I2 O2 U2 K2]. split; try done.
  - rewrite E2, E1. done.
  - by rewrite Fl2, Fd2.
  - intros i b [Hi|[Hge Hi]]%lookup_app_Some.
    + pose proof (lookup_lt_Some _ _ _ Hi). rewrite O2 by lia. by apply I1.
    + apply I2 in Hi. rewrite <- Hi. f_equal. lia.
  - intros x Hx. rewrite length_app in Hx. rewrite O2, O1 by lia. done.
  - auto.
  - intros q Hq Hn. destruct (K1 q Hq Hn) as [Hk1 Hn1]. destruct (K2 q (proj1 Hk1) Hn1) as [Hk2 Hn2]. split; [by eapply kept_trans|done].
Qed.

(** A new page of the device. *)
Lemma writes_alloc s T fl p m1 m2 idx off : rd_state s T (p :: fl) -> allocated (mem_of s) m1 p fl -> 0 <= idx < RD_PAGES -> page_at (rd_pages s) idx = 0 ->
  m2 = set_ram (fun r => memset_bytes r p 0 (Z.to_nat PGSIZE)) m1 ->
  writes s T off [] (set_page idx p (over m2 s)) T fl.
Proof.
  intros [HR Hsz] Hal Hix H0 E2. destruct (rd_alloc _ _ _ _ _ _ _ m2 HR Hal E2) as (HQ & Hown & Hz & Hni & Hnf). destruct HQ as [[HT Hk Hu Hn Ho Hi] _ _ Hum Hkp HC].
  assert (Hpa : forall i, page_at (<[idx := p]> (rd_pages s)) i = if decide (i = idx) then p else page_at (rd_pages s) i).
  { intros i. unfold page_at. case_decide as Hd; [subst; by rewrite lookup_insert_eq|by rewrite lookup_insert_ne]. }
  split; cbn [rd_vm rd_pages rd_loaded rd_devsw set_page over rds_mem vms_mem]; try done.
  - split; [|done]. split; try done; cbn [rd_pages set_page].
    + intros i. rewrite Hpa. case_decide; [by subst|]. apply Ho.
    + intros i j. rewrite !Hpa. repeat case_decide; try congruence. by apply Hi.
  - intros x _. unfold content at 1. rewrite Hpa. destruct (decide (x / PGSIZE = idx)) as [E|E].
    + rewrite decide_False by (intros ->; destruct Hown as [(Hok & _) _]; pose proof (page_ok_pos _ Hok); unfold KERNBASE in *; lia).
      unfold content. rewrite E, decide_True by done. apply Hz. unfold PGSIZE. zdiv.
    + rewrite <- HC by apply Hni. done.
  - intros x b Hx. by rewrite Hum.
  - intros q Hq Hnq. split; [apply Hkp; [by apply Hnf|done]|]. intros i. rewrite Hpa. case_decide; [|apply Hnq]. intros ->. by apply (Hnf q).
Qed.

Lemma rd_walk_alloc_wp s T fl idx off L : rd_state s T fl -> 0 <= idx < RD_PAGES -> avail [kmem_lock; ref_lock] L ->
  wp (rd_walk idx true) L s (fun r s' => exists fl', writes s T off [] s' T fl' /\
    (r = 0 /\ fl' = [] \/ r <> 0 /\ r = page_at (rd_pages s') idx)).
Proof.
  intros HS Hix HL. unfold rd_walk. wsteps. wfalse; [|lia]. wsteps. wcase as Hp.
  2:{ wsteps. split; [done|]. exists fl. split; [by apply writes_refl|]. right. split; [|done]. intros E. by destruct Hp. }
  destruct Hp as [Hp _]. wsteps. wcall kalloc_wp; [apply HS|done|]. intros p m1 Hr.
  destruct fl as [|q fl]; [destruct Hr as [-> ->]|destruct Hr as [-> Hal]].
  { wtrue; [|done]. wsteps. split; [done|]. exists []. split; [|by left]. rewrite over_view. by apply writes_refl. }
  pose proof (page_ok_pos _ (alloc_page _ _ _ _ Hal)). wfalse; [|unfold KERNBASE in *; lia]. wsteps.
  apply wpl_memset; [by apply page_ok_whole, (alloc_page _ _ _ _ Hal)|]. wsteps. split; [done|]. exists fl. rewrite over_over. split.
  - by eapply writes_alloc.
  - right. split; [unfold KERNBASE in *; lia|]. unfold page_at. cbn. by rewrite lookup_insert_eq.
Qed.

(** Storing bytes in a page of the device. *)
Lemma writes_store s T fl idx o l : rd_state s T fl -> page_at (rd_pages s) idx <> 0 -> 0 <= o -> o + Z.of_nat (length l) <= PGSIZE -> Forall (fun b => 0 <= b < 256) l ->
  let s' := over (set_ram (fun r => store_bytes r (page_at (rd_pages s) idx + o) l) (mem_of s)) s in
  writes s T (PGSIZE * idx + o) l s' T fl /\ forall x, umem (mem_of s') T x = umem (mem_of s) T x.
Proof.
  intros [HR Hsz] Hne Ho Hlen Hby. set (p := page_at (rd_pages s) idx) in *. destruct (rd_own _ _ _ _ _ HR idx Hne) as [Hix Hown]. fold p in Hown.
  pose proof Hown as [(Hok & Hnt & _ & _) H1].
  assert (Ha : agree_off {[p]} (mem_of s) (set_ram (fun r => store_bytes r (p + o) l) (mem_of s))).
  { intros q Hq Hqp. split; [|done]. intros x Hx. symmetry. apply byte_store_bytes_out. destruct (decide (p <= x < p + PGSIZE)); [|lia].
    destruct (pages_disjoint p q x); try done; [apply Hok|set_solver]. }
  assert (Hk : kmem_rep (set_ram (fun r => store_bytes r (p + o) l) (mem_of s)) fl).
  { eapply kmem_rep_agree; [exact Ha|done| |apply HR]. intros q Hq ->%elem_of_singleton. rewrite (rep_refs _ _ (rd_kmem _ _ _ _ _ HR)) in H1 by done. lia. }
  destruct (rd_rep_step _ _ _ _ _ p _ fl HR Ha (own_unreached _ _ _ Hown) Hk) as [HR' _ _ Hum Hkp HC]; [by intros _ _ _|].
  split; [|exact Hum]. split; cbn [rd_vm rd_pages rd_loaded rd_devsw over rds_mem vms_mem]; try done.
  - intros i b Hi. pose proof (lookup_lt_Some _ _ _ Hi). rewrite content_piece by lia. fold p. rewrite decide_False by done. cbn [ram set_ram vm_mem].
    rewrite (byte_store_bytes_in _ _ _ _ _ Hi). apply u8_small. by eapply (Forall_lookup_1 (fun b => 0 <= b < 256)).
  - intros x Hx. destruct (decide (x / PGSIZE = idx)) as [E|E].
    + unfold content. rewrite E. fold p. rewrite !decide_False by done. cbn [ram set_ram vm_mem]. apply byte_store_bytes_out. unfold PGSIZE in *. zdiv.
    + apply HC. intros E'. apply E. by apply (rd_inj _ _ _ _ _ HR); rewrite E'.
  - intros x b Hx. by rewrite Hum.
  - intros q Hq Hnq. split; [|done]. apply Hkp; [|done]. intros ->. by apply (Hnq idx).
Qed.

Lemma in_result_ext m T m' T' va n r : (forall x, umem m' T' x = umem m T x) -> in_result m T va n r -> in_result m' T' va n r.
Proof. unfold in_result, ubytes. intros E. by setoid_rewrite E. Qed.

(** The copy of a piece from the user. *)
Lemma copy_from_user_wp s T fl idx o src n L : rd_state s T fl -> page_at (rd_pages s) idx <> 0 -> 0 <= o -> 0 <= n -> o + n <= PGSIZE -> 0 <= src -> avail [kmem_lock; ref_lock] L ->
  wp (copy_from true (page_at (rd_pages s) idx + o) src n) L s (fun r s' => exists T' fl' l, writes s T (PGSIZE * idx + o) l s' T' fl' /\ in_result (mem_of s') T' src n (r, l)).
Proof.
  intros HS Hne Ho Hn Hpg Hs HL. pose proof HS as [HR Hsz]. unfold copy_from. wsteps.
  eapply wpl_call; [by apply (copyin_wp (rd_vm s) T fl (rd_pt _ _ _ _ _ HR) (rd_kmem _ _ _ _ _ HR) (rd_valid _ _ _ _ _ HR) Hsz src n L)|].
  intros [r l] v (m2 & T2 & fl2 & -> & Hf & Hr). wsteps. cbn [fst snd].
  destruct (uext_ukeep _ _ _ _ _ _ _ _ (rd_kmem _ _ _ _ _ HR) (rd_valid _ _ _ _ _ HR) (rd_noalias _ _ _ _ _ HR) Hf) as [R2 K2 V2 N2 U2 F2].
  destruct (rd_rep_kept _ _ _ _ _ _ _ _ HR R2 K2 V2 N2 F2) as [HR2 HC2].
  set (s1 := over (over m2 (rd_vm s)) s). change (over m2 s) with s1 in *. assert (HS1 : rd_state s1 T2 fl2) by by split.
  assert (Hw1 : writes s T (PGSIZE * idx + o) [] s1 T2 fl2) by (split; try done; auto).
  assert (Hub : ubytes m2 T2 src l /\ Z.of_nat (length l) <= n) by (destruct Hr as [(_ & ? & ?)|(_ & ? & ? & ? & _)]; cbn [fst snd] in *; split; try done; lia).
  destruct Hub as [Hub Hl]. assert (Hby : Forall (fun b => 0 <= b < 256) l).
  { apply Forall_lookup. intros i b Hi%Hub. unfold umem in Hi. case_decide; [|done]. destruct (readable _); [|done]. injection Hi as <-. apply byte_range. }
  destruct (rd_own _ _ _ _ _ HR idx Hne) as [_ [(Hok & _) _]]. pose proof (page_ok_whole _ Hok) as Hram.
  apply wpl_memmove_to; [unfold ram_ok in *; lia|]. wsteps. split; [done|].
  destruct (writes_store s1 T2 fl2 idx o l HS1 Hne Ho ltac:(lia) Hby) as [Hw2 Hum2]. eexists T2, fl2, l. split.
  - apply (writes_trans s T _ [] s1 T2 fl2 l); [done|]. replace (_ + Z.of_nat _) with (PGSIZE * idx + o) by (simpl; lia). exact Hw2.
  - by apply (in_result_ext m2 T2).
Qed.

(** The next piece of a write of [n] bytes at [off]. *)
Lemma rd_write_body_wp s T fl src off n total L : rd_state s T fl -> 0 <= off -> 0 <= total < n -> off + n <= RD_SIZE -> 0 <= src -> avail [rd_lock; kmem_lock; ref_lock] L ->
  src + total < 2 ^ 64 ->
  wp (rd_write_body true src off n total) L s (fun r s' => exists T' fl' l, writes s T (off + total) l s' T' fl' /\ ubytes (mem_of s') T' (src + total) l /\
    match r with
    | inl t => total < t <= n /\ Z.of_nat (length l) = t - total
    | inr res => Z.of_nat (length l) < n - total /\
        (l = [] /\ fl' = [] /\ res = (if decide (total > 0) then total else -1) \/
         res = -1 /\ exists j, Z.of_nat (length l) <= j < n - total /\ umem (mem_of s') T' (src + total + j) = None)
    end).
Proof.
  intros HS Ho Ht Hn Hd HL Hw. destruct (piece_facts off total n Ho Ht Hn) as (Ex & Hro & Hlen & Hpg & Hix).
  unfold rd_write_body. wstep. wtrue; [|lia]. set (i := rd_idx off total) in *. set (o := rd_off off total) in *. set (k := rd_len off total n) in *.
  change RD_SIZE with 268435456 in Hn.
  wsteps. eapply wpl_call; [apply (rd_walk_alloc_wp s T fl i (off + total)); [done|done|solve_avail]|]. intros pa s1 (fl1 & Hw1 & Hpa). wsteps. rewrite u64_small by lia.
  destruct Hpa as [[-> ->]|[Hp ->]].
  { wtrue; [|done]. wsteps. split; [done|]. exists T, [], []. split_and!; [done|done|simpl; lia|]. by left. }
  wfalse; [|done]. wstep. pose proof (wo_state _ _ _ _ _ _ _ Hw1) as HS1.
  eapply wpl_call; [apply (copy_from_user_wp s1 T fl1 i o (src + total) k L HS1 Hp); [lia..|solve_avail]|].
  intros r s2 (T2 & fl2 & l & Hw2 & Hr). rewrite <- Ex in Hw2.
  pose proof (writes_trans s T (off + total) [] s1 T fl1 l s2 T2 fl2 Hw1) as Hw3. simpl in Hw3. rewrite Z.add_0_r in Hw3. specialize (Hw3 Hw2).
  unfold in_result in Hr. cbn [fst snd] in Hr. destruct Hr as [(-> & Hl & Hb)|(-> & Hb & j & Hj & Hno)].
  - wfalse; [|lia]. wsteps. split; [done|]. exists T2, fl2, l. rewrite s32_small by lia. split_and!; try done; lia.
  - wtrue; [|lia]. wsteps. split; [done|]. exists T2, fl2, l. split_and!; [done|done|lia|]. right. split; [done|]. exists j. split; [lia|done].
Qed.

(** Writing to a well-formed device. *)
Lemma rd_write_wp s T fl src off n L : rd_state s T fl -> rd_loaded s <> 0 -> 0 <= off < RD_SIZE -> 0 <= n < 2 ^ 31 -> 0 <= src < 2 ^ 64 -> avail [rd_lock; kmem_lock; ref_lock] L ->
  let c := Z.min n (RD_SIZE - off) in
  wp (rd_write true src off n) L s (fun r s' => exists T' fl' l, writes s T off l s' T' fl' /\ ubytes (mem_of s') T' src l /\
    let k := Z.of_nat (length l) in
    (r = c /\ k = c \/
     k < c /\ (fl' = [] /\ r = (if decide (k > 0) then k else -1) \/ r = -1 /\ exists j, k <= j < c /\ umem (mem_of s') T' (src + j) = None))).
Proof.
  intros HS Hld Ho Hn Hd HL c. unfold rd_write. wsteps. wfalse; [|intros [?|?]; [done|lia]].
  assert (Hclip : clip off n = c). { unfold clip, c. change RD_SIZE with 268435456 in *. rewrite u32_small by lia. case_decide; lia. }
  rewrite Hclip. assert (Hc : 0 <= c /\ off + c <= RD_SIZE) by (unfold c; lia). clearbody c. clear Hclip.
  apply (wpl_loop (fun total s1 => total <= c /\ exists T1 fl1 l, total = Z.of_nat (length l) /\ writes s T off l s1 T1 fl1 /\ ubytes (mem_of s1) T1 src l) (fun total => Z.to_nat (c - total))).
  - intros total s1 [Ht (T1 & fl1 & l & El & Hw & Hb)]. destruct (decide (total < c)) as [Hlt|Hge].
    + assert (Hwrap : src + total < 2 ^ 64).
      { destruct l as [|b l]; [simpl in El; lia|]. specialize (Hb O b eq_refl). unfold umem in Hb. case_decide; [|done]. change MAXVA with (2 ^ 38) in *. change RD_SIZE with 268435456 in *. lia. }
      eapply wp_mono; [by apply (rd_write_body_wp s1 T1 fl1 src off c total L); try done; [apply Hw|lia..]|].
      intros r s2 (T2 & fl2 & l2 & Hw2 & Hb2 & Hr). rewrite El in Hw2. pose proof (writes_trans _ _ _ _ _ _ _ _ _ _ _ Hw Hw2) as Hall.
      assert (Hball : ubytes (mem_of s2) T2 src (l ++ l2)).
      { apply ubytes_app; [|by rewrite <- El]. intros i b Hi. by apply (wo_umem _ _ _ _ _ _ _ Hw2), Hb. }
      destruct r as [t|res].
      * destruct Hr as [Ht' Hl2]. split; [|lia]. split; [lia|]. exists T2, fl2, (l ++ l2). rewrite length_app. split_and!; [lia|done|done].
      * destruct Hr as [Hl2 Hr]. exists T2, fl2, (l ++ l2). split_and!; [done|done|]. right. rewrite length_app. split; [lia|].
        destruct Hr as [(-> & -> & ->)|(-> & j & Hj & Hno)].
        -- left. split; [done|]. simpl. replace (Z.of_nat (length l + 0)) with total by lia. done.
        -- right. split; [done|]. exists (total + j). split; [lia|]. by rewrite Z.add_assoc.
    + unfold rd_write_body. wstep. wfalse; [|lia]. wsteps. split; [done|]. exists T1, fl1, l. split_and!; [done|done|]. left. lia.
  - split; [lia|]. exists T, fl, []. split_and!; [done|by apply writes_refl|done].
  - lia.
Qed.
End Write.

(** * Unloading *)
Section Unload.
Context `{KernelImage}.
Implicit Types (s : rds) (m : mem) (T : ptree) (fl : list Z) (L : list lock) (pg : gmap Z Z).

Notation mem_of s := (vm_mem (rd_vm s)).
Notation root_of s := (p_pagetable (rd_vm s)).

Lemma page_at_insert pg i p j : page_at (<[i := p]> pg) j = if decide (j = i) then p else page_at pg j.
Proof. unfold page_at. case_decide as Hd; [subst; by rewrite lookup_insert_eq|by rewrite lookup_insert_ne]. Qed.

Lemma rd_rep_drop root m T fl pg i : rd_rep root m T fl pg -> rd_rep root m T fl (<[i := 0]> pg).
Proof.
  intros [HT Hk Hu Hn Ho Hi]. split; try done; intros j; rewrite ?page_at_insert; [case_decide; [done|apply Ho]|].
  intros k. rewrite !page_at_insert. repeat case_decide; try congruence. apply Hi.
Qed.

(** The pages below [i] were freed. *)
Record unloading s T fl (i : Z) s1 fl1 : Prop := {
  ul_state : rd_state s1 T fl1;
  ul_vm : rd_vm s1 = over (mem_of s1) (rd_vm s);
  ul_flags : rd_loaded s1 = rd_loaded s /\ rd_devsw s1 = rd_devsw s;
  ul_pages : forall j, page_at (rd_pages s1) j = if decide (j < i) then 0 else page_at (rd_pages s) j;
  ul_free : forall p, p ∈ fl1 <-> p ∈ fl \/ exists j, j < i /\ page_at (rd_pages s) j = p /\ p <> 0;
  ul_umem : forall x, umem (mem_of s1) T x = umem (mem_of s) T x;
  ul_kept : forall q, foreign (mem_of s) T q -> (forall j, page_at (rd_pages s) j <> q) -> kept (mem_of s) (mem_of s1) T q
}.

Lemma unload_body_wp s T fl i s1 fl1 L : unloading s T fl i s1 fl1 -> 0 <= i < RD_PAGES -> avail [kmem_lock; ref_lock] L ->
  wp (unload_body i) L s1 (fun r s2 => r = inl (i + 1) /\ exists fl2, unloading s T fl (i + 1) s2 fl2).
Proof.
  intros [HS Hvm Hfl Hpg Hfr Hum Hkp] Hi HL. unfold unload_body. wsteps. wtrue; [|lia]. wsteps.
  pose proof (Hpg i) as Ei. rewrite decide_False in Ei by lia. wcase as Hp.
  2:{ wsteps. split_and!; [done|done|]. exists fl1. split; try done.
    - intros j. rewrite Hpg. destruct (decide (j = i)) as [->|]; [rewrite decide_False, decide_True by lia; destruct (decide (page_at (rd_pages s1) i = 0)); [congruence|done]|].
      repeat case_decide; try done; lia.
    - intros p. rewrite Hfr. split; intros [?|(j & Hj & E & Hne)]; auto; right; exists j; split_and!; try done; [lia|].
      destruct (decide (j = i)) as [->|]; [|lia]. destruct Hp. by rewrite Ei, E. }
  destruct HS as [HR Hsz]. destruct (rd_own _ _ _ _ _ HR i Hp) as [_ Hown]. set (p := page_at (rd_pages s1) i) in *. wsteps.
  wcall (kfree_last_wp p L (mem_of s1) fl1); [apply HR|apply Hown|apply Hown|done|]. intros _ m2 (Hk2 & _ & Ha2). wsteps. split; [done|]. split; [done|].
  assert (Hnot : forall j, page_at (<[i := 0]> (rd_pages s1)) j = p -> p <> 0 -> ref m2 p = 1).
  { intros j. rewrite page_at_insert. case_decide as Hd; [by intros <-|]. intros E _. destruct Hd. by apply (rd_inj _ _ _ _ _ HR); [|rewrite E]. }
  destruct (rd_rep_step _ _ _ _ _ p m2 (p :: fl1) (rd_rep_drop _ _ _ _ _ i HR) Ha2 (own_unreached _ _ _ Hown) Hk2 Hnot) as [HR2 _ _ Hum2 Hkp2 _].
  exists (p :: fl1). split; cbn [rd_vm rd_pages rd_loaded rd_devsw set_page over rds_mem vms_mem vm_mem]; try done.
  - by rewrite Hvm.
  - intros j. rewrite page_at_insert, Hpg. repeat case_decide; try done; lia.
  - intros q. rewrite elem_of_cons, Hfr. split.
    + intros [->|[?|(j & ? & ? & ?)]]; [right; exists i; split_and!; [lia|by rewrite <- Ei|done]|by left|right; exists j; split_and!; try done; lia].
    + intros [?|(j & Hj & E & Hne)]; [by auto|]. destruct (decide (j = i)) as [->|]; [left; by rewrite Ei|right; right; exists j; split_and!; try done; lia].
  - intros x. by rewrite Hum2.
  - intros q Hq Hnq. pose proof (Hkp q Hq Hnq) as Hk1. eapply kept_trans; [done|]. apply Hkp2; [|apply Hk1]. intros ->. apply (Hnq i). by rewrite <- Ei.
Qed.

Lemma unload_wp s T fl L : rd_state s T fl -> rd_loaded s <> 0 -> avail [rd_lock; kmem_lock; ref_lock] L ->
  wp sys_unload_ramdisk L s (fun r s' => r = 0 /\ exists fl', unloading (set_loaded false s) T fl RD_PAGES s' fl').
Proof.
  intros HS Hld HL. unfold sys_unload_ramdisk. wsteps. wfalse; [|done]. wsteps.
  eapply wpl_call; [eapply (wpl_loop (fun i s1 => 0 <= i <= RD_PAGES /\ exists fl1, unloading (set_loaded false s) T fl i s1 fl1) (fun i => Z.to_nat (RD_PAGES - i))
    unload_body (fun _ s1 => exists fl1, unloading (set_loaded false s) T fl RD_PAGES s1 fl1))|].
  - intros i s1 [Hi (fl1 & Hu)]. destruct (decide (i < RD_PAGES)) as [Hlt|].
    + eapply wp_mono; [apply (unload_body_wp _ _ _ _ _ _ _ Hu); [lia|]; solve_avail|]. intros r s2 (-> & fl2 & Hu2). split; [|lia]. split; [lia|by exists fl2].
    + unfold unload_body. wsteps. wfalse; [|lia]. wsteps. split; [done|]. exists fl1. by replace RD_PAGES with i by lia.
  - split; [done|]. exists fl. destruct HS as [HR Hsz]. split; try done.
    + by destruct s as [[] ???].
    + intros j. cbn. destruct (decide (j < 0)); [|done]. destruct (decide (page_at (rd_pages s) j = 0)) as [|Hne]; [done|].
      destruct (rd_own _ _ _ _ _ HR j Hne). lia.
    + intros p. split; [by left|]. intros [?|(j & Hj & E & Hne)]; [done|]. exfalso. rewrite <- E in Hne. destruct (rd_own _ _ _ _ _ HR j Hne). lia.
  - lia.
  - intros _ s1 (fl1 & Hu). wsteps. split_and!; [done|done|by exists fl1].
Qed.
End Unload.

(** * What the device guarantees *)
Section Correctness.
Context `{KernelImage}.
Implicit Types (s : rds) (T : ptree) (fl : list Z) (L : list lock).

Notation mem_of s := (vm_mem (rd_vm s)).

(** A read from the device always returns.  It delivers the bytes of the
    device that are in range, zeros where nothing was ever written, and changes
    neither the device nor anything else; it fails only when memory runs out or at
    an address that cannot be written, after a prefix of the bytes. *)
Theorem rd_read_correct s T fl dst off n L :
  rd_state s T fl -> rd_loaded s <> 0 -> 0 <= off < RD_SIZE -> 0 <= n < 2 ^ 31 -> 0 <= dst < 2 ^ 64 -> avail [rd_lock; kmem_lock; ref_lock] L ->
  let all := cbytes (mem_of s) (rd_pages s) off (Z.min n (RD_SIZE - off)) in
  wp (rd_read true dst off n) L s (fun r s' => exists T' fl' l, reads s T dst l s' T' fl' /\
    (r = Z.of_nat (length all) /\ l = all \/
     r = -1 /\ l `prefix_of` all /\ (length l < length all)%nat /\ unwritable (mem_of s') T' fl' (dst + Z.of_nat (length l)))).
Proof. apply rd_read_wp. Qed.

(** C29. What is written to the device is read back.  A write of [n] bytes stores a
    prefix [l] of the source at the offset and changes no other byte of the device:
    all [n] bytes and returns [n], unless no page is free (then it returns how many
    it stored, -1 for none) or a byte of the source cannot be read (then -1).  A
    read of the same range then delivers all [n] bytes of the device and returns
    [n], unless it comes to an address that cannot be written.  When both return
    [n] the destination holds the bytes that the source held, also if the pages of
    the device did not exist before. *)
Theorem ramdisk_roundtrip s T fl src dst off n L :
  rd_state s T fl -> rd_loaded s <> 0 -> 0 <= off -> 0 <= n -> off + n <= RD_SIZE -> off < RD_SIZE -> 0 <= src < 2 ^ 64 -> 0 <= dst < 2 ^ 64 -> avail [rd_lock; kmem_lock; ref_lock] L ->
  wp (w ← rd_write true src off n; r ← rd_read true dst off n; mret (w, r)) L s (fun x s' =>
    exists s1 T1 fl1 l T' fl' l', let k := Z.of_nat (length l) in let k' := Z.of_nat (length l') in
      writes s T off l s1 T1 fl1 /\ reads s1 T1 dst l' s' T' fl' /\
      (forall i b, 0 <= i < k -> umem (mem_of s) T (src + i) = Some b -> l !! Z.to_nat i = Some b) /\
      (x.1 = n /\ k = n \/
       k < n /\ (fl1 = [] /\ x.1 = (if decide (k > 0) then k else -1) \/
                 x.1 = -1 /\ exists j, k <= j < n /\ umem (mem_of s1) T1 (src + j) = None)) /\
      (x.2 = n /\ k' = n \/ x.2 = -1 /\ k' < n /\ unwritable (mem_of s') T' fl' (dst + k')) /\
      (x.1 = n -> x.2 = n -> l' = l)).
Proof.
  intros HS Hld Ho Hn Hon Hor Hs Hd HL. assert (Hn31 : n < 2 ^ 31) by (change RD_SIZE with 268435456 in *; lia).
  wsteps. eapply wpl_call; [by apply (rd_write_wp s T fl src off n L)|]. intros w s1 (T1 & fl1 & l & Hw & Hb & Hres). wsteps.
  pose proof (wo_state _ _ _ _ _ _ _ Hw) as HS1. eapply wpl_call; [apply (rd_read_wp s1 T1 fl1 dst off n L HS1); try done; by rewrite (proj1 (wo_flags _ _ _ _ _ _ _ Hw))|].
  intros r s2 (T2 & fl2 & l2 & Hrd & Hr). wsteps. split; [done|]. cbn [fst snd]. rewrite Z.min_l in Hr, Hres by lia. rewrite length_cbytes in Hr.
  exists s1, T1, fl1, l, T2, fl2, l2. cbv zeta in *. split_and!; [done|done| |done| |].
  - intros i b Hi Hb0. destruct (lookup_lt_is_Some_2 l (Z.to_nat i)) as [c Hc]; [lia|]. rewrite Hc.
    apply Hb in Hc. apply (wo_umem _ _ _ _ _ _ _ Hw) in Hb0. rewrite Z2Nat.id in Hc by lia. congruence.
  - destruct Hr as [[-> ->]|(-> & _ & ? & ?)]; [left; rewrite length_cbytes; lia|right; split_and!; [done|lia|done]].
  - intros -> ->. destruct Hr as [[_ ->]|[? _]]; [|lia].
    assert (Hl : Z.of_nat (length l) = n) by (destruct Hres as [[_ ?]|[? [[_ E]|[? _]]]]; [done|case_decide; lia|lia]).
    apply list_eq_same_length with (n := Z.to_nat n); [lia|by rewrite length_cbytes|].
    intros i a b Hi Ha Hlb. unfold cbytes in Ha. rewrite list_lookup_fmap, lookup_seqZ_lt in Ha by lia.
    injection Ha as <-. by apply (wo_in _ _ _ _ _ _ _ Hw).
Qed.

(** Unloading gives back exactly the pages of the device, which then reads as
    zeros; the process and the pages of others are unchanged. *)
Theorem sys_unload_frees s T fl L : rd_state s T fl -> rd_loaded s <> 0 -> avail [rd_lock; kmem_lock; ref_lock] L ->
  wp sys_unload_ramdisk L s (fun r s' => r = 0 /\ rd_loaded s' = 0 /\ rd_devsw s' = false /\ exists fl', rd_state s' T fl' /\
    (forall p, p ∈ fl' <-> p ∈ fl \/ exists i, 0 <= i < RD_PAGES /\ page_at (rd_pages s) i = p /\ p <> 0) /\
    (forall x, content (mem_of s') (rd_pages s') x = 0) /\ (forall x, umem (mem_of s') T x = umem (mem_of s) T x) /\
    forall q, foreign (mem_of s) T q -> (forall i, page_at (rd_pages s) i <> q) -> kept (mem_of s) (mem_of s') T q).
Proof.
  intros HS Hld HL. eapply wp_mono; [by apply (unload_wp s T fl L)|]. intros r s' (-> & fl' & [HS' _ [Hl' Hd'] Hpg Hfr Hum Hkp]). split_and!; try done.
  pose proof HS as [HR _]. exists fl'. split_and!; try done.
  - intros p. rewrite Hfr. cbn. split; (intros [?|(i & Hi & E & Hne)]; [by left|right; exists i; split_and!; try done; try lia]).
    rewrite <- E in Hne. by destruct (rd_own _ _ _ _ _ HR i Hne) as [[? ?] _].
  - intros x. unfold content. rewrite Hpg. cbn. destruct (decide (x / PGSIZE < RD_PAGES)) as [|Hge]; [by rewrite decide_True|].
    case_decide as Hz; [done|]. destruct (rd_own _ _ _ _ _ HR _ Hz) as [? _]. lia.
Qed.

(** C38. The length is not checked: the sum in the bounds test is unsigned, so a
    negative length that reaches below the start of the device asks for the rest
    of the device, and overruns the buffer of the caller. *)
Theorem rd_length_unchecked user buf off n L s : 0 <= off < RD_SIZE -> - 2 ^ 31 <= n -> off + n < 0 ->
  rd_read user buf off n L s = rd_read user buf off (RD_SIZE - off) L s /\ rd_write user buf off n L s = rd_write user buf off (RD_SIZE - off) L s.
Proof.
  intros Ho Hn Hneg. assert (E : clip off n = RD_SIZE - off /\ clip off (RD_SIZE - off) = RD_SIZE - off).
  { unfold clip. change RD_SIZE with 268435456 in *. split; [|by case_decide]. rewrite decide_True; [done|].
    unfold u32. rewrite <- (Z.mod_add _ 1) by lia. rewrite Z.mod_small by lia. lia. }
  destruct E as [E1 E2]. unfold rd_read, rd_write. by rewrite E1, E2.
Qed.
End Correctness.
