(* ===== verification/VmSample.v ===== *)
(** Concrete address spaces: a boolean check that a small memory holds a page
    table, and the witnesses of the address-space theorems on such a memory. *)
From S2P Require Import Prelude Riscv PhysMem Kalloc PageTable Vm VmFree Cow Shm Fork UserMem CopyOut Brd.
Local Open Scope Z_scope.

(** * Deciding that memory holds a page table *)
Section Checker.
Context `{KernelImage}.
Implicit Types (s : mem) (T : ptree) (π : list Z).

Definition indices : list Z := seqZ 0 512.

Definition entry_okb s T π (p i : Z) : bool :=
  match T !! (π ++ [i]) with
  | Some q => word (ram s) p i =? Z.lor (PA2PTE q) PTE_V
  | None => negb (has_bits (word (ram s) p i) PTE_V)
  end.

Definition parent_okb T π : bool :=
  match last π with
  | None => true
  | Some i => bool_decide (is_Some (T !! removelast π)) && (0 <=? i) && (i <? 512)
  end.

Definition node_okb s T (n : list Z * Z) : bool :=
  (length n.1 <=? 2)%nat && (n.2 mod PGSIZE =? 0) && (end_ <=? n.2) && (n.2 <? PHYSTOP) &&
  (ref s n.2 =? 1) && parent_okb T n.1 &&
  ((2 <=? length n.1)%nat || forallb (entry_okb s T n.1 n.2) indices).

Definition pt_repb s (root : Z) T : bool :=
  bool_decide (T !! [] = Some root) && bool_decide (NoDup (map_to_list T).*2) &&
  forallb (node_okb s T) (map_to_list T).

Lemma elem_of_indices i : 0 <= i < 512 -> In i indices.
Proof. intros. apply list_elem_of_In, elem_of_seqZ. lia. Qed.

Opaque indices.

Lemma pt_repb_node s root T π p :
  pt_repb s root T = true -> T !! π = Some p -> node_okb s T (π, p) = true.
Proof.
  unfold pt_repb. rewrite !andb_true_iff, forallb_forall. intros [_ Hf] Hπ.
  apply Hf, list_elem_of_In. by apply elem_of_map_to_list.
Qed.

Lemma pt_repb_sound s root T : pt_repb s root T = true -> pt_rep s root T.
Proof.
  intros Hb. pose proof (fun π p => pt_repb_node s root T π p Hb) as Hn.
  assert (Hn' : forall π p, T !! π = Some p -> (length π <= 2)%nat /\ page_ok p /\ ref s p = 1 /\
    parent_okb T π = true /\
    ((2 <= length π)%nat \/ forallb (entry_okb s T π p) indices = true)).
  { intros π p Hπ. specialize (Hn π p Hπ). unfold node_okb, page_ok in *.
    cbn [fst snd] in Hn. rewrite !andb_true_iff, orb_true_iff in Hn.
    rewrite !Nat.leb_le, !Z.eqb_eq, Z.leb_le, Z.ltb_lt in Hn.
    destruct Hn as ((((((Hl & Ha) & He) & Hs) & Hr) & Hp) & Hi). by split_and!. }
  clear Hn. unfold pt_repb in Hb. rewrite !andb_true_iff, !bool_decide_eq_true in Hb.
  destruct Hb as [[Hroot Hnd] _]. split; try done; try (intros π p Hπ; by apply (Hn' π p)).
  - intros π π' p H1%elem_of_map_to_list H2%elem_of_map_to_list.
    apply list_elem_of_lookup in H1 as [i Hi], H2 as [j Hj].
    assert (i = j) as -> by (eapply (NoDup_lookup _ _ _ p Hnd); rewrite list_lookup_fmap, ?Hi, ?Hj; done).
    congruence.
  - intros π i q Hq. destruct (Hn' _ _ Hq) as (_ & _ & _ & Hp & _). unfold parent_okb in Hp.
    rewrite last_snoc, removelast_last, !andb_true_iff, bool_decide_eq_true, Z.leb_le, Z.ltb_lt in Hp.
    tauto.
  - intros π p i Hπ Hl Hi. destruct (Hn' _ _ Hπ) as (_ & _ & _ & _ & [?|Hf]); [lia|].
    rewrite forallb_forall in Hf. specialize (Hf i (elem_of_indices i Hi)). unfold entry_okb in Hf.
    destruct (T !! (π ++ [i])); [by apply Z.eqb_eq|by apply negb_true_iff].
Qed.

(** The valid leaf entries, with the number of the page they map. *)
Definition leaves s T : list (Z * Z) :=
  '(π, q) ← map_to_list T;
  match π with
  | [i2; i1] =>
      filter (fun l => has_bits l.2 PTE_V = true)
        ((fun i => (i2 * 2 ^ 18 + i1 * 2 ^ 9 + i, word (ram s) q i)) <$> indices)
  | _ => []
  end.

Lemma pte_at_leaf s T va :
  0 <= va < VASPACE -> has_bits (pte_at s T va) PTE_V = true ->
  (va / PGSIZE, pte_at s T va) ∈ leaves s T.
Proof.
  intros Hva. rewrite PX_vpn by done. unfold pte_at, vpath.
  destruct (T !! _) as [q|] eqn:Hq; [|done]. intros HV.
  apply list_elem_of_bind. eexists. split; [|by apply elem_of_map_to_list]. simpl.
  apply list_elem_of_filter. split; [done|]. apply list_elem_of_fmap. exists (PX 0 va).
  split; [done|]. apply list_elem_of_In, elem_of_indices, PX_range. lia.
Qed.
End Checker.

(** * A machine with two address spaces

    On the sixteen pages of [Kalloc.Sample]: a process whose table is made of the
    pages 0, 1 and 2 and maps page 3 writable at address 0 and page 4
    copy-on-write at address 4096; an empty table at page 5; page 6 is the
    shared-memory frame 7, open once; the pages 7 to 15 are free. *)
Module Machine.
Import Kalloc.Sample.

Definition user_rw : Z := Z.lor (Z.lor PTE_R PTE_W) PTE_U.
Definition user_cow : Z := Z.lor (Z.lor PTE_R PTE_C) PTE_U.

Definition table_words : list (Z * Z) := [
  (pg 0, Z.lor (PA2PTE (pg 1)) PTE_V); (pg 1, Z.lor (PA2PTE (pg 2)) PTE_V);
  (pg 2, pte_entry (pg 3) user_rw); (pg 2 + 8, pte_entry (pg 4) user_cow);
  (pg 3, 104 + 256 * 105)].

Definition link_words : list (Z * Z) :=
  (fun i => (pg i, pg (i + 1))) <$> [7; 8; 9; 10; 11; 12; 13; 14].

Definition counts : gmap Z Z :=
  list_to_map ((fun '(i, c) => (PA2INDEX (pg i), c)) <$>
    [(0, 1); (1, 1); (2, 1); (3, 1); (4, 2); (5, 1); (6, 1)]).

Definition ram_of (ws : list (Z * Z)) : gmap Z Z :=
  foldr (fun '(a, v) r => store_le r a 8 v) ∅ ws.

Definition memory2 : mem := mkMem (ram_of (table_words ++ link_words)) (pg 7) counts.
Definition memory_full : mem := mkMem (ram_of table_words) 0 counts.

Definition free2 : list Z := pg <$> [7; 8; 9; 10; 11; 12; 13; 14; 15].
Definition tree_a : ptree := {[ [] := pg 0; [0] := pg 1; [0; 0] := pg 2 ]}.
Definition tree_b : ptree := {[ [] := pg 5 ]}.

Definition frames2 : list shm_frame := <[0%nat := mkFrame 7 (pg 6) 1]> (replicate SHM_MAX free_frame).
Definition frame_view : gmap Z (Z * Z) := {[ 7 := (pg 6, 1) ]}.
Definition machine (m : mem) (sz pagetable : Z) : vms := mkVms m frames2 sz pagetable.
Definition proc_a : vms := machine memory2 (2 * PGSIZE) (pg 0).

Lemma free2_rep : kmem_rep memory2 free2.
Proof.
  split.
  - vm_compute. tauto.
  - apply (bool_decide_unpack _). by vm_compute.
  - apply Forall_forall. repeat constructor; by vm_compute.
  - apply Forall_forall. repeat constructor; by vm_compute.
Qed.

Lemma full_rep : kmem_rep memory_full [].
Proof. split; [done|constructor| |]; by intros p ?%elem_of_nil. Qed.

Lemma tree_a_rep : pt_rep memory2 (pg 0) tree_a.
Proof. apply pt_repb_sound. by vm_compute. Qed.

Lemma tree_b_rep : pt_rep memory2 (pg 5) tree_b.
Proof. apply pt_repb_sound. by vm_compute. Qed.

Lemma tree_b_full : pt_rep memory_full (pg 5) tree_b.
Proof. apply pt_repb_sound. by vm_compute. Qed.

Lemma trees_disjoint : pt_set tree_a ## pt_set tree_b.
Proof. apply (bool_decide_unpack _). by vm_compute. Qed.

(** The two mappings of the process. *)
Lemma leaves_a : leaves memory2 tree_a = [(0, pte_entry (pg 3) user_rw); (1, pte_entry (pg 4) user_cow)].
Proof. by vm_compute. Qed.

Lemma mapped_a va :
  0 <= va < VASPACE -> has_bits (pte_at memory2 tree_a va) PTE_V = true ->
  va / PGSIZE = 0 /\ pte_at memory2 tree_a va = pte_entry (pg 3) user_rw \/
  va / PGSIZE = 1 /\ pte_at memory2 tree_a va = pte_entry (pg 4) user_cow.
Proof.
  intros Hva HV. pose proof (pte_at_leaf _ _ _ Hva HV) as Hin. rewrite leaves_a in Hin.
  rewrite !elem_of_cons, elem_of_nil in Hin. naive_solver.
Qed.

Lemma unmapped_a va :
  2 * PGSIZE <= va < VASPACE -> has_bits (pte_at memory2 tree_a va) PTE_V = false.
Proof.
  intros Hva. destruct (has_bits _ _) eqn:E; [|done].
  apply mapped_a in E; [|unfold PGSIZE in *; lia]. unfold PGSIZE in *.
  destruct E as [[E _]|[E _]]; zdiv.
Qed.

Lemma freeable_a : freeable memory2 tree_a (upages memory2 tree_a 0 2).
Proof.
  assert (upages memory2 tree_a 0 2 = [pg 3; pg 4]) as -> by by vm_compute.
  intros p. rewrite !elem_of_cons, elem_of_nil. intros [->|[->|[]]];
    (split_and!; [by vm_compute|apply (bool_decide_unpack _); by vm_compute|by vm_compute]).
Qed.

Lemma data_a (i : Z) : i = 3 \/ i = 4 -> data_page memory2 tree_a (pg i).
Proof. intros [->| ->]; (split_and!; [by vm_compute|apply (bool_decide_unpack _); by vm_compute|by vm_compute]). Qed.

Lemma readable_a va :
  0 <= va < MAXVA -> readable (pte_at memory2 tree_a va) = true ->
  va / PGSIZE = 0 /\ PTE2PA (pte_at memory2 tree_a va) = pg 3 \/
  va / PGSIZE = 1 /\ PTE2PA (pte_at memory2 tree_a va) = pg 4.
Proof.
  intros Hva HV%readable_V. apply mapped_a in HV as [[? ->]|[? ->]]; [| |by apply va_space].
  - left. split; [done|by vm_compute].
  - right. split; [done|by vm_compute].
Qed.

Lemma uvalid_a : uvalid memory2 tree_a.
Proof. intros va Hva [[_ ->]|[_ ->]]%readable_a; [apply data_a; lia..|done]. Qed.

Lemma noalias_a : noalias memory2 tree_a.
Proof.
  intros va va' Hva Hva' Hr%readable_a Hr'%readable_a E; [|done..].
  rewrite E in Hr. destruct Hr as [[-> E1]|[-> E1]], Hr' as [[-> E2]|[-> E2]]; try done;
    rewrite E1 in E2; discriminate.
Qed.

Lemma frames2_ok m sz pagetable :
  1 <= ref m (pg 6) -> shm_ok (machine m sz pagetable) frame_view.
Proof.
  intros Href. split; [split|split].
  - done.
  - intros id pa c. unfold frame_view. rewrite lookup_singleton_Some. split.
    + intros [<- [= <- <-]]. split; [by vm_compute|]. by exists 0%nat.
    + intros [Hpa [i Hi]]. unfold machine, frames2 in Hi. cbn [frames] in Hi.
      apply list_lookup_insert_Some in Hi as [(<- & [= <- <- <-] & _)|(_ & Hi)]; [done|].
      apply lookup_replicate in Hi as [Hi _]. unfold free_frame in Hi. congruence.
  - intros i j f g Hi Hj Hf Hg _. unfold machine, frames2 in Hi, Hj. cbn [frames] in Hi, Hj.
    apply list_lookup_insert_Some in Hi as [(<- & _)|(_ & Hi)], Hj as [(<- & _)|(_ & Hj)]; try done.
    all: try apply lookup_replicate in Hi as [-> _]; try apply lookup_replicate in Hj as [-> _]; done.
  - unfold frame_view. intros id pa c [<- [= <- <-]]%lookup_singleton_Some. split_and!; [by vm_compute|done|done].
  - unfold frame_view. intros id id' pa c c' [<- _]%lookup_singleton_Some [<- _]%lookup_singleton_Some. done.
Qed.

Lemma above_a va :
  PGROUNDUP (2 * PGSIZE) <= va < 4 * PGSIZE -> has_bits (pte_at memory2 tree_a va) PTE_V = false.
Proof.
  change (PGROUNDUP (2 * PGSIZE)) with (2 * PGSIZE). intros. apply unmapped_a.
  unfold VASPACE, PGSIZE in *. lia.
Qed.

(** ** Witnesses *)

Lemma uvmunmap_correct_witness :
  wp (uvmunmap (pg 0) 0 2 true) [] memory2 (fun _ s' =>
    pt_rep s' (pg 0) tree_a /\ forall a, 0 <= a < 2 * PGSIZE -> has_bits (pte_at s' tree_a a) PTE_V = false).
Proof.
  eapply wp_mono.
  - apply (uvmunmap_correct (pg 0) 0 2 true [] memory2 tree_a free2 tree_a_rep free2_rep);
      [done|done|done|by vm_compute|intros _; apply freeable_a|apply avail_nil].
  - intros _ s' (HT & Hin & _). split; [done|]. intros a Ha. rewrite (Hin a Ha).
    by destruct (has_bits (pte_at memory2 tree_a a) PTE_V) eqn:E.
Defined.

Lemma uvmalloc_correct_witness :
  wp (uvmalloc (pg 0) (2 * PGSIZE) (4 * PGSIZE) PTE_W) [] memory2 (fun r _ => r = 4 * PGSIZE \/ r = 0).
Proof.
  eapply wp_mono.
  - apply (uvmalloc_correct (pg 0) (2 * PGSIZE) (4 * PGSIZE) PTE_W [] memory2 tree_a free2
      tree_a_rep free2_rep); [done|done|done| |apply avail_nil].
    apply above_a.
  - naive_solver.
Defined.

Lemma uvmalloc_uvmdealloc_roundtrip_witness :
  wp (r ← uvmalloc (pg 0) (2 * PGSIZE) (4 * PGSIZE) PTE_W;
      if decide (r = 0) then mret 0 else uvmdealloc (pg 0) (4 * PGSIZE) (2 * PGSIZE)) [] memory2
    (fun r s' => exists T' fl' n, (r = 0 \/ r = 2 * PGSIZE) /\
      undone (pg 0) memory2 tree_a free2 (2 * PGSIZE) n s' T' fl').
Proof.
  apply (uvmalloc_uvmdealloc_roundtrip (pg 0) (2 * PGSIZE) (4 * PGSIZE) PTE_W [] memory2 tree_a free2
    tree_a_rep free2_rep); [done|done|done|done|done| |apply avail_nil].
  apply above_a.
Defined.

Lemma uvmfree_correct_witness :
  wp (uvmfree (pg 0) (2 * PGSIZE)) [] memory2 (fun _ s' => ref s' (pg 4) = 1).
Proof.
  eapply wp_mono.
  - apply (uvmfree_correct (pg 0) (2 * PGSIZE) [] memory2 tree_a free2 tree_a_rep free2_rep);
      [done|apply freeable_a|apply unmapped_a|apply avail_nil].
  - intros _ s' (fl' & _ & _ & Href & _). rewrite Href; [by vm_compute|].
    vm_compute. right. left.
Defined.

Lemma uvmcow_private_copy_witness :
  wp (uvmcow (pg 0) (PGSIZE + 5)) [] memory2 (fun r s' => r = 0 /\
    PTE2PA (pte_at s' tree_a PGSIZE) = pg 7 /\ ref s' (pg 4) = 1).
Proof.
  eapply wp_mono.
  - apply (uvmcow_private_copy (pg 0) (PGSIZE + 5) [] memory2 tree_a (pg 7) (tail free2)
      tree_a_rep free2_rep); [done|by vm_compute|by vm_compute| |apply avail_nil].
    assert (PTE2PA (pte_at memory2 tree_a (PGROUNDDOWN (PGSIZE + 5))) = pg 4) as -> by by vm_compute.
    apply data_a. by right.
  - intros r s' (-> & _ & Hpte & _ & _ & Href & _). split_and!; [done|apply Hpte|].
    assert (PTE2PA (pte_at memory2 tree_a (PGROUNDDOWN (PGSIZE + 5))) = pg 4) as E by by vm_compute.
    rewrite E in Href. rewrite Href. by vm_compute.
Defined.

Lemma uvmcow_otherwise_witness :
  wp (uvmcow (pg 0) 5) [] memory2 (fun r s' => s' = memory2 /\ r = 0).
Proof.
  eapply wp_mono.
  - apply (uvmcow_otherwise (pg 0) 5 [] memory2 tree_a free2 tree_a_rep free2_rep);
      [done|right; left; by vm_compute|apply avail_nil].
  - intros r s' [-> ->]. split; [done|]. by vm_compute.
Defined.

Lemma frame_data (T : ptree) : pg 6 ∉ pt_set T -> forall id pa c, frame_view !! id = Some (pa, c) -> pa ∉ pt_set T.
Proof. unfold frame_view. intros H id pa c [_ [= <- _]]%lookup_singleton_Some. done. Qed.

Lemma frame_counts m sz pagetable id :
  ref m (pg 6) = 1 -> counters_ok (machine m sz pagetable) frame_view id.
Proof.
  unfold frame_view. intros Hr pa c [_ [= <- <-]]%lookup_singleton_Some. simpl. by rewrite Hr.
Qed.

Lemma open_a : open_pre proc_a frame_view tree_a free2 7.
Proof.
  split; [by apply frames2_ok|apply tree_a_rep|apply free2_rep|done|done|by vm_compute| |].
  - apply frame_data, (bool_decide_unpack _). by vm_compute.
  - apply frame_counts. by vm_compute.
Qed.

Lemma open_b : open_pre (switch_to 0 (pg 5) proc_a) frame_view tree_b free2 7.
Proof.
  split; [by apply frames2_ok|apply tree_b_rep|apply free2_rep|done|done|by vm_compute| |].
  - apply frame_data, (bool_decide_unpack _). by vm_compute.
  - apply frame_counts. by vm_compute.
Qed.

Lemma open_b_full : open_pre (machine memory_full 0 (pg 5)) frame_view tree_b [] 7.
Proof.
  split; [by apply frames2_ok|apply tree_b_full|apply full_rep|done|done|by vm_compute| |].
  - apply frame_data, (bool_decide_unpack _). by vm_compute.
  - apply frame_counts. by vm_compute.
Qed.

Lemma shm_open_shares_page_witness :
  wp (r1 ← shm_open 7; modify (switch_to 0 (pg 5));; r2 ← shm_open 7; mret (r1, r2)) [] proc_a
    (fun r s' => r.1 <> u64 (-1) -> r.2 <> u64 (-1) -> r.1 = 2 * PGSIZE /\ r.2 = 0).
Proof.
  eapply wp_mono.
  - apply (shm_open_shares_page 7 [] proc_a frame_view tree_a tree_b free2 0 (pg 5)
      open_a open_b trees_disjoint); [|apply avail_nil].
    unfold frame_view. intros p c' [_ [= <- <-]]%lookup_singleton_Some. by vm_compute.
  - intros r s' Hr H1 H2. destruct (Hr H1 H2) as (-> & -> & _). by vm_compute.
Defined.

Lemma shm_close_correct_witness :
  wp (shm_close 7) [] proc_a (fun r s' => r = 0 /\ shm_ok s' ∅).
Proof.
  eapply wp_mono.
  - apply (shm_close_correct 7 [] proc_a frame_view free2); [by apply frames2_ok|apply free2_rep|apply avail_nil|].
    unfold frame_view. intros p c' [_ [= <- <-]]%lookup_singleton_Some. by vm_compute.
  - intros r s' (_ & Hm). change (frame_view !! u32 7) with (Some (pg 6, 1)) in Hm.
    destruct Hm as (-> & Hok & _). split; [done|].
    unfold frame_view in Hok. by change (u32 7) with 7 in Hok; rewrite delete_singleton_eq in Hok.
Defined.

Lemma shm_open_panics_when_mapped_witness :
  panics (shm_open 7) [] (machine memory2 PGSIZE (pg 0)) "mappages: remap".
Proof.
  apply (shm_open_panics_when_mapped 7 [] (machine memory2 PGSIZE (pg 0)) frame_view tree_a free2 (pg 6) 1);
    [by apply frames2_ok|apply tree_a_rep|apply free2_rep|done|done|by vm_compute|done| |apply avail_nil].
  apply (bool_decide_unpack _). by vm_compute.
Defined.

Lemma shm_open_failure_leaks_witness :
  wp (shm_open 7) [] (machine memory_full 0 (pg 5)) (fun r s' => r = u64 (-1) /\ ref (vm_mem s') (pg 6) = 2).
Proof.
  eapply wp_mono.
  - apply (shm_open_failure_leaks 7 [] (machine memory_full 0 (pg 5)) frame_view tree_b (pg 6) 1 open_b_full);
      [done|by vm_compute|apply avail_nil].
  - intros r s' (-> & _ & _ & ->). split; [done|by vm_compute].
Defined.

Lemma copy_pre_a : copy_pre memory2 (pg 0) (pg 5) tree_a tree_b free2 2.
Proof.
  split; [apply tree_a_rep|apply tree_b_rep|apply free2_rep|apply trees_disjoint|done| |].
  - intros j Hj _. assert (j = 0 \/ j = 1) as [-> | ->] by lia;
      (split_and!; [by vm_compute|apply (bool_decide_unpack _); by vm_compute|by vm_compute..]).
  - intros j Hj. assert (j = 0 \/ j = 1) as [-> | ->] by lia; by vm_compute.
Qed.



Lemma copyinstr_correct_witness :
  wp (copyinstr (pg 0) 0 10) [] memory2 (fun r m' => m' = memory2 /\ str_result memory2 tree_a 0 10 r).
Proof.
  apply (copyinstr_correct (pg 0) 0 10 [] memory2 tree_a tree_a_rep uvalid_a); done.
Defined.

Lemma copyin_correct_witness :
  wp (copyin (pg 0) 4090 10) [] proc_a (fun r s' => exists m2 T2 fl2,
    s' = over m2 proc_a /\ uext (pg 0) (2 * PGSIZE) memory2 tree_a free2 m2 T2 fl2 /\
    (forall va b, umem memory2 tree_a va = Some b -> umem m2 T2 va = Some b) /\
    in_result m2 T2 4090 10 r).
Proof.
  apply (copyin_correct proc_a tree_a free2 4090 10 []);
    [apply tree_a_rep|apply free2_rep|apply uvalid_a|done|done|done|apply avail_nil].
Defined.

Lemma copyout_correct_witness :
  wp (copyout (pg 0) 4094 [1; 2; 3; 4]) [] proc_a (fun r s' => r = 0 \/ r = -1).
Proof.
  eapply wp_mono.
  - apply (copyout_correct proc_a tree_a free2 4094 [1; 2; 3; 4] []);
      [apply tree_a_rep|apply free2_rep|apply uvalid_a|apply noalias_a|done|done| |apply avail_nil].
    repeat constructor; done.
  - intros r s' (m2 & T2 & fl2 & k & _ & _ & _ & _ & _ & _ & _ & _ & [[-> _]|[-> _]]); [by left|by right].
Defined.

(** A device with one page. *)
Definition ramdisk : rds := mkRds proc_a {[ 1 := pg 6 ]} 1 true.

Lemma ramdisk_state : rd_state ramdisk tree_a free2.
Proof.
  assert (Hp : forall i, page_at {[ 1 := pg 6 ]} i = if decide (i = 1) then pg 6 else 0).
  { intros i. unfold page_at. case_decide as E; [by subst|by rewrite lookup_singleton_ne]. }
  split; [|done]. split; [apply tree_a_rep|apply free2_rep|apply uvalid_a|apply noalias_a| |].
  - intros i. cbn [rd_pages ramdisk]. rewrite Hp. case_decide as E; [|done]. intros _. split; [by subst|]. change (vm_mem (rd_vm ramdisk)) with memory2. apply unreached_own; [by vm_compute| |by vm_compute].
    split; [by apply (bool_decide_unpack _); vm_compute|]. intros va Hva Hr. destruct (readable_a va Hva Hr) as [[_ ->]|[_ ->]]; by vm_compute.
  - intros i j. cbn [rd_pages ramdisk]. rewrite !Hp. repeat case_decide; try done; congruence.
Qed.

Lemma rd_read_correct_witness : wp (rd_read true 4090 4096 10) [] ramdisk (fun r s' => r = 10 \/ r = -1).
Proof.
  eapply wp_mono; [apply (rd_read_correct ramdisk tree_a free2 4090 4096 10 [] ramdisk_state); [done|by vm_compute|done|done|apply avail_nil]|].
  intros r s' (T' & fl' & l & _ & [[-> _]|[-> _]]); [left|by right]. by rewrite length_cbytes.
Defined.

(** The last bytes of its page and the first of one that is not there yet. *)
Lemma ramdisk_runs :
  returns (w ← rd_write true 0 8190 10; r ← rd_read true 100 8190 10; mret (w, r)) [] ramdisk (10, 10).
Proof. by vm_compute. Qed.

Lemma ramdisk_roundtrip_witness :
  wp (w ← rd_write true 0 8190 10; r ← rd_read true 100 8190 10; mret (w, r)) [] ramdisk (fun x s' =>
    x = (10, 10) /\ exists T', ubytes (vm_mem (rd_vm s')) T' 100 [104; 105; 0; 0; 0; 0; 0; 0; 0; 0]).
Proof.
  eapply wp_mono; [apply wp_result; [exact ramdisk_runs|]; apply (ramdisk_roundtrip ramdisk tree_a free2 0 100 8190 10 [] ramdisk_state); [done|done|done|by vm_compute|by vm_compute|done|done|apply avail_nil]|].
  intros x s' [-> (s1 & T1 & fl1 & l & T' & fl' & l' & _ & Hrd & Hl & [[_ Hk]|[Hk [[_ E]|[E _]]]] & _ & Heq)]; cbn [fst] in *; [|case_decide; lia|done].
  rewrite (Heq eq_refl eq_refl) in Hrd. split; [done|]. exists T'. pose proof (ro_bytes _ _ _ _ _ _ _ Hrd) as Hb. intros i b Hi. apply Hb.
  pose proof (lookup_lt_Some _ _ _ Hi) as Hlt. cbn [length] in Hlt. rewrite <- (Nat2Z.id i). apply Hl; [lia|].
  do 10 (destruct i as [|i]; [injection Hi as <-; by vm_compute|]). lia.
Defined.

Lemma sys_unload_frees_witness : wp sys_unload_ramdisk [] ramdisk (fun r s' => r = 0).
Proof. eapply wp_mono; [apply (sys_unload_frees ramdisk tree_a free2 [] ramdisk_state); [done|apply avail_nil]|]. by intros r s' [-> _]. Defined.

Lemma rd_length_unchecked_witness : rd_read true 0 0 (-1) [] ramdisk = rd_read true 0 0 (RD_SIZE - 0) [] ramdisk.
Proof. refine (proj1 (rd_length_unchecked true 0 0 (-1) [] ramdisk _ _ _)); by vm_compute. Defined.
End Machine.
