(* ===== verification/Spin.v ===== *)
(** Spin locks, kernel/spinlock.c, at the granularity of the accesses to shared
    memory: several CPUs run [acquire] and [release] interleaved, the swap of
    [lk->locked] being the only atomic read-modify-write.  The other components
    use locks through [Prelude.acquire] and [Prelude.release], the view of one
    thread; this file shows that view is justified: a lock has one holder. *)
From S2P Require Import Prelude.
From stdpp Require Import functions relations.
Local Open Scope Z_scope.

(** * Locks and CPUs *)

(** [struct spinlock]; [lk_cpu] is the index of the CPU, [None] the null pointer. *)
Record spinlock := mkLock { lk_locked : Z; lk_name : string; lk_cpu : option nat }.

(** The part of [struct cpu] the locks use, with the interrupt-enable bit of
    the CPU's sstatus register. *)
Record cpu := mkCpu { noff : Z; intena : bool; sie : bool }.

Definition initlock (name : string) : spinlock := mkLock 0 name None.

Definition holding (c : nat) (lk : spinlock) : bool :=
  negb (lk_locked lk =? 0) && bool_decide (lk_cpu lk = Some c).

Definition push_off (p : cpu) : cpu :=
  let old := sie p in
  mkCpu (noff p + 1) (if noff p =? 0 then old else intena p) false.

Definition pop_off (p : cpu) : cpu + string :=
  if sie p then inr "pop_off - interruptible"
  else if noff p <? 1 then inr "pop_off"
  else
    let noff' := noff p - 1 in
    inl (mkCpu noff' (intena p) ((noff' =? 0) && intena p)).

(** * Interleaved execution *)

(** Where a CPU is inside acquire or release of lock [l]: about to evaluate the
    two halves of [holding], to swap, to record the holder; about to clear it, to
    store 0 in [locked], to call pop_off. *)
Inductive pc :=
  | Outside
  | AcqLocked (l : nat) | AcqCpu (l : nat) | Spin (l : nat) | Record_cpu (l : nat)
  | RelLocked (l : nat) | RelCpu (l : nat) | Clear_cpu (l : nat) | Unlock (l : nat) | RelPop
  | Panicked (msg : string).

(** A CPU with the locks it has acquired and not yet released. *)
Record hart := mkHart { h_cpu : cpu; h_pc : pc; h_held : list nat }.

Record machine := mkMachine { harts : nat -> hart; locks : nat -> spinlock }.

Definition set_hart (c : nat) (h : hart) (m : machine) : machine :=
  mkMachine (<[c := h]> (harts m)) (locks m).
Definition set_lock (l : nat) (k : spinlock) (m : machine) : machine :=
  mkMachine (harts m) (<[l := k]> (locks m)).
Definition goto (c : nat) (p : pc) (m : machine) : machine :=
  let h := harts m c in set_hart c (mkHart (h_cpu h) p (h_held h)) m.

(** The calls: acquire starts with push_off, release with [holding]. *)
Definition acquire_call (c l : nat) (m : machine) : machine :=
  let h := harts m c in
  set_hart c (mkHart (push_off (h_cpu h)) (AcqLocked l) (h_held h)) m.
Definition release_call (c l : nat) (m : machine) : machine := goto c (RelLocked l) m.

(** One access of CPU [c]. *)
Definition run (c : nat) (m : machine) : machine :=
  let h := harts m c in
  match h_pc h with
  | Outside | Panicked _ => m
  | AcqLocked l => goto c (if lk_locked (locks m l) =? 0 then Spin l else AcqCpu l) m
  | AcqCpu l =>
      goto c (if decide (lk_cpu (locks m l) = Some c) then Panicked "acquire" else Spin l) m
  | Spin l =>
      let k := locks m l in
      goto c (if lk_locked k =? 0 then Record_cpu l else Spin l)
        (set_lock l (mkLock 1 (lk_name k) (lk_cpu k)) m)
  | Record_cpu l =>
      let k := locks m l in
      set_hart c (mkHart (h_cpu h) Outside (l :: h_held h))
        (set_lock l (mkLock (lk_locked k) (lk_name k) (Some c)) m)
  | RelLocked l => goto c (if lk_locked (locks m l) =? 0 then Panicked "release" else RelCpu l) m
  | RelCpu l =>
      goto c (if decide (lk_cpu (locks m l) = Some c) then Clear_cpu l else Panicked "release") m
  | Clear_cpu l =>
      let k := locks m l in
      goto c (Unlock l) (set_lock l (mkLock (lk_locked k) (lk_name k) None) m)
  | Unlock l =>
      let k := locks m l in
      set_hart c (mkHart (h_cpu h) RelPop (filter (fun x => x <> l) (h_held h)))
        (set_lock l (mkLock 0 (lk_name k) (lk_cpu k)) m)
  | RelPop =>
      match pop_off (h_cpu h) with
      | inl p => set_hart c (mkHart p Outside (h_held h)) m
      | inr msg => goto c (Panicked msg) m
      end
  end.

(** The CPUs interleave; outside the lock code a CPU may call acquire or release
    of any lock, and turn interrupts on or off while it has none pushed off. *)
Inductive spin_step : machine -> machine -> Prop :=
  | step_acquire c l m : h_pc (harts m c) = Outside -> spin_step m (acquire_call c l m)
  | step_release c l m : h_pc (harts m c) = Outside -> spin_step m (release_call c l m)
  | step_run c m : spin_step m (run c m)
  | step_intr c b m : h_pc (harts m c) = Outside -> noff (h_cpu (harts m c)) = 0 ->
      spin_step m (set_hart c (mkHart (mkCpu 0 (intena (h_cpu (harts m c))) b) Outside
                                      (h_held (harts m c))) m).

(** Boot: every lock initialised, no CPU in lock code. *)
Definition spin_init (m : machine) : Prop :=
  (forall l, exists name, locks m l = initlock name) /\
  (forall c, h_pc (harts m c) = Outside /\ h_held (harts m c) = [] /\ noff (h_cpu (harts m c)) = 0).

(** * The invariant *)

(** CPU [c] has won the lock [l]: from the swap that returned 0 to the store of 0. *)
Definition owns (m : machine) (c l : nat) : Prop :=
  h_pc (harts m c) = Record_cpu l \/ l ∈ h_held (harts m c).

(** The push_offs that are not matched by a held lock: the lock being acquired,
    or the one just released. *)
Definition pending (p : pc) : Z :=
  match p with
  | AcqLocked _ | AcqCpu _ | Spin _ | Record_cpu _ | RelPop => 1
  | _ => 0
  end.

Definition pc_ok (h : hart) : Prop :=
  match h_pc h with
  | Spin l | Record_cpu l => l ∉ h_held h
  | Clear_cpu l | Unlock l => l ∈ h_held h
  | _ => True
  end.

Definition live (h : hart) : Prop := match h_pc h with Panicked _ => False | _ => True end.

Record hart_ok (h : hart) : Prop := {
  ho_pc : pc_ok h;
  ho_nodup : NoDup (h_held h);
  ho_noff : live h -> noff (h_cpu h) = Z.of_nat (length (h_held h)) + pending (h_pc h);
  ho_intr : live h -> 0 < noff (h_cpu h) -> sie (h_cpu h) = false
}.

Record spin_inv (m : machine) : Prop := {
  si_hart : forall c, hart_ok (harts m c);
  si_free : forall l c, owns m c l -> lk_locked (locks m l) <> 0;
  si_excl : forall l c c', owns m c l -> owns m c' l -> c = c';
  si_cpu : forall l c, lk_cpu (locks m l) = Some c ->
    l ∈ h_held (harts m c) /\ h_pc (harts m c) <> Unlock l;
  si_held : forall l c, l ∈ h_held (harts m c) -> lk_cpu (locks m l) = Some c \/
    h_pc (harts m c) = Unlock l
}.

(** ** It is preserved *)

Lemma owns_hart m c h x l :
  owns (set_hart c h m) x l <->
  if decide (c = x) then h_pc h = Record_cpu l \/ l ∈ h_held h else owns m x l.
Proof.
  unfold owns, set_hart. simpl. destruct (decide (c = x)) as [->|Hne];
    [by rewrite fn_lookup_insert|by rewrite fn_lookup_insert_ne].
Qed.

(** A CPU that neither wins nor gives up a lock. *)
Lemma spin_inv_local m c h :
  spin_inv m -> hart_ok h -> h_held h = h_held (harts m c) ->
  (forall l, h_pc h <> Record_cpu l) -> (forall l, h_pc h <> Unlock l) ->
  (forall l, h_pc (harts m c) <> Unlock l) -> spin_inv (set_hart c h m).
Proof.
  intros [Hh Hf He Hc Hl] Hok Hheld Hr Hu Hu'.
  assert (Ho : forall x l, owns (set_hart c h m) x l -> owns m x l).
  { intros x l. rewrite owns_hart. destruct (decide (c = x)) as [->|]; [|done].
    rewrite Hheld. intros [?|?]; [by destruct (Hr l)|by right]. }
  split; unfold set_hart; simpl.
  - intros x. destruct (decide (c = x)) as [->|]; [by rewrite fn_lookup_insert|].
    by rewrite fn_lookup_insert_ne.
  - intros l x Hx. by apply (Hf l x), Ho.
  - intros l x x' Hx Hx'. by apply (He l); apply Ho.
  - intros l x Hx%Hc. destruct (decide (c = x)) as [->|]; [|by rewrite fn_lookup_insert_ne].
    rewrite fn_lookup_insert, Hheld. split; [apply Hx|done].
  - intros l x. destruct (decide (c = x)) as [->|]; [|rewrite fn_lookup_insert_ne by done; apply Hl].
    rewrite fn_lookup_insert, Hheld. intros [?|?]%Hl; [by left|by destruct (Hu' l)].
Qed.

Lemma hart_ok_goto h p :
  hart_ok h -> live h -> pending p = pending (h_pc h) -> pc_ok (mkHart (h_cpu h) p (h_held h)) ->
  hart_ok (mkHart (h_cpu h) p (h_held h)).
Proof.
  intros [_ Hn Ho Hi] Hl Hp Hpc. split; simpl; try done.
  - intros _. rewrite Hp. by apply Ho.
  - intros _. by apply Hi.
Qed.

Lemma hart_ok_panic h msg : hart_ok h -> hart_ok (mkHart (h_cpu h) (Panicked msg) (h_held h)).
Proof. intros [_ Hn _ _]. by split. Qed.

(** The CPU and the lock of the step, and all others as they were. *)
Ltac fn_case c x :=
  destruct (decide (c = x)) as [<-|];
  [rewrite !fn_lookup_insert|rewrite !fn_lookup_insert_ne by done].

Lemma spin_swap_inv m c l :
  spin_inv m -> h_pc (harts m c) = Spin l -> spin_inv (run c m).
Proof.
  intros [Hh Hf He Hc Hl] Hpc. unfold run. rewrite Hpc. unfold goto. simpl.
  set (k := locks m l).
  assert (Hok : forall p, p = Spin l \/ p = Record_cpu l ->
    hart_ok (mkHart (h_cpu (harts m c)) p (h_held (harts m c)))).
  { intros p Hp. pose proof (ho_pc _ (Hh c)) as Hpc'. unfold pc_ok in Hpc'. rewrite Hpc in Hpc'.
    apply hart_ok_goto; [done|unfold live; by rewrite Hpc| |].
    - rewrite Hpc. by destruct Hp as [->| ->].
    - unfold pc_ok. simpl. by destruct Hp as [->| ->]. }
  set (p := if lk_locked k =? 0 then Record_cpu l else Spin l).
  assert (Ho : forall x i, owns (mkMachine (<[c := mkHart (h_cpu (harts m c)) p (h_held (harts m c))]> (harts m))
      (<[l := mkLock 1 (lk_name k) (lk_cpu k)]> (locks m))) x i ->
    owns m x i \/ x = c /\ i = l /\ lk_locked (locks m l) = 0).
  { intros x i. unfold owns. simpl. fn_case c x; [|by left]. simpl. intros [Hi|Hi]; [|by left; right].
    unfold p in Hi. destruct (Z.eqb_spec (lk_locked k) 0); [|done]. injection Hi as ->. by right. }
  split; simpl.
  - intros x. fn_case c x; [|done]. apply Hok. unfold p. destruct (_ =? _); auto.
  - intros i x Hx. fn_case l i; [done|]. destruct (Ho _ _ Hx) as [?|(_ & -> & _)]; [by eapply Hf|done].
  - intros i x x' Hx Hx'. apply Ho in Hx as [Hx|(Ex & Ei & E)], Hx' as [Hx'|(Ex' & Ei' & E')]; subst; try done.
    + by apply (He i).
    + by destruct (Hf _ _ Hx).
    + by destruct (Hf _ _ Hx').
  - intros i x. assert (lk_cpu (<[l := mkLock 1 (lk_name k) (lk_cpu k)]> (locks m) i) = lk_cpu (locks m i)) as ->
      by (fn_case l i; done).
    intros Hx%Hc. fn_case c x; [|done]. simpl. split; [apply Hx|]. unfold p. by destruct (_ =? _).
  - intros i x. assert (lk_cpu (<[l := mkLock 1 (lk_name k) (lk_cpu k)]> (locks m) i) = lk_cpu (locks m i)) as ->
      by (fn_case l i; done).
    fn_case c x; [|apply Hl]. simpl. intros [?|Hx]%Hl; [by left|congruence].
Qed.

Lemma record_cpu_inv m c l :
  spin_inv m -> h_pc (harts m c) = Record_cpu l -> spin_inv (run c m).
Proof.
  intros [Hh Hf He Hc Hl] Hpc. unfold run. rewrite Hpc. unfold set_hart, set_lock. simpl.
  pose proof (ho_pc _ (Hh c)) as Hnot. unfold pc_ok in Hnot. rewrite Hpc in Hnot.
  set (m' := mkMachine _ _).
  assert (Ho : forall x i, owns m' x i -> owns m x i).
  { intros x i. unfold owns, m'. simpl. fn_case c x; [|done]. simpl. rewrite elem_of_cons.
    intros [?|[->|?]]; [done|by left|by right]. }
  assert (Hme : owns m c l) by by left.
  split; simpl.
  - intros x. fn_case c x; [|done]. destruct (Hh c) as [_ Hn Hno Hi].
    unfold live in Hno, Hi. rewrite Hpc in Hno, Hi.
    split; simpl; [done|by constructor| |intros _; by apply Hi].
    intros _. rewrite Hno by done. simpl. lia.
  - intros i x Hx%Ho. fn_case l i; [|by eapply Hf]. simpl. by eapply Hf.
  - intros i x x' Hx%Ho Hx'%Ho. by apply (He i).
  - intros i x. fn_case l i; simpl.
    + intros [= <-]. rewrite fn_lookup_insert. simpl. split; [by left|done].
    + intros Hx%Hc. fn_case c x; [|done]. simpl. split; [right; apply Hx|done].
  - intros i x. fn_case c x; simpl.
    + intros [->|Hi]%elem_of_cons; [left; by rewrite fn_lookup_insert|].
      fn_case l i; [by left|]. apply Hl in Hi as [?|?]; [by left|congruence].
    + intros Hi. fn_case l i; [|by apply Hl]. simpl. left. f_equal. apply (He l c x Hme). by right.
Qed.

Lemma clear_cpu_inv m c l :
  spin_inv m -> h_pc (harts m c) = Clear_cpu l -> spin_inv (run c m).
Proof.
  intros [Hh Hf He Hc Hl] Hpc. unfold run. rewrite Hpc. unfold goto, set_hart, set_lock. simpl.
  pose proof (ho_pc _ (Hh c)) as Hin. unfold pc_ok in Hin. rewrite Hpc in Hin.
  set (m' := mkMachine _ _).
  assert (Ho : forall x i, owns m' x i -> owns m x i).
  { intros x i. unfold owns, m'. simpl. fn_case c x; [|done]. simpl. intros [?|?]; [done|by right]. }
  split; simpl.
  - intros x. fn_case c x; [|done]. apply hart_ok_goto; [done|unfold live; by rewrite Hpc|by rewrite Hpc|done].
  - intros i x Hx%Ho. fn_case l i; [|by eapply Hf]. simpl. by eapply Hf.
  - intros i x x' Hx%Ho Hx'%Ho. by apply (He i).
  - intros i x. fn_case l i; simpl; [done|]. intros Hx%Hc. fn_case c x; [|done]. simpl.
    split; [apply Hx|congruence].
  - intros i x. fn_case c x; simpl.
    + intros Hi. fn_case l i; [by right|]. apply Hl in Hi as [?|?]; [by left|congruence].
    + intros Hi. fn_case l i; [|by apply Hl]. destruct n. apply (He l); by right.
Qed.

Lemma length_filter_ne (l : list nat) x :
  NoDup l -> x ∈ l -> length l = S (length (filter (fun y => y <> x) l)).
Proof.
  induction 1 as [|y l Hy Hl IH]; [by intros ?%elem_of_nil|]. intros [->|Hx]%elem_of_cons.
  - rewrite filter_cons_False by tauto. f_equal. clear IH. induction l as [|z l IH]; [done|].
    rewrite not_elem_of_cons in Hy. apply NoDup_cons in Hl as [_ Hl].
    rewrite filter_cons_True by naive_solver. simpl. f_equal. apply IH; tauto.
  - rewrite filter_cons_True by (intros ->; done). simpl. by rewrite IH.
Qed.

Lemma unlock_inv m c l :
  spin_inv m -> h_pc (harts m c) = Unlock l -> spin_inv (run c m).
Proof.
  intros [Hh Hf He Hc Hl] Hpc. unfold run. rewrite Hpc. unfold set_hart, set_lock. simpl.
  pose proof (ho_pc _ (Hh c)) as Hin. unfold pc_ok in Hin. rewrite Hpc in Hin.
  assert (Hme : owns m c l) by by right.
  set (m' := mkMachine _ _).
  assert (Ho : forall x i, owns m' x i -> owns m x i /\ i <> l).
  { intros x i. unfold owns, m'. simpl. fn_case c x; simpl.
    - intros [?|Hi]; [done|]. apply list_elem_of_filter in Hi as [? ?]. split; [by right|done].
    - intros Hx. split; [done|]. intros ->. destruct n. by apply (He l). }
  split; simpl.
  - intros x. fn_case c x; [|done]. destruct (Hh c) as [_ Hn Hno Hi].
    unfold live in Hno, Hi. rewrite Hpc in Hno, Hi.
    split; simpl; [done|by apply NoDup_filter| |intros _; by apply Hi].
    intros _. rewrite Hno by done. simpl. pose proof (length_filter_ne _ _ Hn Hin). lia.
  - intros i x [Hx Hne]%Ho. fn_case l i; [done|by eapply Hf].
  - intros i x x' [Hx _]%Ho [Hx' _]%Ho. by apply (He i).
  - intros i x. fn_case l i; simpl.
    + intros Hx%Hc. destruct Hx as [Hx Hu]. assert (x = c) as -> by (apply (He l); [by right|done]). done.
    + intros Hx%Hc. fn_case c x; [|done]. simpl. split; [|done]. apply list_elem_of_filter. split; [done|apply Hx].
  - intros i x. fn_case c x; simpl.
    + intros [Hne Hi]%list_elem_of_filter. fn_case l i; [done|]. apply Hl in Hi as [?|?]; [by left|congruence].
    + intros Hi. fn_case l i; [|by apply Hl]. destruct n. apply (He l); [done|by right].
Qed.

Lemma pop_off_ok m c :
  spin_inv m -> h_pc (harts m c) = RelPop ->
  exists p, pop_off (h_cpu (harts m c)) = inl p /\
    hart_ok (mkHart p Outside (h_held (harts m c))).
Proof.
  intros Hm Hpc. destruct (si_hart _ Hm c) as [_ Hn Hno Hi].
  unfold live in Hno, Hi. rewrite Hpc in Hno, Hi. specialize (Hno I). specialize (Hi I). simpl in Hno.
  unfold pop_off. rewrite Hi by lia. destruct (Z.ltb_spec (noff (h_cpu (harts m c))) 1); [lia|].
  eexists. split; [done|]. split; simpl; [done|done|intros _; lia|].
  intros _ Hp. destruct (Z.eqb_spec (noff (h_cpu (harts m c)) - 1) 0); [lia|done].
Qed.

Lemma run_inv c m : spin_inv m -> spin_inv (run c m).
Proof.
  intros Hm. pose proof (si_hart _ Hm c) as Hh.
  destruct (h_pc (harts m c)) as [|l|l|l|l|l|l|l|l| |] eqn:Hpc.
  4: by eapply spin_swap_inv. 4: by eapply record_cpu_inv.
  6: by eapply clear_cpu_inv. 6: by eapply unlock_inv.
  all: unfold run; rewrite Hpc; try done; unfold goto.
  5: { destruct (pop_off_ok m c Hm Hpc) as (p & -> & Hp). apply spin_inv_local; try done. by rewrite Hpc. }
  all: assert (Hlive : live (harts m c)) by (unfold live; by rewrite Hpc).
  - apply spin_inv_local; try done; try (destruct (_ =? _); done); [|by rewrite Hpc].
    destruct (Z.eqb_spec (lk_locked (locks m l)) 0); apply hart_ok_goto; rewrite ?Hpc; try done.
    intros Hin. by apply (si_free _ Hm l c); [right|].
  - apply spin_inv_local; try done; try (case_decide; done); [|by rewrite Hpc].
    case_decide; [by apply hart_ok_panic|]. apply hart_ok_goto; rewrite ?Hpc; try done.
    intros Hin. apply (si_held _ Hm) in Hin as [?|?]; congruence.
  - apply spin_inv_local; try done; try (destruct (_ =? _); done); [|by rewrite Hpc].
    destruct (_ =? _); [by apply hart_ok_panic|]. apply hart_ok_goto; rewrite ?Hpc; done.
  - apply spin_inv_local; try done; try (case_decide; done); [|by rewrite Hpc].
    case_decide; [|by apply hart_ok_panic]. apply hart_ok_goto; rewrite ?Hpc; try done.
    by apply (si_cpu _ Hm) in H as [? _].
Qed.

Lemma spin_step_inv m m' : spin_inv m -> spin_step m m' -> spin_inv m'.
Proof.
  intros Hm Hs. destruct Hs as [c l m Hpc|c l m Hpc|c m|c b m Hpc Hn0]; [| |by apply run_inv|].
  all: destruct (si_hart _ Hm c) as [_ Hn Hno Hi]; unfold live in Hno, Hi; rewrite Hpc in Hno, Hi;
    specialize (Hno I); specialize (Hi I); simpl in Hno.
  - apply spin_inv_local; rewrite ?Hpc; try done. split; simpl; try done. intros _. lia.
  - apply spin_inv_local; rewrite ?Hpc; try done.
  - apply spin_inv_local; rewrite ?Hpc; try done. split; simpl; try done; lia.
Qed.

Lemma spin_init_inv m : spin_init m -> spin_inv m.
Proof.
  intros [Hl Hh]. assert (Hno : forall c l, ~ owns m c l).
  { intros c l. destruct (Hh c) as (Hp & He & _). unfold owns. rewrite Hp, He.
    intros [?|?%elem_of_nil]; done. }
  split.
  - intros c. destruct (Hh c) as (Hp & He & Hz). split; unfold pc_ok, live; rewrite ?Hp, ?He, ?Hz; try done.
    by constructor.
  - intros l c Ho. by destruct (Hno c l).
  - intros l c c' Ho. by destruct (Hno c l).
  - intros l c. destruct (Hl l) as [name ->]. done.
  - intros l c Hin. destruct (Hno c l). by right.
Qed.

(** C11. Mutual exclusion of spin locks: however the CPUs interleave their calls
    of acquire and release, at most one of them has won a lock, interrupts are
    off on a CPU that has, and its [noff] is the number of locks it holds or is
    acquiring. *)
Theorem spin_mutual_exclusion m0 m l c c' :
  spin_init m0 -> rtc spin_step m0 m -> owns m c l ->
  (owns m c' l -> c = c') /\
  (live (harts m c) -> sie (h_cpu (harts m c)) = false /\
     noff (h_cpu (harts m c)) = Z.of_nat (length (h_held (harts m c))) + pending (h_pc (harts m c))).
Proof.
  intros Hi Hr Ho. assert (Hm : spin_inv m).
  { apply spin_init_inv in Hi. induction Hr; eauto using spin_step_inv. }
  split; [intros; by eapply (si_excl _ Hm l)|]. intros Hl. destruct (si_hart _ Hm c) as [_ _ Hno Hin].
  split; [|by apply Hno]. apply Hin; [done|]. rewrite Hno by done.
  destruct Ho as [->|Ho]; simpl; [lia|]. apply list_elem_of_lookup in Ho as [i Ho].
  apply lookup_lt_Some in Ho. unfold pending. destruct (h_pc _); lia.
Qed.

Lemma spin_mutual_exclusion_witness :
  exists m, rtc spin_step m (run 0 (run 0 (run 0 (acquire_call 0 7 m)))) /\
    owns (run 0 (run 0 (run 0 (acquire_call 0 7 m)))) 0 7 /\
    ~ owns (run 0 (run 0 (run 0 (acquire_call 0 7 m)))) 1 7.
Proof.
  set (m := mkMachine (fun _ => mkHart (mkCpu 0 true true) Outside []) (fun _ => initlock "lk")).
  assert (Hr : rtc spin_step m (run 0 (run 0 (run 0 (acquire_call 0 7 m))))).
  { eapply rtc_l; [by apply (step_acquire 0 7)|]. do 3 (eapply rtc_l; [apply (step_run 0)|]). apply rtc_refl. }
  assert (Ho : owns (run 0 (run 0 (run 0 (acquire_call 0 7 m)))) 0 7) by (right; vm_compute; left).
  exists m. split; [done|]. split; [done|]. intros H1.
  assert (Hi : spin_init m) by (split; [intros; by exists "lk"|done]).
  pose proof (proj1 (spin_mutual_exclusion m _ 7 0 1 Hi Hr Ho) H1). discriminate.
Defined.
