(* ===== verification/Sem.v ===== *)
(** Semaphores, kernel/sem.c.  Each function is cut at the points where it gives
    up the spin lock it holds; the pieces run atomically and the threads
    interleave between them.  [sleep] parks the thread on the semaphore and
    [wakeup] makes every parked thread runnable again (kernel/proc.c). *)
From S2P Require Import Prelude.
From stdpp Require Import relations.
Local Open Scope Z_scope.

(** * The table and its operations *)
Definition SEM_MAX : nat := 16.

Record sem := mkSem { sem_id : Z; sem_value : Z; sem_valid : Z }.

Definition seminit (t : list sem) : list sem :=
  (fun s => mkSem (sem_id s) (sem_value s) 0) <$> t.

(** The test of the four scans. *)
Definition sem_is (id : Z) (s : sem) : bool := negb (sem_valid s =? 0) && (sem_id s =? id).

Definition sem_create (id value : Z) (t : list sem) : Z * list sem :=
  match find_idx (sem_is id) t with
  | Some _ => (0, t)
  | None =>
      match find_idx (fun s => sem_valid s =? 0) t with
      | Some i => (0, <[i := mkSem id value 1]> t)
      | None => (-1, t)
      end
  end.

Definition sem_free (id : Z) (t : list sem) : Z * list sem :=
  match find_idx (sem_is id) t with
  | Some i => (0, alter (fun s => mkSem (sem_id s) (sem_value s) 0) i t)
  | None => (-1, t)
  end.

(** Where a thread is: about to start a call, in sem_p or sem_v with the slot
    found and the slot's lock not yet taken, asleep in sem_p, or back from the
    call. *)
Inductive call := CallCreate (id value : Z) | CallFree (id : Z) | CallP (id : Z) | CallV (id : Z).

Inductive thread :=
  | Calling (c : call)
  | PFound (i : nat) | PAsleep (i : nat)
  | VFound (i : nat)
  | Returned (r : Z).

#[export] Instance call_eq_dec : EqDecision call.
Proof. solve_decision. Defined.
#[export] Instance thread_eq_dec : EqDecision thread.
Proof. solve_decision. Defined.

(** The first critical section of sem_p and of sem_v: the scan, under the lock
    of the table. *)
Definition sem_p_find (id : Z) (t : list sem) : thread :=
  match find_idx (sem_is id) t with Some i => PFound i | None => Returned (-1) end.
Definition sem_v_find (id : Z) (t : list sem) : thread :=
  match find_idx (sem_is id) t with Some i => VFound i | None => Returned (-1) end.

(** The second one of sem_p, under the lock of the slot: one test of the loop,
    which sleeps or leaves it. *)
Definition sem_p_try (i : nat) (s : sem) : sem * thread :=
  if decide (sem_value s <= 0) then (s, PAsleep i)
  else (mkSem (sem_id s) (s32 (sem_value s - 1)) (sem_valid s), Returned 0).

(** ... and of sem_v, without the wakeup. *)
Definition sem_v_incr (s : sem) : sem := mkSem (sem_id s) (s32 (sem_value s + 1)) (sem_valid s).

(** wakeup of the threads asleep on slot [i]. *)
Definition sem_wakeup (i : nat) (t : thread) : thread :=
  if decide (t = PAsleep i) then PFound i else t.

(** * Threads *)
Record state := mkState { sems : list sem; threads : list thread }.

(** What a step did to a semaphore, by slot. *)
Inductive event := DidP (i : nat) | DidV (i : nat) | DidInit (i : nat) | Quiet.

(** The slot a create or free call changes. *)
Definition touched (c : call) (t : list sem) : event :=
  match c with
  | CallCreate id _ =>
      match find_idx (sem_is id) t with
      | Some _ => Quiet
      | None => from_option DidInit Quiet (find_idx (fun s => sem_valid s =? 0) t)
      end
  | CallFree id => from_option DidInit Quiet (find_idx (sem_is id) t)
  | _ => Quiet
  end.

(** The next critical section of thread [j]; [None] when it sleeps or has
    returned. *)
Definition sem_run (j : nat) (st : state) : option (event * state) :=
  let t := sems st in
  let upd t' x := mkState t' (<[j := x]> (threads st)) in
  match threads st !! j with
  | Some (Calling (CallCreate id v)) =>
      let '(r, t') := sem_create id v t in Some (touched (CallCreate id v) t, upd t' (Returned r))
  | Some (Calling (CallFree id)) =>
      let '(r, t') := sem_free id t in Some (touched (CallFree id) t, upd t' (Returned r))
  | Some (Calling (CallP id)) => Some (Quiet, upd t (sem_p_find id t))
  | Some (Calling (CallV id)) => Some (Quiet, upd t (sem_v_find id t))
  | Some (PFound i) =>
      s ← t !! i;
      let '(s', x) := sem_p_try i s in
      Some (if decide (x = Returned 0) then DidP i else Quiet, upd (<[i := s']> t) x)
  | Some (VFound i) =>
      s ← t !! i;
      Some (DidV i,
            mkState (<[i := sem_v_incr s]> t) (<[j := Returned 0]> (sem_wakeup i <$> threads st)))
  | Some (PAsleep _) | Some (Returned _) | None => None
  end.

(** Executions: the threads interleave, and a thread that has returned may call
    again. *)
Inductive trace : state -> list event -> state -> Prop :=
  | trace_nil st : trace st [] st
  | trace_run j st ev st' evs st'' :
      sem_run j st = Some (ev, st') -> trace st' evs st'' -> trace st (ev :: evs) st''
  | trace_call j r c st evs st'' :
      threads st !! j = Some (Returned r) ->
      trace (mkState (sems st) (<[j := Calling c]> (threads st))) evs st'' ->
      trace st evs st''.

(** * Correctness of one semaphore *)

#[export] Instance event_eq_dec : EqDecision event.
Proof. solve_decision. Defined.

(** How often [e] happened. *)
Fixpoint happened (e : event) (evs : list event) : Z :=
  match evs with
  | [] => 0
  | x :: evs' => (if decide (x = e) then 1 else 0) + happened e evs'
  end.

Lemma happened_nonneg e evs : 0 <= happened e evs.
Proof. induction evs; simpl; [lia|]. case_decide; lia. Qed.

(** Slot [i] has the non-negative value [v], and threads sleep on it only while
    it is 0. *)
Definition slot_ok (i : nat) (v : Z) (st : state) : Prop :=
  0 <= v <= INT_MAX /\ (exists s, sems st !! i = Some s /\ sem_value s = v) /\
  forall j, threads st !! j = Some (PAsleep i) -> v = 0.

Lemma slot_ok_sems i v st t' j x :
  slot_ok i v st -> t' !! i = sems st !! i -> (x = PAsleep i -> v = 0) ->
  slot_ok i v (mkState t' (<[j := x]> (threads st))).
Proof.
  intros (Hv & Hs & Hz) Ht Hx. split; [done|]. split; [simpl; by rewrite Ht|].
  intros k [(<- & Hk & _)|(_ & Hk)]%list_lookup_insert_Some; [by apply Hx|by eapply Hz].
Qed.

Lemma sem_create_slot id v t i :
  touched (CallCreate id v) t <> DidInit i -> (sem_create id v t).2 !! i = t !! i.
Proof.
  unfold touched, sem_create. destruct (find_idx (sem_is id) t); [done|].
  destruct (find_idx _ t) as [k|]; [|done]. simpl. intros Hne.
  apply list_lookup_insert_ne. congruence.
Qed.

Lemma sem_free_slot id t i :
  touched (CallFree id) t <> DidInit i -> (sem_free id t).2 !! i = t !! i.
Proof.
  unfold touched, sem_free. destruct (find_idx (sem_is id) t) as [k|]; [|done].
  simpl. intros Hne. apply list_lookup_alter_ne. congruence.
Qed.

(** The second critical section of sem_p. *)
Lemma sem_p_try_ok j k i v st s :
  slot_ok i v st -> sems st !! k = Some s ->
  let '(s', x) := sem_p_try k s in
  slot_ok i (v - if decide (x = Returned 0 /\ k = i) then 1 else 0)
    (mkState (<[k := s']> (sems st)) (<[j := x]> (threads st))).
Proof.
  intros Hok Hs. pose proof Hok as (Hv & (s0 & Hs0 & Hval) & Hz). unfold sem_p_try.
  pose proof (lookup_lt_Some _ _ _ Hs) as Hlt.
  destruct (decide (sem_value s <= 0)).
  - rewrite decide_False by (intros [? _]; done). rewrite Z.sub_0_r. apply slot_ok_sems; [done| |].
    + by rewrite list_insert_id.
    + intros [= ->]. simplify_eq. lia.
  - destruct (decide (_ /\ k = i)) as [[_ ->]|Hne].
    + simplify_eq. split_and!; [lia|lia| |].
      * eexists. split; [by apply list_lookup_insert_eq|]. simpl. apply s32_small.
        unfold INT_MAX in *. lia.
      * intros q [(_ & ? & _)|(_ & Hq)]%list_lookup_insert_Some; [done|]. apply Hz in Hq. lia.
    + rewrite Z.sub_0_r. apply slot_ok_sems; [done| |done].
      apply list_lookup_insert_ne. intros ->. by apply Hne.
Qed.

(** The second critical section of sem_v. *)
Lemma sem_v_incr_ok j k i v st s :
  slot_ok i v st -> sems st !! k = Some s -> (k = i -> v < INT_MAX) ->
  slot_ok i (v + if decide (k = i) then 1 else 0)
    (mkState (<[k := sem_v_incr s]> (sems st)) (<[j := Returned 0]> (sem_wakeup k <$> threads st))).
Proof.
  intros (Hv & (s0 & Hs0 & Hval) & Hz) Hs Hmax. pose proof (lookup_lt_Some _ _ _ Hs) as Hlt.
  assert (Hasleep : forall q, (<[j := Returned 0]> (sem_wakeup k <$> threads st)) !! q = Some (PAsleep i) ->
    k <> i /\ threads st !! q = Some (PAsleep i)).
  { intros q [(_ & ? & _)|(_ & Hq)]%list_lookup_insert_Some; [done|].
    rewrite list_lookup_fmap, fmap_Some in Hq. destruct Hq as (x & Hq & Hx). unfold sem_wakeup in Hx.
    case_decide; [done|]. subst x. split; [congruence|done]. }
  destruct (decide (k = i)) as [->|Hne].
  - simplify_eq. specialize (Hmax eq_refl). unfold slot_ok, INT_MAX in *. split_and!; [lia|lia| |].
    + eexists. split; [by apply list_lookup_insert_eq|]. simpl. apply s32_small. lia.
    + intros q [? _]%Hasleep. done.
  - rewrite Z.add_0_r. split; [done|]. split.
    + exists s0. split; [simpl; by rewrite list_lookup_insert_ne|done].
    + intros q [_ Hq]%Hasleep. by eapply Hz.
Qed.

(** A critical section keeps the account of slot [i]. *)
Lemma sem_run_ok j i v st ev st' :
  slot_ok i v st -> sem_run j st = Some (ev, st') -> ev <> DidInit i ->
  (ev = DidV i -> v < INT_MAX) ->
  slot_ok i (v + happened (DidV i) [ev] - happened (DidP i) [ev]) st'.
Proof.
  intros Hok Hrun Hni Hmax. unfold sem_run in Hrun. simpl happened.
  destruct (threads st !! j) as [[[id w|id|id|id]|k|k|k|r]|] eqn:Hj; try done.
  - pose proof (sem_create_slot id w (sems st) i) as Hs.
    destruct (sem_create id w (sems st)) as [r t']. injection Hrun as Hev <-. rewrite <- Hev in *.
    rewrite !decide_False, Z.sub_0_r, !Z.add_0_r
      by (simpl; destruct (find_idx (sem_is id) _); [done|]; by destruct (find_idx _ _)).
    apply slot_ok_sems; [done|by apply Hs|done].
  - pose proof (sem_free_slot id (sems st) i) as Hs.
    destruct (sem_free id (sems st)) as [r t']. injection Hrun as Hev <-. rewrite <- Hev in *.
    rewrite !decide_False, Z.sub_0_r, !Z.add_0_r by (simpl; by destruct (find_idx _ _)).
    apply slot_ok_sems; [done|by apply Hs|done].
  - injection Hrun as <- <-. rewrite Z.sub_0_r, !Z.add_0_r. apply slot_ok_sems; [done|done|].
    unfold sem_p_find. by destruct (find_idx _ _).
  - injection Hrun as <- <-. rewrite Z.sub_0_r, !Z.add_0_r. apply slot_ok_sems; [done|done|].
    unfold sem_v_find. by destruct (find_idx _ _).
  - destruct (sems st !! k) as [s|] eqn:Hs; [|done]. simpl in Hrun.
    pose proof (sem_p_try_ok j k i v st s Hok Hs) as Hp. destruct (sem_p_try k s) as [s' x].
    injection Hrun as <- <-. destruct (decide (x = Returned 0)) as [->|Hx].
    + rewrite (decide_False (P := DidP k = DidV i)), !Z.add_0_r by done.
      destruct (decide (k = i)) as [->|]; [by rewrite !decide_True in * by done|].
      rewrite decide_False by congruence. by rewrite decide_False in Hp by tauto.
    + rewrite !decide_False, Z.sub_0_r, !Z.add_0_r by done. rewrite decide_False, Z.sub_0_r in Hp by tauto. done.
  - destruct (sems st !! k) as [s|] eqn:Hs; [|done]. simpl in Hrun. injection Hrun as <- <-.
    rewrite (decide_False (P := DidV k = DidP i)), Z.sub_0_r, !Z.add_0_r by done.
    pose proof (sem_v_incr_ok j k i v st s Hok Hs) as Hp.
    destruct (decide (k = i)) as [->|]; [rewrite decide_True by done; by apply Hp; intros; apply Hmax|].
    rewrite decide_False by congruence. by apply Hp.
Qed.

(** C17. A semaphore that exists throughout keeps its count: after any
    interleaving of calls its value is the initial one plus the completed sem_v
    less the completed sem_p, and never negative, so sem_p admits at most
    [v + sem_v] threads; and no thread is left asleep while the value is
    positive, so no wakeup is lost. *)
Theorem sem_counts i v st evs st' :
  slot_ok i v st -> trace st evs st' -> DidInit i ∉ evs -> v + happened (DidV i) evs <= INT_MAX ->
  let v' := v + happened (DidV i) evs - happened (DidP i) evs in
  0 <= v' /\ (exists s, sems st' !! i = Some s /\ sem_value s = v') /\
  forall j, threads st' !! j = Some (PAsleep i) -> v' = 0.
Proof.
  intros Hok Htr. revert v Hok. induction Htr as [st|j st ev st' evs st'' Hrun _ IH|j r c st evs st'' Hj _ IH];
    intros v Hok Hni Hmax.
  - simpl. rewrite Z.sub_0_r, Z.add_0_r. destruct Hok as ([? _] & ? & ?). by split_and!.
  - apply not_elem_of_cons in Hni as [Hni Hni']. simpl in Hmax.
    pose proof (happened_nonneg (DidV i) evs).
    pose proof (sem_run_ok j i v st ev st' Hok Hrun (not_eq_sym Hni)) as Hok'. simpl in Hok'.
    specialize (IH _ (Hok' ltac:(intros ->; rewrite decide_True in Hmax by done; lia)) Hni').
    simpl. replace (v + (_ + happened (DidV i) evs) - _) with
      (v + ((if decide (ev = DidV i) then 1 else 0) + 0) - ((if decide (ev = DidP i) then 1 else 0) + 0)
       + happened (DidV i) evs - happened (DidP i) evs) by lia.
    apply IH. destruct (decide (ev = DidP i)); lia.
  - apply IH; [|done|done]. by apply slot_ok_sems.
Qed.

(** ** A waiter of a freed semaphore *)

(** Thread [j] sleeps on slot [i], which is not in use, and no sem_v has it. *)
Definition stranded (i j : nat) (st : state) : Prop :=
  threads st !! j = Some (PAsleep i) /\ (forall k, threads st !! k <> Some (VFound i)) /\
  exists s, sems st !! i = Some s /\ sem_valid s = 0.

Lemma stranded_v_find i j st id : stranded i j st -> sem_v_find id (sems st) <> VFound i.
Proof.
  intros (_ & _ & s & Hs & Hv). unfold sem_v_find. destruct (find_idx _ _) as [k|] eqn:E; [|done].
  apply find_idx_Some in E as [(s' & Hs' & His) _]. intros [= ->]. simplify_eq.
  unfold sem_is in His. by rewrite Hv in His.
Qed.

(** Another thread goes on, and the slot stays unused. *)
Lemma stranded_step i j st k x y t' :
  stranded i j st -> threads st !! k = Some y -> y <> PAsleep i -> x <> VFound i ->
  (exists s, t' !! i = Some s /\ sem_valid s = 0) ->
  stranded i j (mkState t' (<[k := x]> (threads st))).
Proof.
  intros (Hj & Hn & _) Hk Hy Hx Ht. split; [|split; [|done]]; simpl.
  - rewrite list_lookup_insert_ne by (intros ->; congruence). done.
  - intros q [(_ & E & _)|(_ & E)]%list_lookup_insert_Some; [done|by apply (Hn q)].
Qed.

Lemma stranded_wakeup i j k st :
  stranded i j st -> k <> i -> stranded i j (mkState (sems st) (sem_wakeup k <$> threads st)).
Proof.
  intros (Hj & Hn & Hs) Hne. split; [|split; [|done]]; simpl.
  - rewrite list_lookup_fmap, Hj. simpl. unfold sem_wakeup. by rewrite decide_False by congruence.
  - intros q Hq. rewrite list_lookup_fmap, fmap_Some in Hq. destruct Hq as (x & Hq & Hx).
    unfold sem_wakeup in Hx. case_decide; [done|]. subst x. by apply (Hn q).
Qed.

Lemma stranded_slot (i k : nat) (t : list sem) (s s' : sem) :
  (exists s0, t !! i = Some s0 /\ sem_valid s0 = 0) -> t !! k = Some s -> sem_valid s' = sem_valid s ->
  exists s0, <[k := s']> t !! i = Some s0 /\ sem_valid s0 = 0.
Proof.
  intros (s0 & Hs0 & Hv) Hk Hs'. pose proof (lookup_lt_Some _ _ _ Hk). destruct (decide (k = i)) as [->|].
  - exists s'. rewrite list_lookup_insert_eq by done. split; [done|congruence].
  - exists s0. by rewrite list_lookup_insert_ne.
Qed.

Lemma stranded_run i j k st ev st' :
  stranded i j st -> sem_run k st = Some (ev, st') -> ev <> DidInit i -> stranded i j st' /\ ev <> DidV i.
Proof.
  intros Hst Hrun Hni. pose proof Hst as (Hj & Hn & Hs). unfold sem_run in Hrun.
  destruct (threads st !! k) as [[[id w|id|id|id]|m|m|m|r]|] eqn:Hk; try done.
  - pose proof (sem_create_slot id w (sems st) i) as Hsl. destruct (sem_create id w (sems st)) as [r t'].
    injection Hrun as <- <-. rewrite <- (Hsl Hni) in Hs. split; [by eapply stranded_step|].
    simpl. destruct (find_idx _ _); [done|]. by destruct (find_idx _ _).
  - pose proof (sem_free_slot id (sems st) i) as Hsl. destruct (sem_free id (sems st)) as [r t'].
    injection Hrun as <- <-. rewrite <- (Hsl Hni) in Hs. split; [by eapply stranded_step|].
    simpl. by destruct (find_idx _ _).
  - injection Hrun as <- <-. split; [|done]. eapply stranded_step; try done. unfold sem_p_find.
    by destruct (find_idx _ _).
  - injection Hrun as <- <-. split; [|done]. eapply stranded_step; try done. by eapply stranded_v_find.
  - destruct (sems st !! m) as [s|] eqn:Hm; [|done]. simpl in Hrun. unfold sem_p_try in Hrun.
    destruct (decide (sem_value s <= 0)); injection Hrun as <- <-; (split; [|by try case_decide]);
      (eapply stranded_step; try done; by eapply stranded_slot).
  - assert (m <> i) as Hne by (intros ->; by apply (Hn k)).
    destruct (sems st !! m) as [s|] eqn:Hm; [|done]. simpl in Hrun. injection Hrun as <- <-.
    split; [|congruence].
    refine (stranded_step i j (mkState (sems st) (sem_wakeup m <$> threads st)) k (Returned 0) (VFound m)
      (<[m := sem_v_incr s]> (sems st)) _ _ _ _ _);
      [by apply stranded_wakeup| |done|done|exact (stranded_slot i m (sems st) s (sem_v_incr s) Hs Hm eq_refl)].
    simpl. by rewrite list_lookup_fmap, Hk.
Qed.


(** And once the slot is taken by a new semaphore, a sem_v on that one lets the
    waiter of the old one through, which takes a unit of a semaphore it never asked
    for. *)
Lemma freed_slot_reused :
  exists evs st1 st2,
    trace (mkState (mkSem 1 0 1 :: replicate 15 (mkSem 0 0 0))
      [Calling (CallP 1); Calling (CallFree 1); Calling (CallCreate 2 5); Calling (CallV 2)]) evs st1 /\
    threads st1 !! 0%nat = Some (PAsleep 0) /\
    (exists s, sems st1 !! 0%nat = Some s /\ sem_id s = 2 /\ sem_value s = 5) /\
    trace st1 [Quiet; DidV 0; DidP 0] st2 /\ threads st2 !! 0%nat = Some (Returned 0).
Proof.
  eexists _, _, _. split.
  { eapply (trace_run 0); [done|]. eapply (trace_run 0); [done|]. eapply (trace_run 1); [done|].
    eapply (trace_run 2); [done|]. apply trace_nil. }
  split; [done|]. split; [by eexists|]. split; [|shelve].
  eapply (trace_run 3); [done|]. eapply (trace_run 3); [done|]. eapply (trace_run 0); [done|]. apply trace_nil.
  Unshelve. done.
Qed.


Lemma sem_counts_witness :
  exists st', trace (mkState [mkSem 1 1 1] [PFound 0; PFound 0; VFound 0]) [DidP 0; Quiet; DidV 0] st' /\
    exists s, sems st' !! 0%nat = Some s /\ sem_value s = 1.
Proof.
  assert (Ht : trace (mkState [mkSem 1 1 1] [PFound 0; PFound 0; VFound 0]) [DidP 0; Quiet; DidV 0]
    (mkState [mkSem 1 1 1] [Returned 0; PFound 0; Returned 0])).
  { eapply (trace_run 0); [done|]. eapply (trace_run 1); [done|]. eapply (trace_run 2); [done|]. apply trace_nil. }
  eexists. split; [exact Ht|]. refine (proj1 (proj2 (sem_counts 0 1 _ _ _ _ Ht _ _))).
  - split; [done|]. split; [by eexists|]. intros [|[|[|]]]; done.
  - rewrite !not_elem_of_cons. by split_and!; try apply not_elem_of_nil.
  - done.
Defined.
