(* ===== verification/UserIface.v ===== *)
(** The interface between the kernel and the memory of the current process: what
    pipes, files, the console and the system calls rely on of copyin and copyout.
    The clients are proved against the class; VmUser shows that kernel/vm.c
    implements it. *)
From S2P Require Import Prelude.
Local Open Scope Z_scope.

(** [l] lies in the memory [view] from [va] on. *)
Definition bytes_at (view : Z -> option Z) (va : Z) (l : list Z) : Prop :=
  forall i b, l !! i = Some b -> view (va + Z.of_nat i) = Some b.

Definition is_byte (b : Z) : Prop := 0 <= b < 256.

Class UserMemory (U : Type) := {
  (** copyin of [len] bytes, with the bytes read, and copyout. *)
  ucopyin : Z -> Z -> M U (Z * list Z);
  ucopyout : Z -> list Z -> M U Z;
  (** What the process can read, and the well-formed states. *)
  uview : U -> Z -> option Z;
  uok : U -> Prop;
  (** No byte can be stored at the address: there is no page, or it is read-only. *)
  ustuck : U -> Z -> Prop;
  ulocks : list lock;
  ucopyin_spec : forall va len L u, uok u -> 0 <= va -> 0 <= len -> avail ulocks L ->
    wp (ucopyin va len) L u (fun r u' => uok u' /\
      (forall x b, uview u x = Some b -> uview u' x = Some b) /\
      (r.1 = 0 /\ Z.of_nat (length r.2) = len /\ Forall is_byte r.2 /\ bytes_at (uview u') va r.2 \/
       r.1 = -1 /\ exists i, 0 <= i < len /\ uview u' (va + i) = None));
  ucopyout_spec : forall va bs L u, uok u -> 0 <= va -> Forall is_byte bs -> avail ulocks L ->
    wp (ucopyout va bs) L u (fun r u' => uok u' /\ exists k, (k <= length bs)%nat /\
      bytes_at (uview u') va (take k bs) /\
      (forall x b, uview u x = Some b -> x < va \/ va + Z.of_nat k <= x -> uview u' x = Some b) /\
      (r = 0 /\ k = length bs \/ r = -1 /\ (k < length bs)%nat /\ ustuck u' (va + Z.of_nat k)))
}.

Lemma bytes_at_nil view va : bytes_at view va [].
Proof. by intros i b. Qed.

Lemma bytes_at_app view va l l' :
  bytes_at view va (l ++ l') <-> bytes_at view va l /\ bytes_at view (va + Z.of_nat (length l)) l'.
Proof.
  split.
  - intros H. split; intros i b Hi.
    + apply H. by apply lookup_app_l_Some.
    + replace (va + _ + _) with (va + Z.of_nat (length l + i)) by lia. apply H.
      rewrite lookup_app_r by lia. by replace (_ + i - _)%nat with i by lia.
  - intros [H1 H2] i b [Hi|[Hge Hi]]%lookup_app_Some; [by apply H1|].
    apply H2 in Hi. rewrite <- Hi. f_equal. lia.
Qed.

Lemma bytes_at_mono view view' va l :
  bytes_at view va l -> (forall x b, view x = Some b -> view' x = Some b) -> bytes_at view' va l.
Proof. intros H Hm i b Hi. by apply Hm, H. Qed.

Lemma bytes_at_keep view view' va l lo hi :
  bytes_at view va l -> va + Z.of_nat (length l) <= lo \/ hi <= va ->
  (forall x b, view x = Some b -> x < lo \/ hi <= x -> view' x = Some b) -> bytes_at view' va l.
Proof.
  intros H Hd Hm i b Hi. pose proof (lookup_lt_Some _ _ _ Hi). apply Hm; [by apply H|lia].
Qed.
