(* ===== verification/Ring.v ===== *)
(** Circular buffers indexed by wrapping 32-bit counters, as the pipes and the
    console use them. *)
From S2P Require Import Prelude.
Local Open Scope Z_scope.

(** The array [data] of [N] bytes holds the queue [q] from counter [r] on. *)
Definition ring (N : Z) (data : list Z) (r : Z) (q : list Z) : Prop :=
  forall i b, q !! i = Some b -> data !! Z.to_nat ((r + Z.of_nat i) mod N) = Some b.

(** The size divides the range of the counters. *)
Class RingSize (N : Z) := { rs_pos : 0 < N; rs_div : (N | 2 ^ 32) }.

Section Ring.
Context (N : Z) `{RingSize N}.
Implicit Types (data q : list Z) (r b : Z).

(** Counters that wrap at a multiple of the size. *)
Lemma wrap_mod_ring W x : 0 < W -> (N | W) -> (x mod W) mod N = x mod N.
Proof.
  intros HW [k Hk]. pose proof rs_pos. rewrite (Z.div_mod x W) at 2 by lia.
  rewrite Hk at 2. replace (k * N * _ + _) with (x mod W + k * (x / W) * N) by lia. by rewrite Z_mod_plus_full.
Qed.

Lemma ring_wrap W data r q : 0 < W -> (N | W) -> ring N data (r mod W) q <-> ring N data r q.
Proof.
  intros HW Hd. assert (Hm : forall i, (r mod W + i) mod N = (r + i) mod N).
  { intros i. by rewrite <- (Zplus_mod_idemp_l (r mod W)), wrap_mod_ring, Zplus_mod_idemp_l. }
  unfold ring. by split; intros Hq i b Hi; apply Hq in Hi; rewrite <- Hi, Hm.
Qed.

Lemma u32_mod_ring x : u32 x mod N = x mod N.
Proof. apply wrap_mod_ring; [done|apply rs_div]. Qed.

Lemma ring_u32 data r q : ring N data (u32 r) q <-> ring N data r q.
Proof. apply ring_wrap; [done|apply rs_div]. Qed.

Lemma ring_prefix data r q q' : ring N data r (q ++ q') -> ring N data r q.
Proof. intros Hq i b Hi. apply Hq. by apply lookup_app_l_Some. Qed.

Lemma ring_head data r b q : ring N data r (b :: q) -> data !! Z.to_nat (r mod N) = Some b.
Proof. intros Hq. rewrite <- (Z.add_0_r r). by apply (Hq 0%nat). Qed.

Lemma ring_tail data r b q : ring N data r (b :: q) -> ring N data (r + 1) q.
Proof. intros Hq i c Hi. apply (Hq (S i)) in Hi. rewrite <- Hi. do 2 f_equal. f_equal. lia. Qed.

Lemma ring_cons data r b q : data !! Z.to_nat (r mod N) = Some b -> ring N data (r + 1) q -> ring N data r (b :: q).
Proof.
  intros Hb Hq [|i] c Hi; simpl in Hi; [simplify_eq; by rewrite Z.add_0_r|].
  apply Hq in Hi. rewrite <- Hi. do 2 f_equal. f_equal. lia.
Qed.

Lemma ring_last data r q b : ring N data r (q ++ [b]) -> data !! Z.to_nat ((r + Z.of_nat (length q)) mod N) = Some b.
Proof. intros Hq. apply Hq. by apply list_lookup_middle. Qed.

(** Storing at the end of a queue that is not full appends. *)
Lemma ring_push data r q b : Z.of_nat (length data) = N -> Z.of_nat (length q) < N -> ring N data r q ->
  ring N (<[Z.to_nat ((r + Z.of_nat (length q)) mod N) := b]> data) r (q ++ [b]).
Proof using All.
  intros Hd Hl Hq i c Hi. pose proof rs_pos.
  pose proof (Z.mod_pos_bound (r + Z.of_nat (length q)) N ltac:(done)).
  pose proof (Z.mod_pos_bound (r + Z.of_nat i) N ltac:(done)).
  apply lookup_app_Some in Hi as [Hi|[Hge Hi]].
  - rewrite list_lookup_insert_ne; [by apply Hq|]. pose proof (lookup_lt_Some _ _ _ Hi).
    intros E%Z2Nat.inj; [|lia..].
    assert (Hz : (r + Z.of_nat (length q) - (r + Z.of_nat i)) mod N = 0) by (rewrite Zminus_mod, E, Z.sub_diag; done).
    rewrite Z.mod_small in Hz; lia.
  - apply list_lookup_singleton_Some in Hi as [Hi <-].
    replace (Z.of_nat i) with (Z.of_nat (length q)) by lia. apply list_lookup_insert_eq. lia.
Qed.
End Ring.
