(* ===== verification/VmUser.v ===== *)
(** kernel/vm.c as an implementation of the user-memory interface: copyin and
    copyout on the page table of the current process. *)
From S2P Require Import Prelude Riscv PhysMem Kalloc PageTable Vm Cow Shm UserMem CopyOut UserIface.
Local Open Scope Z_scope.

Section Walk.
Context `{KernelImage}.
Implicit Types (m : mem) (T : ptree).

(** The entry the hardware finds for [va], walking the table at [root]. *)
Definition pte_of m (root va : Z) : Z :=
  let e2 := word (ram m) root (PX 2 va) in
  if has_bits e2 PTE_V then
    let e1 := word (ram m) (PTE2PA e2) (PX 1 va) in
    if has_bits e1 PTE_V then word (ram m) (PTE2PA e1) (PX 0 va) else 0
  else 0.

Lemma table_entry m root T π p i :
  pt_rep m root T -> T !! π = Some p -> (length π < 2)%nat -> 0 <= i < 512 ->
  match T !! (π ++ [i]) with
  | Some q => has_bits (word (ram m) p i) PTE_V = true /\ PTE2PA (word (ram m) p i) = q
  | None => has_bits (word (ram m) p i) PTE_V = false
  end.
Proof.
  intros HT Hp Hl Hi. destruct (T !! (π ++ [i])) as [q|] eqn:Hq;
    [by eapply child_valid|by eapply child_invalid].
Qed.

Lemma pte_of_rep m root T va : pt_rep m root T -> pte_of m root va = pte_at m T va.
Proof.
  intros HT. unfold pte_of, pte_at, vpath.
  pose proof (table_entry m root T [] root (PX 2 va) HT (pt_root _ _ _ HT)) as H2. simpl in H2.
  specialize (H2 ltac:(lia) (PX_range 2 va ltac:(lia))).
  destruct (T !! [PX 2 va]) as [q|] eqn:Hq.
  - destruct H2 as [-> ->].
    pose proof (table_entry m root T _ q (PX 1 va) HT Hq) as H1. simpl in H1.
    specialize (H1 ltac:(lia) (PX_range 1 va ltac:(lia))).
    destruct (T !! [PX 2 va; PX 1 va]) as [q'|]; [by destruct H1 as [-> ->]|by rewrite H1].
  - rewrite H2. destruct (T !! [PX 2 va; PX 1 va]) as [q'|] eqn:Hq'; [|done].
    destruct (pt_parent _ _ _ HT [PX 2 va] (PX 1 va) q' Hq') as [[? Hp] _]. congruence.
Qed.
End Walk.

(** * The instance *)
Section Instance.
Context `{KernelImage}.
Implicit Types (s : vms).

Definition vms_view s (va : Z) : option Z :=
  if decide (0 <= va < MAXVA) then
    let v := pte_of (vm_mem s) (p_pagetable s) va in
    if readable v then Some (byte (ram (vm_mem s)) (PTE2PA v + (va - PGROUNDDOWN va))) else None
  else None.

(** The page table of the process is a tree of its own, its pages are referenced
    data pages, each mapped once. *)
Definition vms_ok s : Prop := exists T fl,
  pt_rep (vm_mem s) (p_pagetable s) T /\ kmem_rep (vm_mem s) fl /\ uvalid (vm_mem s) T /\
  noalias (vm_mem s) T /\ p_sz s <= MAXVA.

(** copyout cannot store at [va]. *)
Definition vms_stuck s (va : Z) : Prop := exists T fl,
  pt_rep (vm_mem s) (p_pagetable s) T /\ kmem_rep (vm_mem s) fl /\ stuck (vm_mem s) T fl va.

Lemma vms_view_umem s T va :
  pt_rep (vm_mem s) (p_pagetable s) T -> vms_view s va = umem (vm_mem s) T va.
Proof. intros HT. unfold vms_view, umem. by rewrite (pte_of_rep _ _ _ _ HT). Qed.

Lemma vms_view_byte s va b : vms_view s va = Some b -> is_byte b.
Proof.
  unfold vms_view. case_decide; [|done]. cbv zeta. destruct (readable _); [|done].
  intros [= <-]. apply byte_range.
Qed.

Lemma bytes_at_ubytes s T va l :
  pt_rep (vm_mem s) (p_pagetable s) T -> ubytes (vm_mem s) T va l <-> bytes_at (vms_view s) va l.
Proof.
  intros HT. unfold ubytes, bytes_at. by setoid_rewrite (fun x => vms_view_umem s T x HT).
Qed.

Lemma bytes_at_Forall s va l : bytes_at (vms_view s) va l -> Forall is_byte l.
Proof. intros Hl. apply Forall_lookup. intros i b Hi. by eapply vms_view_byte, Hl. Qed.

Lemma vms_copyin_spec va len L s :
  vms_ok s -> 0 <= va -> 0 <= len -> avail [kmem_lock; ref_lock] L ->
  wp (copyin (p_pagetable s) va len) L s (fun r s' => vms_ok s' /\ p_pagetable s' = p_pagetable s /\
    (forall x b, vms_view s x = Some b -> vms_view s' x = Some b) /\
    (r.1 = 0 /\ Z.of_nat (length r.2) = len /\ Forall is_byte r.2 /\ bytes_at (vms_view s') va r.2 \/
     r.1 = -1 /\ exists i, 0 <= i < len /\ vms_view s' (va + i) = None)).
Proof.
  intros (T & fl & HT & Hk & Hu & Hn & Hsz) Hva Hlen HL.
  eapply wp_mono; [by apply (copyin_wp s T fl HT Hk Hu Hsz)|].
  intros r s' (m2 & T2 & fl2 & -> & Hf & Hr).
  pose proof (uext_ukeep _ _ _ _ _ _ _ _ Hk Hu Hn Hf) as [R2 K2 V2 N2 U2 _].
  assert (HT2 : pt_rep (vm_mem (over m2 s)) (p_pagetable (over m2 s)) T2) by exact R2.
  split; [by exists T2, fl2|]. split; [done|]. split.
  - intros x b. rewrite (vms_view_umem s T x HT), (vms_view_umem _ T2 x HT2). by apply U2.
  - destruct Hr as [(H1 & H2 & H3)|(H1 & _ & i & Hi & H2)].
    + left. assert (Hb : bytes_at (vms_view (over m2 s)) va r.2) by by apply (bytes_at_ubytes _ T2).
      split_and!; try done. by eapply bytes_at_Forall.
    + right. split; [done|]. exists i. split; [lia|]. by rewrite (vms_view_umem _ T2 _ HT2).
Qed.

Lemma vms_copyout_spec va bs L s :
  vms_ok s -> 0 <= va -> Forall is_byte bs -> avail [kmem_lock; ref_lock] L ->
  wp (copyout (p_pagetable s) va bs) L s (fun r s' => vms_ok s' /\ p_pagetable s' = p_pagetable s /\
    exists k, (k <= length bs)%nat /\ bytes_at (vms_view s') va (take k bs) /\
      (forall x b, vms_view s x = Some b -> x < va \/ va + Z.of_nat k <= x -> vms_view s' x = Some b) /\
      (r = 0 /\ k = length bs \/
       r = -1 /\ (k < length bs)%nat /\ vms_stuck s' (va + Z.of_nat k))).
Proof.
  intros (T & fl & HT & Hk & Hu & Hn & Hsz) Hva Hbs HL.
  eapply wp_mono; [by apply (copyout_wp s T va Hsz Hva bs L fl)|].
  intros r s' (m2 & T2 & fl2 & k & -> & [R2 K2 V2 N2 B2 U2 _] & Hr).
  assert (HT2 : pt_rep (vm_mem (over m2 s)) (p_pagetable (over m2 s)) T2) by exact R2.
  split; [by exists T2, fl2|]. split; [done|]. exists k.
  assert (Hkl : (k <= length bs)%nat) by (destruct Hr as [[_ ->]|(_ & ? & _)]; lia).
  split_and!; [done|by apply (bytes_at_ubytes _ T2)| |].
  - intros x b. rewrite (vms_view_umem s T x HT), (vms_view_umem _ T2 x HT2). intros Hx Hout.
    apply U2; [done|]. rewrite length_take. lia.
  - destruct Hr as [?|(? & ? & ?)]; [by left|]. right. split_and!; [done|done|]. by exists T2, fl2.
Qed.

#[export] Program Instance vms_user : UserMemory vms := {|
  ucopyin va len := pagetable ← gets p_pagetable; copyin pagetable va len;
  ucopyout va bs := pagetable ← gets p_pagetable; copyout pagetable va bs;
  uview := vms_view;
  uok := vms_ok;
  ustuck := vms_stuck;
  ulocks := [kmem_lock; ref_lock]
|}.
Next Obligation.
  intros va len L s Hok Hva Hlen HL. simpl. wsteps. eapply wpl_call; [by apply vms_copyin_spec|].
  intros r s' (? & _ & ? & ?). done.
Qed.
Next Obligation.
  intros va bs L s Hok Hva Hbs HL. simpl. wsteps. eapply wpl_call; [by apply vms_copyout_spec|].
  intros r s' (? & _ & ?). done.
Qed.
End Instance.
