(* ===== verification/Asm.v ===== *)
(** The assembly of the kernel: trampoline.S (entry from user code and return to
    it), kernelvec.S (interrupts in the kernel), swtch.S (context switch) and
    entry.S, as lists of instructions run on a hart whose loads and stores go
    through the page table of its satp register.  The translation is always that
    of the table in memory, so sfence.vma has no effect. *)
From stdpp Require Import functions.
From S2P Require Import Prelude Riscv PhysMem Kalloc PageTable Vm UserMem UserIface VmUser.
Local Open Scope Z_scope.

(** * The hart *)
Inductive reg :=
  | ra | sp | gp | tp | t0 | t1 | t2 | t3 | t4 | t5 | t6
  | s0 | s1 | s2 | s3 | s4 | s5 | s6 | s7 | s8 | s9 | s10 | s11
  | a0 | a1 | a2 | a3 | a4 | a5 | a6 | a7.

#[export] Instance reg_eq_dec : EqDecision reg.
Proof. solve_decision. Defined.

Inductive csr := sscratch | satp | mhartid.

#[export] Instance csr_eq_dec : EqDecision csr.
Proof. solve_decision. Defined.

(** Where control goes when the code is left: an address, or to the mode and pc
    that sstatus and sepc say. *)
Inductive target := To (a : Z) | Sret.

Record hart := mkHart { gpr : reg -> Z; csrs : csr -> Z; leave : option target; hmem : mem }.

#[export] Program Instance hart_mem : Lens hart mem := {
  view := hmem;
  over m c := mkHart (gpr c) (csrs c) (leave c) m
}.
Next Obligation. done. Qed.
Next Obligation. by intros []. Qed.
Next Obligation. done. Qed.

Inductive instr :=
  | SD (r : reg) (off : Z) (b : reg)
  | LD (r : reg) (off : Z) (b : reg)
  | LI (r : reg) (imm : Z)
  | ADDI (r b : reg) (imm : Z)
  | ADD (r x y : reg)
  | MUL (r x y : reg)
  | CSRW (c : csr) (r : reg)
  | CSRR (r : reg) (c : csr)
  | SFENCE_VMA
  | JALR (r : reg)
  | CALL (f : Z)
  | RET
  | SRET.

Section Machine.
Context `{KernelImage}.

(** The root page that a satp value names, when it selects Sv39. *)
Definition satp_root (x : Z) : Z := x mod 2 ^ 44 * PGSIZE.

(** Supervisor code may read or write the page of the entry. *)
Definition accessible (v : Z) (write : bool) : bool :=
  has_bits v PTE_V && has_bits v (if write then PTE_W else PTE_R) && negb (has_bits v PTE_U).

Definition translate (c : hart) (va : Z) (write : bool) : option Z :=
  if decide (csrs c satp / 2 ^ 60 = 8 /\ 0 <= va < MAXVA)
  then
    let v := pte_of (hmem c) (satp_root (csrs c satp)) va in
    if accessible v write then Some (PTE2PA v + va mod PGSIZE) else None
  else None.

Definition set_gpr (r : reg) (v : Z) (c : hart) : hart := mkHart (<[r := v]> (gpr c)) (csrs c) (leave c) (hmem c).
Definition set_csr (x : csr) (v : Z) (c : hart) : hart := mkHart (gpr c) (<[x := v]> (csrs c)) (leave c) (hmem c).
Definition set_leave (t : target) (c : hart) : hart := mkHart (gpr c) (csrs c) (Some t) (hmem c).

(** The address after a call, where it returns to. *)
Variable link : Z.

Definition exec (i : instr) : M hart unit :=
  match i with
  | SD r off b =>
      c ← gets (fun c => c);
      match translate c (u64 (gpr c b + off)) true with
      | Some pa => zoom (store64 pa (gpr c r))
      | None => undef "page fault"
      end
  | LD r off b =>
      c ← gets (fun c => c);
      match translate c (u64 (gpr c b + off)) false with
      | Some pa => v ← zoom (load64 pa); modify (set_gpr r v)
      | None => undef "page fault"
      end
  | LI r imm => modify (set_gpr r imm)
  | ADDI r b imm => modify (fun c => set_gpr r (u64 (gpr c b + imm)) c)
  | ADD r x y => modify (fun c => set_gpr r (u64 (gpr c x + gpr c y)) c)
  | MUL r x y => modify (fun c => set_gpr r (u64 (gpr c x * gpr c y)) c)
  | CSRW x r => modify (fun c => set_csr x (gpr c r) c)
  | CSRR r x => modify (fun c => set_gpr r (csrs c x) c)
  | SFENCE_VMA => mret tt
  | JALR r => modify (fun c => set_gpr ra link (set_leave (To (gpr c r)) c))
  | CALL f => modify (fun c => set_gpr ra link (set_leave (To f) c))
  | RET => modify (fun c => set_leave (To (gpr c ra)) c)
  | SRET => modify (set_leave Sret)
  end.

Fixpoint run_asm (p : list instr) : M hart unit :=
  match p with [] => mret tt | i :: p => exec i;; run_asm p end.
End Machine.

(** * trampoline.S *)
Definition uservec : list instr := [
  CSRW sscratch a0;
  LI a0 TRAPFRAME;
  SD ra 40 a0; SD sp 48 a0; SD gp 56 a0; SD tp 64 a0; SD t0 72 a0; SD t1 80 a0; SD t2 88 a0;
  SD s0 96 a0; SD s1 104 a0;
  SD a1 120 a0; SD a2 128 a0; SD a3 136 a0; SD a4 144 a0; SD a5 152 a0; SD a6 160 a0; SD a7 168 a0;
  SD s2 176 a0; SD s3 184 a0; SD s4 192 a0; SD s5 200 a0; SD s6 208 a0; SD s7 216 a0; SD s8 224 a0;
  SD s9 232 a0; SD s10 240 a0; SD s11 248 a0;
  SD t3 256 a0; SD t4 264 a0; SD t5 272 a0; SD t6 280 a0;
  CSRR t0 sscratch;
  SD t0 112 a0;
  LD sp 8 a0;
  LD tp 32 a0;
  LD t0 16 a0;
  LD t1 0 a0;
  SFENCE_VMA;
  CSRW satp t1;
  SFENCE_VMA;
  JALR t0].

Definition userret : list instr := [
  SFENCE_VMA;
  CSRW satp a0;
  SFENCE_VMA;
  LI a0 TRAPFRAME;
  LD ra 40 a0; LD sp 48 a0; LD gp 56 a0; LD tp 64 a0; LD t0 72 a0; LD t1 80 a0; LD t2 88 a0;
  LD s0 96 a0; LD s1 104 a0;
  LD a1 120 a0; LD a2 128 a0; LD a3 136 a0; LD a4 144 a0; LD a5 152 a0; LD a6 160 a0; LD a7 168 a0;
  LD s2 176 a0; LD s3 184 a0; LD s4 192 a0; LD s5 200 a0; LD s6 208 a0; LD s7 216 a0; LD s8 224 a0;
  LD s9 232 a0; LD s10 240 a0; LD s11 248 a0;
  LD t3 256 a0; LD t4 264 a0; LD t5 272 a0; LD t6 280 a0;
  LD a0 112 a0;
  SRET].

(** * swtch.S *)
Definition swtch : list instr := [
  SD ra 0 a0; SD sp 8 a0; SD s0 16 a0; SD s1 24 a0; SD s2 32 a0; SD s3 40 a0; SD s4 48 a0; SD s5 56 a0;
  SD s6 64 a0; SD s7 72 a0; SD s8 80 a0; SD s9 88 a0; SD s10 96 a0; SD s11 104 a0;
  LD ra 0 a1; LD sp 8 a1; LD s0 16 a1; LD s1 24 a1; LD s2 32 a1; LD s3 40 a1; LD s4 48 a1; LD s5 56 a1;
  LD s6 64 a1; LD s7 72 a1; LD s8 80 a1; LD s9 88 a1; LD s10 96 a1; LD s11 104 a1;
  RET].

(** * kernelvec.S, up to the call of kerneltrap and from its return on *)
Definition kernelvec (kerneltrap : Z) : list instr := [
  ADDI sp sp (-256);
  SD ra 0 sp; SD gp 16 sp; SD tp 24 sp; SD t0 32 sp; SD t1 40 sp; SD t2 48 sp;
  SD a0 72 sp; SD a1 80 sp; SD a2 88 sp; SD a3 96 sp; SD a4 104 sp; SD a5 112 sp; SD a6 120 sp; SD a7 128 sp;
  SD t3 216 sp; SD t4 224 sp; SD t5 232 sp; SD t6 240 sp;
  CALL kerneltrap].

Definition kernelvec_return : list instr := [
  LD ra 0 sp; LD gp 16 sp; LD t0 32 sp; LD t1 40 sp; LD t2 48 sp;
  LD a0 72 sp; LD a1 80 sp; LD a2 88 sp; LD a3 96 sp; LD a4 104 sp; LD a5 112 sp; LD a6 120 sp; LD a7 128 sp;
  LD t3 216 sp; LD t4 224 sp; LD t5 232 sp; LD t6 240 sp;
  ADDI sp sp 256;
  SRET].

(** * entry.S *)
Definition entry (stack0 start : Z) : list instr := [
  LI sp stack0;
  LI a0 (1024 * 4);
  CSRR a1 mhartid;
  ADDI a1 a1 1;
  MUL a0 a0 a1;
  ADD sp sp a0;
  CALL start].

(** * Saving and restoring *)

(** The registers at offsets from a base register. *)
Definition saves (b : reg) (l : list (reg * Z)) : list instr := (fun x => SD x.1 x.2 b) <$> l.
Definition restores (b : reg) (l : list (reg * Z)) : list instr := (fun x => LD x.1 x.2 b) <$> l.

Section Areas.
Context `{KernelImage}.
Context (link : Z).
Implicit Types (c : hart) (T : ptree) (L : list lock) (l : list (reg * Z)).

Lemma wpl_run_app p q L c Q : wpl (run_asm link p) L c (fun _ L' c' => wpl (run_asm link q) L' c' Q) -> wpl (run_asm link (p ++ q)) L c Q.
Proof.
  revert L c. induction p as [|i p IH]; intros L c Hw; [exact Hw|]. simpl in *. unfold wpl, mbind, M_bind in *.
  destruct (exec link i L c); try done. by apply IH.
Qed.

(** The table of the hart maps the [n] bytes at [va] to those at [pa], for
    supervisor code to read and write, and they are not part of the table. *)
Record maps c T (va n pa : Z) : Prop := {
  mp_mode : csrs c satp / 2 ^ 60 = 8;
  mp_rep : pt_rep (hmem c) (satp_root (csrs c satp)) T;
  mp_align : va mod 8 = 0 /\ pa mod 8 = 0;
  mp_range : 0 <= va /\ va + n <= MAXVA;
  mp_ram : ram_ok pa n;
  mp_entry : forall i, 0 <= i < n -> let v := pte_at (hmem c) T (va + i) in
    accessible v false = true /\ accessible v true = true /\ PTE2PA v + (va + i) mod PGSIZE = pa + i;
  mp_data : forall i, 0 <= i < n -> PGROUNDDOWN (pa + i) ∉ pt_set T
}.

(** The 64-bit word at offset [off] of the area at [pa]. *)
Definition field (m : mem) (pa off : Z) : Z := load_le (ram m) (pa + off) 8.

(** Memory was changed only within the [n] bytes at [pa]. *)
Definition within (pa n : Z) (m m' : mem) : Prop :=
  (forall x, x < pa \/ pa + n <= x -> byte (ram m') x = byte (ram m) x) /\ freelist m' = freelist m /\ ref_count m' = ref_count m.

Lemma within_refl pa n m : within pa n m m.
Proof. done. Qed.

Lemma within_trans pa n m1 m2 m3 : within pa n m1 m2 -> within pa n m2 m3 -> within pa n m1 m3.
Proof. intros (B1 & F1 & R1) (B2 & F2 & R2). split_and!; [|congruence..]. intros x Hx. by rewrite B2, B1. Qed.

Lemma within_slot pa n m m' q off : within pa n m m' -> q + off + 8 <= pa \/ pa + n <= q + off -> field m' q off = field m q off.
Proof. intros (B & _ & _) Hd. apply load_le_ext. intros x Hx. apply B. simpl in Hx. lia. Qed.

(** Whatever happens within an area mapped by the table, or outside of RAM that
    the table occupies, does not change the translation. *)
Lemma maps_keep c T va n pa c' va' n' pa' :
  maps c T va n pa -> maps c T va' n' pa' -> within pa' n' (hmem c) (hmem c') -> csrs c' satp = csrs c satp -> maps c' T va n pa.
Proof.
  intros Hm [_ _ _ _ _ _ Hd'] (B & F & R) E. destruct Hm as [M1 M2 M3 M4 M5 M6 M7].
  assert (Hag : agree_off (list_to_set (PGROUNDDOWN <$> ((fun i => pa' + i) <$> seqZ 0 n'))) (hmem c) (hmem c')).
  { intros q Hq Hn. split; [|unfold ref; by rewrite R]. intros x Hx. symmetry. apply B. destruct (decide (pa' <= x < pa' + n')) as [Hin|]; [|lia]. destruct Hn.
    rewrite elem_of_list_to_set. apply list_elem_of_fmap. exists x. split; [rewrite PGROUNDDOWN_eq; unfold PGSIZE in *; zdiv|]. apply list_elem_of_fmap. exists (x - pa'). split; [lia|].
    apply elem_of_seqZ. lia. }
  assert (Hdis : pt_set T ## list_to_set (PGROUNDDOWN <$> ((fun i => pa' + i) <$> seqZ 0 n'))).
  { intros q Hq. rewrite elem_of_list_to_set. intros (x & -> & Hx)%list_elem_of_fmap. apply list_elem_of_fmap in Hx as (i & -> & Hi%elem_of_seqZ). by apply (Hd' i); [lia|]. }
  split; rewrite ?E; try done.
  - by eapply pt_rep_agree.
  - intros i Hi. rewrite (pte_at_agree _ _ _ _ _ (va + i) Hag Hdis M2). by apply M6.
Qed.

Lemma maps_translate c T va n pa off w : maps c T va n pa -> 0 <= off -> off + 8 <= n -> off mod 8 = 0 -> translate c (u64 (va + off)) w = Some (pa + off).
Proof.
  intros [M1 M2 M3 M4 M5 M6 M7] H0 Hn H8. change MAXVA with (2 ^ 38) in *. rewrite u64_small by lia. unfold translate.
  rewrite decide_True by (change MAXVA with (2 ^ 38); split; [done|lia]). destruct (M6 off) as (Hr & Hw & Hp); [lia|].
  rewrite (pte_of_rep _ _ _ _ M2). destruct w; [rewrite Hw|rewrite Hr]; by rewrite Hp.
Qed.

Lemma wpl_zoom_mem {A} (m : M mem A) L c Q : wpl m L (hmem c) (fun a L' x => Q a L' (mkHart (gpr c) (csrs c) (leave c) x)) -> wpl (zoom m) L c Q.
Proof. intros. by apply wpl_zoom. Qed.

(** Saving registers to an area. *)
Lemma saves_wp T b va n pa l L c Q : maps c T va n pa -> gpr c b = va -> (forall r, 0 <= gpr c r < 2 ^ 64) ->
  (forall r off, (r, off) ∈ l -> 0 <= off /\ off + 8 <= n /\ off mod 8 = 0) -> NoDup l.*2 ->
  (forall m', within pa n (hmem c) m' -> maps (mkHart (gpr c) (csrs c) (leave c) m') T va n pa ->
    (forall r off, (r, off) ∈ l -> field m' pa off = gpr c r) ->
    (forall off, 0 <= off -> off mod 8 = 0 -> off ∉ l.*2 -> field m' pa off = field (hmem c) pa off) ->
    Q tt L (mkHart (gpr c) (csrs c) (leave c) m')) ->
  wpl (run_asm link (saves b l)) L c Q.
Proof.
  revert c Q. induction l as [|[r off] l IH]; intros c Q Hm Hb Hr Hl Hnd HQ; simpl.
  { wstep. destruct c. apply HQ; try done. by intros ? ? ?%not_elem_of_nil. }
  destruct (Hl r off) as (H0 & Hn & H8); [by left|]. pose proof (NoDup_cons_1_1 _ _ Hnd) as Hnin. pose proof (NoDup_cons_1_2 _ _ Hnd) as Hnd'.
  wsteps. rewrite Hb, (maps_translate c T va n pa off true) by done. apply wpl_zoom_mem.
  pose proof (mp_ram _ _ _ _ _ Hm) as Hram. apply wpl_store64; [unfold ram_ok in *; lia|]. cbv beta.
  set (m1 := set_ram _ (hmem c)). assert (Hw1 : within pa n (hmem c) m1) by (split_and!; try done; intros x Hx; simpl; apply byte_store_le_out; simpl; lia).
  assert (Hm1 : maps (mkHart (gpr c) (csrs c) (leave c) m1) T va n pa) by by eapply maps_keep.
  assert (Hs1 : field m1 pa off = gpr c r).
  { unfold field. simpl. rewrite load_store_le. apply Z.mod_small. apply Hr. }
  assert (Ho1 : forall o, o mod 8 = 0 -> o <> off -> field m1 pa o = field (hmem c) pa o).
  { intros o Ho Hne. unfold field. simpl. apply load_store_le_ne. simpl. zdiv. }
  apply IH; try done; [set_solver|]. intros m2 Hw2 Hm2 Hs2 Ho2. apply HQ; [by eapply within_trans|done| |].
  - intros r' off' [[= -> ->]|Hin]%elem_of_cons; [|by apply Hs2]. rewrite Ho2; done.
  - intros o Ho Ho8 Hno. rewrite Ho2, Ho1; try done; set_solver.
Qed.

(** Restoring registers from an area. *)
Definition restored (m : mem) (pa : Z) l (g : reg -> Z) : reg -> Z := foldl (fun g x => <[x.1 := field m pa x.2]> g) g l.

Lemma restores_wp T b va n pa l L c Q : maps c T va n pa -> gpr c b = va -> b ∉ l.*1 ->
  (forall r off, (r, off) ∈ l -> 0 <= off /\ off + 8 <= n /\ off mod 8 = 0) ->
  Q tt L (mkHart (restored (hmem c) pa l (gpr c)) (csrs c) (leave c) (hmem c)) ->
  wpl (run_asm link (restores b l)) L c Q.
Proof.
  revert c Q. induction l as [|[r off] l IH]; intros c Q Hm Hb Hnb Hl HQ; simpl.
  { wstep. by destruct c. }
  destruct (Hl r off) as (H0 & Hn & H8); [by left|]. wsteps. rewrite Hb, (maps_translate c T va n pa off false) by done. wstep. apply wpl_zoom_mem.
  pose proof (mp_ram _ _ _ _ _ Hm) as Hram. apply wpl_load64; [unfold ram_ok in *; lia|]. cbv beta. wsteps. apply IH; [by destruct Hm| |set_solver|set_solver|exact HQ].
  simpl. rewrite fn_lookup_insert_ne; [done|set_solver].
Qed.

Lemma restored_other m pa l g r : r ∉ l.*1 -> restored m pa l g r = g r.
Proof.
  revert g. induction l as [|[r' off] l IH]; intros g Hr; [done|]. simpl in *. rewrite IH by set_solver. rewrite fn_lookup_insert_ne; [done|set_solver].
Qed.

Lemma restored_slot m pa l g r off : NoDup l.*1 -> (r, off) ∈ l -> restored m pa l g r = field m pa off.
Proof.
  revert g. induction l as [|[r' off'] l IH]; intros g Hnd Hin; [by apply not_elem_of_nil in Hin|]. simpl in *. apply NoDup_cons in Hnd as [Hnin Hnd].
  apply elem_of_cons in Hin as [[= -> ->]|Hin]; [|by apply IH]. rewrite restored_other by done. by rewrite fn_lookup_insert.
Qed.
End Areas.

(** * The registers of a trap *)

(** The fields of struct trapframe that hold user registers, with their offsets,
    and those of struct context. *)
Definition saved_slots : list (reg * Z) := [
  (ra, 40); (sp, 48); (gp, 56); (tp, 64); (t0, 72); (t1, 80); (t2, 88); (s0, 96); (s1, 104);
  (a1, 120); (a2, 128); (a3, 136); (a4, 144); (a5, 152); (a6, 160); (a7, 168);
  (s2, 176); (s3, 184); (s4, 192); (s5, 200); (s6, 208); (s7, 216); (s8, 224); (s9, 232); (s10, 240); (s11, 248);
  (t3, 256); (t4, 264); (t5, 272); (t6, 280)].
Definition trapframe_slots : list (reg * Z) := (a0, 112) :: saved_slots.

Definition context_slots : list (reg * Z) := [
  (ra, 0); (sp, 8); (s0, 16); (s1, 24); (s2, 32); (s3, 40); (s4, 48); (s5, 56); (s6, 64); (s7, 72);
  (s8, 80); (s9, 88); (s10, 96); (s11, 104)].

(** The frame that kernelvec makes on the stack. *)
Definition frame_slots : list (reg * Z) := [
  (ra, 0); (gp, 16); (tp, 24); (t0, 32); (t1, 40); (t2, 48);
  (a0, 72); (a1, 80); (a2, 88); (a3, 96); (a4, 104); (a5, 112); (a6, 120); (a7, 128);
  (t3, 216); (t4, 224); (t5, 232); (t6, 240)].
Definition back_slots : list (reg * Z) := filter (fun x => x.1 <> tp) frame_slots.
Definition callee_saved : list reg := [s0; s1; s2; s3; s4; s5; s6; s7; s8; s9; s10; s11].

Definition slots_okb (n : Z) (l : list (reg * Z)) : bool :=
  bool_decide (NoDup l.*2) && bool_decide (NoDup l.*1) && forallb (fun x => (0 <=? x.2) && (x.2 + 8 <=? n) && (x.2 mod 8 =? 0)) l.

Lemma slots_ok n l : slots_okb n l = true -> NoDup l.*2 /\ NoDup l.*1 /\ forall r off, (r, off) ∈ l -> 0 <= off /\ off + 8 <= n /\ off mod 8 = 0.
Proof.
  unfold slots_okb. rewrite !andb_true_iff, !bool_decide_eq_true, forallb_forall. intros [[H2 H1] Hl]. split_and!; try done.
  intros r off Hin%list_elem_of_In%Hl. rewrite !andb_true_iff, !Z.leb_le, Z.eqb_eq in Hin. simpl in Hin. tauto.
Qed.

Lemma every_register r : exists off, (r, off) ∈ trapframe_slots.
Proof.
  assert (Hr : r ∈ trapframe_slots.*1) by (apply (bool_decide_unpack _); by destruct r). apply list_elem_of_fmap in Hr as ([? off] & -> & Hin). by exists off.
Qed.

Section Programs.
Context `{KernelImage}.
Context (link : Z).
Implicit Types (c : hart) (T : ptree).

Lemma uservec_saves T tf c : maps c T TRAPFRAME PGSIZE tf -> (forall r, 0 <= gpr c r < 2 ^ 64) ->
  wp (run_asm link uservec) [] c (fun _ c' =>
    (forall r off, (r, off) ∈ trapframe_slots -> field (hmem c') tf off = gpr c r) /\
    (forall off, off ∈ [0; 8; 16; 24; 32] -> field (hmem c') tf off = field (hmem c) tf off) /\ within tf PGSIZE (hmem c) (hmem c') /\
    gpr c' sp = field (hmem c) tf 8 /\ gpr c' tp = field (hmem c) tf 32 /\ csrs c' satp = field (hmem c) tf 0 /\ gpr c' ra = link /\
    leave c' = Some (To (field (hmem c) tf 16))).
Proof.
  intros Hm Hr. destruct (slots_ok PGSIZE saved_slots eq_refl) as (Hnd & _ & Hsl).
  change uservec with ([CSRW sscratch a0; LI a0 TRAPFRAME] ++ saves a0 saved_slots ++ [CSRR t0 sscratch] ++ saves a0 [(t0, 112)] ++
    restores a0 [(sp, 8); (tp, 32); (t0, 16); (t1, 0)] ++ [SFENCE_VMA; CSRW satp t1; SFENCE_VMA; JALR t0]).
  apply wp_intro, wpl_run_app. simpl run_asm at 1. wsteps. set (c1 := set_gpr _ _ _). assert (Hm1 : maps c1 T TRAPFRAME PGSIZE tf) by by destruct Hm.
  assert (Hg1 : forall r, r <> a0 -> gpr c1 r = gpr c r) by (intros r Hne; unfold c1; simpl; by rewrite fn_lookup_insert_ne by done).
  apply wpl_run_app. apply (saves_wp link T a0 TRAPFRAME PGSIZE tf saved_slots _ c1 _ Hm1); try done.
  { intros r. destruct (decide (r = a0)) as [->|Hne]; [split; by vm_compute|rewrite Hg1 by done; apply Hr]. }
  intros m2 Hw2 Hm2 Hs2 Ho2. apply wpl_run_app. simpl run_asm at 1. wsteps. set (c3 := set_gpr _ _ _).
  assert (Hg3 : forall r, r <> t0 -> gpr c3 r = gpr c1 r) by (intros r Hne; unfold c3; cbn [gpr set_gpr]; by rewrite fn_lookup_insert_ne by done).
  assert (Hm3 : maps c3 T TRAPFRAME PGSIZE tf) by by destruct Hm2. apply wpl_run_app. apply (saves_wp link T a0 TRAPFRAME PGSIZE tf [(t0, 112)] _ c3 _ Hm3); try done.
  { intros r. destruct (decide (r = t0)) as [->|Hne]; [apply (Hr a0)|]. rewrite Hg3 by done.
    destruct (decide (r = a0)) as [->|]; [split; by vm_compute|rewrite Hg1 by done; apply Hr]. }
  { intros r off [= -> ->]%list_elem_of_singleton. unfold PGSIZE. done. }
  { apply NoDup_singleton. }
  intros m4 Hw4 Hm4 Hs4 Ho4. apply wpl_run_app. eapply (restores_wp link T a0 TRAPFRAME PGSIZE tf _ _ _ _ Hm4); [done|by apply (bool_decide_unpack _)| |].
  { intros r off Hin. apply (slots_ok PGSIZE [(sp, 8); (tp, 32); (t0, 16); (t1, 0)] eq_refl) in Hin. done. }
  assert (Hall : forall r off, (r, off) ∈ trapframe_slots -> field m4 tf off = gpr c r).
  { intros r off [[= -> ->]|Hin]%elem_of_cons; [by apply (Hs4 t0 112); left|]. destruct (Hsl r off Hin) as (? & ? & ?).
    rewrite Ho4; [|done|done|]. { etrans; [exact (Hs2 r off Hin)|]. apply Hg1. intros ->. assert (Hb : a0 ∈ saved_slots.*1) by (apply list_elem_of_fmap; by exists (a0, off)). revert Hb. by apply (bool_decide_unpack (¬ _)); vm_compute. }
    intros E%list_elem_of_singleton. subst off. assert (Hb : 112 ∈ saved_slots.*2) by (apply list_elem_of_fmap; by exists (r, 112)). revert Hb. by apply (bool_decide_unpack (¬ _)); vm_compute. }
  assert (Hker : forall off, off ∈ [0; 8; 16; 24; 32] -> field m4 tf off = field (hmem c) tf off).
  { intros off Hin. assert (Hb : off ∉ [112] /\ off ∉ saved_slots.*2 /\ 0 <= off /\ off mod 8 = 0) by (repeat (apply elem_of_cons in Hin as [->|Hin]; [split_and!; by apply (bool_decide_unpack _); vm_compute|]); by apply not_elem_of_nil in Hin).
    destruct Hb as (? & ? & ? & ?). rewrite Ho4, Ho2; done. }
  simpl. wsteps. split; [done|]. split_and!; try done; try (by apply Hker; set_solver); [by eapply within_trans|].
  cbn. do 2 f_equal. apply Hker. set_solver.
Qed.

Lemma userret_restores T tf c : maps (set_csr satp (gpr c a0) c) T TRAPFRAME PGSIZE tf ->
  wp (run_asm link userret) [] c (fun _ c' => leave c' = Some Sret /\ hmem c' = hmem c /\ csrs c' satp = gpr c a0 /\
    forall r off, (r, off) ∈ trapframe_slots -> gpr c' r = field (hmem c) tf off).
Proof.
  intros Hm. destruct (slots_ok PGSIZE saved_slots eq_refl) as (_ & Hnd & Hsl).
  change userret with ([SFENCE_VMA; CSRW satp a0; SFENCE_VMA; LI a0 TRAPFRAME] ++ restores a0 saved_slots ++ restores a0 [(a0, 112)] ++ [SRET]).
  apply wp_intro, wpl_run_app. simpl run_asm at 1. wsteps. set (c1 := set_gpr _ _ _). assert (Hm1 : maps c1 T TRAPFRAME PGSIZE tf) by by destruct Hm.
  apply wpl_run_app. eapply (restores_wp link T a0 TRAPFRAME PGSIZE tf _ _ _ _ Hm1); [done|by apply (bool_decide_unpack (¬ _)); vm_compute|done|].
  set (g := restored _ _ _ _). assert (Hg : forall r off, (r, off) ∈ saved_slots -> g r = field (hmem c) tf off) by (intros r off Hin; by apply restored_slot).
  assert (Ha0 : g a0 = TRAPFRAME) by (apply restored_other; by apply (bool_decide_unpack (¬ _)); vm_compute).
  apply wpl_run_app. simpl run_asm at 1. wsteps. cbn [gpr]. rewrite Ha0. set (c2 := mkHart g _ _ _). assert (Hm2 : maps c2 T TRAPFRAME PGSIZE tf) by by destruct Hm1.
  rewrite (maps_translate c2 T TRAPFRAME PGSIZE tf 112 false Hm2) by (unfold PGSIZE; done). wstep. apply wpl_zoom_mem.
  pose proof (mp_ram _ _ _ _ _ Hm2) as Hram. apply wpl_load64; [unfold ram_ok, PGSIZE in *; lia|]. cbv beta. wsteps. simpl run_asm. wsteps.
  split; [done|]. split_and!; try done. intros r off Hin. simpl. apply elem_of_cons in Hin as [[= -> ->]|Hin]; [by rewrite fn_lookup_insert|].
  rewrite fn_lookup_insert_ne; [by apply Hg|]. intros <-. assert (Hb : a0 ∈ saved_slots.*1) by (apply list_elem_of_fmap; by exists (a0, off)). revert Hb. by apply (bool_decide_unpack (¬ _)); vm_compute.
Qed.

Lemma swtch_switches T old new c : maps c T (gpr c a0) 112 old -> maps c T (gpr c a1) 112 new -> old + 112 <= new \/ new + 112 <= old -> (forall r, 0 <= gpr c r < 2 ^ 64) ->
  wp (run_asm link swtch) [] c (fun _ c' => leave c' = Some (To (field (hmem c) new 0)) /\ within old 112 (hmem c) (hmem c') /\ csrs c' = csrs c /\
    (forall r off, (r, off) ∈ context_slots -> field (hmem c') old off = gpr c r /\ gpr c' r = field (hmem c) new off) /\
    forall r, r ∉ context_slots.*1 -> gpr c' r = gpr c r).
Proof.
  intros Ho Hn Hd Hr. destruct (slots_ok 112 context_slots eq_refl) as (Hnd2 & Hnd1 & Hsl).
  change swtch with (saves a0 context_slots ++ restores a1 context_slots ++ [RET]).
  apply wp_intro, wpl_run_app. apply (saves_wp link T a0 (gpr c a0) 112 old context_slots _ c _ Ho); try done. intros m1 Hw1 Hm1 Hs1 _. apply wpl_run_app.
  set (c1 := mkHart _ _ _ m1). assert (Hn1 : maps c1 T (gpr c a1) 112 new) by by apply (maps_keep c T _ _ _ c1 (gpr c a0) 112 old).
  eapply (restores_wp link T a1 (gpr c a1) 112 new _ _ _ _ Hn1); [done|by apply (bool_decide_unpack (¬ _)); vm_compute|done|].
  simpl run_asm. wsteps. split; [done|].
  assert (Hload : forall r off, (r, off) ∈ context_slots -> restored (hmem c1) new context_slots (gpr c1) r = field (hmem c) new off).
  { intros r off Hin. rewrite (restored_slot _ _ _ _ r off Hnd1 Hin). destruct (Hsl r off Hin) as (? & ? & _). eapply within_slot; [exact Hw1|lia]. }
  split_and!; try done.
  - cbn. do 2 f_equal. apply (Hload ra 0). by left.
  - intros r off Hin. split; [by apply Hs1|by apply Hload].
  - intros r Hnin. by apply restored_other.
Qed.

Lemma kernelvec_saves kerneltrap T pa c : maps c T (gpr c sp - 256) 256 pa -> (forall r, 0 <= gpr c r < 2 ^ 64) ->
  wp (run_asm link (kernelvec kerneltrap)) [] c (fun _ c' => leave c' = Some (To kerneltrap) /\ gpr c' sp = gpr c sp - 256 /\ gpr c' ra = link /\
    (forall r, r <> sp -> r <> ra -> gpr c' r = gpr c r) /\ csrs c' = csrs c /\ within pa 256 (hmem c) (hmem c') /\
    maps c' T (gpr c sp - 256) 256 pa /\ forall r off, (r, off) ∈ frame_slots -> field (hmem c') pa off = gpr c r).
Proof.
  intros Hm Hr. destruct (slots_ok 256 frame_slots eq_refl) as (Hnd2 & _ & Hsl). pose proof (mp_range _ _ _ _ _ Hm) as [Hlo Hhi]. change MAXVA with (2 ^ 38) in Hhi.
  change (kernelvec kerneltrap) with ([ADDI sp sp (-256)] ++ saves sp frame_slots ++ [CALL kerneltrap]).
  apply wp_intro, wpl_run_app. simpl run_asm at 1. wsteps. replace (u64 (gpr c sp + -256)) with (gpr c sp - 256) by (rewrite u64_small by lia; lia).
  set (c1 := set_gpr sp _ c). assert (Hm1 : maps c1 T (gpr c sp - 256) 256 pa) by by destruct Hm.
  assert (Hg1 : forall r, r <> sp -> gpr c1 r = gpr c r) by (intros r Hne; unfold c1; simpl; by rewrite fn_lookup_insert_ne by done).
  apply wpl_run_app. apply (saves_wp link T sp (gpr c sp - 256) 256 pa frame_slots _ c1 _ Hm1); try done.
  { intros r. destruct (decide (r = sp)) as [->|]; [unfold c1; simpl; rewrite fn_lookup_insert; lia|by rewrite Hg1]. }
  intros m2 Hw2 Hm2 Hs2 _. simpl run_asm. wsteps. split; [done|]. split_and!; try done.
  - intros r Hs Ha. cbn [gpr set_gpr set_leave]. rewrite fn_lookup_insert_ne by done. by apply Hg1.
  - by destruct Hm2.
  - intros r off Hin. etrans; [exact (Hs2 r off Hin)|]. apply Hg1. intros ->. assert (Hb : sp ∈ frame_slots.*1) by (apply list_elem_of_fmap; by exists (sp, off)). revert Hb. by apply (bool_decide_unpack (¬ _)); vm_compute.
Qed.

Lemma kernelvec_restores T pa c : maps c T (gpr c sp) 256 pa ->
  wp (run_asm link kernelvec_return) [] c (fun _ c' => leave c' = Some Sret /\ hmem c' = hmem c /\ gpr c' sp = gpr c sp + 256 /\
    (forall r off, (r, off) ∈ back_slots -> gpr c' r = field (hmem c) pa off) /\ forall r, r ∉ back_slots.*1 -> r <> sp -> gpr c' r = gpr c r).
Proof.
  intros Hm. destruct (slots_ok 256 back_slots eq_refl) as (_ & Hnd & Hsl). pose proof (mp_range _ _ _ _ _ Hm) as [Hlo Hhi]. change MAXVA with (2 ^ 38) in Hhi.
  assert (Hsp : sp ∉ back_slots.*1) by by apply (bool_decide_unpack (¬ _)); vm_compute.
  change kernelvec_return with (restores sp back_slots ++ [ADDI sp sp 256; SRET]). apply wp_intro, wpl_run_app.
  eapply (restores_wp link T sp (gpr c sp) 256 pa _ _ _ _ Hm); [done|done|done|]. simpl run_asm. wsteps. split; [done|]. cbn [leave hmem gpr set_leave set_gpr].
  rewrite fn_lookup_insert, (restored_other _ _ _ _ sp Hsp), u64_small by lia. split_and!; try done.
  - intros r off Hin. rewrite fn_lookup_insert_ne; [by apply restored_slot|]. intros <-. apply Hsp, list_elem_of_fmap. by exists (sp, off).
  - intros r Hnin Hne. rewrite fn_lookup_insert_ne by done. by apply restored_other.
Qed.

(** C25. A trap saves and restores the whole register state of the user program:
    uservec stores every register in the trapframe of the process, through the
    user page table, and enters the kernel on its stack and page table; when the
    kernel comes back with the trapframe changed at most in a0, under any page
    table that maps it, userret gives the program back every register it had, and
    the value of the trapframe in a0. *)
Theorem trap_roundtrip T tf c : maps c T TRAPFRAME PGSIZE tf -> (forall r, 0 <= gpr c r < 2 ^ 64) ->
  wp (run_asm link uservec) [] c (fun _ c1 =>
    leave c1 = Some (To (field (hmem c) tf 16)) /\ gpr c1 sp = field (hmem c) tf 8 /\ gpr c1 tp = field (hmem c) tf 32 /\ csrs c1 satp = field (hmem c) tf 0 /\
    gpr c1 ra = link /\ within tf PGSIZE (hmem c) (hmem c1) /\
    forall T2 c2, maps (set_csr satp (gpr c2 a0) c2) T2 TRAPFRAME PGSIZE tf ->
      (forall r off, (r, off) ∈ trapframe_slots -> r <> a0 -> field (hmem c2) tf off = field (hmem c1) tf off) ->
      wp (run_asm link userret) [] c2 (fun _ c3 => leave c3 = Some Sret /\ csrs c3 satp = gpr c2 a0 /\
        forall r, gpr c3 r = if decide (r = a0) then field (hmem c2) tf 112 else gpr c r)).
Proof.
  intros Hm Hr. eapply wp_mono; [by eapply uservec_saves|]. intros _ c1 (Hs & Hk & Hw & Hsp & Htp & Hsa & Hra & Hl). split_and!; try done.
  intros T2 c2 Hm2 Hkeep. eapply wp_mono; [by eapply userret_restores|]. intros _ c3 (Hl3 & _ & Hsa3 & Hg3). split_and!; try done.
  intros r. case_decide as Hd; [subst; by apply Hg3; left|]. destruct (every_register r) as [off Hin]. rewrite (Hg3 r off Hin), (Hkeep r off Hin Hd). by apply Hs.
Qed.

(** C26. A context switch is undone by the switch back: swtch saves the registers
    that a C function preserves in the old context and continues at the return
    address of the new one; when somebody later switches to the old context, with
    its memory unchanged, the call of swtch returns with those registers as they
    were. *)
Theorem swtch_roundtrip T old new c : maps c T (gpr c a0) 112 old -> maps c T (gpr c a1) 112 new -> old + 112 <= new \/ new + 112 <= old -> (forall r, 0 <= gpr c r < 2 ^ 64) ->
  wp (run_asm link swtch) [] c (fun _ c1 =>
    leave c1 = Some (To (field (hmem c) new 0)) /\ (forall r off, (r, off) ∈ context_slots -> gpr c1 r = field (hmem c) new off) /\ within old 112 (hmem c) (hmem c1) /\
    forall T2 cur c2, maps c2 T2 (gpr c2 a0) 112 cur -> maps c2 T2 (gpr c2 a1) 112 old -> cur + 112 <= old \/ old + 112 <= cur -> (forall r, 0 <= gpr c2 r < 2 ^ 64) ->
      (forall off, off ∈ context_slots.*2 -> field (hmem c2) old off = field (hmem c1) old off) ->
      wp (run_asm link swtch) [] c2 (fun _ c3 => leave c3 = Some (To (gpr c ra)) /\ forall r, r ∈ context_slots.*1 -> gpr c3 r = gpr c r)).
Proof.
  intros Ho Hn Hd Hr. eapply wp_mono; [by apply (swtch_switches T old new c)|]. intros _ c1 (Hl & Hw & _ & Hs & _). split_and!; [done|by intros; apply Hs|done|].
  intros T2 cur c2 Hc Ho2 Hd2 Hr2 Hkeep. eapply wp_mono; [by apply (swtch_switches T2 cur old c2)|]. intros _ c3 (Hl3 & _ & _ & Hs3 & _). split.
  - rewrite Hl3, Hkeep by (by left). do 2 f_equal. by apply (Hs ra 0); left.
  - intros r ([r' off] & -> & Hin)%list_elem_of_fmap. cbn [fst]. destruct (Hs3 r' off Hin) as [_ ->]. rewrite Hkeep by (apply list_elem_of_fmap; by exists (r', off)). by apply Hs.
Qed.

(** C27. An interrupt in the kernel is invisible to the code it interrupts: when
    kerneltrap respects the calling convention (it returns with the stack pointer,
    the registers s0 to s11 and the frame below it unchanged), kernelvec gives back
    every register but tp, which names the hart the code continues on. *)
Theorem kernelvec_transparent kerneltrap T pa c : maps c T (gpr c sp - 256) 256 pa -> (forall r, 0 <= gpr c r < 2 ^ 64) ->
  wp (run_asm link (kernelvec kerneltrap)) [] c (fun _ c1 => leave c1 = Some (To kerneltrap) /\ within pa 256 (hmem c) (hmem c1) /\
    forall T2 c2, gpr c2 sp = gpr c1 sp -> (forall r, r ∈ callee_saved -> gpr c2 r = gpr c1 r) -> maps c2 T2 (gpr c2 sp) 256 pa ->
      (forall off, off ∈ frame_slots.*2 -> field (hmem c2) pa off = field (hmem c1) pa off) ->
      wp (run_asm link kernelvec_return) [] c2 (fun _ c3 => leave c3 = Some Sret /\ hmem c3 = hmem c2 /\ forall r, gpr c3 r = if decide (r = tp) then gpr c2 tp else gpr c r)).
Proof.
  intros Hm Hr. eapply wp_mono; [by eapply kernelvec_saves|]. intros _ c1 (Hl & Hsp & _ & Hg & _ & Hw & _ & Hs). split_and!; try done.
  intros T2 c2 Esp Hcs Hm2 Hkeep. eapply wp_mono; [by eapply kernelvec_restores|]. intros _ c3 (Hl3 & Hm3 & Hsp3 & Hb3 & Ho3). split_and!; try done. intros r.
  destruct (decide (r ∈ back_slots.*1)) as [Hin|Hnin].
  - apply list_elem_of_fmap in Hin as ([r' off] & -> & Hin). simpl. assert (Hin' : (r', off) ∈ frame_slots /\ r' <> tp) by by apply list_elem_of_filter in Hin as [? ?].
    destruct Hin' as [Hin' Hne]. rewrite decide_False by done. rewrite (Hb3 r' off Hin), Hkeep by (apply list_elem_of_fmap; by exists (r', off)). by apply Hs.
  - destruct (decide (r = sp)) as [->|Hns]; [rewrite decide_False by done; rewrite Hsp3, Esp, Hsp; lia|]. rewrite Ho3 by done. case_decide as Hd; [by subst|].
    assert (Hcall : r ∈ callee_saved) by (apply (bool_decide_unpack _); destruct r; try done; destruct Hnin; by apply (bool_decide_unpack _)).
    rewrite Hcs by done. apply Hg; [done|]. intros ->. revert Hcall. by apply (bool_decide_unpack (¬ _)); vm_compute.
Qed.

(** Every hart starts on a page of its own of stack0. *)
Lemma entry_stack stack0 start c : 0 <= stack0 -> 0 <= csrs c mhartid < 2 ^ 32 -> stack0 + 4096 * (csrs c mhartid + 1) < 2 ^ 64 ->
  wp (run_asm link (entry stack0 start)) [] c (fun _ c' => leave c' = Some (To start) /\ gpr c' sp = stack0 + 4096 * (csrs c mhartid + 1)).
Proof.
  intros H0 Hh Hs. unfold entry. simpl run_asm. wsteps. split; [done|]. split; [done|]. simpl.
  repeat (rewrite ?fn_lookup_insert; rewrite ?fn_lookup_insert_ne by done). rewrite (u64_small (csrs c mhartid + 1)) by lia.
  rewrite (u64_small (_ * _)) by lia. rewrite u64_small by lia. lia.
Qed.
End Programs.
