(* ===== verification/AsmSample.v ===== *)
(** A hart whose page table maps one page at TRAPFRAME: the witnesses of the
    theorems on the assembly. *)
From stdpp Require Import functions.
From S2P Require Import Prelude Riscv PhysMem Kalloc PageTable Vm UserMem VmSample Asm.
Local Open Scope Z_scope.
Import VmSample.Machine Kalloc.Sample.

Definition tf_words : list (Z * Z) := [
  (pg 0 + 8 * 255, Z.lor (PA2PTE (pg 1)) PTE_V); (pg 1 + 8 * 511, Z.lor (PA2PTE (pg 2)) PTE_V);
  (pg 2 + 8 * 510, pte_entry (pg 3) (Z.lor PTE_R PTE_W));
  (pg 3, MAKE_SATP (pg 4)); (pg 3 + 8, 4096); (pg 3 + 16, 8192); (pg 3 + 32, 1)].
Definition tf_memory : mem := mkMem (ram_of tf_words) 0 counts.
Definition tf_tree : ptree := {[ [] := pg 0; [255] := pg 1; [255; 511] := pg 2 ]}.

(** The hart of a user program. *)
Definition user_hart : hart := mkHart (fun r => if decide (r = a0) then MAKE_SATP (pg 0) else if decide (r = a1) then TRAPFRAME + 2048 else 7) (fun x => if decide (x = satp) then MAKE_SATP (pg 0) else 0) None tf_memory.

Lemma tf_maps g l off n : 0 <= off -> 0 <= n -> off + n <= PGSIZE -> off mod 8 = 0 ->
  maps (mkHart g (csrs user_hart) l tf_memory) tf_tree (TRAPFRAME + off) n (pg 3 + off).
Proof.
  intros H0 Hn Hp H8. assert (Hpte : forall i, 0 <= i < n -> pte_at tf_memory tf_tree (TRAPFRAME + off + i) = pte_entry (pg 3) (Z.lor PTE_R PTE_W)).
  { intros i Hi. rewrite (pte_at_page _ _ _ TRAPFRAME); [by vm_compute|]. change TRAPFRAME with (67108862 * PGSIZE). unfold PGSIZE in *. zdiv. }
  split; cbn [hmem csrs gpr].
  - by vm_compute.
  - apply pt_repb_sound. by vm_compute.
  - change TRAPFRAME with (8 * 34359737344). change (pg 3) with (8 * 335537664). zdiv.
  - change TRAPFRAME with (2 ^ 38 - 8192). change MAXVA with (2 ^ 38). unfold PGSIZE in *. lia.
  - unfold ram_ok. change (pg 3) with 2684301312. unfold KERNBASE, PHYSTOP, PGSIZE in *. unfold KERNBASE. lia.
  - intros i Hi. rewrite Hpte by done. split; [by vm_compute|]. split; [by vm_compute|]. rewrite pte_entry_pa by (by apply (bool_decide_unpack _); vm_compute).
    change TRAPFRAME with (67108862 * PGSIZE). unfold PGSIZE in *. zdiv.
  - intros i Hi. replace (PGROUNDDOWN (pg 3 + off + i)) with (pg 3); [by apply (bool_decide_unpack (¬ _)); vm_compute|].
    rewrite PGROUNDDOWN_eq. change (pg 3) with (655347 * PGSIZE). unfold PGSIZE in *. zdiv.
Qed.

Lemma user_maps : maps user_hart tf_tree TRAPFRAME PGSIZE (pg 3).
Proof. pose proof (tf_maps (gpr user_hart) None 0 PGSIZE ltac:(done) ltac:(done) ltac:(done) ltac:(done)) as Hm. by rewrite !Z.add_0_r in Hm. Qed.

Lemma user_range r : 0 <= gpr user_hart r < 2 ^ 64.
Proof. unfold user_hart. cbn [gpr]. repeat case_decide; split; by vm_compute. Qed.

Lemma trap_roundtrip_witness : wp (run_asm 0 uservec) [] user_hart (fun _ c1 => leave c1 = Some (To 8192) /\
  forall T2 c2, maps (set_csr satp (gpr c2 a0) c2) T2 TRAPFRAME PGSIZE (pg 3) ->
    (forall r off, (r, off) ∈ trapframe_slots -> r <> a0 -> field (hmem c2) (pg 3) off = field (hmem c1) (pg 3) off) ->
    wp (run_asm 0 userret) [] c2 (fun _ c3 => leave c3 = Some Sret)).
Proof.
  eapply wp_mono; [exact (trap_roundtrip 0 tf_tree (pg 3) user_hart user_maps user_range)|]. intros _ c1 (Hl & _ & _ & _ & _ & _ & H2). split; [rewrite Hl; by vm_compute|].
  intros T2 c2 Hm Hk. eapply wp_mono; [by eapply H2|]. by intros _ c3 [-> _].
Defined.

(** A kernel thread with its context and its stack in that page. *)
Definition kernel_hart : hart := mkHart (fun r => if decide (r = a0) then TRAPFRAME else if decide (r = a1) then TRAPFRAME + 2048 else if decide (r = sp) then TRAPFRAME + 4096 else 7) (csrs user_hart) None tf_memory.

Lemma kernel_range r : 0 <= gpr kernel_hart r < 2 ^ 64.
Proof. unfold kernel_hart. cbn [gpr]. repeat case_decide; split; by vm_compute. Qed.

Lemma swtch_roundtrip_witness : wp (run_asm 0 swtch) [] kernel_hart (fun _ c1 => within (pg 3) 112 (hmem kernel_hart) (hmem c1)).
Proof.
  pose proof (tf_maps (gpr kernel_hart) None 0 112 ltac:(done) ltac:(done) ltac:(done) ltac:(done)) as Ho. rewrite !Z.add_0_r in Ho.
  pose proof (tf_maps (gpr kernel_hart) None 2048 112 ltac:(done) ltac:(done) ltac:(done) ltac:(done)) as Hn.
  eapply wp_mono; [apply (swtch_roundtrip 0 tf_tree (pg 3) (pg 3 + 2048) kernel_hart Ho Hn); [lia|exact kernel_range]|]. by intros _ c1 (_ & _ & ? & _).
Defined.

Lemma kernelvec_transparent_witness : wp (run_asm 0 (kernelvec 12288)) [] kernel_hart (fun _ c1 => leave c1 = Some (To 12288)).
Proof.
  pose proof (tf_maps (gpr kernel_hart) None 3840 256 ltac:(done) ltac:(done) ltac:(done) ltac:(done)) as Hf.
  eapply wp_mono; [apply (kernelvec_transparent 0 12288 tf_tree (pg 3 + 3840) kernel_hart Hf kernel_range)|]. by intros _ c1 [? _].
Defined.
