(* ===== verification/Pipe.v ===== *)
(** Pipes, kernel/pipe.c.  pipewrite and piperead are cut where [sleep] gives up
    the pipe's lock: a segment runs from taking the lock to the next sleep or to
    the return, and what other processes do happens between segments.  The
    counters wrap at 32 bits, as in the code. *)
From S2P Require Import Prelude Ring UserIface.
Local Open Scope Z_scope.

(** * The pipe *)
Definition PIPESIZE : Z := 512.

Record pipe := mkPipe {
  data : list Z;
  nread : Z;
  nwrite : Z;
  readopen : bool;
  writeopen : bool
}.

(** The sleep channels are the addresses of the two counters. *)
Inductive chan := chan_nread | chan_nwrite.

(** A pipe, the wakeups issued so far, and the memory of the current process. *)
Record pstate (U : Type) := mkPstate { pi : pipe; wakeups : list chan; usr : U }.
Arguments mkPstate {U}.
Arguments pi {U}.
Arguments wakeups {U}.
Arguments usr {U}.

#[export] Program Instance pstate_usr U : Lens (pstate U) U := {
  view := usr;
  over u s := mkPstate (pi s) (wakeups s) u
}.
Next Obligation. done. Qed.
Next Obligation. by intros U []. Qed.
Next Obligation. done. Qed.

(** How a segment ends: asleep, to go on at byte [i], or returned. *)
Inductive outcome_seg := Asleep (i : Z) | Ret (r : Z).

(** What pipealloc stores in the fresh page; its contents are those of the
    page kalloc returned. *)
Definition pipe_init (page : list Z) : pipe := mkPipe page 0 0 true true.

(** pipeclose without the kfree: the pipe, the channel woken, and whether both
    ends are closed (the page is then freed). *)
Definition pipeclose (writable : bool) (p : pipe) : pipe * chan * bool :=
  let '(p', c) :=
    if writable
    then (mkPipe (data p) (nread p) (nwrite p) (readopen p) false, chan_nread)
    else (mkPipe (data p) (nread p) (nwrite p) false (writeopen p), chan_nwrite) in
  (p', c, negb (readopen p') && negb (writeopen p')).

(** [pi->data[pi->nwrite++ % PIPESIZE] = ch] *)
Definition put (ch : Z) (p : pipe) : pipe :=
  mkPipe (<[Z.to_nat (nwrite p mod PIPESIZE) := ch]> (data p)) (nread p) (u32 (nwrite p + 1))
    (readopen p) (writeopen p).
(** [pi->data[pi->nread % PIPESIZE]] and [pi->nread++] *)
Definition front (p : pipe) : Z := nth (Z.to_nat (nread p mod PIPESIZE)) (data p) 0.
Definition next (p : pipe) : pipe :=
  mkPipe (data p) (u32 (nread p + 1)) (nwrite p) (readopen p) (writeopen p).

Section Operations.
Context {U : Type} `{UserMemory U}.

Definition set_pi (f : pipe -> pipe) : M (pstate U) unit :=
  modify (fun s => mkPstate (f (pi s)) (wakeups s) (usr s)).
Definition wakeup (c : chan) : M (pstate U) unit :=
  modify (fun s => mkPstate (pi s) (wakeups s ++ [c]) (usr s)).

(** Why the loop of pipewrite stops: the reader is gone or the process was
    killed; the pipe is full; all is written or the user page is bad. *)
Inductive wexit := Hangup | Full (i : Z) | Done (i : Z).

(** The loop from byte [i]; [killed i] is what killed(pr) answers there. *)
Definition pipewrite_body (addr n : Z) (killed : Z -> bool) (i : Z) : M (pstate U) (Z + wexit) :=
  if decide (i < n) then
    p ← gets pi;
    if decide (readopen p = false \/ killed i = true) then mret (inr Hangup)
    else if decide (nwrite p = u32 (nread p + PIPESIZE)) then mret (inr (Full i))
    else
      r ← zoom (ucopyin (u64 (addr + i)) 1);
      if decide (r.1 = -1) then mret (inr (Done i))
      else set_pi (put (nth 0 r.2 0));; mret (inl (i + 1))
  else mret (inr (Done i)).

(** A segment of pipewrite on the pipe at [a]: the call starts at byte 0, a
    woken writer at the byte where it fell asleep.  [sleep] releases the lock. *)
Definition pipewrite (a addr n : Z) (killed : Z -> bool) (i : Z) : M (pstate U) outcome_seg :=
  acquire (pipe_lock a);;
  x ← loop (S (Z.to_nat (n - i))) (pipewrite_body addr n killed) i;
  match x with
  | Hangup => release (pipe_lock a);; mret (Ret (-1))
  | Full j => wakeup chan_nread;; release (pipe_lock a);; mret (Asleep j)
  | Done j => wakeup chan_nread;; release (pipe_lock a);; mret (Ret j)
  end.

Definition piperead_body (addr n : Z) (i : Z) : M (pstate U) (Z + Z) :=
  if decide (i < n) then
    p ← gets pi;
    if decide (nread p = nwrite p) then mret (inr i)
    else
      r ← zoom (ucopyout (u64 (addr + i)) [front p]);
      if decide (r = -1) then mret (inr (if decide (i = 0) then -1 else i))
      else set_pi next;; mret (inl (i + 1))
  else mret (inr i).

(** A segment of piperead: the test of the waiting loop, then the copy. *)
Definition piperead (a addr n : Z) (killed : bool) : M (pstate U) outcome_seg :=
  acquire (pipe_lock a);;
  p ← gets pi;
  if decide (nread p = nwrite p /\ writeopen p = true) then
    if killed then release (pipe_lock a);; mret (Ret (-1))
    else release (pipe_lock a);; mret (Asleep 0)
  else
    i ← loop (S (Z.to_nat n)) (piperead_body addr n) 0;
    wakeup chan_nwrite;;
    release (pipe_lock a);;
    mret (Ret i).
End Operations.

(** * The queue a pipe represents *)

(** [q] holds the bytes between the counters. *)
Record pipe_rep (p : pipe) (q : list Z) : Prop := {
  pr_data : Z.of_nat (length (data p)) = PIPESIZE;
  pr_nread : 0 <= nread p < 2 ^ 32;
  pr_nwrite : nwrite p = u32 (nread p + Z.of_nat (length q));
  pr_len : Z.of_nat (length q) <= PIPESIZE;
  pr_bytes : Forall is_byte q;
  pr_queue : ring PIPESIZE (data p) (nread p) q
}.

#[export] Instance PIPESIZE_ring : RingSize PIPESIZE.
Proof. split; [done|]. by exists (2 ^ 23). Qed.

Lemma pipe_full p q :
  pipe_rep p q -> nwrite p = u32 (nread p + PIPESIZE) <-> Z.of_nat (length q) = PIPESIZE.
Proof.
  intros [_ Hr -> Hl _ _]. split; [|by intros ->]. unfold u32, PIPESIZE in *. zdiv.
Qed.

Lemma pipe_empty p q : pipe_rep p q -> nread p = nwrite p <-> q = [].
Proof.
  intros [_ Hr -> Hl _ _]. rewrite <- length_zero_iff_nil. unfold u32, PIPESIZE in *. split; zdiv.
Qed.

Lemma pipe_init_rep page : Z.of_nat (length page) = PIPESIZE -> pipe_rep (pipe_init page) [].
Proof. intros. split; try done. Qed.

(** put appends, front reads the first byte and next drops it. *)
Lemma put_rep p q b :
  pipe_rep p q -> Z.of_nat (length q) < PIPESIZE -> is_byte b -> pipe_rep (put b p) (q ++ [b]).
Proof.
  intros [Hd Hr Hw Hl Hb Hq] Hlt Hbb. unfold put. split; simpl; [by rewrite length_insert|done| | | |].
  - rewrite Hw, length_app. simpl. unfold u32. rewrite Zplus_mod_idemp_l. f_equal. lia.
  - rewrite length_app. simpl. lia.
  - by apply Forall_app_2; [|constructor].
  - rewrite Hw, u32_mod_ring by apply _. by apply ring_push; try apply _.
Qed.

Lemma front_rep p b q : pipe_rep p (b :: q) -> front p = b.
Proof.
  intros Hp. unfold front. apply nth_lookup_Some. by eapply ring_head, pr_queue.
Qed.

Lemma next_rep p b q : pipe_rep p (b :: q) -> pipe_rep (next p) q.
Proof.
  intros [Hd Hr Hw Hl Hb Hq]. unfold next. simpl in Hl. split; simpl; [done|apply u32_range| | | |].
  - rewrite Hw. unfold u32. rewrite Zplus_mod_idemp_l. f_equal. simpl length. lia.
  - lia.
  - by apply Forall_cons in Hb as [_ ?].
  - apply ring_u32; [apply _|]. by eapply ring_tail.
Qed.

(** * Correctness *)
Section Correctness.
Context {U : Type} `{UserMemory U}.
Implicit Types (s : pstate U) (L : list lock) (q : list Z).

(** Segments do not open or close an end. *)
Definition same_ends (p p' : pipe) : Prop := readopen p' = readopen p /\ writeopen p' = writeopen p.

(** The bytes [bs] were taken from user memory at [va] and appended. *)
Record appended s q va bs s' : Prop := {
  ap_rep : pipe_rep (pi s') (q ++ bs);
  ap_uok : uok (usr s');
  ap_bytes : bytes_at (uview (usr s')) va bs;
  ap_view : forall x b, uview (usr s) x = Some b -> uview (usr s') x = Some b;
  ap_ends : same_ends (pi s) (pi s');
  ap_wakeups : wakeups s' = wakeups s
}.

(** How the writer's loop ended after [bs] bytes. *)
Definition write_end (n va : Z) (killed : Z -> bool) q (i : Z) bs s' (x : wexit) : Prop :=
  let j := i + Z.of_nat (length bs) in
  match x with
  | Hangup => j < n /\ (readopen (pi s') = false \/ killed j = true)
  | Full k => k = j /\ j < n /\ Z.of_nat (length (q ++ bs)) = PIPESIZE
  | Done k => k = j /\ (n <= j \/ uview (usr s') (va + Z.of_nat (length bs)) = None)
  end.

Lemma pipewrite_loop_wp addr n killed i L s q :
  pipe_rep (pi s) q -> uok (usr s) -> 0 <= i -> 0 <= addr -> addr + n <= 2 ^ 64 -> avail ulocks L ->
  wp (loop (S (Z.to_nat (n - i))) (pipewrite_body addr n killed) i) L s (fun x s' =>
    exists bs, appended s q (addr + i) bs s' /\ write_end n (addr + i) killed q i bs s' x).
Proof.
  intros Hq Hu Hi Haddr Hn HL.
  apply (wpl_loop (fun j s1 => exists bs, j = i + Z.of_nat (length bs) /\ appended s q (addr + i) bs s1)
    (fun j => Z.to_nat (n - j))).
  - intros j s1 (bs & -> & Hap). destruct (Hap) as [Hrep Huok Hby Hview Hends Hwk]. unfold pipewrite_body.
    wstep. wcase as Hlt; last first.
    { wsteps. split; [done|]. exists bs. split; [done|]. simpl. split; [done|]. left. lia. }
    wsteps. wcase as Hk. { wsteps. split; [done|]. by exists bs. }
    wcase as Hf. { wsteps. split; [done|]. exists bs. split; [done|]. simpl. split_and!; [done|done|].
      by apply (pipe_full (pi s1)). }
    rewrite (pipe_full _ _ Hrep) in Hf. pose proof (pr_len _ _ Hrep).
    rewrite u64_small by lia. wsteps. eapply wpl_call; [apply ucopyin_spec; [done|lia|lia|done]|].
    intros r u' (Hu' & Hv' & Hr).
    assert (Hap' : appended s q (addr + i) bs (over u' s1)).
    { split; simpl; try done; [by eapply bytes_at_mono|by auto]. }
    destruct Hr as [(Hr1 & Hr2 & Hr3 & Hr4)|(Hr1 & k & Hk' & Hr2)]; last first.
    { wtrue; [|done]. wsteps. split; [done|]. exists bs. split; [done|]. simpl. split; [done|]. right.
      rewrite <- Hr2. f_equal. lia. }
    wfalse; [|lia]. destruct r as [r [|ch [|]]]; simpl in Hr2; [lia| |lia]. simpl in Hr1, Hr3, Hr4.
    wsteps. split; [done|]. split; [|lia]. exists (bs ++ [ch]). rewrite length_app. simpl. split; [lia|].
    destruct Hap' as [A1 A2 A3 A4 A5 A6]. split; simpl; try done.
    + rewrite app_assoc. apply put_rep; [done|lia|by inversion Hr3].
    + apply bytes_at_app. split; [done|]. by replace (addr + i + _) with (addr + (i + Z.of_nat (length bs))) by lia.
  - exists []. simpl. split; [lia|]. split; rewrite ?app_nil_r; try done.
  - lia.
Qed.

(** C18. A segment of pipewrite is an append to a bounded queue: it takes some
    bytes [bs] from the user buffer, in order, and appends exactly them; it
    sleeps only when the queue holds PIPESIZE bytes, fails only when the reader
    is gone or the process was killed, and otherwise returns the number of bytes
    written, all of them unless the next one is not readable. *)
Theorem pipewrite_appends a addr n killed i L s q :
  pipe_rep (pi s) q -> uok (usr s) -> 0 <= i -> 0 <= addr -> addr + n <= 2 ^ 64 ->
  pipe_lock a ∉ L -> avail ulocks (pipe_lock a :: L) ->
  wp (pipewrite a addr n killed i) L s (fun r s' => exists bs,
    let j := i + Z.of_nat (length bs) in
    pipe_rep (pi s') (q ++ bs) /\ bytes_at (uview (usr s')) (addr + i) bs /\ uok (usr s') /\
    (forall x b, uview (usr s) x = Some b -> uview (usr s') x = Some b) /\
    match r with
    | Asleep k => k = j /\ j < n /\ Z.of_nat (length (q ++ bs)) = PIPESIZE /\
        wakeups s' = wakeups s ++ [chan_nread]
    | Ret k =>
        k = -1 /\ (readopen (pi s) = false \/ killed j = true) \/
        k = j /\ (n <= j \/ uview (usr s') (addr + j) = None) /\
          wakeups s' = wakeups s ++ [chan_nread]
    end).
Proof.
  intros Hq Hu Hi Ha Hn Hlk HL. unfold pipewrite, wakeup. wstep. wstep. apply wpl_acquire; [done|]. wstep.
  eapply wpl_call; [by apply (pipewrite_loop_wp addr n killed i _ s q)|].
  intros x s' (bs & [Hrep Huok Hby Hview [He1 He2] Hwk] & Hend). unfold write_end in Hend.
  destruct x as [|k|k]; wsteps; (split; [done|]); exists bs; cbv zeta; do 4 (split; [done|]); simpl.
  - left. rewrite <- He1. destruct Hend as [_ ?]. done.
  - destruct Hend as (-> & ? & ?). by rewrite Hwk.
  - right. destruct Hend as (-> & Hor). rewrite Hwk. split_and!; [done| |done].
    rewrite Z.add_assoc. done.
Qed.

(** How much the reader's loop takes from [q] when [n] bytes are asked for: all of
    them or all there is, unless the next one cannot be stored. *)
Definition read_end (n addr : Z) q (bs : list Z) s' (r : Z) : Prop :=
  let k := Z.of_nat (length bs) in
  let most := Z.min (Z.max 0 n) (Z.of_nat (length q)) in
  r = k /\ k = most \/
  r = (if decide (k = 0) then -1 else k) /\ k < most /\ ustuck (usr s') (addr + k).

(** The bytes [bs] were taken off the front of the queue and stored at [addr]. *)
Record taken s q addr bs s' : Prop := {
  tk_queue : exists q', q = bs ++ q' /\ pipe_rep (pi s') q';
  tk_uok : uok (usr s');
  tk_ends : same_ends (pi s) (pi s');
  tk_bytes : bytes_at (uview (usr s')) addr bs;
  tk_view : forall x b, uview (usr s) x = Some b -> x < addr \/ addr + Z.of_nat (length bs) <= x ->
    uview (usr s') x = Some b
}.

Lemma taken_refl s q addr : pipe_rep (pi s) q -> uok (usr s) -> taken s q addr [] s.
Proof. intros Hq Hu. split; try done. by exists q. Qed.

Lemma taken_le s q addr bs s' : taken s q addr bs s' -> (length bs <= length q)%nat.
Proof. intros [(q' & -> & _) _ _ _ _]. rewrite length_app. lia. Qed.

(** The store of one more byte, which may fail. *)
Lemma taken_store s q addr bs s1 b u' k :
  taken s q addr bs s1 -> (k <= 1)%nat ->
  bytes_at (uview u') (addr + Z.of_nat (length bs)) (take k [b]) ->
  (forall x c, uview (usr s1) x = Some c ->
     x < addr + Z.of_nat (length bs) \/ addr + Z.of_nat (length bs) + Z.of_nat k <= x -> uview u' x = Some c) ->
  uok u' -> forall p', (exists q', q = (bs ++ take k [b]) ++ q' /\ pipe_rep p' q') -> same_ends (pi s1) p' ->
  taken s q addr (bs ++ take k [b]) (mkPstate p' (wakeups s1) u').
Proof.
  intros [_ Hu [E1 E2] Hby Hv] Hk Hb Hv' Hu' p' Hq' [E1' E2']. split; simpl; try done.
  - split; by rewrite ?E1', ?E2'.
  - apply bytes_at_app. split; [|done]. eapply bytes_at_keep; [done| |exact Hv']. left. lia.
  - intros x c Hx Hout. rewrite length_app, length_take_le in Hout by (simpl; lia).
    apply Hv'; [|lia]. apply Hv; [done|lia].
Qed.

Lemma piperead_loop_wp addr n L s q :
  pipe_rep (pi s) q -> uok (usr s) -> 0 <= addr -> addr + n <= 2 ^ 64 -> avail ulocks L ->
  wp (loop (S (Z.to_nat n)) (piperead_body addr n) 0) L s (fun r s' => exists bs,
    taken s q addr bs s' /\ wakeups s' = wakeups s /\ read_end n addr q bs s' r).
Proof.
  intros Hq Hu Haddr Hn HL.
  apply (wpl_loop (fun j s1 => exists bs, j = Z.of_nat (length bs) /\ j <= Z.max 0 n /\
    taken s q addr bs s1 /\ wakeups s1 = wakeups s) (fun j => Z.to_nat (n - j))).
  - intros j s1 (bs & -> & Hmax & Ht & Hwk). pose proof (taken_le _ _ _ _ _ Ht).
    unfold piperead_body. wstep. wcase as Hlt; last first.
    { wsteps. split; [done|]. exists bs. split_and!; try done. left. split; [done|lia]. }
    destruct (tk_queue _ _ _ _ _ Ht) as (q' & Eq & Hrep). pose proof (tk_uok _ _ _ _ _ Ht) as Huok.
    wsteps. wcase as He.
    { rewrite (pipe_empty _ _ Hrep) in He. subst q'. rewrite app_nil_r in Eq. subst bs.
      wsteps. split; [done|]. exists q. split_and!; try done. left. split; [done|lia]. }
    rewrite (pipe_empty _ _ Hrep) in He. destruct q' as [|b q']; [done|].
    assert (Hlq : length q = (length bs + S (length q'))%nat) by (by rewrite Eq, length_app).
    rewrite (front_rep _ _ _ Hrep). pose proof (pr_bytes _ _ Hrep) as Hb. apply Forall_cons in Hb as [Hb _].
    rewrite u64_small by lia. wsteps.
    eapply wpl_call; [apply ucopyout_spec; [done|lia|by constructor|done]|].
    intros r u' (Hu' & k & Hk & Hby' & Hv' & Hr). cbn [length] in Hk, Hr.
    pose proof (taken_store s q addr bs s1 b u' k Ht Hk Hby' Hv' Hu') as Hst.
    destruct Hr as [[-> ->]|(-> & Hk0 & Hstuck)].
    + wfalse; [|done]. wsteps. split; [done|]. split; [|lia]. exists (bs ++ [b]).
      rewrite length_app. cbn [length]. split_and!; [lia|lia| |done]. apply Hst; [|done].
      exists q'. rewrite <- app_assoc. split; [done|by eapply next_rep].
    + assert (k = 0)%nat as -> by lia. wtrue; [|done]. wsteps. split; [done|]. exists bs.
      cbn [take] in Hst. rewrite app_nil_r in Hst. split_and!; [|done|].
      * apply Hst; [by exists (b :: q')|done].
      * right. rewrite Z.add_0_r in Hstuck. split_and!; [done|lia|done].
  - exists []. simpl. split_and!; [done|lia|by apply taken_refl|done].
  - lia.
Qed.

(** C19. A segment of piperead takes bytes off the front of the queue, in order,
    and delivers exactly them to the user buffer, touching no other user byte.  It
    sleeps only when the queue is empty and the writer still there, and then has
    done nothing.  Otherwise it returns -1 because the process was killed while it
    would have to wait; or it takes as many bytes as are asked for or there are and
    returns their number, so that 0 on a positive count means that the queue is
    empty and the writer gone; or it stops early, at a byte that cannot be stored,
    with -1 when that is the first. *)
Theorem piperead_takes a addr n killed L s q :
  pipe_rep (pi s) q -> uok (usr s) -> 0 <= addr -> addr + n <= 2 ^ 64 ->
  pipe_lock a ∉ L -> avail ulocks (pipe_lock a :: L) ->
  wp (piperead a addr n killed) L s (fun r s' =>
    if decide (q = [] /\ writeopen (pi s) = true)
    then s' = s /\ r = if killed then Ret (-1) else Asleep 0
    else exists bs q' k, r = Ret k /\
      q = bs ++ q' /\ pipe_rep (pi s') q' /\ uok (usr s') /\ same_ends (pi s) (pi s') /\
      bytes_at (uview (usr s')) addr bs /\
      (forall x b, uview (usr s) x = Some b -> x < addr \/ addr + Z.of_nat (length bs) <= x ->
         uview (usr s') x = Some b) /\
      wakeups s' = wakeups s ++ [chan_nwrite] /\
      let got := Z.of_nat (length bs) in
      let most := Z.min (Z.max 0 n) (Z.of_nat (length q)) in
      (k = got /\ got = most \/
       k = (if decide (got = 0) then -1 else got) /\ got < most /\ ustuck (usr s') (addr + got))).
Proof.
  intros Hq Hu Ha Hn Hlk HL. unfold piperead, wakeup. wstep. wstep. apply wpl_acquire; [done|]. wsteps.
  pose proof (pipe_empty _ _ Hq) as He. destruct (decide (q = [] /\ _)) as [[E Hw]|Hno].
  { wtrue; [|tauto]. destruct killed; wsteps; done. }
  wfalse; [|tauto]. wsteps. eapply wpl_call; [by apply (piperead_loop_wp addr n _ s q)|].
  intros r s' (bs & [(q' & Eq & Hrep) Huok Hends Hby Hv] & Hwk & Hr). wsteps. split; [done|].
  exists bs, q', r. simpl. rewrite Hwk. by split_and!.
Qed.
End Correctness.
