(* ===== verification/PipeSample.v ===== *)
(** A pipe used by the process of [VmSample]: the witnesses of the pipe theorems,
    with user memory implemented by copyin and copyout. *)
From S2P Require Import Prelude Riscv Kalloc Vm Shm UserMem CopyOut UserIface VmUser VmSample Pipe.
Local Open Scope Z_scope.

Import VmSample.Machine Kalloc.Sample.

Lemma proc_a_ok : uok proc_a.
Proof.
  exists tree_a, free2. split_and!; [apply tree_a_rep|apply free2_rep|apply uvalid_a|apply noalias_a|done].
Qed.

Definition empty_pipe : pipe := pipe_init (replicate 512 0).

Lemma empty_pipe_rep : pipe_rep empty_pipe [].
Proof. by apply pipe_init_rep. Qed.

Definition one_byte : pipe := put 65 empty_pipe.

Lemma one_byte_rep : pipe_rep one_byte [65].
Proof. apply (put_rep empty_pipe [] 65); [apply empty_pipe_rep|done|done]. Qed.

Lemma pipewrite_appends_witness :
  wp (pipewrite 0 0 2 (fun _ => false) 0) [] (mkPstate empty_pipe [] proc_a) (fun r s' =>
    exists bs, pipe_rep (pi s') bs /\ bytes_at (uview (usr s')) 0 bs).
Proof.
  eapply wp_mono.
  - apply (pipewrite_appends 0 0 2 (fun _ => false) 0 [] (mkPstate empty_pipe [] proc_a) [] empty_pipe_rep proc_a_ok);
      [done|done|done|apply not_elem_of_nil|].
    apply avail_push; [apply avail_nil|]. apply (bool_decide_unpack _). by vm_compute.
  - intros r s' (bs & Hrep & Hby & _). exists bs. by split.
Defined.

(** The process can store at address 0. *)
Lemma piperead_runs : returns (piperead 0 0 2 false) [] (mkPstate one_byte [] proc_a) (Ret 1).
Proof. by vm_compute. Qed.

Lemma piperead_takes_witness :
  wp (piperead 0 0 2 false) [] (mkPstate one_byte [] proc_a) (fun r s' => r = Ret 1 /\
    pipe_rep (pi s') [] /\ bytes_at (uview (usr s')) 0 [65] /\ wakeups s' = [chan_nwrite]).
Proof.
  eapply wp_mono.
  - apply wp_result; [exact piperead_runs|].
    apply (piperead_takes 0 0 2 false [] (mkPstate one_byte [] proc_a) [65] one_byte_rep proc_a_ok);
      [done|done|apply not_elem_of_nil|].
    apply avail_push; [apply avail_nil|]. apply (bool_decide_unpack _). by vm_compute.
  - intros r s' [-> Hr]. split; [done|]. rewrite decide_False in Hr by naive_solver.
    destruct Hr as (bs & q' & k & [= <-] & Hq & Hrep & _ & _ & Hby & _ & Hwk & Hlen).
    destruct bs as [|b [|]]; [|by injection Hq as -> <-|done].
    destruct Hlen as [[E _]|(E & _)]; simpl in E; lia.
Defined.
