(* ===== verification/CStrings.v ===== *)
(** C strings: the string functions of kernel/string.c and user/ulib.c.  A
    pointer into an array is the list of the bytes from there to the end of the
    array ([char] is unsigned on RISC-V); a function that would run past the end
    returns [None].  memset and memmove on RAM are in PhysMem. *)
From S2P Require Import Prelude PhysMem.
Local Open Scope Z_scope.

(** * The operations *)

Fixpoint strlen (s : list Z) : option Z :=
  match s with
  | [] => None
  | c :: s' => if decide (c = 0) then Some 0 else n ← strlen s'; Some (n + 1)
  end.

(** The difference is an int, of either sign. *)
Fixpoint memcmp (s1 s2 : list Z) (n : nat) {struct n} : option Z :=
  match n with
  | O => Some 0
  | S n' =>
      match s1, s2 with
      | c1 :: s1', c2 :: s2' => if decide (c1 <> c2) then Some (c1 - c2) else memcmp s1' s2' n'
      | _, _ => None
      end
  end.

Fixpoint strncmp (p q : list Z) (n : nat) {struct n} : option Z :=
  match n with
  | O => Some 0
  | S n' =>
      match p, q with
      | c :: p', d :: q' =>
          if decide (c <> 0 /\ c = d) then strncmp p' q' n' else Some (c - d)
      | _, _ => None
      end
  end.

(** The second loop of strncpy: fill with zeros. *)
Fixpoint zero_fill (s : list Z) (n : nat) {struct n} : option (list Z) :=
  match n with
  | O => Some s
  | S n' =>
      match s with
      | [] => None
      | _ :: s' => r ← zero_fill s' n'; Some (0 :: r)
      end
  end.

(** strncpy(s, t, n): the destination array afterwards. *)
Fixpoint strncpy (s t : list Z) (n : nat) {struct n} : option (list Z) :=
  match n with
  | O => Some s
  | S n' =>
      match s, t with
      | _ :: s', c :: t' =>
          r ← (if decide (c = 0) then zero_fill s' n' else strncpy s' t' n'); Some (c :: r)
      | _, _ => None
      end
  end.

(** The loop of safestrcpy, [n] being the count already decremented. *)
Fixpoint safestrcpy_loop (s t : list Z) (n : nat) {struct n} : option (list Z) :=
  match n with
  | O => match s with [] => None | _ :: s' => Some (0 :: s') end
  | S n' =>
      match s, t with
      | _ :: s', c :: t' =>
          r ← (if decide (c = 0) then
                 match s' with [] => None | _ :: s'' => Some (0 :: s'') end
               else safestrcpy_loop s' t' n');
          Some (c :: r)
      | _, _ => None
      end
  end.

Definition safestrcpy (s t : list Z) (n : Z) : option (list Z) :=
  if decide (n <= 0) then Some s else safestrcpy_loop s t (Z.to_nat (n - 1)).

(** ** user/ulib.c *)

Fixpoint strcpy (s t : list Z) : option (list Z) :=
  match s, t with
  | _ :: s', c :: t' => if decide (c = 0) then Some (0 :: s') else r ← strcpy s' t'; Some (c :: r)
  | _, _ => None
  end.

Fixpoint strcmp (p q : list Z) : option Z :=
  match p, q with
  | c :: p', d :: q' => if decide (c <> 0 /\ c = d) then strcmp p' q' else Some (c - d)
  | _, _ => None
  end.

(** The offset of the first [c], or the null pointer. *)
Fixpoint strchr (s : list Z) (c : Z) : option (option nat) :=
  match s with
  | [] => None
  | x :: s' =>
      if decide (x = 0) then Some None
      else if decide (x = c) then Some (Some O)
      else r ← strchr s' c; Some (option_map S r)
  end.

(** [int] arithmetic wraps. *)
Fixpoint atoi_loop (s : list Z) (n : Z) : option Z :=
  match s with
  | [] => None
  | c :: s' => if decide (48 <= c <= 57) then atoi_loop s' (s32 (n * 10 + c - 48)) else Some n
  end.
Definition atoi (s : list Z) : option Z := atoi_loop s 0.

(** gets: the bytes that the one-byte reads deliver until end of file. *)
Fixpoint gets_loop (input : list Z) (max : Z) (fuel : nat) (i : Z) (buf : list Z) : list Z * list Z :=
  match fuel with
  | O => (buf, input)
  | S k =>
      if decide (i + 1 < max) then
        match input with
        | [] => (buf, [])
        | c :: input' =>
            if decide (c = 10 \/ c = 13) then (buf ++ [c], input')
            else gets_loop input' max k (i + 1) (buf ++ [c])
        end
      else (buf, input)
  end.
Definition gets_line (input : list Z) (max : Z) : list Z * list Z :=
  let '(buf, rest) := gets_loop input max (Z.to_nat max) 0 [] in (buf ++ [0], rest).

(** memmove of ulib copies upwards exactly when the source is above. *)
Definition ulib_memmove (m : gmap Z Z) (dst src : Z) (n : nat) : gmap Z Z :=
  if decide (src > dst) then copy_up m dst src n
  else copy_down m (dst + Z.of_nat n) (src + Z.of_nat n) n.

(** * The strings the arrays hold *)

(** The bytes before the terminator. *)
Fixpoint cstr (s : list Z) : option (list Z) :=
  match s with
  | [] => None
  | c :: s' => if decide (c = 0) then Some [] else r ← cstr s'; Some (c :: r)
  end.

(** The name in an array of [n] bytes that is terminated only when it is shorter:
    the names of directory entries. *)
Fixpoint fixed_name (s : list Z) (n : nat) {struct n} : list Z :=
  match n, s with
  | O, _ | _, [] => []
  | S n', c :: s' => if decide (c = 0) then [] else c :: fixed_name s' n'
  end.

Lemma cstr_strlen s t : cstr s = Some t -> strlen s = Some (Z.of_nat (length t)).
Proof.
  revert t. induction s as [|c s IH]; intros t; simpl; [done|].
  case_decide; [by intros [= <-]|]. intros (r & Hr & [= <-])%bind_Some.
  rewrite (IH _ Hr). simpl. f_equal. lia.
Qed.

Lemma cstr_at t r : 0 ∉ t -> cstr (t ++ 0 :: r) = Some t.
Proof.
  induction t as [|c t IH]; simpl; [done|]. intros [H0 Ht]%not_elem_of_cons. rewrite decide_False by done. by rewrite IH.
Qed.

Lemma cstr_nonzero s t : cstr s = Some t -> 0 ∉ t.
Proof.
  revert t. induction s as [|c s IH]; intros t; simpl; [done|].
  case_decide; [intros [= <-]; apply not_elem_of_nil|]. intros (r & Hr & [= <-])%bind_Some.
  apply not_elem_of_cons. split; [done|by apply IH].
Qed.

Lemma cstr_fixed_name s t n : cstr s = Some t -> fixed_name s n = take n t.
Proof.
  revert t n. induction s as [|c s IH]; intros t [|n]; simpl; try done.
  destruct (decide (c = 0)); [by intros [= <-]|].
  intros (r & Hr & [= <-])%bind_Some. simpl. f_equal. by apply IH.
Qed.

(** strncmp is 0 exactly when the first [n] bytes name the same string; it never
    runs past the end of an array that is long enough or terminated. *)
Lemma strncmp_spec p q n :
  (n <= length p)%nat \/ is_Some (cstr p) -> (n <= length q)%nat \/ is_Some (cstr q) ->
  exists r, strncmp p q n = Some r /\ (r = 0 <-> fixed_name p n = fixed_name q n).
Proof.
  revert p q. induction n as [|n IH]; intros p q Hp Hq; [by exists 0|].
  destruct p as [|c p]; [destruct Hp as [Hp|[? Hp]]; simpl in Hp; [lia|done]|].
  destruct q as [|d q]; [destruct Hq as [Hq|[? Hq]]; simpl in Hq; [lia|done]|]. simpl.
  destruct (decide (c <> 0 /\ c = d)) as [[Hc <-]|Hne].
  - rewrite !decide_False by done. destruct (IH p q) as (r & Hr & Heq).
    + destruct Hp as [Hp|[t Hp]]; [left; simpl in Hp; lia|right]. simpl in Hp.
      rewrite decide_False in Hp by done. apply bind_Some in Hp as (t' & Ht & _). by exists t'.
    + destruct Hq as [Hq|[t Hq]]; [left; simpl in Hq; lia|right]. simpl in Hq.
      rewrite decide_False in Hq by done. apply bind_Some in Hq as (t' & Ht & _). by exists t'.
    + exists r. split; [done|]. rewrite Heq. split; [by intros ->|by intros [= ->]].
  - exists (c - d). split; [done|]. repeat case_decide; split; intros; simplify_eq; try done; try lia.
Qed.

(** ** Copies *)

Lemma zero_fill_spec s n :
  (n <= length s)%nat -> zero_fill s n = Some (replicate n 0 ++ drop n s).
Proof.
  revert s. induction n as [|n IH]; intros s Hs; [done|]. destruct s as [|c s]; simpl in *; [lia|].
  by rewrite IH by lia.
Qed.

(** strncpy writes exactly [n] bytes: the string, padded with zeros. *)
Lemma strncpy_spec s t n v :
  cstr t = Some v -> (n <= length s)%nat ->
  strncpy s t n = Some (take n v ++ replicate (n - length v) 0 ++ drop n s).
Proof.
  revert s t v. induction n as [|n IH]; intros s t v Ht Hs; [done|].
  destruct s as [|x s]; simpl in Hs; [lia|]. destruct t as [|c t]; [done|]. simpl in Ht |- *.
  destruct (decide (c = 0)) as [->|Hc].
  - injection Ht as <-. rewrite zero_fill_spec by lia. simpl. by rewrite ?take_nil.
  - apply bind_Some in Ht as (r & Hr & [= <-]). rewrite (IH s t r Hr) by lia. done.
Qed.

Lemma fixed_name_pad v n k r :
  0 ∉ v -> (n <= length v + k)%nat -> fixed_name (take n v ++ replicate k 0 ++ r) n = take n v.
Proof.
  revert n. induction v as [|c v IH]; intros n H0 Hn.
  - rewrite take_nil. simpl in *. destruct n; [done|]. destruct k; [lia|]. done.
  - destruct n as [|n]; [done|]. apply not_elem_of_cons in H0 as [Hc H0]. simpl in *.
    rewrite decide_False by done. f_equal. apply IH; [done|lia].
Qed.

(** A name stored with strncpy in a field of [n] bytes and looked up with
    strncmp: the field compares equal to exactly the strings that agree with the
    stored one on the first [n] bytes, so names are told apart up to the length
    of the field. *)
Theorem strncpy_strncmp_roundtrip field t t' v v' n :
  cstr t = Some v -> cstr t' = Some v' -> length field = n ->
  exists field' r, strncpy field t n = Some field' /\ length field' = n /\
    strncmp t' field' n = Some r /\ (r = 0 <-> take n v' = take n v).
Proof.
  intros Ht Ht' Hn. rewrite (strncpy_spec field t n v Ht) by lia.
  rewrite (drop_ge field) by lia. rewrite app_nil_r. eexists _.
  assert (Hl : length (take n v ++ replicate (n - length v) 0) = n).
  { rewrite length_app, length_take, length_replicate. lia. }
  destruct (strncmp_spec t' (take n v ++ replicate (n - length v) 0) n) as (r & Hr & Heq);
    [right; by exists v'|left; lia|].
  exists r. split_and!; [done|done|done|]. rewrite Heq, (cstr_fixed_name t' v' n Ht').
  pose proof (fixed_name_pad v n (n - length v) [] (cstr_nonzero _ _ Ht) ltac:(lia)) as Hp.
  rewrite app_nil_r in Hp. by rewrite Hp.
Qed.

Lemma safestrcpy_loop_spec s t n v :
  cstr t = Some v -> (n < length s)%nat ->
  exists r, safestrcpy_loop s t n = Some r /\ length r = length s /\ cstr r = Some (take n v).
Proof.
  revert s t v. induction n as [|n IH]; intros s t v Ht Hs.
  - destruct s as [|x s]; simpl in *; [lia|]. by exists (0 :: s).
  - destruct s as [|x s]; simpl in Hs; [lia|]. destruct t as [|c t]; [done|]. simpl in Ht |- *.
    destruct (decide (c = 0)) as [->|Hc].
    + injection Ht as <-. destruct s as [|y s]; simpl in Hs; [lia|]. simpl. by eexists.
    + apply bind_Some in Ht as (r & Hr & [= <-]). destruct (IH s t r Hr) as (w & -> & Hl & Hw); [lia|].
      simpl. exists (c :: w). split; [done|]. simpl. rewrite Hl, decide_False, Hw by done. done.
Qed.

(** safestrcpy always terminates the destination, with the first [n - 1] bytes. *)
Lemma safestrcpy_spec s t n v :
  cstr t = Some v -> 0 < n <= Z.of_nat (length s) ->
  exists r, safestrcpy s t n = Some r /\ length r = length s /\ cstr r = Some (take (Z.to_nat (n - 1)) v).
Proof.
  intros Ht Hn. unfold safestrcpy. rewrite decide_False by lia. apply safestrcpy_loop_spec; [done|lia].
Qed.

Lemma strncpy_strncmp_roundtrip_witness :
  exists field' r, strncpy (replicate 3 7) [97; 98; 99; 100; 0] 3 = Some field' /\
    strncmp [97; 98; 99; 120; 0] field' 3 = Some r /\ r = 0.
Proof.
  destruct (strncpy_strncmp_roundtrip (replicate 3 7) [97; 98; 99; 100; 0] [97; 98; 99; 120; 0]
    [97; 98; 99; 100] [97; 98; 99; 120] 3 eq_refl eq_refl eq_refl) as (f & r & H1 & _ & H2 & H3).
  exists f, r. split_and!; [done|done|by apply H3].
Defined.
