(* ===== verification/TextTools.v ===== *)
(** The filters user/grep.c and user/wc.c on an input that arrives in pieces: the
    regular expressions of grep against their meaning, the lines grep prints and
    the counts of wc, whatever pieces the reads deliver. *)
From S2P Require Import Prelude CStrings.
Local Open Scope Z_scope.

(** What read() promises of an open file: [None] is an error, an empty list the
    end of the file (or a request for no bytes). *)
Class InputStream (F : Type) := {
  read : F -> nat -> option (list Z) * F;
  pending : F -> list Z;
  good : F -> Prop;
  read_good f cap : good f -> exists l f', read f cap = (Some l, f') /\ good f' /\
    pending f = l ++ pending f' /\ (length l <= cap)%nat /\ (l = [] -> cap = 0%nat \/ pending f = [])
}.

(** * Regular expressions

    A string is the list of its characters before the terminator. *)
Definition CARET : Z := 94.
Definition DOLLAR : Z := 36.
Definition STAR : Z := 42.
Definition DOT : Z := 46.
Definition NEWLINE : Z := 10.

(** The loop of matchstar; [here] matches the rest of the pattern. *)
Fixpoint matchstar (c : Z) (here : list Z -> bool) (text : list Z) : bool :=
  here text || match text with [] => false | t :: text' => ((t =? c) || (c =? DOT)) && matchstar c here text' end.

Fixpoint matchhere (re : list Z) : list Z -> bool := fun text =>
  match re with
  | [] => true
  | c :: re1 =>
      let one :=
        if (c =? DOLLAR) && match re1 with [] => true | _ => false end then match text with [] => true | _ => false end
        else match text with [] => false | t :: text' => ((c =? DOT) || (c =? t)) && matchhere re1 text' end in
      match re1 with
      | x :: re2 => if x =? STAR then matchstar c (matchhere re2) text else one
      | [] => one
      end
  end.

(** The do-while loop of match. *)
Fixpoint match_from (re text : list Z) : bool :=
  matchhere re text || match text with [] => false | _ :: text' => match_from re text' end.

Definition match_re (re text : list Z) : bool :=
  match re with
  | c :: re' => if c =? CARET then matchhere re' text else match_from re text
  | [] => match_from re text
  end.

(** * grep *)
Definition BUFSZ : nat := 1024.

(** [strchr(p, '\n')], the test of the line and the step past it, on the bytes
    [p] of the buffer and their terminator: what is left and what was printed. *)
Fixpoint scan_lines (fuel : nat) (pattern p out : list Z) : option (list Z * list Z) :=
  match fuel with
  | O => None
  | S k =>
      r ← strchr (p ++ [0]) NEWLINE;
      match r with
      | None => Some (p, out)
      | Some q =>
          text ← cstr (<[q := 0]> (p ++ [0]));
          scan_lines k pattern (drop (S q) p) (if match_re pattern text then out ++ take (S q) p else out)
      end
  end.

Section Programs.
Context {F : Type} `{InputStream F}.

(** The loop over the reads; [held] are the [m] bytes at the start of the buffer. *)
Fixpoint grep_loop (fuel : nat) (pattern : list Z) (fd : F) (held out : list Z) : option (F * list Z * list Z) :=
  match fuel with
  | O => None
  | S k =>
      match read fd (BUFSZ - length held - 1) with
      | (Some (x :: l), fd') =>
          '(rest, out') ← scan_lines (S (length (held ++ x :: l))) pattern (held ++ x :: l) out;
          grep_loop k pattern fd' rest out'
      | (_, fd') => Some (fd', held, out)
      end
  end.

(** The output of grep on an open file. *)
Definition grep (pattern : list Z) (fd : F) : option (list Z) :=
  '(_, _, out) ← grep_loop (S (length (pending fd))) pattern fd [] []; Some out.

(** * wc *)
Record counts := mkCounts { n_lines : Z; n_words : Z; n_chars : Z; inword : bool }.

Definition spaces : list Z := [32; 13; 9; 10; 11].

(** The body of the loop over the bytes of the buffer. *)
Definition count_byte (k : counts) (b : Z) : counts :=
  let c := s32 (n_chars k + 1) in
  let l := if b =? NEWLINE then s32 (n_lines k + 1) else n_lines k in
  match strchr (spaces ++ [0]) b with
  | Some (Some _) => mkCounts l (n_words k) c false
  | _ => if inword k then mkCounts l (n_words k) c true else mkCounts l (s32 (n_words k + 1)) c true
  end.

Fixpoint wc_loop (fuel : nat) (fd : F) (k : counts) : option (counts + F) :=
  match fuel with
  | O => None
  | S fuel' =>
      match read fd 512 with
      | (Some [], _) => Some (inl k)
      | (Some l, fd') => wc_loop fuel' fd' (foldl count_byte k l)
      | (None, fd') => Some (inr fd')
      end
  end.

(** The counts wc prints; [inr] is its read error. *)
Definition wc (fd : F) : option (counts + F) := wc_loop (S (length (pending fd))) fd (mkCounts 0 0 0 false).
End Programs.

(** * What a pattern means *)

(** One character, or any number of them; [DOT] stands for every character. *)
Inductive item := One (c : Z) | Many (c : Z).

Definition sat (c t : Z) : Prop := c = DOT \/ c = t.

(** The items of a pattern, and whether it ends with the end-of-line anchor. *)
Fixpoint items (re : list Z) : list item * bool :=
  match re with
  | [] => ([], false)
  | c :: re1 =>
      match re1 with
      | [] => if decide (c = DOLLAR) then ([], true) else ([One c], false)
      | x :: re2 =>
          if decide (x = STAR) then let '(l, e) := items re2 in (Many c :: l, e)
          else let '(l, e) := items re1 in (One c :: l, e)
      end
  end.

(** The words that a list of items describes. *)
Fixpoint describes (l : list item) (w : list Z) : Prop :=
  match l with
  | [] => w = []
  | One c :: l' => exists t w', w = t :: w' /\ sat c t /\ describes l' w'
  | Many c :: l' => exists w1 w2, w = w1 ++ w2 /\ Forall (sat c) w1 /\ describes l' w2
  end.

(** Some beginning of [text], all of it under the anchor, is described. *)
Definition begins (r : list item * bool) (text : list Z) : Prop :=
  exists w rest, text = w ++ rest /\ describes r.1 w /\ (r.2 = true -> rest = []).

Lemma sat_dec c t : (c =? DOT) || (c =? t) = true <-> sat c t.
Proof. unfold sat. rewrite orb_true_iff, !Z.eqb_eq. done. Qed.

Lemma begins_one c r text : begins (One c :: r.1, r.2) text <-> exists t text', text = t :: text' /\ sat c t /\ begins r text'.
Proof.
  split.
  - intros (w & rest & -> & (t & w' & -> & Hs & Hd) & He). exists t, (w' ++ rest). split_and!; try done. by exists w', rest.
  - intros (t & ? & -> & Hs & w & rest & -> & Hd & He). exists (t :: w), rest. split_and!; try done. by exists t, w.
Qed.

Lemma begins_many c r text : begins (Many c :: r.1, r.2) text <-> exists w text', text = w ++ text' /\ Forall (sat c) w /\ begins r text'.
Proof.
  split.
  - intros (? & rest & -> & (w1 & w2 & -> & Hs & Hd) & He). exists w1, (w2 ++ rest). split_and!; [by rewrite app_assoc|done|]. by exists w2, rest.
  - intros (w1 & ? & -> & Hs & w & rest & -> & Hd & He). exists (w1 ++ w), rest. split_and!; [by rewrite app_assoc| |done]. by exists w1, w.
Qed.

Lemma matchstar_spec c here text : matchstar c here text = true <-> exists w text', text = w ++ text' /\ Forall (sat c) w /\ here text' = true.
Proof.
  induction text as [|t text IH]; cbn [matchstar]; rewrite orb_true_iff.
  - split; [intros [Hh|]; [by exists [], []|done]|]. intros (w & text' & E & _ & Hh). symmetry in E. apply app_nil in E as [-> ->]. by left.
  - rewrite andb_true_iff, IH, orb_comm, (Z.eqb_sym t), sat_dec. split.
    + intros [Hh|[Hs (w & text' & -> & Hw & Hh)]]; [by exists [], (t :: text)|]. exists (t :: w), text'. split_and!; [done|by constructor|done].
    + intros ([|x w] & text' & E & Hw & Hh); simplify_eq/=; [by left|]. right. apply Forall_cons in Hw as [? ?]. split; [done|]. by exists w, text'.
Qed.

Lemma matchhere_cons c x re text : matchhere (c :: x :: re) text =
  if x =? STAR then matchstar c (matchhere re) text
  else match text with [] => false | t :: text' => ((c =? DOT) || (c =? t)) && matchhere (x :: re) text' end.
Proof. change (matchhere (c :: x :: re) text) with (if x =? STAR then matchstar c (matchhere re) text else
  if (c =? DOLLAR) && false then match text with [] => true | _ => false end
  else match text with [] => false | t :: text' => ((c =? DOT) || (c =? t)) && matchhere (x :: re) text' end). by rewrite andb_false_r. Qed.

Lemma items_cons c x re : items (c :: x :: re) =
  if decide (x = STAR) then let '(l, e) := items re in (Many c :: l, e) else let '(l, e) := items (x :: re) in (One c :: l, e).
Proof. done. Qed.

(** matchhere finds what the pattern means. *)
Lemma matchhere_spec re text : matchhere re text = true <-> begins (items re) text.
Proof.
  revert text. induction re as [re IH] using (induction_ltof1 _ length). unfold ltof in IH. intros text. destruct re as [|c [|x re]].
  - split; [|done]. intros _. by exists [], text.
  - cbn [matchhere items]. destruct (Z.eqb_spec c DOLLAR); [rewrite decide_True by done|rewrite decide_False by done]; cbn [andb].
    + split; [|intros (w & rest & -> & Hd & He); cbn in Hd, He; subst; by rewrite He]. destruct text; [|done]. intros _. by exists [], [].
    + rewrite (begins_one c ([], false)). destruct text as [|t text]; [split; [done|intros (? & ? & ? & _); done]|].
      rewrite andb_true_iff, sat_dec. split.
      * intros [Hs _]. exists t, text. split_and!; try done. by exists [], text.
      * intros (? & ? & ? & ? & _). by simplify_eq.
  - rewrite matchhere_cons, items_cons. destruct (Z.eqb_spec x STAR); [rewrite decide_True by done|rewrite decide_False by done].
    + pose proof (IH re ltac:(cbn; lia)) as IHre. destruct (items re) as [l en]. rewrite matchstar_spec, (begins_many c (l, en)). by setoid_rewrite IHre.
    + pose proof (IH (x :: re) ltac:(cbn; lia)) as IHre. destruct (items (x :: re)) as [l en]. rewrite (begins_one c (l, en)).
      destruct text as [|t text]; [split; [done|intros (? & ? & ? & _); done]|]. rewrite andb_true_iff, sat_dec, IHre. naive_solver.
Qed.

Lemma match_from_spec re text : match_from re text = true <-> exists before text', text = before ++ text' /\ matchhere re text' = true.
Proof.
  induction text as [|t text IH]; cbn [match_from]; rewrite orb_true_iff.
  - split; [intros [Hh|]; [by exists [], []|done]|]. intros (w & text' & E & Hh). symmetry in E. apply app_nil in E as [-> ->]. by left.
  - rewrite IH. split.
    + intros [Hh|(w & text' & -> & Hh)]; [by exists [], (t :: text)|by exists (t :: w), text'].
    + intros ([|x w] & text' & E & Hh); simplify_eq/=; [by left|]. right. by exists w, text'.
Qed.

(** What grep searches for: a described part of the line, at its start under the
    anchor. *)
Definition occurs (re text : list Z) : Prop :=
  match re with
  | c :: re' => if decide (c = CARET) then begins (items re') text else exists before text', text = before ++ text' /\ begins (items re) text'
  | [] => True
  end.

(** C34. The matcher of grep decides what its patterns mean: it always ends, and
    answers whether some part of the text, from the start of it under a leading
    anchor and to the end of it under a closing one, is described by the items of
    the pattern, a character, a dot for any character, and either of them starred
    for any number of repetitions. *)
Theorem match_re_correct re text : match_re re text = true <-> occurs re text.
Proof.
  destruct re as [|c re]; cbn [match_re occurs].
  - split; [done|]. intros _. apply match_from_spec. by exists [], text.
  - destruct (Z.eqb_spec c CARET); [rewrite decide_True by done; apply matchhere_spec|rewrite decide_False by done].
    rewrite match_from_spec. by setoid_rewrite matchhere_spec.
Qed.

(** * The lines grep prints *)

(** The complete lines of a text, and what follows the last of them. *)
Fixpoint split_lines (l : list Z) : list (list Z) * list Z :=
  match l with
  | [] => ([], [])
  | c :: l' =>
      let '(ls, r) := split_lines l' in
      if decide (c = NEWLINE) then ([] :: ls, r)
      else match ls with [] => ([], c :: r) | x :: ls' => ((c :: x) :: ls', r) end
  end.
Definition lines (l : list Z) : list (list Z) := (split_lines l).1.

(** The lines that match, each with its newline. *)
Definition selected (pattern : list Z) (ls : list (list Z)) : list Z :=
  filter (fun t => match_re pattern t = true) ls ≫= (fun t => t ++ [NEWLINE]).

Lemma lines_none l : NEWLINE ∉ l -> lines l = [].
Proof.
  unfold lines. induction l as [|c l IH]; [done|]. intros [Hc Hl]%not_elem_of_cons. specialize (IH Hl). cbn [split_lines].
  destruct (split_lines l) as [ls r]. cbn in IH. subst ls. by rewrite decide_False.
Qed.

Lemma lines_app t l : NEWLINE ∉ t -> lines (t ++ NEWLINE :: l) = t :: lines l.
Proof.
  unfold lines. induction t as [|c t IH]; cbn [app split_lines].
  - intros _. destruct (split_lines l) as [ls r]. by rewrite decide_True.
  - intros [Hc Ht]%not_elem_of_cons. specialize (IH Ht). destruct (split_lines (t ++ NEWLINE :: l)) as [ls r]. cbn in IH. subst ls.
    by rewrite decide_False.
Qed.

Lemma selected_cons pattern t ls : selected pattern (t :: ls) = (if match_re pattern t then t ++ [NEWLINE] else []) ++ selected pattern ls.
Proof. unfold selected. destruct (match_re pattern t) eqn:E; [rewrite filter_cons_True|rewrite filter_cons_False]; (done || congruence). Qed.

(** strchr on a text with its terminator finds the first newline. *)
Lemma strchr_newline p : 0 ∉ p ->
  strchr (p ++ [0]) NEWLINE = Some None /\ NEWLINE ∉ p \/
  exists t r, p = t ++ NEWLINE :: r /\ NEWLINE ∉ t /\ strchr (p ++ [0]) NEWLINE = Some (Some (length t)).
Proof.
  induction p as [|c p IH]; [left; split; [done|apply not_elem_of_nil]|]. intros [Hc Hp]%not_elem_of_cons. cbn [app strchr]. rewrite decide_False by done.
  destruct (decide (c = NEWLINE)) as [->|Hn]; [right; exists [], p; split_and!; [done|apply not_elem_of_nil|done]|].
  destruct (IH Hp) as [[-> Hno]|(t & r & -> & Ht & ->)]; cbn.
  - left. split; [done|]. by apply not_elem_of_cons.
  - right. exists (c :: t), r. split_and!; [done| |done]. by apply not_elem_of_cons.
Qed.

Lemma drop_line (t r : list Z) c : drop (S (length t)) (t ++ c :: r) = r.
Proof. by induction t. Qed.

Lemma take_line (t r : list Z) c : take (S (length t)) (t ++ c :: r) = t ++ [c].
Proof. induction t as [|x t IH]; [done|]. cbn in *. by rewrite IH. Qed.

(** Scanning prints the selected lines and leaves the last, incomplete one. *)
Lemma scan_lines_spec pattern fuel p out : 0 ∉ p -> (length p < fuel)%nat ->
  exists ls rest, scan_lines fuel pattern p out = Some (rest, out ++ selected pattern ls) /\ NEWLINE ∉ rest /\ 0 ∉ rest /\
    (length rest <= length p)%nat /\ forall more, lines (p ++ more) = ls ++ lines (rest ++ more).
Proof.
  revert p out. induction fuel as [|k IH]; intros p out H0 Hf; [lia|]. cbn [scan_lines].
  destruct (strchr_newline p H0) as [[-> Hno]|(t & r & -> & Ht & ->)]; cbn [mbind option_bind].
  - exists [], p. cbn. rewrite app_nil_r. done.
  - apply not_elem_of_app in H0 as [H0t H0r]. apply not_elem_of_cons in H0r as [_ H0r].
    rewrite <- app_assoc, insert_app_r_alt, Nat.sub_diag by lia. cbn [app insert list_insert]. rewrite cstr_at by done. cbn [mbind option_bind].
    rewrite drop_line, take_line.
    rewrite length_app in Hf. cbn in Hf.
    destruct (IH r (if match_re pattern t then out ++ t ++ [NEWLINE] else out) H0r ltac:(lia)) as (ls & rest & -> & Hn & Hz & Hl & Hm).
    exists (t :: ls), rest. rewrite selected_cons. split_and!; try done.
    + f_equal. f_equal. destruct (match_re pattern t); by rewrite <- ?app_assoc.
    + rewrite length_app. cbn. lia.
    + intros more. rewrite <- app_assoc. cbn [app]. rewrite lines_app by done. by rewrite Hm.
Qed.

Section Output.
Context {F : Type} `{InputStream F}.

(** A line fits the buffer with its newline and a terminator. *)
Definition short (t : list Z) : Prop := (length t + 2 <= BUFSZ)%nat.

Lemma lines_first_long l l' : NEWLINE ∉ l -> (BUFSZ <= length l + 1)%nat -> Forall short (lines (l ++ l')) -> lines (l ++ l') = [].
Proof.
  intros Hl Hlen Hs. destruct (decide (NEWLINE ∈ l')) as [Hin|]; [|apply lines_none; set_solver].
  apply list_elem_of_split_l in Hin as (t & r & -> & Ht). rewrite app_assoc, lines_app in Hs by set_solver.
  apply Forall_cons in Hs as [Hs _]. unfold short in Hs. rewrite length_app in Hs. lia.
Qed.

Lemma grep_loop_spec pattern fuel fd held out : good fd -> 0 ∉ held ++ pending fd -> NEWLINE ∉ held -> (length held < BUFSZ)%nat ->
  Forall short (lines (held ++ pending fd)) -> (length (pending fd) < fuel)%nat ->
  exists fd' held', grep_loop fuel pattern fd held out = Some (fd', held', out ++ selected pattern (lines (held ++ pending fd))).
Proof.
  revert fd held out. induction fuel as [|k IH]; intros fd held out Hg H0 Hn Hlen Hs Hf; [lia|]. cbn [grep_loop].
  destruct (read_good fd (BUFSZ - length held - 1) Hg) as (l & fd' & -> & Hg' & Hp & Hl & Hend). rewrite Hp in *.
  destruct l as [|x l].
  - exists fd', held. cbn [app] in *. do 3 f_equal. replace (lines (held ++ pending fd')) with (@nil (list Z)); [by rewrite app_nil_r|].
    symmetry. destruct (Hend eq_refl) as [Hc|Hc]; [apply lines_first_long; [done|lia|done]|]. rewrite Hc, app_nil_r. by apply lines_none.
  - rewrite app_assoc in *. apply not_elem_of_app in H0 as [H0 H0'].
    destruct (scan_lines_spec pattern (S (length (held ++ x :: l))) (held ++ x :: l) out H0 ltac:(lia)) as (ls & rest & -> & Hr & Hz & Hle & Hm).
    cbn [mbind option_bind]. rewrite Hm in *. apply Forall_app in Hs as [_ Hs]. rewrite length_app in Hle. rewrite length_app in Hf. cbn in Hf, Hle, Hl.
    destruct (IH fd' rest (out ++ selected pattern ls)) as (fd2 & held2 & ->); try done; [set_solver|unfold BUFSZ in *; lia|lia|].
    exists fd2, held2. unfold selected. by rewrite filter_app, bind_app, !app_assoc.
Qed.

(** C35. grep prints the lines that match: for an input without null bytes whose
    complete lines fit the buffer, however the reads cut it, grep ends and its
    output is the complete lines in which the pattern occurs, in order, each with
    its newline.  (A last line without a newline is not printed.) *)
Theorem grep_correct pattern fd : good fd -> 0 ∉ pending fd -> Forall short (lines (pending fd)) ->
  grep pattern fd = Some (selected pattern (lines (pending fd))).
Proof.
  intros Hg H0 Hs. unfold grep.
  by destruct (grep_loop_spec pattern (S (length (pending fd))) fd [] []) as (fd' & held & ->);
    [| |apply not_elem_of_nil|unfold BUFSZ; cbn; lia| |lia|].
Qed.

Lemma grep_loop_long pattern fuel fd held out t l : good fd -> held ++ pending fd = t ++ l -> 0 ∉ t -> NEWLINE ∉ t ->
  length t = (BUFSZ - 1)%nat -> (length held < BUFSZ)%nat -> (length (pending fd) < fuel)%nat ->
  exists fd', grep_loop fuel pattern fd held out = Some (fd', t, out).
Proof.
  intros Hg Hp H0 Hn Hlen. revert fd held Hg Hp. induction fuel as [|k IH]; intros fd held Hg Hp Hh Hf; [lia|]. cbn [grep_loop].
  destruct (read_good fd (BUFSZ - length held - 1) Hg) as (bs & fd' & -> & Hg' & Hp' & Hl & Hend).
  assert (Hpre : held ++ bs = take (length held + length bs) t).
  { rewrite Hp', app_assoc in Hp. apply (f_equal (take (length (held ++ bs)))) in Hp. rewrite take_app_length in Hp.
    rewrite Hp, length_app, take_app_le; [done|]. lia. }
  destruct bs as [|x bs].
  - exists fd'. do 3 f_equal. rewrite app_nil_r in Hpre. rewrite Hpre, take_ge; [done|]. destruct (Hend eq_refl) as [Hc|Hc]; cbn; [lia|].
    rewrite Hc, app_nil_r in Hp. subst held. rewrite length_app. lia.
  - assert (Hsub : held ++ x :: bs ⊆ t) by (rewrite Hpre; intros z (? & ? & _)%elem_of_take; by eapply list_elem_of_lookup_2).
    destruct (scan_lines_spec pattern (S (length (held ++ x :: bs))) (held ++ x :: bs) out) as (ls & rest & Hsc & _); [set_solver|lia|].
    cbn [scan_lines] in Hsc |- *. destruct (strchr_newline (held ++ x :: bs)) as [[-> _]|(t1 & r1 & E & _)]; [set_solver| |rewrite E in Hsub; set_solver].
    cbn [mbind option_bind]. apply IH; try done; rewrite ?app_nil_r.
    + by rewrite <- app_assoc, <- Hp'.
    + rewrite length_app. unfold BUFSZ in *. cbn in *. lia.
    + rewrite Hp', length_app in Hf. cbn in Hf. lia.
Qed.

(** The input ends, for grep, at a line that fills the buffer: nothing after it is
    read, and nothing of it is printed. *)
Theorem grep_long_line pattern fd t l : good fd -> pending fd = t ++ l -> 0 ∉ t -> NEWLINE ∉ t -> length t = (BUFSZ - 1)%nat ->
  grep pattern fd = Some [].
Proof.
  intros Hg Hp H0 Hn Hlen. unfold grep.
  by destruct (grep_loop_long pattern (S (length (pending fd))) fd [] [] t l) as (fd' & ->); [| | | | |cbn; unfold BUFSZ; lia|lia|].
Qed.
End Output.

(** * The counts of wc *)

(** A word starts at a character that is no space, after a space or at the
    start. *)
Definition space_at (l : list Z) (i : nat) : bool := match l !! i with Some b => bool_decide (b ∈ spaces) | None => true end.
Definition word_start (l : list Z) (i : nat) : bool :=
  negb (space_at l i) && match i with O => true | S i' => space_at l i' end.
Definition words (l : list Z) : nat := length (filter (fun i => word_start l i = true) (seq 0 (length l))).

Lemma space_at_app l l' i : (i < length l)%nat -> space_at (l ++ l') i = space_at l i.
Proof. intros Hi. unfold space_at. by rewrite lookup_app_l. Qed.

Lemma space_at_last l b : space_at (l ++ [b]) (length l) = bool_decide (b ∈ spaces).
Proof. unfold space_at. by rewrite list_lookup_middle. Qed.

Lemma filter_ext_in {A} (P Q : A -> bool) (l : list A) : (forall x, x ∈ l -> P x = Q x) ->
  filter (fun x => P x = true) l = filter (fun x => Q x = true) l.
Proof.
  induction l as [|x l IH]; intros Hl; [done|]. rewrite !filter_cons, IH by (intros; apply Hl; by right).
  by rewrite (Hl x) by by left.
Qed.

(** The last character is part of a word. *)
Definition in_word (l : list Z) : bool := match length l with O => false | S i => negb (space_at l i) end.

Lemma in_word_snoc l b : in_word (l ++ [b]) = negb (bool_decide (b ∈ spaces)).
Proof. unfold in_word. by rewrite length_app, Nat.add_1_r, space_at_last. Qed.

Lemma words_snoc l b : words (l ++ [b]) = (words l + if negb (bool_decide (b ∈ spaces)) && negb (in_word l) then 1 else 0)%nat.
Proof.
  unfold words. rewrite length_app, Nat.add_1_r, seq_S, filter_app, length_app. f_equal.
  - f_equal. apply filter_ext_in. intros i Hi%elem_of_seq. unfold word_start. rewrite space_at_app by lia. f_equal. destruct i; [done|]. rewrite space_at_app by lia. done.
  - cbn [Nat.add]. rewrite filter_cons. unfold word_start, in_word. rewrite space_at_last.
    destruct (length l) as [|i] eqn:E; [by destruct (bool_decide _)|]. rewrite space_at_app by lia. destruct (bool_decide _), (space_at l i); done.
Qed.

Definition newlines (l : list Z) : nat := length (filter (fun b => b = NEWLINE) l).

Lemma count_byte_spec l b : Z.of_nat (length l) + 1 < 2 ^ 31 -> (words l <= length l)%nat -> (newlines l <= length l)%nat ->
  count_byte (mkCounts (Z.of_nat (newlines l)) (Z.of_nat (words l)) (Z.of_nat (length l)) (in_word l)) b =
  mkCounts (Z.of_nat (newlines (l ++ [b]))) (Z.of_nat (words (l ++ [b]))) (Z.of_nat (length (l ++ [b]))) (in_word (l ++ [b])).
Proof.
  intros Hl Hw Hn. rewrite words_snoc, in_word_snoc, length_app. unfold newlines in *. rewrite filter_app, length_app. unfold count_byte. cbn [n_lines n_words n_chars inword length].
  rewrite !s32_small by lia.
  replace (if b =? NEWLINE then _ else _) with (Z.of_nat (length (filter (fun b => b = NEWLINE) l) + length (filter (fun b => b = NEWLINE) [b])))
    by (rewrite filter_cons; destruct (Z.eqb_spec b NEWLINE); [rewrite decide_True by done|rewrite decide_False by done]; cbn; lia).
  assert (Hs : exists o, strchr (spaces ++ [0]) b = Some o /\ (bool_decide (b ∈ spaces) = match o with Some _ => true | None => false end)).
  { destruct (decide (b ∈ spaces)) as [Hin|Hout]; [rewrite bool_decide_true by done|rewrite bool_decide_false by done].
    - unfold spaces in Hin. repeat (apply elem_of_cons in Hin as [->|Hin]; [by eexists|]). by apply elem_of_nil in Hin.
    - exists None. split; [|done]. unfold spaces in *. rewrite !elem_of_cons in Hout. cbn. repeat (rewrite decide_False by (intros ?; subst; naive_solver)). done. }
  destruct Hs as (o & -> & ->). destruct o; cbn; [f_equal; lia|].
  destruct (in_word l); cbn; f_equal; lia.
Qed.

Lemma words_le l : (words l <= length l)%nat.
Proof. unfold words. etrans; [apply length_filter|]. by rewrite length_seq. Qed.

Lemma newlines_le l : (newlines l <= length l)%nat.
Proof. apply length_filter. Qed.

Definition counts_of (l : list Z) : counts :=
  mkCounts (Z.of_nat (newlines l)) (Z.of_nat (words l)) (Z.of_nat (length l)) (in_word l).

Lemma count_bytes l l' : Z.of_nat (length (l ++ l')) < 2 ^ 31 -> foldl count_byte (counts_of l) l' = counts_of (l ++ l').
Proof.
  revert l. induction l' as [|b l' IH]; intros l Hl; [by rewrite app_nil_r|]. cbn [foldl]. rewrite length_app in Hl. cbn in Hl.
  unfold counts_of at 1. rewrite count_byte_spec; [|lia|apply words_le|apply newlines_le]. fold (counts_of (l ++ [b])).
  rewrite IH by (rewrite !length_app; cbn; lia). by rewrite <- app_assoc.
Qed.

Section Wc.
Context {F : Type} `{InputStream F}.

Lemma wc_loop_spec fuel fd l : good fd -> Z.of_nat (length (l ++ pending fd)) < 2 ^ 31 -> (length (pending fd) < fuel)%nat ->
  wc_loop fuel fd (counts_of l) = Some (inl (counts_of (l ++ pending fd))).
Proof.
  revert fd l. induction fuel as [|k IH]; intros fd l Hg Hl Hf; [lia|]. cbn [wc_loop].
  destruct (read_good fd 512 Hg) as (bs & fd' & -> & Hg' & Hp & Hle & Hend). destruct bs as [|b bs].
  - destruct (Hend eq_refl) as [|Hn]; [done|]. by rewrite Hn, app_nil_r.
  - rewrite Hp, app_assoc in *. rewrite length_app in Hl. rewrite count_bytes by lia. apply IH; [done|rewrite length_app; lia|].
    rewrite length_app in Hf. cbn in Hf. lia.
Qed.

(** wc counts: for an input of less than 2^31 bytes, however the reads cut it,
    it ends and prints the number of newlines, the number of words (the places
    where a character that is no space follows a space or starts the input) and the
    number of bytes. *)
Theorem wc_correct fd : good fd -> Z.of_nat (length (pending fd)) < 2 ^ 31 -> wc fd = Some (inl (counts_of (pending fd))).
Proof. intros Hg Hl. unfold wc. apply (wc_loop_spec _ fd []); (done || lia). Qed.
End Wc.

(** * A file read in pieces *)

(** The bytes left and the greatest number of them that a read returns, less one. *)
Definition pieces : Type := list Z * nat.

#[export] Program Instance pieces_stream : InputStream pieces := {
  read f cap := (Some (take (S f.2 `min` cap) f.1), (drop (S f.2 `min` cap) f.1, f.2));
  pending f := f.1;
  good _ := True
}.
Next Obligation.
  intros [l k] cap _. cbn [fst snd]. eexists _, _. split_and!; [done|done|by rewrite <- (take_drop (S k `min` cap) l) at 1|rewrite length_take; lia|].
  intros E. destruct cap; [by left|]. destruct l; [by right|]. done.
Qed.

Definition sample_text : list Z := [97; 98; 10; 98; 98; 10; 97; 10; 120].

Definition sample_file : pieces := (sample_text, 1%nat).

Lemma grep_correct_witness : grep [97; 98; 42; 36] sample_file = Some [97; 98; 10; 97; 10] /\
  grep [97; 98; 42; 36] sample_file = Some (selected [97; 98; 42; 36] (lines (pending sample_file))).
Proof.
  split; [by vm_compute|]. apply (grep_correct [97; 98; 42; 36] sample_file); [done| |].
  - apply (bool_decide_unpack _). by vm_compute.
  - repeat constructor; vm_compute; lia.
Defined.

Lemma wc_correct_witness : wc sample_file = Some (inl (counts_of (pending sample_file))) /\ counts_of sample_text = mkCounts 3 4 9 true.
Proof. split; [apply (wc_correct sample_file); [done|cbn; lia]|by vm_compute]. Defined.
