(* ===== verification/Umalloc.v ===== *)
(** The allocator of the user library, user/umalloc.c: the circular list of free
    blocks, malloc, free and morecore, against a system that grows the heap. *)
From S2P Require Import Prelude.
From stdpp Require Import functions sorting.
Local Open Scope Z_scope.

(** [sizeof(Header)]. *)
Definition HDR : Z := 16.
Definition SBRK_ERROR : Z := -1.

(** Heaps end below 64 gigabytes: sbrk takes its pages from physical memory. *)
Definition HEAP_LIMIT : Z := 2 ^ 36.

(** What sbrk promises for a growth: the end of the memory moves up, or nothing
    happens. *)
Class Sbrk (B : Type) := {
  sbrk : Z -> B -> Z * B;
  brk : B -> Z;
  sbrk_grows n b : 0 < n < 2 ^ 31 ->
    (sbrk n b).1 = SBRK_ERROR /\ brk (sbrk n b).2 = brk b \/
    (sbrk n b).1 = brk b /\ brk (sbrk n b).2 = brk b + n /\ brk b + n <= HEAP_LIMIT
}.

(** [union header]. *)
Record Header := mkHeader { h_ptr : Z; h_size : Z }.

(** The headers in memory by their addresses, [freep] and the system. *)
Record uheap (B : Type) := mkHeap { cells : Z -> Header; freep : Z; os : B }.
Arguments mkHeap {B}.
Arguments cells {B}.
Arguments freep {B}.
Arguments os {B}.

Section Umalloc.
Context {B : Type} `{Sbrk B}.
(** The address of [base], which the linker puts below the heap. *)
Context (base : Z).

Definition upd_cell (a : Z) (h : Header) (s : uheap B) : uheap B := mkHeap (<[a := h]> (cells s)) (freep s) (os s).
Definition get_ptr (a : Z) : M (uheap B) Z := gets (fun s => h_ptr (cells s a)).
Definition get_size (a : Z) : M (uheap B) Z := gets (fun s => h_size (cells s a)).
Definition set_ptr (a p : Z) : M (uheap B) unit := modify (fun s => upd_cell a (mkHeader p (h_size (cells s a))) s).
Definition set_size (a n : Z) : M (uheap B) unit := modify (fun s => upd_cell a (mkHeader (h_ptr (cells s a)) n) s).
Definition set_freep (p : Z) : M (uheap B) unit := modify (fun s => mkHeap (cells s) p (os s)).
Definition do_sbrk (n : Z) : M (uheap B) Z := fun L s => Ok (sbrk n (os s)).1 L (mkHeap (cells s) (freep s) (sbrk n (os s)).2).

(** The search of free: the block after which [bp] belongs. *)
Definition search (fuel : nat) (bp p : Z) : M (uheap B) Z :=
  loop fuel (fun p =>
    nx ← get_ptr p;
    if decide (bp > p /\ bp < nx) then mret (inr p)
    else if decide (p >= nx /\ (bp > p \/ bp < nx)) then mret (inr p)
    else mret (inl nx)) p.

Definition join_right (bp p : Z) : M (uheap B) unit :=
  n ← get_size bp;
  nx ← get_ptr p;
  if decide (bp + HDR * n = nx) then
    m ← get_size nx;
    set_size bp (u32 (n + m));;
    nn ← get_ptr nx;
    set_ptr bp nn
  else set_ptr bp nx.

Definition join_left (bp p : Z) : M (uheap B) unit :=
  m ← get_size p;
  if decide (p + HDR * m = bp) then
    n ← get_size bp;
    set_size p (u32 (m + n));;
    nn ← get_ptr bp;
    set_ptr p nn
  else set_ptr p bp.

Definition free (fuel : nat) (ap : Z) : M (uheap B) unit :=
  let bp := ap - HDR in
  f ← gets freep;
  p ← search fuel bp f;
  join_right bp p;;
  join_left bp p;;
  set_freep p.

Definition morecore (fuel : nat) (nu : Z) : M (uheap B) Z :=
  let nu := if decide (nu < 4096) then 4096 else nu in
  p ← do_sbrk (s32 (u64 (nu * HDR)));
  if decide (p = SBRK_ERROR) then mret 0
  else
    set_size p nu;;
    free fuel (p + HDR);;
    gets freep.

(** A block of at least [nunits] units is found at [p]. *)
Definition take_block (nunits prevp p : Z) : M (uheap B) Z :=
  n ← get_size p;
  q ← (if decide (n = nunits) then nx ← get_ptr p; set_ptr prevp nx;; mret p
       else
         set_size p (u32 (n - nunits));;
         n' ← get_size p;
         let q := p + HDR * n' in
         set_size q nunits;;
         mret q);
  set_freep prevp;;
  mret (q + HDR).

Definition malloc_body (fuel : nat) (nunits : Z) (x : Z * Z) : M (uheap B) (Z * Z + Z) :=
  let '(prevp, p) := x in
  n ← get_size p;
  if decide (n >= nunits) then r ← take_block nunits prevp p; mret (inr r)
  else
    f ← gets freep;
    if decide (p = f) then
      p ← morecore fuel nunits;
      if decide (p = 0) then mret (inr 0) else nx ← get_ptr p; mret (inl (p, nx))
    else nx ← get_ptr p; mret (inl (p, nx)).

Definition malloc (fuel : nat) (nbytes : Z) : M (uheap B) Z :=
  let nunits := u32 ((nbytes + HDR - 1) / HDR + 1) in
  f ← gets freep;
  (if decide (f = 0) then set_ptr base base;; set_freep base;; set_size base 0 else mret tt);;
  prevp ← gets freep;
  p ← get_ptr prevp;
  loop fuel (malloc_body fuel nunits) (prevp, p).

(** * The free list

    A block is its address and its size in units.  The circular list is kept in
    the order of addresses, from [base] on, and adjacent free blocks are joined. *)
Definition bend (x : Z * Z) : Z := x.1 + HDR * x.2.
Definition before (x y : Z * Z) : Prop := bend x < y.1.
Definition apart (x y : Z * Z) : Prop := bend x <= y.1 \/ bend y <= x.1.

(** The address of the first block of [l], or [e]. *)
Definition hd_addr (l : list (Z * Z)) (e : Z) : Z := match l with [] => e | y :: _ => y.1 end.

Fixpoint linked (c : Z -> Header) (l : list (Z * Z)) (e : Z) : Prop :=
  match l with
  | [] => True
  | x :: l' => c x.1 = mkHeader (hd_addr l' e) x.2 /\ linked c l' e
  end.

(** The byte at [x] is in one of the blocks. *)
Definition covers (l : list (Z * Z)) (x : Z) : Prop := exists b, b ∈ l /\ b.1 <= x < bend b.

Definition circle (fl : list (Z * Z)) : list (Z * Z) := (base, 0) :: fl.

(** The heap with the free blocks [fl] and the allocated blocks [al]. *)
Record heap_ok (s : uheap B) (fl : list (Z * Z)) (al : gmap Z Z) : Prop := {
  ok_list : linked (cells s) (circle fl) base;
  ok_sorted : StronglySorted before (circle fl);
  ok_freep : freep s ∈ (circle fl).*1;
  ok_free : forall x, x ∈ fl -> 0 < x.2 /\ base + HDR <= x.1 /\ bend x <= brk (os s);
  ok_alloc : forall a n, al !! a = Some n -> 0 < n /\ base + HDR <= a /\ a + HDR * n <= brk (os s) /\ h_size (cells s a) = n;
  ok_apart : forall a n x, al !! a = Some n -> x ∈ fl -> apart (a, n) x;
  ok_alloc_apart : forall a n a' n', al !! a = Some n -> al !! a' = Some n' -> a <> a' -> apart (a, n) (a', n');
  ok_top : 0 < base /\ base + HDR <= brk (os s) <= HEAP_LIMIT
}.

Lemma hd_addr_app l l' e : hd_addr (l ++ l') e = hd_addr l (hd_addr l' e).
Proof. by destruct l. Qed.

Lemma linked_app c l l' e : linked c (l ++ l') e <-> linked c l (hd_addr l' e) /\ linked c l' e.
Proof. induction l as [|x l IH]; simpl; [tauto|]. rewrite IH, hd_addr_app. tauto. Qed.

Lemma linked_ext c c' l e : (forall x, x ∈ l -> c' x.1 = c x.1) -> linked c l e -> linked c' l e.
Proof.
  induction l as [|x l IH]; simpl; [done|]. intros Hc [Hx Hl]. split; [rewrite Hc; [done|by left]|].
  apply IH; [|done]. intros y Hy. apply Hc. by right.
Qed.

Lemma linked_size c l e x : linked c l e -> x ∈ l -> h_size (c x.1) = x.2.
Proof. induction l as [|y l IH]; simpl; [by intros _ ?%not_elem_of_nil|]. intros [Hy Hl] [->|Hx]%elem_of_cons; [by rewrite Hy|by apply IH]. Qed.

(** The length of a filter drops when an element is lost. *)
Lemma filter_shrinks {A} (P Q : A -> Prop) `{!forall x, Decision (P x), !forall x, Decision (Q x)} l y :
  (forall x, Q x -> P x) -> y ∈ l -> P y -> ~ Q y -> (length (filter Q l) < length (filter P l))%nat.
Proof.
  intros HQP Hy HP HQ. rewrite <- (list_filter_filter_l _ _ l HQP). eapply length_filter_lt; [|done]. by apply list_elem_of_filter.
Qed.

Lemma sorted_split l1 x l2 : StronglySorted before (l1 ++ x :: l2) <->
  StronglySorted before l1 /\ StronglySorted before l2 /\ (forall y, y ∈ l1 -> before y x) /\ (forall y, y ∈ l2 -> before x y) /\
  forall y z, y ∈ l1 -> z ∈ l2 -> before y z.
Proof. rewrite StronglySorted_app, StronglySorted_cons, Forall_forall. set_solver. Qed.

(** Where the block [bp] belongs: after [p]. *)
Definition slot_at (K : list (Z * Z)) (bp p : Z) : Prop :=
  exists l1 n l2, K = l1 ++ (p, n) :: l2 /\ p < bp /\ forall y, y ∈ l2 -> bp < y.1.

(** The blocks that the search still has to pass. *)
Definition ahead (K : list (Z * Z)) (bp p : Z) : nat :=
  if decide (p < bp) then length (filter (fun x => p < x.1 < bp) K)
  else S (length (filter (fun x => p < x.1 \/ x.1 < bp) K)).

Lemma ahead_bound K bp p : p ∈ K.*1 -> (ahead K bp p <= length K)%nat.
Proof.
  intros (x & -> & Hx)%list_elem_of_fmap. unfold ahead. case_decide.
  - rewrite length_filter. done.
  - eapply length_filter_lt; [done|]. lia.
Qed.

Lemma search_wp fuel bp p L s fl al : heap_ok s fl al -> p ∈ (circle fl).*1 -> base < bp -> (forall x, x ∈ fl -> x.1 <> bp) ->
  (length (circle fl) < fuel)%nat ->
  wp (search fuel bp p) L s (fun r s' => s' = s /\ slot_at (circle fl) bp r).
Proof.
  intros [Hl Hs _ Hf _ _ _ _] Hp Hb Hne Hk. set (K := circle fl) in *.
  assert (Hsz : forall x, x ∈ K -> 0 <= x.2 /\ x.1 <> bp).
  { intros x [->|Hx]%elem_of_cons; [simpl; lia|]. destruct (Hf x Hx). split; [lia|auto]. }
  apply (wpl_loop (fun p s' => s' = s /\ p ∈ K.*1) (ahead K bp)); [|done|by pose proof (ahead_bound K bp p Hp); lia].
  clear p Hp. intros p s' [-> (x & -> & Hx)%list_elem_of_fmap]. destruct (Hsz x Hx) as [Hx0 Hxb].
  pose proof Hx as (l1 & l2 & HK)%list_elem_of_split. rewrite HK in Hl, Hs. apply sorted_split in Hs as (_ & S2 & S3 & S4 & _).
  apply linked_app in Hl as [_ [Hx1 _]]. unfold get_ptr. wsteps. rewrite Hx1. cbn [h_ptr].
  assert (Hxlow : base <= x.1) by (apply elem_of_cons in Hx as [->|Hx]; [done|destruct (Hf x Hx); unfold HDR in *; lia]).
  destruct l2 as [|y l2]; cbn [hd_addr].
  - destruct (decide (x.1 < bp)).
    + wfalse; [|lia]. wtrue; [|lia]. wsteps. do 2 (split; [done|]). exists l1, x.2, []. rewrite HK. split; [by destruct x|]. split; [lia|]. by intros y ?%not_elem_of_nil.
    + wfalse; [|lia]. wfalse; [|lia]. wsteps. split; [done|]. split; [split; [done|]; by left|]. unfold ahead.
      rewrite (decide_False (P := x.1 < bp)) by lia. rewrite decide_True by lia. apply Nat.lt_succ_r, Nat.lt_le_incl.
      eapply (filter_shrinks _ _ _ (base, 0)); [|by left|simpl; lia|simpl; lia]. intros z. lia.
  - assert (Hy : y ∈ K) by (rewrite HK; set_solver). destruct (Hsz y Hy) as [_ Hyb]. assert (Hxy : before x y) by (apply S4; by left).
    unfold before, bend, HDR in Hxy. destruct (decide (x.1 < bp /\ bp < y.1)).
    + wtrue; [|lia]. wsteps. do 2 (split; [done|]). exists l1, x.2, (y :: l2). rewrite HK. split; [by destruct x|]. split; [lia|].
      intros z [->|Hz]%elem_of_cons; [lia|]. apply StronglySorted_cons in S2 as [S2 _]. rewrite Forall_forall in S2. specialize (S2 z Hz).
      destruct (Hsz y Hy). unfold before, bend, HDR in S2. lia.
    + wfalse; [|lia]. wfalse; [|lia]. wsteps. split; [done|]. split; [split; [done|]; by apply list_elem_of_fmap_2|]. unfold ahead. destruct (decide (x.1 < bp)).
      * rewrite decide_True by lia. eapply (filter_shrinks _ _ _ y); [|done|lia|lia]. intros z. lia.
      * rewrite decide_False by lia. apply -> Nat.succ_lt_mono. eapply (filter_shrinks _ _ _ y); [|done|lia|lia]. intros z. lia.
Qed.

(** * free *)

(** The block of [n] units at [bp] joined with the head of the blocks after it. *)
Definition absorb (bp n : Z) (l : list (Z * Z)) : Z * list (Z * Z) :=
  match l with
  | (q, m) :: l' => if decide (bp + HDR * n = q) then (n + m, l') else (n, l)
  | [] => (n, [])
  end.

(** The block of [n] units at [bp] put after the block [(p, m)]. *)
Definition joined (p m bp n : Z) (l : list (Z * Z)) : list (Z * Z) :=
  if decide (p + HDR * m = bp) then (p, m + n) :: l else (p, m) :: (bp, n) :: l.

(** Only the cell at [a] differs. *)
Definition only_cell (a : Z) (h : Header) (s s' : uheap B) : Prop :=
  (forall x, cells s' x = if decide (x = a) then h else cells s x) /\ freep s' = freep s /\ os s' = os s.

Lemma upd_cell_at a h s x : cells (upd_cell a h s) x = if decide (x = a) then h else cells s x.
Proof. unfold upd_cell. cbn. unfold insert, fn_insert. destruct (decide (x = a)), (decide (a = x)); congruence. Qed.

Lemma only_upd a h s : only_cell a h s (upd_cell a h s).
Proof. split; [apply upd_cell_at|done]. Qed.

Lemma only_upd2 a h h' s : only_cell a h' s (upd_cell a h' (upd_cell a h s)).
Proof. split; [|done]. intros x. rewrite !upd_cell_at. by case_decide. Qed.

Lemma join_right_wp bp p n l L s : h_size (cells s bp) = n -> h_ptr (cells s p) = hd_addr l base -> linked (cells s) l base ->
  bp + HDR * n <> base -> (forall y, y ∈ l -> y.1 <> bp /\ 0 <= n + y.2 < 2 ^ 32) ->
  wp (join_right bp p) L s (fun _ s' => only_cell bp (mkHeader (hd_addr (absorb bp n l).2 base) (absorb bp n l).1) s s').
Proof.
  intros Hn Hp Hl Hb Hy. unfold join_right, get_size, get_ptr, set_size, set_ptr. wsteps. rewrite Hn, Hp.
  destruct l as [|[q m] l]; cbn [hd_addr absorb fst] in *.
  - wfalse; [|done]. wsteps. rewrite Hn. split; [done|]. apply only_upd.
  - destruct Hl as [Hq _]. cbn in Hq. destruct (decide (bp + HDR * n = q)) as [E|E]; [|wsteps; rewrite Hn; split; [done|]; apply only_upd].
    destruct (Hy (q, m)) as [Hqb Hr]; [by left|]. cbn in Hqb, Hr. wsteps. split; [done|].
    rewrite !upd_cell_at, !decide_False, decide_True, Hq by done. cbn. unfold u32. rewrite Z.mod_small by lia. apply only_upd2.
Qed.

Lemma join_left_wp bp p n m nx L s : cells s bp = mkHeader nx n -> h_size (cells s p) = m -> p <> bp -> 0 <= m + n < 2 ^ 32 ->
  wp (join_left bp p) L s (fun _ s' =>
    only_cell p (if decide (p + HDR * m = bp) then mkHeader nx (m + n) else mkHeader bp m) s s').
Proof.
  intros Hb Hm Hne Hr. unfold join_left, get_size, get_ptr, set_size, set_ptr. wsteps. rewrite Hm.
  destruct (decide (p + HDR * m = bp)) as [E|E]; wsteps; (split; [done|]).
  - rewrite !upd_cell_at, decide_False, decide_True, Hb by done. cbn. unfold u32. rewrite Z.mod_small by lia. apply only_upd2.
  - rewrite Hm. apply only_upd.
Qed.

Lemma covers_cons b l x : covers (b :: l) x <-> b.1 <= x < bend b \/ covers l x.
Proof. unfold covers. set_solver. Qed.

Lemma covers_app l l' x : covers (l ++ l') x <-> covers l x \/ covers l' x.
Proof. unfold covers. set_solver. Qed.

Lemma covers_circle fl x : covers (circle fl) x <-> covers fl x.
Proof. unfold circle. rewrite covers_cons. unfold bend. cbn. split; [intros [?|?]; [lia|done]|by right]. Qed.

(** ** The list with a block put in its place *)
Section Insert.
Context (l1 l2 : list (Z * Z)) (p m bp n hi : Z).
Context (Hsort : StronglySorted before (l1 ++ (p, m) :: l2)).
Context (Hsz : forall y, y ∈ l1 ++ (p, m) :: l2 -> 0 <= y.2 /\ bend y <= hi) (Hn : 0 < n) (Hhi : bp + HDR * n <= hi).
Context (Hp : p + HDR * m <= bp) (Hl2 : forall y, y ∈ l2 -> bp + HDR * n <= y.1).

#[local] Notation out := (l1 ++ joined p m bp (absorb bp n l2).1 (absorb bp n l2).2).

(** What the block and the rest are after the join with the next block. *)
Lemma absorb_ok : exists n' r, absorb bp n l2 = (n', r) /\ n <= n' /\ (forall y, y ∈ r -> y ∈ l2 /\ bp + HDR * n' < y.1) /\
  StronglySorted before r /\ (n' = n /\ r = l2 \/ exists k, l2 = (bp + HDR * n, k) :: r /\ n' = n + k /\ 0 <= k).
Proof using Hsort Hsz Hn Hhi Hp Hl2.
  apply sorted_split in Hsort as (_ & S2 & _ & _ & _). destruct l2 as [|[q k] r].
  { exists n, []. split; [done|]. split; [done|]. split; [by intros y ?%not_elem_of_nil|]. split; [done|by left]. }
  apply StronglySorted_cons in S2 as [S2 S3]. rewrite Forall_forall in S2.
  destruct (Hsz (q, k)) as [Hk _]; [set_solver|]. pose proof (Hl2 (q, k) ltac:(by left)) as Hq. cbn in Hk, Hq. unfold absorb.
  destruct (decide (bp + HDR * n = q)) as [E|E].
  - exists (n + k), r. split; [done|]. split; [lia|]. split; [|split; [done|right; exists k; subst q; done]]. intros y Hy. split; [by right|].
    specialize (S2 y Hy). unfold before, bend, HDR in *. cbn in S2. lia.
  - exists n, ((q, k) :: r). split; [done|]. split; [done|]. split; [|split; [by apply StronglySorted_cons; rewrite Forall_forall|by left]].
    intros y Hy. split; [done|]. apply elem_of_cons in Hy as [->|Hy]; [cbn; lia|]. specialize (S2 y Hy). unfold before, bend, HDR in *. cbn in S2. lia.
Qed.

Lemma insert_sorted : StronglySorted before out.
Proof using Hsort Hsz Hn Hhi Hp Hl2.
  destruct absorb_ok as (n' & r & -> & Hn' & Hr & S & _). cbn [fst snd]. pose proof Hsort as (S1 & S2 & S3 & S4 & S5)%sorted_split.
  unfold joined. case_decide.
  - apply sorted_split. split_and!; try done.
    + intros y Hy. apply (Hr y) in Hy as [_ Hy]. unfold before, bend, HDR in *. cbn. lia.
    + intros y z Hy Hz. apply S5; [done|]. by apply Hr.
  - apply sorted_split. split_and!; try done.
    + apply StronglySorted_cons. split; [|done]. rewrite Forall_forall. intros y Hy. apply (Hr y) in Hy as [_ Hy]. unfold before, bend. cbn. done.
    + intros y [->|Hy]%elem_of_cons; [unfold before, bend, HDR in *; cbn; lia|]. apply S4. by apply Hr.
    + intros y z Hy [->|Hz]%elem_of_cons; [|by apply S5, Hr]. apply S3 in Hy. destruct (Hsz (p, m)); [set_solver|]. unfold before, bend, HDR in *. cbn in *. lia.
Qed.

Lemma insert_covers x : covers out x <-> covers (l1 ++ (p, m) :: l2) x \/ bp <= x < bp + HDR * n.
Proof using Hsort Hsz Hn Hhi Hp Hl2.
  destruct absorb_ok as (n' & r & -> & Hn' & _ & _ & Hl). cbn [fst snd]. destruct (Hsz (p, m)) as [Hm _]; [set_solver|].
  rewrite covers_app. unfold joined. cbn in Hm.
  destruct Hl as [[-> ->]|(k & E & -> & Hk)]; [|rewrite E]; case_decide; rewrite ?covers_app, ?covers_cons; unfold bend, HDR in *; cbn; naive_solver lia.
Qed.

(** A block of the new list is an old one, or it contains the one put in and lies
    where no other block can be. *)
Lemma insert_elem y : y ∈ out -> y ∈ l1 ++ (p, m) :: l2 \/
  n <= y.2 /\ (y.1 = bp \/ y.1 = p /\ p + HDR * m = bp) /\ bend y <= hi /\
  forall a k, 0 < k -> apart (a, k) (bp, n) -> (forall z, z ∈ l1 ++ (p, m) :: l2 -> 0 < z.2 -> apart (a, k) z) -> apart (a, k) y.
Proof using Hsort Hsz Hn Hhi Hp Hl2.
  destruct absorb_ok as (n' & r & -> & Hn' & Hr & _ & Hl). cbn [fst snd]. destruct (Hsz (p, m)) as [Hm Hmh]; [set_solver|]. cbn in Hm.
  assert (Hk : bp + HDR * n' <= hi /\ forall a k, 0 < k -> apart (a, k) (bp, n) -> (forall z, z ∈ l1 ++ (p, m) :: l2 -> 0 < z.2 -> apart (a, k) z) -> apart (a, k) (bp, n')).
  { destruct Hl as [[-> ->]|(k & E & -> & Hk)]; [split; [lia|auto]|]. destruct (Hsz (bp + HDR * n, k)) as [_ Hh]; [rewrite E; set_solver|].
    unfold bend in Hh. cbn in Hh. split; [unfold HDR in *; lia|]. intros a j Hj Ha Hz. destruct (decide (k = 0)) as [->|]; [by rewrite Z.add_0_r|].
    specialize (Hz (bp + HDR * n, k)). unfold apart, bend, HDR in *. cbn in *. destruct Hz; [rewrite E; set_solver|lia|lia|lia]. }
  destruct Hk as [Hh Hk]. intros [Hy|Hy]%elem_of_app; [left; set_solver|]. unfold joined in Hy. case_decide as E.
  - apply elem_of_cons in Hy as [->|Hy]; [right|left; apply Hr in Hy as [Hy _]; set_solver]. cbn. split; [lia|]. split; [by right|]. unfold bend. cbn. split; [unfold HDR in *; lia|]. intros a k Hk0 Ha Hz. specialize (Hk a k Hk0 Ha Hz).
    destruct (decide (m = 0)) as [->|]; [unfold apart, bend, HDR in *; cbn in *; lia|].
    specialize (Hz (p, m) ltac:(set_solver) ltac:(cbn; lia)). unfold apart, bend, HDR in *. cbn in *. lia.
  - apply elem_of_cons in Hy as [->|[->|Hy]%elem_of_cons]; [left; set_solver|right|left; apply Hr in Hy as [Hy _]; set_solver].
    cbn. split; [lia|]. unfold bend. cbn. split; [by left|]. split; [done|by apply Hk].
Qed.

Lemma insert_has : exists y, y ∈ out /\ n <= y.2.
Proof using Hsort Hsz Hn Hhi Hp Hl2.
  destruct absorb_ok as (n' & r & -> & Hn' & _). cbn [fst snd]. destruct (Hsz (p, m)) as [Hm _]; [set_solver|]. cbn in Hm. unfold joined. case_decide.
  - exists (p, m + n'). split; [set_solver|cbn; lia].
  - exists (bp, n'). split; [set_solver|cbn; lia].
Qed.
End Insert.

Lemma sorted_addr_ne l1 x l2 : StronglySorted before (l1 ++ x :: l2) -> (forall y, y ∈ l1 ++ x :: l2 -> 0 <= y.2) ->
  forall y, y ∈ l1 ++ l2 -> y.1 <> x.1.
Proof.
  intros (_ & _ & S3 & S4 & _)%sorted_split Hsz y Hy. assert (0 <= y.2) by (apply Hsz; set_solver). assert (0 <= x.2) by (apply Hsz; set_solver).
  apply elem_of_app in Hy as [Hy|Hy]; [apply S3 in Hy|apply S4 in Hy]; unfold before, bend, HDR in Hy; lia.
Qed.

Lemma heap_sizes s fl al y : heap_ok s fl al -> y ∈ circle fl -> 0 <= y.2 /\ bend y <= brk (os s).
Proof. intros Hok [->|Hy]%elem_of_cons; [destruct Hok; unfold bend, HDR in *; cbn; lia|]. destruct (ok_free _ _ _ Hok y Hy). lia. Qed.

Lemma circle_low s fl al y : heap_ok s fl al -> y ∈ circle fl -> base <= y.1.
Proof. intros Hok [->|Hy]%elem_of_cons; [done|]. destruct (ok_free _ _ _ Hok y Hy). unfold HDR in *. lia. Qed.

(** An allocated block is not inside a free one. *)
Lemma alloc_place s fl al bp n l1 p m l2 : heap_ok s fl al -> al !! bp = Some n -> circle fl = l1 ++ (p, m) :: l2 -> p < bp ->
  (forall y, y ∈ l2 -> bp < y.1) -> p + HDR * m <= bp /\ (forall y, y ∈ l2 -> bp + HDR * n <= y.1).
Proof.
  intros Hok Hbp E Hp Hl2. assert (Hap : forall y, y ∈ circle fl -> 0 < y.2 -> apart (bp, n) y).
  { intros y [->|Hy]%elem_of_cons Hpos; [by cbn in Hpos|]. by apply (ok_apart _ _ _ Hok). }
  destruct (ok_alloc _ _ _ Hok _ _ Hbp) as (Hn & Hb & _). split.
  - destruct (decide (m = 0)) as [->|]; [unfold HDR; lia|]. destruct (heap_sizes _ _ _ (p, m) Hok) as [Hm _]; [rewrite E; set_solver|]. cbn in Hm.
    specialize (Hap (p, m) ltac:(rewrite E; set_solver) ltac:(cbn; lia)). unfold apart, bend, HDR in *. cbn in *. lia.
  - intros y Hy. assert (Hyl : y ∈ circle fl) by (rewrite E; set_solver). pose proof (Hl2 y Hy) as Hlt.
    assert (0 < y.2). { apply elem_of_cons in Hyl as [->|Hyl]; [cbn in *; unfold HDR in *; lia|]. by apply (ok_free _ _ _ Hok). }
    specialize (Hap y Hyl ltac:(done)). unfold apart, bend, HDR in *. cbn in *. lia.
Qed.

Lemma joined_linked c c' l1 p m l2 bp n n' r : linked c (l1 ++ (p, m) :: l2) base -> absorb bp n l2 = (n', r) ->
  (forall y, y ∈ l1 ++ l2 -> c' y.1 = c y.1) -> (forall y, y ∈ r -> y ∈ l2) ->
  c' p = (if decide (p + HDR * m = bp) then mkHeader (hd_addr r base) (m + n') else mkHeader bp m) ->
  (p + HDR * m <> bp -> c' bp = mkHeader (hd_addr r base) n') ->
  linked c' (l1 ++ joined p m bp n' r) base.
Proof.
  intros [Hl1 [_ Hl2]]%linked_app Ha Hc Hr Hp Hb. assert (Hr2 : linked c r base).
  { destruct l2 as [|[q k] l2]; cbn in Ha; [by simplify_eq|]. destruct (decide (bp + HDR * n = q)); injection Ha as _ <-; [apply Hl2|done]. }
  apply linked_app. split.
  - eapply linked_ext; [|replace (hd_addr (joined p m bp n' r) base) with p; [done|by unfold joined; case_decide]]. intros y Hy. apply Hc. set_solver.
  - assert (linked c' r base) by (eapply linked_ext; [|done]; intros y Hy; apply Hc; set_solver).
    unfold joined. destruct (decide (p + HDR * m = bp)) as [E|E]; cbn; [done|]. split; [done|]. split; [by apply Hb|done].
Qed.

Lemma circle_joined l1 p m l2 fl bp n r : circle fl = l1 ++ (p, m) :: l2 -> base < bp -> exists fl', l1 ++ joined p m bp n r = circle fl' /\ (length fl' + length l2 <= S (length fl) + length r)%nat.
Proof.
  intros E Hb. assert (Hlen : length fl = (length l1 + length l2)%nat) by (apply (f_equal length) in E; rewrite length_app in E; cbn in E; lia).
  unfold joined, circle in *. destruct l1 as [|x l1]; cbn in E; injection E as ? E.
  - simplify_eq. unfold HDR. rewrite decide_False by lia. eexists. split; [done|]. cbn. lia.
  - subst x. eexists. split; [by rewrite <- app_comm_cons|]. rewrite length_app. cbn in Hlen. case_decide; cbn; lia.
Qed.

(** A free block does not start where an allocated one does. *)
Lemma alloc_addr_ne s fl al a k y : heap_ok s fl al -> al !! a = Some k -> y ∈ circle fl -> a <> y.1.
Proof.
  intros Hok Hak Hy ->. destruct (ok_alloc _ _ _ Hok _ _ Hak) as (Hk & Hlow & _). apply elem_of_cons in Hy as [->|Hy]; [cbn in Hlow; unfold HDR in *; lia|].
  pose proof (ok_apart _ _ _ Hok _ _ _ Hak Hy) as Hap. destruct (ok_free _ _ _ Hok _ Hy). unfold apart, bend, HDR in *. cbn in *. lia.
Qed.

(** ** The heap after free has put the block at [bp] after [p] *)
Section Freed.
Context (s s' : uheap B) (fl : list (Z * Z)) (al : gmap Z Z) (bp n : Z) (l1 : list (Z * Z)) (p m : Z) (l2 : list (Z * Z)) (n' : Z) (r : list (Z * Z)).
Context (Hok : heap_ok s fl al) (Hbp : al !! bp = Some n) (E : circle fl = l1 ++ (p, m) :: l2).
Context (Hp : p < bp) (Hl2 : forall y, y ∈ l2 -> bp < y.1) (Ha : absorb bp n l2 = (n', r)).
Context (Hc : forall x, cells s' x = if decide (x = p) then (if decide (p + HDR * m = bp) then mkHeader (hd_addr r base) (m + n') else mkHeader bp m)
    else if decide (x = bp) then mkHeader (hd_addr r base) n' else cells s x).
Context (Hfp : freep s' = p) (Hos : os s' = os s).

#[local] Notation out := (l1 ++ joined p m bp n' r).

(** The hypotheses of the section on lists. *)
Lemma freed_hyps : StronglySorted before (l1 ++ (p, m) :: l2) /\ (forall y, y ∈ l1 ++ (p, m) :: l2 -> 0 <= y.2 /\ bend y <= brk (os s)) /\
  0 < n /\ bp + HDR * n <= brk (os s) /\ p + HDR * m <= bp /\ (forall y, y ∈ l2 -> bp + HDR * n <= y.1) /\ base + HDR <= bp.
Proof using Hok Hbp E Hp Hl2.
  destruct (ok_alloc _ _ _ Hok _ _ Hbp) as (Hn & Hb & Hhi & _). destruct (alloc_place _ _ _ _ _ _ _ _ _ Hok Hbp E Hp Hl2) as [Hpm Hl2'].
  split; [rewrite <- E; apply Hok|]. split; [intros y; rewrite <- E; by apply (heap_sizes _ _ al)|]. done.
Qed.

Lemma freed_linked : linked (cells s') out base.
Proof using All.
  destruct freed_hyps as (Hs & HK & Hn & Hhi & Hpm & Hl2' & Hb). pose proof (ok_list _ _ _ Hok) as Hl. rewrite E in Hl.
  pose proof (absorb_ok _ _ _ _ _ _ _ Hs HK Hn Hhi Hpm Hl2') as (n1 & r1 & Ha1 & _ & Hr & _). rewrite Ha in Ha1. injection Ha1 as <- <-.
  eapply joined_linked; [done|done| |intros y Hy; by apply Hr|by rewrite Hc, decide_True|intros; rewrite Hc, decide_False, decide_True by lia; done].
  intros y Hy. rewrite Hc, decide_False by (apply (sorted_addr_ne _ (p, m) _ Hs); [intros; by apply HK|done]). rewrite decide_False; [done|]. intros Hyb.
  destruct (HK y) as [Hy0 _]; [set_solver|]. apply elem_of_app in Hy as [Hy|Hy]; [|apply Hl2 in Hy; lia].
  apply sorted_split in Hs as (_ & _ & S3 & _). specialize (S3 y Hy). unfold before, bend, HDR in *. cbn in S3. lia.
Qed.

(** The blocks of the new list. *)
Lemma freed_elem y : y ∈ out -> y = (base, 0) \/ 0 < y.2 /\ base + HDR <= y.1 /\ bend y <= brk (os s) /\
  forall a k, delete bp al !! a = Some k -> apart (a, k) y.
Proof using All.
  destruct freed_hyps as (Hs & HK & Hn & Hhi & Hpm & Hl2' & Hb). pose proof (insert_elem _ _ _ _ _ _ _ Hs HK Hn Hhi Hpm Hl2' y) as Hel.
  rewrite Ha in Hel. cbn [fst snd] in Hel. intros Hy. destruct (Hel Hy) as [Hyo|(Hy1 & Hy2 & Hy3 & Hy4)].
  - rewrite <- E in Hyo. apply elem_of_cons in Hyo as [->|Hyo]; [by left|right]. destruct (ok_free _ _ _ Hok _ Hyo) as (? & ? & ?). split_and!; try done.
    intros a k [_ Hak]%lookup_delete_Some. by apply (ok_apart _ _ _ Hok).
  - right. split; [lia|]. split; [|split; [done|]].
    + destruct Hy2 as [->|[-> Hpb]]; [done|]. assert (Hpin : (p, m) ∈ circle fl) by (rewrite E; set_solver).
      apply elem_of_cons in Hpin as [[= -> ->]|Hpin]; [unfold HDR in *; lia|]. by apply (ok_free _ _ _ Hok) in Hpin as (_ & ? & _).
    + intros a k [Hne Hak]%lookup_delete_Some. apply Hy4; [apply (ok_alloc _ _ _ Hok) in Hak; lia|by apply (ok_alloc_apart _ _ _ Hok)|].
      intros z Hz Hz0. rewrite <- E in Hz. apply elem_of_cons in Hz as [->|Hz]; [by cbn in Hz0|]. by apply (ok_apart _ _ _ Hok).
Qed.

Lemma freed_heap fl' : out = circle fl' -> heap_ok s' fl' (delete bp al).
Proof using All.
  intros E'. destruct freed_hyps as (Hs & HK & Hn & Hhi & Hpm & Hl2' & Hb). pose proof freed_linked as Hlk.
  pose proof (insert_sorted _ _ _ _ _ _ _ Hs HK Hn Hhi Hpm Hl2') as Hs'. rewrite Ha in Hs'. cbn [fst snd] in Hs'.
  pose proof freed_elem as Hel. assert (Hpin : p ∈ out.*1) by (rewrite fmap_app; apply elem_of_app; right; unfold joined; case_decide; by left).
  rewrite E' in *. clear E'.
  assert (Hel' : forall y, y ∈ fl' -> 0 < y.2 /\ base + HDR <= y.1 /\ bend y <= brk (os s) /\ forall a k, delete bp al !! a = Some k -> apart (a, k) y).
  { intros y Hy. destruct (Hel y) as [->|]; [by right| |done]. apply StronglySorted_cons in Hs' as [Hs' _]. rewrite Forall_forall in Hs'.
    specialize (Hs' _ Hy). unfold before, bend, HDR in Hs'. cbn in Hs'. lia. }
  split; rewrite ?Hos, ?Hfp; try done.
  - intros y Hy. destruct (Hel' y Hy) as (? & ? & ? & _). done.
  - intros a k [Hne Hak]%lookup_delete_Some. destruct (ok_alloc _ _ _ Hok _ _ Hak) as (? & ? & ? & ?). split_and!; try done.
    rewrite Hc, !decide_False; [done|done|]. apply (alloc_addr_ne _ _ _ _ _ (p, m) Hok Hak). rewrite E. set_solver.
  - intros a k y Hak Hy. by apply Hel'.
  - intros a k a' k' [_ Hak]%lookup_delete_Some [_ Hak']%lookup_delete_Some. by apply (ok_alloc_apart _ _ _ Hok).
  - apply Hok.
Qed.

Lemma freed_ok : exists fl', heap_ok s' fl' (delete bp al) /\ os s' = os s /\
  (forall x, covers fl' x <-> covers fl x \/ bp <= x < bp + HDR * n) /\ (length fl' <= S (length fl))%nat /\ exists y, y ∈ fl' /\ n <= y.2.
Proof using All.
  destruct freed_hyps as (Hs & HK & Hn & Hhi & Hpm & Hl2' & Hb).
  pose proof (insert_covers _ _ _ _ _ _ _ Hs HK Hn Hhi Hpm Hl2') as Hcov. destruct (insert_has _ _ _ _ _ _ _ Hs HK Hn Hhi Hpm Hl2') as (w & Hw & Hwn).
  rewrite Ha in Hcov, Hw. cbn [fst snd] in *. destruct (circle_joined l1 p m l2 fl bp n' r E ltac:(unfold HDR in *; lia)) as (fl' & E' & Hlen).
  exists fl'. split; [by apply freed_heap|]. split; [done|]. rewrite E' in Hcov, Hw. split; [|split].
  - intros x. rewrite <- covers_circle, Hcov, <- E, covers_circle. done.
  - destruct l2 as [|[q k] l2']; cbn in Ha; [injection Ha as _ <-; cbn in Hlen; lia|]. destruct (decide (bp + HDR * n = q)); injection Ha as _ <-; cbn in Hlen; lia.
  - exists w. split; [|done]. apply elem_of_cons in Hw as [->|]; [cbn in Hwn; lia|done].
Qed.
End Freed.

Lemma free_wp fuel bp n L s fl al : heap_ok s fl al -> al !! bp = Some n -> (length (circle fl) < fuel)%nat ->
  wp (free fuel (bp + HDR)) L s (fun _ s' => exists fl', heap_ok s' fl' (delete bp al) /\ os s' = os s /\
    (forall x, covers fl' x <-> covers fl x \/ bp <= x < bp + HDR * n) /\ (length fl' <= S (length fl))%nat /\ exists y, y ∈ fl' /\ n <= y.2).
Proof.
  intros Hok Hbp Hk. destruct (ok_alloc _ _ _ Hok _ _ Hbp) as (Hn & Hb & Hhi & Hsz). pose proof (ok_top _ _ _ Hok) as Htop.
  unfold free. replace (bp + HDR - HDR) with bp by lia. wsteps.
  assert (Hbb : base < bp) by (unfold HDR in *; lia).
  eapply wpl_call; [apply (search_wp _ _ _ _ _ fl al); [done|apply Hok|done| |done]|].
  { intros x Hx Heq. pose proof (ok_apart _ _ _ Hok _ _ _ Hbp Hx). destruct (ok_free _ _ _ Hok _ Hx). unfold apart, bend, HDR in *. cbn in *. lia. }
  intros p s1 (-> & l1 & m & l2 & E & Hp & Hl2). cbv beta.
  destruct (alloc_place _ _ _ _ _ _ _ _ _ Hok Hbp E Hp Hl2) as [Hpm Hl2'].
  assert (HK : forall y, y ∈ l1 ++ (p, m) :: l2 -> 0 <= y.2 /\ bend y <= brk (os s)) by (intros y; rewrite <- E; by apply (heap_sizes _ _ al)).
  pose proof (ok_sorted _ _ _ Hok) as Hs. pose proof (ok_list _ _ _ Hok) as Hl. rewrite E in Hs, Hl.
  pose proof (sorted_addr_ne _ _ _ Hs ltac:(intros; by apply HK)) as Hne. destruct (HK (p, m)) as [Hm _]; [set_solver|]. cbn in Hm, Hne.
  pose proof Hl as [_ [Hcp Hll2]]%linked_app. cbn in Hcp.
  destruct (absorb_ok _ _ _ _ _ _ _ Hs HK Hn Hhi Hpm Hl2') as (n' & r & Ha & Hn' & Hr & _ & Hcase).
  assert (Hn'hi : 0 <= m + n' < 2 ^ 32).
  { assert (bp + HDR * n' <= brk (os s)). { destruct Hcase as [[-> _]|(k & -> & -> & Hk0)]; [done|]. destruct (HK (bp + HDR * n, k)) as [_ Hh]; [set_solver|]. unfold bend, HDR in *. cbn in Hh. lia. }
    assert (base <= p) by (apply (circle_low _ _ _ (p, m) Hok); rewrite E; set_solver). unfold HEAP_LIMIT, HDR in *. lia. }
  wstep. eapply wpl_call; [eapply (join_right_wp bp p n l2); [done|by rewrite Hcp|done|unfold HDR in *; lia|]|].
  { intros y Hy. specialize (Hl2 y Hy). specialize (Hl2' y Hy). destruct (HK y) as [Hy0 Hyh]; [set_solver|]. unfold bend, HEAP_LIMIT, HDR in *. lia. }
  intros ? s1 (Hc1 & Hf1 & Ho1). rewrite Ha in Hc1. cbn [fst snd] in Hc1. wstep.
  eapply wpl_call; [eapply (join_left_wp bp p n' m (hd_addr r base)); [by rewrite Hc1, decide_True|by rewrite Hc1, decide_False, Hcp by lia|lia|done]|].
  intros ? s2 (Hc2 & Hf2 & Ho2). wsteps. split; [done|].
  eapply (freed_ok s); try done; [|cbn; congruence]. intros x. cbn. rewrite Hc2, Hc1. done.
Qed.

(** * malloc *)

(** ** The heap after [n] units of the block at [p] have been taken *)
Section Taken.
Context (s s' : uheap B) (fl : list (Z * Z)) (al : gmap Z Z) (l1 : list (Z * Z)) (prevp m p k : Z) (l3 : list (Z * Z)) (n : Z) (rest : list (Z * Z)) (q : Z).
Context (Hok : heap_ok s fl al) (E : circle fl = l1 ++ (prevp, m) :: (p, k) :: l3) (Hn : 0 < n).
Context (Hrest : rest = l3 /\ q = p /\ n = k \/ rest = (p, k - n) :: l3 /\ q = p + HDR * (k - n) /\ n < k).
Context (Hprev : cells s' prevp = mkHeader (hd_addr rest base) m) (Hcp : n < k -> cells s' p = mkHeader (hd_addr l3 base) (k - n)).
Context (Hcq : h_size (cells s' q) = n) (Hc : forall x, x <> prevp -> x <> p -> x <> q -> cells s' x = cells s x).
Context (Hfp : freep s' = prevp) (Hos : os s' = os s).

Lemma taken_in : (p, k) ∈ fl.
Proof using All.
  pose proof (f_equal tail E) as E'. cbn in E'. rewrite E'. destruct l1; set_solver.
Qed.

(** Where the pieces are. *)
Lemma taken_place : n <= k /\ p <= q /\ q + HDR * n = p + HDR * k /\ base + HDR <= p /\ p + HDR * k <= brk (os s) /\ prevp + HDR * m < p /\ 0 <= m /\
  StronglySorted before (l1 ++ (prevp, m) :: l3) /\ (forall y, y ∈ l1 -> bend y < prevp /\ 0 <= y.2) /\ (forall y, y ∈ l3 -> p + HDR * k < y.1 /\ y ∈ fl).
Proof using All.
  pose proof (ok_sorted _ _ _ Hok) as Hs. rewrite E in Hs. pose proof Hs as (S1 & S2 & S3 & S4 & S5)%sorted_split.
  destruct (ok_free _ _ _ Hok _ taken_in) as (_ & Hlo & Hhi). pose proof (S4 (p, k) ltac:(by left)) as Hpp. unfold before, bend, HDR in *. cbn in *.
  destruct (heap_sizes _ _ _ (prevp, m) Hok) as [Hm _]; [rewrite E; set_solver|]. cbn in Hm. apply StronglySorted_cons in S2 as [F2 S2]. rewrite Forall_forall in F2.
  assert (n <= k /\ p <= q /\ q + 16 * n = p + 16 * k) by (destruct Hrest as [(-> & -> & ->)|(-> & -> & ?)]; lia).
  split_and!; try (by lia); try tauto.
  - apply sorted_split. split_and!; try done; [intros y Hy; apply S4; by right|intros y z Hy Hz; apply S5; [done|by right]].
  - intros y Hy. destruct (heap_sizes _ _ _ y Hok) as [Hy0 _]; [rewrite E; set_solver|]. split; [by apply S3 in Hy|done].
  - intros y Hy. split; [by apply F2 in Hy|]. pose proof (f_equal tail E) as E'. cbn in E'. rewrite E'. destruct l1; set_solver.
Qed.

Lemma rest_elem y : y ∈ rest -> y ∈ l3 \/ y = (p, k - n) /\ n < k.
Proof using All. destruct Hrest as [(-> & _)|(-> & _ & ?)]; set_solver. Qed.

Lemma taken_linked : linked (cells s') (l1 ++ (prevp, m) :: rest) base.
Proof using All.
  destruct taken_place as (T1 & T2 & T3 & T4 & T5 & T6 & T7 & T8 & T9 & T10). pose proof (ok_list _ _ _ Hok) as Hl. rewrite E in Hl.
  apply linked_app in Hl as [Hl1 (_ & _ & Hl3)]. apply linked_app. split.
  - eapply linked_ext; [|done]. intros y Hy. destruct (T9 y Hy). unfold bend, HDR in *. apply Hc; lia.
  - split; [done|]. assert (linked (cells s') l3 base). { eapply linked_ext; [|done]. intros y Hy. destruct (T10 y Hy). unfold HDR in *. apply Hc; lia. }
    destruct Hrest as [(-> & _)|(-> & _ & Hlt)]; [done|]. split; [by apply Hcp|done].
Qed.

Lemma taken_sorted : StronglySorted before (l1 ++ (prevp, m) :: rest).
Proof using All.
  destruct taken_place as (T1 & T2 & T3 & T4 & T5 & T6 & T7 & T8 & T9 & T10). destruct Hrest as [(-> & _)|(-> & _ & Hlt)]; [done|].
  pose proof T8 as (S1 & S2 & S3 & S4 & S5)%sorted_split. apply sorted_split. split_and!; try done.
  - apply StronglySorted_cons. split; [|done]. rewrite Forall_forall. intros y Hy. destruct (T10 y Hy). unfold before, bend, HDR in *. cbn. lia.
  - intros y [->|Hy]%elem_of_cons; [|by apply S4]. unfold before, bend, HDR in *. cbn. lia.
  - intros y z Hy [->|Hz]%elem_of_cons; [|by apply S5]. destruct (T9 y Hy). unfold before, bend, HDR in *. cbn. lia.
Qed.

Lemma taken_covers x : covers fl x <-> covers (l1 ++ (prevp, m) :: rest) x \/ q <= x < q + HDR * n.
Proof using All.
  destruct taken_place as (T1 & T2 & T3 & T4 & T5 & T6 & T7 & T8 & T9 & T10). rewrite <- covers_circle, E.
  destruct Hrest as [(-> & Hq & Hk)|(-> & Hq & Hlt)]; rewrite !covers_app, !covers_cons; unfold bend, HDR in *; cbn; naive_solver lia.
Qed.

Lemma taken_free y : y ∈ l1 ++ (prevp, m) :: rest -> y = (base, 0) \/ 0 < y.2 /\ base + HDR <= y.1 /\ bend y <= brk (os s) /\ apart (q, n) y /\
  forall a j, al !! a = Some j -> apart (a, j) y.
Proof using All.
  destruct taken_place as (T1 & T2 & T3 & T4 & T5 & T6 & T7 & T8 & T9 & T10). intros Hy.
  assert (Hcase : y ∈ fl /\ (bend y <= p \/ p + HDR * k < y.1) \/ y = (base, 0) \/ y = (p, k - n) /\ n < k).
  { assert (Hy' : y ∈ l1 ++ [(prevp, m)] \/ y ∈ rest) by set_solver. destruct Hy' as [Hy'|Hy'].
    - assert (Hyc : y ∈ circle fl) by (rewrite E; set_solver). apply elem_of_cons in Hyc as [->|Hyc]; [by right; left|]. left. split; [done|left].
      apply elem_of_app in Hy' as [Hy'| ->%list_elem_of_singleton]; [destruct (T9 y Hy')|]; unfold bend, HDR in *; cbn; lia.
    - apply rest_elem in Hy' as [Hy'|Hy']; [|by right; right]. left. destruct (T10 y Hy'). split; [done|by right]. }
  destruct Hcase as [[Hyf Hd]|[->|[-> Hlt]]]; [right|by left|right].
  - destruct (ok_free _ _ _ Hok _ Hyf) as (? & ? & ?). split_and!; try done; [unfold apart, bend, HDR in *; cbn; lia|]. intros a j Ha. by apply (ok_apart _ _ _ Hok).
  - cbn. split; [lia|]. split; [done|]. unfold bend. cbn. split; [unfold HDR in *; lia|]. split; [unfold apart, bend, HDR in *; cbn; lia|].
    intros a j Ha. pose proof (ok_apart _ _ _ Hok _ _ _ Ha taken_in) as Hap. destruct (ok_alloc _ _ _ Hok _ _ Ha) as (Hj & _). unfold apart, bend, HDR in *. cbn in *. lia.
Qed.

Lemma taken_apart a j : al !! a = Some j -> apart (a, j) (q, n) /\ a <> prevp /\ a <> p /\ a <> q.
Proof using All.
  intros Ha. destruct taken_place as (T1 & T2 & T3 & _). pose proof (ok_apart _ _ _ Hok _ _ _ Ha taken_in) as Hap. destruct (ok_alloc _ _ _ Hok _ _ Ha) as (Hj & _).
  assert (a <> prevp) by (apply (alloc_addr_ne _ _ _ _ _ (prevp, m) Hok Ha); rewrite E; set_solver). unfold apart, bend, HDR in *. cbn in *. lia.
Qed.

Lemma taken_ok : exists fl', al !! q = None /\ heap_ok s' fl' (<[q := n]> al) /\ forall x, covers fl x <-> covers fl' x \/ q <= x < q + HDR * n.
Proof using All.
  assert (exists fl', l1 ++ (prevp, m) :: rest = circle fl') as [fl' E'].
  { pose proof (f_equal head E) as Eh. unfold circle. destruct l1 as [|x l]; cbn in Eh; injection Eh as Eh; [exists rest|exists (l ++ (prevp, m) :: rest)]; cbn; congruence. }
  destruct taken_place as (T1 & T2 & T3 & T4 & T5 & T6 & T7 & _). pose proof taken_linked as Hl. pose proof taken_sorted as Hs. pose proof taken_covers as Hcov.
  pose proof taken_free as Hf. assert (Hpin : prevp ∈ (l1 ++ (prevp, m) :: rest).*1) by (rewrite fmap_app; set_solver). rewrite E' in *. clear E'.
  assert (Hf' : forall y, y ∈ fl' -> 0 < y.2 /\ base + HDR <= y.1 /\ bend y <= brk (os s) /\ apart (q, n) y /\ forall a j, al !! a = Some j -> apart (a, j) y).
  { intros y Hy. destruct (Hf y) as [->|]; [by right| |done]. apply StronglySorted_cons in Hs as [Hs _]. rewrite Forall_forall in Hs.
    specialize (Hs _ Hy). unfold before, bend, HDR in Hs. cbn in Hs. lia. }
  exists fl'. split; [|split; [split; rewrite ?Hos, ?Hfp; try done|intros x; by rewrite Hcov, covers_circle]].
  - destruct (al !! q) as [j|] eqn:Ha; [|done]. apply taken_apart in Ha. tauto.
  - intros y Hy. destruct (Hf' y Hy) as (? & ? & ? & _). done.
  - intros a j [[<- <-]|[_ Ha]]%lookup_insert_Some; [split_and!; try done; unfold HDR in *; lia|]. destruct (ok_alloc _ _ _ Hok _ _ Ha) as (? & ? & ? & ?).
    split_and!; try done. apply taken_apart in Ha as (_ & ? & ? & ?). by rewrite Hc.
  - intros a j y [[<- <-]|[_ Ha]]%lookup_insert_Some Hy; destruct (Hf' y Hy) as (_ & _ & _ & Hq1 & Hq2); [done|by apply Hq2].
  - intros a j a' j' [[<- <-]|[_ Ha]]%lookup_insert_Some [[<- <-]|[_ Ha']]%lookup_insert_Some Hne; [done| | |by apply (ok_alloc_apart _ _ _ Hok)].
    + apply taken_apart in Ha' as [Ha' _]. unfold apart in *. tauto.
    + by apply taken_apart in Ha as [Ha _].
  - apply Hok.
Qed.
End Taken.

Lemma take_block_wp n prevp L s fl al : heap_ok s fl al -> prevp ∈ (circle fl).*1 -> 0 < n -> n <= h_size (cells s (h_ptr (cells s prevp))) ->
  wp (take_block n prevp (h_ptr (cells s prevp))) L s (fun r s' => exists q fl', r = q + HDR /\ al !! q = None /\ heap_ok s' fl' (<[q := n]> al) /\
    os s' = os s /\ forall x, covers fl x <-> covers fl' x \/ q <= x < q + HDR * n).
Proof.
  intros Hok ([prev m] & -> & (l1 & l2 & E)%list_elem_of_split)%list_elem_of_fmap Hn. cbn [fst]. pose proof (ok_list _ _ _ Hok) as Hl.
  pose proof Hl as Hb. destruct Hb as [Hb _]. cbn in Hb. rewrite E in Hl. apply linked_app in Hl as [_ [Hprev Hl2]]. cbn in Hprev. rewrite Hprev. cbn [h_ptr].
  destruct l2 as [|[p k] l3]; cbn [hd_addr fst]; [rewrite Hb; cbn; lia|]. destruct Hl2 as [Hp _]. cbn in Hp. rewrite Hp. cbn [h_size]. intros Hk.
  assert (Hin : (p, k) ∈ fl) by (pose proof (f_equal tail E) as E'; cbn in E'; rewrite E'; destruct l1; set_solver).
  destruct (ok_free _ _ _ Hok _ Hin) as (_ & Hlo & Hhi). pose proof (ok_top _ _ _ Hok) as Htop. unfold bend, HEAP_LIMIT, HDR in *. cbn in Hlo, Hhi.
  assert (Hlt : prev + 16 * m < p). { pose proof (ok_sorted _ _ _ Hok) as Hs. rewrite E in Hs. apply sorted_split in Hs as (_ & _ & _ & S4 & _). by apply (S4 (p, k)); left. }
  assert (0 <= m) by (apply (heap_sizes _ _ _ (prev, m) Hok); rewrite E; set_solver).
  unfold take_block, get_size, get_ptr, set_size, set_ptr, set_freep. wsteps. rewrite Hp. cbn [h_size]. destruct (decide (k = n)) as [->|Hne].
  - wsteps. split; [done|]. rewrite Hp, Hprev. cbn [h_ptr h_size].
    match goal with |- context [heap_ok ?st _ _] => destruct (taken_ok s st fl al l1 prev m p n l3 n l3 p) as (fl' & H1 & H2 & H3); try done end.
    + by left.
    + cbn [cells]. by rewrite upd_cell_at, decide_True.
    + lia.
    + cbn [cells]. by rewrite upd_cell_at, decide_False, Hp by lia.
    + intros x H1 H2 H3. cbn [cells]. by rewrite upd_cell_at, decide_False.
    + by exists p, fl'.
  - wsteps. split; [done|]. rewrite Hp. cbn [h_ptr h_size]. unfold u32. rewrite !Z.mod_small by lia. rewrite upd_cell_at, decide_True by done. cbn [h_size].
    match goal with |- context [heap_ok ?st _ _] => destruct (taken_ok s st fl al l1 prev m p k l3 n ((p, k - n) :: l3) (p + 16 * (k - n))) as (fl' & H1 & H2 & H3); try done end.
    + right. split; [done|]. unfold HDR. lia.
    + cbn [cells]. rewrite !upd_cell_at, !decide_False by (unfold HDR; lia). done.
    + intros _. cbn [cells]. rewrite !upd_cell_at, decide_False, decide_True by (unfold HDR; lia). done.
    + cbn [cells]. by rewrite upd_cell_at, decide_True.
    + intros x H1 H2 H3. cbn [cells]. by rewrite !upd_cell_at, !decide_False.
    + by exists (p + 16 * (k - n)), fl'.
Qed.

(** What is left of the circle after the block at [freep]. *)
Lemma rotation s fl al : heap_ok s fl al -> exists t, linked (cells s) t (freep s) /\ hd_addr t (freep s) = h_ptr (cells s (freep s)) /\
  length t = length fl /\ (forall y, y ∈ t -> y ∈ circle fl /\ y.1 <> freep s) /\ forall y, y ∈ circle fl -> y ∈ t \/ y = (freep s, h_size (cells s (freep s))).
Proof.
  intros Hok. pose proof (ok_freep _ _ _ Hok) as ([f m] & -> & Hf)%list_elem_of_fmap. apply list_elem_of_split in Hf as (l1 & l2 & E). cbn [fst].
  pose proof (ok_list _ _ _ Hok) as Hl. pose proof (ok_sorted _ _ _ Hok) as Hs. rewrite E in Hl, Hs. apply linked_app in Hl as [Hl1 [Hf Hl2]]. cbn in Hf, Hl1.
  pose proof (sorted_addr_ne _ _ _ Hs ltac:(intros y; rewrite <- E; by apply (heap_sizes s fl al))) as Hne. cbn in Hne.
  assert (Hhd : hd_addr l1 f = base) by (pose proof (f_equal head E) as Eh; destruct l1; cbn in Eh; injection Eh as Eh; [done|by rewrite <- Eh]).
  exists (l2 ++ l1). rewrite Hf. cbn [h_ptr h_size]. split; [apply linked_app; by rewrite Hhd|]. split; [by rewrite hd_addr_app, Hhd|].
  split; [apply (f_equal length) in E; rewrite length_app in E |- *; cbn in E; lia|]. rewrite E. split; [|set_solver]. intros y Hy. split; [set_solver|]. apply Hne. set_solver.
Qed.

Lemma grow_ok s s' fl al p nu : heap_ok s fl al -> p = brk (os s) -> brk (os s') = p + HDR * nu -> p + HDR * nu <= HEAP_LIMIT -> 0 < nu ->
  (forall x, x <> p -> cells s' x = cells s x) -> h_size (cells s' p) = nu -> freep s' = freep s -> al !! p = None /\ heap_ok s' fl (<[p := nu]> al).
Proof.
  intros Hok Hp Hb Htop Hnu Hc Hcp Hfp.
  assert (Hcell : forall y, y ∈ circle fl -> cells s' y.1 = cells s y.1).
  { intros y Hy. apply Hc. apply elem_of_cons in Hy as [->|Hy]; [destruct (ok_top _ _ _ Hok); unfold HDR in *; cbn; lia|].
    destruct (ok_free _ _ _ Hok _ Hy) as (? & ? & ?). unfold bend, HDR in *. lia. }
  assert (Hal : forall a n, al !! a = Some n -> 0 < n /\ a + HDR * n <= p) by (intros a n Ha; destruct (ok_alloc _ _ _ Hok _ _ Ha) as (? & ? & ? & ?); lia).
  assert (Hfl : forall y, y ∈ fl -> bend y <= p) by (intros y Hy; destruct (ok_free _ _ _ Hok _ Hy) as (? & ? & ?); lia).
  split; [destruct (al !! p) eqn:Ha; [destruct (Hal _ _ Ha); unfold HDR in *; lia|done]|]. pose proof (ok_top _ _ _ Hok) as Ht. split; rewrite ?Hb, ?Hfp; try apply Hok.
  - eapply linked_ext; [done|apply Hok].
  - intros y Hy. specialize (Hfl y Hy). destruct (ok_free _ _ _ Hok _ Hy) as (? & ? & ?). unfold HDR in *. lia.
  - intros a n [[<- <-]|[Hne Ha]]%lookup_insert_Some; [unfold HDR in *; lia|]. destruct (ok_alloc _ _ _ Hok _ _ Ha) as (? & ? & ? & ?). rewrite Hc by done. unfold HDR in *. lia.
  - intros a n y [[<- <-]|[Hne Ha]]%lookup_insert_Some Hy; [|by apply (ok_apart _ _ _ Hok)]. specialize (Hfl y Hy). right. by cbn.
  - intros a n a' n' [[<- <-]|[Hne Ha]]%lookup_insert_Some [[<- <-]|[Hne' Ha']]%lookup_insert_Some Hd; [done| | |by apply (ok_alloc_apart _ _ _ Hok)].
    + right. by apply Hal.
    + left. by apply Hal.
  - unfold HDR in *. lia.
Qed.

Lemma do_sbrk_wp n L s : wp (do_sbrk n) L s (fun r s' => r = (sbrk n (os s)).1 /\ s' = mkHeap (cells s) (freep s) (sbrk n (os s)).2).
Proof. done. Qed.

Lemma morecore_wp fuel nu L s fl al : heap_ok s fl al -> 0 < nu -> HDR * nu < 2 ^ 31 -> (length (circle fl) < fuel)%nat ->
  wp (morecore fuel nu) L s (fun r s' =>
    r = 0 /\ heap_ok s' fl al /\ brk (os s') = brk (os s) \/
    r = freep s' /\ r <> 0 /\ exists fl', heap_ok s' fl' al /\ (exists y, y ∈ fl' /\ nu <= y.2) /\ (length fl' <= S (length fl))%nat /\
      brk (os s) <= brk (os s') /\ forall x, covers fl' x <-> covers fl x \/ brk (os s) <= x < brk (os s')).
Proof.
  intros Hok Hnu Hsz Hk. unfold morecore. set (u := if decide (nu < 4096) then 4096 else nu).
  assert (Hu : nu <= u /\ 0 < HDR * u < 2 ^ 31) by (unfold u, HDR in *; case_decide; lia).
  replace (s32 (u64 (u * HDR))) with (HDR * u) by (rewrite u64_small, s32_small; unfold HDR in *; lia).
  pose proof (ok_top _ _ _ Hok) as Ht. wsteps. eapply wpl_call; [apply do_sbrk_wp|]. intros r s1 [-> ->].
  destruct (sbrk_grows (HDR * u) (os s) ltac:(lia)) as [[E1 E2]|(E1 & E2 & E3)]; rewrite E1.
  { wtrue; [|done]. wsteps. split; [done|left]. split; [done|]. split; [|done]. destruct Hok. split; cbn; rewrite ?E2; done. }
  wfalse; [|unfold SBRK_ERROR, HDR in *; lia]. unfold set_size. wsteps.
  match goal with |- wpl _ _ ?st _ => destruct (grow_ok s st fl al (brk (os s)) u) as [Hnone Hok1]; try done end.
  { cbn. lia. }
  { intros x Hx. by rewrite upd_cell_at, decide_False. }
  { by rewrite upd_cell_at, decide_True. }
  eapply wpl_call; [eapply (free_wp _ _ u); [done|apply lookup_insert_eq|done]|].
  intros _ s2 (fl' & Hok2 & Hos2 & Hcov & Hlen & y & Hy & Hyu). rewrite delete_insert_id in Hok2 by done. wsteps. split; [done|right]. split; [done|]. split.
  { pose proof (ok_freep _ _ _ Hok2) as (z & -> & Hz)%list_elem_of_fmap. pose proof (circle_low _ _ _ _ Hok2 Hz). lia. }
  exists fl'. split; [done|]. split; [exists y; split; [done|lia]|]. split; [done|]. rewrite Hos2. cbn. rewrite E2. split; [lia|]. done.
Qed.

(** A block of [n] units was handed out, after the heap grew from [b]. *)
Definition handed (n : Z) (fl : list (Z * Z)) (al : gmap Z Z) (b r : Z) (s' : uheap B) : Prop :=
  exists q fl', r = q + HDR /\ al !! q = None /\ heap_ok s' fl' (<[q := n]> al) /\ b <= brk (os s') /\
    forall x, covers fl x \/ b <= x < brk (os s') <-> covers fl' x \/ q <= x < q + HDR * n.

Section Search.
Context (k : nat) (n : Z) (Hn : 0 < n) (Hsz : HDR * n < 2 ^ 31).

Lemma body_takes prevp L s fl al : heap_ok s fl al -> prevp ∈ (circle fl).*1 -> n <= h_size (cells s (h_ptr (cells s prevp))) ->
  wp (malloc_body k n (prevp, h_ptr (cells s prevp))) L s (fun r s' => exists a, r = inr a /\ handed n fl al (brk (os s)) a s').
Proof using Hn.
  intros Hok Hp Hsize. unfold malloc_body, get_size. wsteps. wtrue; [|lia]. wsteps. eapply wpl_call; [by apply take_block_wp|].
  intros r s' (q & fl' & -> & Hq & Hok' & Hos & Hcov). wsteps. split; [done|]. eexists. split; [done|]. exists q, fl'. split_and!; try done; rewrite Hos; [done|].
  intros x. rewrite <- Hcov. naive_solver lia.
Qed.

Lemma body_passes prevp y nx L s : h_ptr (cells s prevp) = y.1 -> cells s y.1 = mkHeader nx y.2 -> ~ n <= y.2 -> y.1 <> freep s ->
  wp (malloc_body k n (prevp, h_ptr (cells s prevp))) L s (fun r s' => s' = s /\ r = inl (y.1, nx)).
Proof.
  intros Hpt Hy Hlt Hne. unfold malloc_body, get_size, get_ptr. wsteps. rewrite Hpt, Hy. cbn [h_size h_ptr].
  wfalse; [|lia]. wsteps. wfalse; [|done]. wsteps. by rewrite Hy.
Qed.

(** The circle holds a block that is large enough, ahead of the search. *)
Lemma loop_takes t : forall fuel prevp L s fl al, heap_ok s fl al -> prevp ∈ (circle fl).*1 -> linked (cells s) t (freep s) ->
  h_ptr (cells s prevp) = hd_addr t (freep s) -> (forall y, y ∈ t -> y ∈ circle fl /\ y.1 <> freep s) ->
  (exists y, y ∈ t /\ n <= y.2) \/ n <= h_size (cells s (freep s)) -> (length t < fuel)%nat ->
  wp (loop fuel (malloc_body k n) (prevp, h_ptr (cells s prevp))) L s (handed n fl al (brk (os s))).
Proof using Hn.
  induction t as [|y t IH]; intros fuel prevp L s fl al Hok Hp Hl Hpt Ht Hbig Hk; (destruct fuel as [|fuel]; [cbn in Hk; lia|]); rewrite loop_S; wsteps.
  - destruct Hbig as [(y & ?%not_elem_of_nil & _)|Hbig]; [done|]. cbn in Hpt. eapply wpl_call; [apply (body_takes _ _ _ fl al); [done|done|by rewrite Hpt]|].
    intros r s' (a & -> & Ha). wsteps. done.
  - destruct Hl as [Hy Hl]. cbn in Hpt. destruct (Ht y) as [Hyin Hyne]; [by left|]. destruct (decide (n <= y.2)) as [Hle|Hlt].
    { eapply wpl_call; [apply (body_takes _ _ _ fl al); [done|done|by rewrite Hpt, Hy]|]. intros r s' (a & -> & Ha). wsteps. done. }
    eapply wpl_call; [by apply (body_passes _ y (hd_addr t (freep s)))|].
    intros r s' [-> ->]. replace (hd_addr t (freep s)) with (h_ptr (cells s y.1)) by by rewrite Hy. apply IH; try done.
    + by apply list_elem_of_fmap_2.
    + by rewrite Hy.
    + intros z Hz. apply Ht. by right.
    + destruct Hbig as [(z & [->|Hz]%elem_of_cons & Hzn)|?]; [done| |by right]. left. by exists z.
    + cbn in Hk. lia.
Qed.

(** The blocks ahead of the search are [t] and the one at [freep]; the others are
    too small. *)
Lemma loop_searches t : forall fuel prevp L s fl al, heap_ok s fl al -> prevp ∈ (circle fl).*1 -> linked (cells s) t (freep s) ->
  h_ptr (cells s prevp) = hd_addr t (freep s) -> (forall y, y ∈ t -> y ∈ circle fl /\ y.1 <> freep s) ->
  (forall y, y ∈ circle fl -> y ∈ t \/ y = (freep s, h_size (cells s (freep s))) \/ y.2 < n) ->
  (length t + length fl + 2 < fuel)%nat -> (length (circle fl) < k)%nat ->
  wp (loop fuel (malloc_body k n) (prevp, h_ptr (cells s prevp))) L s (fun r s' =>
    r = 0 /\ heap_ok s' fl al /\ brk (os s') = brk (os s) /\ (forall y, y ∈ fl -> y.2 < n) \/ handed n fl al (brk (os s)) r s').
Proof using Hn Hsz.
  induction t as [|y t IH]; intros fuel prevp L s fl al Hok Hp Hl Hpt Ht Hall Hk Hkk; (destruct fuel as [|fuel]; [cbn in Hk; lia|]); rewrite loop_S; wsteps.
  - cbn in Hpt. destruct (decide (n <= h_size (cells s (freep s)))) as [Hle|Hlt].
    { eapply wpl_call; [apply (body_takes _ _ _ fl al); [done|done|by rewrite Hpt]|]. intros r s' (a & -> & Ha). wsteps. split; [done|by right]. }
    unfold malloc_body at 1. unfold get_size, get_ptr. wsteps. rewrite Hpt. wfalse; [|lia]. wsteps. wtrue; [|done]. wsteps.
    eapply wpl_call; [by apply morecore_wp|]. intros r s1 [(-> & Hok1 & Hbrk)|(-> & Hr & fl' & Hok1 & Hbig & Hlen & Hbrk & Hcov)].
    { wtrue; [|done]. wsteps. split; [done|left]. split_and!; try done. intros y Hy. destruct (Hall y) as [?%not_elem_of_nil|[->|?]]; [by right|done|cbn; lia|done]. }
    wfalse; [|done]. wsteps. destruct (rotation _ _ _ Hok1) as (t & Hl1 & Hhd & Hlt1 & Ht1 & Hall1).
    eapply wpl_call; [apply (loop_takes t _ _ _ _ fl' al); try done; [apply Hok1| |]|].
    + destruct Hbig as (y & Hy & Hyn). destruct (Hall1 y) as [Hyt| ->]; [by right|left; by exists y|by right].
    + lia.
    + intros r s2 (q & fl2 & -> & Hq & Hok2 & Hb2 & Hcov2). wsteps. split; [done|right]. exists q, fl2. split_and!; try done; [lia|].
      intros x. rewrite <- Hcov2, Hcov. naive_solver lia.
  - destruct Hl as [Hy Hl]. cbn in Hpt. destruct (Ht y) as [Hyin Hyne]; [by left|]. destruct (decide (n <= y.2)) as [Hle|Hlt].
    { eapply wpl_call; [apply (body_takes _ _ _ fl al); [done|done|by rewrite Hpt, Hy]|]. intros r s' (a & -> & Ha). wsteps. split; [done|by right]. }
    eapply wpl_call; [by apply (body_passes _ y (hd_addr t (freep s)))|].
    intros r s' [-> ->]. replace (hd_addr t (freep s)) with (h_ptr (cells s y.1)) by by rewrite Hy. apply IH; try done.
    + by apply list_elem_of_fmap_2.
    + by rewrite Hy.
    + intros z Hz. apply Ht. by right.
    + intros z Hz. destruct (Hall z Hz) as [[->|?]%elem_of_cons|[?|?]]; [right; right; lia|by left|by right; left|by right; right].
    + cbn in Hk. lia.
Qed.
End Search.

(** Before the first call. *)
Definition untouched (s : uheap B) : Prop := freep s = 0 /\ 0 < base /\ base + HDR <= brk (os s) <= HEAP_LIMIT.

Definition heap_inv (s : uheap B) (al : gmap Z Z) : Prop := untouched s /\ al = ∅ \/ exists fl, heap_ok s fl al.

Definition units (nbytes : Z) : Z := (nbytes + HDR - 1) / HDR + 1.

Lemma units_spec nbytes : 0 <= nbytes < 2 ^ 31 - 32 -> u32 (units nbytes) = units nbytes /\ 0 < units nbytes /\ HDR * units nbytes < 2 ^ 31 /\ nbytes + HDR <= HDR * units nbytes.
Proof. intros Hb. unfold units, HDR. rewrite u32_small; zdiv. Qed.

Lemma malloc_rest fuel n L s fl al : heap_ok s fl al -> 0 < n -> HDR * n < 2 ^ 31 -> (2 * length fl + 2 < fuel)%nat ->
  wp (prevp ← gets freep; p ← get_ptr prevp; loop fuel (malloc_body fuel n) (prevp, p)) L s (fun r s' =>
    r = 0 /\ heap_ok s' fl al /\ brk (os s') = brk (os s) /\ (forall y, y ∈ fl -> y.2 < n) \/ handed n fl al (brk (os s)) r s').
Proof.
  intros Hok Hn Hsz Hk. unfold get_ptr. wsteps. destruct (rotation _ _ _ Hok) as (t & Hl & Hhd & Hlen & Ht & Hall). apply (loop_searches _ _ Hn Hsz t); try done.
  - apply Hok.
  - intros y Hy. destruct (Hall y Hy); tauto.
  - lia.
  - cbn. lia.
Qed.

Lemma untouched_ok s s' : untouched s -> cells s' base = mkHeader base 0 -> freep s' = base -> os s' = os s -> heap_ok s' [] ∅.
Proof.
  intros (Hf & Hb & Ht) Hc Hf' Hos. split; rewrite ?Hos; cbn; try done.
  - apply StronglySorted_cons. split; [by apply Forall_nil|constructor].
  - rewrite Hf'. by left.
  - by intros x ?%not_elem_of_nil.
Qed.

Lemma malloc_wp nbytes L s al : heap_inv s al -> 0 <= nbytes < 2 ^ 31 - 32 -> exists fl k0, forall k, (k0 <= k)%nat ->
  wp (malloc k nbytes) L s (fun r s' =>
    r = 0 /\ heap_ok s' fl al /\ brk (os s') = brk (os s) /\ (forall y, y ∈ fl -> y.2 < units nbytes) \/ handed (units nbytes) fl al (brk (os s)) r s').
Proof.
  intros Hinv Hb. destruct (units_spec nbytes Hb) as (Hu & Hu0 & Hu1 & Hu2). destruct Hinv as [[Hun ->]|[fl Hok]]; [exists [], 3%nat|exists fl, (2 * length fl + 3)%nat];
    intros k Hk; unfold malloc; fold (units nbytes); rewrite Hu; wsteps.
  - destruct Hun as (Hf & Hb1 & Hb2). wtrue; [|done]. unfold set_ptr, set_freep, set_size. do 5 wstep.
    eapply wpl_call; [eapply malloc_rest; [eapply (untouched_ok s); [done| |done|done]|done|done|cbn; lia]|].
    + cbn [cells]. rewrite upd_cell_at, decide_True by done. cbn. by rewrite fn_lookup_insert.
    + intros r s' Hr. split; [done|]. exact Hr.
  - wfalse. 2:{ pose proof (ok_freep _ _ _ Hok) as (z & -> & Hz)%list_elem_of_fmap. pose proof (circle_low _ _ _ _ Hok Hz). pose proof (ok_top _ _ _ Hok). lia. }
    wstep. apply malloc_rest; try done. lia.
Qed.

(** * A program and its heap

    The program holds the blocks [held].  Between the calls it writes what it
    likes to its blocks, and grows its memory by itself. *)
Definition returns {A} (f : nat -> M (uheap B) A) (s : uheap B) (a : A) (s' : uheap B) : Prop :=
  exists k0, forall k, (k0 <= k)%nat -> f k [] s = Ok a [] s'.

Inductive client_step : uheap B * gmap Z Z -> uheap B * gmap Z Z -> Prop :=
  | client_malloc nbytes r s s' held : 0 <= nbytes < 2 ^ 31 - 32 -> returns (fun k => malloc k nbytes) s r s' ->
      client_step (s, held) (s', if decide (r = 0) then held else <[r - HDR := units nbytes]> held)
  | client_free bp n s s' held : held !! bp = Some n -> returns (fun k => free k (bp + HDR)) s tt s' -> client_step (s, held) (s', delete bp held)
  | client_write bp n x h s held : held !! bp = Some n -> bp < x < bp + HDR * n -> client_step (s, held) (upd_cell x h s, held)
  | client_grow o s held : brk (os s) <= brk o <= HEAP_LIMIT -> client_step (s, held) (mkHeap (cells s) (freep s) o, held).

Lemma write_ok s fl al bp n x h : heap_ok s fl al -> al !! bp = Some n -> bp < x < bp + HDR * n -> heap_ok (upd_cell x h s) fl al.
Proof.
  intros Hok Hbp Hx. assert (Hfree : forall y, y ∈ circle fl -> y.1 <> x).
  { intros y [->|Hy]%elem_of_cons; [destruct (ok_alloc _ _ _ Hok _ _ Hbp); unfold HDR in *; cbn; lia|].
    pose proof (ok_apart _ _ _ Hok _ _ _ Hbp Hy). destruct (ok_free _ _ _ Hok _ Hy). unfold apart, bend, HDR in *. cbn in *. lia. }
  split; try apply Hok.
  - eapply linked_ext; [|apply Hok]. intros y Hy. rewrite upd_cell_at, decide_False; [done|]. by apply Hfree.
  - intros a k Ha. destruct (ok_alloc _ _ _ Hok _ _ Ha) as (? & ? & ? & ?). split_and!; try done. rewrite upd_cell_at, decide_False; [done|]. intros ->.
    pose proof (ok_alloc_apart _ _ _ Hok _ _ _ _ Hbp Ha). unfold apart, bend, HDR in *. cbn in *. lia.
Qed.

Lemma returns_wp {A} (f : nat -> M (uheap B) A) s a s' (Q : A -> uheap B -> Prop) k0 :
  returns f s a s' -> (forall k, (k0 <= k)%nat -> wp (f k) [] s Q) -> Q a s'.
Proof.
  intros [k1 Hr] Hw. specialize (Hr (k0 + k1)%nat ltac:(lia)). specialize (Hw (k0 + k1)%nat ltac:(lia)). unfold wp, wpl in Hw. rewrite Hr in Hw. tauto.
Qed.

Lemma heap_client_inv x y : client_step x y -> heap_inv x.1 x.2 -> heap_inv y.1 y.2.
Proof.
  intros Hst Hi. destruct Hst as [nbytes r s s' held Hb Hr|bp n s s' held Hbp Hr|bp n x h s held Hbp Hx|o s held Ho]; cbn [fst snd] in *.
  - destruct (malloc_wp nbytes [] s held Hi Hb) as (fl & k0 & Hw). destruct (returns_wp _ _ _ _ _ k0 Hr Hw) as [(-> & Hok & _)|(q & fl' & -> & _ & Hok & _)].
    + right. by exists fl.
    + right. exists fl'. rewrite decide_False; [by replace (q + HDR - HDR) with q by lia|].
      destruct (ok_alloc _ _ _ Hok q (units nbytes) ltac:(apply lookup_insert_eq)) as (_ & Hq & _). pose proof (ok_top _ _ _ Hok). unfold HDR in *. lia.
  - destruct Hi as [[_ ->]|[fl Hok]]; [by rewrite lookup_empty in Hbp|]. 
    destruct (returns_wp _ _ _ _ _ (S (length (circle fl))) Hr (fun k Hk => free_wp k bp n [] s fl held Hok Hbp Hk)) as (fl' & Hok' & _). right. by exists fl'.
  - destruct Hi as [[_ ->]|[fl Hok]]; [by rewrite lookup_empty in Hbp|]. right. exists fl. by eapply write_ok.
  - destruct Hi as [[(Hf & Hb & Ht) ->]|[fl Hok]]; [left; split; [|done]; split_and!; cbn; [done|done|lia|lia]|]. right. exists fl.
    destruct Hok as [O1 O2 O3 O4 O5 O6 O7 O8]. split; cbn; try done; [| |lia].
    + intros y Hy. destruct (O4 y Hy) as (? & ? & ?). split_and!; try done. lia.
    + intros a k Ha. destruct (O5 a k Ha) as (? & ? & ? & ?). split_and!; try done. lia.
Qed.

Lemma client_reachable x y : rtc client_step x y -> heap_inv x.1 x.2 -> heap_inv y.1 y.2.
Proof. induction 1 as [|x y z Hs _ IH]; [done|]. intros Hx. by apply IH, (heap_client_inv x). Qed.

(** C30. malloc and free keep a heap: in every state that a program can reach by
    calling them, writing to the blocks it holds and growing its memory, its
    blocks are disjoint and inside its memory; malloc returns, with 0 or with a
    new block that has room for the bytes asked for and overlaps no block the
    program holds; and free of a block it holds returns. *)
Theorem malloc_free_correct s0 s held : untouched s0 -> rtc client_step (s0, ∅) (s, held) ->
  (forall a n, held !! a = Some n -> base + HDR <= a /\ a + HDR * n <= brk (os s)) /\
  (forall a n a' n', held !! a = Some n -> held !! a' = Some n' -> a <> a' -> apart (a, n) (a', n')) /\
  (forall nbytes, 0 <= nbytes < 2 ^ 31 - 32 -> exists k0, forall k, (k0 <= k)%nat -> wp (malloc k nbytes) [] s (fun r s' =>
     r = 0 /\ brk (os s') = brk (os s) \/
     exists q n, r = q + HDR /\ nbytes + HDR <= HDR * n /\ base + HDR <= q /\ q + HDR * n <= brk (os s') /\
       forall a m, held !! a = Some m -> apart (q, n) (a, m))) /\
  (forall bp n, held !! bp = Some n -> exists k0, forall k, (k0 <= k)%nat -> wp (free k (bp + HDR)) [] s (fun _ s' => os s' = os s)).
Proof.
  intros H0 Hr. assert (Hi : heap_inv s held).
  { by apply (client_reachable _ _ Hr); left. }
  split_and!.
  - intros a n Ha. destruct Hi as [[_ ->]|[fl Hok]]; [by rewrite lookup_empty in Ha|]. by destruct (ok_alloc _ _ _ Hok _ _ Ha) as (_ & ? & ? & _).
  - intros a n a' n' Ha. destruct Hi as [[_ ->]|[fl Hok]]; [by rewrite lookup_empty in Ha|]. by apply (ok_alloc_apart _ _ _ Hok).
  - intros nbytes Hb. destruct (malloc_wp nbytes [] s held Hi Hb) as (fl & k0 & Hw). exists k0. intros k Hk. eapply wp_mono; [by apply Hw|].
    intros r s' [(-> & _ & ? & _)|(q & fl' & -> & Hq & Hok & _ & _)]; [by left|right]. exists q, (units nbytes). destruct (units_spec nbytes Hb) as (_ & _ & _ & ?).
    destruct (ok_alloc _ _ _ Hok q (units nbytes) ltac:(apply lookup_insert_eq)) as (_ & ? & ? & _). split_and!; try done.
    intros a m Ha. assert (a <> q) by (intros ->; congruence). apply (ok_alloc_apart _ _ _ Hok); [apply lookup_insert_eq|by rewrite lookup_insert_ne|done].
  - intros bp n Hbp. destruct Hi as [[_ ->]|[fl Hok]]; [by rewrite lookup_empty in Hbp|]. exists (S (length (circle fl))). intros k Hk.
    eapply wp_mono; [by apply (free_wp k bp n [] s fl held)|]. intros _ s' (fl' & _ & ? & _). done.
Qed.

(** Nothing is lost: after free the free blocks cover exactly the bytes they
    covered before and those of the block, adjacent free blocks are joined again,
    and the other allocated blocks stay what they are. *)
Theorem free_correct fuel bp n L s fl al : heap_ok s fl al -> al !! bp = Some n -> (length (circle fl) < fuel)%nat ->
  wp (free fuel (bp + HDR)) L s (fun _ s' => exists fl', heap_ok s' fl' (delete bp al) /\
    forall x, covers fl' x <-> covers fl x \/ bp <= x < bp + HDR * n).
Proof.
  intros Hok Hbp Hk. eapply wp_mono; [by apply (free_wp _ bp n _ s fl al)|]. intros _ s' (fl' & ? & _ & ? & _). by exists fl'.
Qed.

(** A first block of [n] units at [bp], whatever its size. *)
Lemma free_first fuel bp n L s : cells s base = mkHeader base 0 -> freep s = base -> base < bp -> h_size (cells s bp) = n -> 0 < n < 2 ^ 32 -> (0 < fuel)%nat ->
  wp (free fuel (bp + HDR)) L s (fun _ s' => cells s' base = mkHeader bp 0 /\ cells s' bp = mkHeader base n /\ freep s' = base /\ os s' = os s).
Proof.
  intros Hb Hf Hlt Hn Hr Hk. unfold free. replace (bp + HDR - HDR) with bp by lia. wsteps. rewrite Hf. destruct fuel as [|fuel]; [lia|].
  unfold search, get_ptr. rewrite loop_S. wsteps. rewrite Hb. cbn [h_ptr]. wfalse; [|lia]. wtrue; [|lia]. wsteps.
  eapply wpl_call; [apply (join_right_wp bp base n []); [done|by rewrite Hb|done|unfold HDR; lia|by intros y ?%not_elem_of_nil]|].
  intros ? s1 (H1 & _ & Ho1). wstep. eapply wpl_call; [apply (join_left_wp bp base n 0 base); [by rewrite H1, decide_True|by rewrite H1, decide_False, Hb by lia|lia|lia]|].
  intros ? s2 (H2 & _ & Ho2). wsteps. split; [done|]. cbn. rewrite !H2, decide_True by done. rewrite (decide_False (P := bp = base)) by lia.
  rewrite decide_False by (unfold HDR; lia). rewrite H1, decide_True by done. split_and!; try done. congruence.
Qed.

(** C39. malloc(2^32 - 1) hands out a block that is not there: morecore asks sbrk for
    the number of bytes modulo 2^32, 16, and records all of them; the pointer
    returned is the end of the memory of the process. *)
Theorem malloc_overclaims k s : untouched s -> (3 <= k)%nat -> sbrk 16 (os s) = (brk (os s), (sbrk 16 (os s)).2) -> brk (sbrk 16 (os s)).2 = brk (os s) + 16 ->
  wp (malloc k (2 ^ 32 - 1)) [] s (fun r s' => r = brk (os s')).
Proof.
  intros (Hf & Hb & Ht) Hk Es Eb. unfold malloc. change (u32 ((2 ^ 32 - 1 + HDR - 1) / HDR + 1)) with (2 ^ 28 + 1).
  wsteps. wtrue; [|done]. unfold set_ptr, set_freep, set_size. do 5 wstep.
  match goal with |- wpl _ _ ?st _ => set (s1 := st) end.
  assert (Hc1 : cells s1 base = mkHeader base 0) by (unfold s1; cbn [cells]; rewrite upd_cell_at, decide_True by done; cbn; by rewrite fn_lookup_insert).
  assert (Hs1 : freep s1 = base /\ os s1 = os s) by done. clearbody s1. destruct Hs1 as [Hf1 Ho1]. unfold get_ptr. wsteps. rewrite Hf1, Hc1. cbn [h_ptr].
  destruct k as [|[|k]]; [lia|lia|]. rewrite loop_S. wsteps. unfold malloc_body at 1, get_size. wsteps. rewrite Hc1. cbn [h_size]. wfalse; [|lia]. wsteps.
  rewrite Hf1. wtrue; [|done]. unfold morecore. rewrite (decide_False (P := 2 ^ 28 + 1 < 4096)) by lia. change (s32 (u64 ((2 ^ 28 + 1) * HDR))) with 16.
  wsteps. eapply wpl_call; [apply do_sbrk_wp|]. rewrite Ho1, Es. intros r s2 [-> ->]. cbn [fst snd]. wfalse; [|unfold SBRK_ERROR, HDR in *; lia].
  unfold set_size. wsteps. eapply wpl_call; [apply (free_first _ (brk (os s)) (2 ^ 28 + 1))|].
  { rewrite upd_cell_at, decide_False by (unfold HDR in *; lia). done. }
  { done. }
  { unfold HDR in *; lia. }
  { by rewrite upd_cell_at, decide_True. }
  { lia. }
  { lia. }
  intros ? s3 (H1 & H2 & H3 & H4). wsteps. rewrite H3. wfalse; [|lia]. unfold get_ptr. wsteps. rewrite H1. cbn [h_ptr]. rewrite loop_S. wsteps.
  unfold malloc_body at 1, get_size. wsteps. rewrite H2. cbn [h_size]. wtrue; [|lia]. unfold take_block, get_size, get_ptr, set_ptr, set_freep. wsteps.
  rewrite H2. cbn [h_size]. wtrue; [|done]. wsteps. split; [done|]. cbn. rewrite H4. cbn. rewrite Eb. unfold HDR. lia.
Qed.
End Umalloc.

(** * A memory of one megabyte *)
#[export] Instance sample_sbrk : Sbrk Z.
Proof.
  refine {| sbrk n b := if decide (0 <= n /\ b + n <= 2 ^ 20) then (b, b + n) else (SBRK_ERROR, b); brk b := b |}.
  intros n b Hn. unfold HEAP_LIMIT. case_decide; [right|by left]. cbn. lia.
Defined.

Definition sample_heap : uheap Z := mkHeap (fun _ => mkHeader 0 0) 0 4096.

Lemma sample_untouched : untouched 1024 sample_heap.
Proof. by vm_compute. Qed.

(** The heap after malloc(100), and the block. *)
Definition after_malloc : uheap Z := match malloc 1024 9 100 [] sample_heap with Ok _ _ s => s | _ => sample_heap end.

Lemma malloc_free_correct_witness : untouched 1024 sample_heap /\
  exists k0, forall k, (k0 <= k)%nat -> wp (malloc 1024 k 100) [] sample_heap (fun r s' =>
     r = 0 /\ brk (os s') = 4096 \/
     exists q n, r = q + HDR /\ 100 + HDR <= HDR * n /\ 1024 + HDR <= q /\ q + HDR * n <= brk (os s') /\ forall a m, (∅ : gmap Z Z) !! a = Some m -> apart (q, n) (a, m)).
Proof.
  split; [apply sample_untouched|]. destruct (malloc_free_correct 1024 sample_heap sample_heap ∅ sample_untouched (rtc_refl _ _)) as (_ & _ & Hm & _). apply (Hm 100). lia.
Defined.

Lemma sample_free_list : heap_ok 1024 after_malloc [(4096, 4088)] {[69504 := 8]}.
Proof.
  assert (Hbrk : brk (os after_malloc) = 69632) by by vm_compute.
  split; rewrite ?Hbrk.
  - split; [by vm_compute|]. split; [by vm_compute|done].
  - apply StronglySorted_cons. split; [|apply StronglySorted_cons; split; [by apply Forall_nil|constructor]]. by apply Forall_singleton.
  - replace (freep after_malloc) with 1024 by by vm_compute. by left.
  - intros x ->%list_elem_of_singleton. by vm_compute.
  - intros a n [<- <-]%lookup_singleton_Some. unfold HDR. split; [lia|]. split; [lia|]. split; [lia|]. vm_compute. reflexivity.
  - intros a n x [<- <-]%lookup_singleton_Some ->%list_elem_of_singleton. by right.
  - intros a n a' n' [<- <-]%lookup_singleton_Some [<- <-]%lookup_singleton_Some []. reflexivity.
  - unfold HDR, HEAP_LIMIT. lia.
Qed.

Lemma free_correct_witness : wp (free 5 (69504 + HDR)) [] after_malloc (fun _ s' => exists fl', heap_ok 1024 s' fl' (delete 69504 {[69504 := 8]}) /\
  forall x, covers fl' x <-> covers [(4096, 4088)] x \/ 69504 <= x < 69504 + HDR * 8).
Proof. apply (free_correct 1024); [apply sample_free_list|done|cbn; lia]. Defined.

Lemma malloc_overclaims_witness : wp (malloc 1024 3 (2 ^ 32 - 1)) [] sample_heap (fun r s' => r = brk (os s')).
Proof. apply malloc_overclaims; [apply sample_untouched|done|by vm_compute|by vm_compute]. Defined.
