(* ===== verification/Printf.v ===== *)
(** Formatted output: printf of kernel/printf.c and vprintf of user/printf.c, each
    with its own digits, printint and printptr.  Both are shown to implement one
    format language, the kernel with lower case hexadecimal digits and the user
    library with upper case ones. *)
From S2P Require Import Prelude CStrings.
Local Open Scope Z_scope.

(** The variable arguments: a 64-bit slot holding an integer, or a pointer to a
    string, null or with its terminator. *)
Inductive arg := AInt (z : Z) | AStr (s : option (list Z)).

Definition s64 (x : Z) : Z := (x + 2 ^ 63) mod 2 ^ 64 - 2 ^ 63.

(** Taking an argument as an int, a uint32, a uint64 or a string. *)
Definition va_int (args : list arg) : option (Z * list arg) :=
  match args with AInt z :: r => Some (s32 z, r) | _ => None end.
Definition va_uint32 (args : list arg) : option (Z * list arg) :=
  match args with AInt z :: r => Some (u32 z, r) | _ => None end.
Definition va_uint64 (args : list arg) : option (Z * list arg) :=
  match args with AInt z :: r => Some (u64 z, r) | _ => None end.
Definition va_str (args : list arg) : option (option (list Z) * list arg) :=
  match args with AStr s :: r => Some (s, r) | _ => None end.

Definition null_str : list Z := [40; 110; 117; 108; 108; 41; 0].

Definition BUF_LEN : nat := 20.

(** [buf[i++] = c]; [None] is a store outside the array. *)
Definition push (buf : list Z) (c : Z) : option (list Z) :=
  if decide (length buf < BUF_LEN)%nat then Some (buf ++ [c]) else None.

(** * Kernel *)
Definition kernel_digits : list Z := [48; 49; 50; 51; 52; 53; 54; 55; 56; 57; 97; 98; 99; 100; 101; 102].

(** consputc: what reaches the uart. *)
Definition BACKSPACE : Z := 0x100.
Definition cons_bytes (c : Z) : list Z := if c =? BACKSPACE then [8; 32; 8] else [u8 c].

(** The do-while loop over the digits. *)
Fixpoint kernel_digits_loop (base : Z) (fuel : nat) (x : Z) (buf : list Z) : option (list Z) :=
  match fuel with
  | O => None
  | S k =>
      d ← kernel_digits !! Z.to_nat (x mod base);
      buf ← push buf d;
      if x / base =? 0 then Some buf else kernel_digits_loop base k (x / base) buf
  end.

(** The characters printed; [None] is undefined behaviour: a store outside [buf],
    or the negation of the least [long long]. *)
Definition kernel_printint (xx base : Z) (sign : bool) : option (list Z) :=
  let sign := sign && (xx <? 0) in
  x ← (if sign then if xx =? - 2 ^ 63 then None else Some (- xx) else Some (u64 xx));
  buf ← kernel_digits_loop base 64 x [];
  buf ← (if sign then push buf 45 else Some buf);
  Some (reverse buf ≫= cons_bytes).

(** [x >> 60] and [x <<= 4] on a uint64, sixteen times. *)
Fixpoint kernel_ptr_loop (n : nat) (x : Z) : option (list Z) :=
  match n with
  | O => Some []
  | S k =>
      d ← kernel_digits !! Z.to_nat (Z.shiftr x 60);
      r ← kernel_ptr_loop k (u64 (Z.shiftl x 4));
      Some (cons_bytes d ++ r)
  end.
Definition kernel_printptr (x : Z) : option (list Z) :=
  r ← kernel_ptr_loop 16 x; Some (cons_bytes 48 ++ cons_bytes 120 ++ r).

(** A conversion gives the characters, the arguments left and how far [i] moved;
    the conversion of a uint64 to the [long long] of printint wraps. *)
Definition kernel_int (v : option (Z * list arg)) (base : Z) (sign : bool) (skip : nat) : option (list Z * list arg * nat) :=
  '(z, r) ← v; o ← kernel_printint (s64 z) base sign; Some (o, r, skip).

(** The conversions of printf; [None] in the first place ends the loop. *)
Definition kernel_conv (c0 c1 c2 : Z) (args : list arg) : option (option (list Z * list arg * nat)) :=
  if c0 =? 100 then Some <$> kernel_int (va_int args) 10 true 0
  else if (c0 =? 108) && (c1 =? 100) then Some <$> kernel_int (va_uint64 args) 10 true 1
  else if (c0 =? 108) && (c1 =? 108) && (c2 =? 100) then Some <$> kernel_int (va_uint64 args) 10 true 2
  else if c0 =? 117 then Some <$> kernel_int (va_uint32 args) 10 false 0
  else if (c0 =? 108) && (c1 =? 117) then Some <$> kernel_int (va_uint64 args) 10 false 1
  else if (c0 =? 108) && (c1 =? 108) && (c2 =? 117) then Some <$> kernel_int (va_uint64 args) 10 false 2
  else if c0 =? 120 then Some <$> kernel_int (va_uint32 args) 16 false 0
  else if (c0 =? 108) && (c1 =? 120) then Some <$> kernel_int (va_uint64 args) 16 false 1
  else if (c0 =? 108) && (c1 =? 108) && (c2 =? 120) then Some <$> kernel_int (va_uint64 args) 16 false 2
  else if c0 =? 112 then '(x, r) ← va_uint64 args; o ← kernel_printptr x; Some (Some (o, r, 0%nat))
  else if c0 =? 99 then '(x, r) ← va_uint32 args; Some (Some (cons_bytes x, r, 0%nat))
  else if c0 =? 115 then '(s, r) ← va_str args; o ← cstr (default null_str s); Some (Some (o ≫= cons_bytes, r, 0%nat))
  else if c0 =? 37 then Some (Some (cons_bytes 37, args, 0%nat))
  else if c0 =? 0 then Some None
  else Some (Some (cons_bytes 37 ++ cons_bytes c0, args, 0%nat)).

Fixpoint kernel_loop (fmt : list Z) (fuel : nat) (args : list arg) (i : nat) (out : list Z) : option (list Z) :=
  match fuel with
  | O => None
  | S k =>
      cx ← fmt !! i;
      if cx =? 0 then Some out
      else if negb (cx =? 37) then kernel_loop fmt k args (S i) (out ++ cons_bytes cx)
      else
        let i := S i in
        c0 ← fmt !! i;
        c1 ← (if c0 =? 0 then Some 0 else fmt !! (i + 1)%nat);
        c2 ← (if c1 =? 0 then Some 0 else fmt !! (i + 2)%nat);
        r ← kernel_conv c0 c1 c2 args;
        match r with
        | None => Some out
        | Some (o, args, skip) => kernel_loop fmt k args (S (i + skip)) (out ++ o)
        end
  end.

(** What printf sends to the console. *)
Definition kernel_printf (fmt : list Z) (args : list arg) : option (list Z) :=
  kernel_loop fmt (S (length fmt)) args 0 [].

(** * User *)
Definition user_digits : list Z := [48; 49; 50; 51; 52; 53; 54; 55; 56; 57; 65; 66; 67; 68; 69; 70].

Definition putc_byte (c : Z) : list Z := [u8 c].

Fixpoint user_digits_loop (base : Z) (fuel : nat) (x : Z) (buf : list Z) : option (list Z) :=
  match fuel with
  | O => None
  | S k =>
      d ← user_digits !! Z.to_nat (x mod base);
      buf ← push buf d;
      if x / base =? 0 then Some buf else user_digits_loop base k (x / base) buf
  end.

Definition user_printint (xx base : Z) (sgn : bool) : option (list Z) :=
  '(neg, x) ← (if sgn && (xx <? 0) then if xx =? - 2 ^ 63 then None else Some (true, - xx)
               else Some (false, u64 xx));
  buf ← user_digits_loop base 64 x [];
  buf ← (if (neg : bool) then push buf 45 else Some buf);
  Some (reverse buf ≫= putc_byte).

Fixpoint user_ptr_loop (n : nat) (x : Z) : option (list Z) :=
  match n with
  | O => Some []
  | S k =>
      d ← user_digits !! Z.to_nat (Z.shiftr x 60);
      r ← user_ptr_loop k (u64 (Z.shiftl x 4));
      Some (putc_byte d ++ r)
  end.
Definition user_printptr (x : Z) : option (list Z) :=
  r ← user_ptr_loop 16 x; Some (putc_byte 48 ++ putc_byte 120 ++ r).

Definition user_int (v : option (Z * list arg)) (base : Z) (sgn : bool) (skip : nat) : option (list Z * list arg * nat) :=
  '(z, r) ← v; o ← user_printint (s64 z) base sgn; Some (o, r, skip).

Definition user_conv (c0 c1 c2 : Z) (args : list arg) : option (list Z * list arg * nat) :=
  if c0 =? 100 then user_int (va_int args) 10 true 0
  else if (c0 =? 108) && (c1 =? 100) then user_int (va_uint64 args) 10 true 1
  else if (c0 =? 108) && (c1 =? 108) && (c2 =? 100) then user_int (va_uint64 args) 10 true 2
  else if c0 =? 117 then user_int (va_uint32 args) 10 false 0
  else if (c0 =? 108) && (c1 =? 117) then user_int (va_uint64 args) 10 false 1
  else if (c0 =? 108) && (c1 =? 108) && (c2 =? 117) then user_int (va_uint64 args) 10 false 2
  else if c0 =? 120 then user_int (va_uint32 args) 16 false 0
  else if (c0 =? 108) && (c1 =? 120) then user_int (va_uint64 args) 16 false 1
  else if (c0 =? 108) && (c1 =? 108) && (c2 =? 120) then user_int (va_uint64 args) 16 false 2
  else if c0 =? 112 then '(x, r) ← va_uint64 args; o ← user_printptr x; Some (o, r, 0%nat)
  else if c0 =? 99 then '(x, r) ← va_uint32 args; Some (putc_byte x, r, 0%nat)
  else if c0 =? 115 then '(s, r) ← va_str args; o ← cstr (default null_str s); Some (o ≫= putc_byte, r, 0%nat)
  else if c0 =? 37 then Some (putc_byte 37, args, 0%nat)
  else Some (putc_byte 37 ++ putc_byte c0, args, 0%nat).

(** [state] is true after a percent sign. *)
Fixpoint user_loop (fmt : list Z) (fuel : nat) (args : list arg) (i : nat) (state : bool) (out : list Z) : option (list Z) :=
  match fuel with
  | O => None
  | S k =>
      c0 ← fmt !! i;
      if c0 =? 0 then Some out
      else if negb state then
        if c0 =? 37 then user_loop fmt k args (S i) true out
        else user_loop fmt k args (S i) false (out ++ putc_byte c0)
      else
        c1 ← fmt !! (i + 1)%nat;
        c2 ← (if c1 =? 0 then Some 0 else fmt !! (i + 2)%nat);
        '(o, args, skip) ← user_conv c0 c1 c2 args;
        user_loop fmt k args (S (i + skip)) false (out ++ o)
  end.

(** What vprintf writes. *)
Definition user_vprintf (fmt : list Z) (args : list arg) : option (list Z) :=
  user_loop fmt (S (length fmt)) args 0 false [].

(** * The format language *)

(** A format is a sequence of characters and conversions; an integer is converted
    from 32 or from 64 bits, in a base, signed or not. *)
Inductive directive :=
  | Lit (c : Z) | Int (long : bool) (base : Z) (sign : bool) | Ptr | Char | Str | Percent | Unknown (c : Z).

(** The conversions by name: d ld lld u lu llu x lx llx p c s and the percent sign. *)
Definition conversions : list (list Z * directive) := [
  ([100], Int false 10 true); ([108; 100], Int true 10 true); ([108; 108; 100], Int true 10 true);
  ([117], Int false 10 false); ([108; 117], Int true 10 false); ([108; 108; 117], Int true 10 false);
  ([120], Int false 16 false); ([108; 120], Int true 16 false); ([108; 108; 120], Int true 16 false);
  ([112], Ptr); ([99], Char); ([115], Str); ([37], Percent)].

Fixpoint prefixb (p l : list Z) : bool :=
  match p, l with
  | [], _ => true
  | a :: p, b :: l => (b =? a) && prefixb p l
  | _ :: _, [] => false
  end.

(** The conversion at the start of [l], with the length of its name. *)
Definition conversion (l : list Z) : option (directive * nat) :=
  match l with
  | [] => None
  | c :: _ =>
      match List.find (fun x => prefixb x.1 l) conversions with
      | Some (name, d) => Some (d, length name)
      | None => Some (Unknown c, 1%nat)
      end
  end.

(** The directives of a string, after [skip] more characters of a name. *)
Fixpoint parse (skip : nat) (l : list Z) : list directive :=
  match l, skip with
  | [], _ => []
  | _ :: l, S k => parse k l
  | c :: l, O =>
      if c =? 37
      then match conversion l with None => [] | Some (d, len) => d :: parse len l end
      else Lit c :: parse 0 l
  end.

(** The numeral of [x]: its digits, the most significant first. *)
Fixpoint numeral (fuel : nat) (base x : Z) : list Z :=
  match fuel with
  | O => []
  | S k => if x <? base then [x] else numeral k base (x / base) ++ [x mod base]
  end.

Definition digit_of (digits : list Z) (d : Z) : Z := digits !!! Z.to_nat d.

(** The value an integer conversion takes from a slot. *)
Definition slot_value (long sign : bool) (z : Z) : Z :=
  match long, sign with
  | false, true => s32 z | true, true => s64 z | false, false => u32 z | true, false => u64 z
  end.

(** Numbers in decimal or hexadecimal, with a minus sign for a negative one; the
    least 64-bit number has no negation. *)
Definition show (digits : list Z) (base v : Z) : option (list Z) :=
  if v =? - 2 ^ 63 then None
  else Some ((if v <? 0 then [45] else []) ++ (digit_of digits <$> numeral 64 base (Z.abs v))).

(** A pointer: all sixteen digits. *)
Definition show_ptr (digits : list Z) (x : Z) : list Z :=
  [48; 120] ++ ((fun k => digit_of digits (x / 16 ^ k mod 16)) <$> reverse (seqZ 0 16)).

(** The text of a directive and the arguments left. *)
Definition render (digits : list Z) (d : directive) (args : list arg) : option (list Z * list arg) :=
  match d, args with
  | Lit c, _ => Some ([c], args)
  | Percent, _ => Some ([37], args)
  | Unknown c, _ => Some ([37; c], args)
  | Int long base sign, AInt z :: r => o ← show digits base (slot_value long sign z); Some (o, r)
  | Ptr, AInt z :: r => Some (show_ptr digits (u64 z), r)
  | Char, AInt z :: r => Some ([u8 z], r)
  | Str, AStr s :: r => o ← cstr (default null_str s); Some (o, r)
  | _, _ => None
  end.

Fixpoint format (digits : list Z) (ds : list directive) (args : list arg) : option (list Z) :=
  match ds with
  | [] => Some []
  | d :: ds => '(o, r) ← render digits d args; o' ← format digits ds r; Some (o ++ o')
  end.

(** * Numerals *)

(** The number that digits write, the most significant first. *)
Definition number (base : Z) (ds : list Z) : Z := foldl (fun a d => a * base + d) 0 ds.

Lemma number_snoc base ds d : number base (ds ++ [d]) = number base ds * base + d.
Proof. unfold number. by rewrite foldl_app. Qed.

(** The numeral of [x] writes [x], with digits below the base and no leading zero. *)
Lemma numeral_spec base m : 2 <= base -> forall fuel x, 0 <= x < base ^ Z.of_nat (S m) -> (m < fuel)%nat ->
  Forall (fun d => 0 <= d < base) (numeral fuel base x) /\ number base (numeral fuel base x) = x /\
  (length (numeral fuel base x) <= S m)%nat /\
  (numeral fuel base x = [0] \/ exists d r, numeral fuel base x = d :: r /\ d <> 0).
Proof.
  intros Hb. induction m as [|m IH]; intros fuel x Hx Hn; (destruct fuel as [|fuel]; [lia|]); cbn [numeral];
    (destruct (Z.ltb_spec x base) as [Hlt|Hge];
      [split_and!; [by repeat constructor; lia|cbn; lia|simpl; lia|];
       destruct (decide (x = 0)) as [->|]; [by left|right; by eexists _, _]|]).
  - change (base ^ Z.of_nat 1) with (base ^ 1) in Hx. rewrite Z.pow_1_r in Hx. lia.
  - rewrite (Nat2Z.inj_succ (S m)), Z.pow_succ_r in Hx by lia.
    assert (Hq : 1 <= x / base < base ^ Z.of_nat (S m)).
    { split; [apply Z.div_le_lower_bound; lia|apply Z.div_lt_upper_bound; lia]. }
    destruct (IH fuel (x / base)) as (Hr & Hv & Hl & Hd); [lia..|].
    pose proof (Z.mod_pos_bound x base ltac:(lia)). split_and!.
    + apply Forall_app. split; [done|by repeat constructor; lia].
    + rewrite number_snoc, Hv. pose proof (Z.div_mod x base). lia.
    + rewrite length_app. simpl in *. lia.
    + right. destruct Hd as [E|(d & r & E & Hd)]; [rewrite E in Hv; cbn in Hv; lia|].
      rewrite E. by exists d, (r ++ [x mod base]).
Qed.

(** * The parts of the two formatters *)

(** What both have in common: sixteen digits that are characters, and an output
    function that leaves characters as they are. *)
Record device (digits : list Z) (emit : Z -> list Z) : Prop := {
  dv_len : length digits = 16%nat;
  dv_char : Forall (fun c => 0 <= c < 256) digits;
  dv_emit : forall c, 0 <= c < 256 -> emit c = [c]
}.

Section Parts.
Context (digits : list Z) (emit : Z -> list Z) (Hdev : device digits emit).

(** The loops of printint and printptr over any table. *)
Fixpoint digits_loop (base : Z) (fuel : nat) (x : Z) (buf : list Z) : option (list Z) :=
  match fuel with
  | O => None
  | S k =>
      d ← digits !! Z.to_nat (x mod base);
      buf ← push buf d;
      if x / base =? 0 then Some buf else digits_loop base k (x / base) buf
  end.

Fixpoint ptr_loop (n : nat) (x : Z) : option (list Z) :=
  match n with
  | O => Some []
  | S k =>
      d ← digits !! Z.to_nat (Z.shiftr x 60);
      r ← ptr_loop k (u64 (Z.shiftl x 4));
      Some (emit d ++ r)
  end.

Lemma digit_lookup d : 0 <= d < 16 -> digits !! Z.to_nat d = Some (digit_of digits d) /\ 0 <= digit_of digits d < 256.
Proof using Hdev.
  intros Hd. destruct Hdev as [Hl Hc _]. destruct (lookup_lt_is_Some_2 digits (Z.to_nat d)) as [c E]; [lia|].
  unfold digit_of. rewrite (list_lookup_total_correct _ _ _ E). split; [done|]. by eapply (Forall_lookup_1 _ _ _ _ Hc).
Qed.

Lemma emit_chars l : Forall (fun c => 0 <= c < 256) l -> l ≫= emit = l.
Proof using Hdev. induction 1 as [|c l Hc _ IH]; [done|]. cbn. by rewrite IH, (dv_emit _ _ Hdev) by done. Qed.

Lemma numeral_chars base m fuel x : 2 <= base <= 16 -> 0 <= x < base ^ Z.of_nat (S m) -> (m < fuel)%nat ->
  Forall (fun c => 0 <= c < 256) (digit_of digits <$> numeral fuel base x) /\
  (length (digit_of digits <$> numeral fuel base x) <= S m)%nat.
Proof using Hdev.
  intros Hb Hx Hn. destruct (numeral_spec base m ltac:(lia) fuel x Hx Hn) as (Hr & _ & Hl & _).
  rewrite length_fmap. split; [|done]. apply Forall_fmap.
  eapply Forall_impl; [exact Hr|]. intros d Hd. simpl in Hd |- *. apply digit_lookup. lia.
Qed.

(** The loop stores the numeral of [x], the last digit first, if there is room for
    as many digits as [x] can have. *)
Lemma digits_loop_numeral base m : 2 <= base <= 16 ->
  forall fuel x buf, 0 <= x < base ^ Z.of_nat (S m) -> (m < fuel)%nat -> (length buf + S m <= BUF_LEN)%nat ->
  digits_loop base fuel x buf = Some (buf ++ reverse (digit_of digits <$> numeral fuel base x)).
Proof using Hdev.
  intros Hb. induction m as [|m IH]; intros fuel x buf Hx Hf Hbuf; (destruct fuel as [|fuel]; [lia|]);
    cbn [digits_loop numeral]; pose proof (Z.mod_pos_bound x base ltac:(lia)) as Hmod;
    destruct (digit_lookup (x mod base) ltac:(lia)) as [-> _]; cbn [mbind option_bind]; unfold push;
    (rewrite decide_True by lia); cbn [mbind option_bind].
  - change (base ^ Z.of_nat 1) with (base ^ 1) in Hx. rewrite Z.pow_1_r in Hx.
    rewrite Z.div_small, Z.mod_small by lia. by rewrite (proj2 (Z.ltb_lt x base)) by lia.
  - destruct (Z.ltb_spec x base) as [Hlt|Hge].
    + by rewrite Z.div_small, Z.mod_small by lia.
    + assert (1 <= x / base) by (apply Z.div_le_lower_bound; lia). rewrite (proj2 (Z.eqb_neq _ 0)) by lia.
      rewrite IH; [|split; [lia|]|lia|rewrite length_app; simpl; lia].
      * by rewrite fmap_app, reverse_app, <- app_assoc.
      * apply Z.div_lt_upper_bound; [lia|]. rewrite (Nat2Z.inj_succ (S m)), Z.pow_succ_r in Hx by lia. lia.
Qed.

(** Printing an integer, from the magnitude. *)
Lemma printint_buf v base (neg : bool) :
  base = 10 \/ base = 16 -> (if neg then - 2 ^ 63 < v < 0 else 0 <= v < 2 ^ 64) ->
  (buf ← digits_loop base 64 (Z.abs v) [];
   buf ← (if neg then push buf 45 else Some buf);
   Some (reverse buf ≫= emit)) = show digits base v.
Proof using Hdev.
  intros Hb Hx. set (m := (if neg then 18 else 19)%nat).
  assert (Hx' : 0 <= Z.abs v < base ^ Z.of_nat (S m)).
  { unfold m. destruct neg, Hb as [-> | ->]; [change (Z.of_nat 19) with 19|change (Z.of_nat 19) with 19|
      change (Z.of_nat 20) with 20|change (Z.of_nat 20) with 20]; lia. }
  assert (Hm : (m < 64)%nat /\ (S m + (if neg then 1 else 0) = BUF_LEN)%nat) by (unfold m; destruct neg; by split; try lia).
  destruct (numeral_chars base m 64 (Z.abs v) ltac:(lia) Hx' (proj1 Hm)) as [Hch Hl].
  rewrite (digits_loop_numeral base m ltac:(lia) 64 _ [] Hx' (proj1 Hm)) by (cbn [length]; lia).
  unfold show. rewrite (proj2 (Z.eqb_neq v (- 2 ^ 63))) by (destruct neg; lia).
  set (w := digit_of digits <$> numeral 64 base (Z.abs v)) in *. clearbody w.
  cbn [mbind option_bind app]. destruct neg.
  - unfold push. rewrite decide_True by (rewrite length_reverse; lia). cbn [mbind option_bind].
    rewrite reverse_app, reverse_involutive, (proj2 (Z.ltb_lt v 0)), emit_chars by (try lia; by constructor). done.
  - cbn [mbind option_bind]. rewrite reverse_involutive, (proj2 (Z.ltb_ge v 0)), emit_chars by (done || lia). done.
Qed.

Lemma ptr_loop_digits y n : 0 <= y < 2 ^ 64 -> (n <= 16)%nat ->
  ptr_loop n (u64 (y * 16 ^ (16 - Z.of_nat n))) =
  Some ((fun k => digit_of digits (y / 16 ^ k mod 16)) <$> reverse (seqZ 0 (Z.of_nat n))).
Proof using Hdev.
  intros Hy. induction n as [|n IH]; intros Hn; [done|]. cbn [ptr_loop].
  assert (Hpow : 2 ^ 64 = 16 ^ Z.of_nat (S n) * 16 ^ (16 - Z.of_nat (S n))).
  { rewrite <- Z.pow_add_r by lia. by replace (Z.of_nat (S n) + _) with 16 by lia. }
  assert (Hs : Z.shiftr (u64 (y * 16 ^ (16 - Z.of_nat (S n)))) 60 = y / 16 ^ Z.of_nat n mod 16).
  { rewrite Z.shiftr_div_pow2 by lia. unfold u64. rewrite Hpow, Z.mul_mod_distr_r by (apply Z.pow_nonzero; lia).
    replace (2 ^ 60) with (16 ^ Z.of_nat n * 16 ^ (16 - Z.of_nat (S n)))
      by (rewrite <- Z.pow_add_r by lia; by replace (Z.of_nat n + _) with 15 by lia).
    rewrite Z.div_mul_cancel_r by (apply Z.pow_nonzero; lia).
    rewrite (Nat2Z.inj_succ n), Z.pow_succ_r, Z.mul_comm, Z.rem_mul_r by (try apply Z.pow_pos_nonneg; try apply Z.pow_nonzero; lia).
    rewrite (Z.mul_comm (16 ^ _)), Z.div_add by (apply Z.pow_nonzero; lia).
    rewrite Z.div_small by (apply Z.mod_pos_bound, Z.pow_pos_nonneg; lia). done. }
  rewrite Hs. destruct (digit_lookup (y / 16 ^ Z.of_nat n mod 16) (Z.mod_pos_bound _ 16 ltac:(lia))) as [-> Hc].
  cbn [mbind option_bind]. rewrite Z.shiftl_mul_pow2 by lia. change (2 ^ 4) with 16.
  replace (u64 (u64 (y * 16 ^ (16 - Z.of_nat (S n))) * 16)) with (u64 (y * 16 ^ (16 - Z.of_nat n))).
  2: { unfold u64. rewrite Zmult_mod_idemp_l, <- Z.mul_assoc. do 2 f_equal.
       replace (16 - Z.of_nat n) with (Z.succ (16 - Z.of_nat (S n))) by lia. rewrite Z.pow_succ_r by lia. lia. }
  rewrite IH by lia. cbn [mbind option_bind]. rewrite (dv_emit _ _ Hdev) by done.
  rewrite seqZ_S, reverse_app. done.
Qed.

Lemma printptr_digits x : 0 <= x < 2 ^ 64 ->
  (r ← ptr_loop 16 x; Some (emit 48 ++ emit 120 ++ r)) = Some (show_ptr digits x).
Proof using Hdev.
  intros Hx. pose proof (ptr_loop_digits x 16 Hx ltac:(lia)) as H. change (16 - Z.of_nat 16) with 0 in H.
  rewrite Z.mul_1_r, u64_small in H by lia. rewrite H. cbn [mbind option_bind].
  by rewrite !(dv_emit _ _ Hdev) by lia.
Qed.
End Parts.

(** Arguments that are characters where they are printed as such, and not taken for
    the console's own backspace code. *)
Definition arg_ok (a : arg) : Prop :=
  match a with
  | AInt z => u32 z <> BACKSPACE
  | AStr None => True
  | AStr (Some s) => Forall (fun c => 0 <= c < 256) s
  end.

Lemma kernel_device : device kernel_digits cons_bytes.
Proof.
  split; [done|by repeat constructor; lia|]. intros c Hc. unfold cons_bytes, u8, BACKSPACE.
  rewrite (proj2 (Z.eqb_neq c 0x100)), Z.mod_small by lia. done.
Qed.

Lemma user_device : device user_digits putc_byte.
Proof.
  split; [done|by repeat constructor; lia|]. intros c Hc. unfold putc_byte, u8. by rewrite Z.mod_small by lia.
Qed.

Lemma kernel_digits_loop_eq base fuel x buf : kernel_digits_loop base fuel x buf = digits_loop kernel_digits base fuel x buf.
Proof.
  revert x buf. induction fuel as [|k IH]; intros x buf; [done|]. cbn [kernel_digits_loop digits_loop].
  destruct (kernel_digits !! _); [|done]. cbn [mbind option_bind]. destruct (push _ _); [|done]. cbn [mbind option_bind].
  by destruct (_ =? 0).
Qed.

Lemma user_digits_loop_eq base fuel x buf : user_digits_loop base fuel x buf = digits_loop user_digits base fuel x buf.
Proof.
  revert x buf. induction fuel as [|k IH]; intros x buf; [done|]. cbn [user_digits_loop digits_loop].
  destruct (user_digits !! _); [|done]. cbn [mbind option_bind]. destruct (push _ _); [|done]. cbn [mbind option_bind].
  by destruct (_ =? 0).
Qed.

(** ** Integers *)
Lemma s64_range x : - 2 ^ 63 <= s64 x < 2 ^ 63.
Proof. unfold s64. pose proof (Z.mod_pos_bound (x + 2 ^ 63) (2 ^ 64)). lia. Qed.

Lemma s64_small x : - 2 ^ 63 <= x < 2 ^ 63 -> s64 x = x.
Proof. intros. unfold s64. rewrite Z.mod_small by lia. lia. Qed.

Lemma kernel_printint_show xx base (sign : bool) : base = 10 \/ base = 16 -> - 2 ^ 63 <= xx < 2 ^ 63 ->
  kernel_printint xx base sign = show kernel_digits base (if sign then xx else u64 xx).
Proof.
  intros Hb Hx. unfold kernel_printint. cbv zeta. destruct sign; cbn [andb].
  - destruct (Z.ltb_spec xx 0) as [Hn|Hn].
    + destruct (Z.eqb_spec xx (- 2 ^ 63)) as [->|Hm]; [done|]. cbn [mbind option_bind].
      rewrite kernel_digits_loop_eq, <- (Z.abs_neq xx) by lia.
      apply (printint_buf _ _ kernel_device xx base true Hb). lia.
    + cbn [mbind option_bind]. rewrite kernel_digits_loop_eq, u64_small, <- (Z.abs_eq xx) at 1 by lia.
      apply (printint_buf _ _ kernel_device xx base false Hb). lia.
  - cbn [mbind option_bind]. pose proof (u64_range xx). rewrite kernel_digits_loop_eq, <- (Z.abs_eq (u64 xx)) at 1 by lia.
    apply (printint_buf _ _ kernel_device (u64 xx) base false Hb). lia.
Qed.

Lemma user_printint_show xx base (sign : bool) : base = 10 \/ base = 16 -> - 2 ^ 63 <= xx < 2 ^ 63 ->
  user_printint xx base sign = show user_digits base (if sign then xx else u64 xx).
Proof.
  intros Hb Hx. unfold user_printint. cbv zeta. destruct sign; cbn [andb].
  - destruct (Z.ltb_spec xx 0) as [Hn|Hn].
    + destruct (Z.eqb_spec xx (- 2 ^ 63)) as [->|Hm]; [done|]. cbn [mbind option_bind].
      rewrite user_digits_loop_eq, <- (Z.abs_neq xx) by lia.
      apply (printint_buf _ _ user_device xx base true Hb). lia.
    + cbn [mbind option_bind]. rewrite user_digits_loop_eq, u64_small, <- (Z.abs_eq xx) at 1 by lia.
      apply (printint_buf _ _ user_device xx base false Hb). lia.
  - cbn [mbind option_bind]. pose proof (u64_range xx). rewrite user_digits_loop_eq, <- (Z.abs_eq (u64 xx)) at 1 by lia.
    apply (printint_buf _ _ user_device (u64 xx) base false Hb). lia.
Qed.

(** The argument of an integer conversion, as it is taken and as it is printed. *)
Definition va_slot (long sign : bool) (args : list arg) : option (Z * list arg) :=
  match long, sign with false, true => va_int args | false, false => va_uint32 args | true, _ => va_uint64 args end.

Lemma slot_value_spec long sign z args r : va_slot long sign (AInt z :: args) = Some r ->
  r.2 = args /\ (if sign then s64 r.1 else u64 (s64 r.1)) = slot_value long sign z.
Proof.
  assert (Hu : forall x, u64 (s64 x) = u64 x).
  { intros x. unfold u64, s64. rewrite Zminus_mod_idemp_l. f_equal. lia. }
  destruct long, sign; simpl; intros [= <-]; (split; [done|]); simpl.
  - unfold s64, u64. rewrite <- (Z.add_mod_idemp_l z) by lia. done.
  - rewrite Hu. unfold u64. by rewrite Zmod_mod.
  - apply s64_small. pose proof (s32_range z). lia.
  - rewrite Hu. pose proof (u32_range z). rewrite u64_small; lia.
Qed.

Lemma kernel_int_render long base sign skip args : base = 10 \/ base = 16 ->
  kernel_int (va_slot long sign args) base sign skip =
  '(o, r) ← render kernel_digits (Int long base sign) args; Some (o, r, skip).
Proof.
  intros Hb. unfold kernel_int. destruct args as [|[z|s] args]; [by destruct long, sign..| |by destruct long, sign].
  destruct (va_slot long sign (AInt z :: args)) as [[v r]|] eqn:E; [|by destruct long, sign].
  apply slot_value_spec in E as [Er Hv]. simpl in Er, Hv. subst r. cbn [mbind option_bind render].
  rewrite kernel_printint_show, Hv by (done || apply s64_range). by destruct (show _ _ _).
Qed.

Lemma user_int_render long base sign skip args : base = 10 \/ base = 16 ->
  user_int (va_slot long sign args) base sign skip =
  '(o, r) ← render user_digits (Int long base sign) args; Some (o, r, skip).
Proof.
  intros Hb. unfold user_int. destruct args as [|[z|s] args]; [by destruct long, sign..| |by destruct long, sign].
  destruct (va_slot long sign (AInt z :: args)) as [[v r]|] eqn:E; [|by destruct long, sign].
  apply slot_value_spec in E as [Er Hv]. simpl in Er, Hv. subst r. cbn [mbind option_bind render].
  rewrite user_printint_show, Hv by (done || apply s64_range). by destruct (show _ _ _).
Qed.

(** ** Conversions *)

(** The conversion that starts with [c0], [c1] and [c2], and what of its name
    follows [c0]. *)
Definition choose (c0 c1 c2 : Z) : directive * nat :=
  if c0 =? 100 then (Int false 10 true, 0%nat)
  else if (c0 =? 108) && (c1 =? 100) then (Int true 10 true, 1%nat)
  else if (c0 =? 108) && (c1 =? 108) && (c2 =? 100) then (Int true 10 true, 2%nat)
  else if c0 =? 117 then (Int false 10 false, 0%nat)
  else if (c0 =? 108) && (c1 =? 117) then (Int true 10 false, 1%nat)
  else if (c0 =? 108) && (c1 =? 108) && (c2 =? 117) then (Int true 10 false, 2%nat)
  else if c0 =? 120 then (Int false 16 false, 0%nat)
  else if (c0 =? 108) && (c1 =? 120) then (Int true 16 false, 1%nat)
  else if (c0 =? 108) && (c1 =? 108) && (c2 =? 120) then (Int true 16 false, 2%nat)
  else if c0 =? 112 then (Ptr, 0%nat)
  else if c0 =? 99 then (Char, 0%nat)
  else if c0 =? 115 then (Str, 0%nat)
  else if c0 =? 37 then (Percent, 0%nat)
  else (Unknown c0, 0%nat).

Lemma conversion_choose c0 l :
  let x := choose c0 (nth 0 l 0) (nth 1 l 0) in conversion (c0 :: l) = Some (x.1, S x.2).
Proof.
  cbv zeta. unfold conversion, choose, conversions.
  destruct l as [|c1 [|c2 l]]; cbn -[Z.eqb]; rewrite ?andb_true_r, ?andb_false_r, ?andb_assoc;
    repeat (case_match; try done); by simplify_eq.
Qed.

Lemma cstr_chars s o : cstr s = Some o -> Forall (fun c => 0 <= c < 256) s -> Forall (fun c => 0 <= c < 256) o.
Proof.
  revert o. induction s as [|c s IH]; intros o; [done|]. simpl. intros E [Hc Hs]%Forall_cons.
  case_decide; [by simplify_eq|]. destruct (cstr s) as [t|]; simplify_eq/=. constructor; [done|by apply IH].
Qed.

Lemma arg_chars s o r : cstr (default null_str s) = Some o -> Forall arg_ok (AStr s :: r) -> Forall (fun c => 0 <= c < 256) o.
Proof.
  intros E [Hs _]%Forall_cons. apply (cstr_chars _ _ E). destruct s; [done|]. by repeat constructor; lia.
Qed.

Lemma kernel_printptr_show x : 0 <= x < 2 ^ 64 -> kernel_printptr x = Some (show_ptr kernel_digits x).
Proof.
  intros Hx. unfold kernel_printptr.
  assert (E : forall n x, kernel_ptr_loop n x = ptr_loop kernel_digits cons_bytes n x).
  { induction n as [|n IH]; intros y; [done|]. cbn [kernel_ptr_loop ptr_loop]. by rewrite IH. }
  rewrite E. by apply (printptr_digits _ _ kernel_device).
Qed.

(** The kernel's conversion and the user's do what the directive says. *)
Lemma kernel_conv_render c0 c1 c2 args : 0 < c0 < 256 -> Forall arg_ok args ->
  kernel_conv c0 c1 c2 args =
  '(o, r) ← render kernel_digits (choose c0 c1 c2).1 args; Some (Some (o, r, (choose c0 c1 c2).2)).
Proof.
  intros Hc Ha. unfold kernel_conv, choose.
  assert (Hint : forall long base sign skip, base = 10 \/ base = 16 ->
    Some <$> kernel_int (va_slot long sign args) base sign skip =
    '(o, r) ← render kernel_digits (Int long base sign) args; Some (Some (o, r, skip))).
  { intros long base sign skip Hb. rewrite kernel_int_render by done. by destruct (render _ _ _) as [[]|]. }
  case_match; [by apply (Hint false 10 true 0%nat); auto|]. case_match; [by apply (Hint true 10 true 1%nat); auto|]. case_match; [by apply (Hint true 10 true 2%nat); auto|].
  case_match; [by apply (Hint false 10 false 0%nat); auto|]. case_match; [by apply (Hint true 10 false 1%nat); auto|]. case_match; [by apply (Hint true 10 false 2%nat); auto|].
  case_match; [by apply (Hint false 16 false 0%nat); auto|]. case_match; [by apply (Hint true 16 false 1%nat); auto|]. case_match; [by apply (Hint true 16 false 2%nat); auto|].
  case_match.
  { destruct args as [|[z|s] r]; [done| |done]. cbn [va_uint64 mbind option_bind fst snd render].
    by rewrite kernel_printptr_show by apply u64_range. }
  case_match. { destruct args as [|[z|s] r]; [done| |done]. apply Forall_cons in Ha as [Hz _]. simpl in Hz.
    cbn [va_uint32 mbind option_bind fst snd render].
    unfold cons_bytes. rewrite (proj2 (Z.eqb_neq _ _)) by done. unfold u8, u32.
    by rewrite Z.mod_mod_divide by (by exists (2 ^ 24)). }
  case_match. { destruct args as [|[z|s] r]; [done..|].
    cbn [va_str mbind option_bind fst snd render]. destruct (cstr _) as [o|] eqn:E; [|done]. cbn [mbind option_bind].
    by rewrite (emit_chars _ _ kernel_device) by (by eapply arg_chars). }
  case_match; [done|]. rewrite (proj2 (Z.eqb_neq c0 0)) by lia. simpl.
  by rewrite !(dv_emit _ _ kernel_device) by lia.
Qed.

Lemma user_printptr_show x : 0 <= x < 2 ^ 64 -> user_printptr x = Some (show_ptr user_digits x).
Proof.
  intros Hx. unfold user_printptr.
  assert (E : forall n x, user_ptr_loop n x = ptr_loop user_digits putc_byte n x).
  { induction n as [|n IH]; intros y; [done|]. cbn [user_ptr_loop ptr_loop]. by rewrite IH. }
  rewrite E. by apply (printptr_digits _ _ user_device).
Qed.

Lemma user_conv_render c0 c1 c2 args : 0 < c0 < 256 -> Forall arg_ok args ->
  user_conv c0 c1 c2 args =
  '(o, r) ← render user_digits (choose c0 c1 c2).1 args; Some (o, r, (choose c0 c1 c2).2).
Proof.
  intros Hc Ha. unfold user_conv, choose. pose proof user_int_render as Hint.
  case_match; [by apply (Hint false 10 true 0%nat args); auto|]. case_match; [by apply (Hint true 10 true 1%nat args); auto|]. case_match; [by apply (Hint true 10 true 2%nat args); auto|].
  case_match; [by apply (Hint false 10 false 0%nat args); auto|]. case_match; [by apply (Hint true 10 false 1%nat args); auto|]. case_match; [by apply (Hint true 10 false 2%nat args); auto|].
  case_match; [by apply (Hint false 16 false 0%nat args); auto|]. case_match; [by apply (Hint true 16 false 1%nat args); auto|]. case_match; [by apply (Hint true 16 false 2%nat args); auto|].
  case_match.
  { destruct args as [|[z|s] r]; [done| |done]. cbn [va_uint64 mbind option_bind fst snd render].
    by rewrite user_printptr_show by apply u64_range. }
  case_match. { destruct args as [|[z|s] r]; [done| |done].
    cbn [va_uint32 mbind option_bind fst snd render]. unfold putc_byte, u8, u32.
    by rewrite Z.mod_mod_divide by (by exists (2 ^ 24)). }
  case_match. { destruct args as [|[z|s] r]; [done..|].
    cbn [va_str mbind option_bind fst snd render]. destruct (cstr _) as [o|] eqn:E; [|done]. cbn [mbind option_bind].
    by rewrite (emit_chars _ _ user_device) by (by eapply arg_chars). }
  case_match; [done|]. simpl. by rewrite !(dv_emit _ _ user_device) by lia.
Qed.

(** * The loops *)
Lemma parse_skip k l : parse k l = parse 0 (drop k l).
Proof. revert l. induction k as [|k IH]; intros [|c l]; try done. simpl. apply IH. Qed.

Lemma parse_conversion c0 l :
  let x := choose c0 (nth 0 l 0) (nth 1 l 0) in
  parse 0 (37 :: c0 :: l) = x.1 :: parse 0 (drop x.2 l) /\ (x.2 <= length l)%nat.
Proof.
  cbv zeta. split.
  - cbn [parse]. rewrite Z.eqb_refl, conversion_choose. by rewrite parse_skip.
  - unfold choose. destruct l as [|c1 [|c2 l]]; cbn [nth length]; repeat case_match; simpl; try lia;
      repeat match goal with H : _ && _ = true |- _ => apply andb_true_iff in H as [? ?] end; done.
Qed.

Lemma render_args digits d args o r : render digits d args = Some (o, r) -> Forall arg_ok args -> Forall arg_ok r.
Proof.
  destruct d, args as [|[z|s] args]; cbn [render]; intros E Ha; try done; try (by simplify_eq);
    apply Forall_cons in Ha as [_ Ha].
  - destruct (show _ _ _); [|done]. by simplify_eq/=.
  - by simplify_eq.
  - by simplify_eq.
  - destruct (cstr _); [|done]. by simplify_eq/=.
Qed.

Lemma lookup_plus {A} (pre l : list A) k : (pre ++ l) !! (length pre + k)%nat = l !! k.
Proof. rewrite lookup_app_r by lia. f_equal. lia. Qed.

(** The next characters of a string that goes on with [l] and ends there. *)
Lemma next_chars l rest : Forall (fun c => 0 < c < 256) l ->
  (l ++ 0 :: rest) !! 0%nat = Some (nth 0 l 0) /\
  (if nth 0 l 0 =? 0 then Some 0 else (l ++ 0 :: rest) !! 1%nat) = Some (nth 1 l 0).
Proof.
  intros Hl. destruct l as [|c1 [|c2 l]]; [done|..]; apply Forall_cons in Hl as [Hc _]; cbn [nth];
    rewrite (proj2 (Z.eqb_neq c1 0)) by lia; done.
Qed.

(** The text of a conversion and of what follows. *)
Lemma format_cons digits d ds args (out : list Z) :
  app out <$> format digits (d :: ds) args =
  '(o, r) ← render digits d args; app (out ++ o) <$> format digits ds r.
Proof.
  cbn [format]. destruct (render digits d args) as [[o r]|]; [|done]. cbn [mbind option_bind].
  destruct (format digits ds r) as [o'|]; [|done]. simpl. by rewrite app_assoc.
Qed.

Section Loops.
Context (rest : list Z).

Lemma kernel_loop_format n : forall s pre args out k, (length s <= n)%nat -> (n < k)%nat ->
  Forall (fun c => 0 < c < 256) s -> Forall arg_ok args ->
  kernel_loop (pre ++ s ++ 0 :: rest) k args (length pre) out = app out <$> format kernel_digits (parse 0 s) args.
Proof.
  induction n as [n IH] using (well_founded_induction lt_wf). intros s pre args out k Hn Hk Hs Ha.
  destruct k as [|k]; [lia|]. cbn [kernel_loop]. rewrite <- (Nat.add_0_r (length pre)), lookup_plus.
  destruct s as [|c s]; [cbn; by rewrite app_nil_r|]. cbn [lookup list_lookup app mbind option_bind].
  pose proof Hs as [Hc Hs']%Forall_cons. simpl in Hc, Hn. rewrite (proj2 (Z.eqb_neq c 0)) by lia.
  destruct (Z.eqb_spec c 37) as [->|Hc37]; cbn [negb].
  2:{ replace (pre ++ c :: s ++ 0 :: rest) with ((pre ++ [c]) ++ s ++ 0 :: rest) by (by rewrite <- app_assoc).
      replace (S (length pre + 0)) with (length (pre ++ [c])) by (rewrite length_app; simpl; lia).
      rewrite (IH (n - 1)%nat) by (done || lia). cbn [parse]. rewrite (proj2 (Z.eqb_neq c 37)), format_cons by done.
      cbn [render mbind option_bind]. by rewrite (dv_emit _ _ kernel_device) by lia. }
  replace (S (length pre + 0)) with (length pre + 1)%nat by lia. rewrite lookup_plus.
  destruct s as [|c0 l]; [cbn; by rewrite app_nil_r|]. cbn [lookup list_lookup app mbind option_bind].
  apply Forall_cons in Hs' as [Hc0 Hl]. simpl in Hc0, Hn. rewrite (proj2 (Z.eqb_neq c0 0)) by lia.
  rewrite <- !Nat.add_assoc, !lookup_plus. destruct (next_chars l rest Hl) as [H1 H2].
  change ((37 :: c0 :: l ++ 0 :: rest) !! (1 + 1)%nat) with ((l ++ 0 :: rest) !! 0%nat).
  change ((37 :: c0 :: l ++ 0 :: rest) !! (1 + 2)%nat) with ((l ++ 0 :: rest) !! 1%nat).
  rewrite H1. cbn [mbind option_bind]. rewrite H2. cbn [mbind option_bind].
  destruct (parse_conversion c0 l) as [-> Hlen]. set (x := choose _ _ _) in *.
  rewrite kernel_conv_render by done. fold x. rewrite format_cons.
  destruct (render kernel_digits x.1 args) as [[o r]|] eqn:E; [|done]. cbn [mbind option_bind].
  replace (pre ++ 37 :: c0 :: l ++ 0 :: rest) with ((pre ++ 37 :: c0 :: take x.2 l) ++ drop x.2 l ++ 0 :: rest)
    by (rewrite <- app_assoc; simpl; by rewrite (app_assoc (take _ _)), take_drop).
  replace (S (length pre + 1 + x.2)) with (length (pre ++ 37 :: c0 :: take x.2 l))
    by (rewrite length_app; simpl; rewrite length_take; lia).
  apply (IH (n - 2)%nat); [lia|rewrite length_drop; lia|lia|by apply Forall_drop|by eapply render_args].
Qed.

Lemma user_loop_format n : forall s pre args out k, (length s <= n)%nat -> (n < k)%nat ->
  Forall (fun c => 0 < c < 256) s -> Forall arg_ok args ->
  user_loop (pre ++ s ++ 0 :: rest) k args (length pre) false out = app out <$> format user_digits (parse 0 s) args.
Proof.
  induction n as [n IH] using (well_founded_induction lt_wf). intros s pre args out k Hn Hk Hs Ha.
  destruct k as [|k]; [lia|]. cbn [user_loop]. rewrite <- (Nat.add_0_r (length pre)), lookup_plus.
  destruct s as [|c s]; [cbn; by rewrite app_nil_r|]. cbn [lookup list_lookup app mbind option_bind].
  pose proof Hs as [Hc Hs']%Forall_cons. simpl in Hc, Hn. rewrite (proj2 (Z.eqb_neq c 0)) by lia. cbn [negb].
  destruct (Z.eqb_spec c 37) as [->|Hc37].
  2:{ replace (pre ++ c :: s ++ 0 :: rest) with ((pre ++ [c]) ++ s ++ 0 :: rest) by (by rewrite <- app_assoc).
      replace (S (length pre + 0)) with (length (pre ++ [c])) by (rewrite length_app; simpl; lia).
      rewrite (IH (n - 1)%nat) by (done || lia). cbn [parse]. rewrite (proj2 (Z.eqb_neq c 37)), format_cons by done.
      cbn [render mbind option_bind]. by rewrite (dv_emit _ _ user_device) by lia. }
  replace (S (length pre + 0)) with (length pre + 1)%nat by lia.
  destruct k as [|k]; [lia|]. cbn [user_loop]. rewrite lookup_plus.
  destruct s as [|c0 l]; [cbn; by rewrite app_nil_r|]. cbn [lookup list_lookup app mbind option_bind].
  apply Forall_cons in Hs' as [Hc0 Hl]. simpl in Hc0, Hn. rewrite (proj2 (Z.eqb_neq c0 0)) by lia. cbn [negb].
  rewrite <- !Nat.add_assoc, !lookup_plus. destruct (next_chars l rest Hl) as [H1 H2].
  change ((37 :: c0 :: l ++ 0 :: rest) !! (1 + 1)%nat) with ((l ++ 0 :: rest) !! 0%nat).
  change ((37 :: c0 :: l ++ 0 :: rest) !! (1 + 2)%nat) with ((l ++ 0 :: rest) !! 1%nat).
  rewrite H1. cbn [mbind option_bind]. rewrite H2. cbn [mbind option_bind].
  destruct (parse_conversion c0 l) as [-> Hlen]. set (x := choose _ _ _) in *.
  rewrite user_conv_render by done. fold x. rewrite format_cons.
  destruct (render user_digits x.1 args) as [[o r]|] eqn:E; [|done]. cbn [mbind option_bind].
  replace (pre ++ 37 :: c0 :: l ++ 0 :: rest) with ((pre ++ 37 :: c0 :: take x.2 l) ++ drop x.2 l ++ 0 :: rest)
    by (rewrite <- app_assoc; simpl; by rewrite (app_assoc (take _ _)), take_drop).
  replace (S (length pre + 1 + x.2)) with (length (pre ++ 37 :: c0 :: take x.2 l))
    by (rewrite length_app; simpl; rewrite length_take; lia).
  apply (IH (n - 2)%nat); [lia|rewrite length_drop; lia|lia|by apply Forall_drop|by eapply render_args].
Qed.
End Loops.


(** Decimal digits are the same characters in both tables. *)
Lemma decimal_digit d : 0 <= d < 10 -> digit_of user_digits d = 48 + d.
Proof.
  intros Hd. assert (d ∈ [0; 1; 2; 3; 4; 5; 6; 7; 8; 9]) as Hin by (rewrite !elem_of_cons; lia). clear -Hin.
  repeat (apply elem_of_cons in Hin as [->|Hin]; [done|]). by apply elem_of_nil in Hin.
Qed.

Lemma foldl_base_le base (l : list Z) a : 0 <= a -> 1 <= base -> Forall (fun d => 0 <= d < base) l -> a <= foldl (fun a d => a * base + d) a l.
Proof. intros Ha Hb Hl. revert a Ha. induction Hl as [|d l Hd Hl IH]; intros a Ha; simpl; [lia|]. etrans; [|apply IH]; nia. Qed.

Lemma atoi_digits ds rest c a : Forall (fun d => 0 <= d < 10) ds -> 0 <= a -> foldl (fun a d => a * 10 + d) a ds < 2 ^ 31 -> ~ 48 <= c <= 57 ->
  atoi_loop ((digit_of user_digits <$> ds) ++ c :: rest) a = Some (foldl (fun a d => a * 10 + d) a ds).
Proof.
  intros Hd. revert a. induction Hd as [|d ds Hd Hds IH]; intros a Ha Hlt Hc; simpl in *; [by rewrite decide_False|].
  rewrite decimal_digit, decide_True by lia. pose proof (foldl_base_le 10 ds (a * 10 + d) ltac:(lia) ltac:(lia) Hds).
  replace (a * 10 + (48 + d) - 48) with (a * 10 + d) by lia. rewrite s32_small by lia. apply IH; (lia || done).
Qed.

(** atoi reads back what printing a nonnegative int in decimal gives. *)
Theorem printint_atoi xx sgn rest c : 0 <= xx < 2 ^ 31 -> ~ 48 <= c <= 57 ->
  exists out, user_printint xx 10 sgn = Some out /\ atoi (out ++ c :: rest) = Some xx.
Proof.
  intros Hx Hc. rewrite user_printint_show by (by left || lia).
  replace (if sgn then xx else u64 xx) with xx by (destruct sgn; [done|by rewrite u64_small by lia]).
  unfold show. rewrite (proj2 (Z.eqb_neq xx _)), (proj2 (Z.ltb_ge xx 0)), Z.abs_eq by lia.
  destruct (numeral_spec 10 9 ltac:(lia) 64 xx) as (Hr & Hv & _); [change (Z.of_nat 10) with 10; lia|lia|].
  eexists. split; [done|]. set (ds := numeral 64 10 xx) in *. clearbody ds.
  rewrite <- Hv in Hx |- *. apply atoi_digits; [done|lia|unfold number in Hx; lia|done].
Qed.

(** * Examples *)
Definition sample_fmt : list Z := [97; 37; 100; 37; 108; 120; 37; 115; 37; 99; 37; 122; 37].
Definition sample_args : list arg := [AInt (2 ^ 64 - 7); AInt 0x2a; AStr None; AInt 33].

