(* ===== verification/Console.v ===== *)
(** The console, kernel/console.c, and the driver of the uart below it,
    kernel/uart.c.  The device is a class of register reads and writes with its
    documented behaviour; consoleread, consolewrite and uartwrite are cut where
    [sleep] gives up the lock, as the pipes are. *)
From S2P Require Import Prelude Ring UserIface Printf.
Local Open Scope Z_scope.

(** * The device *)
Definition LSR_RX_READY : Z := Z.shiftl 1 0.
Definition LSR_TX_IDLE : Z := Z.shiftl 1 5.
Definition FIFO_SIZE : nat := 16.

(** A 16550a with its FIFOs enabled.  [rx] is the input that has not been read,
    up to the first moment at which none is waiting; [tx] is what was transmitted
    or is waiting to be, [fifo] counts what is waiting, and [delay] bounds how often
    the status can be read before all of it is sent: transmission takes time, but
    it does end. *)
Class UartDevice (D : Type) := {
  read_isr : D -> D;
  read_lsr : D -> Z * D;
  read_rhr : D -> Z * D;
  write_thr : Z -> D -> D;
  rx : D -> list Z;
  tx : D -> list Z;
  fifo : D -> nat;
  delay : D -> nat;
  isr_keeps d : rx (read_isr d) = rx d /\ tx (read_isr d) = tx d /\ fifo (read_isr d) = fifo d;
  (** Reading the status changes nothing, but time passes. *)
  lsr_keeps d : rx (read_lsr d).2 = rx d /\ tx (read_lsr d).2 = tx d;
  lsr_time d : (fifo (read_lsr d).2 <= fifo d)%nat /\ (delay (read_lsr d).2 <= pred (delay d))%nat;
  delay_sent d : delay d = 0%nat -> fifo d = 0%nat;
  lsr_rx d : Z.land (read_lsr d).1 LSR_RX_READY = 0 <-> rx d = [];
  lsr_tx d : Z.land (read_lsr d).1 LSR_TX_IDLE = 0 <-> fifo d <> 0%nat;
  rhr_takes d c q : rx d = c :: q -> read_rhr d = (c, (read_rhr d).2) /\ is_byte c /\
    rx (read_rhr d).2 = q /\ tx (read_rhr d).2 = tx d /\ (fifo (read_rhr d).2 <= fifo d)%nat;
  (** A byte stored while the FIFO has room is sent after the others. *)
  thr_sends d c : (fifo d < FIFO_SIZE)%nat -> rx (write_thr c d) = rx d /\
    tx (write_thr c d) = tx d ++ [c] /\ (fifo (write_thr c d) <= S (fifo d))%nat
}.

(** What uartinit writes to the registers, in order, and its registers. *)
Definition IER : Z := 1.
Definition IER_RX_ENABLE : Z := Z.shiftl 1 0.
Definition IER_TX_ENABLE : Z := Z.shiftl 1 1.
Definition FCR : Z := 2.
Definition FCR_FIFO_ENABLE : Z := Z.shiftl 1 0.
Definition FCR_FIFO_CLEAR : Z := Z.shiftl 3 1.
Definition LCR : Z := 3.
Definition LCR_EIGHT_BITS : Z := Z.shiftl 3 0.
Definition LCR_BAUD_LATCH : Z := Z.shiftl 1 7.
Definition uartinit : list (Z * Z) :=
  [(IER, 0); (LCR, LCR_BAUD_LATCH); (0, 3); (1, 0); (LCR, LCR_EIGHT_BITS);
   (FCR, Z.lor FCR_FIFO_ENABLE FCR_FIFO_CLEAR); (IER, Z.lor IER_TX_ENABLE IER_RX_ENABLE)].

(** * State *)
(** [C(x)] *)
Definition ctrl (x : Z) : Z := x - 64.
Definition ctrl_P : Z := ctrl 80.
Definition ctrl_U : Z := ctrl 85.
Definition ctrl_H : Z := ctrl 72.
Definition ctrl_D : Z := ctrl 68.
Definition delete_key : Z := 0x7f.
Definition newline : Z := 10.

Definition INPUT_BUF_SIZE : Z := 128.

(** [cons]; [cons_r], [cons_w] and [cons_e] are 32-bit counters. *)
Record cons := mkCons { cons_buf : list Z; cons_r : Z; cons_w : Z; cons_e : Z }.

Inductive chan := chan_cons_r | chan_tx.

(** The console, the uart driver's [tx_busy], the flag set by a panic, the
    device, the wakeups issued so far and the memory of the current process. *)
Record cstate (D U : Type) := mkCstate {
  con : cons; tx_busy : bool; panicked : bool; dev : D; wakeups : list chan; usr : U
}.
Arguments mkCstate {D U}.
Arguments con {D U}.
Arguments tx_busy {D U}.
Arguments panicked {D U}.
Arguments dev {D U}.
Arguments wakeups {D U}.
Arguments usr {D U}.

#[export] Program Instance cstate_usr D U : Lens (cstate D U) U := {
  view := usr;
  over u s := mkCstate (con s) (tx_busy s) (panicked s) (dev s) (wakeups s) u
}.
Next Obligation. done. Qed.
Next Obligation. by intros D U []. Qed.
Next Obligation. done. Qed.

Section Operations.
Context {D U : Type} `{UartDevice D} `{UserMemory U}.
Implicit Types (s : cstate D U).

Definition set_con (f : cons -> cons) : M (cstate D U) unit :=
  modify (fun s => mkCstate (f (con s)) (tx_busy s) (panicked s) (dev s) (wakeups s) (usr s)).
Definition set_busy (b : bool) : M (cstate D U) unit :=
  modify (fun s => mkCstate (con s) b (panicked s) (dev s) (wakeups s) (usr s)).
Definition wakeup (c : chan) : M (cstate D U) unit :=
  modify (fun s => mkCstate (con s) (tx_busy s) (panicked s) (dev s) (wakeups s ++ [c]) (usr s)).
Definition set_dev (d : D) : M (cstate D U) unit :=
  modify (fun s => mkCstate (con s) (tx_busy s) (panicked s) d (wakeups s) (usr s)).

(** * uart.c *)

(** [ReadReg] and [WriteReg] *)
Definition ReadLSR : M (cstate D U) Z := d ← gets dev; set_dev (read_lsr d).2;; mret (read_lsr d).1.
Definition ReadRHR : M (cstate D U) Z := d ← gets dev; set_dev (read_rhr d).2;; mret (read_rhr d).1.
Definition ReadISR : M (cstate D U) unit := d ← gets dev; set_dev (read_isr d).
Definition WriteTHR (c : Z) : M (cstate D U) unit := d ← gets dev; set_dev (write_thr (u8 c) d).

(** The polling loop and the store; after a panic the processor spins. *)
Definition uartputc_sync (c : Z) : M (cstate D U) unit :=
  p ← gets panicked;
  (if p : bool then blocked "panicked" else mret tt);;
  d ← gets dev;
  loop (S (S (delay d))) (fun _ => v ← ReadLSR; if decide (Z.land v LSR_TX_IDLE = 0) then mret (inl tt) else mret (inr tt)) tt;;
  WriteTHR c.

(** -1 when no character is waiting. *)
Definition uartgetc : M (cstate D U) Z :=
  v ← ReadLSR;
  if decide (Z.land v LSR_RX_READY <> 0) then ReadRHR else mret (-1).

(** A segment of uartwrite from byte [i]: [Some j] if it went to sleep before
    byte [j]. *)
Definition uartwrite_body (buf : list Z) (n i : Z) : M (cstate D U) (Z + option Z) :=
  if decide (i < n) then
    b ← gets tx_busy;
    if b : bool then mret (inr (Some i))
    else
      c ← (match buf !! Z.to_nat i with Some c => mret c | None => undef "buf[i]" end);
      WriteTHR c;; set_busy true;; mret (inl (i + 1))
  else mret (inr None).
Definition uartwrite (buf : list Z) (n i : Z) : M (cstate D U) (option Z) :=
  acquire tx_lock;;
  r ← loop (S (Z.to_nat (n - i))) (uartwrite_body buf n) i;
  release tx_lock;;
  mret r.

(** * console.c *)
Definition consputc (c : Z) : M (cstate D U) unit :=
  if decide (c = BACKSPACE) then uartputc_sync 8;; uartputc_sync 32;; uartputc_sync 8
  else uartputc_sync c.

(** [cons.e--], [cons.w = cons.e] and [cons.r--] *)
Definition dec_e (c : cons) : cons := mkCons (cons_buf c) (cons_r c) (cons_w c) (u32 (cons_e c - 1)).
Definition commit (c : cons) : cons := mkCons (cons_buf c) (cons_r c) (cons_e c) (cons_e c).
Definition inc_r (c : cons) : cons := mkCons (cons_buf c) (u32 (cons_r c + 1)) (cons_w c) (cons_e c).
Definition dec_r (c : cons) : cons := mkCons (cons_buf c) (u32 (cons_r c - 1)) (cons_w c) (cons_e c).
(** [cons.buf[cons.e++ % INPUT_BUF_SIZE] = ch] *)
Definition store (ch : Z) (c : cons) : cons :=
  mkCons (<[Z.to_nat (cons_e c mod INPUT_BUF_SIZE) := ch]> (cons_buf c)) (cons_r c) (cons_w c) (u32 (cons_e c + 1)).
(** [cons.buf[k % INPUT_BUF_SIZE]] *)
Definition at_index (c : cons) (k : Z) : Z := nth (Z.to_nat (u32 k mod INPUT_BUF_SIZE)) (cons_buf c) 0.

(** Control-U: erase to the start of the line. *)
Definition kill_line : M (cstate D U) unit :=
  c ← gets con;
  loop (S (Z.to_nat (u32 (cons_e c - cons_w c)))) (fun _ =>
    c ← gets con;
    if decide (cons_e c <> cons_w c /\ at_index c (cons_e c - 1) <> newline) then
      set_con dec_e;; consputc BACKSPACE;; mret (inl tt)
    else mret (inr tt)) tt.

(** The console's handler for one character; [procdump] is what the process list
    prints. *)
Definition consoleintr (procdump : list Z) (c : Z) : M (cstate D U) unit :=
  acquire cons_lock;;
  (if decide (c = ctrl_P) then loop (S (length procdump)) (fun l =>
     match l with [] => mret (inr tt) | x :: l' => consputc x;; mret (inl l') end) procdump
   else if decide (c = ctrl_U) then kill_line
   else if decide (c = ctrl_H \/ c = delete_key) then
     k ← gets con;
     if decide (cons_e k <> cons_w k) then set_con dec_e;; consputc BACKSPACE else mret tt
   else
     k ← gets con;
     if decide (c <> 0 /\ u32 (cons_e k - cons_r k) < INPUT_BUF_SIZE) then
       let c := if decide (c = 13) then newline else c in
       consputc c;;
       set_con (store c);;
       k ← gets con;
       if decide (c = newline \/ c = ctrl_D \/ u32 (cons_e k - cons_r k) = INPUT_BUF_SIZE) then
         set_con commit;; wakeup chan_cons_r
       else mret tt
     else mret tt);;
  release cons_lock.

(** The uart's handler. *)
Definition uartintr (procdump : list Z) : M (cstate D U) unit :=
  ReadISR;;
  acquire tx_lock;;
  v ← ReadLSR;
  (if decide (Z.land v LSR_TX_IDLE <> 0) then set_busy false;; wakeup chan_tx else mret tt);;
  release tx_lock;;
  d ← gets dev;
  loop (S (length (rx d))) (fun _ =>
    c ← uartgetc;
    if decide (c = -1) then mret (inr tt) else consoleintr procdump c;; mret (inl tt)) tt.

(** Why the loop of consoleread stops: killed while waiting; about to sleep with
    [n] bytes still wanted at [dst]; or done with [n] bytes not delivered. *)
Inductive rexit := RKilled | RSleep (dst n : Z) | RDone (n : Z).

Definition consoleread_body (target : Z) (killed : bool) (x : Z * Z) : M (cstate D U) (Z * Z + rexit) :=
  let '(dst, n) := x in
  if decide (n > 0) then
    k ← gets con;
    if decide (cons_r k = cons_w k) then
      if killed then mret (inr RKilled) else mret (inr (RSleep dst n))
    else
      let c := at_index k (cons_r k) in
      set_con inc_r;;
      if decide (c = ctrl_D) then
        (if decide (u32 n < u32 target) then set_con dec_r else mret tt);;
        mret (inr (RDone n))
      else
        r ← zoom (ucopyout dst [c]);
        if decide (r = -1) then mret (inr (RDone n))
        else if decide (c = newline) then mret (inr (RDone (n - 1)))
        else mret (inl (u64 (dst + 1), n - 1))
  else mret (inr (RDone n)).

(** How a segment ends: asleep, to go on at [dst] with [n] bytes wanted, or
    returned. *)
Inductive outcome_read := RAsleep (dst n : Z) | RRet (r : Z).

(** A segment of consoleread to user memory, the only use of it; the call starts
    with [n = target]. *)
Definition consoleread (target : Z) (killed : bool) (dst n : Z) : M (cstate D U) outcome_read :=
  acquire cons_lock;;
  x ← loop (S (Z.to_nat n)) (consoleread_body target killed) (dst, n);
  release cons_lock;;
  mret (match x with
        | RKilled => RRet (-1)
        | RSleep dst n => RAsleep dst n
        | RDone n => RRet (s32 (target - n))
        end).

(** Where a writer sleeps: in the batch [buf] of [nn] bytes that starts at byte
    [i] of the call, before byte [j] of it. *)
Record wpoint := mkWpoint { wp_i : Z; wp_buf : list Z; wp_nn : Z; wp_j : Z }.
Inductive outcome_write := WAsleep (p : wpoint) | WRet (r : Z).

Definition BATCH : Z := 32.

(** One round of the loop of consolewrite from byte [i], the batch being copied
    in or, for a woken writer, at hand. *)
Definition send_batch (p : wpoint) : M (cstate D U) (Z + outcome_write) :=
  r ← uartwrite (wp_buf p) (wp_nn p) (wp_j p);
  match r with
  | Some j => mret (inr (WAsleep (mkWpoint (wp_i p) (wp_buf p) (wp_nn p) j)))
  | None => mret (inl (wp_i p + wp_nn p))
  end.
Definition consolewrite_body (src n i : Z) : M (cstate D U) (Z + outcome_write) :=
  if decide (i < n) then
    let nn := if decide (BATCH > n - i) then n - i else BATCH in
    r ← zoom (ucopyin (u64 (src + i)) nn);
    if decide (r.1 = -1) then mret (inr (WRet i))
    else send_batch (mkWpoint i r.2 nn 0)
  else mret (inr (WRet i)).

(** A segment of consolewrite: the call starts at [None], a woken writer at the
    point where it slept. *)
Definition consolewrite (src n : Z) (p : option wpoint) : M (cstate D U) outcome_write :=
  x ← (match p with None => mret (inl 0) | Some p => send_batch p end);
  match x with
  | inl i => loop (S (Z.to_nat (n - i))) (consolewrite_body src n) i
  | inr o => mret o
  end.
End Operations.

(** * The line discipline

    Reads deliver [committed]; [editing] is the line being typed. *)
Record line := mkLine { committed : list Z; editing : list Z }.

(** What a character does to the lines, what is echoed, and whether readers are
    woken. *)
Definition line_step (procdump : list Z) (a : line) (c : Z) : line * list Z * bool :=
  let '(mkLine q l) := a in
  if decide (c = ctrl_P) then (a, procdump ≫= cons_bytes, false)
  else if decide (c = ctrl_U) then (mkLine q [], l ≫= (fun _ => cons_bytes BACKSPACE), false)
  else if decide (c = ctrl_H \/ c = delete_key) then
    if decide (l = []) then (a, [], false) else (mkLine q (take (pred (length l)) l), cons_bytes BACKSPACE, false)
  else if decide (c = 0 \/ INPUT_BUF_SIZE <= Z.of_nat (length (q ++ l))) then (a, [], false)
  else
    let c := if decide (c = 13) then newline else c in
    if decide (c = newline \/ c = ctrl_D \/ Z.of_nat (length (q ++ l)) + 1 = INPUT_BUF_SIZE)
    then (mkLine (q ++ l ++ [c]) [], [c], true) else (mkLine q (l ++ [c]), [c], false).

(** The same for a sequence of characters; the readers are woken once for each
    line that was completed. *)
Fixpoint line_run (procdump : list Z) (a : line) (cs : list Z) : line * list Z * list chan :=
  match cs with
  | [] => (a, [], [])
  | c :: cs' =>
      let '(a1, out1, wk) := line_step procdump a c in
      let '(a2, out2, wks) := line_run procdump a1 cs' in
      (a2, out1 ++ out2, (if wk then [chan_cons_r] else []) ++ wks)
  end.

(** What a read of [n] bytes takes of the committed lines: the bytes delivered,
    the lines left, and whether the reader must wait for more.  An end of file is
    kept for the next read when this one has delivered something. *)
Fixpoint read_line (q : list Z) (n : nat) (started : bool) {struct n} : list Z * list Z * bool :=
  match n, q with
  | O, _ => ([], q, false)
  | S _, [] => ([], [], true)
  | S n', c :: q' =>
      if decide (c = ctrl_D) then ([], if started then q else q', false)
      else if decide (c = newline) then ([c], q', false)
      else let '(bs, rest, wait) := read_line q' n' true in (c :: bs, rest, wait)
  end.

#[export] Instance INPUT_BUF_SIZE_ring : RingSize INPUT_BUF_SIZE.
Proof. split; [done|]. by exists (2 ^ 25). Qed.

(** The circular buffer holds the committed lines, then the one being edited. *)
Record cons_rep (k : cons) (a : line) : Prop := {
  cr_buf : Z.of_nat (length (cons_buf k)) = INPUT_BUF_SIZE;
  cr_r : 0 <= cons_r k < 2 ^ 32;
  cr_w : cons_w k = u32 (cons_r k + Z.of_nat (length (committed a)));
  cr_e : cons_e k = u32 (cons_r k + Z.of_nat (length (committed a ++ editing a)));
  cr_max : Z.of_nat (length (committed a ++ editing a)) <= INPUT_BUF_SIZE;
  cr_full : Z.of_nat (length (committed a ++ editing a)) = INPUT_BUF_SIZE -> editing a = [];
  cr_line : newline ∉ editing a;
  cr_bytes : Forall is_byte (committed a ++ editing a);
  cr_ring : ring INPUT_BUF_SIZE (cons_buf k) (cons_r k) (committed a ++ editing a)
}.

Lemma cons_e_r k a : cons_rep k a -> u32 (cons_e k - cons_r k) = Z.of_nat (length (committed a ++ editing a)).
Proof. intros [_ Hr _ -> Hm _ _ _ _]. unfold u32, INPUT_BUF_SIZE in *. zdiv. Qed.

Lemma cons_e_w k a : cons_rep k a -> cons_e k = cons_w k <-> editing a = [].
Proof.
  intros [_ Hr -> -> Hm _ _ _ _]. rewrite <- length_zero_iff_nil. rewrite length_app in *.
  unfold u32, INPUT_BUF_SIZE in *. split; zdiv.
Qed.

Lemma cons_r_w k a : cons_rep k a -> cons_r k = cons_w k <-> committed a = [].
Proof.
  intros [_ Hr -> _ Hm _ _ _ _]. rewrite <- length_zero_iff_nil. rewrite length_app in Hm.
  unfold u32, INPUT_BUF_SIZE in *. split; zdiv.
Qed.

Lemma cons_e_w_count k a : cons_rep k a -> u32 (cons_e k - cons_w k) = Z.of_nat (length (editing a)).
Proof.
  intros [_ Hr -> -> Hm _ _ _ _]. rewrite length_app in *. unfold u32, INPUT_BUF_SIZE in *. zdiv.
Qed.

(** What the updates of the counters do. *)
Lemma dec_e_rep k q l x : cons_rep k (mkLine q (l ++ [x])) -> cons_rep (dec_e k) (mkLine q l).
Proof.
  intros [Hb Hr Hw He Hm Hf Hn Hby Hq]. unfold dec_e. simpl in *. rewrite !app_assoc in *.
  split; simpl; try done.
  - rewrite He, length_app. simpl. unfold u32. rewrite Zminus_mod_idemp_l. f_equal. lia.
  - rewrite length_app in Hm. lia.
  - rewrite length_app in Hm. simpl in Hm. lia.
  - set_solver.
  - by apply Forall_app in Hby as [? _].
  - by eapply ring_prefix.
Qed.

Lemma at_index_e k q l x : cons_rep k (mkLine q (l ++ [x])) -> at_index k (cons_e k - 1) = x.
Proof.
  intros [Hb Hr Hw He Hm Hf Hn Hby Hq]. simpl in *. rewrite !app_assoc in *. unfold at_index.
  apply nth_lookup_Some. rewrite u32_mod_ring, He by apply _. apply ring_last in Hq. rewrite <- Hq. do 2 f_equal.
  rewrite <- Zminus_mod_idemp_l, u32_mod_ring, Zminus_mod_idemp_l by apply _. f_equal. rewrite length_app. simpl. lia.
Qed.

Lemma store_ring k q l c : cons_rep k (mkLine q l) -> Z.of_nat (length (q ++ l)) < INPUT_BUF_SIZE ->
  ring INPUT_BUF_SIZE (cons_buf (store c k)) (cons_r k) (q ++ l ++ [c]).
Proof.
  intros [Hb Hr Hw He Hm Hf Hn Hby Hq] Hlt. simpl in *. rewrite He, u32_mod_ring, app_assoc by apply _. by apply ring_push; try apply _.
Qed.

Lemma store_e k q l c : cons_rep k (mkLine q l) -> cons_e (store c k) = u32 (cons_r k + Z.of_nat (length (q ++ l ++ [c]))).
Proof.
  intros [_ _ _ He _ _ _ _ _]. simpl in *. rewrite He, !length_app. simpl. unfold u32. rewrite Zplus_mod_idemp_l. f_equal. lia.
Qed.

Lemma cons_store_rep k q l c : cons_rep k (mkLine q l) -> Z.of_nat (length (q ++ l)) + 1 < INPUT_BUF_SIZE -> is_byte c -> c <> newline ->
  cons_rep (store c k) (mkLine q (l ++ [c])).
Proof.
  intros Hk Hlt Hc Hn. pose proof (store_ring k q l c Hk ltac:(lia)). pose proof (store_e k q l c Hk).
  destruct Hk as [Hb' Hr' Hw' He' Hm' Hf' Hn' Hby' Hq']. rewrite length_app in Hlt.
  split; simpl in *; try done; rewrite ?length_insert, ?length_app; simpl; try lia.
  - set_solver.
  - rewrite app_assoc. by apply Forall_app_2; [|constructor].
Qed.

Lemma commit_store_rep k q l c : cons_rep k (mkLine q l) -> Z.of_nat (length (q ++ l)) < INPUT_BUF_SIZE -> is_byte c ->
  cons_rep (commit (store c k)) (mkLine (q ++ l ++ [c]) []).
Proof.
  intros Hk Hlt Hc. pose proof (store_ring k q l c Hk ltac:(lia)) as Hring. pose proof (store_e k q l c Hk) as Hstore.
  destruct Hk as [Hb' Hr' Hw' He' Hm' Hf' Hn' Hby' Hq'].
  assert (Z.of_nat (length (q ++ l ++ [c])) <= INPUT_BUF_SIZE) by (rewrite app_assoc, length_app; simpl; lia).
  split; simpl in *; rewrite ?app_nil_r, ?length_insert; try done; [set_solver|].
  rewrite app_assoc. by apply Forall_app_2; [|constructor].
Qed.

Lemma inc_r_rep k b q l : cons_rep k (mkLine (b :: q) l) -> cons_rep (inc_r k) (mkLine q l).
Proof.
  intros [Hb Hr Hw He Hm Hf Hn Hby Hq]. simpl in *. split; simpl; try done; try lia.
  - apply u32_range.
  - rewrite Hw. unfold u32. rewrite Zplus_mod_idemp_l. f_equal. lia.
  - rewrite He. unfold u32. rewrite Zplus_mod_idemp_l. f_equal. lia.
  - by apply Forall_cons in Hby as [_ ?].
  - apply ring_u32; [apply _|]. by eapply ring_tail.
Qed.

Lemma at_index_r k b q l : cons_rep k (mkLine (b :: q) l) -> at_index k (cons_r k) = b.
Proof.
  intros [Hb Hr Hw He Hm Hf Hn Hby Hq]. simpl in *. unfold at_index. apply nth_lookup_Some.
  rewrite u32_mod_ring by apply _. by eapply ring_head.
Qed.

Lemma dec_inc_r k a : cons_rep k a -> dec_r (inc_r k) = k.
Proof.
  intros [_ Hr _ _ _ _ _ _ _]. destruct k. unfold dec_r, inc_r. simpl in *. f_equal. unfold u32. zdiv.
Qed.

(** * Correctness *)
Section Correctness.
Context {D U : Type} `{UartDevice D} `{UserMemory U}.
Implicit Types (s : cstate D U) (L : list lock).

(** At most one byte of an interrupt-driven write and one polled byte wait in
    the device, so its FIFO never overflows. *)
Definition out_ok s : Prop :=
  panicked s = false /\ (fifo (dev s) <= 2)%nat /\ (tx_busy s = false -> (fifo (dev s) <= 1)%nat).

(** Nothing but the device differs. *)
Definition but_dev s s' : Prop :=
  con s' = con s /\ tx_busy s' = tx_busy s /\ panicked s' = panicked s /\ wakeups s' = wakeups s /\ usr s' = usr s.

Lemma but_dev_trans s s1 s2 : but_dev s s1 -> but_dev s1 s2 -> but_dev s s2.
Proof. unfold but_dev. intuition congruence. Qed.

(** From [s] to [s'] the bytes [bs] were sent, and nothing else changed. *)
Record echo s bs s' : Prop := {
  ec_rest : but_dev s s';
  ec_rx : rx (dev s') = rx (dev s);
  ec_tx : tx (dev s') = tx (dev s) ++ bs;
  ec_ok : out_ok s'
}.

Lemma echo_nil s : out_ok s -> echo s [] s.
Proof. intros Hs. split; rewrite ?app_nil_r; done. Qed.

Lemma echo_app s bs s1 bs' s2 : echo s bs s1 -> echo s1 bs' s2 -> echo s (bs ++ bs') s2.
Proof.
  intros [E1 R1 T1 _] [E2 R2 T2 O2]. split; [by eapply but_dev_trans|congruence| |done]. by rewrite T2, T1, app_assoc.
Qed.

(** The polling loop ends when the FIFO is empty. *)
Lemma poll_wp L s : wp (loop (S (S (delay (dev s)))) (fun _ => v ← ReadLSR;
    if decide (Z.land v LSR_TX_IDLE = 0) then mret (inl tt) else mret (inr tt)) tt) L s (fun _ s' =>
  but_dev s s' /\ rx (dev s') = rx (dev s) /\ tx (dev s') = tx (dev s) /\ fifo (dev s') = 0%nat).
Proof.
  apply (wpl_loop_state (fun _ s1 => but_dev s s1 /\ rx (dev s1) = rx (dev s) /\ tx (dev s1) = tx (dev s))
    (fun _ s1 => delay (dev s1))).
  - intros [] s1 (E & Hrx & Htx). unfold ReadLSR, set_dev. wsteps.
    destruct (lsr_keeps (dev s1)) as [K1 K2]. pose proof (lsr_time (dev s1)) as Ht. pose proof (lsr_tx (dev s1)) as Hi.
    wcase as Hz; wsteps; (split; [done|]); simpl.
    + apply Hi in Hz. pose proof (delay_sent (dev s1)). rewrite K1, K2. split; [done|lia].
    + rewrite K1, K2. split_and!; try done. destruct (decide (fifo (dev s1) = 0)%nat) as [|Hne]; [lia|]. by apply Hi in Hne.
  - done.
  - lia.
Qed.

Lemma uartputc_sync_wp c L s : out_ok s -> wp (uartputc_sync c) L s (fun _ s' => echo s [u8 c] s').
Proof.
  intros (Hp & Hf & Hb). unfold uartputc_sync. wsteps. rewrite Hp. wsteps.
  eapply wpl_call; [apply poll_wp|]. intros _ s' (E & Hrx & Htx & Hz). unfold WriteTHR, set_dev. wsteps.
  destruct (thr_sends (dev s') (u8 c)) as (T1 & T2 & T3); [unfold FIFO_SIZE; lia|].
  split; [done|]. destruct E as (E1 & E2 & E3 & E4 & E5). split; simpl; rewrite ?T1, ?T2, ?Htx; try done.
  unfold out_ok. simpl. split; [congruence|lia].
Qed.

Lemma consputc_wp c L s : out_ok s -> wp (consputc c) L s (fun _ s' => echo s (cons_bytes c) s').
Proof.
  intros Hs. unfold consputc, cons_bytes. wstep. destruct (Z.eqb_spec c BACKSPACE) as [->|]; [wtrue; [|done]|wfalse; [|done]].
  - wstep. eapply wpl_call; [by apply uartputc_sync_wp|]. intros ? s1 H1. wstep.
    eapply wpl_call; [by apply uartputc_sync_wp, (ec_ok _ _ _ H1)|]. intros ? s2 H2.
    eapply wpl_call; [by apply uartputc_sync_wp, (ec_ok _ _ _ H2)|]. intros ? s3 H3. split; [done|].
    apply (echo_app s [8] s1 [32; 8] s3); [done|]. by apply (echo_app s1 [32] s2 [8] s3).
  - eapply wpl_call; [by apply uartputc_sync_wp|]. by intros ? s1 H1.
Qed.

(** The console went to the lines [a], sending [out] and waking [wks]. *)
Record stepped s a out wks s' : Prop := {
  st_con : cons_rep (con s') a;
  st_rx : rx (dev s') = rx (dev s);
  st_tx : tx (dev s') = tx (dev s) ++ out;
  st_wakeups : wakeups s' = wakeups s ++ wks;
  st_busy : tx_busy s' = tx_busy s;
  st_usr : usr s' = usr s;
  st_ok : out_ok s'
}.

Lemma stepped_nil s a : cons_rep (con s) a -> out_ok s -> stepped s a [] [] s.
Proof. intros. split; rewrite ?app_nil_r; done. Qed.

Lemma stepped_echo s a out wks s1 bs s2 : stepped s a out wks s1 -> echo s1 bs s2 -> stepped s a (out ++ bs) wks s2.
Proof.
  intros [C R T W B S O] [(E1 & E2 & E3 & E4 & E5) R2 T2 O2]. split; try congruence. by rewrite T2, T, app_assoc.
Qed.

Lemma stepped_con s a out wks s1 a' k : stepped s a out wks s1 -> cons_rep k a' ->
  stepped s a' out wks (mkCstate k (tx_busy s1) (panicked s1) (dev s1) (wakeups s1) (usr s1)).
Proof. intros [C R T W B S O] Hk. by split. Qed.

Lemma bind_const (l : list Z) (x : Z) (e : list Z) : ((x :: l) ≫= (fun _ => e)) = (l ≫= (fun _ => e)) ++ e.
Proof.
  change (e ++ (l ≫= (fun _ => e)) = (l ≫= (fun _ => e)) ++ e).
  induction l as [|y l IH]; [by rewrite app_nil_r|]. change ((y :: l) ≫= (fun _ => e)) with (e ++ (l ≫= (fun _ => e))).
  by rewrite <- app_assoc, <- IH.
Qed.

Lemma kill_line_wp L s q l : cons_rep (con s) (mkLine q l) -> out_ok s ->
  wp kill_line L s (fun _ s' => stepped s (mkLine q []) (l ≫= (fun _ => cons_bytes BACKSPACE)) [] s').
Proof.
  intros Hk Hs. unfold kill_line. wsteps. rewrite (cons_e_w_count _ _ Hk), Nat2Z.id. cbn [editing].
  eapply wpl_call; [apply (wpl_loop_state (fun _ s1 => exists l1 l2, l = l1 ++ l2 /\
      stepped s (mkLine q l1) (l2 ≫= (fun _ => cons_bytes BACKSPACE)) [] s1)
    (fun _ s1 => Z.to_nat (u32 (cons_e (con s1) - cons_w (con s1)))) _
    (fun _ s1 => stepped s (mkLine q []) (l ≫= (fun _ => cons_bytes BACKSPACE)) [] s1))|].
  - intros [] s1 (l1 & l2 & -> & Hst). pose proof (st_con _ _ _ _ _ Hst) as Hc. wsteps.
    destruct l1 as [|x l1 _] using rev_ind.
    { wfalse; [|intros [Hne _]; by apply Hne, (cons_e_w _ _ Hc)]. wsteps. done. }
    wtrue; last first.
    { split; [rewrite (cons_e_w _ _ Hc); intros E; by destruct l1|].
      rewrite (at_index_e _ _ _ _ Hc). pose proof (cr_line _ _ Hc) as Hn. simpl in Hn. set_solver. }
    pose proof (dec_e_rep _ _ _ _ Hc) as Hd.
    unfold set_con. wsteps. eapply wpl_call; [apply consputc_wp; by destruct Hst|]. intros ? s2 He. wsteps. split; [done|].
    pose proof (stepped_echo _ _ _ _ _ _ _ (stepped_con _ _ _ _ _ _ _ Hst Hd) He) as Hst2.
    split.
    + exists l1, (x :: l2). split; [by rewrite <- app_assoc|]. by rewrite bind_const.
    + rewrite (cons_e_w_count _ _ Hc), (cons_e_w_count _ _ (st_con _ _ _ _ _ Hst2)). rewrite !Nat2Z.id. simpl. rewrite length_app. simpl. lia.
  - exists l, []. rewrite app_nil_r. split; [done|]. by apply stepped_nil.
  - rewrite (cons_e_w_count _ _ Hk), Nat2Z.id. simpl. lia.
  - by intros ? s1 H1.
Qed.

Lemma print_wp L s bs : out_ok s ->
  wp (loop (S (length bs)) (fun l => match l with [] => mret (inr tt) | x :: l' => consputc x;; mret (inl l') end) bs) L s
    (fun _ s' => echo s (bs ≫= cons_bytes) s').
Proof.
  intros Hs. apply (wpl_loop (fun l s1 => exists l0, bs = l0 ++ l /\ echo s (l0 ≫= cons_bytes) s1) length).
  - intros l s1 (l0 & -> & He). destruct l as [|x l]; wsteps.
    + split; [done|]. by rewrite app_nil_r.
    + eapply wpl_call; [by apply consputc_wp, (ec_ok _ _ _ He)|]. intros ? s2 He2. wsteps. split; [done|]. split; [|simpl; lia].
      exists (l0 ++ [x]). split; [by rewrite <- app_assoc|]. rewrite bind_app. simpl. rewrite app_nil_r. by eapply echo_app.
  - exists []. split; [done|]. by apply echo_nil.
  - lia.
Qed.

(** The last case of consoleintr: a character is echoed and stored. *)
Lemma type_wp c L s q l : cons_rep (con s) (mkLine q l) -> out_ok s -> is_byte c -> Z.of_nat (length (q ++ l)) < INPUT_BUF_SIZE ->
  wp (consputc c;; set_con (store c);; k ← gets con;
      if decide (c = newline \/ c = ctrl_D \/ u32 (cons_e k - cons_r k) = INPUT_BUF_SIZE) then
        set_con commit;; wakeup chan_cons_r
      else mret tt) L s (fun _ s' =>
    if decide (c = newline \/ c = ctrl_D \/ Z.of_nat (length (q ++ l)) + 1 = INPUT_BUF_SIZE)
    then stepped s (mkLine (q ++ l ++ [c]) []) [c] [chan_cons_r] s' else stepped s (mkLine q (l ++ [c])) [c] [] s').
Proof.
  intros Hk Hs Hc Hlt. wstep. wstep. eapply wpl_call; [by apply consputc_wp|]. intros ? s1 He.
  replace (cons_bytes c) with [c] in He.
  2: { unfold cons_bytes. rewrite (proj2 (Z.eqb_neq _ _)); [by rewrite u8_small|]. unfold is_byte, BACKSPACE in *. lia. }
  pose proof (stepped_echo _ _ _ _ _ _ _ (stepped_nil _ _ Hk Hs) He) as Hst. simpl in Hst.
  pose proof (st_con _ _ _ _ _ Hst) as Hk1. unfold set_con, wakeup. wsteps.
  assert (Hcnt : u32 (cons_e (store c (con s1)) - cons_r (store c (con s1))) = Z.of_nat (length (q ++ l)) + 1).
  { rewrite (store_e _ _ _ _ Hk1). simpl cons_r. pose proof (cr_r _ _ Hk1). rewrite app_assoc, length_app.
    unfold u32, INPUT_BUF_SIZE in *. simpl length. zdiv. }
  cbn [con]. rewrite Hcnt. case_decide as Hd; wsteps; (split; [done|]).
  - pose proof (stepped_con _ _ _ _ _ _ _ Hst (commit_store_rep _ _ _ _ Hk1 Hlt Hc)) as [C R T W B V O].
    simpl in *. rewrite app_nil_r in W. split; simpl; try done. by rewrite W.
  - apply stepped_con with (a := mkLine q l); [done|]. apply cons_store_rep; [done|lia|done|tauto].
Qed.

Lemma consoleintr_wp procdump c L s a : cons_rep (con s) a -> out_ok s -> is_byte c -> cons_lock ∉ L ->
  wp (consoleintr procdump c) L s (fun _ s' => let '(a', out, wk) := line_step procdump a c in
    stepped s a' out (if wk then [chan_cons_r] else []) s').
Proof.
  intros Hk Hs Hc HL. destruct a as [q l]. pose proof (stepped_nil _ _ Hk Hs) as Hnil.
  unfold consoleintr, line_step. wstep. wstep. apply wpl_acquire; [done|]. wstep.
  destruct (decide (c = ctrl_P)).
  { eapply wpl_call; [by apply print_wp|]. intros ? s1 He. wsteps. split; [done|]. by apply (stepped_echo _ _ [] _ _ _ _ Hnil). }
  destruct (decide (c = ctrl_U)).
  { eapply wpl_call; [by eapply kill_line_wp|]. intros ? s1 He. wsteps. by split. }
  destruct (decide (c = ctrl_H \/ c = delete_key)).
  { wsteps. destruct (decide (l = [])) as [->|Hl].
    { wfalse; [by wsteps|]. rewrite (cons_e_w _ _ Hk). by intros []. }
    wtrue; [|by rewrite (cons_e_w _ _ Hk)]. destruct l as [|x l _] using rev_ind; [done|]. pose proof (dec_e_rep _ _ _ _ Hk) as Hd. unfold set_con. wsteps.
    eapply wpl_call; [by apply consputc_wp|]. intros ? s1 He. wsteps. split; [done|].
    rewrite length_app, Nat.add_1_r. cbn [Nat.pred]. rewrite take_app_length. by apply (stepped_echo _ _ [] _ _ _ _ (stepped_con _ _ _ _ _ _ _ Hnil Hd)). }
  wsteps. rewrite (cons_e_r _ _ Hk). simpl committed. simpl editing.
  destruct (decide (c = 0 \/ INPUT_BUF_SIZE <= Z.of_nat (length (q ++ l)))); [wfalse; [by wsteps|lia]|wtrue; [|lia]].
  eapply wpl_call; [apply (type_wp (if decide (c = 13) then newline else c) _ s q l); try done; [case_decide; done|lia]|].
  intros ? s1 Hst. wsteps. split; [done|]. by case_decide.
Qed.

(** Characters have been handled from [s0], and [rx] of the device is still to
    be. *)
Record intr_inv procdump (a : line) s0 s1 a1 out wks : Prop := {
  ii_run : line_run procdump a (rx (dev s0)) =
    let '(a2, out2, wks2) := line_run procdump a1 (rx (dev s1)) in (a2, out ++ out2, wks ++ wks2);
  ii_con : cons_rep (con s1) a1;
  ii_tx : tx (dev s1) = tx (dev s0) ++ out;
  ii_wakeups : wakeups s1 = wakeups s0 ++ wks;
  ii_busy : tx_busy s1 = tx_busy s0;
  ii_usr : usr s1 = usr s0;
  ii_ok : out_ok s1
}.

Lemma intr_inv_next procdump a s0 s1 s2 s3 a1 out wks c q : intr_inv procdump a s0 s1 a1 out wks -> rx (dev s1) = c :: q ->
  but_dev s1 s2 -> rx (dev s2) = q -> tx (dev s2) = tx (dev s1) ->
  (let '(a', o, wk) := line_step procdump a1 c in stepped s2 a' o (if wk then [chan_cons_r] else []) s3) ->
  exists a' o w, intr_inv procdump a s0 s3 a' o w.
Proof.
  intros [Hrun Hcon Htx Hwk Hb Hu Hok] Hrx (E1 & E2 & E3 & E4 & E5) Hrx2 Htx2. destruct (line_step procdump a1 c) as [[a' o] wk] eqn:Es.
  intros [C R T W B V O]. exists a', (out ++ o), (wks ++ (if wk then [chan_cons_r] else [])). split; try congruence.
  - rewrite Hrun, Hrx. cbn [line_run]. rewrite Es, R, Hrx2. destruct (line_run procdump a' q) as [[a2 out2] wks2]. by rewrite !app_assoc.
  - rewrite T, Htx2, Htx. by rewrite app_assoc.
  - rewrite W, E4, Hwk. by rewrite app_assoc.
Qed.

Lemma uartgetc_wp L s : out_ok s -> wp uartgetc L s (fun c s' => but_dev s s' /\ tx (dev s') = tx (dev s) /\ out_ok s' /\
  match rx (dev s) with [] => c = -1 /\ rx (dev s') = [] | x :: q => c = x /\ is_byte x /\ rx (dev s') = q end).
Proof.
  intros (Hp & Hf & Hb). unfold uartgetc, ReadLSR, ReadRHR, set_dev. wsteps.
  destruct (lsr_keeps (dev s)) as [K1 K2]. destruct (lsr_time (dev s)) as [Ht _]. pose proof (lsr_rx (dev s)) as Hr.
  destruct (rx (dev s)) as [|x q] eqn:Erx.
  - wfalse; [|naive_solver]. wsteps. unfold out_ok. simpl. split_and!; try done; try lia; intros ?%Hb; lia.
  - wtrue; [|naive_solver]. wsteps. destruct (rhr_takes (read_lsr (dev s)).2 x q) as (R1 & R2 & R3 & R4 & R5); [done|].
    unfold out_ok. simpl in *. split_and!; try done; try lia; try congruence; [intros ?%Hb; lia|by rewrite R1].
Qed.

Lemma intr_loop_wp procdump L s a : cons_rep (con s) a -> out_ok s -> cons_lock ∉ L ->
  wp (loop (S (length (rx (dev s)))) (fun _ => c ← uartgetc;
        if decide (c = -1) then mret (inr tt) else consoleintr procdump c;; mret (inl tt)) tt) L s
    (fun _ s' => rx (dev s') = [] /\ exists a' out wks, intr_inv procdump a s s' a' out wks).
Proof.
  intros Hk Hs HL. apply (wpl_loop_state (fun _ s1 => exists a1 out wks, intr_inv procdump a s s1 a1 out wks) (fun _ s1 => length (rx (dev s1)))).
  - intros [] s1 (a1 & out & wks & Hi). wsteps. eapply wpl_call; [by apply uartgetc_wp, (ii_ok _ _ _ _ _ _ _ Hi)|].
    intros c s2 (Hbd & Htx & Hok & Hc). destruct (rx (dev s1)) as [|x q] eqn:Erx.
    + destruct Hc as [-> Hrx]. wtrue; [|done]. wsteps. split; [done|]. split; [done|]. exists a1, out, wks.
      destruct Hi, Hbd as (? & ? & ? & ? & ?). split; try congruence. by rewrite ii_run0, Erx, Hrx.
    + destruct Hc as (-> & Hx & Hrx). wfalse; [|unfold is_byte in Hx; lia]. wsteps.
      eapply wpl_call. { apply (consoleintr_wp procdump x _ _ a1); try done. destruct Hbd as (-> & _). apply Hi. }
      intros ? s3 Hst. wsteps. split; [done|]. split.
      * by eapply intr_inv_next.
      * destruct (line_step procdump a1 x) as [[a' o] wk]. rewrite (st_rx _ _ _ _ _ Hst), Hrx. simpl. lia.
  - exists a, [], []. split; rewrite ?app_nil_r; try done. by destruct (line_run _ _ _) as [[? ?] ?].
  - lia.
Qed.

Lemma uartintr_wp procdump L s a : cons_rep (con s) a -> out_ok s -> cons_lock ∉ L -> tx_lock ∉ L ->
  wp (uartintr procdump) L s (fun _ s' =>
    let '(a', out, wks) := line_run procdump a (rx (dev s)) in
    cons_rep (con s') a' /\ rx (dev s') = [] /\ tx (dev s') = tx (dev s) ++ out /\ out_ok s' /\ usr s' = usr s /\
    if decide (fifo (dev s) = 0%nat) then tx_busy s' = false /\ wakeups s' = wakeups s ++ chan_tx :: wks
    else tx_busy s' = tx_busy s /\ wakeups s' = wakeups s ++ wks).
Proof.
  intros Hk (Hp & Hf & Hb) HL HL'. unfold uartintr, ReadISR, ReadLSR, set_dev, set_busy, wakeup. wsteps.
  destruct (isr_keeps (dev s)) as (I1 & I2 & I3). destruct (lsr_keeps (read_isr (dev s))) as [K1 K2].
  destruct (lsr_time (read_isr (dev s))) as [Ht _]. pose proof (lsr_tx (read_isr (dev s))) as Hi. cbn [dev con tx_busy panicked wakeups usr].
  rewrite I3 in Hi, Ht. case_decide as Hd; (destruct (decide (fifo (dev s) = 0%nat)) as [Hz|Hz]; [|]); try (exfalso; tauto); wsteps; cbn [dev con tx_busy panicked wakeups usr].
  - set (s1 := mkCstate _ _ _ _ _ _). eapply wpl_call; [apply (intr_loop_wp procdump L s1 a); [done| |done]|].
    + unfold out_ok. simpl. split; [done|]. lia.
    + intros ? s2 (Hrx & a' & out & wks & [Hrun C T W B V O]). split; [done|].
      simpl in Hrun, T, W, B, V. rewrite K1, I1 in Hrun. rewrite Hrx in Hrun. simpl in Hrun. rewrite !app_nil_r in Hrun. rewrite Hrun.
      split_and!; try done; [by rewrite T, K2, I2|by rewrite W, <- app_assoc].
  - set (s1 := mkCstate _ _ _ _ _ _). eapply wpl_call; [apply (intr_loop_wp procdump L s1 a); [done| |done]|].
    + unfold out_ok. simpl. split_and!; [done|lia|intros ?%Hb; lia].
    + intros ? s2 (Hrx & a' & out & wks & [Hrun C T W B V O]). split; [done|].
      simpl in Hrun, T, W, B, V. rewrite K1, I1 in Hrun. rewrite Hrx in Hrun. simpl in Hrun. rewrite !app_nil_r in Hrun. rewrite Hrun.
      split_and!; try done. by rewrite T, K2, I2.
Qed.

(** C20. The console's interrupt handler implements the line discipline: on every
    character it takes the committed lines and the line being edited to what
    [line_step] says (erase a character, erase the line, list the processes, store
    a character in the edited line, or complete the line and wake the readers once
    a newline or an end of file is typed or the buffer is full), echoes exactly
    that, in that order, and leaves the rest alone.  The uart's handler does so
    for every character that is waiting, in order, and marks the transmitter free
    exactly when the device is idle.  The buffer and the device's FIFO never
    overflow. *)
Theorem uartintr_refines procdump L s a : cons_rep (con s) a -> out_ok s -> cons_lock ∉ L -> tx_lock ∉ L ->
  wp (uartintr procdump) L s (fun _ s' =>
    let '(a', out, wks) := line_run procdump a (rx (dev s)) in
    cons_rep (con s') a' /\ rx (dev s') = [] /\ tx (dev s') = tx (dev s) ++ out /\ out_ok s' /\ usr s' = usr s /\
    if decide (fifo (dev s) = 0%nat) then tx_busy s' = false /\ wakeups s' = wakeups s ++ chan_tx :: wks
    else tx_busy s' = tx_busy s /\ wakeups s' = wakeups s ++ wks).
Proof. apply uartintr_wp. Qed.

Lemma read_line_length q n b : (length (read_line q n b).1.1 <= n)%nat.
Proof.
  revert q b. induction n as [|n IH]; intros [|c q] b; simpl; [lia..|]. repeat case_decide; simpl; [lia..|].
  specialize (IH q true). destruct (read_line q n true) as [[? ?] ?]. simpl in *. lia.
Qed.

(** A reader from [s] at [dst] has been given [bs] and the console holds [a]. *)
Record reading s dst bs s1 (a : line) : Prop := {
  rd_con : cons_rep (con s1) a;
  rd_uok : uok (usr s1);
  rd_bytes : bytes_at (uview (usr s1)) dst bs;
  rd_view : forall x b, uview (usr s) x = Some b -> x < dst \/ dst + Z.of_nat (length bs) <= x -> uview (usr s1) x = Some b;
  rd_rest : dev s1 = dev s /\ tx_busy s1 = tx_busy s /\ panicked s1 = panicked s /\ wakeups s1 = wakeups s
}.

(** How a segment that was given [bs] of the [n] bytes it wanted left its loop,
    with [q'] of the committed lines [q] left. *)
Definition read_end (target n dst : Z) (killed : bool) (q bs q' : list Z) (x : rexit) : Prop :=
  let '(bs0, rest, wait) := read_line q (Z.to_nat n) (n <? target) in
  let left := n - Z.of_nat (length bs) in
  match x with
  | RKilled => killed = true /\ wait = true /\ bs = bs0 /\ q' = []
  | RSleep d k => killed = false /\ wait = true /\ bs = bs0 /\ q' = [] /\ d = dst + Z.of_nat (length bs) /\ k = left /\ 0 < k
  | RDone k => k = left /\ (wait = false /\ bs = bs0 /\ q' = rest \/ exists c bs1, bs0 = bs ++ c :: bs1 /\ q = bs ++ c :: q')
  end.

Lemma consoleread_loop_wp target killed dst n L s q l :
  cons_rep (con s) (mkLine q l) -> uok (usr s) -> 0 <= dst < 2 ^ 64 -> dst + n <= 2 ^ 64 -> 0 <= n <= target -> target < 2 ^ 31 -> avail ulocks L ->
  wp (loop (S (Z.to_nat n)) (consoleread_body target killed) (dst, n)) L s (fun x s' => exists bs q',
    reading s dst bs s' (mkLine q' l) /\ read_end target n dst killed q bs q' x).
Proof.
  intros Hk Hu Hdst Hmax Hn Ht HL.
  apply (wpl_loop (fun x s1 => exists bs q1, x = (u64 (dst + Z.of_nat (length bs)), n - Z.of_nat (length bs)) /\ q = bs ++ q1 /\
    0 <= n - Z.of_nat (length bs) /\ reading s dst bs s1 (mkLine q1 l) /\
    read_line q (Z.to_nat n) (n <? target) = let '(bs', rest, wait) := read_line q1 (Z.to_nat (n - Z.of_nat (length bs))) (n - Z.of_nat (length bs) <? target)
      in (bs ++ bs', rest, wait)) (fun x => Z.to_nat x.2)).
  - intros x s1 (bs & q1 & -> & Hq & Hle & Hrd & Hrl). unfold consoleread_body, set_con, read_end. rewrite Hrl.
    set (m := n - Z.of_nat (length bs)) in *. pose proof (rd_con _ _ _ _ _ Hrd) as Hc. wstep. wcase as Hm; last first.
    { assert (Hz : m = 0) by lia. wsteps. split; [done|]. exists bs, q1. split; [done|]. rewrite Hz. simpl. rewrite app_nil_r. split; [done|]. by left. }
    rewrite u64_small by lia. wsteps. destruct q1 as [|c q1].
    { wtrue; [|by apply (cons_r_w _ _ Hc)]. destruct (Z.to_nat m) as [|k] eqn:Em; [lia|].
      destruct killed; wsteps; (split; [done|]); exists bs, []; (split; [done|]); cbn; rewrite app_nil_r; split_and!; try done; lia. }
    wfalse; [|by rewrite (cons_r_w _ _ Hc)]. rewrite (at_index_r _ _ _ _ Hc).
    destruct (Z.to_nat m) as [|k] eqn:Em; [lia|].
    pose proof (inc_r_rep _ _ _ _ Hc) as Hinc. destruct Hrd as [R1 R2 R3 R4 R5]. wsteps. wcase as HD.
    { assert (u32 m < u32 target <-> m < target) as Hu32 by (rewrite !u32_small by lia; done).
      destruct (Z.ltb_spec m target) as [Hs|Hs]; [wtrue; [|lia]|wfalse; [|lia]]; wsteps; (split; [done|]); subst c;
      [exists bs, (ctrl_D :: q1)|exists bs, q1]; (split; [by split; cbn; rewrite ?(dec_inc_r _ _ Hc)|]);
      cbn [read_line]; rewrite decide_True by done; rewrite app_nil_r; (split; [done|]); by left. }
    wsteps. eapply wpl_call; [apply ucopyout_spec; [done|lia| |done]|].
    { pose proof (cr_bytes _ _ Hc) as Hb. cbn in Hb. apply Forall_cons in Hb as [? _]. by apply Forall_singleton. }
    intros r u' (Hu' & j & Hj & Hby & Hv & Hr). cbn in Hj, Hr.
    assert (Hby2 : bytes_at (uview u') dst bs) by (eapply bytes_at_keep; [done| |exact Hv]; lia).
    destruct Hr as [[-> ->]|(-> & Hj0 & _)]; last first.
    { assert (j = 0)%nat as -> by lia. wtrue; [|done]. wsteps. split; [done|]. exists bs, q1.
      split. { split; cbn; try done. intros x b Hx Hout. apply Hv; [|lia]. by apply R4. }
      cbn [read_line]. rewrite decide_False by done. destruct (decide (c = newline)); [by split; [|right; eexists _, _]|].
      destruct (read_line q1 k true) as [[b0 r0] w0]. split; [done|]. right. by eexists _, _. }
    assert (Hrd' : reading s dst (bs ++ [c]) (over u' (mkCstate (inc_r (con s1)) (tx_busy s1) (panicked s1) (dev s1) (wakeups s1) (usr s1))) (mkLine q1 l)).
    { split; cbn; try done; [by apply bytes_at_app|]. intros x b Hx Hout. rewrite length_app in Hout. cbn in Hout. apply Hv; [|cbn; lia]. apply R4; [done|lia]. }
    wfalse; [|done]. wcase as Hnl; wsteps; (split; [done|]).
    { subst c. exists (bs ++ [newline]), q1. split; [done|]. cbn. rewrite length_app. cbn. split; [lia|]. by left. }
    split; [|cbn; lia]. exists (bs ++ [c]), q1. rewrite length_app. cbn [length].
    replace (dst + Z.of_nat (length bs + 1)) with (dst + Z.of_nat (length bs) + 1) by lia.
    replace (n - Z.of_nat (length bs + 1)) with (m - 1) by lia. replace (Z.to_nat (m - 1)) with k by lia.
    split_and!; [done|by rewrite <- app_assoc|lia|done|]. cbn [read_line]. rewrite !decide_False by done.
    rewrite (proj2 (Z.ltb_lt (m - 1) target)) by lia. destruct (read_line q1 k true) as [[b0 r0] w0]. by rewrite <- app_assoc.
  - exists [], q. cbn. rewrite Z.add_0_r, Z.sub_0_r, u64_small by lia.
    destruct (read_line q (Z.to_nat n) (n <? target)) as [[? ?] ?]. split_and!; try done. lia.
  - cbn. lia.
Qed.

(** C21. A segment of consoleread delivers committed input: it takes from the front
    of the committed lines what [read_line] says, at most one line and at most the
    bytes still wanted, puts exactly that at the reader's address and touches no
    other user byte, the device or the line being edited.  It sleeps only when
    nothing committed is left, to go on where it stopped; an end of file ends the
    call, and stays for the next one if this one has delivered something; a
    destination that cannot be written ends the call, and the byte that did not
    fit is lost. *)
Theorem consoleread_delivers target killed dst n L s q l :
  cons_rep (con s) (mkLine q l) -> uok (usr s) -> 0 <= dst < 2 ^ 64 -> dst + n <= 2 ^ 64 -> 0 <= n <= target -> target < 2 ^ 31 ->
  cons_lock ∉ L -> avail ulocks (cons_lock :: L) ->
  wp (consoleread target killed dst n) L s (fun r s' => exists bs q',
    reading s dst bs s' (mkLine q' l) /\
    match r with
    | RAsleep d k => read_end target n dst killed q bs q' (RSleep d k)
    | RRet v => v = -1 /\ read_end target n dst killed q bs q' RKilled \/
        v = target - n + Z.of_nat (length bs) /\ read_end target n dst killed q bs q' (RDone (n - Z.of_nat (length bs)))
    end).
Proof.
  intros Hk Hu Hd Hmax Hn Ht Hlk HL. unfold consoleread. wsteps.
  eapply wpl_call; [by apply (consoleread_loop_wp target killed dst n _ s q l)|].
  intros x s' (bs & q' & Hr & He). wsteps. split; [done|]. exists bs, q'. split; [done|]. destruct x as [|d k|k]; [by left|done|].
  right. assert (Hk2 : k = n - Z.of_nat (length bs)) by (unfold read_end in He; destruct (read_line _ _ _) as [[? ?] ?]; apply He).
  assert (Hlen : Z.of_nat (length bs) <= n).
  { unfold read_end in He. pose proof (read_line_length q (Z.to_nat n) (n <? target)) as Hl.
    destruct (read_line _ _ _) as [[b0 r0] w0]. simpl in Hl. destruct He as [_ [(_ & -> & _)|(c & b1 & -> & _)]]; rewrite ?length_app in Hl; lia. }
  rewrite <- Hk2. split; [|done]. rewrite s32_small by lia. lia.
Qed.

(** * Writing to the console *)

(** A write from [s0] of the bytes at [src] has sent [bs]. *)
Record writing s0 a src bs s : Prop := {
  wr_tx : tx (dev s) = tx (dev s0) ++ bs;
  wr_rx : rx (dev s) = [];
  wr_con : cons_rep (con s) a;
  wr_uok : uok (usr s);
  wr_bytes : bytes_at (uview (usr s)) src bs;
  wr_view : forall x b, uview (usr s0) x = Some b -> uview (usr s) x = Some b;
  wr_out : out_ok s
}.

(** The point [p] of a write of [n] bytes that has sent [bs]. *)
Record at_point src n (bs : list Z) (p : wpoint) s : Prop := {
  pt_j : 0 <= wp_j p < wp_nn p;
  pt_i : 0 <= wp_i p /\ wp_i p + wp_nn p <= n;
  pt_len : Z.of_nat (length (wp_buf p)) = wp_nn p;
  pt_byte : Forall is_byte (wp_buf p);
  pt_buf : bytes_at (uview (usr s)) (src + wp_i p) (wp_buf p);
  pt_sent : Z.of_nat (length bs) = wp_i p + wp_j p
}.

(** With the transmitter busy uartwrite sleeps at once, or has nothing to send. *)
Lemma uartwrite_busy buf n j k L s : tx_busy s = true ->
  wp (loop (S k) (uartwrite_body buf n) j) L s (fun r s' => s' = s /\ r = if decide (j < n) then Some j else None).
Proof.
  intros Hb. rewrite loop_S. wsteps. unfold uartwrite_body at 1. wsteps. wcase as Hlt.
  - wsteps. rewrite Hb. wsteps. done.
  - wsteps. done.
Qed.

(** uartwrite sends one byte if the transmitter is free, and then sleeps. *)
Lemma uartwrite_wp buf n j L s : 0 <= j < n -> Z.of_nat (length buf) = n -> Forall is_byte buf -> out_ok s -> tx_lock ∉ L ->
  wp (uartwrite buf n j) L s (fun r s' =>
    con s' = con s /\ usr s' = usr s /\ rx (dev s') = rx (dev s) /\ out_ok s' /\ tx_busy s' = true /\
    if tx_busy s then r = Some j /\ tx (dev s') = tx (dev s)
    else exists c, buf !! Z.to_nat j = Some c /\ tx (dev s') = tx (dev s) ++ [c] /\ r = if decide (j + 1 < n) then Some (j + 1) else None).
Proof.
  intros Hj Hlen Hby Hs HL. pose proof Hs as (Hp & Hf & Hb). unfold uartwrite. wsteps. destruct (Z.to_nat (n - j)) as [|k] eqn:Ek; [lia|].
  destruct (tx_busy s) eqn:Eb.
  { eapply wpl_call; [by apply uartwrite_busy|]. intros r s' [-> ->]. wsteps. rewrite decide_True by lia. rewrite Eb. by split_and!. }
  rewrite loop_S. wsteps. unfold uartwrite_body at 1, WriteTHR, set_dev, set_busy. wsteps. destruct (decide (j < n)); [|lia]. wsteps. rewrite Eb. wsteps.
  destruct (buf !! Z.to_nat j) as [c|] eqn:Ec; [|apply lookup_ge_None in Ec; lia].
  pose proof (Forall_lookup_1 _ _ _ _ Hby Ec) as Hc.
  destruct (thr_sends (dev s) c) as (T1 & T2 & T3); [unfold FIFO_SIZE; lia|]. specialize (Hb eq_refl).
  wsteps. rewrite u8_small by done. eapply wpl_call; [by apply uartwrite_busy|]. intros r s' [-> ->]. wsteps. cbn.
  split; [done|]. unfold out_ok. cbn. split_and!; try done; [lia|]. by exists c.
Qed.

Lemma send_batch_wp s0 a src n bs p L s : writing s0 a src bs s -> at_point src n bs p s -> tx_lock ∉ L ->
  wp (send_batch p) L s (fun x s' => exists bs', writing s0 a src (bs ++ bs') s' /\ tx_busy s' = true /\ (tx_busy s = false -> bs' <> []) /\
    match x with
    | inr (WAsleep p') => at_point src n (bs ++ bs') p' s'
    | inr (WRet _) => False
    | inl i => i = Z.of_nat (length (bs ++ bs')) /\ i = wp_i p + wp_nn p /\ i <= n
    end).
Proof.
  intros [W1 W2 W3 W4 W5 W6 W7] [P1 P2 P3 P4 P5 P6] HL. unfold send_batch. wsteps.
  eapply wpl_call; [by apply uartwrite_wp|]. intros r s' (Ec & Eu & Er & Ho & Hb & Hr). destruct (tx_busy s) eqn:Eb.
  - destruct Hr as [-> Ht]. wsteps. split; [done|]. exists []. rewrite app_nil_r. split; [by split; rewrite ?Ec, ?Eu, ?Ht; [|congruence|..]|].
    split_and!; try done. by split; cbn; rewrite ?Eu.
  - destruct Hr as (c & Hc & Ht & ->).
    assert (Hw : writing s0 a src (bs ++ [c]) s').
    { split; rewrite ?Ec, ?Eu, ?Ht; try done; [by rewrite W1, app_assoc|congruence|]. apply bytes_at_app. split; [done|].
      intros [|i] b Hi; [|done]. cbn in Hi. simplify_eq. rewrite P6. replace (src + (wp_i p + wp_j p) + Z.of_nat 0) with (src + wp_i p + Z.of_nat (Z.to_nat (wp_j p))) by lia. by apply P5. }
    case_decide as Hd; wsteps; (split; [done|]); exists [c]; split_and!; try done.
    + split; cbn; try done; [lia|by rewrite Eu|rewrite length_app; cbn; lia].
    + rewrite length_app. cbn. lia.
    + lia.
Qed.

(** How a segment of the write ended. *)
Definition write_seg s0 a src n bs s (o : outcome_write) s' : Prop := exists bs',
  writing s0 a src (bs ++ bs') s' /\
  match o with
  | WAsleep p => at_point src n (bs ++ bs') p s' /\ tx_busy s' = true /\ (tx_busy s = false -> bs' <> [])
  | WRet r => r = Z.of_nat (length (bs ++ bs')) /\ (r = n \/ exists k, 0 <= k < n - r /\ uview (usr s') (src + r + k) = None)
  end.

Lemma consolewrite_loop_wp s0 a src n bs L s : writing s0 a src bs s -> 0 <= src -> src + n <= 2 ^ 64 -> Z.of_nat (length bs) <= n ->
  tx_lock ∉ L -> avail ulocks L ->
  wp (loop (S (Z.to_nat (n - Z.of_nat (length bs)))) (consolewrite_body src n) (Z.of_nat (length bs))) L s (write_seg s0 a src n bs s).
Proof.
  intros Hw Hsrc Hmax Hn HL HL'.
  apply (wpl_loop (fun i s1 => exists bs', writing s0 a src (bs ++ bs') s1 /\ i = Z.of_nat (length (bs ++ bs')) /\ i <= n /\
    (bs' = [] -> tx_busy s1 = tx_busy s)) (fun i => Z.to_nat (n - i))).
  - intros i s1 (bs' & Hw1 & -> & Hi & Hb). set (i := Z.of_nat (length (bs ++ bs'))) in *.
    unfold consolewrite_body. wstep. wcase as Hlt; last first.
    { wsteps. split; [done|]. exists bs'. split; [done|]. split; [done|]. left. lia. }
    set (nn := if decide _ then _ else _). assert (Hnn : 0 < nn <= n - i) by (unfold nn, BATCH; case_decide; lia).
    rewrite u64_small by lia. destruct Hw1 as [W1 W2 W3 W4 W5 W6 W7]. wsteps. eapply wpl_call; [apply ucopyin_spec; [done|lia|lia|done]|].
    intros r u' (Hu' & Hv' & Hr).
    assert (Hw2 : writing s0 a src (bs ++ bs') (over u' s1)) by (split; cbn; try done; [by eapply bytes_at_mono|by auto]).
    destruct Hr as [(Hr1 & Hr2 & Hr3 & Hr4)|(Hr1 & k & Hk & Hr2)]; last first.
    { wtrue; [|done]. wsteps. split; [done|]. exists bs'. split; [done|]. split; [done|]. right. exists k. split; [lia|done]. }
    wfalse; [|lia]. eapply wpl_call; [apply (send_batch_wp s0 a src n (bs ++ bs') _ _ _ Hw2); [|done]|].
    { split; cbn; try done; lia. }
    intros x s2 (bs2 & Hw3 & Hb3 & Hne & Hx). split; [done|]. rewrite <- !app_assoc in *.
    assert (Hprog : tx_busy s = false -> bs' ++ bs2 <> []).
    { intros Hf [-> ->]%app_nil. cbn in Hne. by apply Hne; [rewrite Hb|]. }
    destruct x as [i2|[p|r2]]; [|by exists (bs' ++ bs2)|done].
    destruct Hx as (-> & Hx & Hi2). cbn in Hx. split; [|lia].
    exists (bs' ++ bs2). split_and!; try done. intros E. rewrite Hb3. destruct (tx_busy s); [done|]. by destruct Hprog.
  - exists []. rewrite app_nil_r. done.
  - lia.
Qed.

Lemma consolewrite_wp s0 a src n bs p L s : writing s0 a src bs s -> 0 <= src -> src + n <= 2 ^ 64 -> 0 <= n ->
  match p with None => bs = [] | Some p => at_point src n bs p s end -> tx_lock ∉ L -> avail ulocks L ->
  wp (consolewrite src n p) L s (write_seg s0 a src n bs s).
Proof.
  intros Hw Hsrc Hmax Hn Hp HL HL'. unfold consolewrite. wsteps. destruct p as [p|].
  - eapply wpl_call; [by eapply send_batch_wp|]. intros x s1 (bs' & Hw1 & Hb1 & Hne & Hx). destruct x as [i|[p'|r]]; [|wsteps; split; [done|]; by exists bs'|done].
    destruct Hx as (-> & Hx & Hi). eapply wpl_call; [by eapply consolewrite_loop_wp|].
    intros o s2 (bs2 & Hw2 & Ho). rewrite <- app_assoc in *. split; [done|]. exists (bs' ++ bs2). split; [done|].
    destruct o as [p2|r]; [|done]. destruct Ho as (Hp2 & Hb2 & _). split_and!; try done. intros Hf [-> ->]%app_nil. by destruct Hne.
  - wsteps. subst bs. eapply wpl_call; [by apply (consolewrite_loop_wp s0 a src n [] L s)|]. by intros o s2 Ho.
Qed.

(** The device finishes transmitting and interrupts. *)
Definition tx_done (drain : D -> D) (procdump : list Z) : M (cstate D U) unit :=
  d ← gets dev; set_dev (drain d);; uartintr procdump.

(** A write while the interrupts arrive: whenever the writer sleeps, the device
    finishes transmitting and interrupts, and the writer is woken. *)
Fixpoint write_run (drain : D -> D) (procdump : list Z) (src n : Z) (fuel : nat) (p : option wpoint) : M (cstate D U) Z :=
  match fuel with
  | O => fun _ _ => OutOfFuel
  | S k =>
      o ← consolewrite src n p;
      match o with
      | WRet r => mret r
      | WAsleep p' => tx_done drain procdump;; write_run drain procdump src n k (Some p')
      end
  end.

(** The device sends what it was given and nothing is typed. *)
Definition drains (drain : D -> D) : Prop := forall d, fifo (drain d) = 0%nat /\ tx (drain d) = tx d /\ rx (drain d) = rx d.

(** The interrupt makes the transmitter free and leaves the write alone. *)
Lemma tx_done_wp drain procdump s0 a src n bs p L s : drains drain -> writing s0 a src bs s -> at_point src n bs p s -> cons_lock ∉ L -> tx_lock ∉ L ->
  wp (tx_done drain procdump) L s (fun _ s' => writing s0 a src bs s' /\ at_point src n bs p s' /\ tx_busy s' = false).
Proof.
  intros Hd [W1 W2 W3 W4 W5 W6 (O1 & O2 & O3)] [P1 P2 P3 P4 P5 P6] HL HL'. destruct (Hd (dev s)) as (D1 & D2 & D3).
  unfold tx_done, set_dev. wsteps. eapply wpl_call; [apply (uartintr_wp procdump _ _ a)|]; try done.
  { unfold out_ok. cbn. rewrite D1. split; [done|lia]. }
  intros ? s'. cbn. rewrite D1, D2, D3, W2. cbn. rewrite app_nil_r. intros (C & R & T & O & V & B & _).
  split; [done|]. split_and!; [split; rewrite ?V; try done; congruence|split; rewrite ?V; done|done].
Qed.

Lemma write_run_wp drain procdump s0 a src n L : drains drain -> 0 <= src -> src + n <= 2 ^ 64 -> 0 <= n ->
  cons_lock ∉ L -> tx_lock ∉ L -> avail ulocks L ->
  forall k bs p s, writing s0 a src bs s -> match p with None => bs = [] | Some p => at_point src n bs p s end ->
  n - Z.of_nat (length bs) + (if tx_busy s then 1 else 0) < Z.of_nat k ->
  wp (write_run drain procdump src n k p) L s (fun r s' => exists bs', writing s0 a src bs' s' /\ r = Z.of_nat (length bs') /\
    (r = n \/ exists k, 0 <= k < n - r /\ uview (usr s') (src + r + k) = None)).
Proof.
  intros Hd Hsrc Hmax Hn HL HL' Hav. induction k as [|k IH]; intros bs p s Hw Hp Hk.
  { destruct p as [p|]; [destruct Hp|subst bs; cbn in *]; destruct (tx_busy s); lia. }
  cbn [write_run]. wsteps. eapply wpl_call; [by apply (consolewrite_wp s0 a src n bs p)|].
  intros o s1 (bs' & Hw1 & Ho). destruct o as [p'|r]; [|by wsteps; split; [|exists (bs ++ bs')]].
  destruct Ho as (Hp' & Hb & Hne). wsteps. eapply wpl_call; [by eapply tx_done_wp|]. intros ? s2 (Hw2 & Hp2 & Hb2).
  apply IH with (bs := bs ++ bs'); try done. rewrite Hb2, length_app. destruct (tx_busy s); [|destruct bs'; cbn in *; [by destruct Hne|]]; lia.
Qed.

(** A write to the console completes: if the device keeps transmitting and
    interrupting, a write of [n] bytes returns after at most [n + 2] segments, the
    bytes it has sent being exactly those of the user's buffer, in order, and as
    many as it returns, all [n] unless a byte of the buffer cannot be read; no
    byte is lost to an overflow of the device's FIFO. *)
Theorem consolewrite_completes drain procdump src n L s a :
  drains drain -> cons_rep (con s) a -> out_ok s -> rx (dev s) = [] -> uok (usr s) -> 0 <= src -> src + n <= 2 ^ 64 -> 0 <= n ->
  cons_lock ∉ L -> tx_lock ∉ L -> avail ulocks L ->
  wp (write_run drain procdump src n (S (S (Z.to_nat n))) None) L s (fun r s' => exists bs,
    r = Z.of_nat (length bs) /\ tx (dev s') = tx (dev s) ++ bs /\ bytes_at (uview (usr s')) src bs /\
    (forall x b, uview (usr s) x = Some b -> uview (usr s') x = Some b) /\ cons_rep (con s') a /\ out_ok s' /\
    (r = n \/ exists k, 0 <= k < n - r /\ uview (usr s') (src + r + k) = None)).
Proof.
  intros Hd Hk Ho Hrx Hu Hsrc Hmax Hn HL HL' Hav.
  eapply wp_mono; [apply (write_run_wp drain procdump s a src n L Hd Hsrc Hmax Hn HL HL' Hav _ [] None s); [|done|]|].
  - split; rewrite ?app_nil_r; try done.
  - cbn. destruct (tx_busy s); lia.
  - intros r s' (bs & [W1 W2 W3 W4 W5 W6 W7] & Hr & Hend). by exists bs.
Qed.
End Correctness.
