(* ===== verification/ConsoleSample.v ===== *)
(** A console with a simulated 16550a and the process of [VmSample]: the device
    class is inhabited, and the witnesses of the console theorems. *)
From S2P Require Import Prelude Riscv Kalloc Vm Shm UserMem CopyOut Ring UserIface VmUser VmSample PipeSample Printf Console.
Local Open Scope Z_scope.

Import VmSample.Machine Kalloc.Sample.

(** * A device that sends one byte of its FIFO at each status read *)
Record sim := mkSim { sim_rx : list Z; sim_tx : list Z; sim_fifo : nat }.

Definition sim_lsr (d : sim) : Z * sim :=
  ((if decide (sim_rx d = []) then 0 else LSR_RX_READY) + (if decide (sim_fifo d = 0%nat) then LSR_TX_IDLE else 0),
   mkSim (sim_rx d) (sim_tx d) (pred (sim_fifo d))).

(** Only bytes are received; a full FIFO drops what is stored. *)
Definition sim_rhr (d : sim) : Z * sim :=
  (u8 (default 0 (head (sim_rx d))), mkSim (tail (sim_rx d)) (sim_tx d) (sim_fifo d)).
Definition sim_thr (c : Z) (d : sim) : sim :=
  if decide (sim_fifo d < FIFO_SIZE)%nat then mkSim (sim_rx d) (sim_tx d ++ [c]) (S (sim_fifo d)) else d.

#[export] Program Instance sim_uart : UartDevice sim := {
  read_isr d := d;
  read_lsr := sim_lsr;
  read_rhr := sim_rhr;
  write_thr := sim_thr;
  rx d := u8 <$> sim_rx d;
  tx := sim_tx;
  fifo := sim_fifo;
  delay := sim_fifo
}.
Next Obligation. done. Qed.
Next Obligation. done. Qed.
Next Obligation. intros d. cbn. lia. Qed.
Next Obligation. done. Qed.
Next Obligation.
  intros d. unfold sim_lsr, LSR_RX_READY, LSR_TX_IDLE. cbn. destruct (sim_rx d); cbn; repeat case_decide; done.
Qed.
Next Obligation.
  intros d. unfold sim_lsr, LSR_RX_READY, LSR_TX_IDLE. cbn. destruct (sim_fifo d); cbn; repeat case_decide; done.
Qed.
Next Obligation.
  intros d c q. unfold sim_rhr. destruct (sim_rx d) as [|x l] eqn:E; [done|]. cbn -[u8]. intros [= <- <-].
  split_and!; try done; apply u8_range.
Qed.
Next Obligation.
  intros d c Hf. cbn. unfold sim_thr. rewrite decide_True by done. done.
Qed.

Definition sim_drain (d : sim) : sim := mkSim (sim_rx d) (sim_tx d) 0.

Lemma sim_drains : drains sim_drain.
Proof. done. Qed.

(** * A console with one complete line and a character being edited *)
Definition sample_cons : cons := store 120 (commit (store 10 (store 97 (mkCons (replicate 128 0) 0 0 0)))).

Definition sample_line : line := mkLine [97; 10] [120].

Lemma empty_cons_rep : cons_rep (mkCons (replicate 128 0) 0 0 0) (mkLine [] []).
Proof. split; try done. apply not_elem_of_nil. Qed.

Lemma sample_cons_rep : cons_rep sample_cons sample_line.
Proof.
  apply (cons_store_rep _ [97; 10] [] 120); [|done..]. apply (commit_store_rep _ [] [97] 10); [|done..].
  apply (cons_store_rep _ [] [] 97); [apply empty_cons_rep|done..].
Qed.

(** Typed are a delete, a control-U, a letter and a return. *)
Definition sample_state : cstate sim vms := mkCstate sample_cons true false (mkSim [127; 21; 98; 13] [] 0) [] proc_a.

Lemma uartintr_refines_witness :
  wp (uartintr []) [] sample_state (fun _ s' =>
    let '(a', out, wks) := line_run [] sample_line (rx (dev sample_state)) in
    cons_rep (con s') a' /\ rx (dev s') = [] /\ tx (dev s') = tx (dev sample_state) ++ out /\ out_ok s' /\ usr s' = usr sample_state /\
    if decide (fifo (dev sample_state) = 0%nat) then tx_busy s' = false /\ wakeups s' = wakeups sample_state ++ chan_tx :: wks
    else tx_busy s' = tx_busy sample_state /\ wakeups s' = wakeups sample_state ++ wks) /\
  line_run [] sample_line (rx (dev sample_state)) = (mkLine [97; 10; 98; 10] [], [8; 32; 8; 98; 10], [chan_cons_r]).
Proof.
  split; [|by vm_compute]. apply (uartintr_refines [] [] sample_state sample_line); [apply sample_cons_rep| |apply not_elem_of_nil|apply not_elem_of_nil].
  split; [done|]. cbn. lia.
Defined.


Lemma consoleread_delivers_witness :
  wp (consoleread 5 false 0 5) [] sample_state (fun r s' => exists bs q',
    reading sample_state 0 bs s' (mkLine q' [120]) /\
    match r with
    | RAsleep d k => read_end 5 5 0 false [97; 10] bs q' (RSleep d k)
    | RRet v => v = -1 /\ read_end 5 5 0 false [97; 10] bs q' RKilled \/
        v = 5 - 5 + Z.of_nat (length bs) /\ read_end 5 5 0 false [97; 10] bs q' (RDone (5 - Z.of_nat (length bs)))
    end) /\ read_line [97; 10] 5 false = ([97; 10], [], false).
Proof.
  split; [|done].
  apply (consoleread_delivers 5 false 0 5 [] sample_state [97; 10] [120]); [apply sample_cons_rep|apply proc_a_ok|done|done|done|done|apply not_elem_of_nil|].
  apply avail_push; [apply avail_nil|]. apply (bool_decide_unpack _). by vm_compute.
Defined.

Definition quiet_state : cstate sim vms := mkCstate sample_cons true false (mkSim [] [] 2) [] proc_a.

Lemma consolewrite_completes_witness :
  wp (write_run sim_drain [] 0 3 (S (S (Z.to_nat 3))) None) [] quiet_state (fun r s' => exists bs,
    r = Z.of_nat (length bs) /\ tx (dev s') = tx (dev quiet_state) ++ bs /\ bytes_at (uview (usr s')) 0 bs /\
    (forall x b, uview (usr quiet_state) x = Some b -> uview (usr s') x = Some b) /\ cons_rep (con s') sample_line /\ out_ok s' /\
    (r = 3 \/ exists k, 0 <= k < 3 - r /\ uview (usr s') (0 + r + k) = None)).
Proof.
  apply (consolewrite_completes sim_drain [] 0 3 [] quiet_state sample_line);
    [apply sim_drains|apply sample_cons_rep| |done|apply proc_a_ok|done|done|done|apply not_elem_of_nil|apply not_elem_of_nil|apply avail_nil].
  split; [done|]. cbn. split; [lia|done].
Defined.
