(* ===== verification/Block.v ===== *)
(** Disk blocks as arrays of bytes, with little-endian fields (the layout the
    casts of kernel/log.c and kernel/fs.c rely on), and the interface of the
    buffer cache (kernel/bio.c) that the log and the file system use. *)
From S2P Require Import Prelude UserIface.
Local Open Scope Z_scope.

(** * Constants of kernel/param.h and kernel/fs.h *)
Definition BSIZE : nat := 1024.
Definition NBUF : nat := 30.
Definition LOGBLOCKS : nat := 30.
Definition MAXOPBLOCKS : Z := 10.
Definition ROOTDEV : Z := 1.

(** * Little-endian fields *)
Abbreviation block := (list Z).

Fixpoint le_bytes (n : nat) (v : Z) : list Z :=
  match n with
  | O => []
  | S k => v mod 256 :: le_bytes k (v / 256)
  end.

Fixpoint le_value (l : list Z) : Z :=
  match l with
  | [] => 0
  | b :: l' => b + 256 * le_value l'
  end.

(** The [n] bytes at offset [off], and [d] with them replaced by those of [v]. *)
Definition get_le (n off : nat) (d : block) : Z := le_value (take n (drop off d)).
Definition put_le (n off : nat) (v : Z) (d : block) : block :=
  take off d ++ le_bytes n v ++ drop (off + n) d.

Definition zero_block : block := replicate BSIZE 0.

Lemma length_le_bytes n v : length (le_bytes n v) = n.
Proof. revert v. induction n; intros; simpl; auto. Qed.

Lemma le_value_bytes n v : le_value (le_bytes n v) = v mod 256 ^ Z.of_nat n.
Proof.
  revert v. induction n as [|n IH]; intros v; [simpl; by rewrite Z.mod_1_r|].
  replace (Z.of_nat (S n)) with (Z.succ (Z.of_nat n)) by lia.
  rewrite Z.pow_succ_r by lia. simpl. rewrite IH, (Z.rem_mul_r v 256) by lia. done.
Qed.

Lemma le_bytes_is_byte n v : Forall is_byte (le_bytes n v).
Proof.
  revert v. induction n as [|n IH]; intros v; simpl; constructor; [|by apply IH].
  unfold is_byte. apply Z.mod_pos_bound. lia.
Qed.

Lemma le_value_range l : Forall is_byte l -> 0 <= le_value l < 256 ^ Z.of_nat (length l).
Proof.
  induction 1 as [|b l Hb Hl IH]; [simpl; lia|]. simpl length.
  replace (Z.of_nat (S (length l))) with (Z.succ (Z.of_nat (length l))) by lia.
  rewrite Z.pow_succ_r by lia. simpl. unfold is_byte in Hb. nia.
Qed.

Lemma length_put_le n off v d : (off + n <= length d)%nat -> length (put_le n off v d) = length d.
Proof. intros. unfold put_le. rewrite !length_app, length_take, length_le_bytes, length_drop. lia. Qed.

Lemma get_put_le n off v d :
  (off + n <= length d)%nat -> get_le n off (put_le n off v d) = v mod 256 ^ Z.of_nat n.
Proof.
  intros Hd. unfold get_le, put_le. rewrite drop_app_length' by (rewrite length_take; lia).
  rewrite take_app_length' by (by rewrite length_le_bytes). apply le_value_bytes.
Qed.

Lemma lookup_put_le_ne n off v d i :
  (off + n <= length d)%nat -> (i < off \/ off + n <= i)%nat -> put_le n off v d !! i = d !! i.
Proof.
  intros Hd Hi. unfold put_le. destruct (decide (i < off)%nat).
  - rewrite lookup_app_l by (rewrite length_take; lia). apply lookup_take_lt. lia.
  - rewrite lookup_app_r by (rewrite length_take; lia). rewrite length_take, Nat.min_l by lia.
    rewrite lookup_app_r by (rewrite length_le_bytes; lia). rewrite length_le_bytes, lookup_drop.
    f_equal. lia.
Qed.

Lemma get_le_ext n off d d' :
  length d = length d' -> (forall i, (off <= i < off + n)%nat -> d !! i = d' !! i) ->
  get_le n off d = get_le n off d'.
Proof.
  intros Hl Hi. unfold get_le. f_equal. apply list_eq. intros i.
  destruct (decide (i < n)%nat); [|by rewrite !lookup_take_ge by lia].
  rewrite !lookup_take_lt, !lookup_drop by lia. apply Hi. lia.
Qed.

Lemma get_put_le_ne n off v n' off' d :
  (off + n <= length d)%nat -> (off' + n' <= off \/ off + n <= off')%nat ->
  get_le n' off' (put_le n off v d) = get_le n' off' d.
Proof.
  intros Hd Ho. apply get_le_ext; [by apply length_put_le|].
  intros i Hi. apply lookup_put_le_ne; [done|lia].
Qed.

Lemma get_le_range n off d :
  Forall is_byte d -> (off + n <= length d)%nat -> 0 <= get_le n off d < 256 ^ Z.of_nat n.
Proof.
  intros Hb Hd. unfold get_le. pose proof (le_value_range (take n (drop off d))) as Hr.
  rewrite length_take, length_drop, Nat.min_l in Hr by lia.
  by apply Hr, Forall_take, Forall_drop.
Qed.

Lemma put_le_is_byte n off v d : Forall is_byte d -> Forall is_byte (put_le n off v d).
Proof.
  intros Hd. unfold put_le. repeat apply Forall_app_2; [by apply Forall_take|apply le_bytes_is_byte|by apply Forall_drop].
Qed.

(** * The buffer cache as its clients see it *)

(** [content b] is the block as the kernel sees it, cached or not; [disk b] what
    is on the disk; [writes] the block writes the disk has done, in order; [held]
    the buffers this thread has locked; [pins b] how often bpin was applied. *)
Record babs := mkBabs {
  content : Z -> block;
  disk : Z -> block;
  writes : list (Z * block);
  held : gmap nat Z;
  pins : gmap Z nat
}.

Definition pinned (A : babs) (b : Z) : Prop := is_Some (pins A !! b).

(** The blocks that need a buffer. *)
Definition in_use (A : babs) : gset Z := dom (pins A) ∪ map_img (held A).

(** Equal up to extensionality of the contents. *)
Record beq (A A' : babs) : Prop := {
  beq_content : forall b, content A b = content A' b;
  beq_disk : forall b, disk A b = disk A' b;
  beq_writes : writes A = writes A';
  beq_held : held A = held A';
  beq_pins : pins A = pins A'
}.

Definition upd (f : Z -> block) (b : Z) (v : block) : Z -> block :=
  fun x => if decide (x = b) then v else f x.

Definition set_content (b : Z) (v : block) (A : babs) : babs :=
  mkBabs (upd (content A) b v) (disk A) (writes A) (held A) (pins A).
Definition write_disk (b : Z) (A : babs) : babs :=
  mkBabs (content A) (upd (disk A) b (content A b)) (writes A ++ [(b, content A b)]) (held A) (pins A).
Definition set_held (h : gmap nat Z) (A : babs) : babs :=
  mkBabs (content A) (disk A) (writes A) h (pins A).
Definition set_pins (p : gmap Z nat) (A : babs) : babs :=
  mkBabs (content A) (disk A) (writes A) (held A) p.

(** One more, or one fewer, pin of [b]. *)
Definition pin (b : Z) (p : gmap Z nat) : gmap Z nat := <[b := S (default O (p !! b))]> p.
Definition unpin (b : Z) (p : gmap Z nat) : gmap Z nat :=
  match p !! b with
  | Some (S (S k)) => <[b := S k]> p
  | _ => delete b p
  end.

Definition block_ok (d : block) : Prop := length d = BSIZE /\ Forall is_byte d.

Lemma zero_block_ok : block_ok zero_block.
Proof. split; [done|]. apply Forall_replicate. unfold is_byte. lia. Qed.

(** The locks of the buffer cache are not held. *)
Definition buf_free (L : list lock) : Prop := bcache_lock ∉ L /\ forall i, buf_lock i ∉ L.

Class BufCache (B : Type) := {
  bread : Z -> Z -> M B nat;
  (** [b->data], read and written by the holder of the buffer. *)
  bdata : nat -> M B block;
  bstore : nat -> block -> M B unit;
  bblockno : nat -> M B Z;
  bwrite : nat -> M B unit;
  brelse : nat -> M B unit;
  bpin : nat -> M B unit;
  bunpin : nat -> M B unit;
  babs_of : B -> babs;
  bok : B -> Prop;
  bok_block : forall s b, bok s -> block_ok (content (babs_of s) b) /\ block_ok (disk (babs_of s) b);
  bread_spec : forall b L s, let A := babs_of s in
    bok s -> 0 <= b < 2 ^ 32 -> b ∉ (map_img (held A) : gset Z) ->
    b ∈ in_use A \/ (size (in_use A) < NBUF)%nat -> buf_free L ->
    wp (bread ROOTDEV b) L s (fun h s' => bok s' /\ held A !! h = None /\
      beq (babs_of s') (set_held (<[h := b]> (held A)) A));
  bread_full : forall b L s, let A := babs_of s in
    bok s -> b ∉ in_use A -> size (in_use A) = NBUF -> buf_free L ->
    panics (bread ROOTDEV b) L s "bget: no buffers";
  bdata_spec : forall h b L s, bok s -> held (babs_of s) !! h = Some b ->
    wp (bdata h) L s (fun d s' => s' = s /\ d = content (babs_of s) b);
  bblockno_spec : forall h b L s, bok s -> held (babs_of s) !! h = Some b ->
    wp (bblockno h) L s (fun r s' => s' = s /\ r = b);
  bstore_spec : forall h b d L s, bok s -> held (babs_of s) !! h = Some b -> block_ok d ->
    wp (bstore h d) L s (fun _ s' => bok s' /\ beq (babs_of s') (set_content b d (babs_of s)));
  bwrite_spec : forall h b L s, bok s -> held (babs_of s) !! h = Some b -> buf_free L ->
    wp (bwrite h) L s (fun _ s' => bok s' /\ beq (babs_of s') (write_disk b (babs_of s)));
  brelse_spec : forall h b L s, let A := babs_of s in
    bok s -> held A !! h = Some b -> pinned A b \/ content A b = disk A b -> buf_free L ->
    wp (brelse h) L s (fun _ s' => bok s' /\ beq (babs_of s') (set_held (delete h (held A)) A));
  bpin_spec : forall h b L s, let A := babs_of s in
    bok s -> held A !! h = Some b -> (default O (pins A !! b) < NBUF)%nat -> buf_free L ->
    wp (bpin h) L s (fun _ s' => bok s' /\ beq (babs_of s') (set_pins (pin b (pins A)) A));
  bunpin_spec : forall h b L s, let A := babs_of s in
    bok s -> held A !! h = Some b -> pinned A b -> buf_free L ->
    wp (bunpin h) L s (fun _ s' => bok s' /\ beq (babs_of s') (set_pins (unpin b (pins A)) A))
}.
