(* ===== verification/Sleeplock.v ===== *)
(** Sleep locks, kernel/sleeplock.c, as one thread sees them: acquiresleep of a
    lock that is taken would sleep until another thread releases it.  The
    functions work on a lock inside a larger state, given how to read and to
    replace it there. *)
From S2P Require Import Prelude.
Local Open Scope Z_scope.

Record sleeplock := mkSleep { sl_locked : Z; sl_name : string; sl_pid : Z }.

Definition initsleeplock (name : string) : sleeplock := mkSleep 0 name 0.

Section Operations.
Context {S : Type} (inner : lock) (get : S -> sleeplock) (set : sleeplock -> S -> S) (pid : S -> Z).

Definition acquiresleep : M S unit :=
  acquire inner;;
  lk ← gets get;
  if decide (sl_locked lk <> 0) then blocked "acquiresleep"
  else
    p ← gets pid;
    modify (set (mkSleep 1 (sl_name lk) p));;
    release inner.

Definition releasesleep : M S unit :=
  acquire inner;;
  lk ← gets get;
  modify (set (mkSleep 0 (sl_name lk) 0));;
  release inner.

Definition holdingsleep : M S bool :=
  acquire inner;;
  lk ← gets get;
  p ← gets pid;
  release inner;;
  mret (negb (sl_locked lk =? 0) && (sl_pid lk =? p)).

Lemma acquiresleep_wp L s :
  inner ∉ L -> sl_locked (get s) = 0 ->
  wp acquiresleep L s (fun _ s' => s' = set (mkSleep 1 (sl_name (get s)) (pid s)) s).
Proof.
  intros Hl Hz. unfold acquiresleep. wstep. wstep. apply wpl_acquire; [done|]. wsteps. wfalse; [|lia].
  wsteps. done.
Qed.

Lemma acquiresleep_blocks L s :
  inner ∉ L -> sl_locked (get s) <> 0 -> acquiresleep L s = Blocked "acquiresleep".
Proof.
  intros Hl Hz. unfold acquiresleep, mbind, M_bind, acquire, gets. rewrite decide_False by done.
  by rewrite decide_True.
Qed.

Lemma releasesleep_wp L s :
  inner ∉ L -> wp releasesleep L s (fun _ s' => s' = set (mkSleep 0 (sl_name (get s)) 0) s).
Proof. intros Hl. unfold releasesleep. wstep. wstep. apply wpl_acquire; [done|]. wsteps. done. Qed.

Lemma holdingsleep_wp L s :
  inner ∉ L -> wp holdingsleep L s (fun r s' => s' = s /\
    r = negb (sl_locked (get s) =? 0) && (sl_pid (get s) =? pid s)).
Proof. intros Hl. unfold holdingsleep. wstep. wstep. apply wpl_acquire; [done|]. wsteps. done. Qed.
End Operations.
