(* ===== verification/Virtio.v ===== *)
(** The driver of the virtio disk, kernel/virtio_disk.c, with the device as a
    parameter that behaves as the virtio specification says.  virtio_disk_rw is
    cut where it sleeps; requests of several processes, the device and the
    interrupt handler interleave. *)
From S2P Require Import Prelude Ring.
From stdpp Require Import functions relations.
Local Open Scope Z_scope.

(** * Queues *)
Definition NUM : Z := 8.
Definition VRING_DESC_F_NEXT : Z := 1.
Definition VRING_DESC_F_WRITE : Z := 2.
Definition VIRTIO_BLK_T_IN : Z := 0.
Definition VIRTIO_BLK_T_OUT : Z := 1.
Definition BSIZE : Z := 1024.
Definition SECTOR : Z := 512.

(** The addresses the driver puts in descriptors: [&disk.ops[i]], [b->data] and
    [&disk.info[i].status]. *)
Inductive daddr := DNull | DOps (i : Z) | DData (b : nat) | DStatus (i : Z).

Record virtq_desc := mkDesc { d_addr : daddr; d_len : Z; d_flags : Z; d_next : Z }.
Record virtio_blk_req := mkReq { rq_type : Z; rq_reserved : Z; rq_sector : Z }.
Record info_t := mkInfo { info_b : option nat; info_status : Z }.

(** The part of [struct buf] that the driver uses. *)
Record buf := mkBuf { b_disk : Z; b_blockno : Z; b_data : list Z }.

Inductive vchan := ch_free | ch_buf (b : nat).

(** [disk], with the rings it points to, the buffers and the wakeups issued. *)
Record disk := mkDisk {
  desc : Z -> virtq_desc;
  avail_idx : Z;
  avail_ring : list Z;
  used_ring_idx : Z;
  used_ring : list Z;
  free : Z -> bool;
  used_idx : Z;
  info : Z -> info_t;
  ops : Z -> virtio_blk_req;
  bufs : nat -> buf;
  wakeups : list vchan
}.

Definition upd_desc (i : Z) (d : virtq_desc) (s : disk) : disk :=
  mkDisk (<[i := d]> (desc s)) (avail_idx s) (avail_ring s) (used_ring_idx s) (used_ring s) (free s) (used_idx s) (info s) (ops s) (bufs s) (wakeups s).
Definition set_desc (i : Z) (d : virtq_desc) : M disk unit := modify (upd_desc i d).
Definition upd_free (i : Z) (b : bool) (s : disk) : disk :=
  mkDisk (desc s) (avail_idx s) (avail_ring s) (used_ring_idx s) (used_ring s) (<[i := b]> (free s)) (used_idx s) (info s) (ops s) (bufs s) (wakeups s).
Definition set_free (i : Z) (b : bool) : M disk unit := modify (upd_free i b).
Definition upd_info (i : Z) (f : info_t -> info_t) (s : disk) : disk :=
  mkDisk (desc s) (avail_idx s) (avail_ring s) (used_ring_idx s) (used_ring s) (free s) (used_idx s) (<[i := f (info s i)]> (info s)) (ops s) (bufs s) (wakeups s).
Definition set_info (i : Z) (f : info_t -> info_t) : M disk unit := modify (upd_info i f).
Definition upd_op (i : Z) (r : virtio_blk_req) (s : disk) : disk :=
  mkDisk (desc s) (avail_idx s) (avail_ring s) (used_ring_idx s) (used_ring s) (free s) (used_idx s) (info s) (<[i := r]> (ops s)) (bufs s) (wakeups s).
Definition set_op (i : Z) (r : virtio_blk_req) : M disk unit := modify (upd_op i r).
Definition upd_buf (b : nat) (f : buf -> buf) (s : disk) : disk :=
  mkDisk (desc s) (avail_idx s) (avail_ring s) (used_ring_idx s) (used_ring s) (free s) (used_idx s) (info s) (ops s) (<[b := f (bufs s b)]> (bufs s)) (wakeups s).
Definition set_buf (b : nat) (f : buf -> buf) : M disk unit := modify (upd_buf b f).
Definition upd_wakeup (c : vchan) (s : disk) : disk :=
  mkDisk (desc s) (avail_idx s) (avail_ring s) (used_ring_idx s) (used_ring s) (free s) (used_idx s) (info s) (ops s) (bufs s) (wakeups s ++ [c]).
Definition wakeup (c : vchan) : M disk unit := modify (upd_wakeup c).
Definition upd_push_avail (i : Z) (s : disk) : disk :=
  mkDisk (desc s) (avail_idx s) (<[Z.to_nat (avail_idx s mod NUM) := i]> (avail_ring s)) (used_ring_idx s) (used_ring s) (free s) (used_idx s) (info s) (ops s) (bufs s) (wakeups s).
Definition push_avail (i : Z) : M disk unit := modify (upd_push_avail i).
Definition upd_inc_avail (s : disk) : disk :=
  mkDisk (desc s) (u16 (avail_idx s + 1)) (avail_ring s) (used_ring_idx s) (used_ring s) (free s) (used_idx s) (info s) (ops s) (bufs s) (wakeups s).
Definition inc_avail : M disk unit := modify upd_inc_avail.
Definition upd_inc_used (s : disk) : disk :=
  mkDisk (desc s) (avail_idx s) (avail_ring s) (used_ring_idx s) (used_ring s) (free s) (u16 (used_idx s + 1)) (info s) (ops s) (bufs s) (wakeups s).
Definition inc_used : M disk unit := modify upd_inc_used.

Definition with_disk (x : Z) (b : buf) : buf := mkBuf x (b_blockno b) (b_data b).
Definition with_data (l : list Z) (b : buf) : buf := mkBuf (b_disk b) (b_blockno b) l.
Definition with_info_b (x : option nat) (i : info_t) : info_t := mkInfo x (info_status i).
Definition with_status (x : Z) (i : info_t) : info_t := mkInfo (info_b i) x.

(** * The driver *)
Definition alloc_desc : M disk Z :=
  fr ← gets free;
  match find_idx fr (seqZ 0 NUM) with
  | Some i => set_free (Z.of_nat i) false;; mret (Z.of_nat i)
  | None => mret (-1)
  end.

Definition zero_desc : virtq_desc := mkDesc DNull 0 0 0.

Definition free_desc (i : Z) : M disk unit :=
  if decide (i >= NUM) then panic "free_desc 1"
  else
    fr ← gets free;
    if (fr i : bool) then panic "free_desc 2"
    else set_desc i zero_desc;; set_free i true;; wakeup ch_free.

Definition free_chain (i : Z) : M disk unit :=
  loop (S (Z.to_nat NUM)) (fun i =>
    d ← gets (fun s => desc s i);
    free_desc i;;
    if decide (Z.land (d_flags d) VRING_DESC_F_NEXT <> 0) then mret (inl (d_next d)) else mret (inr tt)) i.

(** The loop of alloc3_desc with [n] descriptors to go, and its clean-up. *)
Fixpoint free_all (idx : list Z) : M disk unit :=
  match idx with [] => mret tt | i :: idx' => free_desc i;; free_all idx' end.
Fixpoint alloc_loop (n : nat) (idx : list Z) : M disk (option (list Z)) :=
  match n with
  | O => mret (Some idx)
  | S n' =>
      i ← alloc_desc;
      if decide (i < 0) then free_all idx;; mret None else alloc_loop n' (idx ++ [i])
  end.
Definition alloc3_desc : M disk (option (list Z)) := alloc_loop 3 [].

(** virtio_disk_rw from the format of the descriptors to the notification. *)
Definition submit (b : nat) (write : bool) (i0 i1 i2 : Z) : M disk unit :=
  blockno ← gets (fun s => b_blockno (bufs s b));
  let sector := u32 (blockno * (BSIZE / 512)) in
  set_op i0 (mkReq (if write then VIRTIO_BLK_T_OUT else VIRTIO_BLK_T_IN) 0 sector);;
  set_desc i0 (mkDesc (DOps i0) 16 VRING_DESC_F_NEXT i1);;
  set_desc i1 (mkDesc (DData b) BSIZE (Z.lor (if write then 0 else VRING_DESC_F_WRITE) VRING_DESC_F_NEXT) i2);;
  set_info i0 (with_status 0xff);;
  set_desc i2 (mkDesc (DStatus i0) 1 VRING_DESC_F_WRITE 0);;
  set_buf b (with_disk 1);;
  set_info i0 (with_info_b (Some b));;
  push_avail i0;;
  inc_avail.

(** From the call, or from the sleep for descriptors, to the next sleep: the
    descriptors of the request, or [None] when it sleeps for them. *)
Definition virtio_disk_rw_start (b : nat) (write : bool) : M disk (option (Z * Z * Z)) :=
  acquire vdisk_lock;;
  o ← alloc3_desc;
  match o with
  | Some [i0; i1; i2] => submit b write i0 i1 i2;; release vdisk_lock;; mret (Some (i0, i1, i2))
  | _ => release vdisk_lock;; mret None
  end.

(** From the sleep for the request on: whether virtio_disk_rw returned. *)
Definition virtio_disk_rw_wait (b : nat) (i0 : Z) : M disk bool :=
  acquire vdisk_lock;;
  d ← gets (fun s => b_disk (bufs s b));
  if decide (d = 1) then release vdisk_lock;; mret false
  else
    set_info i0 (with_info_b None);;
    free_chain i0;;
    release vdisk_lock;;
    mret true.

Definition virtio_disk_intr : M disk unit :=
  acquire vdisk_lock;;
  n ← gets (fun s => Z.to_nat (u16 (used_ring_idx s - used_idx s)));
  loop (S n) (fun _ =>
    s ← gets id;
    if decide (used_idx s = used_ring_idx s) then mret (inr tt)
    else
      id ← (match used_ring s !! Z.to_nat (used_idx s mod NUM) with Some x => mret x | None => undef "used ring" end);
      if decide (info_status (info s id) <> 0) then panic "virtio_disk_intr status"
      else
        match info_b (info s id) with
        | None => undef "info b"
        | Some b => set_buf b (with_disk 0);; wakeup (ch_buf b);; inc_used;; mret (inl tt)
        end) tt;;
  release vdisk_lock.

(** A request that the device failed stops the machine. *)
Lemma virtio_disk_intr_error L s i :
  vdisk_lock ∉ L -> used_idx s <> used_ring_idx s ->
  used_ring s !! Z.to_nat (used_idx s mod NUM) = Some i -> info_status (info s i) <> 0 ->
  panics virtio_disk_intr L s "virtio_disk_intr status".
Proof.
  intros HL Hne Hid Hst. unfold virtio_disk_intr. apply panics_bind, wpl_acquire; [done|].
  apply panics_bind. wsteps. unfold panics, mbind, M_bind. cbn [loop]. unfold mbind, M_bind, gets. cbn beta iota.
  change (id s) with s. rewrite decide_False by done. rewrite Hid. cbn. by rewrite decide_True.
Qed.

(** * Descriptors *)

(** Only descriptors in [P], the free flags and the wakeups may differ. *)
Record touched (P : Z -> Prop) (s s' : disk) : Prop := {
  to_desc : forall i, ~ P i -> desc s' i = desc s i;
  to_avail : avail_idx s' = avail_idx s /\ avail_ring s' = avail_ring s;
  to_used : used_ring_idx s' = used_ring_idx s /\ used_ring s' = used_ring s /\ used_idx s' = used_idx s;
  to_rest : info s' = info s /\ ops s' = ops s /\ bufs s' = bufs s
}.

Lemma touched_refl P s : touched P s s.
Proof. by split. Qed.

Lemma disk_touched_trans (P Q R : Z -> Prop) s s1 s2 : touched P s s1 -> touched Q s1 s2 -> (forall i, P i \/ Q i -> R i) -> touched R s s2.
Proof.
  intros [A1 [A2 A2'] (A3 & A3' & A3'') (A4 & A4' & A4'')] [B1 [B2 B2'] (B3 & B3' & B3'') (B4 & B4' & B4'')] HR.
  split; [|split; congruence|split_and!; congruence|split_and!; congruence]. intros i Hi. rewrite B1, A1; naive_solver.
Qed.

Lemma alloc_desc_wp L s : wp alloc_desc L s (fun r s' =>
  touched (fun _ => False) s s' /\ wakeups s' = wakeups s /\ desc s' = desc s /\
  ((0 <= r < NUM /\ free s r = true /\ free s' = <[r := false]> (free s)) \/
   (r = -1 /\ free s' = free s /\ forall i, 0 <= i < NUM -> free s i = false))).
Proof.
  unfold alloc_desc, set_free. wsteps. destruct (find_idx (free s) (seqZ 0 NUM)) as [k|] eqn:E; wsteps; (split; [done|]); (split; [done|]).
  - do 2 (split; [done|]). apply find_idx_Some in E as [(x & Hx & Hf) _]. apply lookup_seqZ in Hx as [-> Hk]. rewrite Z.add_0_l in Hf.
    left. split; [lia|]. done.
  - do 2 (split; [done|]). right. split; [done|]. split; [done|]. intros i Hi. apply (proj1 (find_idx_None _ _) E). apply elem_of_seqZ. lia.
Qed.

Lemma free_desc_wp i L s : i < NUM -> free s i = false -> wp (free_desc i) L s (fun _ s' =>
  touched (fun j => j = i) s s' /\ desc s' i = zero_desc /\ free s' = <[i := true]> (free s)).
Proof.
  intros Hi Hf. unfold free_desc, set_desc, set_free, wakeup. wstep. wfalse; [|lia]. wsteps. rewrite Hf. wsteps. split; [done|].
  split; [|split; [cbn; by rewrite fn_lookup_insert|done]]. split; cbn; try done. intros j Hj. by rewrite fn_lookup_insert_ne.
Qed.

(** The descriptors [idx] are taken, or given back. *)
Definition taking (idx : list Z) (f : Z -> bool) : Z -> bool := fun i => f i && negb (bool_decide (i ∈ idx)).
Definition giving (idx : list Z) (f : Z -> bool) : Z -> bool := fun i => f i || bool_decide (i ∈ idx).

Lemma free_all_wp idx L s : NoDup idx -> (forall i, i ∈ idx -> i < NUM /\ free s i = false) -> wp (free_all idx) L s (fun _ s' =>
  touched (fun j => j ∈ idx) s s' /\ forall i, free s' i = giving idx (free s) i).
Proof.
  intros Hnd. revert s. induction Hnd as [|i idx Hi Hnd IH]; intros s Hf; cbn [free_all].
  - wsteps. split; [done|]. split; [apply touched_refl|]. intros i. unfold giving. rewrite bool_decide_false by apply not_elem_of_nil. by rewrite orb_false_r.
  - wsteps. eapply wpl_call; [apply free_desc_wp; apply Hf; by left|]. intros ? s1 (Ht & _ & Hf1).
    eapply wpl_call; [apply IH|].
    { intros j Hj. destruct (Hf j) as [? ?]; [by right|]. split; [done|]. rewrite Hf1, fn_lookup_insert_ne; [done|]. by intros ->. }
    intros ? s2 (Ht2 & Hf2). split; [done|]. split.
    + eapply disk_touched_trans; [done..|]. intros j [-> | Hj]; [by left|by right].
    + intros j. rewrite Hf2. unfold giving. rewrite Hf1. unfold insert, fn_insert. case_decide as Hd; [subst; cbn; rewrite bool_decide_true by (by left); by rewrite orb_true_r|].
      f_equal. apply bool_decide_ext. rewrite elem_of_cons. naive_solver.
Qed.

Lemma alloc_loop_wp n idx L s s0 : touched (fun _ => False) s0 s -> desc s = desc s0 -> (forall i, free s i = taking idx (free s0) i) -> NoDup idx ->
  (forall i, i ∈ idx -> 0 <= i < NUM /\ free s0 i = true) ->
  wp (alloc_loop n idx) L s (fun r s' => touched (fun i => free s0 i = true) s0 s' /\
    match r with
    | Some idx' => length idx' = (length idx + n)%nat /\ NoDup idx' /\ (forall i, i ∈ idx' -> 0 <= i < NUM /\ free s0 i = true) /\
        (forall i, free s' i = taking idx' (free s0) i) /\ desc s' = desc s0
    | None => forall i, free s' i = free s0 i
    end).
Proof.
  revert idx s. induction n as [|n IH]; intros idx s Ht Hd Hf Hnd Hin; cbn [alloc_loop].
  - wsteps. split; [done|]. split; [by eapply disk_touched_trans; [exact (touched_refl (fun _ => False) s0)|done|naive_solver]|]. rewrite Nat.add_0_r. done.
  - wsteps. eapply wpl_call; [apply alloc_desc_wp|]. intros r s1 (Ht1 & Hw1 & Hd1 & Hr).
    assert (Ht1' : touched (fun _ => False) s0 s1) by (eapply disk_touched_trans; [done..|naive_solver]).
    destruct Hr as [(Hr & Hfr & Hf1)|(-> & Hf1 & _)].
    + rewrite Hf in Hfr. unfold taking in Hfr. apply andb_true_iff in Hfr as [Hfr Hni]. apply negb_true_iff, bool_decide_eq_false in Hni.
      wfalse; [|lia]. eapply wp_mono; [apply (IH (idx ++ [r]) s1); try done|].
      * congruence.
      * intros i. rewrite Hf1. unfold insert, fn_insert. case_decide as Hi; [subst; unfold taking; rewrite bool_decide_true by set_solver; by rewrite andb_false_r|].
        rewrite Hf. unfold taking. do 2 f_equal. apply bool_decide_ext. set_solver.
      * apply NoDup_app. split_and!; [done|set_solver|apply NoDup_singleton].
      * intros i [Hi|Hi%list_elem_of_singleton]%elem_of_app; [by apply Hin|]. by subst.
      * intros r' s2 [Ht2 Hr']. split; [done|]. destruct r' as [idx'|]; [|done]. rewrite length_app in Hr'. cbn in Hr'. by rewrite Nat.add_1_r, Nat.add_succ_comm in Hr'.
    + wtrue; [|done]. wsteps. eapply wpl_call; [apply free_all_wp; [done|]|].
      { intros i Hi. split; [by apply Hin|]. rewrite Hf1, Hf. unfold taking. rewrite bool_decide_true by done. by rewrite andb_false_r. }
      intros ? s2 [Ht2 Hf2]. wsteps. split; [done|]. split.
      * eapply disk_touched_trans; [done..|]. intros i [[]|Hi]. by apply Hin.
      * intros i. rewrite Hf2. unfold giving. rewrite Hf1, Hf. unfold taking. destruct (decide (i ∈ idx)) as [Hi|Hi].
        -- rewrite bool_decide_true by done. destruct (Hin i Hi) as [_ ->]. done.
        -- rewrite bool_decide_false by done. by rewrite andb_true_r, orb_false_r.
Qed.

(** The chain of three descriptors of a request for buffer [b]. *)
Record chain_ok (s : disk) (b : nat) (write : bool) (i0 i1 i2 : Z) : Prop := {
  ck_0 : desc s i0 = mkDesc (DOps i0) 16 VRING_DESC_F_NEXT i1;
  ck_1 : desc s i1 = mkDesc (DData b) BSIZE (Z.lor (if write then 0 else VRING_DESC_F_WRITE) VRING_DESC_F_NEXT) i2;
  ck_2 : desc s i2 = mkDesc (DStatus i0) 1 VRING_DESC_F_WRITE 0;
  ck_op : ops s i0 = mkReq (if write then VIRTIO_BLK_T_OUT else VIRTIO_BLK_T_IN) 0 (u32 (b_blockno (bufs s b) * (BSIZE / 512)));
  ck_info : info_b (info s i0) = Some b
}.

Lemma giving_three i0 i1 i2 (f : Z -> bool) i : (<[i2 := true]> (<[i1 := true]> (<[i0 := true]> f))) i = giving [i0; i1; i2] f i.
Proof.
  unfold giving, insert, fn_insert.
  destruct (decide (i2 = i)) as [<-|]; [rewrite bool_decide_true by (right; right; left); by rewrite orb_true_r|].
  destruct (decide (i1 = i)) as [<-|]; [rewrite bool_decide_true by (right; left); by rewrite orb_true_r|].
  destruct (decide (i0 = i)) as [<-|]; [rewrite bool_decide_true by left; by rewrite orb_true_r|].
  rewrite bool_decide_false; [by rewrite orb_false_r|]. intros [->|[->|[->|[]%elem_of_nil]%elem_of_cons]%elem_of_cons]%elem_of_cons; done.
Qed.

Lemma free_chain_wp b (w : bool) i0 i1 i2 L s : NoDup [i0; i1; i2] -> (forall i, i ∈ [i0; i1; i2] -> i < NUM /\ free s i = false) ->
  desc s i0 = mkDesc (DOps i0) 16 VRING_DESC_F_NEXT i1 ->
  desc s i1 = mkDesc (DData b) BSIZE (Z.lor (if w then 0 else VRING_DESC_F_WRITE) VRING_DESC_F_NEXT) i2 ->
  desc s i2 = mkDesc (DStatus i0) 1 VRING_DESC_F_WRITE 0 ->
  wp (free_chain i0) L s (fun _ s' => touched (fun j => j ∈ [i0; i1; i2]) s s' /\ forall i, free s' i = giving [i0; i1; i2] (free s) i).
Proof.
  intros Hnd Hin H0 H1 H2. apply NoDup_cons in Hnd as [N0 Hnd]. apply NoDup_cons in Hnd as [N1 _].
  assert (i0 <> i1 /\ i0 <> i2 /\ i1 <> i2) as (N01 & N02 & N12) by set_solver. unfold free_chain. change (Z.to_nat NUM) with 8%nat.
  rewrite loop_S. wsteps. rewrite H0. eapply wpl_call; [apply free_desc_wp; apply Hin; set_solver|]. intros ? s1 (T1 & _ & F1). cbn [d_flags d_next].
  wtrue; [|done]. wsteps. rewrite loop_S. wsteps. rewrite (to_desc _ _ _ T1 i1) by done. rewrite H1.
  eapply wpl_call; [apply free_desc_wp; [apply Hin; set_solver|rewrite F1, fn_lookup_insert_ne by done; apply Hin; set_solver]|].
  intros ? s2 (T2 & _ & F2). cbn [d_flags d_next]. wtrue; [|by destruct w]. wsteps. rewrite loop_S. wsteps.
  rewrite (to_desc _ _ _ T2 i2), (to_desc _ _ _ T1 i2) by done. rewrite H2.
  eapply wpl_call; [apply free_desc_wp; [apply Hin; set_solver|rewrite F2, F1, !fn_lookup_insert_ne by done; apply Hin; set_solver]|].
  intros ? s3 (T3 & _ & F3). cbn [d_flags d_next]. wfalse; [|intros Hx; by apply Hx]. wsteps. split; [done|]. split.
  - eapply (disk_touched_trans _ (fun j => j = i1 \/ j = i2)); [exact T1|by eapply disk_touched_trans; [exact T2|exact T3|]|]. set_solver.
  - intros i. rewrite F3, F2, F1. apply giving_three.
Qed.

(** What submitting a request does. *)
Record submitted (s : disk) (b : nat) (write : bool) (i0 i1 i2 : Z) (s' : disk) : Prop := {
  su_chain : chain_ok s' b write i0 i1 i2;
  su_status : info_status (info s' i0) = 0xff;
  su_desc : forall i, i ∉ [i0; i1; i2] -> desc s' i = desc s i;
  su_info : forall i, i <> i0 -> info s' i = info s i /\ ops s' i = ops s i;
  su_buf : bufs s' = <[b := with_disk 1 (bufs s b)]> (bufs s);
  su_free : free s' = free s;
  su_avail : avail_idx s' = u16 (avail_idx s + 1) /\ avail_ring s' = <[Z.to_nat (avail_idx s mod NUM) := i0]> (avail_ring s);
  su_used : used_ring_idx s' = used_ring_idx s /\ used_ring s' = used_ring s /\ used_idx s' = used_idx s
}.

Lemma submit_wp b w i0 i1 i2 L s : NoDup [i0; i1; i2] -> wp (submit b w i0 i1 i2) L s (fun _ s' => submitted s b w i0 i1 i2 s').
Proof.
  intros Hnd. apply NoDup_cons in Hnd as [N0 Hnd]. apply NoDup_cons in Hnd as [N1 _].
  assert (i0 <> i1 /\ i0 <> i2 /\ i1 <> i2) as (N01 & N02 & N12) by set_solver.
  unfold submit, set_op, set_desc, set_info, set_buf, push_avail, inc_avail. wsteps. split; [done|]. split; cbn; try done.
  - split; cbn; repeat first [rewrite fn_lookup_insert|rewrite fn_lookup_insert_ne by done]; done.
  - by rewrite !fn_lookup_insert.
  - intros i Hi. rewrite !fn_lookup_insert_ne by set_solver. done.
  - intros i Hi. by rewrite !fn_lookup_insert_ne by done.
Qed.

(** * The device *)

(** Its place in the available ring, the chains it works on, and the bytes. *)
Record device := mkDevice { seen : Z; inflight : list Z; storage : Z -> Z }.

(** Block [n] of the disk. *)
Definition block (st : Z -> Z) (n : Z) : list Z := (fun k : Z => st (n * BSIZE + k)) <$> seqZ 0 BSIZE.
Definition store_bytes (st : Z -> Z) (base : Z) (l : list Z) : Z -> Z :=
  fun x => match l !! Z.to_nat (x - base) with Some b => if decide (base <= x) then b else st x | None => st x end.
Definition load_bytes (st : Z -> Z) (base len : Z) : list Z := (fun k : Z => st (base + k)) <$> seqZ 0 len.

(** It takes the next chain that was made available. *)
Definition fetch (d : disk) (v : device) : option (disk * device) :=
  if decide (seen v = avail_idx d) then None
  else h ← avail_ring d !! Z.to_nat (seen v mod NUM); Some (d, mkDevice (u16 (seen v + 1)) (inflight v ++ [h]) (storage v)).

(** It makes the transfer that the chain from [h] describes, stores the status 0 of a
    transfer without error and puts the chain in the used ring.  A request that the
    device fails is not a step here: [virtio_disk_intr_error] is what the driver
    makes of one. *)
Definition transfer (h : Z) (d : disk) (v : device) : option (disk * device) :=
  let d0 := desc d h in
  let d1 := desc d (d_next d0) in
  let d2 := desc d (d_next d1) in
  match d_addr d0, d_addr d1, d_addr d2 with
  | DOps i, DData b, DStatus j =>
      let base := rq_sector (ops d i) * SECTOR in
      let out := bool_decide (rq_type (ops d i) = VIRTIO_BLK_T_OUT) in
      Some (mkDisk (desc d) (avail_idx d) (avail_ring d) (u16 (used_ring_idx d + 1))
              (<[Z.to_nat (used_ring_idx d mod NUM) := h]> (used_ring d)) (free d) (used_idx d)
              (<[j := with_status 0 (info d j)]> (info d)) (ops d)
              (if out then bufs d else <[b := with_data (load_bytes (storage v) base (d_len d1)) (bufs d b)]> (bufs d)) (wakeups d),
            mkDevice (seen v) (filter (fun x => x <> h) (inflight v))
              (if out then store_bytes (storage v) base (take (Z.to_nat (d_len d1)) (b_data (bufs d b))) else storage v))
  | _, _, _ => None
  end.

(** The buffer of the chain from [h]. *)
Definition chain_buf (d : disk) (h : Z) : option nat :=
  match d_addr (desc d (d_next (desc d h))) with DData b => Some b | _ => None end.

(** A chain as the specification of block devices wants it. *)
Definition well_formed (d : disk) (h : Z) : Prop := exists b w i1 i2, chain_ok d b w h i1 i2.

(** * Processes, driver and device together *)

(** A process outside the driver, asleep for descriptors, or asleep for its
    request. *)
Inductive tstate := TIdle | TBlocked (b : nat) (write : bool) | TWait (b : nat) (write : bool) (i0 i1 i2 : Z).

(** [moved b]: the transfer of the current request of [b] has been made. *)
Record machine := mkMachine { drv : disk; dev : device; threads : nat -> tstate; moved : nat -> Prop }.

Definition idx_of (t : tstate) : list Z := match t with TWait _ _ i0 i1 i2 => [i0; i1; i2] | _ => [] end.
Definition uses (t : tstate) (b : nat) : Prop := match t with TIdle => False | TBlocked x _ | TWait x _ _ _ _ => x = b end.

Section System.
Context (dstep : disk * device -> disk * device -> Prop).

(** The processes call virtio_disk_rw on buffers whose sleep lock they hold, so no
    two of them on one buffer; the contents of a buffer that is not in use may
    change. *)
Inductive step : machine -> machine -> Prop :=
  | step_start t b w r d' m :
      threads m t = TIdle /\ (forall t', ~ uses (threads m t') b) \/ threads m t = TBlocked b w ->
      length (b_data (bufs (drv m) b)) = Z.to_nat BSIZE -> 0 <= b_blockno (bufs (drv m) b) * (BSIZE / 512) < 2 ^ 32 ->
      virtio_disk_rw_start b w [] (drv m) = Ok r [] d' ->
      step m (mkMachine d' (dev m)
        (<[t := match r with Some (i0, i1, i2) => TWait b w i0 i1 i2 | None => TBlocked b w end]> (threads m))
        (fun x => moved m x /\ x <> b))
  | step_wait t b w i0 i1 i2 r d' m :
      threads m t = TWait b w i0 i1 i2 -> virtio_disk_rw_wait b i0 [] (drv m) = Ok r [] d' ->
      step m (mkMachine d' (dev m) (if r : bool then <[t := TIdle]> (threads m) else threads m) (moved m))
  | step_intr d' m : virtio_disk_intr [] (drv m) = Ok tt [] d' -> step m (mkMachine d' (dev m) (threads m) (moved m))
  | step_device d' v' m : dstep (drv m, dev m) (d', v') ->
      step m (mkMachine d' v' (threads m)
        (fun x => moved m x \/ exists h, transfer h (drv m) (dev m) = Some (d', v') /\ h ∈ inflight (dev m) /\ chain_buf (drv m) h = Some x))
  | step_client b l n m : (forall t, ~ uses (threads m t) b) ->
      step m (mkMachine (upd_buf b (fun x => mkBuf (b_disk x) n l) (drv m)) (dev m) (threads m) (moved m)).

(** After virtio_disk_init. *)
Definition init (m : machine) : Prop :=
  (forall t, threads m t = TIdle) /\ (forall i, 0 <= i < NUM -> free (drv m) i = true) /\
  avail_idx (drv m) = 0 /\ used_idx (drv m) = 0 /\ used_ring_idx (drv m) = 0 /\ seen (dev m) = 0 /\ inflight (dev m) = [] /\
  Z.of_nat (length (avail_ring (drv m))) = NUM /\ Z.of_nat (length (used_ring (drv m))) = NUM.

(** The descriptors and the buffers of the requests are apart. *)
Record owned (m : machine) : Prop := {
  ow_idx : forall t, NoDup (idx_of (threads m t)) /\ forall i, i ∈ idx_of (threads m t) -> 0 <= i < NUM;
  ow_free : forall i, 0 <= i < NUM -> free (drv m) i = true <-> forall t, i ∉ idx_of (threads m t);
  ow_disj : forall t t' i, i ∈ idx_of (threads m t) -> i ∈ idx_of (threads m t') -> t = t';
  ow_buf : forall t t' b, uses (threads m t) b -> uses (threads m t') b -> t = t'
}.

(** A request: its chain is as it was submitted, and once its transfer is
    reported its status is good. *)
Record request_ok (m : machine) (done : Z -> Prop) (b : nat) (w : bool) (i0 i1 i2 : Z) : Prop := {
  rq_chain : chain_ok (drv m) b w i0 i1 i2;
  rq_len : length (b_data (bufs (drv m) b)) = Z.to_nat BSIZE;
  rq_block : 0 <= b_blockno (bufs (drv m) b) * (BSIZE / 512) < 2 ^ 32;
  rq_disk : b_disk (bufs (drv m) b) = 0 \/ b_disk (bufs (drv m) b) = 1;
  rq_done : done i0 \/ b_disk (bufs (drv m) b) = 0 -> info_status (info (drv m) i0) = 0 /\ moved m b
}.

(** The heads in the available ring that the device has not fetched, [A], and
    those in the used ring that the handler has not seen, [C]. *)
Record queues (m : machine) (A C : list Z) : Prop := {
  qu_avail : ring NUM (avail_ring (drv m)) (seen (dev m)) A;
  qu_avail_idx : avail_idx (drv m) = u16 (seen (dev m) + Z.of_nat (length A));
  qu_used : ring NUM (used_ring (drv m)) (used_idx (drv m)) C;
  qu_used_idx : used_ring_idx (drv m) = u16 (used_idx (drv m) + Z.of_nat (length C));
  qu_len : Z.of_nat (length (avail_ring (drv m))) = NUM /\ Z.of_nat (length (used_ring (drv m))) = NUM;
  qu_range : 0 <= seen (dev m) < 2 ^ 16 /\ 0 <= used_idx (drv m) < 2 ^ 16;
  qu_nodup : NoDup (A ++ inflight (dev m) ++ C);
  qu_heads : forall h, h ∈ A ++ inflight (dev m) ++ C <-> exists t b w i1 i2, threads m t = TWait b w h i1 i2 /\ b_disk (bufs (drv m) b) = 1
}.

Definition inv (m : machine) : Prop := owned m /\ exists A C, queues m A C /\
  forall t b w i0 i1 i2, threads m t = TWait b w i0 i1 i2 -> request_ok m (fun h => h ∈ C) b w i0 i1 i2.

#[local] Instance NUM_ring : RingSize NUM.
Proof. split; [done|]. by exists (2 ^ 29). Qed.

Lemma ring_u16 data r q : ring NUM data (u16 r) q <-> ring NUM data r q.
Proof. apply ring_wrap; [apply _|done|]. by exists (2 ^ 13). Qed.

Lemma u16_mod_NUM x : u16 x mod NUM = x mod NUM.
Proof. apply wrap_mod_ring; [apply _|done|]. by exists (2 ^ 13). Qed.

(** ** Starting a request *)
Lemma rw_start_wp b w L s : vdisk_lock ∉ L -> wp (virtio_disk_rw_start b w) L s (fun r s' =>
  match r with
  | None => touched (fun i => free s i = true) s s' /\ forall i, free s' i = free s i
  | Some (i0, i1, i2) => exists s1, touched (fun i => free s i = true) s s1 /\ NoDup [i0; i1; i2] /\
      (forall i, i ∈ [i0; i1; i2] -> 0 <= i < NUM /\ free s i = true) /\ (forall i, free s1 i = taking [i0; i1; i2] (free s) i) /\
      submitted s1 b w i0 i1 i2 s'
  end).
Proof.
  intros HL. unfold virtio_disk_rw_start, alloc3_desc. wsteps.
  eapply wpl_call; [apply (alloc_loop_wp 3 [] _ s s); [apply touched_refl|done| |apply NoDup_nil_2|set_solver]|].
  { intros i. unfold taking. rewrite bool_decide_false by apply not_elem_of_nil. by rewrite andb_true_r. }
  intros r s1 [Ht Hr]. destruct r as [idx|]; [|wsteps; done].
  destruct Hr as (Hlen & Hnd & Hin & Hf & _). destruct idx as [|i0 [|i1 [|i2 [|]]]]; try done.
  wsteps. eapply wpl_call; [by apply submit_wp|]. intros ? s2 Hs. wsteps. split; [done|]. by exists s1.
Qed.

(** The descriptors of a request are not free, so the others' chains stay. *)
Lemma chain_frame s s' b w i0 i1 i2 : chain_ok s b w i0 i1 i2 -> (forall i, i ∈ [i0; i1; i2] -> desc s' i = desc s i) ->
  ops s' i0 = ops s i0 -> info_b (info s' i0) = info_b (info s i0) -> b_blockno (bufs s' b) = b_blockno (bufs s b) -> chain_ok s' b w i0 i1 i2.
Proof.
  intros [C0 C1 C2 Cop Ci] Hd Ho Hi Hb. split; [rewrite Hd by set_solver; done|rewrite Hd by set_solver; done|rewrite Hd by set_solver; done| |congruence].
  rewrite Ho, Cop. by rewrite Hb.
Qed.

Lemma not_free m t i : owned m -> i ∈ idx_of (threads m t) -> free (drv m) i = false.
Proof.
  intros Ho Hi. destruct (free (drv m) i) eqn:E; [|done]. destruct (ow_idx _ Ho t) as [_ Hr].
  pose proof (proj1 (ow_free _ Ho i (Hr i Hi)) E t). done.
Qed.

Lemma blocked_inv t b w m d' mv : inv m -> threads m t = TIdle /\ (forall t', ~ uses (threads m t') b) \/ threads m t = TBlocked b w ->
  touched (fun i => free (drv m) i = true) (drv m) d' -> (forall i, free d' i = free (drv m) i) -> (forall x, x <> b -> moved m x -> mv x) ->
  inv (mkMachine d' (dev m) (<[t := TBlocked b w]> (threads m)) mv).
Proof.
  intros (Ho & A & C & Hq & Hreq) Ht [T1 [T2 T2'] (T3 & T3' & T3'') (T4 & T4' & T4'')] Hf Hmv.
  assert (Hidx : forall x, idx_of ((<[t := TBlocked b w]> (threads m)) x) = idx_of (threads m x)).
  { intros x. unfold insert, fn_insert. case_decide as Hd; [subst; cbn; by destruct Ht as [[-> _]| ->]|done]. }
  assert (Hwait : forall x b' w' i0 i1 i2, (<[t := TBlocked b w]> (threads m)) x = TWait b' w' i0 i1 i2 <-> threads m x = TWait b' w' i0 i1 i2).
  { intros x b' w' i0 i1 i2. unfold insert, fn_insert. case_decide as Hd; [subst; destruct Ht as [[-> _]| ->]; done|done]. }
  split; [|exists A, C; split].
  - destruct Ho as [O1 O2 O3 O4]. split; cbn.
    + intros x. rewrite Hidx. apply O1.
    + intros i Hi. rewrite Hf, O2 by done. by setoid_rewrite Hidx.
    + intros x y i. rewrite !Hidx. apply O3.
    + intros x y b'. unfold insert, fn_insert. repeat case_decide; subst; cbn; intros Hx Hy; try done; subst.
      * destruct Ht as [[_ Hno]|E]; [by apply Hno in Hy|]. apply (O4 _ _ b'); [by rewrite E|done].
      * destruct Ht as [[_ Hno]|E]; [by apply Hno in Hx|]. apply (O4 _ _ b'); [done|by rewrite E].
      * by apply (O4 _ _ b').
  - destruct Hq as [Q1 Q2 Q3 Q4 Q5 Q6 Q7 Q8]. split; cbn; rewrite ?T2, ?T2', ?T3, ?T3', ?T3'', ?T4''; try done. intros h. rewrite Q8. by setoid_rewrite Hwait.
  - cbn. intros x b' w' i0 i1 i2 Hx%Hwait. destruct (Hreq _ _ _ _ _ _ Hx) as [R1 R2 R3 R4 R5].
    assert (Hne : b' <> b).
    { intros ->. destruct Ht as [[_ Hno]|E]; [apply (Hno x); by rewrite Hx|]. assert (x = t) as -> by (apply (ow_buf _ Ho _ _ b); [by rewrite Hx|by rewrite E]). congruence. }
    split; cbn; rewrite ?T4, ?T4''; try done.
    + eapply chain_frame; [done| |by rewrite T4'|by rewrite T4|by rewrite T4'']. intros i Hi. apply T1. rewrite (not_free m x i Ho); [done|]. by rewrite Hx.
    + intros Hd. destruct (R5 Hd) as [? ?]. split; [done|]. by apply Hmv.
Qed.

Lemma heads_few l : NoDup l -> (forall i, i ∈ l -> 0 <= i < NUM) -> Z.of_nat (length l) <= NUM.
Proof.
  intros Hnd Hin. assert (Hs : l ⊆+ seqZ 0 NUM) by (apply NoDup_submseteq; [done|]; intros i Hi%Hin; apply elem_of_seqZ; lia).
  apply submseteq_length in Hs. rewrite length_seqZ in Hs. unfold NUM in *. lia.
Qed.

(** The heads of the requests that are under way. *)
Lemma head_of m A C h : queues m A C -> h ∈ A ++ inflight (dev m) ++ C -> exists t, h ∈ idx_of (threads m t).
Proof. intros Hq (t & b & w & i1 & i2 & Ht & _)%(qu_heads _ _ _ Hq). exists t. rewrite Ht. by left. Qed.

(** A request that has just been made available, by process [t] for buffer [b]. *)
Section Submit.
Context (t b : nat) (w : bool) (i0 i1 i2 : Z) (m : machine) (d1 d' : disk) (mv : nat -> Prop) (A C : list Z).
Context (Ho : owned m) (Hq : queues m A C).
Context (Hreq : forall t b w i0 i1 i2, threads m t = TWait b w i0 i1 i2 -> request_ok m (fun h => h ∈ C) b w i0 i1 i2).
Context (Ht : threads m t = TIdle /\ (forall t', ~ uses (threads m t') b) \/ threads m t = TBlocked b w).
Context (Hlen : length (b_data (bufs (drv m) b)) = Z.to_nat BSIZE) (Hblk : 0 <= b_blockno (bufs (drv m) b) * (BSIZE / 512) < 2 ^ 32).
Context (HT : touched (fun i => free (drv m) i = true) (drv m) d1) (Hnd : NoDup [i0; i1; i2]).
Context (Hin : forall i, i ∈ [i0; i1; i2] -> 0 <= i < NUM /\ free (drv m) i = true).
Context (Hf : forall i, free d1 i = taking [i0; i1; i2] (free (drv m)) i) (HS : submitted d1 b w i0 i1 i2 d').
Context (Hmv : forall x, x <> b -> moved m x -> mv x).

#[local] Notation m' := (mkMachine d' (dev m) (<[t := TWait b w i0 i1 i2]> (threads m)) mv).

#[local] Lemma submit_other x : x <> t -> (<[t := TWait b w i0 i1 i2]> (threads m)) x = threads m x.
Proof. intros Hx. by rewrite fn_lookup_insert_ne. Qed.

#[local] Lemma submit_self : (<[t := TWait b w i0 i1 i2]> (threads m)) t = TWait b w i0 i1 i2.
Proof. by rewrite fn_lookup_insert. Qed.

#[local] Lemma submit_new i x : i ∈ [i0; i1; i2] -> i ∉ idx_of (threads m x).
Proof using Ho Hin. intros Hi Hx. destruct (Hin i Hi) as [_ Hfr]. by rewrite (not_free m x i Ho Hx) in Hfr. Qed.

#[local] Lemma submit_old : idx_of (threads m t) = [].
Proof using Ht. by destruct Ht as [[-> _]| ->]. Qed.

#[local] Lemma submit_apart x : x <> t -> ~ uses (threads m x) b.
Proof using Ho Ht.
  intros Hx Hu. destruct Ht as [[_ Hno]|E]; [by apply Hno in Hu|]. apply Hx, (ow_buf _ Ho _ _ b); [done|by rewrite E].
Qed.

#[local] Lemma submit_bufs x : x <> b -> bufs d' x = bufs (drv m) x.
Proof using HT HS. intros Hx. rewrite (su_buf _ _ _ _ _ _ _ HS), (proj2 (proj2 (to_rest _ _ _ HT))), fn_lookup_insert_ne; done. Qed.

#[local] Lemma submit_buf : bufs d' b = with_disk 1 (bufs (drv m) b).
Proof using HT HS. rewrite (su_buf _ _ _ _ _ _ _ HS), (proj2 (proj2 (to_rest _ _ _ HT))). by rewrite fn_lookup_insert. Qed.

Lemma submit_owned : owned m'.
Proof using All.
  destruct HS as [S1 S2 S3 S4 S5 S6 [S7 S7'] (S8 & S8' & S8'')].
  destruct (Ho) as [O1 O2 O3 O4]. split; cbn.
  + intros x. destruct (decide (x = t)) as [->|Hx]; [rewrite submit_self|rewrite submit_other by done; apply O1]. split; [done|]. cbn. intros i Hi. by apply Hin.
  + intros i Hi. rewrite S6, Hf. unfold taking. rewrite andb_true_iff, negb_true_iff, bool_decide_eq_false, O2 by done. split.
    * intros [Hall Hni] x. destruct (decide (x = t)) as [->|Hx]; [by rewrite submit_self|by rewrite submit_other].
    * intros Hall. split; [|specialize (Hall t); by rewrite submit_self in Hall]. intros x. destruct (decide (x = t)) as [->|Hx]; [rewrite submit_old; apply not_elem_of_nil|].
      specialize (Hall x). by rewrite submit_other in Hall.
  + intros x y i. destruct (decide (x = t)) as [->|Hx], (decide (y = t)) as [->|Hy]; rewrite ?submit_self, ?submit_other by done; cbn; intros Hix Hiy; [done| | |by eapply O3].
    * by apply submit_new in Hiy.
    * by apply submit_new in Hix.
  + intros x y b'. destruct (decide (x = t)) as [->|Hx], (decide (y = t)) as [->|Hy]; rewrite ?submit_self, ?submit_other by done; cbn; intros Hbx Hby; [done| | |by eapply O4].
    * subst b'. by apply submit_apart in Hby.
    * subst b'. by apply submit_apart in Hbx.
Qed.

Lemma submit_queues : queues m' (A ++ [i0]) C.
Proof using All.
  destruct HT as [T1 [T2 T2'] (T3 & T3' & T3'') (T4 & T4' & T4'')], HS as [S1 S2 S3 S4 S5 S6 [S7 S7'] (S8 & S8' & S8'')].
  assert (Hfew : Z.of_nat (length A) < NUM).
  { assert (Hle : Z.of_nat (length (i0 :: A)) <= NUM); [|cbn in Hle; lia]. apply heads_few.
    - apply NoDup_cons. split; [|pose proof (qu_nodup _ _ _ Hq) as Hn; by apply NoDup_app in Hn as (? & _)].
      intros HA. destruct (head_of m A C i0 Hq) as (x & Hx); [by apply elem_of_app; left|]. by apply submit_new in Hx; [|left].
    - intros i [->|Hi]%elem_of_cons; [apply Hin; by left|]. destruct (head_of m A C i Hq) as (x & Hx); [by apply elem_of_app; left|]. by apply (ow_idx _ Ho x). }
  destruct (Hq) as [Q1 Q2 Q3 Q4 [Q5 Q5'] Q6 Q7 Q8].
  assert (Hperm : (A ++ [i0]) ++ inflight (dev m) ++ C ≡ₚ i0 :: A ++ inflight (dev m) ++ C) by (rewrite <- app_assoc; symmetry; apply Permutation_middle).
  split; cbn; rewrite ?S7, ?S7', ?S8, ?S8', ?S8'', ?T2, ?T2', ?T3, ?T3', ?T3''; try done.
  + rewrite Q2, u16_mod_NUM. by apply ring_push; [apply _|..].
  + rewrite Q2, length_app. cbn. unfold u16. rewrite Zplus_mod_idemp_l. f_equal. lia.
  + split; [by rewrite length_insert|done].
  + rewrite Hperm. apply NoDup_cons. split; [|done]. intros Hh. apply Q8 in Hh as (x & b' & w' & j1 & j2 & Hx & _).
    eapply (submit_new i0 x); [by left|]. rewrite Hx. by left.
  + intros h. rewrite Hperm, elem_of_cons, Q8. split.
    * intros [->|(x & b' & w' & j1 & j2 & Hx & Hd)]; [exists t, b, w, i1, i2; rewrite submit_self, submit_buf; done|].
      assert (x <> t) by (intros ->; pose proof submit_old as E; rewrite Hx in E; done). exists x, b', w', j1, j2. rewrite submit_other by done. split; [done|].
      rewrite submit_bufs; [done|]. intros ->. by apply (submit_apart x); [|rewrite Hx].
    * intros (x & b' & w' & j1 & j2 & Hx & Hd). destruct (decide (x = t)) as [->|Hne]; [rewrite submit_self in Hx; simplify_eq; by left|].
      rewrite submit_other in Hx by done. right. exists x, b', w', j1, j2. split; [done|]. rewrite submit_bufs in Hd; [done|]. intros ->. by apply (submit_apart x); [|rewrite Hx].
Qed.

Lemma submit_requests t' b' w' j0 j1 j2 : threads m' t' = TWait b' w' j0 j1 j2 -> request_ok m' (fun h => h ∈ C) b' w' j0 j1 j2.
Proof using All.
  destruct HT as [T1 [T2 T2'] (T3 & T3' & T3'') (T4 & T4' & T4'')], HS as [S1 S2 S3 S4 S5 S6 [S7 S7'] (S8 & S8' & S8'')].
  rename t' into x. cbn. intros Hx. destruct (decide (x = t)) as [->|Hne].
  + rewrite submit_self in Hx. injection Hx as <- <- <- <- <-. split; cbn; rewrite ?submit_buf; try done; [by right|]. intros [HC|]; [|done]. exfalso.
    destruct (head_of m A C i0 Hq) as (x & Hx); [by apply elem_of_app; right; apply elem_of_app; right|]. by apply submit_new in Hx; [|left].
  + rewrite submit_other in Hx by done. destruct (Hreq _ _ _ _ _ _ Hx) as [R1 R2 R3 R4 R5].
    assert (Hbne : b' <> b) by (intros ->; by apply (submit_apart x); [|rewrite Hx]).
    assert (Hj : forall i, i ∈ [j0; j1; j2] -> i ∉ [i0; i1; i2]) by (intros i Hi Hi'; apply (submit_new i x Hi'); by rewrite Hx).
    assert (j0 <> i0) by (intros ->; by eapply (Hj i0); left). destruct (S4 j0) as [Si So]; [done|].
    split; cbn; rewrite ?submit_bufs by done; try done.
    * eapply chain_frame; [done| |by rewrite So, T4'|by rewrite Si, T4|by rewrite submit_bufs]. intros i Hi. rewrite S3 by by apply Hj. apply T1. rewrite (not_free m x i Ho); [done|]. by rewrite Hx.
    * rewrite Si, T4. intros Hd. destruct (R5 Hd). split; [done|]. by apply Hmv.
Qed.
End Submit.

Lemma submit_inv t b w i0 i1 i2 m d1 d' mv : inv m -> threads m t = TIdle /\ (forall t', ~ uses (threads m t') b) \/ threads m t = TBlocked b w ->
  length (b_data (bufs (drv m) b)) = Z.to_nat BSIZE -> 0 <= b_blockno (bufs (drv m) b) * (BSIZE / 512) < 2 ^ 32 ->
  touched (fun i => free (drv m) i = true) (drv m) d1 -> NoDup [i0; i1; i2] ->
  (forall i, i ∈ [i0; i1; i2] -> 0 <= i < NUM /\ free (drv m) i = true) -> (forall i, free d1 i = taking [i0; i1; i2] (free (drv m)) i) ->
  submitted d1 b w i0 i1 i2 d' -> (forall x, x <> b -> moved m x -> mv x) ->
  inv (mkMachine d' (dev m) (<[t := TWait b w i0 i1 i2]> (threads m)) mv).
Proof.
  intros (Ho & A & C & Hq & Hreq) Ht Hlen Hblk HT Hnd Hin Hf HS Hmv.
  split; [by eapply submit_owned|]. exists (A ++ [i0]), C. split; [by eapply submit_queues|]. intros. by eapply submit_requests.
Qed.

(** ** The end of a request *)
Lemma rw_wait_wp t b w i0 i1 i2 m : inv m -> threads m t = TWait b w i0 i1 i2 -> wp (virtio_disk_rw_wait b i0) [] (drv m) (fun r d' =>
  if r : bool then b_disk (bufs (drv m) b) = 0 /\ moved m b /\
    touched (fun j => j ∈ [i0; i1; i2]) (upd_info i0 (with_info_b None) (drv m)) d' /\ (forall i, free d' i = giving [i0; i1; i2] (free (drv m)) i)
  else d' = drv m).
Proof.
  intros (Ho & A & C & Hq & Hreq) Ht. destruct (Hreq _ _ _ _ _ _ Ht) as [[C0 C1 C2 Cop Ci] R2 R3 R4 R5].
  unfold virtio_disk_rw_wait, set_info. wsteps. wcase as Hd; wsteps; [done|].
  assert (Hd0 : b_disk (bufs (drv m) b) = 0) by tauto.
  eapply wpl_call; [apply (free_chain_wp b w i0 i1 i2)|].
  - pose proof (ow_idx _ Ho t) as [Hnd _]. by rewrite Ht in Hnd.
  - intros i Hi. split; [pose proof (ow_idx _ Ho t) as [_ Hr]; rewrite Ht in Hr; by apply Hr|]. cbn. apply (not_free m t i Ho). by rewrite Ht.
  - done.
  - done.
  - done.
  - intros ? d' [Htou Hf]. wsteps. split; [done|]. split_and!; [done|by apply R5; right|done|done].
Qed.

Lemma finish_inv t b w i0 i1 i2 m d' : inv m -> threads m t = TWait b w i0 i1 i2 -> b_disk (bufs (drv m) b) = 0 ->
  touched (fun j => j ∈ [i0; i1; i2]) (upd_info i0 (with_info_b None) (drv m)) d' -> (forall i, free d' i = giving [i0; i1; i2] (free (drv m)) i) ->
  inv (mkMachine d' (dev m) (<[t := TIdle]> (threads m)) (moved m)).
Proof.
  intros (Ho & A & C & Hq & Hreq) Ht Hd0 [T1 [T2 T2'] (T3 & T3' & T3'') (T4 & T4' & T4'')] Hf. cbn in T1, T2, T2', T3, T3', T3'', T4, T4', T4''.
  assert (Hother : forall x, x <> t -> (<[t := TIdle]> (threads m)) x = threads m x) by (intros x Hx; by rewrite fn_lookup_insert_ne).
  assert (Hself : (<[t := TIdle]> (threads m)) t = TIdle) by by rewrite fn_lookup_insert.
  assert (Hmine : forall i, i ∈ idx_of (threads m t) <-> i ∈ [i0; i1; i2]) by (intros i; by rewrite Ht).
  split; [|exists A, C; split].
  - destruct Ho as [O1 O2 O3 O4]. split; cbn.
    + intros x. destruct (decide (x = t)) as [->|Hx]; [rewrite Hself|rewrite Hother by done; apply O1]. split; [apply NoDup_nil_2|]. intros i []%elem_of_nil.
    + intros i Hi. rewrite Hf. unfold giving. rewrite orb_true_iff, bool_decide_eq_true, O2 by done. split.
      * intros [Hall|Hmi] x; (destruct (decide (x = t)) as [->|Hx]; [rewrite Hself; apply not_elem_of_nil|rewrite Hother by done]); [done|].
        intros Hx'. apply Hx, (O3 _ _ i); [done|by apply Hmine].
      * intros Hall. destruct (decide (i ∈ [i0; i1; i2])) as [|Hn]; [by right|]. left. intros x. destruct (decide (x = t)) as [->|Hx]; [by rewrite Hmine|].
        specialize (Hall x). by rewrite Hother in Hall.
    + intros x y i. destruct (decide (x = t)) as [->|Hx], (decide (y = t)) as [->|Hy]; rewrite ?Hself, ?Hother by done; cbn; try (by intros []%elem_of_nil); try (by intros ? []%elem_of_nil). apply O3.
    + intros x y b'. destruct (decide (x = t)) as [->|Hx], (decide (y = t)) as [->|Hy]; rewrite ?Hself, ?Hother by done; cbn; try done. apply O4.
  - destruct Hq as [Q1 Q2 Q3 Q4 Q5 Q6 Q7 Q8]. split; cbn; rewrite ?T2, ?T2', ?T3, ?T3', ?T3'', ?T4''; try done. intros h. rewrite Q8.
    split; intros (x & b' & w' & j1 & j2 & Hx & Hd); exists x, b', w', j1, j2; (split; [|done]).
    + rewrite Hother; [done|]. intros ->. rewrite Ht in Hx. simplify_eq. lia.
    + rewrite Hother in Hx; [done|]. intros ->. by rewrite Hself in Hx.
  - cbn. intros x b' w' j0 j1 j2 Hx. assert (Hne : x <> t) by (intros ->; by rewrite Hself in Hx). rewrite Hother in Hx by done.
    destruct (Hreq _ _ _ _ _ _ Hx) as [R1 R2 R3 R4 R5].
    assert (Hj : forall i, i ∈ [j0; j1; j2] -> i ∉ [i0; i1; i2]).
    { intros i Hi Hi'. apply Hne, (ow_disj _ Ho _ _ i); [by rewrite Hx|by apply Hmine]. }
    assert (i0 <> j0) by (intros ->; by eapply (Hj j0); left).
    split; cbn; rewrite ?T4, ?T4'', ?fn_lookup_insert_ne by done; try done.
    eapply chain_frame; [done| |by rewrite T4'|by rewrite T4, fn_lookup_insert_ne|by rewrite T4'']. intros i Hi. apply T1. by apply Hj.
Qed.

(** ** The interrupt handler *)
Definition with_drv (d : disk) (m : machine) : machine := mkMachine d (dev m) (threads m) (moved m).

Lemma queue_few m A C : owned m -> queues m A C -> Z.of_nat (length (A ++ inflight (dev m) ++ C)) <= NUM.
Proof.
  intros Ho Hq. apply heads_few; [apply Hq|]. intros i Hi. destruct (head_of m A C i Hq Hi) as (x & Hx). by apply (ow_idx _ Ho x).
Qed.

Lemma used_count m A C : owned m -> queues m A C -> u16 (used_ring_idx (drv m) - used_idx (drv m)) = Z.of_nat (length C) /\
  (used_idx (drv m) = used_ring_idx (drv m) <-> C = []).
Proof.
  intros Ho Hq. pose proof (queue_few _ _ _ Ho Hq) as Hfew. destruct Hq as [Q1 Q2 Q3 -> Q5 [_ Q6] Q7 Q8]. rewrite !length_app in Hfew.
  rewrite <- length_zero_iff_nil. unfold u16, NUM in *. split; [zdiv|split; zdiv].
Qed.

(** The handler's work on one used entry. *)
Definition ack (b : nat) (d : disk) : disk := upd_inc_used (upd_wakeup (ch_buf b) (upd_buf b (with_disk 0) d)).

Lemma ack_inv m A h C : owned m -> queues m A (h :: C) ->
  (forall t b w i0 i1 i2, threads m t = TWait b w i0 i1 i2 -> request_ok m (fun x => x ∈ h :: C) b w i0 i1 i2) ->
  exists b, info_status (info (drv m) h) = 0 /\ info_b (info (drv m) h) = Some b /\ owned (with_drv (ack b (drv m)) m) /\ queues (with_drv (ack b (drv m)) m) A C /\
  forall t b' w i0 i1 i2, threads m t = TWait b' w i0 i1 i2 -> request_ok (with_drv (ack b (drv m)) m) (fun x => x ∈ C) b' w i0 i1 i2.
Proof.
  intros Ho Hq Hreq. destruct (proj1 (qu_heads _ _ _ Hq h)) as (t & b & w & i1 & i2 & Ht & Hd); [set_solver|].
  destruct (Hreq _ _ _ _ _ _ Ht) as [R1 R2 R3 R4 R5]. destruct R5 as [Hst Hmv]; [left; by left|].
  exists b. split_and!; [done|apply R1|by destruct Ho| |].
  - destruct Hq as [Q1 Q2 Q3 Q4 Q5 [Q6 Q6'] Q7 Q8].
    assert (Hperm : A ++ inflight (dev m) ++ h :: C ≡ₚ h :: A ++ inflight (dev m) ++ C) by (symmetry; by rewrite !app_assoc, Permutation_middle).
    rewrite Hperm in Q7. apply NoDup_cons in Q7 as [Hnh Hnd]. split; cbn; try done.
    + apply ring_u16. by eapply ring_tail.
    + rewrite Q4. unfold u16. rewrite Zplus_mod_idemp_l. f_equal. cbn [length]. lia.
    + split; [done|]. apply Z.mod_pos_bound. done.
    + intros x. split.
      * intros Hx. destruct (proj1 (Q8 x)) as (t' & b' & w' & j1 & j2 & Ht' & Hd'); [rewrite Hperm; by right|].
        exists t', b', w', j1, j2. split; [done|]. rewrite fn_lookup_insert_ne; [done|]. intros <-.
        assert (t' = t) as -> by (apply (ow_buf _ Ho _ _ b); [by rewrite Ht'|by rewrite Ht]). rewrite Ht in Ht'. by simplify_eq.
      * intros (t' & b' & w' & j1 & j2 & Ht' & Hd'). unfold insert, fn_insert in Hd'. case_decide as Hb; [by subst|].
        assert (Hx : x ∈ A ++ inflight (dev m) ++ h :: C) by (apply Q8; by exists t', b', w', j1, j2). rewrite Hperm in Hx.
        apply elem_of_cons in Hx as [->|]; [|done]. exfalso. assert (t' = t) as -> by (apply (ow_disj _ Ho _ _ h); [rewrite Ht'; by left|rewrite Ht; by left]).
        rewrite Ht in Ht'. by simplify_eq.
  - intros t' b' w' j0 j1 j2 Ht'. destruct (Hreq _ _ _ _ _ _ Ht') as [S1 S2 S3 S4 S5]. split; cbn.
    + eapply chain_frame; [done|done|done|done|]. cbn. unfold insert, fn_insert. case_decide; [by subst|done].
    + unfold insert, fn_insert. case_decide; [by subst|done].
    + unfold insert, fn_insert. case_decide; [by subst|done].
    + unfold insert, fn_insert. case_decide; [by left|done].
    + unfold insert, fn_insert. case_decide as Hb; [subst b'|].
      * intros _. assert (t' = t) as -> by (apply (ow_buf _ Ho _ _ b); [by rewrite Ht'|by rewrite Ht]). rewrite Ht in Ht'. by simplify_eq.
      * intros [HC|Hd0]; apply S5; [left; by right|by right].
Qed.

Lemma intr_wp m : inv m -> wp virtio_disk_intr [] (drv m) (fun _ d' => inv (with_drv d' m)).
Proof.
  intros (Ho & A & C & Hq & Hreq). unfold virtio_disk_intr. wsteps. destruct (used_count m A C Ho Hq) as [-> _]. rewrite Nat2Z.id.
  eapply wpl_call; [apply (wpl_loop_state
    (fun _ d => exists C', owned (with_drv d m) /\ queues (with_drv d m) A C' /\
       forall t b w i0 i1 i2, threads m t = TWait b w i0 i1 i2 -> request_ok (with_drv d m) (fun x => x ∈ C') b w i0 i1 i2)
    (fun _ d => Z.to_nat (u16 (used_ring_idx d - used_idx d))) _ (fun _ d => inv (with_drv d m)))|].
  - intros [] d (C' & Ho' & Hq' & Hreq'). destruct (used_count _ _ _ Ho' Hq') as [Hcnt Hemp]. cbn in Hcnt, Hemp. wsteps. wcase as He.
    { wsteps. split; [done|]. split; [done|]. by exists A, C'. }
    destruct C' as [|h C']; [by destruct He; apply Hemp|]. pose proof (ring_head _ _ _ _ _ (qu_used _ _ _ Hq')) as Hh. cbn in Hh.
    change (@id disk d) with d. rewrite Hh. wsteps.
    destruct (ack_inv (with_drv d m) A h C' Ho' Hq' Hreq') as (b & Hst & Hb & Ho2 & Hq2 & Hreq2). cbn in Hst, Hb.
    wfalse; [|by intros []]. rewrite Hb. unfold set_buf, wakeup, inc_used. wsteps. split; [done|]. split; [by exists C'|].
    destruct (used_count _ _ _ Ho2 Hq2) as [Hcnt2 _]. cbn in Hcnt2. cbn. rewrite Hcnt2, Hcnt. cbn [length]. lia.
  - exists C. by destruct m.
  - destruct (used_count m A C Ho Hq) as [-> _]. rewrite Nat2Z.id. lia.
  - intros ? d Hd. wsteps. done.
Qed.

(** ** The device *)
Lemma fetch_inv m d' v' : inv m -> fetch (drv m) (dev m) = Some (d', v') -> forall mv, (forall x, moved m x -> mv x) -> inv (mkMachine d' v' (threads m) mv).
Proof.
  intros (Ho & A & C & Hq & Hreq) Hf mv Hmv. unfold fetch in Hf. case_decide as He; [done|].
  pose proof (queue_few _ _ _ Ho Hq) as Hfew. destruct Hq as [Q1 Q2 Q3 Q4 Q5 [Q6 Q6'] Q7 Q8]. destruct A as [|h A].
  { destruct He. rewrite Q2. cbn. rewrite Z.add_0_r. symmetry. by apply Z.mod_small. }
  rewrite (ring_head _ _ _ _ _ Q1) in Hf. cbn in Hf. simplify_eq.
  assert (Hperm : A ++ (inflight (dev m) ++ [h]) ++ C ≡ₚ (h :: A) ++ inflight (dev m) ++ C) by solve_Permutation.
  split; [by destruct Ho|]. exists A, C. split.
  - split; cbn; try done.
    + apply ring_u16. by eapply ring_tail.
    + rewrite Q2. unfold u16. rewrite Zplus_mod_idemp_l. f_equal. cbn [length]. lia.
    + split; [by apply Z.mod_pos_bound|done].
    + by rewrite Hperm.
    + intros x. by rewrite Hperm.
  - intros t b w i0 i1 i2 Ht. destruct (Hreq _ _ _ _ _ _ Ht) as [R1 R2 R3 R4 R5]. split; try done. intros Hd. destruct (R5 Hd). split; [done|]. by apply Hmv.
Qed.

Lemma filter_ne_perm (l : list Z) h : NoDup l -> h ∈ l -> l ≡ₚ h :: filter (fun x => x <> h) l.
Proof.
  intros Hnd Hh. apply NoDup_Permutation; [done|apply NoDup_cons; split; [rewrite list_elem_of_filter; naive_solver|by apply NoDup_filter]|].
  intros x. rewrite elem_of_cons, list_elem_of_filter. destruct (decide (x = h)); naive_solver.
Qed.

(** What the transfer of the chain of a request is. *)
Lemma transfer_chain d v b w h i1 i2 : chain_ok d b w h i1 i2 -> 0 <= b_blockno (bufs d b) * (BSIZE / 512) < 2 ^ 32 ->
  length (b_data (bufs d b)) = Z.to_nat BSIZE ->
  chain_buf d h = Some b /\
  transfer h d v = Some (
    mkDisk (desc d) (avail_idx d) (avail_ring d) (u16 (used_ring_idx d + 1)) (<[Z.to_nat (used_ring_idx d mod NUM) := h]> (used_ring d)) (free d) (used_idx d)
      (<[h := with_status 0 (info d h)]> (info d)) (ops d)
      (if w then bufs d else <[b := with_data (block (storage v) (b_blockno (bufs d b))) (bufs d b)]> (bufs d)) (wakeups d),
    mkDevice (seen v) (filter (fun x => x <> h) (inflight v))
      (if w then store_bytes (storage v) (b_blockno (bufs d b) * BSIZE) (b_data (bufs d b)) else storage v)).
Proof.
  intros [C0 C1 C2 Cop Ci] Hr Hlen. unfold chain_buf, transfer. rewrite C0. cbn [d_next d_addr]. rewrite C1. cbn [d_next d_addr d_len]. rewrite C2. cbn [d_addr].
  split; [done|]. rewrite Cop. cbn [rq_type rq_sector]. rewrite u32_small by done.
  assert (Hbase : b_blockno (bufs d b) * (BSIZE / 512) * SECTOR = b_blockno (bufs d b) * BSIZE) by (change (BSIZE / 512) with 2; unfold SECTOR, BSIZE; lia).
  rewrite Hbase. destruct w; cbn [bool_decide]; [rewrite bool_decide_true by done|rewrite bool_decide_false by done]; [|done].
  by rewrite take_ge by lia.
Qed.

Lemma transfer_inv m h d' v' mv : inv m -> h ∈ inflight (dev m) -> transfer h (drv m) (dev m) = Some (d', v') ->
  (forall x, moved m x \/ chain_buf (drv m) h = Some x -> mv x) -> inv (mkMachine d' v' (threads m) mv).
Proof.
  intros (Ho & A & C & Hq & Hreq) Hh Htr Hmv. pose proof (queue_few _ _ _ Ho Hq) as Hfew.
  destruct Hq as [Q1 Q2 Q3 Q4 [Q5 Q5'] [Q6 Q6'] Q7 Q8].
  destruct (proj1 (Q8 h)) as (t & b & w & i1 & i2 & Ht & Hd); [set_solver|].
  destruct (Hreq _ _ _ _ _ _ Ht) as [R1 R2 R3 R4 R5]. destruct (transfer_chain _ (dev m) _ _ _ _ _ R1 R3 R2) as [Hcb Htr'].
  rewrite Htr' in Htr. injection Htr as <- <-.
  set (bufs' := if w then bufs (drv m) else <[b := with_data (block (storage (dev m)) (b_blockno (bufs (drv m) b))) (bufs (drv m) b)]> (bufs (drv m))).
  assert (Hb' : forall x, b_disk (bufs' x) = b_disk (bufs (drv m) x) /\ b_blockno (bufs' x) = b_blockno (bufs (drv m) x) /\
    (length (b_data (bufs (drv m) x)) = Z.to_nat BSIZE -> length (b_data (bufs' x)) = Z.to_nat BSIZE)).
  { intros x. unfold bufs'. destruct w; [done|]. unfold insert, fn_insert. case_decide; [subst|done]. split_and!; [done|done|]. intros _. cbn [with_data b_data]. unfold block. by rewrite length_fmap, length_seqZ. }
  assert (Hnd : NoDup (inflight (dev m))) by (apply NoDup_app in Q7 as (_ & _ & Q7); by apply NoDup_app in Q7 as (? & _)).
  assert (Hperm : A ++ filter (fun x => x <> h) (inflight (dev m)) ++ C ++ [h] ≡ₚ A ++ inflight (dev m) ++ C).
  { rewrite (filter_ne_perm _ _ Hnd Hh) at 2. solve_Permutation. }
  split; [by destruct Ho|]. exists A, (C ++ [h]). split.
  - split; cbn; try done.
    + rewrite Q4, u16_mod_NUM. apply ring_push; [apply _|done| |done].
      rewrite !length_app in Hfew. assert (inflight (dev m) <> []) by (intros E; rewrite E in Hh; by apply elem_of_nil in Hh). destruct (inflight (dev m)); [done|]. cbn in Hfew. lia.
    + rewrite Q4, length_app. cbn. unfold u16. rewrite Zplus_mod_idemp_l. f_equal. lia.
    + by rewrite length_insert.
    + by rewrite Hperm.
    + intros x. rewrite Hperm, Q8. by setoid_rewrite (proj1 (Hb' _)).
  - intros t' b' w' j0 j1 j2 Ht'. cbn [threads] in Ht'. destruct (Hreq _ _ _ _ _ _ Ht') as [S1 S2 S3 S4 S5]. destruct (Hb' b') as (B1 & B2 & B3).
    assert (Hinfo : info_b ((<[h := with_status 0 (info (drv m) h)]> (info (drv m))) j0) = info_b (info (drv m) j0)) by (unfold insert, fn_insert; case_decide; by subst).
    split; cbn; fold bufs'; rewrite ?B1, ?B2; try done; [by eapply chain_frame|by apply B3|].
    intros Hdone. destruct (decide (j0 = h)) as [->|Hne].
    + rewrite fn_lookup_insert. split; [done|]. apply Hmv. right. assert (t' = t) as -> by (apply (ow_disj _ Ho _ _ h); [rewrite Ht'; by left|rewrite Ht; by left]).
      rewrite Ht in Ht'. by simplify_eq.
    + rewrite fn_lookup_insert_ne by done. destruct S5 as [? ?]; [|split; [done|apply Hmv; by left]]. destruct Hdone as [Hx|]; [|by right]. left. set_solver.
Qed.

Lemma client_inv b l n m : inv m -> (forall t, ~ uses (threads m t) b) ->
  inv (with_drv (upd_buf b (fun x => mkBuf (b_disk x) n l) (drv m)) m).
Proof.
  intros (Ho & A & C & Hq & Hreq) Hno.
  assert (Hb : forall t b' w i0 i1 i2, threads m t = TWait b' w i0 i1 i2 -> (<[b := mkBuf (b_disk (bufs (drv m) b)) n l]> (bufs (drv m))) b' = bufs (drv m) b').
  { intros t b' w i0 i1 i2 Ht. rewrite fn_lookup_insert_ne; [done|]. intros <-. by apply (Hno t); rewrite Ht. }
  split; [by destruct Ho|]. exists A, C. split.
  - destruct Hq as [Q1 Q2 Q3 Q4 Q5 Q6 Q7 Q8]. split; cbn; try done. intros h. rewrite Q8.
    split; intros (t & b' & w & i1 & i2 & Ht & Hd); exists t, b', w, i1, i2; (split; [done|]); erewrite Hb in *; done.
  - intros t b' w i0 i1 i2 Ht. destruct (Hreq _ _ _ _ _ _ Ht) as [R1 R2 R3 R4 R5]. pose proof (Hb _ _ _ _ _ _ Ht) as Hbb.
    split; cbn; rewrite ?Hbb; try done. eapply chain_frame; [done|done|done|done|]. cbn. by rewrite Hbb.
Qed.

(** * Every interleaving *)

(** What the specification of virtio promises: with well-formed chains the device,
    as long as it has no I/O error to report, fetches the next chain or makes the
    transfer of a chain it has fetched. *)
Hypothesis device_virtio : forall d v d' v', dstep (d, v) (d', v') -> (forall h, h ∈ inflight v -> well_formed d h) ->
  fetch d v = Some (d', v') \/ exists h, h ∈ inflight v /\ transfer h d v = Some (d', v').

Lemma inflight_well_formed m h : inv m -> h ∈ inflight (dev m) -> well_formed (drv m) h.
Proof.
  intros (Ho & A & C & Hq & Hreq) Hh. destruct (proj1 (qu_heads _ _ _ Hq h)) as (t & b & w & i1 & i2 & Ht & _); [set_solver|].
  exists b, w, i1, i2. apply (Hreq _ _ _ _ _ _ Ht).
Qed.

Lemma wp_Ok {A} (m : M disk A) L s a L' s' (Q : A -> disk -> Prop) : wp m L s Q -> m L s = Ok a L' s' -> Q a s'.
Proof. intros Hw E. unfold wp, wpl in Hw. rewrite E in Hw. apply Hw. Qed.

Lemma disk_step_inv m m' : inv m -> step m m' -> inv m'.
Proof using All.
  intros Hi Hs. revert Hi. destruct Hs as [t b w r d' m Ht Hlen Hblk E|t b w i0 i1 i2 r d' m Ht E|d' m E|d' v' m E|b l n m Hno]; intros Hi.
  - pose proof (wp_Ok _ _ _ _ _ _ _ (rw_start_wp b w [] (drv m) (not_elem_of_nil _)) E) as Hr. cbn in Hr. destruct r as [[[i0 i1] i2]|].
    + destruct Hr as (s1 & T & Hnd & Hin & Hf & Hsub). eapply submit_inv; [done..|]. naive_solver.
    + destruct Hr as [T Hf]. eapply blocked_inv; [done..|]. naive_solver.
  - pose proof (wp_Ok _ _ _ _ _ _ _ (rw_wait_wp t b w i0 i1 i2 m Hi Ht) E) as Hr. cbn in Hr. destruct r.
    + destruct Hr as (Hd & _ & T & Hf). by eapply finish_inv.
    + subst d'. by destruct m.
  - apply (wp_Ok _ _ _ _ _ _ _ (intr_wp m Hi) E).
  - destruct (device_virtio _ _ _ _ E) as [Hf|(h & Hh & Htr)].
    + intros h Hh. by apply inflight_well_formed.
    + eapply fetch_inv; [done..|]. naive_solver.
    + eapply transfer_inv; [done..|]. intros x [Hx|Hx]; [by left|]. right. by exists h.
  - by apply client_inv.
Qed.

Lemma disk_init_inv m : init m -> inv m.
Proof.
  intros (Ht & Hf & Ha & Hu & Hur & Hse & Hin & Hla & Hlu). split.
  - split.
    + intros t. rewrite Ht. split; [apply NoDup_nil_2|]. intros i []%elem_of_nil.
    + intros i Hi. rewrite (Hf i Hi). split; [|done]. intros _ t. rewrite Ht. apply not_elem_of_nil.
    + intros t t' i. rewrite Ht. by intros []%elem_of_nil.
    + intros t t' b. by rewrite Ht.
  - exists [], []. split; [|intros t b w i0 i1 i2; by rewrite Ht]. split; rewrite ?Ha, ?Hu, ?Hur, ?Hse, ?Hin; try done.
    + apply NoDup_nil_2.
    + intros h. split; [by intros []%elem_of_nil|]. intros (t & b & w & i1 & i2 & E & _). by rewrite Ht in E.
Qed.

Lemma disk_reachable_inv m0 m : init m0 -> rtc step m0 m -> inv m.
Proof using All. intros H0%disk_init_inv Hr. induction Hr as [|m m1 m2 Hs _ IH]; [done|]. by apply IH, (disk_step_inv m). Qed.

(** C8. The virtio driver serves concurrent requests correctly: in every state that
    processes reading and writing buffers, the interrupt handler and a device that
    follows the virtio specification and fails no request can reach, no operation of the driver panics
    or goes wrong; a call of virtio_disk_rw returns only after the transfer of its
    request; and every transfer the device makes is for a waiting process, and is
    exactly the read or the write of that process's block, the buffer then holding
    the bytes of the block or the block those of the buffer, with no other buffer
    touched. *)
Theorem virtio_requests_correct m0 m : init m0 -> rtc step m0 m ->
  (forall b w, exists r d', virtio_disk_rw_start b w [] (drv m) = Ok r [] d') /\
  (exists d', virtio_disk_intr [] (drv m) = Ok tt [] d') /\
  (forall t b w i0 i1 i2, threads m t = TWait b w i0 i1 i2 ->
     exists r d', virtio_disk_rw_wait b i0 [] (drv m) = Ok r [] d' /\ (r = true -> moved m b)) /\
  (forall h, h ∈ inflight (dev m) -> exists t b w i1 i2 d' v', threads m t = TWait b w h i1 i2 /\ transfer h (drv m) (dev m) = Some (d', v') /\
     (forall x, x <> b -> bufs d' x = bufs (drv m) x) /\ b_blockno (bufs d' b) = b_blockno (bufs (drv m) b) /\
     if w : bool then bufs d' b = bufs (drv m) b /\ storage v' = store_bytes (storage (dev m)) (b_blockno (bufs d' b) * BSIZE) (b_data (bufs d' b))
     else storage v' = storage (dev m) /\ b_data (bufs d' b) = block (storage (dev m)) (b_blockno (bufs d' b))).
Proof using All.
  intros H0 Hr. pose proof (disk_reachable_inv _ _ H0 Hr) as Hi. split_and!.
  - intros b w. destruct (wp_exists _ _ _ _ (rw_start_wp b w [] (drv m) (not_elem_of_nil _))) as (r & d' & E & _). by exists r, d'.
  - destruct (wp_exists _ _ _ _ (intr_wp m Hi)) as ([] & d' & E & _). by exists d'.
  - intros t b w i0 i1 i2 Ht. destruct (wp_exists _ _ _ _ (rw_wait_wp t b w i0 i1 i2 m Hi Ht)) as (r & d' & E & Hr').
    exists r, d'. split; [done|]. intros ->. apply Hr'.
  - intros h Hh. destruct Hi as (Ho & A & C & Hq & Hreq). destruct (proj1 (qu_heads _ _ _ Hq h)) as (t & b & w & i1 & i2 & Ht & _); [set_solver|].
    destruct (Hreq _ _ _ _ _ _ Ht) as [R1 R2 R3 R4 R5]. destruct (transfer_chain _ (dev m) _ _ _ _ _ R1 R3 R2) as [_ ->].
    exists t, b, w, i1, i2. eexists _, _. split; [done|]. split; [done|]. destruct w; cbn; [done|]. rewrite fn_lookup_insert. split_and!; try done.
    intros x Hx. by rewrite fn_lookup_insert_ne.
Qed.
End System.

(** What is stored is what is read back. *)
Lemma block_store st n l : length l = Z.to_nat BSIZE -> block (store_bytes st (n * BSIZE) l) n = l.
Proof.
  intros Hl. apply list_eq. intros k. unfold block, store_bytes. rewrite list_lookup_fmap. destruct (decide (k < length l)%nat) as [Hk|Hk].
  - rewrite lookup_seqZ_lt by (unfold BSIZE in *; lia). cbn [fmap option_fmap option_map]. replace (Z.to_nat (n * BSIZE + (0 + Z.of_nat k) - n * BSIZE)) with k by lia.
    destruct (lookup_lt_is_Some_2 l k Hk) as [x ->]. by rewrite decide_True by lia.
  - rewrite lookup_seqZ_ge by (unfold BSIZE in *; lia). by rewrite lookup_ge_None_2 by lia.
Qed.

(** * A device and a run *)
Definition sample_device (x y : disk * device) : Prop :=
  fetch x.1 x.2 = Some y \/ exists h, h ∈ inflight x.2 /\ transfer h x.1 x.2 = Some y.

Definition fresh_buf : buf := mkBuf 0 5 (replicate 1024 7).
Definition boot_disk : disk :=
  mkDisk (fun _ => zero_desc) 0 (replicate 8 0) 0 (replicate 8 0) (fun _ => true) 0 (fun _ => mkInfo None 0) (fun _ => mkReq 0 0 0) (fun _ => fresh_buf) [].
Definition boot : machine := mkMachine boot_disk (mkDevice 0 [] (fun _ => 0)) (fun _ => TIdle) (fun _ => False).

(** Process 3 has asked for buffer 2 to be written, and the device has fetched the
    request. *)
Definition asked : machine :=
  match virtio_disk_rw_start 2 true [] boot_disk with
  | Ok r _ d => mkMachine d (dev boot) (<[3%nat := match r with Some (i0, i1, i2) => TWait 2 true i0 i1 i2 | None => TBlocked 2 true end]> (threads boot)) (fun x => moved boot x /\ x <> 2%nat)
  | _ => boot
  end.
Definition fetched : machine :=
  match fetch (drv asked) (dev asked) with
  | Some (d, v) => mkMachine d v (threads asked) (fun x => moved asked x \/ exists h, transfer h (drv asked) (dev asked) = Some (d, v) /\ h ∈ inflight (dev asked) /\ chain_buf (drv asked) h = Some x)
  | None => asked
  end.

Lemma fetched_step : step sample_device asked fetched.
Proof.
  assert (bool_decide (is_Some (fetch (drv asked) (dev asked))) = true) as H%bool_decide_eq_true by by vm_compute.
  unfold fetched. destruct H as [[d v] E]. rewrite E. apply step_device. by left.
Qed.

Lemma virtio_requests_correct_witness :
  threads fetched 3 = TWait 2 true 0 1 2 /\ inflight (dev fetched) = [0] /\
  exists r d', virtio_disk_rw_wait 2 0 [] (drv fetched) = Ok r [] d' /\ (r = true -> moved fetched 2).
Proof.
  split; [by vm_compute|]. split; [by vm_compute|].
  assert (Hd : forall d v d' v', sample_device (d, v) (d', v') -> (forall h, h ∈ inflight v -> well_formed d h) ->
    fetch d v = Some (d', v') \/ exists h, h ∈ inflight v /\ transfer h d v = Some (d', v')) by done.
  destruct (virtio_requests_correct sample_device Hd boot fetched) as (_ & _ & Hw & _).
  - split_and!; done.
  - eapply rtc_l; [apply (step_start _ 3 2 true (Some (0, 1, 2)) (drv asked)); [left; split; [done|by intros ? []]|done|done|by vm_compute]|].
    apply rtc_once, fetched_step.
  - apply (Hw 3%nat 2%nat true 0 1 2). by vm_compute.
Defined.
