(* ===== verification/Bio.v ===== *)
(** The buffer cache, kernel/bio.c: buffers in a doubly-linked ring ordered by
    use, reference counts and sleep locks; and that it implements the interface
    [BufCache] of Block.  The disk behind virtio_disk_rw is a map from block
    numbers to blocks, with the writes it has done in order. *)
From stdpp Require Import functions.
From S2P Require Import Prelude UserIface Block Sleeplock.
Local Open Scope Z_scope.

(** * Data *)
Record buf := mkBuf {
  b_valid : Z;
  b_dev : Z;
  b_blockno : Z;
  b_lock : sleeplock;
  b_refcnt : Z;
  b_prev : nat;
  b_next : nat;
  b_data : block
}.

(** The buffers [0 .. NBUF-1], then the head of the ring. *)
Definition HEAD : nat := NBUF.

Record bcache := mkBcache {
  bufs : list buf;
  vdisk : gmap Z block;
  vwrites : list (Z * block);
  cur_pid : Z
}.

Definition zero_buf : buf := mkBuf 0 0 0 (mkSleep 0 "" 0) 0 0 0 zero_block.

(** ** Field updates *)
Definition with_valid (v : Z) (b : buf) : buf :=
  mkBuf v (b_dev b) (b_blockno b) (b_lock b) (b_refcnt b) (b_prev b) (b_next b) (b_data b).
Definition with_key (dev blockno : Z) (b : buf) : buf :=
  mkBuf 0 dev blockno (b_lock b) 1 (b_prev b) (b_next b) (b_data b).
Definition with_lock (l : sleeplock) (b : buf) : buf :=
  mkBuf (b_valid b) (b_dev b) (b_blockno b) l (b_refcnt b) (b_prev b) (b_next b) (b_data b).
Definition with_refcnt (n : Z) (b : buf) : buf :=
  mkBuf (b_valid b) (b_dev b) (b_blockno b) (b_lock b) n (b_prev b) (b_next b) (b_data b).
Definition with_prev (p : nat) (b : buf) : buf :=
  mkBuf (b_valid b) (b_dev b) (b_blockno b) (b_lock b) (b_refcnt b) p (b_next b) (b_data b).
Definition with_next (n : nat) (b : buf) : buf :=
  mkBuf (b_valid b) (b_dev b) (b_blockno b) (b_lock b) (b_refcnt b) (b_prev b) n (b_data b).
Definition with_data (d : block) (b : buf) : buf :=
  mkBuf (b_valid b) (b_dev b) (b_blockno b) (b_lock b) (b_refcnt b) (b_prev b) (b_next b) d.

Definition buf_at (i : nat) (s : bcache) : buf := nth i (bufs s) zero_buf.
Definition on_buf (i : nat) (f : buf -> buf) (s : bcache) : bcache :=
  mkBcache (alter f i (bufs s)) (vdisk s) (vwrites s) (cur_pid s).
Definition set_buf (i : nat) (f : buf -> buf) : M bcache unit := modify (on_buf i f).

(** * The operations *)

(** The block on the disk. *)
Definition disk_block (d : gmap Z block) (b : Z) : block := default zero_block (d !! b).

(** The effect of virtio_disk_rw on the buffer and on the disk, once the device
    has answered. *)
Definition virtio_disk_rw (i : nat) (write : bool) : M bcache unit :=
  b ← gets (buf_at i);
  if write then
    modify (fun s => mkBcache (bufs s) (<[b_blockno b := b_data b]> (vdisk s))
                       (vwrites s ++ [(b_blockno b, b_data b)]) (cur_pid s))
  else
    s ← gets (fun s => s);
    set_buf i (with_data (disk_block (vdisk s) (b_blockno b))).

(** Insert a buffer after the head. *)
Definition ring_insert (i : nat) : M bcache unit :=
  h ← gets (buf_at HEAD);
  set_buf i (with_next (b_next h));;
  set_buf i (with_prev HEAD);;
  h ← gets (buf_at HEAD);
  set_buf (b_next h) (with_prev i);;
  set_buf HEAD (with_next i).

(** Take a buffer out of the ring. *)
Definition ring_remove (i : nat) : M bcache unit :=
  b ← gets (buf_at i);
  set_buf (b_next b) (with_prev (b_prev b));;
  b ← gets (buf_at i);
  set_buf (b_prev b) (with_next (b_next b)).

(** The body of the loop of binit: as ring_insert, with initsleeplock in the
    middle. *)
Definition binit_body (i : nat) : M bcache (nat + unit) :=
  if decide (i < NBUF)%nat then
    h ← gets (buf_at HEAD);
    set_buf i (with_next (b_next h));;
    set_buf i (with_prev HEAD);;
    set_buf i (with_lock (initsleeplock "buffer"));;
    h ← gets (buf_at HEAD);
    set_buf (b_next h) (with_prev i);;
    set_buf HEAD (with_next i);;
    mret (inl (S i))
  else mret (inr tt).

Definition binit : M bcache unit :=
  set_buf HEAD (with_prev HEAD);;
  set_buf HEAD (with_next HEAD);;
  loop (S NBUF) binit_body 0%nat.

(** The sleep lock of buffer [i]. *)
Definition lock_of (i : nat) (s : bcache) : sleeplock := b_lock (buf_at i s).
Definition set_lock_of (i : nat) (l : sleeplock) : bcache -> bcache := on_buf i (with_lock l).
Definition buf_acquiresleep (i : nat) : M bcache unit :=
  acquiresleep (buf_lock i) (lock_of i) (set_lock_of i) cur_pid.
Definition buf_releasesleep (i : nat) : M bcache unit :=
  releasesleep (buf_lock i) (lock_of i) (set_lock_of i).
Definition buf_holdingsleep (i : nat) : M bcache bool :=
  holdingsleep (buf_lock i) (lock_of i) cur_pid.

(** The two scans of bget, along [step] from the buffer [i]. *)
Definition scan_body (test : buf -> bool) (step : buf -> nat) (i : nat) : M bcache (nat + option nat) :=
  if decide (i = HEAD) then mret (inr None)
  else
    b ← gets (buf_at i);
    if test b then mret (inr (Some i)) else mret (inl (step b)).
Definition scan (test : buf -> bool) (step : buf -> nat) : M bcache (option nat) :=
  h ← gets (buf_at HEAD);
  loop (S NBUF) (scan_body test step) (step h).

Definition bget (dev blockno : Z) : M bcache nat :=
  acquire bcache_lock;;
  c ← scan (fun b => (b_dev b =? dev) && (b_blockno b =? blockno)) b_next;
  match c with
  | Some i =>
      b ← gets (buf_at i);
      set_buf i (with_refcnt (u32 (b_refcnt b + 1)));;
      release bcache_lock;;
      buf_acquiresleep i;;
      mret i
  | None =>
      f ← scan (fun b => b_refcnt b =? 0) b_prev;
      match f with
      | Some i =>
          set_buf i (with_key dev blockno);;
          release bcache_lock;;
          buf_acquiresleep i;;
          mret i
      | None => panic "bget: no buffers"
      end
  end.

Definition bread (dev blockno : Z) : M bcache nat :=
  i ← bget dev blockno;
  b ← gets (buf_at i);
  if decide (b_valid b = 0) then
    virtio_disk_rw i false;;
    set_buf i (with_valid 1);;
    mret i
  else mret i.

Definition bwrite (i : nat) : M bcache unit :=
  h ← buf_holdingsleep i;
  if (h : bool) then virtio_disk_rw i true else panic "bwrite".

Definition brelse (i : nat) : M bcache unit :=
  h ← buf_holdingsleep i;
  if (h : bool) then
    buf_releasesleep i;;
    acquire bcache_lock;;
    b ← gets (buf_at i);
    set_buf i (with_refcnt (u32 (b_refcnt b - 1)));;
    b ← gets (buf_at i);
    (if decide (b_refcnt b = 0) then ring_remove i;; ring_insert i else mret tt);;
    release bcache_lock
  else panic "brelse".

Definition bpin (i : nat) : M bcache unit :=
  acquire bcache_lock;;
  b ← gets (buf_at i);
  set_buf i (with_refcnt (u32 (b_refcnt b + 1)));;
  release bcache_lock.

Definition bunpin (i : nat) : M bcache unit :=
  acquire bcache_lock;;
  b ← gets (buf_at i);
  set_buf i (with_refcnt (u32 (b_refcnt b - 1)));;
  release bcache_lock.

(** Direct access to the fields of a locked buffer. *)
Definition buf_blockno (i : nat) : M bcache Z := b ← gets (buf_at i); mret (b_blockno b).
Definition buf_load (i : nat) : M bcache block := b ← gets (buf_at i); mret (b_data b).
Definition buf_store (i : nat) (d : block) : M bcache unit := set_buf i (with_data d).

(** * The ring *)

(** Neighbours in [l] are linked both ways. *)
Fixpoint adj (nx pv : nat -> nat) (l : list nat) : Prop :=
  match l with
  | a :: (b :: _) as l' => nx a = b /\ pv b = a /\ adj nx pv l'
  | _ => True
  end.

Lemma adj_app nx pv l a l' :
  adj nx pv (l ++ a :: l') <-> adj nx pv (l ++ [a]) /\ adj nx pv (a :: l').
Proof.
  induction l as [|x l IH]; simpl; [naive_solver|].
  destruct l as [|y l]; simpl in *; [naive_solver|]. rewrite IH. naive_solver.
Qed.

Lemma adj_ext nx pv nx' pv' l :
  adj nx pv l -> (forall a, a ∈ removelast l -> nx' a = nx a) ->
  (forall b, b ∈ tail l -> pv' b = pv b) -> adj nx' pv' l.
Proof.
  induction l as [|x l IH]; [done|]. destruct l as [|y l]; [done|].
  intros (Hn & Hp & Ha) Hnx Hpv. split_and!.
  - rewrite Hnx; [done|]. by left.
  - rewrite Hpv; [done|]. by left.
  - apply IH; [done| |].
    + intros a Hin. apply Hnx. by right.
    + intros b Hin. apply Hpv. by right.
Qed.

(** Links after removing [b], and after inserting it behind the head. *)
Definition remove_nx (nx pv : nat -> nat) (b : nat) : nat -> nat := <[pv b := nx b]> nx.
Definition remove_pv (nx pv : nat -> nat) (b : nat) : nat -> nat := <[nx b := pv b]> pv.
Definition insert_nx (h : nat) (nx : nat -> nat) (b : nat) : nat -> nat := <[h := b]> (<[b := nx h]> nx).
Definition insert_pv (h : nat) (nx pv : nat -> nat) (b : nat) : nat -> nat :=
  <[nx h := b]> (<[b := h]> pv).

(** The ring through [h] and then [l]. *)
Definition ring (nx pv : nat -> nat) (h : nat) (l : list nat) : Prop :=
  NoDup (h :: l) /\ adj nx pv (h :: l ++ [h]).

Lemma fn_ne {A} (f : nat -> A) i j (v : A) : i <> j -> (<[i := v]> f) j = f j.
Proof. intros. by apply fn_lookup_insert_ne. Qed.

Lemma ring_removed nx pv h l1 b l2 :
  ring nx pv h (l1 ++ b :: l2) -> ring (remove_nx nx pv b) (remove_pv nx pv b) h (l1 ++ l2).
Proof.
  intros [Hnd Ha].
  assert (Hnd' : NoDup (h :: l1 ++ l2) /\ (b ∉ h :: l1 ++ l2)).
  { assert (Hperm : h :: l1 ++ b :: l2 ≡ₚ b :: h :: l1 ++ l2) by solve_Permutation.
    rewrite Hperm in Hnd. by apply NoDup_cons in Hnd as [? ?]. }
  clear Hnd. destruct Hnd' as [Hnd Hb]. split; [done|].
  destruct (exists_last (l := h :: l1)) as (u & p & Hu); [done|].
  destruct (l2 ++ [h]) as [|n v] eqn:Hv; [by destruct l2|].
  replace (h :: (l1 ++ b :: l2) ++ [h]) with (u ++ p :: b :: n :: v) in Ha; last first.
  { rewrite <- app_assoc. simpl. by rewrite app_comm_cons, Hu, <- app_assoc, Hv. }
  replace (h :: (l1 ++ l2) ++ [h]) with (u ++ p :: n :: v); last first.
  { by rewrite <- app_assoc, app_comm_cons, Hu, Hv, <- app_assoc. }
  apply adj_app in Ha as [Hau (Hpb & Hbp & Hbn & Hnb & Hnv)].
  unfold remove_nx, remove_pv. rewrite Hbp, Hbn.
  assert (Hpin : p ∈ h :: l1) by (rewrite Hu; apply elem_of_app; right; by left).
  change (h :: l1 ++ l2) with ((h :: l1) ++ l2) in Hnd. apply NoDup_app in Hnd as (Hnd1 & Hd & Hnd2).
  assert (Hnin : n ∉ l1).
  { destruct l2 as [|n' l2]; simpl in Hv; injection Hv as -> _.
    - by apply NoDup_cons in Hnd1 as [? _].
    - intros ?. apply (Hd n); [by right|by left]. }
  apply adj_app. split.
  - apply (adj_ext nx pv); [done| |].
    + intros a Hin. rewrite removelast_last in Hin. apply fn_ne. intros <-.
      rewrite Hu in Hnd1. apply NoDup_app in Hnd1 as (_ & Hx & _). apply (Hx p); [done|by left].
    + intros x Hin. rewrite <- Hu in Hin. apply fn_ne. by intros <-.
  - split_and!; [apply fn_lookup_insert..|]. apply (adj_ext nx pv); [done| |].
    + intros a Hin. rewrite <- Hv, removelast_last in Hin. apply fn_ne. intros <-. by apply (Hd p).
    + intros x Hin. simpl in Hin. apply fn_ne. intros <-.
      destruct l2 as [|n' l2]; simpl in Hv; injection Hv as -> <-; [by apply elem_of_nil in Hin|].
      apply elem_of_app in Hin as [Hin| ->%list_elem_of_singleton].
      * apply NoDup_cons in Hnd2 as [? _]. done.
      * apply (Hd h); by left.
Qed.

Lemma ring_inserted nx pv h b l :
  ring nx pv h l -> b ∉ h :: l -> ring (insert_nx h nx b) (insert_pv h nx pv b) h (b :: l).
Proof.
  intros [Hnd Ha] Hb. apply not_elem_of_cons in Hb as [Hbh Hb].
  apply NoDup_cons in Hnd as [Hh Hnd]. split.
  { repeat constructor; try done. apply not_elem_of_cons. by split. }
  simpl. destruct (l ++ [h]) as [|f v] eqn:Hv; [by destruct l|].
  destruct Ha as (Hhf & Hfh & Ha). unfold insert_nx, insert_pv. rewrite Hhf.
  assert (Hbf : b <> f).
  { intros ->. assert (f ∈ l ++ [h]) as Hin by (rewrite Hv; by left).
    apply elem_of_app in Hin as [?| ->%list_elem_of_singleton]; done. }
  split_and!.
  - apply fn_lookup_insert.
  - rewrite fn_ne by done. apply fn_lookup_insert.
  - rewrite fn_ne by done. apply fn_lookup_insert.
  - apply fn_lookup_insert.
  - apply (adj_ext nx pv); [done| |].
    + intros a Hin. rewrite <- Hv, removelast_last in Hin.
      rewrite !fn_ne; [done|by intros <-|by intros <-].
    + intros x Hin. simpl in Hin.
      assert (Hx : x ∈ l ++ [h]) by (rewrite Hv; by right).
      rewrite !fn_ne; [done| |].
      * intros <-. apply elem_of_app in Hx as [?| ->%list_elem_of_singleton]; done.
      * intros <-. destruct l as [|f' l]; simpl in Hv; injection Hv as -> <-; [by apply elem_of_nil in Hin|].
        apply NoDup_cons in Hnd as [Hf _].
        apply elem_of_app in Hin as [?| ->%list_elem_of_singleton]; [done|]. apply Hh. by left.
Qed.

Lemma adj_rev nx pv l : adj nx pv l -> adj pv nx (rev l).
Proof.
  induction l as [|x l IH]; [done|]. destruct l as [|y l]; [done|]. intros (Hn & Hp & Ha).
  specialize (IH Ha). simpl in *. rewrite <- app_assoc. simpl. apply adj_app. split; [done|]. by split_and!.
Qed.

Lemma ring_rev nx pv h l : ring nx pv h l -> ring pv nx h (rev l).
Proof.
  intros [Hnd Ha]. split.
  - apply NoDup_cons in Hnd as [Hh Hnd]. apply NoDup_cons. by rewrite <- Permutation_rev.
  - apply adj_rev in Ha. simpl in Ha. rewrite rev_app_distr in Ha. exact Ha.
Qed.

(** ** Buffers and links of a state *)
Definition nx (s : bcache) (i : nat) : nat := b_next (buf_at i s).
Definition pv (s : bcache) (i : nat) : nat := b_prev (buf_at i s).

Lemma buf_at_on_buf i j f s :
  (j < length (bufs s))%nat ->
  buf_at i (on_buf j f s) = if decide (i = j) then f (buf_at j s) else buf_at i s.
Proof.
  intros Hj. unfold buf_at, on_buf. simpl. rewrite !nth_lookup. case_decide as Hij.
  - subst i. rewrite list_lookup_alter_eq. apply lookup_lt_is_Some in Hj as [b ->]. done.
  - by rewrite list_lookup_alter_ne.
Qed.

Lemma length_on_buf i f s : length (bufs (on_buf i f s)) = length (bufs s).
Proof. apply length_alter. Qed.

(** Everything but the links. *)
Definition strip (b : buf) : buf := with_prev 0 (with_next 0 b).

Record links_only (s s' : bcache) : Prop := {
  lo_strip : forall i, strip (buf_at i s') = strip (buf_at i s);
  lo_len : length (bufs s') = length (bufs s);
  lo_disk : vdisk s' = vdisk s;
  lo_writes : vwrites s' = vwrites s;
  lo_pid : cur_pid s' = cur_pid s
}.

Lemma links_only_refl s : links_only s s.
Proof. done. Qed.

Lemma links_only_step s s' i f :
  links_only s s' -> (i < length (bufs s))%nat -> (forall b, strip (f b) = strip b) ->
  links_only s (on_buf i f s').
Proof.
  intros [H1 H2 H3 H4 H5] Hi Hf. split; try done; [|by rewrite length_on_buf].
  intros j. rewrite buf_at_on_buf by lia. case_decide; [subst; by rewrite Hf|done].
Qed.

(** The links after an update. *)
Lemma nx_on_buf i j f s : (j < length (bufs s))%nat ->
  nx (on_buf j f s) i = if decide (i = j) then b_next (f (buf_at j s)) else nx s i.
Proof. intros. unfold nx. rewrite buf_at_on_buf by done. by case_decide. Qed.
Lemma pv_on_buf i j f s : (j < length (bufs s))%nat ->
  pv (on_buf j f s) i = if decide (i = j) then b_prev (f (buf_at j s)) else pv s i.
Proof. intros. unfold pv. rewrite buf_at_on_buf by done. by case_decide. Qed.

Lemma pv_with_next j k x s : (k < length (bufs s))%nat -> pv (on_buf k (with_next x) s) j = pv s j.
Proof. intros. rewrite pv_on_buf by done. case_decide; by subst. Qed.
Lemma nx_with_prev j k x s : (k < length (bufs s))%nat -> nx (on_buf k (with_prev x) s) j = nx s j.
Proof. intros. rewrite nx_on_buf by done. case_decide; by subst. Qed.
Lemma nx_with_next j k x s :
  (k < length (bufs s))%nat -> nx (on_buf k (with_next x) s) j = (<[k := x]> (nx s)) j.
Proof.
  intros. rewrite nx_on_buf by done. case_decide; [subst; by rewrite fn_lookup_insert|].
  by rewrite fn_ne.
Qed.
Lemma pv_with_prev j k x s :
  (k < length (bufs s))%nat -> pv (on_buf k (with_prev x) s) j = (<[k := x]> (pv s)) j.
Proof.
  intros. rewrite pv_on_buf by done. case_decide; [subst; by rewrite fn_lookup_insert|].
  by rewrite fn_ne.
Qed.

(** Functional updates respect pointwise equality. *)
Lemma fn_insert_ext (f g : nat -> nat) k x j :
  (forall y, f y = g y) -> (<[k := x]> f) j = (<[k := x]> g) j.
Proof.
  intros E. destruct (decide (k = j)) as [->|]; [by rewrite !fn_lookup_insert|by rewrite !fn_ne].
Qed.

Definition ring_ok (s : bcache) (l : list nat) : Prop :=
  length (bufs s) = S NBUF /\ ring (nx s) (pv s) HEAD l /\ forall i, i ∈ l <-> (i < NBUF)%nat.

Lemma ring_fun nx1 pv1 nx2 pv2 h l :
  ring nx1 pv1 h l -> (forall i, nx2 i = nx1 i) -> (forall i, pv2 i = pv1 i) -> ring nx2 pv2 h l.
Proof. intros [? Ha] H1 H2. split; [done|]. by eapply adj_ext. Qed.

(** Neighbours of a member are members or the head. *)
Lemma ring_nx nx pv h l1 b l2 :
  ring nx pv h (l1 ++ b :: l2) ->
  (nx b ∈ h :: l1 ++ l2) /\ (pv b ∈ h :: l1 ++ l2).
Proof.
  intros [Hnd Ha]. destruct (exists_last (l := h :: l1)) as (u & p & Hu); [done|].
  destruct (l2 ++ [h]) as [|n v] eqn:Hv; [by destruct l2|].
  replace (h :: (l1 ++ b :: l2) ++ [h]) with (u ++ p :: b :: n :: v) in Ha; last first.
  { rewrite <- app_assoc. simpl. by rewrite app_comm_cons, Hu, <- app_assoc, Hv. }
  apply adj_app in Ha as [_ (_ & -> & -> & _)]. split.
  - assert (Hn : n ∈ l2 ++ [h]) by (rewrite Hv; by left). set_solver.
  - assert (Hp : p ∈ h :: l1) by (rewrite Hu; set_solver). set_solver.
Qed.

Lemma ring_ok_lt s l i : ring_ok s l -> i ∈ HEAD :: l -> (i < length (bufs s))%nat.
Proof.
  intros (Hl & _ & Hm) [->|Hi]%elem_of_cons; [unfold HEAD; lia|]. apply Hm in Hi. lia.
Qed.

Lemma ring_remove_wp l1 i l2 L s :
  ring_ok s (l1 ++ i :: l2) ->
  wp (ring_remove i) L s (fun _ s' => links_only s s' /\ ring (nx s') (pv s') HEAD (l1 ++ l2)).
Proof.
  intros Hok. pose proof Hok as (Hlen & Hr & Hm). destruct (ring_nx _ _ _ _ _ _ Hr) as [Hn Hp].
  assert (Hlt : forall j, j ∈ HEAD :: l1 ++ l2 -> (j < length (bufs s))%nat)
    by (intros j Hj; apply (ring_ok_lt s _ j Hok); set_solver).
  assert (Hni : nx s i <> i).
  { destruct Hr as [Hnd _]. intros E. rewrite E in Hn.
    assert (Hperm : HEAD :: l1 ++ i :: l2 ≡ₚ i :: HEAD :: l1 ++ l2) by solve_Permutation.
    rewrite Hperm in Hnd. by apply NoDup_cons in Hnd as [? _]. }
  unfold ring_remove, set_buf. wsteps. fold (nx s i) (pv s i).
  set (s1 := on_buf (nx s i) (with_prev (pv s i)) s).
  assert (Hs1 : buf_at i s1 = buf_at i s).
  { unfold s1. rewrite buf_at_on_buf by by apply Hlt. by rewrite decide_False. }
  rewrite Hs1. fold (nx s i) (pv s i). split; [done|].
  assert (Hl1 : length (bufs s1) = length (bufs s)) by apply length_on_buf.
  split.
  - apply links_only_step; [|by apply Hlt|done]. apply links_only_step; [done|by apply Hlt|done].
  - apply (ring_fun _ _ _ _ _ _ (ring_removed _ _ _ _ _ _ Hr)); intros j.
    + rewrite nx_with_next by (rewrite Hl1; by apply Hlt). apply fn_insert_ext. intros y.
      unfold s1. apply nx_with_prev. by apply Hlt.
    + rewrite pv_with_next by (rewrite Hl1; by apply Hlt). unfold s1. apply pv_with_prev. by apply Hlt.
Qed.

Lemma ring_insert_wp i l L s :
  length (bufs s) = S NBUF -> ring (nx s) (pv s) HEAD l -> i ∉ HEAD :: l -> (i < NBUF)%nat ->
  (forall j, j ∈ l -> (j < NBUF)%nat) ->
  wp (ring_insert i) L s (fun _ s' => links_only s s' /\ ring (nx s') (pv s') HEAD (i :: l)).
Proof.
  intros Hlen Hr Hi Hlt Hm. assert (Hih : i <> HEAD) by (unfold HEAD; lia).
  assert (Hf : nx s HEAD ∈ HEAD :: l).
  { destruct Hr as [_ Ha]. destruct l as [|f l]; simpl in Ha; destruct Ha as [-> _]; set_solver. }
  assert (HH : (HEAD < S NBUF)%nat) by (unfold HEAD; lia).
  assert (Hfl : (nx s HEAD < S NBUF)%nat) by (apply elem_of_cons in Hf as [->|Hf%Hm]; lia).
  assert (Hfi : nx s HEAD <> i) by (intros E; by rewrite E in Hf).
  unfold ring_insert, set_buf. wsteps. fold (nx s HEAD).
  set (s2 := on_buf i (with_prev HEAD) (on_buf i (with_next (nx s HEAD)) s)).
  assert (H2 : buf_at HEAD s2 = buf_at HEAD s).
  { unfold s2. rewrite !buf_at_on_buf by (rewrite ?length_on_buf, ?Hl2, ?Hlen; lia). by rewrite !decide_False. }
  assert (Hl2 : length (bufs s2) = S NBUF) by (unfold s2; by rewrite !length_on_buf).
  rewrite H2. fold (nx s HEAD). split; [done|]. split.
  - apply links_only_step; [|rewrite Hlen; lia|done]. apply links_only_step; [|rewrite Hlen; lia|done].
    apply links_only_step; [|lia|done]. apply links_only_step; [done|lia|done].
  - apply (ring_fun _ _ _ _ _ _ (ring_inserted _ _ _ _ _ Hr Hi)); intros j.
    + rewrite nx_with_next by (rewrite length_on_buf, Hl2; lia). apply fn_insert_ext. intros y.
      rewrite nx_with_prev by (rewrite Hl2; lia). unfold s2.
      rewrite nx_with_prev by (rewrite length_on_buf, Hlen; lia). apply nx_with_next. rewrite Hlen. lia.
    + rewrite pv_with_next by (rewrite length_on_buf, Hl2; lia).
      rewrite pv_with_prev by (rewrite Hl2; lia). apply fn_insert_ext. intros y. unfold s2.
      rewrite pv_with_prev by (rewrite length_on_buf, Hlen; lia). apply fn_insert_ext. intros z.
      apply pv_with_next. rewrite Hlen. lia.
Qed.

(** ** Scans *)

(** Following [step] from [i] visits [l] and then the head. *)
Fixpoint along (step : nat -> nat) (l : list nat) (i : nat) : Prop :=
  match l with
  | [] => i = HEAD
  | x :: l' => i = x /\ x <> HEAD /\ along step l' (step x)
  end.

Lemma ring_along nx pv l : ring nx pv HEAD l -> along nx l (nx HEAD).
Proof.
  intros [Hnd Ha]. apply NoDup_cons in Hnd as [Hh _].
  assert (Hg : forall l h, adj nx pv (h :: l ++ [HEAD]) -> HEAD ∉ l -> along nx l (nx h)).
  { clear. induction l as [|x l IH]; intros h Ha Hh; simpl in *.
    - by destruct Ha as [-> _].
    - destruct Ha as (-> & _ & Ha). apply not_elem_of_cons in Hh as [Hx Hh].
      split_and!; [done|done|]. by apply IH. }
  by apply Hg.
Qed.

Lemma scan_loop_wp test step l L s fuel i :
  along (fun j => step (buf_at j s)) l i -> (length l < fuel)%nat ->
  wp (loop fuel (scan_body test step) i) L s (fun r s' => s' = s /\
    r = find (fun j => test (buf_at j s)) l).
Proof.
  revert fuel i. induction l as [|x l IH]; intros fuel i Hal Hf; (destruct fuel as [|fuel]; [simpl in Hf; lia|]).
  - simpl in Hal. subst i. simpl. unfold scan_body. by wsteps.
  - destruct Hal as (-> & Hx & Hal). simpl. wsteps. unfold scan_body at 1. wfalse; [|done]. wsteps.
    destruct (test (buf_at x s)); wsteps; [done|]. apply IH; [done|]. simpl in Hf. lia.
Qed.

Lemma scan_next_wp test L s l :
  ring_ok s l -> length l = NBUF ->
  wp (scan test b_next) L s (fun r s' => s' = s /\ r = find (fun j => test (buf_at j s)) l).
Proof.
  intros (_ & Hr & _) Hl. unfold scan. wsteps. apply scan_loop_wp; [|rewrite Hl; lia].
  by apply (ring_along _ _ _ Hr).
Qed.

Lemma scan_prev_wp test L s l :
  ring_ok s l -> length l = NBUF ->
  wp (scan test b_prev) L s (fun r s' => s' = s /\ r = find (fun j => test (buf_at j s)) (rev l)).
Proof.
  intros (_ & Hr & _) Hl. unfold scan. wsteps. apply scan_loop_wp; [|rewrite length_rev, Hl; lia].
  apply ring_rev in Hr. by apply (ring_along _ _ _ Hr).
Qed.

Lemma ring_ok_length s l : ring_ok s l -> length l = NBUF.
Proof.
  intros (_ & [Hnd _] & Hm). apply NoDup_cons in Hnd as [_ Hnd].
  assert (l ≡ₚ seq 0 NBUF) as ->; [|by rewrite length_seq].
  apply NoDup_Permutation; [done|apply NoDup_seq|]. intros x. rewrite Hm, elem_of_seq. lia.
Qed.

(** * The abstract state *)

(** The pins of a buffer: the references beyond the holder's. *)
Definition pin_count (x : buf) : nat := Z.to_nat (b_refcnt x - sl_locked (b_lock x)).

Definition is_key (b : Z) (x : buf) : bool := (b_dev x =? ROOTDEV) && (b_blockno x =? b).

Definition bio_content (s : bcache) (b : Z) : block :=
  match find_idx (fun x => is_key b x && negb (b_valid x =? 0)) (bufs s) with
  | Some i => b_data (buf_at i s)
  | None => disk_block (vdisk s) b
  end.

Definition bio_held (s : bcache) : gmap nat Z :=
  omap (fun x => if decide (sl_locked (b_lock x) = 0) then None else Some (b_blockno x))
    (map_seq 0 (bufs s) : gmap nat buf).

Definition bio_pins (s : bcache) : gmap Z nat :=
  list_to_map (omap (fun x =>
    if decide (b_dev x = ROOTDEV /\ pin_count x <> O) then Some (b_blockno x, pin_count x) else None)
    (bufs s)).

Definition bio_abs (s : bcache) : babs :=
  mkBabs (bio_content s) (disk_block (vdisk s)) (vwrites s) (bio_held s) (bio_pins s).

(** A buffer on its own: unused since boot, or of the root device; locked only
    by the current process; valid when referenced; clean when not. *)
Record buf_ok (s : bcache) (x : buf) : Prop := {
  bo_dev : b_dev x = ROOTDEV \/
    (b_dev x = 0 /\ b_refcnt x = 0 /\ b_valid x = 0 /\ sl_locked (b_lock x) = 0);
  bo_lock : sl_locked (b_lock x) = 0 \/ (sl_locked (b_lock x) = 1 /\ sl_pid (b_lock x) = cur_pid s);
  bo_refcnt : sl_locked (b_lock x) <= b_refcnt x <= sl_locked (b_lock x) + Z.of_nat NBUF;
  bo_valid : 0 < b_refcnt x -> b_valid x <> 0;
  bo_clean : b_refcnt x = 0 -> b_valid x <> 0 -> b_data x = disk_block (vdisk s) (b_blockno x);
  bo_data : block_ok (b_data x)
}.

Record bio_ok (s : bcache) : Prop := {
  bk_ring : exists l, ring_ok s l;
  bk_head : b_dev (buf_at HEAD s) = 0;
  bk_buf : forall i x, bufs s !! i = Some x -> buf_ok s x;
  bk_uniq : forall i j x y, bufs s !! i = Some x -> bufs s !! j = Some y ->
    b_dev x = ROOTDEV -> b_dev y = ROOTDEV -> b_blockno x = b_blockno y -> i = j;
  bk_disk : forall b, block_ok (disk_block (vdisk s) b)
}.

Lemma buf_at_lookup s i x : bufs s !! i = Some x -> buf_at i s = x.
Proof. intros. unfold buf_at. rewrite nth_lookup. by rewrite H. Qed.

Lemma lookup_buf_at s i : (i < length (bufs s))%nat -> bufs s !! i = Some (buf_at i s).
Proof. intros Hi. unfold buf_at. rewrite nth_lookup. by apply lookup_lt_is_Some in Hi as [x ->]. Qed.

Lemma bio_held_lookup s i b :
  bio_held s !! i = Some b <->
  exists x, bufs s !! i = Some x /\ sl_locked (b_lock x) <> 0 /\ b_blockno x = b.
Proof.
  unfold bio_held. rewrite lookup_omap, lookup_map_seq_0. destruct (bufs s !! i) as [x|]; simpl.
  - case_decide; split; [done|naive_solver|naive_solver|naive_solver].
  - naive_solver.
Qed.

Lemma bio_pins_lookup s b n :
  bio_ok s ->
  bio_pins s !! b = Some n <->
  exists i x, bufs s !! i = Some x /\ b_dev x = ROOTDEV /\ b_blockno x = b /\ pin_count x = n /\ n <> O.
Proof.
  intros Hok. unfold bio_pins. rewrite <- elem_of_list_to_map.
  - rewrite list_elem_of_omap. split.
    + intros (x & Hin & Hx). apply list_elem_of_lookup in Hin as [i Hi]. exists i, x.
      case_decide as Hc; [|done]. destruct Hc. injection Hx as <- <-. done.
    + intros (i & x & Hi & Hd & <- & <- & Hn). exists x.
      split; [by eapply list_elem_of_lookup_2|]. by rewrite decide_True.
  - assert (Hu := bk_uniq s Hok). revert Hu. generalize (bufs s). intros l.
    induction l as [|x l IH]; intros Hu; simpl; [constructor|].
    assert (IH' : NoDup (omap (fun x => if decide (b_dev x = ROOTDEV /\ pin_count x <> O)
      then Some (b_blockno x, pin_count x) else None) l).*1).
    { apply IH. intros i j y z Hi Hj Hy Hz E. assert (S i = S j) by by eapply Hu. lia. }
    destruct (decide (b_dev x = ROOTDEV /\ _)) as [[Hd _]|]; [|done]. simpl. constructor; [|done].
    rewrite list_elem_of_fmap. intros ((b' & n') & Hb & Hin). simpl in Hb.
    apply list_elem_of_omap in Hin as (y & Hy & Hc). case_decide as Hd'; [|done]. injection Hc as <- <-.
    apply list_elem_of_lookup in Hy as [j Hj].
    assert (0%nat = S j) by (eapply (Hu 0%nat (S j) x y); try done; apply Hd'). lia.
Qed.

(** ** Changing one buffer *)

(** Only buffer [i] changed, to [x], links aside. *)
Record touched (s s' : bcache) (i : nat) (x : buf) : Prop := {
  to_lt : (i < NBUF)%nat;
  to_at : forall j, strip (buf_at j s') = strip (if decide (j = i) then x else buf_at j s);
  to_len : length (bufs s') = length (bufs s);
  to_pid : cur_pid s' = cur_pid s
}.

Lemma touched_on_buf s i f :
  (i < NBUF)%nat -> (i < length (bufs s))%nat -> touched s (on_buf i f s) i (f (buf_at i s)).
Proof.
  intros Hi Hl. split; [done| |by apply length_on_buf|done].
  intros j. rewrite buf_at_on_buf by done. by case_decide.
Qed.

Lemma touched_links s s1 s2 i x : touched s s1 i x -> links_only s1 s2 -> touched s s2 i x.
Proof.
  intros [H1 H2 H3 H4] [L1 L2 L3 L4 L5]. split; [done| |by rewrite L2|by rewrite L5].
  intros j. by rewrite L1, H2.
Qed.

Lemma touched_trans s s1 s2 i x y : touched s s1 i x -> touched s1 s2 i y -> touched s s2 i y.
Proof.
  intros [H1 H2 H3 H4] [_ L2 L3 L4]. split; [done| |by rewrite L3|by rewrite L4].
  intros j. rewrite L2. specialize (H2 j). by case_decide.
Qed.

(** Facts that only depend on [strip]. *)
Lemma strip_fields x y :
  strip x = strip y -> b_valid x = b_valid y /\ b_dev x = b_dev y /\ b_blockno x = b_blockno y /\
    b_lock x = b_lock y /\ b_refcnt x = b_refcnt y /\ b_data x = b_data y.
Proof. unfold strip, with_prev, with_next. simpl. intros [= ]. by split_and!. Qed.

Lemma touched_eq s s' i x j :
  touched s s' i x -> strip (buf_at j s') = strip (if decide (j = i) then x else buf_at j s).
Proof. intros Ht. apply (to_at _ _ _ _ Ht). Qed.

Lemma bio_held_at s j :
  bio_held s !! j = if decide (j < length (bufs s))%nat then
    (if decide (sl_locked (b_lock (buf_at j s)) = 0) then None else Some (b_blockno (buf_at j s)))
  else None.
Proof.
  unfold bio_held. rewrite lookup_omap, lookup_map_seq_0. case_decide as Hj.
  - by rewrite (lookup_buf_at s j Hj).
  - by rewrite lookup_ge_None_2 by lia.
Qed.

Lemma held_touched s s' i x :
  touched s s' i x -> length (bufs s) = S NBUF ->
  bio_held s' = if decide (sl_locked (b_lock x) = 0) then delete i (bio_held s)
                else <[i := b_blockno x]> (bio_held s).
Proof.
  intros Ht Hl. pose proof (to_lt _ _ _ _ Ht). apply map_eq. intros j.
  rewrite bio_held_at, (to_len _ _ _ _ Ht).
  destruct (strip_fields _ _ (touched_eq s s' i x j Ht)) as (_ & _ & Hb & Hlk & _).
  rewrite Hb, Hlk. destruct (decide (j = i)) as [->|Hne].
  - rewrite decide_True by lia. destruct (decide (sl_locked (b_lock x) = 0));
      [by rewrite lookup_delete_eq|by rewrite lookup_insert_eq].
  - destruct (decide (sl_locked (b_lock x) = 0)).
    + by rewrite lookup_delete_ne, bio_held_at by done.
    + by rewrite lookup_insert_ne, bio_held_at by done.
Qed.

Lemma bio_pins_at s b n :
  bio_ok s ->
  bio_pins s !! b = Some n <->
  exists i, (i < length (bufs s))%nat /\ b_dev (buf_at i s) = ROOTDEV /\ b_blockno (buf_at i s) = b /\
    pin_count (buf_at i s) = n /\ n <> O.
Proof.
  intros Hok. rewrite bio_pins_lookup by done. split.
  - intros (i & x & Hi & H1). exists i. pose proof (lookup_lt_Some _ _ _ Hi).
    by rewrite (buf_at_lookup _ _ _ Hi).
  - intros (i & Hi & H1). exists i, (buf_at i s). by rewrite lookup_buf_at.
Qed.

Lemma bio_uniq s i j :
  bio_ok s -> (i < length (bufs s))%nat -> (j < length (bufs s))%nat ->
  b_dev (buf_at i s) = ROOTDEV -> b_dev (buf_at j s) = ROOTDEV ->
  b_blockno (buf_at i s) = b_blockno (buf_at j s) -> i = j.
Proof. intros Hok Hi Hj. apply (bk_uniq s Hok); by apply lookup_buf_at. Qed.

Lemma strip_pin_count x y : strip x = strip y -> pin_count x = pin_count y.
Proof. intros (_ & _ & _ & Hl & Hr & _)%strip_fields. unfold pin_count. by rewrite Hl, Hr. Qed.

(** Buffer [i] keeps its block. *)
Lemma pins_touched s s' i x :
  bio_ok s -> bio_ok s' -> touched s s' i x -> (i < length (bufs s))%nat ->
  b_dev x = ROOTDEV -> b_dev (buf_at i s) = ROOTDEV -> b_blockno (buf_at i s) = b_blockno x ->
  bio_pins s' = if decide (pin_count x = O) then delete (b_blockno x) (bio_pins s)
                else <[b_blockno x := pin_count x]> (bio_pins s).
Proof.
  intros Hok Hok' Ht Hi Hd Hd0 Hb. pose proof (to_len _ _ _ _ Ht) as Hlen.
  assert (Hx : strip (buf_at i s') = strip x) by (rewrite (touched_eq _ _ _ _ i Ht), decide_True; done).
  destruct (strip_fields _ _ Hx) as (_ & Hxd & Hxb & _).
  apply map_eq. intros b. destruct (decide (b = b_blockno x)) as [->|Hne].
  - transitivity (if decide (pin_count x = O) then None else Some (pin_count x)); last first.
    { case_decide; [by rewrite lookup_delete_eq|by rewrite lookup_insert_eq]. }
    destruct (bio_pins s' !! b_blockno x) as [n|] eqn:Hp.
    + apply bio_pins_at in Hp as (j & Hj & Hjd & Hjb & <- & Hn); [|done].
      assert (j = i) as -> by (apply (bio_uniq s'); [done|done|lia|done|congruence|congruence]).
      rewrite (strip_pin_count _ _ Hx) in *. by rewrite decide_False.
    + case_decide as Hz; [done|]. assert (Hs : bio_pins s' !! b_blockno x = Some (pin_count x)); [|congruence].
      apply bio_pins_at; [done|]. exists i. rewrite (strip_pin_count _ _ Hx).
      split_and!; [lia|congruence|congruence|done|done].
  - assert (Hiff : forall n, bio_pins s' !! b = Some n <-> bio_pins s !! b = Some n).
    { intros n. rewrite !bio_pins_at by done. rewrite Hlen.
      split; intros (j & Hj & Hjd & Hjb & Hn & Hn0); exists j;
        pose proof (touched_eq _ _ _ _ j Ht) as Hs;
        (rewrite decide_False in Hs by (intros ->; congruence));
        pose proof (strip_pin_count _ _ Hs); destruct (strip_fields _ _ Hs) as (_ & E1 & E2 & _);
        split_and!; congruence. }
    transitivity (bio_pins s !! b).
    + apply option_eq. apply Hiff.
    + case_decide; [by rewrite lookup_delete_ne|by rewrite lookup_insert_ne].
Qed.

Definition cached (s : bcache) (i : nat) (b : Z) : Prop :=
  (i < length (bufs s))%nat /\ b_dev (buf_at i s) = ROOTDEV /\ b_blockno (buf_at i s) = b /\
  b_valid (buf_at i s) <> 0.

Lemma content_cached s i b : bio_ok s -> cached s i b -> bio_content s b = b_data (buf_at i s).
Proof.
  intros Hok (Hi & Hd & Hb & Hv). unfold bio_content.
  destruct (find_idx _ (bufs s)) as [j|] eqn:Hj.
  - apply find_idx_Some in Hj as [(x & Hx & Ht) _]. unfold is_key in Ht.
    rewrite !andb_true_iff, !Z.eqb_eq in Ht. destruct Ht as [[Hxd Hxb] _].
    assert (j = i) as ->; [|done]. pose proof (buf_at_lookup _ _ _ Hx) as E. rewrite <- E in *.
    apply (bio_uniq s); try done; [by eapply lookup_lt_Some|congruence].
  - rewrite find_idx_None in Hj. specialize (Hj (buf_at i s)).
    unfold is_key in Hj. rewrite Hd, Hb, !Z.eqb_refl in Hj. apply Z.eqb_neq in Hv. rewrite Hv in Hj.
    discriminate Hj. apply (list_elem_of_lookup_2 _ i). by apply lookup_buf_at.
Qed.

Lemma content_uncached s b : (forall i, ~ cached s i b) -> bio_content s b = disk_block (vdisk s) b.
Proof.
  intros Hn. unfold bio_content. destruct (find_idx _ (bufs s)) as [j|] eqn:Hj; [|done].
  apply find_idx_Some in Hj as [(x & Hx & Ht) _]. unfold is_key in Ht.
  rewrite !andb_true_iff, !Z.eqb_eq, negb_true_iff, Z.eqb_neq in Ht. destruct Ht as [[Hxd Hxb] Hv].
  destruct (Hn j). unfold cached. rewrite (buf_at_lookup _ _ _ Hx).
  split_and!; try done. by eapply lookup_lt_Some.
Qed.

Lemma cached_dec s b : (exists i, cached s i b) \/ (forall i, ~ cached s i b).
Proof.
  destruct (find_idx (fun x => is_key b x && negb (b_valid x =? 0)) (bufs s)) as [j|] eqn:Hj.
  - left. exists j. apply find_idx_Some in Hj as [(x & Hx & Ht) _]. unfold is_key in Ht.
    rewrite !andb_true_iff, !Z.eqb_eq, negb_true_iff, Z.eqb_neq in Ht. destruct Ht as [[Hxd Hxb] Hv].
    unfold cached. rewrite (buf_at_lookup _ _ _ Hx). split_and!; try done. by eapply lookup_lt_Some.
  - right. rewrite find_idx_None in Hj. intros i (Hi & Hd & Hb & Hv).
    specialize (Hj (buf_at i s) (list_elem_of_lookup_2 _ i _ (lookup_buf_at s i Hi))).
    unfold is_key in Hj. rewrite Hd, Hb, !Z.eqb_refl in Hj. apply Z.eqb_neq in Hv. by rewrite Hv in Hj.
Qed.

Lemma cached_other s s' i x j b :
  touched s s' i x -> j <> i -> cached s' j b <-> cached s j b.
Proof.
  intros Ht Hj. pose proof (touched_eq _ _ _ _ j Ht) as Hs. rewrite decide_False in Hs by done.
  destruct (strip_fields _ _ Hs) as (E1 & E2 & E3 & _). unfold cached.
  rewrite (to_len _ _ _ _ Ht), E1, E2, E3. done.
Qed.

(** The contents of the blocks that neither the old nor the new buffer [i] holds. *)
Lemma content_other s s' i x b :
  bio_ok s -> bio_ok s' -> touched s s' i x -> vdisk s' = vdisk s ->
  ~ cached s i b -> ~ cached s' i b -> bio_content s' b = bio_content s b.
Proof.
  intros Hok Hok' Ht Hd Hn Hn'. destruct (cached_dec s b) as [[j Hj]|Hno].
  - assert (j <> i) by (intros ->; done). rewrite (content_cached s j b) by done.
    rewrite (content_cached s' j b); [|done|by eapply cached_other].
    pose proof (touched_eq _ _ _ _ j Ht) as Hs. rewrite decide_False in Hs by done.
    by destruct (strip_fields _ _ Hs) as (_ & _ & _ & _ & _ & ->).
  - rewrite (content_uncached s) by done. rewrite (content_uncached s'), Hd; [done|]. intros j.
    destruct (decide (j = i)) as [->|]; [done|]. rewrite cached_other by done. apply Hno.
Qed.

(** Buffer [i] keeps its block and stays valid. *)
Lemma content_touched s s' i x b :
  bio_ok s -> bio_ok s' -> touched s s' i x -> vdisk s' = vdisk s ->
  cached s i (b_blockno x) -> b_dev x = ROOTDEV -> b_valid x <> 0 ->
  bio_content s' b = upd (bio_content s) (b_blockno x) (b_data x) b.
Proof.
  intros Hok Hok' Ht Hd Hc Hxd Hxv. pose proof Hc as (Hi & _ & Hb & _).
  assert (Hx : strip (buf_at i s') = strip x) by (rewrite (touched_eq _ _ _ _ i Ht), decide_True; done).
  destruct (strip_fields _ _ Hx) as (E1 & E2 & E3 & _ & _ & E4). pose proof (to_len _ _ _ _ Ht).
  unfold upd. case_decide as Hbb.
  - subst b. rewrite (content_cached s' i); [done|done|]. split_and!; [lia|congruence..].
  - apply (content_other s s' i x); try done; intros (_ & _ & Hb' & _); congruence.
Qed.

Lemma bio_ok_touched s s' i x :
  bio_ok s -> touched s s' i x -> vdisk s' = vdisk s -> (exists l, ring_ok s' l) -> buf_ok s' x ->
  (forall j, j <> i -> (j < length (bufs s))%nat -> b_dev x = ROOTDEV ->
     b_dev (buf_at j s) = ROOTDEV -> b_blockno (buf_at j s) <> b_blockno x) ->
  bio_ok s'.
Proof.
  intros Hok Ht Hd Hr Hx Hu. pose proof (to_len _ _ _ _ Ht) as Hlen.
  assert (Hbuf : forall j y, bufs s' !! j = Some y ->
    strip y = strip (if decide (j = i) then x else buf_at j s) /\ (j < length (bufs s))%nat).
  { intros j y Hy. rewrite <- (buf_at_lookup _ _ _ Hy). split; [by apply touched_eq|].
    rewrite <- Hlen. by eapply lookup_lt_Some. }
  assert (Hbok : forall y z, strip y = strip z -> buf_ok s' z -> buf_ok s' y).
  { intros y z (E1 & E2 & E3 & E4 & E5 & E6)%strip_fields [B1 B2 B3 B4 B5 B6].
    split; rewrite ?E1, ?E2, ?E3, ?E4, ?E5, ?E6; done. }
  split; [done| | | |rewrite Hd; apply (bk_disk s Hok)].
  - pose proof (touched_eq _ _ _ _ HEAD Ht) as Hs.
    rewrite decide_False in Hs by (pose proof (to_lt _ _ _ _ Ht); unfold HEAD; lia).
    destruct (strip_fields _ _ Hs) as (_ & -> & _). apply (bk_head s Hok).
  - intros j y Hy. destruct (Hbuf j y Hy) as [Hs Hj]. eapply Hbok; [done|].
    case_decide; [done|]. destruct (bk_buf s Hok j _ (lookup_buf_at s j Hj)) as [B1 B2 B3 B4 B5 B6].
    split; rewrite ?Hd, ?(to_pid _ _ _ _ Ht); done.
  - intros j k y z Hy Hz. destruct (Hbuf j y Hy) as [Hs Hj], (Hbuf k z Hz) as [Hs' Hk].
    destruct (strip_fields _ _ Hs) as (_ & -> & -> & _), (strip_fields _ _ Hs') as (_ & -> & -> & _).
    destruct (decide (j = i)) as [->|Hji], (decide (k = i)) as [->|Hki]; intros H1 H2 H3; try done.
    + by destruct (Hu k Hki Hk H1 H2).
    + by destruct (Hu j Hji Hj H2 H1).
    + by apply (bio_uniq s).
Qed.

Lemma ring_ok_links s s' l :
  ring_ok s l -> length (bufs s') = length (bufs s) -> (forall i, nx s' i = nx s i) ->
  (forall i, pv s' i = pv s i) -> ring_ok s' l.
Proof. intros (Hl & Hr & Hm) Hlen H1 H2. split_and!; [congruence|by eapply ring_fun|done]. Qed.

(** An update of a buffer that leaves the links alone. *)
Lemma ring_ok_on_buf s l i f :
  ring_ok s l -> (i < length (bufs s))%nat -> (forall b, b_next (f b) = b_next b) ->
  (forall b, b_prev (f b) = b_prev b) -> ring_ok (on_buf i f s) l.
Proof.
  intros Hr Hi Hn Hp. eapply ring_ok_links; [done|apply length_on_buf| |]; intros j.
  - rewrite nx_on_buf by done. case_decide; [subst; by rewrite Hn|done].
  - rewrite pv_on_buf by done. case_decide; [subst; by rewrite Hp|done].
Qed.

(** * The operations against the abstract state *)

Lemma counts_same s s' i x :
  bio_ok s -> bio_ok s' -> touched s s' i x ->
  b_lock x = b_lock (buf_at i s) -> b_blockno x = b_blockno (buf_at i s) ->
  b_dev x = b_dev (buf_at i s) -> b_refcnt x = b_refcnt (buf_at i s) ->
  bio_held s' = bio_held s /\ bio_pins s' = bio_pins s.
Proof.
  intros Hok Hok' Ht H1 H2 H3 H4. pose proof (to_len _ _ _ _ Ht) as Hlen.
  assert (Hs : forall j, b_lock (buf_at j s') = b_lock (buf_at j s) /\
    b_blockno (buf_at j s') = b_blockno (buf_at j s) /\ b_dev (buf_at j s') = b_dev (buf_at j s) /\
    pin_count (buf_at j s') = pin_count (buf_at j s)).
  { intros j. pose proof (touched_eq _ _ _ _ j Ht) as Hs.
    pose proof (strip_pin_count _ _ Hs) as ->. destruct (strip_fields _ _ Hs) as (_ & -> & -> & -> & _).
    case_decide; [subst; unfold pin_count; by rewrite H1, H2, H3, H4|done]. }
  split; apply map_eq; intros j.
  - rewrite !bio_held_at, Hlen. by destruct (Hs j) as (-> & -> & _).
  - apply option_eq. intros n. rewrite !bio_pins_at by done. rewrite Hlen.
    by split; intros (k & Hk & E1 & E2 & E3 & E4); exists k; destruct (Hs k) as (_ & F1 & F2 & F3);
      split_and!; congruence.
Qed.

(** What a held buffer is. *)
Lemma held_buf s h b :
  bio_ok s -> bio_held s !! h = Some b ->
  (h < NBUF)%nat /\ (h < length (bufs s))%nat /\ cached s h b /\
  b_refcnt (buf_at h s) = 1 + Z.of_nat (pin_count (buf_at h s)) /\
  (pin_count (buf_at h s) <= NBUF)%nat /\
  sl_locked (lock_of h s) = 1 /\ sl_pid (lock_of h s) = cur_pid s /\ buf_ok s (buf_at h s).
Proof.
  intros Hok (x & Hx & Hl & <-)%bio_held_lookup. pose proof (bk_buf s Hok _ _ Hx) as Hb.
  pose proof (buf_at_lookup _ _ _ Hx) as E. pose proof (lookup_lt_Some _ _ _ Hx) as Hlt.
  unfold lock_of, cached, pin_count. rewrite E. pose proof Hb as [B1 B2 B3 B4 B5 B6].
  destruct B2 as [?|[B2 B2']]; [done|]. destruct B1 as [B1|(_ & _ & _ & ?)]; [|done].
  destruct (bk_ring s Hok) as [l (Hlen & _)].
  assert (h <> HEAD) by (intros ->; pose proof (bk_head s Hok) as Hz; by rewrite E, B1 in Hz).
  unfold HEAD in *. rewrite B2 in *. split_and!; try done; try lia.
Qed.

Lemma pins_of_held s h b :
  bio_ok s -> bio_held s !! h = Some b ->
  default O (bio_pins s !! b) = pin_count (buf_at h s) /\
  (is_Some (bio_pins s !! b) <-> pin_count (buf_at h s) <> O).
Proof.
  intros Hok Hh. destruct (held_buf s h b Hok Hh) as (_ & Hlt & (_ & Hd & Hb & _) & _).
  destruct (bio_pins s !! b) as [n|] eqn:Hp.
  - apply bio_pins_at in Hp as (j & Hj & Hjd & Hjb & <- & Hn); [|done].
    assert (j = h) as -> by (apply (bio_uniq s); congruence). simpl. split; [done|]. by split.
  - simpl. destruct (decide (pin_count (buf_at h s) = O)) as [E|E].
    + rewrite E. split; [done|]. split; [by intros [? ?]|done].
    + assert (bio_pins s !! b = Some (pin_count (buf_at h s))); [|congruence].
      apply bio_pins_at; [done|]. by exists h.
Qed.

Lemma held_unlock_free L i : buf_free L -> buf_lock i ∉ L.
Proof. intros [_ H]. apply H. Qed.

Lemma buf_load_wp h b L s :
  bio_ok s -> bio_held s !! h = Some b ->
  wp (buf_load h) L s (fun d s' => s' = s /\ d = bio_content s b).
Proof.
  intros Hok Hh. destruct (held_buf s h b Hok Hh) as (_ & _ & Hc & _). unfold buf_load. wsteps.
  split_and!; [done|done|]. by rewrite (content_cached s h b).
Qed.

Lemma buf_store_wp h b d L s :
  bio_ok s -> bio_held s !! h = Some b -> block_ok d ->
  wp (buf_store h d) L s (fun _ s' => bio_ok s' /\ beq (bio_abs s') (set_content b d (bio_abs s))).
Proof.
  intros Hok Hh Hd. destruct (held_buf s h b Hok Hh) as (Hn & Hlt & Hc & Hr & _ & _ & _ & Hb).
  unfold buf_store, set_buf. wsteps. split; [done|].
  pose proof (touched_on_buf s h (with_data d) Hn Hlt) as Ht.
  destruct (bk_ring s Hok) as [l Hring]. pose proof Hc as (_ & Hdev & Hbno & Hv).
  assert (Hok' : bio_ok (on_buf h (with_data d) s)).
  { eapply bio_ok_touched; [done|done|done|exists l; by apply ring_ok_on_buf| |].
    - destruct Hb as [B1 B2 B3 B4 B5 B6]. split; try done. simpl. intros E. lia.
    - intros j Hj Hjl _ Hjd E. apply Hj. apply (bio_uniq s); try done. }
  split; [done|]. destruct (counts_same _ _ _ _ Hok Hok' Ht) as [E1 E2]; try done.
  split; simpl; try done. intros b'. rewrite (content_touched s _ h _ b' Hok Hok' Ht); simpl; try done.
  - by rewrite Hbno.
Qed.

(** A held buffer whose reference count changes to keep [k] pins. *)
Lemma refcnt_wp h b k s :
  bio_ok s -> bio_held s !! h = Some b -> (k <= NBUF)%nat ->
  let s' := on_buf h (with_refcnt (1 + Z.of_nat k)) s in
  bio_ok s' /\ beq (bio_abs s') (set_pins (if decide (k = O) then delete b (bio_pins s)
                                           else <[b := k]> (bio_pins s)) (bio_abs s)).
Proof.
  intros Hok Hh Hk. destruct (held_buf s h b Hok Hh) as (Hn & Hlt & Hc & Hr & Hpc & Hl1 & Hl2 & Hb).
  set (x := with_refcnt (1 + Z.of_nat k) (buf_at h s)).
  pose proof (touched_on_buf s h (with_refcnt (1 + Z.of_nat k)) Hn Hlt) as Ht. fold x in Ht.
  destruct (bk_ring s Hok) as [l Hring]. pose proof Hc as (_ & Hdev & Hbno & Hv).
  unfold lock_of in Hl1, Hl2.
  assert (Hok' : bio_ok (on_buf h (with_refcnt (1 + Z.of_nat k)) s)).
  { eapply bio_ok_touched; [done|exact Ht|done|exists l; by apply ring_ok_on_buf| |].
    - destruct Hb as [B1 B2 B3 B4 B5 B6]. split; try done; simpl; [by left|rewrite Hl1; lia|lia].
    - intros j Hj Hjl _ Hjd E. apply Hj. by apply (bio_uniq s). }
  split; [done|]. assert (Hpx : pin_count x = k).
  { unfold pin_count, x in *. simpl. rewrite Hl1 in *. lia. }
  split; simpl; try done.
  - intros b'. rewrite (content_touched s _ h x b' Hok Hok' Ht); simpl; try done; rewrite Hbno.
    unfold upd. case_decide; [subst b'; by rewrite (content_cached s h)|done].
  - rewrite (held_touched _ _ _ _ Ht) by apply Hring. simpl. rewrite decide_False by lia.
    rewrite Hbno. by apply insert_id.
  - rewrite (pins_touched _ _ _ _ Hok Hok' Ht); try done. rewrite Hpx. change (b_blockno x) with (b_blockno (buf_at h s)). by rewrite Hbno.
Qed.

Lemma bpin_wp h b L s :
  bio_ok s -> bio_held s !! h = Some b -> (default O (bio_pins s !! b) < NBUF)%nat -> buf_free L ->
  wp (bpin h) L s (fun _ s' => bio_ok s' /\ beq (bio_abs s') (set_pins (pin b (bio_pins s)) (bio_abs s))).
Proof.
  intros Hok Hh Hp [HL _]. destruct (held_buf s h b Hok Hh) as (_ & _ & _ & Hr & _).
  destruct (pins_of_held s h b Hok Hh) as [Hpd _]. rewrite Hpd in Hp.
  unfold bpin, set_buf. wstep. wstep. apply wpl_acquire; [done|]. wsteps. split; [done|].
  rewrite u32_small by (unfold NBUF in *; lia).
  replace (b_refcnt (buf_at h s) + 1) with (1 + Z.of_nat (S (pin_count (buf_at h s)))) by lia.
  unfold pin. rewrite Hpd. apply (refcnt_wp h b (S (pin_count (buf_at h s))) s Hok Hh). lia.
Qed.

Lemma bunpin_wp h b L s :
  bio_ok s -> bio_held s !! h = Some b -> pinned (bio_abs s) b -> buf_free L ->
  wp (bunpin h) L s (fun _ s' => bio_ok s' /\ beq (bio_abs s') (set_pins (unpin b (bio_pins s)) (bio_abs s))).
Proof.
  intros Hok Hh Hp [HL _]. destruct (held_buf s h b Hok Hh) as (_ & _ & _ & Hr & Hpc & _).
  destruct (pins_of_held s h b Hok Hh) as [Hpd Hpi]. pose proof (proj1 Hpi Hp) as Hne.
  unfold bunpin, set_buf. wstep. wstep. apply wpl_acquire; [done|]. wsteps. split; [done|].
  rewrite u32_small by (unfold NBUF in *; lia).
  destruct (pin_count (buf_at h s)) as [|k] eqn:Ek; [done|].
  replace (b_refcnt (buf_at h s) - 1) with (1 + Z.of_nat k) by lia.
  destruct Hp as [n Hp]. simpl in Hp. unfold unpin. rewrite Hp in *. simpl in Hpd. subst n.
  destruct (refcnt_wp h b k s Hok Hh ltac:(lia)) as [H1 H2]. split; [done|].
  destruct k; [done|]. by rewrite decide_False in H2.
Qed.

Lemma bwrite_wp h b L s :
  bio_ok s -> bio_held s !! h = Some b -> buf_free L ->
  wp (bwrite h) L s (fun _ s' => bio_ok s' /\ beq (bio_abs s') (write_disk b (bio_abs s))).
Proof.
  intros Hok Hh HL. destruct (held_buf s h b Hok Hh) as (Hn & Hlt & Hc & Hr & Hpc & Hl1 & Hl2 & Hb).
  unfold bwrite, buf_holdingsleep. wsteps.
  eapply wpl_call; [apply holdingsleep_wp; by apply held_unlock_free|]. intros r s1 [-> ->].
  rewrite Hl1, Hl2, Z.eqb_refl. simpl. unfold virtio_disk_rw. wsteps. split; [done|].
  pose proof (content_cached s h b Hok Hc) as Hcont. pose proof Hc as (_ & Hdev & Hbno & Hv).
  rewrite Hbno. set (d := b_data (buf_at h s)). set (s' := mkBcache _ _ _ _).
  assert (Hdisk : forall x, disk_block (vdisk s') x = upd (disk_block (vdisk s)) b d x).
  { intros x. unfold disk_block, upd, s'. simpl. case_decide; [subst x; by rewrite lookup_insert_eq|].
    by rewrite lookup_insert_ne. }
  assert (Hok' : bio_ok s').
  { destruct Hok as [K1 K2 K3 K4 K5]. split; [done|done| |done|].
    - intros i x Hx. destruct (K3 i x Hx) as [B1 B2 B3 B4 B5 B6]. split; try done.
      intros Hz Hval. rewrite Hdisk. unfold upd. case_decide as E; [|by apply B5].
      destruct B1 as [B1|(_ & _ & ? & _)]; [|done].
      assert (i = h) as ->; [|pose proof (buf_at_lookup s _ _ Hx) as E2; rewrite E2 in Hr; lia].
      apply (K4 i h x (buf_at h s)); try done; [by apply lookup_buf_at|by rewrite Hbno].
    - intros x. rewrite Hdisk. unfold upd. case_decide; [apply Hb|apply K5]. }
  split; [done|]. split; simpl; try done; [| |by rewrite Hcont].
  - intros x. destruct (cached_dec s x) as [[i Hi]|Hno].
    + rewrite (content_cached s i x), (content_cached s' i x); done.
    + rewrite (content_uncached s) by done. rewrite (content_uncached s') by done. rewrite Hdisk.
      unfold upd. case_decide; [subst x; by destruct (Hno h)|done].
  - intros x. rewrite Hdisk. by rewrite Hcont.
Qed.

(** The buffer [h] given back, with its links anywhere. *)
Lemma released_abs s s' h b :
  let x := with_refcnt (b_refcnt (buf_at h s) - 1)
             (with_lock (mkSleep 0 (sl_name (lock_of h s)) 0) (buf_at h s)) in
  bio_ok s -> bio_held s !! h = Some b -> pinned (bio_abs s) b \/ bio_content s b = disk_block (vdisk s) b ->
  touched s s' h x -> vdisk s' = vdisk s -> vwrites s' = vwrites s -> (exists l, ring_ok s' l) ->
  bio_ok s' /\ beq (bio_abs s') (set_held (delete h (bio_held s)) (bio_abs s)).
Proof.
  intros x Hok Hh Hcl Ht Hd Hw Hring.
  destruct (held_buf s h b Hok Hh) as (Hn & Hlt & Hc & Hr & Hpc & Hl1 & Hl2 & Hb).
  destruct (pins_of_held s h b Hok Hh) as [Hpd Hpi]. pose proof Hc as (_ & Hdev & Hbno & Hv).
  assert (Hpx : pin_count x = pin_count (buf_at h s)) by (unfold pin_count at 1; simpl; lia).
  assert (Hxb : b_blockno x = b) by done.
  assert (Hok' : bio_ok s').
  { eapply bio_ok_touched; [done|exact Ht|done|done| |].
    - destruct Hb as [B1 B2 B3 B4 B5 B6]. split; try done; simpl; [by left|by left|lia|].
      + intros Hz _. rewrite Hd, Hbno. destruct Hcl as [Hp|Hcl]; [apply Hpi in Hp; lia|].
        by rewrite <- Hcl, (content_cached s h).
    - intros j Hj Hjl _ Hjd E. apply Hj. by apply (bio_uniq s). }
  split; [done|]. split; simpl; [|by rewrite Hd|done| |].
  - intros b'. rewrite (content_touched s _ h x b' Hok Hok' Ht Hd); try done. rewrite Hxb.
    unfold upd. case_decide; [subst b'; by rewrite (content_cached s h)|done].
  - destruct Hring as [l Hring]. rewrite (held_touched _ _ _ _ Ht); [done|].
    by destruct Hring as [<- _]; rewrite (to_len _ _ _ _ Ht).
  - rewrite (pins_touched _ _ _ _ Hok Hok' Ht); try done. rewrite Hpx, Hxb.
    case_decide as Hz.
    + apply delete_id. destruct (bio_pins s !! b) eqn:E; [|done]. by destruct (proj1 Hpi ltac:(done)).
    + apply insert_id. destruct (proj2 Hpi Hz) as [n Hp]. rewrite Hp in *. simpl in Hpd. by subst.
Qed.

Lemma links_only_trans s1 s2 s3 : links_only s1 s2 -> links_only s2 s3 -> links_only s1 s3.
Proof.
  intros [A1 A2 A3 A4 A5] [B1 B2 B3 B4 B5]. split; [|congruence..]. intros i. by rewrite B1, A1.
Qed.

(** A member of the ring moves behind the head. *)
Lemma ring_move_wp i l L s :
  ring_ok s l -> (i < NBUF)%nat ->
  wp (ring_remove i;; ring_insert i) L s (fun _ s' => links_only s s' /\ exists l', ring_ok s' l').
Proof.
  intros Hr Hi. pose proof Hr as (Hlen & [Hnd _] & Hm). pose proof (proj2 (Hm i) Hi) as Hin.
  apply list_elem_of_split in Hin as (l1 & l2 & ->).
  assert (Hperm : HEAD :: l1 ++ i :: l2 ≡ₚ i :: HEAD :: l1 ++ l2) by solve_Permutation.
  rewrite Hperm in Hnd. apply NoDup_cons in Hnd as [Hni _].
  wsteps. eapply wpl_call; [by apply ring_remove_wp|]. intros _ s1 [Hlo Hr1].
  eapply wpl_call; [apply (ring_insert_wp i (l1 ++ l2)); try done|].
  - by rewrite (lo_len _ _ Hlo).
  - intros j Hj. apply Hm. set_solver.
  - intros _ s2 [Hlo2 Hr2]. split; [done|]. split; [by eapply links_only_trans|].
    exists (i :: l1 ++ l2). split_and!; [by rewrite (lo_len _ _ Hlo2), (lo_len _ _ Hlo)|done|].
    intros j. rewrite <- Hm. set_solver.
Qed.

Lemma brelse_wp h b L s :
  bio_ok s -> bio_held s !! h = Some b -> pinned (bio_abs s) b \/ bio_content s b = disk_block (vdisk s) b ->
  buf_free L ->
  wp (brelse h) L s (fun _ s' => bio_ok s' /\ beq (bio_abs s') (set_held (delete h (bio_held s)) (bio_abs s))).
Proof.
  intros Hok Hh Hcl HL. destruct (held_buf s h b Hok Hh) as (Hn & Hlt & Hc & Hr & Hpc & Hl1 & Hl2 & Hb).
  unfold brelse, buf_holdingsleep, buf_releasesleep, set_buf. wsteps.
  eapply wpl_call; [apply holdingsleep_wp; by apply held_unlock_free|]. intros r s1 [-> ->].
  rewrite Hl1, Hl2, Z.eqb_refl. simpl. wsteps.
  eapply wpl_call; [apply releasesleep_wp; by apply held_unlock_free|]. intros _ s1 ->.
  wstep. apply wpl_acquire; [apply HL|]. wsteps. unfold set_lock_of.
  set (s1 := on_buf h _ s).
  assert (E1 : buf_at h s1 = with_lock (mkSleep 0 (sl_name (lock_of h s)) 0) (buf_at h s)).
  { unfold s1. rewrite buf_at_on_buf by done. by rewrite decide_True. }
  rewrite E1. simpl. rewrite u32_small by (unfold NBUF in *; lia).
  set (s2 := on_buf h _ s1).
  assert (Hlt1 : (h < length (bufs s1))%nat) by (unfold s1; by rewrite length_on_buf).
  assert (E2 : buf_at h s2 = with_refcnt (b_refcnt (buf_at h s) - 1) (buf_at h s1)).
  { unfold s2. rewrite buf_at_on_buf by done. by rewrite decide_True. }
  assert (Ht : touched s s2 h (with_refcnt (b_refcnt (buf_at h s) - 1)
             (with_lock (mkSleep 0 (sl_name (lock_of h s)) 0) (buf_at h s)))).
  { eapply touched_trans; [by apply touched_on_buf|]. rewrite <- E1. by apply touched_on_buf. }
  destruct (bk_ring s Hok) as [l Hring].
  assert (Hring2 : ring_ok s2 l) by (apply ring_ok_on_buf; [by apply ring_ok_on_buf|done..]).
  rewrite E2. simpl. wcase as Hz.
  - eapply wpl_call; [by apply (ring_move_wp h l)|]. intros _ s3 [Hlo Hr3]. wsteps. split; [done|].
    apply (released_abs s s3 h b); try done; [by eapply touched_links|by rewrite (lo_disk _ _ Hlo)|by rewrite (lo_writes _ _ Hlo)].
  - wsteps. split; [done|]. apply (released_abs s s2 h b); try done. by exists l.
Qed.

(** ** bread *)

Lemma content_ok s b : bio_ok s -> block_ok (bio_content s b).
Proof.
  intros Hok. destruct (cached_dec s b) as [[i Hi]|Hno].
  - rewrite (content_cached s i b) by done. eapply bo_data, (bk_buf s Hok i). by apply lookup_buf_at, Hi.
  - rewrite content_uncached by done. apply (bk_disk s Hok).
Qed.

Lemma is_key_spec b x : is_key b x = true <-> b_dev x = ROOTDEV /\ b_blockno x = b.
Proof. unfold is_key. by rewrite andb_true_iff, !Z.eqb_eq. Qed.

(** Buffer [i] now holds block [b] for the caller; before it held the block
    already, unlocked, or it was free and no buffer held the block. *)
Section Acquired.
Context (s s' : bcache) (i : nat) (b : Z) (x : buf).
Hypothesis Hok : bio_ok s.
Hypothesis Hi : (i < length (bufs s))%nat.
Hypothesis Ht : touched s s' i x.
Hypothesis Hd : vdisk s' = vdisk s.
Hypothesis Hw : vwrites s' = vwrites s.
Hypothesis Hring : exists l, ring_ok s' l.
Hypothesis Hxd : b_dev x = ROOTDEV.
Hypothesis Hxb : b_blockno x = b.
Hypothesis Hxv : b_valid x <> 0.
Hypothesis Hxdata : b_data x = bio_content s b.
Hypothesis Hxl : sl_locked (b_lock x) = 1.
Hypothesis Hxp : sl_pid (b_lock x) = cur_pid s.
Hypothesis Hunl : sl_locked (b_lock (buf_at i s)) = 0.
Hypothesis Hxr : b_refcnt x = b_refcnt (buf_at i s) + 1.
Hypothesis Hor : is_key b (buf_at i s) = true \/
  (b_refcnt (buf_at i s) = 0 /\ forall j, (j < length (bufs s))%nat -> is_key b (buf_at j s) = false).

Lemma acquired_ok : bio_ok s'.
Proof using All.
  pose proof (bk_buf s Hok i _ (lookup_buf_at s i Hi)) as [B1 B2 B3 B4 B5 B6]. rewrite Hunl in B3.
  eapply bio_ok_touched; [done|exact Ht|done|done| |].
  - split; [by left|right; by rewrite (to_pid _ _ _ _ Ht)|lia|done|lia|]. rewrite Hxdata. by apply content_ok.
  - intros j Hj Hjl _ Hjd E. destruct Hor as [Hk|[_ Hno]].
    + apply is_key_spec in Hk as [Hk1 Hk2]. apply Hj. apply (bio_uniq s); congruence.
    + specialize (Hno j Hjl). assert (is_key b (buf_at j s) = true); [|congruence].
      apply is_key_spec. split; congruence.
Qed.

Lemma acquired_at : strip (buf_at i s') = strip x.
Proof using All. rewrite (touched_eq _ _ _ _ i Ht). by rewrite decide_True. Qed.

Lemma acquired_content b' : bio_content s' b' = bio_content s b'.
Proof using All.
  pose proof acquired_ok as Hok'. pose proof (to_len _ _ _ _ Ht) as Hlen.
  destruct (strip_fields _ _ acquired_at) as (E1 & E2 & E3 & _ & _ & E6).
  assert (Hc : cached s' i b) by (split_and!; [lia|congruence..]).
  destruct (decide (b' = b)) as [->|Hne]; [rewrite (content_cached s' i b), E6; done|].
  assert (Hn' : ~ cached s' i b') by (intros (_ & _ & E & _); congruence).
  destruct (cached_dec s b') as [[k Hk]|Hno].
  - destruct (decide (k = i)) as [->|Hki]; [|apply (content_other s s' i x); try done].
    + destruct Hk as (K1 & K2 & K3 & K4). destruct Hor as [Hkey|[Hz Hno]].
      { apply is_key_spec in Hkey as [_ ?]. congruence. }
      rewrite (content_cached s i b') by done.
      rewrite (bo_clean _ _ (bk_buf s Hok i _ (lookup_buf_at s i Hi))), K3 by done. rewrite <- Hd.
      apply content_uncached. intros j Hj. destruct (decide (j = i)) as [->|Hji]; [done|].
      apply (cached_other s s' i x j b' Ht Hji) in Hj as (J1 & J2 & J3 & _).
      apply Hji. apply (bio_uniq s); congruence.
    + intros (K1 & K2 & K3 & _). apply Hki. destruct Hk as (? & ? & ? & _). apply (bio_uniq s); congruence.
  - by apply (content_other s s' i x).
Qed.

Lemma acquired_pins : bio_pins s' = bio_pins s.
Proof using All.
  pose proof acquired_ok as Hok'. pose proof (to_len _ _ _ _ Ht) as Hlen.
  assert (Hpx : pin_count (buf_at i s') = pin_count (buf_at i s)).
  { rewrite (strip_pin_count _ _ acquired_at). unfold pin_count. rewrite Hxl, Hxr, Hunl. f_equal. lia. }
  destruct (strip_fields _ _ acquired_at) as (_ & E2 & E3 & _).
  assert (Hsame : pin_count (buf_at i s) <> O -> b_dev (buf_at i s) = ROOTDEV /\ b_blockno (buf_at i s) = b).
  { destruct Hor as [Hk|[Hz _]]; [by apply is_key_spec in Hk|]. unfold pin_count. rewrite Hz, Hunl. done. }
  apply map_eq. intros k. apply option_eq. intros n. rewrite !bio_pins_at by done. rewrite Hlen.
  split; intros (j & Hj & Hjd & Hjb & Hn & Hn0); exists j; destruct (decide (j = i)) as [->|Hji].
  - destruct Hsame as [? ?]; [congruence|]. split_and!; congruence.
  - pose proof (touched_eq _ _ _ _ j Ht) as Hs. rewrite decide_False in Hs by done.
    pose proof (strip_pin_count _ _ Hs). destruct (strip_fields _ _ Hs) as (_ & F1 & F2 & _).
    split_and!; congruence.
  - destruct Hsame as [? ?]; [congruence|]. split_and!; congruence.
  - pose proof (touched_eq _ _ _ _ j Ht) as Hs. rewrite decide_False in Hs by done.
    pose proof (strip_pin_count _ _ Hs). destruct (strip_fields _ _ Hs) as (_ & F1 & F2 & _).
    split_and!; congruence.
Qed.

Lemma acquired_abs :
  bio_ok s' /\ bio_held s !! i = None /\
  beq (bio_abs s') (set_held (<[i := b]> (bio_held s)) (bio_abs s)).
Proof using All.
  split; [by apply acquired_ok|]. split.
  - rewrite bio_held_at, decide_True by done. by rewrite decide_True.
  - split; simpl; [apply acquired_content|by rewrite Hd|done| |apply acquired_pins].
    destruct Hring as [l [Hlen _]]. rewrite (held_touched _ _ _ _ Ht), decide_False, Hxb by
      (rewrite ?Hxl, <- ?(to_len _ _ _ _ Ht); done). done.
Qed.
End Acquired.

(** What bget leaves: the buffer locked and referenced, its data possibly still
    to be read. *)
Record got (s : bcache) (b : Z) (i : nat) (s' : bcache) (x : buf) : Prop := {
  gt_lt : (i < length (bufs s))%nat;
  gt_touched : touched s s' i x;
  gt_at : buf_at i s' = x;
  gt_disk : vdisk s' = vdisk s;
  gt_writes : vwrites s' = vwrites s;
  gt_ring : exists l, ring_ok s' l;
  gt_dev : b_dev x = ROOTDEV;
  gt_blockno : b_blockno x = b;
  gt_locked : sl_locked (b_lock x) = 1;
  gt_pid : sl_pid (b_lock x) = cur_pid s;
  gt_unlocked : sl_locked (b_lock (buf_at i s)) = 0;
  gt_refcnt : b_refcnt x = b_refcnt (buf_at i s) + 1;
  gt_or : is_key b (buf_at i s) = true \/
    (b_refcnt (buf_at i s) = 0 /\ forall j, (j < length (bufs s))%nat -> is_key b (buf_at j s) = false);
  gt_valid : b_valid x <> 0 -> b_data x = bio_content s b;
  gt_invalid : b_valid x = 0 -> bio_content s b = disk_block (vdisk s) b
}.

(** The rest of bread. *)
Lemma bread_rest_wp s b i s1 x L :
  bio_ok s -> got s b i s1 x ->
  wp (b ← gets (buf_at i);
      if decide (b_valid b = 0) then virtio_disk_rw i false;; set_buf i (with_valid 1);; mret i
      else mret i) L s1 (fun h s' => bio_ok s' /\ bio_held s !! h = None /\
        beq (bio_abs s') (set_held (<[h := b]> (bio_held s)) (bio_abs s))).
Proof.
  intros Hok [G1 G2 G3 G4 G5 G6 G7 G8 G9 G10 G11 G12 G13 G14 G15]. wsteps. rewrite G3.
  pose proof (to_lt _ _ _ _ G2) as Hn. pose proof (to_len _ _ _ _ G2) as Hlen.
  wcase as Hv.
  - unfold virtio_disk_rw, set_buf. wsteps. rewrite G3. split; [done|]. rewrite G8, G4.
    set (d := disk_block (vdisk s) b).
    set (s2 := on_buf i (with_data d) s1). destruct G6 as [l Hl].
    assert (Hi1 : (i < length (bufs s1))%nat) by lia.
    assert (Hi2 : (i < length (bufs s2))%nat) by (unfold s2; by rewrite length_on_buf).
    apply (acquired_abs s _ i b (with_valid 1 (with_data d x))); try done; simpl.
    + eapply touched_trans; [exact G2|]. eapply touched_trans; [by apply touched_on_buf|].
      replace (with_data d x) with (buf_at i s2); [by apply touched_on_buf|].
      unfold s2. rewrite buf_at_on_buf by done. by rewrite decide_True, G3.
    + exists l. apply ring_ok_on_buf; [by apply ring_ok_on_buf|done..].
    + unfold d. by rewrite G15.
  - wsteps. split; [done|]. apply (acquired_abs s _ i b x); try done. by apply G14.
Qed.

(** A free buffer exists unless the blocks in use fill the cache. *)
Lemma in_use_buffer s i :
  bio_ok s -> (i < NBUF)%nat -> b_refcnt (buf_at i s) <> 0 ->
  b_dev (buf_at i s) = ROOTDEV /\ b_blockno (buf_at i s) ∈ in_use (bio_abs s).
Proof.
  intros Hok Hi Hr. destruct (bk_ring s Hok) as [l (Hlen & _)].
  assert (Hlt : (i < length (bufs s))%nat) by lia.
  pose proof (bk_buf s Hok i _ (lookup_buf_at s i Hlt)) as [B1 B2 B3 B4 B5 B6].
  destruct B1 as [B1|(_ & ? & _)]; [|done]. split; [done|]. unfold in_use. simpl.
  destruct B2 as [B2|[B2 _]].
  - apply elem_of_union_l, elem_of_dom. exists (pin_count (buf_at i s)). apply bio_pins_at; [done|].
    exists i. split_and!; try done. unfold pin_count. lia.
  - apply elem_of_union_r, elem_of_map_img. exists i. rewrite bio_held_at, decide_True by done.
    rewrite decide_False by lia. done.
Qed.

Lemma free_buffer s :
  bio_ok s -> (size (in_use (bio_abs s)) < NBUF)%nat -> exists i, (i < NBUF)%nat /\ b_refcnt (buf_at i s) = 0.
Proof.
  intros Hok Hsz. destruct (decide (Forall (fun i => b_refcnt (buf_at i s) <> 0) (seq 0 NBUF))) as [Hall|Hno].
  - exfalso. rewrite Forall_forall in Hall. destruct (bk_ring s Hok) as [l (Hlen & _)].
    set (bs := (fun i => b_blockno (buf_at i s)) <$> seq 0 NBUF).
    assert (Hnd : NoDup bs).
    { apply NoDup_fmap_2_strong; [|apply NoDup_seq]. intros i j Hi Hj E.
      pose proof (Hall i Hi). pose proof (Hall j Hj). apply elem_of_seq in Hi, Hj.
      apply (bio_uniq s); try lia; [done| |]; by apply in_use_buffer; [|lia|]. }
    assert (Hsub : (list_to_set bs : gset Z) ⊆ in_use (bio_abs s)).
    { intros b. rewrite elem_of_list_to_set. unfold bs. rewrite list_elem_of_fmap. intros (i & -> & Hi).
      pose proof (Hall i Hi). apply elem_of_seq in Hi. by apply in_use_buffer; [|lia|]. }
    apply subseteq_size in Hsub. rewrite size_list_to_set in Hsub by done.
    unfold bs in Hsub. rewrite length_fmap, length_seq in Hsub. lia.
  - apply not_Forall_Exists, Exists_exists in Hno as (i & Hi & Hz); [|apply _].
    exists i. apply elem_of_seq in Hi. split; [lia|]. by destruct (decide (b_refcnt (buf_at i s) = 0)).
Qed.

(** bget finds the block or recycles a free buffer, and locks it. *)
Lemma lock_got_wp s b i f L :
  bio_ok s -> (i < NBUF)%nat -> (i < length (bufs s))%nat -> buf_free L ->
  sl_locked (b_lock (buf_at i s)) = 0 ->
  let x := f (buf_at i s) in
  (forall y, b_next (f y) = b_next y) -> (forall y, b_prev (f y) = b_prev y) ->
  b_lock x = b_lock (buf_at i s) -> b_dev x = ROOTDEV -> b_blockno x = b ->
  b_refcnt x = b_refcnt (buf_at i s) + 1 ->
  is_key b (buf_at i s) = true \/
    (b_refcnt (buf_at i s) = 0 /\ forall j, (j < length (bufs s))%nat -> is_key b (buf_at j s) = false) ->
  (b_valid x <> 0 -> b_data x = bio_content s b) ->
  (b_valid x = 0 -> bio_content s b = disk_block (vdisk s) b) ->
  wp (buf_acquiresleep i) L (on_buf i f s) (fun _ s' => exists x, got s b i s' x).
Proof.
  intros Hok Hn Hi HL Hunl x Hnx Hpv Hxl Hxd Hxb Hxr Hor Hv Hinv.
  assert (E1 : buf_at i (on_buf i f s) = x) by (rewrite buf_at_on_buf by done; by rewrite decide_True).
  unfold buf_acquiresleep. eapply wp_mono; [apply acquiresleep_wp; [by apply held_unlock_free|]|].
  { unfold lock_of. by rewrite E1, Hxl. }
  intros _ s' ->. unfold lock_of. rewrite E1. simpl.
  set (lk := mkSleep 1 _ _). exists (with_lock lk x). destruct (bk_ring s Hok) as [l Hl].
  assert (Hi1 : (i < length (bufs (on_buf i f s)))%nat) by by rewrite length_on_buf.
  unfold set_lock_of. split; try done.
  - eapply touched_trans; [by apply touched_on_buf|]. rewrite <- E1. by apply touched_on_buf.
  - rewrite buf_at_on_buf by done. by rewrite decide_True, E1.
  - exists l. apply ring_ok_on_buf; [by apply ring_ok_on_buf|done..].
Qed.

Lemma bget_wp b L s :
  bio_ok s -> b ∉ (map_img (bio_held s) : gset Z) ->
  b ∈ in_use (bio_abs s) \/ (size (in_use (bio_abs s)) < NBUF)%nat -> buf_free L ->
  wp (bget ROOTDEV b) L s (fun h s' => exists x, got s b h s' x).
Proof.
  intros Hok Hnh Huse HL. destruct (bk_ring s Hok) as [l Hl]. pose proof Hl as (Hlen & _ & Hm).
  unfold bget. wstep. wstep. apply wpl_acquire; [apply HL|]. wstep.
  eapply wpl_call; [apply (scan_next_wp _ _ _ l Hl); by eapply ring_ok_length|]. intros r s1 [-> ->].
  change (find _ l) with (find (fun j => is_key b (buf_at j s)) l).
  destruct (find (fun j => is_key b (buf_at j s)) l) as [i|] eqn:Hf.
  - apply find_some in Hf as [Hin Hk]. apply list_elem_of_In, Hm in Hin.
    assert (Hi : (i < length (bufs s))%nat) by lia. pose proof Hk as [Hk1 Hk2]%is_key_spec.
    pose proof (bk_buf s Hok i _ (lookup_buf_at s i Hi)) as [B1 B2 B3 B4 B5 B6].
    assert (Hunl : sl_locked (b_lock (buf_at i s)) = 0).
    { destruct (decide (sl_locked (b_lock (buf_at i s)) = 0)) as [|Hne]; [done|]. destruct Hnh.
      apply elem_of_map_img. exists i. rewrite bio_held_at, decide_True by done. by rewrite decide_False, Hk2. }
    unfold set_buf. wsteps. rewrite u32_small by (unfold NBUF in *; lia).
    eapply wpl_call; [apply (lock_got_wp s b i (with_refcnt (b_refcnt (buf_at i s) + 1)) L); simpl; try done|].
    + by left.
    + intros Hv. by rewrite (content_cached s i b).
    + intros Hv. apply content_uncached. intros j (J1 & J2 & J3 & J4).
      assert (j = i) as -> by (apply (bio_uniq s); congruence). done.
    + intros _ s' [x Hg]. wsteps. split; [done|]. by exists x.
  - assert (Hno : forall j, (j < length (bufs s))%nat -> is_key b (buf_at j s) = false).
    { intros j Hj. destruct (decide (j = HEAD)) as [->|Hjh].
      - unfold is_key. by rewrite (bk_head s Hok).
      - apply (find_none _ _ Hf). apply list_elem_of_In, Hm. unfold HEAD in *. lia. }
    assert (Hsz : (size (in_use (bio_abs s)) < NBUF)%nat).
    { destruct Huse as [Hin|]; [|done]. exfalso. unfold in_use in Hin. simpl in Hin.
      apply elem_of_union in Hin as [[n Hin]%elem_of_dom|Hin]; [|done].
      apply bio_pins_at in Hin as (j & Hj & Hjd & Hjb & _); [|done].
      specialize (Hno j Hj). rewrite (proj2 (is_key_spec b (buf_at j s))) in Hno; done. }
    wstep. eapply wpl_call; [apply (scan_prev_wp _ _ _ l Hl); by eapply ring_ok_length|]. intros r s1 [-> ->].
    destruct (find (fun j => b_refcnt (buf_at j s) =? 0) (rev l)) as [i|] eqn:Hf2; last first.
    { destruct (free_buffer s Hok Hsz) as (i & Hi & Hz).
      assert (Hin : In i (rev l)) by (rewrite <- in_rev; by apply list_elem_of_In, Hm).
      pose proof (find_none _ _ Hf2 i Hin) as Hc. simpl in Hc. rewrite Hz in Hc. done. }
    apply find_some in Hf2 as [Hin Hz]. rewrite <- in_rev in Hin. apply list_elem_of_In, Hm in Hin.
    apply Z.eqb_eq in Hz. assert (Hi : (i < length (bufs s))%nat) by lia.
    pose proof (bk_buf s Hok i _ (lookup_buf_at s i Hi)) as [B1 B2 B3 B4 B5 B6].
    unfold set_buf. wsteps.
    eapply wpl_call; [apply (lock_got_wp s b i (with_key ROOTDEV b) L); simpl; try done; try lia|].
    + by right.
    + intros _. apply content_uncached. intros j (J1 & J2 & J3 & _). specialize (Hno j J1).
      rewrite (proj2 (is_key_spec b (buf_at j s))) in Hno; done.
    + intros _ s' [x Hg]. wsteps. split; [done|]. by exists x.
Qed.

Lemma bread_wp b L s :
  bio_ok s -> 0 <= b < 2 ^ 32 -> b ∉ (map_img (bio_held s) : gset Z) ->
  b ∈ in_use (bio_abs s) \/ (size (in_use (bio_abs s)) < NBUF)%nat -> buf_free L ->
  wp (bread ROOTDEV b) L s (fun h s' => bio_ok s' /\ bio_held s !! h = None /\
    beq (bio_abs s') (set_held (<[h := b]> (bio_held s)) (bio_abs s))).
Proof.
  intros Hok _ Hnh Huse HL. unfold bread. wstep. wstep. eapply wpl_call; [by apply bget_wp|].
  intros i s1 [x Hg]. eapply (bread_rest_wp s b i s1 x L Hok Hg).
Qed.

(** The scans of bget when the block is not cached. *)
Lemma miss_scan b L s l :
  ring_ok s l -> (forall j, (j < length (bufs s))%nat -> is_key b (buf_at j s) = false) ->
  forall Q, Q (None : option nat) (bcache_lock :: L) s ->
    wpl (scan (fun x => (b_dev x =? ROOTDEV) && (b_blockno x =? b)) b_next) (bcache_lock :: L) s Q.
Proof.
  intros Hl Hno Q HQ. pose proof Hl as (Hlen & _ & Hm).
  eapply wpl_call; [apply (scan_next_wp _ _ _ l Hl); by eapply ring_ok_length|]. intros r s1 [-> ->].
  change (find _ l) with (find (fun j => is_key b (buf_at j s)) l).
  destruct (find _ l) as [j|] eqn:E; [|done]. apply find_some in E as [Hin Hk].
  apply list_elem_of_In, Hm in Hin. rewrite Hno in Hk; [done|lia].
Qed.

Lemma free_scan L s l :
  ring_ok s l ->
  forall Q, Q (find (fun j => b_refcnt (buf_at j s) =? 0) (rev l)) (bcache_lock :: L) s ->
    wpl (scan (fun x => b_refcnt x =? 0) b_prev) (bcache_lock :: L) s Q.
Proof.
  intros Hl Q HQ. eapply wpl_call; [apply (scan_prev_wp _ _ _ l Hl); by eapply ring_ok_length|].
  by intros r s1 [-> ->].
Qed.

Lemma bget_full_panics b L s l :
  ring_ok s l -> (forall j, (j < length (bufs s))%nat -> is_key b (buf_at j s) = false) ->
  (forall j, (j < NBUF)%nat -> b_refcnt (buf_at j s) <> 0) -> buf_free L ->
  panics (bget ROOTDEV b) L s "bget: no buffers".
Proof.
  intros Hl Hno Hr HL. pose proof Hl as (_ & _ & Hm). unfold bget.
  apply panics_bind. apply wpl_acquire; [apply HL|]. apply panics_bind. apply (miss_scan b L s l Hl Hno).
  apply panics_bind. apply (free_scan L s l Hl).
  destruct (find _ (rev l)) as [i|] eqn:E; [|done]. apply find_some in E as [Hin Hz].
  rewrite <- in_rev in Hin. apply list_elem_of_In, Hm in Hin. apply Z.eqb_eq in Hz. by destruct (Hr i Hin).
Qed.

Lemma buf_blockno_wp h b L s :
  bio_ok s -> bio_held s !! h = Some b -> wp (buf_blockno h) L s (fun r s' => s' = s /\ r = b).
Proof.
  intros Hok Hh. destruct (held_buf s h b Hok Hh) as (_ & _ & (_ & _ & Hb & _) & _).
  unfold buf_blockno. wsteps. by split_and!.
Qed.

Lemma size_list_to_set_le (l : list Z) : (size (list_to_set l : gset Z) <= length l)%nat.
Proof.
  induction l as [|x l IH]; simpl; [done|]. rewrite size_union_alt, size_singleton.
  pose proof (subseteq_size (list_to_set l ∖ {[x]} : gset Z) (list_to_set l) ltac:(set_solver)). lia.
Qed.

(** With a free buffer fewer than NBUF blocks are in use. *)
Lemma in_use_free s i :
  bio_ok s -> (i < NBUF)%nat -> b_refcnt (buf_at i s) = 0 -> (size (in_use (bio_abs s)) < NBUF)%nat.
Proof.
  intros Hok Hi Hz. destruct (bk_ring s Hok) as [l (Hlen & _)].
  set (others := filter (fun j => j <> i) (seq 0 NBUF)).
  assert (Hsub : in_use (bio_abs s) ⊆ list_to_set ((fun j => b_blockno (buf_at j s)) <$> others)).
  { intros b Hb. assert (Hj : exists j, (j < length (bufs s))%nat /\ b_refcnt (buf_at j s) <> 0 /\
      b_dev (buf_at j s) <> 0 /\ b_blockno (buf_at j s) = b).
    { unfold in_use in Hb. simpl in Hb. apply elem_of_union in Hb as [[n Hb]%elem_of_dom|[j Hb]%elem_of_map_img].
      - apply bio_pins_at in Hb as (j & Hj & Hd & Hjb & Hn & Hn0); [|done]. exists j.
        split_and!; [done| |by rewrite Hd|done]. unfold pin_count in Hn.
        destruct (bk_buf s Hok j _ (lookup_buf_at s j Hj)) as [_ [B2|[B2 _]] B3 _ _ _]; lia.
      - destruct (held_buf s j b Hok Hb) as (_ & Hj & (_ & Hd & Hjb & _) & Hr & _). exists j.
        split_and!; [done|lia|by rewrite Hd|done]. }
    destruct Hj as (j & Hj & Hr & Hd & <-). apply elem_of_list_to_set, list_elem_of_fmap. exists j.
    split; [done|]. apply list_elem_of_filter. split; [congruence|]. apply elem_of_seq.
    assert (j <> HEAD) by (intros ->; by rewrite (bk_head s Hok) in Hd). unfold HEAD in *. lia. }
  apply subseteq_size in Hsub. eapply Nat.le_lt_trans; [exact Hsub|].
  eapply Nat.le_lt_trans; [apply size_list_to_set_le|]. rewrite length_fmap. unfold others.
  pose proof (length_filter_lt (fun j => j <> i) (seq 0 NBUF) i) as Hlt. rewrite length_seq in Hlt.
  apply Hlt; [apply elem_of_seq; lia|tauto].
Qed.

Lemma bread_full_panics b L s :
  bio_ok s -> b ∉ in_use (bio_abs s) -> size (in_use (bio_abs s)) = NBUF -> buf_free L ->
  panics (bread ROOTDEV b) L s "bget: no buffers".
Proof.
  intros Hok Hb Hsz HL. apply panics_head. destruct (bk_ring s Hok) as [l Hl].
  pose proof Hl as (Hlen & _ & Hm).
  assert (Hr : forall j, (j < NBUF)%nat -> b_refcnt (buf_at j s) <> 0).
  { intros j Hj Hz. pose proof (in_use_free s j Hok Hj Hz). lia. }
  apply (bget_full_panics b L s l); try done.
  intros j Hj. destruct (is_key b (buf_at j s)) eqn:Hk; [|done]. apply is_key_spec in Hk as [Hd <-].
  destruct Hb. apply in_use_buffer; [done| |]; assert (j < NBUF)%nat; try done; try (by apply Hr).
  all: assert (j <> HEAD) by (intros ->; by rewrite (bk_head s Hok) in Hd); unfold HEAD in *; lia.
Qed.

(** kernel/bio.c implements the buffer-cache interface. *)
#[export] Program Instance bio_cache : BufCache bcache := {|
  Block.bread := bread;
  Block.bdata := buf_load;
  Block.bstore := buf_store;
  Block.bblockno := buf_blockno;
  Block.bwrite := bwrite;
  Block.brelse := brelse;
  Block.bpin := bpin;
  Block.bunpin := bunpin;
  babs_of := bio_abs;
  bok := bio_ok
|}.
Next Obligation. intros s b Hok. split; [by apply content_ok|apply (bk_disk s Hok)]. Qed.
Next Obligation. intros b L s A. exact (bread_wp b L s). Qed.
Next Obligation. intros b L s A. exact (bread_full_panics b L s). Qed.
Next Obligation. exact buf_load_wp. Qed.
Next Obligation. exact buf_blockno_wp. Qed.
Next Obligation. exact buf_store_wp. Qed.
Next Obligation. exact bwrite_wp. Qed.
Next Obligation. intros h b L s A. exact (brelse_wp h b L s). Qed.
Next Obligation. intros h b L s A. exact (bpin_wp h b L s). Qed.
Next Obligation. intros h b L s A. exact (bunpin_wp h b L s). Qed.

(** ** Boot *)

Definition boot (d : gmap Z block) (pid : Z) : bcache := mkBcache (replicate (S NBUF) zero_buf) d [] pid.

(** The ring after binit: the buffers in descending order. *)
Definition boot_order : list nat := rev (seq 0 NBUF).
Definition boot_bufs : list buf :=
  ((fun i => mkBuf 0 0 0 (initsleeplock "buffer") 0
      (if decide (i = 29%nat) then HEAD else S i) (if decide (i = O) then HEAD else pred i) zero_block)
     <$> seq 0 NBUF) ++ [mkBuf 0 0 0 (mkSleep 0 "" 0) 0 0 29 zero_block].

Lemma binit_run L d pid : binit L (boot d pid) = Ok tt L (mkBcache boot_bufs d [] pid).
Proof. reflexivity. Qed.

Lemma boot_ring d pid : ring_ok (mkBcache boot_bufs d [] pid) boot_order.
Proof.
  split; [done|]. split; [split|].
  - apply (bool_decide_unpack _). by vm_compute.
  - vm_compute. repeat split.
  - intros i. unfold boot_order. rewrite list_elem_of_In, <- in_rev, <- list_elem_of_In, elem_of_seq. lia.
Qed.

Lemma boot_buf i x : boot_bufs !! i = Some x ->
  b_dev x = 0 /\ b_refcnt x = 0 /\ b_valid x = 0 /\ sl_locked (b_lock x) = 0 /\ b_data x = zero_block.
Proof.
  intros Hx%list_elem_of_lookup_2. unfold boot_bufs in Hx. apply elem_of_app in Hx as [Hx|Hx].
  - apply list_elem_of_fmap in Hx as (j & -> & _). done.
  - apply list_elem_of_singleton in Hx as ->. done.
Qed.

Lemma binit_wp L d pid :
  (forall b, block_ok (disk_block d b)) ->
  wp binit L (boot d pid) (fun _ s' => bio_ok s' /\ bio_held s' = ∅ /\ bio_pins s' = ∅ /\
    forall b, bio_content s' b = disk_block d b).
Proof.
  intros Hd. unfold wp, wpl. rewrite binit_run. split; [done|].
  set (s' := mkBcache boot_bufs d [] pid).
  assert (Hok : bio_ok s').
  { split; [exists boot_order; apply boot_ring|done| | |done].
    - intros i x Hx. destruct (boot_buf i x Hx) as (H1 & H2 & H3 & H4 & H5).
      split; rewrite ?H1, ?H2, ?H3, ?H4, ?H5; try done; [by right|by left|]. apply zero_block_ok.
    - intros i j x y Hx _ Hdx. destruct (boot_buf i x Hx) as (H1 & _). by rewrite H1 in Hdx. }
  split; [done|]. split_and!.
  - apply map_empty. intros i. destruct (bio_held s' !! i) as [b|] eqn:E; [|done].
    apply bio_held_lookup in E as (x & Hx & Hl & _). by destruct (boot_buf i x Hx) as (_ & _ & _ & ? & _).
  - apply map_empty. intros b. destruct (bio_pins s' !! b) as [n|] eqn:E; [|done].
    apply bio_pins_lookup in E as (i & x & Hx & Hdx & _); [|done].
    destruct (boot_buf i x Hx) as (H1 & _). by rewrite H1 in Hdx.
  - intros b. apply content_uncached. intros i (Hi & Hdx & _).
    destruct (boot_buf i (buf_at i s')) as (H1 & _); [by apply (lookup_buf_at s')|by rewrite H1 in Hdx].
Qed.

(** binit builds a well-formed cache: every buffer is in the ring, none in
    use, and the contents the kernel sees are those of the disk. *)
Theorem binit_correct L d pid :
  (forall b, block_ok (disk_block d b)) ->
  wp binit L (boot d pid) (fun _ s' => bio_ok s' /\ bio_held s' = ∅ /\ bio_pins s' = ∅ /\
    forall b, bio_content s' b = disk_block d b).
Proof. exact (binit_wp L d pid). Qed.

(** Reading a block through the cache is transparent: bread hands out the
    contents the kernel sees, cached or from the disk, and after brelse the
    abstract state is what it was, whatever buffer was recycled on the way. *)
Theorem bread_brelse_roundtrip b L s :
  bio_ok s -> 0 <= b < 2 ^ 32 -> bio_held s = ∅ ->
  pinned (bio_abs s) b \/ bio_content s b = disk_block (vdisk s) b ->
  b ∈ in_use (bio_abs s) \/ (size (in_use (bio_abs s)) < NBUF)%nat -> buf_free L ->
  wp (h ← bread ROOTDEV b; d ← buf_load h; brelse h;; mret d) L s (fun d s' =>
    d = bio_content s b /\ bio_ok s' /\ beq (bio_abs s') (bio_abs s)).
Proof.
  intros Hok Hb Hh Hcl Hu HL. wstep. wstep.
  eapply wpl_call; [apply bread_wp; try done; rewrite Hh; set_solver|].
  intros h s1 (Hok1 & Hn & [C1 D1 W1 H1 P1]). simpl in *.
  assert (Hh1 : bio_held s1 !! h = Some b) by (rewrite H1; apply lookup_insert_eq).
  wstep. eapply wpl_call; [by apply buf_load_wp|]. intros d s2 [-> ->]. wstep.
  eapply wpl_call; [apply (brelse_wp h b); try done|].
  { unfold pinned in *. simpl in *. rewrite P1, C1, D1. done. }
  intros _ s3 (Hok3 & [C3 D3 W3 H3 P3]). simpl in *. wsteps. split; [done|]. split; [apply C1|]. split; [done|].
  split; simpl; [intros x; by rewrite C3, C1|intros x; by rewrite D3, D1|congruence| |congruence].
  rewrite H3, H1. by apply delete_insert_id.
Qed.

(** A block that is not cached recycles the least recently used free buffer
    of the ring; when every buffer is in use bget panics. *)
Theorem bget_recycles_lru b L s l :
  bio_ok s -> ring_ok s l -> (forall j, (j < length (bufs s))%nat -> is_key b (buf_at j s) = false) ->
  buf_free L ->
  match find (fun j => b_refcnt (buf_at j s) =? 0) (rev l) with
  | Some i => wp (bget ROOTDEV b) L s (fun h s' => h = i /\ forall j, j <> i ->
      strip (buf_at j s') = strip (buf_at j s))
  | None => panics (bget ROOTDEV b) L s "bget: no buffers"
  end.
Proof.
  intros Hok Hl Hno HL. pose proof Hl as (Hlen & _ & Hm). pose proof (ring_ok_length s l Hl) as Hll.
  pose proof (miss_scan b L s l Hl Hno) as Hs1. pose proof (free_scan L s l Hl) as Hs2.
  unfold bget. destruct (find (fun j => b_refcnt (buf_at j s) =? 0) (rev l)) as [i|] eqn:Hf2.
  - apply find_some in Hf2 as [Hin Hz]. rewrite <- in_rev in Hin. apply list_elem_of_In, Hm in Hin.
    apply Z.eqb_eq in Hz. assert (Hi : (i < length (bufs s))%nat) by lia.
    pose proof (bk_buf s Hok i _ (lookup_buf_at s i Hi)) as [B1 B2 B3 B4 B5 B6].
    wstep. wstep. apply wpl_acquire; [apply HL|]. wstep. apply Hs1. wstep. apply Hs2.
    unfold set_buf. wsteps.
    eapply wpl_call; [apply (lock_got_wp s b i (with_key ROOTDEV b) L); simpl; try done; try lia|].
    + by right.
    + intros _. apply content_uncached. intros j (J1 & J2 & J3 & _). specialize (Hno j J1).
      rewrite (proj2 (is_key_spec b (buf_at j s))) in Hno; done.
    + intros _ s' [x Hg]. wsteps. split; [done|]. split; [done|]. intros j Hj.
      rewrite (touched_eq _ _ _ _ j (gt_touched _ _ _ _ _ Hg)). by rewrite decide_False.
  - apply (bget_full_panics b L s l); try done. intros j Hj Hz.
    assert (Hin : In j (rev l)) by (rewrite <- in_rev; by apply list_elem_of_In, Hm).
    pose proof (find_none _ _ Hf2 j Hin) as Hc. simpl in Hc. by rewrite Hz in Hc.
Qed.

(** ** Witnesses, on a freshly booted cache *)
Lemma boot_disk_ok b : block_ok (disk_block ∅ b).
Proof. apply zero_block_ok. Qed.

Lemma binit_correct_witness :
  wp binit [] (boot ∅ 1) (fun _ s' => bio_ok s' /\ bio_held s' = ∅ /\ bio_pins s' = ∅ /\
    forall b, bio_content s' b = disk_block ∅ b).
Proof. apply (binit_correct [] ∅ 1). apply boot_disk_ok. Defined.

Definition booted : bcache := mkBcache boot_bufs ∅ [] 1.

Lemma booted_ok : bio_ok booted /\ bio_held booted = ∅ /\ bio_pins booted = ∅ /\
  forall b, bio_content booted b = disk_block ∅ b.
Proof.
  destruct (wp_exists _ _ _ _ (binit_wp [] ∅ 1 boot_disk_ok)) as ([] & s' & Hrun & Hs).
  rewrite binit_run in Hrun. injection Hrun as <-. exact Hs.
Qed.

Lemma buf_free_nil : buf_free [].
Proof. split; [|intros i]; apply not_elem_of_nil. Qed.

Lemma bread_brelse_roundtrip_witness :
  wp (h ← bread ROOTDEV 5; d ← buf_load h; brelse h;; mret d) [] booted (fun d s' =>
    d = bio_content booted 5 /\ bio_ok s' /\ beq (bio_abs s') (bio_abs booted)).
Proof.
  destruct booted_ok as (Hok & Hh & Hp & Hc).
  apply (bread_brelse_roundtrip 5 [] booted Hok); [done|done|right; apply Hc| |apply buf_free_nil].
  right. unfold in_use. simpl. rewrite Hh, Hp. vm_compute. lia.
Defined.

Lemma bget_recycles_lru_witness :
  wp (bget ROOTDEV 5) [] booted (fun h s' => h = 0%nat /\ forall j, j <> 0%nat ->
      strip (buf_at j s') = strip (buf_at j booted)).
Proof.
  apply (bget_recycles_lru 5 [] booted boot_order); [apply booted_ok|apply boot_ring| |apply buf_free_nil].
  intros j Hj. unfold is_key. by rewrite (proj1 (boot_buf j _ (lookup_buf_at booted j Hj))).
Defined.
