(* ===== verification/Log.v ===== *)
(** The write-ahead log, kernel/log.c, over the buffer-cache interface of Block;
    and crash safety: whatever prefix of the disk writes of a commit survives a
    crash, recovery makes the transaction happen entirely or not at all. *)
From S2P Require Import Prelude UserIface Block.
Local Open Scope Z_scope.

(** * Data *)
Record log := mkLog {
  lg_start : Z;
  outstanding : Z;
  committing : bool;
  lg_dev : Z;
  lh_n : Z;
  lh_block : list Z
}.

Record lstate (B : Type) := mkLstate { lg : log; bc : B }.
Arguments mkLstate {B}.
Arguments lg {B}.
Arguments bc {B}.

#[export] Program Instance lstate_bc B : Lens (lstate B) B := {
  view := bc;
  over c s := mkLstate (lg s) c
}.
Next Obligation. done. Qed.
Next Obligation. by intros B []. Qed.
Next Obligation. done. Qed.

Definition with_n (n : Z) (l : log) : log :=
  mkLog (lg_start l) (outstanding l) (committing l) (lg_dev l) n (lh_block l).
Definition with_block (i : nat) (b : Z) (l : log) : log :=
  mkLog (lg_start l) (outstanding l) (committing l) (lg_dev l) (lh_n l) (<[i := b]> (lh_block l)).
Definition with_outstanding (n : Z) (l : log) : log :=
  mkLog (lg_start l) n (committing l) (lg_dev l) (lh_n l) (lh_block l).
Definition with_committing (c : bool) (l : log) : log :=
  mkLog (lg_start l) (outstanding l) c (lg_dev l) (lh_n l) (lh_block l).

(** ** The header block: [n], then the block numbers *)
Definition head_n (d : block) : Z := s32 (get_le 4 0 d).
Definition head_block (i : nat) (d : block) : Z := s32 (get_le 4 (4 + 4 * i) d).
Definition put_n (n : Z) (d : block) : block := put_le 4 0 n d.
Definition put_block (i : nat) (b : Z) (d : block) : block := put_le 4 (4 + 4 * i) b d.

(** * The operations *)
Section Operations.
Context {B : Type} `{BufCache B}.
Local Abbreviation LM := (M (lstate B)).

Definition on_log (f : log -> log) : LM unit := modify (fun s => mkLstate (f (lg s)) (bc s)).

(** [log.lh.block[i]]; an index past the array is undefined. *)
Definition get_block (i : nat) : LM Z :=
  l ← gets lg;
  match lh_block l !! i with Some b => mret b | None => undef "lh.block" end.
Definition set_block (i : nat) (b : Z) : LM unit :=
  l ← gets lg;
  if decide (i < length (lh_block l))%nat then on_log (with_block i b) else undef "lh.block".

Definition install_trans_body (recovering : bool) (tail : nat) : LM (nat + unit) :=
  l ← gets lg;
  if decide (Z.of_nat tail < lh_n l) then
    lbuf ← zoom (bread (lg_dev l) (u32 (lg_start l + Z.of_nat tail + 1)));
    b ← get_block tail;
    dbuf ← zoom (bread (lg_dev l) (u32 b));
    d ← zoom (bdata lbuf);
    zoom (bstore dbuf d);;
    zoom (bwrite dbuf);;
    (if recovering then mret tt else zoom (bunpin dbuf));;
    zoom (brelse lbuf);;
    zoom (brelse dbuf);;
    mret (inl (S tail))
  else mret (inr tt).

Definition install_trans (recovering : bool) : LM unit :=
  l ← gets lg;
  loop (S (Z.to_nat (lh_n l))) (install_trans_body recovering) O.

Definition read_head_body (d : block) (i : nat) : LM (nat + unit) :=
  l ← gets lg;
  if decide (Z.of_nat i < lh_n l) then set_block i (head_block i d);; mret (inl (S i))
  else mret (inr tt).

Definition read_head : LM unit :=
  l ← gets lg;
  buf ← zoom (bread (lg_dev l) (u32 (lg_start l)));
  d ← zoom (bdata buf);
  on_log (with_n (head_n d));;
  l ← gets lg;
  loop (S (Z.to_nat (lh_n l))) (read_head_body d) O;;
  zoom (brelse buf).

Definition write_head_body (buf : nat) (i : nat) : LM (nat + unit) :=
  l ← gets lg;
  if decide (Z.of_nat i < lh_n l) then
    b ← get_block i;
    d ← zoom (bdata buf);
    zoom (bstore buf (put_block i b d));;
    mret (inl (S i))
  else mret (inr tt).

Definition write_head : LM unit :=
  l ← gets lg;
  buf ← zoom (bread (lg_dev l) (u32 (lg_start l)));
  d ← zoom (bdata buf);
  zoom (bstore buf (put_n (lh_n l) d));;
  loop (S (Z.to_nat (lh_n l))) (write_head_body buf) O;;
  zoom (bwrite buf);;
  zoom (brelse buf).

Definition recover_from_log : LM unit :=
  read_head;;
  install_trans true;;
  on_log (with_n 0);;
  write_head.

(** [sizeof(struct logheader)] is 4 + 4 * LOGBLOCKS; the test cannot fail. *)
Definition initlog (dev logstart : Z) : LM unit :=
  if decide (Z.of_nat BSIZE <= 4 + 4 * Z.of_nat LOGBLOCKS) then panic "initlog: too big logheader"
  else
    on_log (fun l => mkLog (s32 logstart) (outstanding l) (committing l) dev (lh_n l) (lh_block l));;
    recover_from_log.

(** begin_op sleeps while a commit is under way or the log could overflow. *)
Definition begin_op_waits (l : log) : bool :=
  committing l || bool_decide (Z.of_nat LOGBLOCKS < lh_n l + (outstanding l + 1) * MAXOPBLOCKS).

Definition begin_op : LM unit :=
  acquire log_lock;;
  l ← gets lg;
  if begin_op_waits l then blocked "begin_op"
  else
    on_log (with_outstanding (outstanding l + 1));;
    release log_lock.

Definition write_log_body (tail : nat) : LM (nat + unit) :=
  l ← gets lg;
  if decide (Z.of_nat tail < lh_n l) then
    to ← zoom (bread (lg_dev l) (u32 (lg_start l + Z.of_nat tail + 1)));
    b ← get_block tail;
    from ← zoom (bread (lg_dev l) (u32 b));
    d ← zoom (bdata from);
    zoom (bstore to d);;
    zoom (bwrite to);;
    zoom (brelse from);;
    zoom (brelse to);;
    mret (inl (S tail))
  else mret (inr tt).

Definition write_log : LM unit :=
  l ← gets lg;
  loop (S (Z.to_nat (lh_n l))) write_log_body O.

Definition commit : LM unit :=
  l ← gets lg;
  if decide (lh_n l > 0) then
    write_log;;
    write_head;;
    install_trans false;;
    on_log (with_n 0);;
    write_head
  else mret tt.

Definition end_op : LM unit :=
  acquire log_lock;;
  l ← gets lg;
  on_log (with_outstanding (outstanding l - 1));;
  if committing l then panic "log.committing"
  else
    let do_commit := bool_decide (outstanding l - 1 = 0) in
    (if do_commit then on_log (with_committing true) else mret tt);;
    release log_lock;;
    if do_commit then
      commit;;
      acquire log_lock;;
      on_log (with_committing false);;
      release log_lock
    else mret tt.

(** The scan of log_write: the first of the [lh_n] entries equal to [b], or
    [lh_n]. *)
Definition log_find (l : log) (b : Z) : nat :=
  default (Z.to_nat (lh_n l)) (find_idx (fun x => u32 x =? b) (take (Z.to_nat (lh_n l)) (lh_block l))).

Definition log_write (h : nat) : LM unit :=
  acquire log_lock;;
  l ← gets lg;
  if decide (lh_n l >= Z.of_nat LOGBLOCKS) then panic "too big a transaction"
  else if decide (outstanding l < 1) then panic "log_write outside of trans"
  else
    b ← zoom (bblockno h);
    let i := log_find l b in
    set_block i (s32 b);;
    (if decide (Z.of_nat i = lh_n l) then zoom (bpin h);; on_log (with_n (lh_n l + 1)) else mret tt);;
    release log_lock.
End Operations.

(** * Steps of the buffer cache inside the log's state *)
Section Steps.
Context {B : Type} `{BufCache B}.
Implicit Types (s : lstate B) (L : list lock) (A : babs).

Definition abs s : babs := babs_of (bc s).

Lemma zoom_bc_wp {X} (m : M B X) L s (Q : X -> B -> Prop) :
  wp m L (bc s) Q -> wp (zoom m) L s (fun r s' => lg s' = lg s /\ Q r (bc s')).
Proof.
  intros Hm. eapply wp_mono; [by apply zoom_wp|]. intros r s' (c & -> & HQ). by split.
Qed.

(** Block [b] was set to [v] and written to the disk; nothing else changed but
    the pins. *)
Record stored A A' (b : Z) (v : block) : Prop := {
  st_content : forall x, content A' x = upd (content A) b v x;
  st_disk : forall x, disk A' x = upd (disk A) b v x;
  st_writes : writes A' = writes A ++ [(b, v)];
  st_held : held A' = held A
}.

Lemma upd_eq f b v : upd f b v b = v.
Proof. unfold upd. by rewrite decide_True. Qed.
Lemma upd_ne f b v x : x <> b -> upd f b v x = f x.
Proof. intros. unfold upd. by rewrite decide_False. Qed.

Lemma in_use_held A : held A = ∅ -> in_use A = dom (pins A).
Proof. intros E. unfold in_use. rewrite E. set_solver. Qed.

Lemma not_held (x : Z) A : held A = ∅ -> x ∉ (map_img (held A) : gset Z).
Proof. intros ->. set_solver. Qed.

Lemma not_held1 (x y : Z) (h : nat) A : held A = {[h := y]} -> x <> y -> x ∉ (map_img (held A) : gset Z).
Proof. intros -> Hne. rewrite map_img_singleton_L. set_solver. Qed.

Lemma get_block_wp i b L s :
  lh_block (lg s) !! i = Some b -> wp (get_block i) L s (fun r s' => s' = s /\ r = b).
Proof. intros Hb. unfold get_block. wsteps. rewrite Hb. by wsteps. Qed.

Lemma beq_trans A1 A2 A3 : beq A1 A2 -> beq A2 A3 -> beq A1 A3.
Proof. intros [C1 D1 W1 H1 P1] [C2 D2 W2 H2 P2]. split; try congruence; intros; by rewrite ?C1, ?D1. Qed.

Lemma write_content_mono b v A A' : beq A A' ->
  beq (write_disk b (set_content b v A)) (write_disk b (set_content b v A')).
Proof. intros [C1 D1 W1 H1 P1]. split; simpl; unfold upd; intros; rewrite ?decide_True, ?C1, ?D1, ?W1 by done; done. Qed.

(** Copying the held block [bu] to the held block [bv] and writing that. *)
Lemma copy_wpl u v bu bv (k : unit -> M (lstate B) (nat + unit)) L s Q :
  bok (bc s) -> buf_free L -> held (abs s) !! u = Some bu -> held (abs s) !! v = Some bv ->
  (forall s', lg s' = lg s -> bok (bc s') ->
    beq (abs s') (write_disk bv (set_content bv (content (abs s) bu) (abs s))) -> wpl (k tt) L s' Q) ->
  wpl (d ← zoom (bdata u); zoom (bstore v d) ≫= fun _ => zoom (bwrite v) ≫= k) L s Q.
Proof.
  intros Hok HL Hu Hv Hk.
  wstep. eapply wpl_call; [by apply zoom_bc_wp, bdata_spec|]. intros d s1 (Hl1 & E1 & ->).
  wstep. eapply wpl_call; [apply zoom_bc_wp, (bstore_spec v bv); rewrite ?E1; try done; by apply bok_block|].
  intros _ s2 (Hl2 & Hok2 & E2). rewrite E1 in E2.
  wstep. eapply wpl_call; [apply zoom_bc_wp, (bwrite_spec v bv); [done|by rewrite (beq_held _ _ E2)|done]|].
  intros [] s3 (Hl3 & Hok3 & E3). apply Hk; [congruence|done|]. eapply beq_trans; [exact E3|].
  destruct E2 as [C D W H2 P]. split; simpl in *; intros; unfold upd; by rewrite ?C, ?D, ?W.
Qed.

Lemma size_union_1 (X : gset Z) b : (size (X ∪ {[b]}) <= S (size X))%nat.
Proof.
  rewrite size_union_alt. pose proof (subseteq_size ({[b]} ∖ X) {[b]}) as Hs.
  rewrite size_singleton in Hs. specialize (Hs ltac:(set_solver)). lia.
Qed.

(** A buffer can be released when its block is pinned or on the disk. *)
Definition clean A (x : Z) : Prop := pinned A x \/ content A x = disk A x.

Lemma close_wp tail h1 b1 h2 b2 L s1 :
  bok (bc s1) -> buf_free L -> h1 <> h2 -> held (abs s1) = <[h1 := b1]> {[h2 := b2]} -> clean (abs s1) b1 -> clean (abs s1) b2 ->
  wp (zoom (brelse h1) ≫= fun _ => zoom (brelse h2) ≫= fun _ => mret (inl (S tail) : nat + unit)) L s1 (fun r s' =>
    r = inl (S tail) /\ lg s' = lg s1 /\ bok (bc s') /\ beq (abs s') (set_held ∅ (abs s1))).
Proof.
  intros Hok1 HL Hh E1 Hc1 Hc2. wstep. wstep.
  eapply wpl_call; [apply zoom_bc_wp, (brelse_spec h1 b1); try done; fold (abs s1); by rewrite E1, lookup_insert_eq|].
  intros _ s2 (Hl2 & Hok2 & E2). fold (abs s1) (abs s2) in E2. destruct E2 as [C2 D2 W2 H2 P2]. simpl in *.
  rewrite E1, delete_insert_id in H2 by by apply lookup_singleton_ne.
  wstep. eapply wpl_call.
  { apply zoom_bc_wp, (brelse_spec h2 b2); try done; fold (abs s2); [by rewrite H2, lookup_singleton_eq|].
    unfold pinned. by rewrite C2, D2, P2. }
  intros _ s3 (Hl3 & Hok3 & E3). fold (abs s2) (abs s3) in E3. destruct E3 as [C3 D3 W3 H3 P3]. simpl in *.
  wsteps. split_and!; try done; [congruence|]. split; simpl; intros; rewrite ?C3, ?D3, ?W3, ?P3; try done.
  rewrite H3, H2. apply delete_singleton_eq.
Qed.
Section Copy.
Context (L : list lock) (s : lstate B) (tail : nat) (b start : Z).
Hypothesis Hok : bok (bc s).
Hypothesis Hheld : held (abs s) = ∅.
Hypothesis Hdev : lg_dev (lg s) = ROOTDEV.
Hypothesis Hstart : lg_start (lg s) = start.
Hypothesis Hrange : 0 <= start /\ start + Z.of_nat LOGBLOCKS + 1 < 2 ^ 31.
Hypothesis Htail : Z.of_nat tail < lh_n (lg s) <= Z.of_nat LOGBLOCKS.
Hypothesis Hblk : lh_block (lg s) !! tail = Some b.
Hypothesis Hb : 0 <= b < 2 ^ 31.
Hypothesis HL : buf_free L.

Let lb : Z := start + Z.of_nat tail + 1.
Hypothesis Hne : b <> lb.

Lemma lb_u32 : u32 lb = lb.
Proof using All. apply u32_small. unfold lb, LOGBLOCKS in *. lia. Qed.
Lemma b_u32 : u32 b = b.
Proof using All. apply u32_small. lia. Qed.

(** Both bodies begin by opening the log block and the home block. *)
Lemma open_wpl (k : nat -> nat -> M (lstate B) (nat + unit)) Q :
  (size (dom (pins (abs s))) < NBUF)%nat ->
  pinned (abs s) b \/ (S (size (dom (pins (abs s)))) < NBUF)%nat ->
  (forall x y s', x <> y -> lg s' = lg s -> bok (bc s') ->
    beq (abs s') (set_held (<[y := b]> {[x := lb]}) (abs s)) -> wpl (k x y) L s' Q) ->
  wpl (x ← zoom (bread (lg_dev (lg s)) (u32 (lg_start (lg s) + Z.of_nat tail + 1)));
       b' ← get_block tail; y ← zoom (bread (lg_dev (lg s)) (u32 b')); k x y) L s Q.
Proof using All.
  intros Hsz Hpin Hk. rewrite Hdev, Hstart. fold lb. rewrite lb_u32. wstep. eapply wpl_call.
  { apply zoom_bc_wp, bread_spec; [done|unfold lb, LOGBLOCKS in *; lia|by apply not_held| |done].
    right. by rewrite in_use_held. }
  intros x s1 (Hl1 & Hok1 & _ & E1). fold (abs s1) (abs s) in E1. pose proof (beq_held _ _ E1) as H1.
  pose proof (beq_pins _ _ E1) as P1. simpl in H1, P1. rewrite Hheld in H1.
  wstep. eapply wpl_call; [apply (get_block_wp tail b); by rewrite Hl1|]. intros b' s1' [-> ->]. rewrite b_u32.
  wstep. eapply wpl_call.
  { apply zoom_bc_wp, bread_spec; [done|lia|by eapply not_held1| |done]. fold (abs s1). unfold in_use.
    rewrite P1, H1. destruct Hpin as [Hpin|Hpin]; [left; by apply elem_of_union_l, elem_of_dom|right].
    rewrite insert_empty, map_img_singleton_L. eapply Nat.le_lt_trans; [apply size_union_1|done]. }
  intros y s2 (Hl2 & Hok2 & Hy & E2). fold (abs s2) (abs s1) in E2, Hy. apply Hk; [|congruence|done|].
  - intros ->. by rewrite H1, lookup_insert_eq in Hy.
  - eapply beq_trans; [exact E2|]. destruct E1. split; simpl in *; try done. by rewrite H1, insert_empty.
Qed.

Lemma write_log_step :
  pinned (abs s) b -> (size (dom (pins (abs s))) < NBUF)%nat ->
  wp (write_log_body tail) L s (fun r s' => r = inl (S tail) /\ lg s' = lg s /\ bok (bc s') /\
    stored (abs s) (abs s') lb (content (abs s) b) /\ pins (abs s') = pins (abs s)).
Proof using All.
  intros Hpin Hsz. unfold write_log_body. wstep. wstep. wstep. wtrue; [|lia].
  apply open_wpl; [done|by left|]. intros x y s1 Hxy Hl1 Hok1 E1.
  apply (copy_wpl y x b lb); [done|done| | |].
  { rewrite (beq_held _ _ E1). apply lookup_insert_eq. }
  { rewrite (beq_held _ _ E1). simpl. rewrite lookup_insert_ne by done. apply lookup_singleton_eq. }
  intros s2 Hl2 Hok2 E2. rewrite (beq_content _ _ E1) in E2. simpl in E2.
  assert (E : beq (abs s2) (write_disk lb (set_content lb (content (abs s) b) (set_held (<[y := b]> {[x := lb]}) (abs s))))).
  { eapply beq_trans; [exact E2|by apply write_content_mono]. }
  destruct E as [C D W Hh P]. simpl in *. eapply wpl_call.
  { apply (close_wp tail y b x lb); try done.
    - left. unfold pinned. by rewrite P.
    - right. by rewrite C, D, !upd_eq. }
  intros r s3 (-> & Hl3 & Hok3 & [C3 D3 W3 H3 P3]). simpl in *. split_and!; try done; [congruence| |congruence].
  split; intros; rewrite ?C3, ?D3, ?W3, ?H3, ?C, ?D, ?W, ?upd_eq; done.
Qed.

Lemma install_step (recovering : bool) :
  (size (dom (pins (abs s))) < NBUF)%nat ->
  (if recovering then pins (abs s) = ∅ else pinned (abs s) b) ->
  content (abs s) lb = disk (abs s) lb ->
  wp (install_trans_body recovering tail) L s (fun r s' => r = inl (S tail) /\ lg s' = lg s /\ bok (bc s') /\
    stored (abs s) (abs s') b (content (abs s) lb) /\
    pins (abs s') = if recovering then pins (abs s) else unpin b (pins (abs s))).
Proof using All.
  intros Hsz Hpin Hcl. unfold install_trans_body. wstep. wstep. wstep. wtrue; [|lia].
  apply open_wpl; [done| |].
  { destruct recovering; [right|by left]. rewrite Hpin, dom_empty_L, size_empty. unfold NBUF. lia. }
  intros x y s1 Hxy Hl1 Hok1 E1.
  apply (copy_wpl x y lb b); [done|done| | |].
  { rewrite (beq_held _ _ E1). simpl. rewrite lookup_insert_ne by done. apply lookup_singleton_eq. }
  { rewrite (beq_held _ _ E1). apply lookup_insert_eq. }
  intros s2 Hl2 Hok2 E2. rewrite (beq_content _ _ E1) in E2. simpl in E2.
  assert (E : beq (abs s2) (write_disk b (set_content b (content (abs s) lb) (set_held (<[y := b]> {[x := lb]}) (abs s))))).
  { eapply beq_trans; [exact E2|by apply write_content_mono]. }
  clear E1 E2. wstep.
  assert (Hu : wp (if recovering then mret tt else zoom (bunpin y)) L s2 (fun _ s3 => lg s3 = lg s2 /\ bok (bc s3) /\
    beq (abs s3) (set_pins (if recovering then pins (abs s) else unpin b (pins (abs s))) (abs s2)))).
  { destruct recovering.
    - wsteps. split_and!; try done. split; try done. by rewrite (beq_pins _ _ E).
    - eapply wp_mono; [apply zoom_bc_wp, (bunpin_spec y b); try done|].
      + fold (abs s2). rewrite (beq_held _ _ E). apply lookup_insert_eq.
      + fold (abs s2). unfold pinned. by rewrite (beq_pins _ _ E).
      + intros ? s3 (? & ? & E3). fold (abs s2) (abs s3) in E3. rewrite (beq_pins _ _ E) in E3. done. }
  eapply wpl_call; [exact Hu|]. intros _ s3 (Hl3 & Hok3 & [C3 D3 W3 H3 P3]). simpl in *.
  destruct E as [C D W Hh P]. simpl in *. eapply wpl_call.
  { apply (close_wp tail x lb y b); try done.
    - rewrite H3, Hh. unfold singletonM, map_singleton. by apply insert_insert_ne.
    - right. by rewrite C3, D3, C, D, !upd_ne.
    - right. by rewrite C3, D3, C, D, !upd_eq. }
  intros r s4 (-> & Hl4 & Hok4 & [C4 D4 W4 H4 P4]). simpl in *. split_and!; try done; [congruence| |congruence].
  split; intros; rewrite ?C4, ?D4, ?W4, ?H4, ?C3, ?D3, ?W3, ?C, ?D, ?W, ?upd_eq; done.
Qed.
End Copy.
End Steps.
