(* ===== verification/LogCrash.v ===== *)
(** Crash safety of the log, kernel/log.c. A crash keeps a prefix of the block
    writes that a commit (or a recovery) issues; the theorems say what recovery
    makes of the disk for every such prefix. *)
From S2P Require Import Prelude UserIface Block Log.
Local Open Scope Z_scope.

(** * Disks, writes and recovery as functions on disks *)
Definition apply_writes (d : Z -> block) (ws : list (Z * block)) : Z -> block :=
  foldl (fun d w => upd d w.1 w.2) d ws.

(** What recovery installs from a disk: the blocks the header lists, from the
    log blocks behind it. *)
Definition log_entries (start : Z) (d : Z -> block) : list (Z * block) :=
  (fun i => (head_block i (d start), d (start + Z.of_nat i + 1))) <$> seq 0 (Z.to_nat (head_n (d start))).
Definition recovered (start : Z) (d : Z -> block) : Z -> block := apply_writes d (log_entries start d).

(** The blocks outside the log, and disks that agree there. *)
Definition home (start x : Z) : Prop := ~ (start <= x <= start + Z.of_nat LOGBLOCKS).
Definition same_home (start : Z) (d d' : Z -> block) : Prop := forall x, home start x -> d x = d' x.

Lemma apply_writes_app d ws ws' : apply_writes d (ws ++ ws') = apply_writes (apply_writes d ws) ws'.
Proof. unfold apply_writes. apply foldl_app. Qed.

Lemma apply_writes_notin d ws x : x ∉ ws.*1 -> apply_writes d ws x = d x.
Proof.
  revert d. induction ws as [|[b v] ws IH]; intros d Hx; [done|]. simpl. csimpl in Hx.
  apply not_elem_of_cons in Hx as [Hb Hx]. rewrite IH by done. by apply upd_ne.
Qed.

Lemma apply_writes_ext d d' ws x : d x = d' x -> apply_writes d ws x = apply_writes d' ws x.
Proof.
  revert d d'. induction ws as [|[b v] ws IH]; intros d d' E; [done|]. simpl. apply IH. unfold upd. by rewrite E.
Qed.

(** When equal addresses get equal values the order does not matter. *)
Lemma apply_writes_in (g : Z -> block) d ws x :
  Forall (fun w => w.2 = g w.1) ws -> x ∈ ws.*1 -> apply_writes d ws x = g x.
Proof.
  revert d. induction ws as [|[b v] ws IH] using rev_ind; intros d HF Hx; [set_solver|].
  apply Forall_app in HF as [HF [Hv _]%Forall_cons]. simpl in Hv. rewrite apply_writes_app. simpl. unfold upd.
  case_decide; [by subst|]. apply IH; [done|]. rewrite fmap_app in Hx. set_solver.
Qed.

(** Replaying writes over a prefix of them is replaying them. *)
Lemma apply_writes_replay d ws k x : apply_writes (apply_writes d (take k ws)) ws x = apply_writes d ws x.
Proof.
  rewrite <- apply_writes_app. induction ws as [|[b v] ws IH] using rev_ind; [by rewrite take_nil|].
  rewrite app_assoc, apply_writes_app, (apply_writes_app d ws [(b, v)]). simpl. unfold upd. case_decide; [done|].
  destruct (decide (k <= length ws)%nat) as [Hk|Hk].
  - by rewrite take_app_le by done.
  - rewrite take_ge by (rewrite length_app; simpl; lia). rewrite (take_ge ws) in IH by lia.
    rewrite apply_writes_app, apply_writes_app. rewrite apply_writes_app in IH.
    rewrite <- IH. apply apply_writes_ext. simpl. by rewrite upd_ne.
Qed.

(** A run that set blocks and wrote them, in order. *)
Record wrote (A A' : babs) (ws : list (Z * block)) : Prop := {
  wr_content : forall x, content A' x = apply_writes (content A) ws x;
  wr_disk : forall x, disk A' x = apply_writes (disk A) ws x;
  wr_writes : writes A' = writes A ++ ws;
  wr_held : held A' = held A
}.

Lemma wrote_nil A : wrote A A [].
Proof. split; try done. by rewrite app_nil_r. Qed.

Lemma wrote_stored A A' b v : stored A A' b v -> wrote A A' [(b, v)].
Proof. intros [C D W Hh]. by split. Qed.

Lemma wrote_trans A1 A2 A3 ws ws' : wrote A1 A2 ws -> wrote A2 A3 ws' -> wrote A1 A3 (ws ++ ws').
Proof.
  intros [C D W Hh] [C' D' W' Hh']. split.
  - intros x. rewrite C', apply_writes_app. by apply apply_writes_ext.
  - intros x. rewrite D', apply_writes_app. by apply apply_writes_ext.
  - by rewrite W', W, app_assoc.
  - congruence.
Qed.

(** * The loops of a commit *)

(** The in-memory log describes a transaction of the blocks [bs]. *)
Record txn (start : Z) (bs : list Z) (l : log) : Prop := {
  txn_dev : lg_dev l = ROOTDEV;
  txn_start : lg_start l = start;
  txn_range : 0 <= start /\ start + Z.of_nat LOGBLOCKS + 1 < 2 ^ 31;
  txn_n : lh_n l = Z.of_nat (length bs);
  txn_max : (length bs <= LOGBLOCKS)%nat;
  txn_len : length (lh_block l) = LOGBLOCKS;
  txn_bs : forall i b, bs !! i = Some b -> lh_block l !! i = Some b;
  txn_home : Forall (fun b => 0 <= b < 2 ^ 31 /\ home start b) bs
}.

Definition log_writes (start : Z) (A : babs) (bs : list Z) : list (Z * block) :=
  imap (fun i b => (start + Z.of_nat i + 1, content A b)) bs.
Definition home_writes (start : Z) (A : babs) (bs : list Z) : list (Z * block) :=
  imap (fun i b => (b, content A (start + Z.of_nat i + 1))) bs.

Lemma log_writes_area start A bs k x :
  (length bs <= LOGBLOCKS)%nat -> x ∈ (take k (log_writes start A bs)).*1 -> start < x <= start + Z.of_nat LOGBLOCKS.
Proof.
  intros Hn (w & -> & Hw)%list_elem_of_fmap. apply elem_of_take in Hw as (i & Hi & _).
  unfold log_writes in Hi. rewrite list_lookup_imap in Hi. destruct (bs !! i) eqn:E; simplify_eq/=.
  apply lookup_lt_Some in E. lia.
Qed.

Lemma home_writes_addr start A bs k x : x ∈ (take k (home_writes start A bs)).*1 -> x ∈ bs.
Proof.
  intros (w & -> & Hw)%list_elem_of_fmap. apply elem_of_take in Hw as (i & Hi & _).
  unfold home_writes in Hi. rewrite list_lookup_imap in Hi. destruct (bs !! i) eqn:E; simplify_eq/=.
  by eapply list_elem_of_lookup_2.
Qed.

Definition unpin_all (bs : list Z) (p : gmap Z nat) : gmap Z nat := foldl (fun p b => unpin b p) p bs.

Lemma unpin_ne b x p : x <> b -> unpin b p !! x = p !! x.
Proof. intros. unfold unpin. repeat case_match; by rewrite ?lookup_insert_ne, ?lookup_delete_ne by done. Qed.

Lemma unpin_all_notin bs p x : x ∉ bs -> unpin_all bs p !! x = p !! x.
Proof.
  revert p. induction bs as [|b bs IH]; intros p Hx; [done|]. apply not_elem_of_cons in Hx as [Hb Hx].
  simpl. rewrite IH by done. by apply unpin_ne.
Qed.

Lemma unpin_dom b p : dom (unpin b p) ⊆ dom p.
Proof.
  unfold unpin. destruct (p !! b) as [[|[|k]]|] eqn:E; rewrite ?dom_delete_L; try set_solver.
  rewrite dom_insert_L. apply elem_of_dom_2 in E. set_solver.
Qed.

Lemma unpin_all_dom bs p : dom (unpin_all bs p) ⊆ dom p.
Proof. revert p. induction bs as [|b bs IH]; intros p; simpl; [done|]. etrans; [apply IH|apply unpin_dom]. Qed.

Section Loops.
Context {B : Type} `{BufCache B}.
Context (L : list lock) (start : Z) (bs : list Z).
Hypothesis HL : buf_free L.
Implicit Types s : lstate B.

Lemma txn_addr l i b : txn start bs l -> bs !! i = Some b ->
  0 <= b < 2 ^ 31 /\ home start b /\ b <> start + Z.of_nat i + 1 /\ (i < length bs <= LOGBLOCKS)%nat.
Proof using.
  intros T Hi. destruct (Forall_lookup_1 _ _ _ _ (txn_home _ _ _ T) Hi) as [Hb Hh].
  pose proof (lookup_lt_Some _ _ _ Hi). pose proof (txn_max _ _ _ T).
  split; [done|]. split; [done|]. split; [|lia]. intros ->. apply Hh. lia.
Qed.

Lemma write_log_wp s :
  txn start bs (lg s) -> bok (bc s) -> held (abs s) = ∅ ->
  Forall (pinned (abs s)) bs -> (size (dom (pins (abs s))) < NBUF)%nat ->
  wp write_log L s (fun _ s' => lg s' = lg s /\ bok (bc s') /\
    wrote (abs s) (abs s') (log_writes start (abs s) bs) /\ pins (abs s') = pins (abs s)).
Proof using HL.
  intros T Hok Hh Hp Hsz. unfold write_log. wstep. wstep. wstep. rewrite (txn_n _ _ _ T), Nat2Z.id.
  eapply wpl_call; [|intros ? s' HQ; split; [done|exact HQ]].
  set (ws := log_writes start (abs s) bs).
  apply (wpl_loop (fun k s1 => (k <= length bs)%nat /\ lg s1 = lg s /\ bok (bc s1) /\
    wrote (abs s) (abs s1) (take k ws) /\ pins (abs s1) = pins (abs s)) (fun k => length bs - k)%nat); [| |lia].
  2: { split_and!; try done; [lia|apply wrote_nil]. }
  intros k s1 (Hk & Hl & Hok1 & Hw & Hp1). destruct (decide (k < length bs)%nat) as [Hlt|Hlt]; last first.
  { unfold write_log_body. wsteps. rewrite Hl, (txn_n _ _ _ T). wfalse; [|lia]. wsteps.
    split_and!; try done. by rewrite take_ge in Hw by (unfold ws, log_writes; rewrite length_imap; lia). }
  destruct (lookup_lt_is_Some_2 _ _ Hlt) as [b Hb]. destruct (txn_addr _ _ _ T Hb) as (Hr & Hhome & Hne & _).
  pose proof (txn_max _ _ _ T). eapply wp_mono.
  { apply (write_log_step L s1 k b start); rewrite ?Hl; try done; try apply T; try done.
    - by rewrite (wr_held _ _ _ Hw).
    - rewrite (txn_n _ _ _ T). lia.
    - unfold pinned. rewrite Hp1. exact (Forall_lookup_1 _ _ _ _ Hp Hb).
    - by rewrite Hp1. }
  intros r s2 (-> & Hl2 & Hok2 & Hst & Hp2). split; [|lia]. split_and!; try done; try congruence.
  rewrite (take_S_r _ _ (start + Z.of_nat k + 1, content (abs s) b)) by (unfold ws, log_writes; by rewrite list_lookup_imap, Hb).
  eapply wrote_trans; [exact Hw|]. apply wrote_stored.
  rewrite (wr_content _ _ _ Hw), apply_writes_notin in Hst; [done|].
  intros Hx%log_writes_area; [|done]. apply Hhome. lia.
Qed.

Definition pins_after (recovering : bool) (bs' : list Z) (p : gmap Z nat) : gmap Z nat :=
  if recovering then p else unpin_all bs' p.

Lemma install_trans_wp (recovering : bool) s :
  txn start bs (lg s) -> bok (bc s) -> held (abs s) = ∅ ->
  (forall i, (i < length bs)%nat -> let x := start + Z.of_nat i + 1 in content (abs s) x = disk (abs s) x) ->
  (if recovering then pins (abs s) = ∅ else NoDup bs /\ Forall (pinned (abs s)) bs) ->
  (size (dom (pins (abs s))) < NBUF)%nat ->
  wp (install_trans recovering) L s (fun _ s' => lg s' = lg s /\ bok (bc s') /\
    wrote (abs s) (abs s') (home_writes start (abs s) bs) /\
    pins (abs s') = pins_after recovering bs (pins (abs s))).
Proof using HL.
  intros T Hok Hh Hcl Hp Hsz. unfold install_trans. wstep. wstep. wstep. rewrite (txn_n _ _ _ T), Nat2Z.id.
  eapply wpl_call; [|intros ? s' HQ; split; [done|exact HQ]].
  set (ws := home_writes start (abs s) bs).
  apply (wpl_loop (fun k s1 => (k <= length bs)%nat /\ lg s1 = lg s /\ bok (bc s1) /\
    wrote (abs s) (abs s1) (take k ws) /\ pins (abs s1) = pins_after recovering (take k bs) (pins (abs s)))
    (fun k => length bs - k)%nat); [| |lia].
  2: { split_and!; try done; [lia|apply wrote_nil|by destruct recovering]. }
  intros k s1 (Hk & Hl & Hok1 & Hw & Hp1). destruct (decide (k < length bs)%nat) as [Hlt|Hlt]; last first.
  { unfold install_trans_body. wsteps. rewrite Hl, (txn_n _ _ _ T). wfalse; [|lia]. wsteps.
    rewrite take_ge in Hw by (unfold ws, home_writes; rewrite length_imap; lia).
    rewrite take_ge in Hp1 by lia. by split_and!. }
  destruct (lookup_lt_is_Some_2 _ _ Hlt) as [b Hb]. destruct (txn_addr _ _ _ T Hb) as (Hr & Hhome & Hne & _ & Hmax).
  assert (Hlb : start + Z.of_nat k + 1 ∉ (take k ws).*1).
  { intros Hx%home_writes_addr. eapply Forall_forall in Hx; [|apply (txn_home _ _ _ T)]. apply Hx. lia. }
  eapply wp_mono.
  { apply (install_step L s1 k b start); rewrite ?Hl; try done; try apply T; try done.
    - by rewrite (wr_held _ _ _ Hw).
    - rewrite (txn_n _ _ _ T). lia.
    - rewrite Hp1. destruct recovering; [done|]. eapply Nat.le_lt_trans; [|exact Hsz].
      apply subseteq_size, unpin_all_dom.
    - destruct recovering; [by rewrite Hp1|]. destruct Hp as [Hnd Hp]. unfold pinned. rewrite Hp1. simpl.
      rewrite unpin_all_notin; [exact (Forall_lookup_1 _ _ _ _ Hp Hb)|].
      intros (j & Hj & Hjk)%elem_of_take. pose proof (NoDup_lookup _ _ _ _ Hnd Hj Hb). lia.
    - rewrite (wr_content _ _ _ Hw), (wr_disk _ _ _ Hw), !apply_writes_notin by done. by apply Hcl. }
  intros r s2 (-> & Hl2 & Hok2 & Hst & Hp2). split; [|lia]. split_and!; try done; [congruence| |].
  - rewrite (take_S_r _ _ (b, content (abs s) (start + Z.of_nat k + 1))) by (unfold ws, home_writes; by rewrite list_lookup_imap, Hb).
    eapply wrote_trans; [exact Hw|]. apply wrote_stored. by rewrite (wr_content _ _ _ Hw), apply_writes_notin in Hst.
  - rewrite Hp2, Hp1. destruct recovering; [done|]. simpl. unfold unpin_all.
    by rewrite (take_S_r _ _ b), foldl_snoc by done.
Qed.

(** ** The header *)
(** The header block [d] lists the blocks [l]. *)
Record header (d : block) (l : list Z) : Prop := {
  hd_ok : block_ok d;
  hd_n : head_n d = Z.of_nat (length l);
  hd_block : forall i b, l !! i = Some b -> head_block i d = b
}.

Lemma put_block_ok i b d : (i < LOGBLOCKS)%nat -> block_ok d -> block_ok (put_block i b d).
Proof using.
  intros Hi [Hl Hd]. unfold put_block. split; [|by apply put_le_is_byte].
  rewrite length_put_le; [done|]. rewrite Hl. unfold BSIZE, LOGBLOCKS in *. lia.
Qed.

Lemma put_n_ok n d : block_ok d -> block_ok (put_n n d).
Proof using.
  intros [Hl Hd]. unfold put_n. split; [|by apply put_le_is_byte].
  rewrite length_put_le; [done|]. rewrite Hl. unfold BSIZE. lia.
Qed.

Lemma header_nil n d : block_ok d -> 0 <= n < 2 ^ 31 -> head_n (put_n n d) = n.
Proof using.
  intros [Hl _] Hn. unfold head_n, put_n. rewrite get_put_le by (rewrite Hl; unfold BSIZE; lia).
  change (256 ^ Z.of_nat 4) with (2 ^ 32). rewrite Z.mod_small by lia. apply s32_small. lia.
Qed.

Lemma head_n_put_block i b d : (i < LOGBLOCKS)%nat -> block_ok d -> head_n (put_block i b d) = head_n d.
Proof using.
  intros Hi [Hl _]. unfold head_n, put_block. rewrite get_put_le_ne; [done| |lia].
  rewrite Hl. unfold BSIZE, LOGBLOCKS in *. lia.
Qed.

Lemma head_block_put_block i j b d : (i < LOGBLOCKS)%nat -> block_ok d -> 0 <= b < 2 ^ 31 ->
  head_block j (put_block i b d) = if decide (j = i) then b else head_block j d.
Proof using.
  intros Hi [Hl _] Hb. unfold head_block, put_block.
  assert (4 + 4 * i + 4 <= length d)%nat by (rewrite Hl; unfold BSIZE, LOGBLOCKS in *; lia).
  case_decide as E; [subst j|rewrite get_put_le_ne; [done|lia|lia]].
  rewrite get_put_le by done. change (256 ^ Z.of_nat 4) with (2 ^ 32). rewrite Z.mod_small by lia.
  apply s32_small. lia.
Qed.

(** The header while its first [k] entries are in place. *)
Record header_upto (k : nat) (d : block) : Prop := {
  hu_ok : block_ok d;
  hu_n : head_n d = Z.of_nat (length bs);
  hu_block : forall i b, (i < k)%nat -> bs !! i = Some b -> head_block i d = b
}.

Lemma set_content_twice b v v' A A' A'' : beq A' (set_content b v A) -> beq A'' (set_content b v' A') ->
  beq A'' (set_content b v' A).
Proof using.
  intros [C D W Hh P] [C' D' W' Hh' P']. simpl in *. split; simpl; try congruence.
  intros x. rewrite C'. unfold upd. by case_decide; [|rewrite C; unfold upd; rewrite decide_False].
Qed.

Lemma write_head_loop h A s d :
  txn start bs (lg s) -> bok (bc s) -> held A !! h = Some start -> header_upto 0 d ->
  beq (abs s) (set_content start d A) ->
  wp (loop (S (length bs)) (write_head_body h) O) L s (fun _ s' => lg s' = lg s /\ bok (bc s') /\
    exists d', header d' bs /\ beq (abs s') (set_content start d' A)).
Proof using.
  intros T Hok Hh Hd E.
  apply (wpl_loop (fun k s1 => (k <= length bs)%nat /\ lg s1 = lg s /\ bok (bc s1) /\ exists d1, header_upto k d1 /\
    beq (abs s1) (set_content start d1 A)) (fun k => length bs - k)%nat); [| |lia].
  2: { split_and!; try done; [lia|by exists d]. }
  intros k s1 (Hk & Hl & Hok1 & d1 & [Hd1 Hn1 Hb1] & E1). unfold write_head_body. wstep. wstep. wstep.
  rewrite Hl, (txn_n _ _ _ T). wcase as Hlt; last first.
  { wsteps. split_and!; try done. exists d1. split; [|done]. split; [done|done|].
    intros i b Hi. apply Hb1; [|done]. apply lookup_lt_Some in Hi. lia. }
  destruct (lookup_lt_is_Some_2 bs k) as [b Hb]; [lia|]. destruct (txn_addr _ _ _ T Hb) as (Hr & _ & _ & Hmax).
  wstep. eapply wpl_call; [apply (get_block_wp k b); rewrite Hl; by apply (txn_bs _ _ _ T)|]. intros ? ? [-> ->].
  assert (Hh1 : held (abs s1) !! h = Some start) by by rewrite (beq_held _ _ E1).
  wstep. eapply wpl_call; [by apply zoom_bc_wp, bdata_spec|]. intros d2 s2 (Hl2 & E2 & ->).
  fold (abs s1). rewrite (beq_content _ _ E1). simpl. rewrite upd_eq.
  assert (Hk' : (k < LOGBLOCKS)%nat) by lia.
  wstep. eapply wpl_call; [apply zoom_bc_wp, (bstore_spec h start); rewrite ?E2; try done; by apply put_block_ok|].
  intros _ s3 (Hl3 & Hok3 & E3). rewrite E2 in E3. fold (abs s1) (abs s3) in E3. wsteps.
  split; [done|]. split; [|lia]. split; [lia|]. split; [congruence|]. split; [done|].
  exists (put_block k b d1). split; [|by eapply set_content_twice].
  split; [by apply put_block_ok|by rewrite head_n_put_block|].
  intros i b' Hi Hb'. rewrite head_block_put_block by done. case_decide; [congruence|]. apply Hb1; [lia|done].
Qed.

Lemma write_head_wp s :
  txn start bs (lg s) -> bok (bc s) -> held (abs s) = ∅ -> (size (dom (pins (abs s))) < NBUF)%nat ->
  wp write_head L s (fun _ s' => lg s' = lg s /\ bok (bc s') /\ pins (abs s') = pins (abs s) /\
    exists hdr, header hdr bs /\ wrote (abs s) (abs s') [(start, hdr)]).
Proof using HL.
  intros T Hok Hh Hsz. pose proof (txn_range _ _ _ T) as Hr. pose proof (txn_max _ _ _ T) as Hmax.
  unfold write_head. wstep. wstep. wstep. rewrite (txn_dev _ _ _ T), (txn_start _ _ _ T), u32_small by lia.
  wstep. eapply wpl_call.
  { apply zoom_bc_wp, bread_spec; [done|lia|by apply not_held| |done]. right. by rewrite in_use_held. }
  intros h s1 (Hl1 & Hok1 & _ & E1). fold (abs s1) (abs s) in E1. rewrite Hh, insert_empty in E1.
  assert (Hh1 : held (abs s1) !! h = Some start) by (rewrite (beq_held _ _ E1); apply lookup_singleton_eq).
  wstep. eapply wpl_call; [by apply zoom_bc_wp, bdata_spec|]. intros d s2 (Hl2 & E2 & ->).
  assert (Hd : block_ok (content (abs s1) start)) by by apply bok_block.
  wstep. eapply wpl_call; [apply zoom_bc_wp, (bstore_spec h start); rewrite ?E2; try done; by apply put_n_ok|].
  intros _ s3 (Hl3 & Hok3 & E3). rewrite E2 in E3. fold (abs s1) (abs s3) in E3. wstep.
  rewrite (txn_n _ _ _ T) in *. rewrite Nat2Z.id. eapply wpl_call.
  { eapply (write_head_loop h (abs s1)); [|done|done| |exact E3]; [by rewrite Hl3, Hl2, Hl1|].
    split; [by apply put_n_ok|apply header_nil; [done|unfold LOGBLOCKS in *; lia]|lia]. }
  intros _ s4 (Hl4 & Hok4 & hdr & Hhdr & E4). wstep.
  eapply wpl_call; [apply zoom_bc_wp, (bwrite_spec h start); [done|fold (abs s4); by rewrite (beq_held _ _ E4)|done]|].
  intros _ s5 (Hl5 & Hok5 & E5). fold (abs s4) (abs s5) in E5.
  destruct E1 as [C1 D1 W1 H1 P1], E4 as [C4 D4 W4 H4 P4], E5 as [C5 D5 W5 H5 P5]. simpl in *.
  eapply wpl_call.
  { apply zoom_bc_wp, (brelse_spec h start); [done|fold (abs s5); by rewrite H5, H4| |done].
    fold (abs s5). right. by rewrite C5, D5, upd_eq. }
  intros _ s6 (Hl6 & Hok6 & [C6 D6 W6 H6 P6]). fold (abs s5) (abs s6) in *. simpl in *.
  split; [done|]. split; [congruence|]. split; [done|]. split; [congruence|]. exists hdr. split; [done|].
  split; simpl.
  - intros x. rewrite C6, C5, C4. unfold upd. by rewrite C1.
  - intros x. rewrite D6, D5, C4, upd_eq. unfold upd. by rewrite D4, D1.
  - by rewrite W6, W5, W4, W1, C4, upd_eq.
  - rewrite H6, H5, H4, H1, Hh. apply delete_singleton_eq.
Qed.
End Loops.

(** * Recovery of every prefix of a commit's writes *)
Lemma recovered_none start d : head_n (d start) = 0 -> recovered start d = d.
Proof. intros E. unfold recovered, log_entries. by rewrite E. Qed.

Lemma recovered_entries start d bs : header (d start) bs ->
  recovered start d = apply_writes d (imap (fun i b => (b, d (start + Z.of_nat i + 1))) bs).
Proof.
  intros [_ Hn Hb]. unfold recovered, log_entries. rewrite Hn, Nat2Z.id. f_equal.
  apply list_eq. intros i. rewrite list_lookup_fmap, list_lookup_imap.
  destruct (bs !! i) as [b|] eqn:E.
  - rewrite lookup_seq_lt by by eapply lookup_lt_Some. simpl. by rewrite (Hb i b).
  - rewrite lookup_seq_ge by by apply lookup_ge_None. done.
Qed.

(** The transaction: its blocks with their cached contents. *)
Definition saved (A : babs) (bs : list Z) : list (Z * block) := (fun b => (b, content A b)) <$> bs.
Definition committed (A : babs) (bs : list Z) (x : Z) : block :=
  if decide (x ∈ bs) then content A x else disk A x.

Section Prefixes.
Context (start : Z) (A : babs) (bs : list Z) (h1 h2 : block).
Hypothesis Hhome : Forall (home start) bs.
Hypothesis Hmax : (length bs <= LOGBLOCKS)%nat.
Hypothesis Hh1 : header h1 bs.
Hypothesis Hh2 : header h2 [].

Let wlog := log_writes start A bs.
Let winst := saved A bs.
Let d1 : Z -> block := apply_writes (disk A) (wlog ++ [(start, h1)]).

Lemma saved_addr : winst.*1 = bs.
Proof using. unfold winst, saved. rewrite <- list_fmap_compose. apply list_fmap_id. Qed.

Lemma saved_prefix_area k x : ~ home start x -> x ∉ (take k winst).*1.
Proof using Hhome.
  intros Hx Hin. rewrite fmap_take, saved_addr in Hin. apply elem_of_take in Hin as (i & Hi & _).
  apply Hx. exact (Forall_lookup_1 _ _ _ _ Hhome Hi).
Qed.

Lemma d1_start : d1 start = h1.
Proof using. unfold d1. rewrite apply_writes_app. apply upd_eq. Qed.

Lemma d1_log i b : bs !! i = Some b -> d1 (start + Z.of_nat i + 1) = content A b.
Proof using Hmax.
  intros Hi. unfold d1. rewrite apply_writes_app. simpl. rewrite upd_ne by lia.
  rewrite (apply_writes_in (fun x => content A (bs !!! Z.to_nat (x - start - 1)))).
  - f_equal. apply list_lookup_total_correct. by replace (Z.to_nat _) with i by lia.
  - apply Forall_lookup. intros j w Hj. unfold wlog, log_writes in Hj. rewrite list_lookup_imap in Hj.
    destruct (bs !! j) eqn:E; simplify_eq/=. f_equal. symmetry. apply list_lookup_total_correct.
    by replace (Z.to_nat _) with j by lia.
  - apply list_elem_of_fmap. exists (start + Z.of_nat i + 1, content A b). split; [done|].
    apply list_elem_of_lookup. exists i. unfold wlog, log_writes. by rewrite list_lookup_imap, Hi.
Qed.

Lemma d1_home x : home start x -> d1 x = disk A x.
Proof using Hmax.
  intros Hx. unfold d1. apply apply_writes_notin. rewrite fmap_app. intros [Hin|Hin]%elem_of_app.
  - apply Hx. rewrite <- (take_ge wlog (length wlog)) in Hin by done. apply log_writes_area in Hin; [lia|done].
  - apply list_elem_of_singleton in Hin. simpl in Hin. subst. apply Hx. unfold LOGBLOCKS. lia.
Qed.

(** Installing over [d1] gives the committed disk. *)
Lemma installed_home x : home start x -> apply_writes d1 winst x = committed A bs x.
Proof using Hmax.
  intros Hx. unfold committed. case_decide as Hin.
  - apply (apply_writes_in (content A)); [|by rewrite saved_addr].
    apply Forall_forall. intros w (b & -> & _)%list_elem_of_fmap. done.
  - rewrite apply_writes_notin by by rewrite saved_addr. by apply d1_home.
Qed.

Lemma in_log i b : bs !! i = Some b -> ~ home start (start + Z.of_nat i + 1).
Proof using Hmax. intros Hi Hx. apply Hx. apply lookup_lt_Some in Hi. lia. Qed.

Lemma recovered_installing k : same_home start (recovered start (apply_writes d1 (take k winst))) (committed A bs).
Proof using Hhome Hmax Hh1.
  intros x Hx. set (d := apply_writes d1 (take k winst)).
  assert (Hs : d start = h1).
  { unfold d. rewrite apply_writes_notin; [apply d1_start|]. apply saved_prefix_area. intros Hn. apply Hn.
    unfold LOGBLOCKS. lia. }
  rewrite (recovered_entries start d bs) by by rewrite Hs.
  replace (imap _ bs) with winst; [|unfold winst, saved; rewrite <- imap_const; apply imap_ext].
  { unfold d. rewrite apply_writes_replay. by apply installed_home. }
  intros i b Hi. unfold d. rewrite apply_writes_notin; [by rewrite (d1_log i b)|].
  eapply saved_prefix_area, in_log, Hi.
Qed.

Lemma recovered_installed :
  same_home start (recovered start (apply_writes d1 (winst ++ [(start, h2)]))) (committed A bs).
Proof using Hmax Hh2.
  intros x Hx. rewrite recovered_none.
  - rewrite apply_writes_app. simpl. rewrite upd_ne; [by apply installed_home|].
    intros ->. apply Hx. unfold LOGBLOCKS. lia.
  - rewrite apply_writes_app. simpl. rewrite upd_eq. apply Hh2.
Qed.

Lemma recovered_logging k : head_n (disk A start) = 0 ->
  same_home start (recovered start (apply_writes (disk A) (take k wlog))) (disk A).
Proof using Hmax.
  intros H0 x Hx. rewrite recovered_none.
  - apply apply_writes_notin. intros Hin%log_writes_area; [|done]. apply Hx. lia.
  - rewrite apply_writes_notin; [done|]. intros Hin%log_writes_area; [lia|done].
Qed.

(** All prefixes: the old disk as long as the header is not written, the new one
    afterwards. *)
Lemma commit_prefixes k : head_n (disk A start) = 0 ->
  same_home start (recovered start (apply_writes (disk A) (take k (wlog ++ [(start, h1)] ++ winst ++ [(start, h2)]))))
    (if decide (k <= length bs)%nat then disk A else committed A bs).
Proof using Hhome Hmax Hh1 Hh2.
  intros H0. assert (Hlen : length wlog = length bs) by apply length_imap.
  case_decide as Hk; [rewrite take_app_le by lia; by apply recovered_logging|].
  rewrite app_assoc, take_app_ge by (rewrite length_app, Hlen; simpl; lia).
  rewrite apply_writes_app. fold d1. set (j := (k - _)%nat).
  destruct (decide (j <= length winst)%nat) as [Hj|Hj].
  - rewrite take_app_le by done. apply recovered_installing.
  - rewrite take_ge by (rewrite length_app; simpl; lia). apply recovered_installed.
Qed.
End Prefixes.

(** Recovery may itself be cut short: every prefix of its writes leaves a disk
    that recovers to the same. *)
Lemma recovery_prefixes start D bs h2 k :
  Forall (home start) bs -> (length bs <= LOGBLOCKS)%nat -> header (D start) bs -> header h2 [] ->
  let es := imap (fun i b => (b, D (start + Z.of_nat i + 1))) bs in
  same_home start (recovered start (apply_writes D (take k (es ++ [(start, h2)])))) (recovered start D).
Proof.
  intros Hhome Hmax Hh Hh2 es x Hx. rewrite (recovered_entries start D bs) by done. fold es.
  assert (Hes : forall j y, ~ home start y -> y ∉ (take j es).*1).
  { intros j y Hy (w & -> & Hw)%list_elem_of_fmap. apply elem_of_take in Hw as (i & Hi & _). unfold es in Hi.
    rewrite list_lookup_imap in Hi. destruct (bs !! i) eqn:E; simplify_eq/=. apply Hy.
    exact (Forall_lookup_1 _ _ _ _ Hhome E). }
  assert (Hs : ~ home start start) by (intros Hn; apply Hn; unfold LOGBLOCKS; lia).
  destruct (decide (k <= length es)%nat) as [Hk|Hk].
  - rewrite take_app_le by done. set (d := apply_writes D (take k es)).
    assert (Hds : d start = D start) by by apply apply_writes_notin, Hes.
    rewrite (recovered_entries start d bs) by by rewrite Hds.
    replace (imap _ bs) with es; [unfold d; by rewrite apply_writes_replay|].
    apply imap_ext. intros i b Hi. unfold d. rewrite apply_writes_notin; [done|].
    apply Hes. intros Hn. apply Hn. apply lookup_lt_Some in Hi. lia.
  - rewrite take_ge by (rewrite length_app; simpl; lia). rewrite recovered_none.
    + rewrite apply_writes_app. simpl. apply upd_ne. by intros ->.
    + rewrite apply_writes_app. simpl. rewrite upd_eq. apply Hh2.
Qed.

(** * Commit and recovery *)
Section Commit.
Context {B : Type} `{BufCache B}.
Context (L : list lock) (start : Z).
Hypothesis HL : buf_free L.
Implicit Types s : lstate B.

(** The log's blocks are not modified in the cache, and the header on the disk
    is empty: the state between two commits. *)
Record log_idle s : Prop := {
  idle_ok : bok (bc s);
  idle_held : held (abs s) = ∅;
  idle_log : forall x, ~ home start x -> content (abs s) x = disk (abs s) x;
  idle_head : head_n (disk (abs s) start) = 0
}.

Lemma wrote_clean A A' ws x : wrote A A' ws -> content A x = disk A x -> content A' x = disk A' x.
Proof using. intros [C D _ _] E. rewrite C, D. by apply apply_writes_ext. Qed.

(** What install_trans copies home is the transaction. *)
Lemma home_writes_saved A A' bs : (length bs <= LOGBLOCKS)%nat -> Forall (home start) bs ->
  (forall i b, bs !! i = Some b -> content A' (start + Z.of_nat i + 1) = content A b) ->
  home_writes start A' bs = saved A bs.
Proof using.
  intros Hmax Hh Hc. unfold home_writes, saved. rewrite <- imap_const. apply imap_ext. intros i b Hi. simpl.
  by rewrite (Hc i b).
Qed.

Lemma txn_done bs l : txn start bs l -> txn start [] (with_n 0 l).
Proof using. intros []. split; simpl; try done; lia. Qed.

(** The block writes of a commit, in order. *)
Lemma commit_wrote bs s :
  txn start bs (lg s) -> bs <> [] -> NoDup bs -> Forall (pinned (abs s)) bs ->
  (size (dom (pins (abs s))) < NBUF)%nat -> log_idle s ->
  wp commit L s (fun _ s' => bok (bc s') /\ lg s' = with_n 0 (lg s) /\ pins (abs s') = unpin_all bs (pins (abs s)) /\
    exists h1 h2, header h1 bs /\ header h2 [] /\
    wrote (abs s) (abs s') (log_writes start (abs s) bs ++ [(start, h1)] ++ saved (abs s) bs ++ [(start, h2)])).
Proof using HL.
  intros T Hne Hnd Hpin Hsz [Hok Hheld Hlog Hhead].
  assert (Hpos : (0 < length bs)%nat) by (destruct bs; [done|simpl; lia]).
  assert (Hhome : Forall (home start) bs) by (eapply Forall_impl; [apply T|naive_solver]).
  pose proof (txn_max _ _ _ T) as Hmax.
  unfold commit. wstep. wstep. wstep. rewrite (txn_n _ _ _ T). wtrue; [|lia].
  wstep. eapply wpl_call; [by apply (write_log_wp L start bs)|]. intros _ s1 (Hl1 & Hok1 & W1 & P1).
  wstep. eapply wpl_call.
  { apply (write_head_wp L start bs); rewrite ?Hl1, ?(wr_held _ _ _ W1), ?P1; done. }
  intros _ s2 (Hl2 & Hok2 & P2 & h1 & Hh1 & W2). pose proof (wrote_trans _ _ _ _ _ W1 W2) as W12.
  rewrite Hl1 in Hl2. rewrite P1 in P2.
  wstep. eapply wpl_call.
  { apply (install_trans_wp L start bs); rewrite ?Hl2, ?(wr_held _ _ _ W12), ?P2; try done.
    - intros i Hi x. eapply wrote_clean; [exact W12|]. apply Hlog. intros Hn. apply Hn. unfold x. lia.
    - split; [done|]. unfold pinned. by rewrite P2. }
  intros _ s3 (Hl3 & Hok3 & W3 & P3). simpl in P3. rewrite P2 in P3. rewrite Hl2 in Hl3.
  rewrite (home_writes_saved (abs s)) in W3; [|done|done|].
  2: { intros i b Hi. rewrite (wr_content _ _ _ W12). by apply (d1_log start (mkBabs (content (abs s)) (content (abs s)) [] ∅ ∅) bs h1). }
  unfold on_log. wstep. wstep. eapply wpl_call.
  { apply (write_head_wp L start [] HL); simpl.
    - rewrite Hl3. by eapply txn_done.
    - done.
    - unfold abs in *. simpl. by rewrite (wr_held _ _ _ W3), (wr_held _ _ _ W12).
    - unfold abs in *. simpl. rewrite P3. eapply Nat.le_lt_trans; [apply subseteq_size, unpin_all_dom|done]. }
  simpl. intros _ s4 (Hl4 & Hok4 & P4 & h2 & Hh2 & W4). unfold abs in W4, P4. simpl in W4, P4.
  split; [done|]. split; [done|]. split; [by rewrite Hl4, Hl3|]. split; [by rewrite <- P3|].
  exists h1, h2. split; [done|]. split; [done|]. rewrite cons_middle, app_assoc. eapply wrote_trans; [exact W12|].
  by eapply wrote_trans.
Qed.

(** C6. Commit of a transaction is atomic with respect to crashes: it returns,
    and whatever prefix of the block writes it issued has reached the disk,
    recovery yields the disk before the transaction as long as the header has
    not been written, and afterwards the disk with every block of the
    transaction at its new contents. In the end the disk has the new contents,
    the header is empty again and the blocks are no longer pinned. *)
Theorem commit_crash_safe bs s :
  txn start bs (lg s) -> bs <> [] -> NoDup bs -> Forall (pinned (abs s)) bs ->
  (size (dom (pins (abs s))) < NBUF)%nat -> log_idle s ->
  wp commit L s (fun _ s' => exists ws, writes (abs s') = writes (abs s) ++ ws /\
    (forall x, disk (abs s') x = apply_writes (disk (abs s)) ws x) /\
    (forall k, same_home start (recovered start (apply_writes (disk (abs s)) (take k ws)))
       (if decide (k <= length bs)%nat then disk (abs s) else committed (abs s) bs)) /\
    same_home start (disk (abs s')) (committed (abs s) bs) /\
    log_idle s' /\ txn start [] (lg s') /\ pins (abs s') = unpin_all bs (pins (abs s))).
Proof using HL.
  intros T Hne Hnd Hpin Hsz Hidle.
  assert (Hhome : Forall (home start) bs) by (eapply Forall_impl; [apply T|naive_solver]).
  pose proof (txn_max _ _ _ T) as Hmax. destruct (Hidle) as [Hok Hheld Hlog Hhead].
  eapply wp_mono; [by apply commit_wrote|]. intros _ s' (Hok' & Hl' & P' & h1 & h2 & Hh1 & Hh2 & W).
  pose proof (txn_done _ _ T) as T'. rewrite <- Hl' in T'.
  exists (log_writes start (abs s) bs ++ [(start, h1)] ++ saved (abs s) bs ++ [(start, h2)]).
  split; [apply W|]. split; [apply W|]. split; [intros k; by apply commit_prefixes|].
  assert (Hd : head_n (disk (abs s') start) = 0).
  { rewrite (wr_disk _ _ _ W), !apply_writes_app. simpl. rewrite upd_eq. apply Hh2. }
  split; [|split; [|done]].
  - intros x Hx. rewrite (wr_disk _ _ _ W).
    rewrite <- (recovered_installed start (abs s) bs h1 h2) by done.
    rewrite <- apply_writes_app, <- app_assoc, recovered_none; [done|].
    by rewrite <- (wr_disk _ _ _ W).
  - split; [done|by rewrite (wr_held _ _ _ W)| |done]. intros x Hx. eapply wrote_clean; [exact W|by apply Hlog].
Qed.

Lemma set_block_wp i b s : (i < length (lh_block (lg s)))%nat ->
  wp (set_block i b) L s (fun _ s' => s' = mkLstate (with_block i b (lg s)) (bc s)).
Proof using. intros Hi. unfold set_block. wsteps. wtrue; [|done]. unfold on_log. by wsteps. Qed.

Lemma read_head_loop bs d s :
  lg_dev (lg s) = ROOTDEV -> lg_start (lg s) = start -> length (lh_block (lg s)) = LOGBLOCKS ->
  lh_n (lg s) = Z.of_nat (length bs) ->
  0 <= start /\ start + Z.of_nat LOGBLOCKS + 1 < 2 ^ 31 ->
  (length bs <= LOGBLOCKS)%nat -> Forall (fun b => 0 <= b < 2 ^ 31 /\ home start b) bs ->
  (forall i b, bs !! i = Some b -> head_block i d = b) ->
  wp (loop (S (length bs)) (read_head_body d) O) L s (fun _ s' => txn start bs (lg s') /\ bc s' = bc s).
Proof using.
  intros Hdev Hst Hlen Hn Hr Hmax Hbs Hblk.
  apply (wpl_loop (fun i s3 => (i <= length bs)%nat /\ lh_n (lg s3) = Z.of_nat (length bs) /\
    lg_dev (lg s3) = ROOTDEV /\ lg_start (lg s3) = start /\ length (lh_block (lg s3)) = LOGBLOCKS /\ bc s3 = bc s /\
    forall j b, (j < i)%nat -> bs !! j = Some b -> lh_block (lg s3) !! j = Some b) (fun i => length bs - i)%nat);
    [| |lia].
  2: { do 6 (split; [lia || done|]). lia. }
  intros i s3 (Hi & Hn3 & Hd3 & Hs3 & Hlen3 & Hbc & Hj). unfold read_head_body. wstep. wstep. wstep.
  rewrite Hn3. wcase as Hlt; last first.
  { wsteps. split; [done|]. split; [|done]. split; try done. intros j b Hb. apply Hj; [|done].
    apply lookup_lt_Some in Hb. lia. }
  destruct (lookup_lt_is_Some_2 bs i) as [b Hb]; [lia|].
  wstep. eapply wpl_call; [apply set_block_wp; lia|]. intros _ s4 ->. wsteps. simpl.
  rewrite length_insert. split; [done|]. split; [|lia]. do 6 (split; [lia || done|]).
  intros j b' Hji Hb'. destruct (decide (j = i)) as [->|Hne].
  - rewrite list_lookup_insert_eq by lia. by rewrite (Hblk i b').
  - rewrite list_lookup_insert_ne by done. apply Hj; [lia|done].
Qed.

(** read_head makes the in-memory log describe what the header lists. *)
Lemma read_head_wp bs s :
  lg_dev (lg s) = ROOTDEV -> lg_start (lg s) = start -> length (lh_block (lg s)) = LOGBLOCKS ->
  0 <= start /\ start + Z.of_nat LOGBLOCKS + 1 < 2 ^ 31 ->
  (length bs <= LOGBLOCKS)%nat -> Forall (fun b => 0 <= b < 2 ^ 31 /\ home start b) bs ->
  bok (bc s) -> held (abs s) = ∅ -> pins (abs s) = ∅ -> header (content (abs s) start) bs ->
  clean (abs s) start ->
  wp read_head L s (fun _ s' => txn start bs (lg s') /\ bok (bc s') /\ beq (abs s') (abs s)).
Proof using HL.
  intros Hdev Hst Hlen Hr Hmax Hbs Hok Hh Hp [_ Hn Hblk] Hcl.
  unfold read_head. wstep. wstep. wstep. rewrite Hdev, Hst, u32_small by lia.
  wstep. eapply wpl_call.
  { apply zoom_bc_wp, bread_spec; [done|lia|by apply not_held| |done]. right. rewrite in_use_held by done.
    fold (abs s). rewrite Hp, dom_empty_L, size_empty. unfold NBUF. lia. }
  intros h s1 (Hl1 & Hok1 & _ & E1). fold (abs s1) (abs s) in E1. rewrite Hh, insert_empty in E1.
  assert (Hh1 : held (abs s1) !! h = Some start) by (rewrite (beq_held _ _ E1); apply lookup_singleton_eq).
  wstep. eapply wpl_call; [by apply zoom_bc_wp, bdata_spec|]. intros d s2 (Hl2 & E2 & ->).
  fold (abs s1). rewrite (beq_content _ _ E1). simpl. set (d := content (abs s) start) in *.
  unfold on_log. wstep. wstep. wstep. wstep. wstep. cbn [lg lh_n with_n]. rewrite Hn, Nat2Z.id, Hl2, Hl1.
  eapply wpl_call.
  { apply (read_head_loop bs d); simpl; done. }
  simpl. intros _ s3 [T3 Hbc]. rewrite E2 in Hbc.
  assert (Ea : abs s3 = abs s1) by (unfold abs; by rewrite Hbc).
  eapply wpl_call.
  { apply zoom_bc_wp, (brelse_spec h start); rewrite ?Hbc; try done. fold (abs s1). unfold pinned, clean in *.
    by rewrite (beq_content _ _ E1), (beq_disk _ _ E1), (beq_pins _ _ E1). }
  intros _ s4 (Hl4 & Hok4 & [C4 D4 W4 H4 P4]). fold (abs s3) (abs s4) in *. rewrite Ea in *. simpl in *.
  split; [done|]. split; [by rewrite Hl4|]. split; [done|]. destruct E1 as [C1 D1 W1 H1 P1]. simpl in *.
  split; intros; rewrite ?C4, ?D4, ?W4, ?P4; try done. rewrite H4, H1, Hh. apply delete_singleton_eq.
Qed.

(** The state of the cache at boot: nothing held, pinned or modified. *)
Record boot_state s : Prop := {
  boot_ok : bok (bc s);
  boot_held : held (abs s) = ∅;
  boot_pins : pins (abs s) = ∅;
  boot_clean : forall x, content (abs s) x = disk (abs s) x;
  boot_len : length (lh_block (lg s)) = LOGBLOCKS
}.

Lemma beq_wrote A A' : beq A' A -> wrote A A' [].
Proof using. intros []. split; try done. by rewrite app_nil_r. Qed.

Lemma initlog_wrote bs s :
  boot_state s -> 0 <= start /\ start + Z.of_nat LOGBLOCKS + 1 < 2 ^ 31 ->
  header (disk (abs s) start) bs -> (length bs <= LOGBLOCKS)%nat ->
  Forall (fun b => 0 <= b < 2 ^ 31 /\ home start b) bs ->
  wp (initlog ROOTDEV start) L s (fun _ s' => bok (bc s') /\ txn start [] (lg s') /\ pins (abs s') = ∅ /\
    exists h2, header h2 [] /\ wrote (abs s) (abs s')
      (imap (fun i b => (b, disk (abs s) (start + Z.of_nat i + 1))) bs ++ [(start, h2)])).
Proof using HL.
  intros [Hok Hheld Hpins Hcl Hlen] Hr Hhdr Hmax Hbs.
  assert (Hhome : Forall (home start) bs) by (eapply Forall_impl; [done|naive_solver]).
  unfold initlog. wstep. wfalse; [|unfold BSIZE, LOGBLOCKS; lia].
  rewrite s32_small by (unfold LOGBLOCKS in *; lia). unfold on_log. wstep. wstep. unfold recover_from_log.
  wstep. eapply wpl_call.
  { apply (read_head_wp bs); unfold abs in *; simpl; try done; [by rewrite Hcl|by right]. }
  simpl. intros _ s1 (T1 & Hok1 & E1). unfold abs in E1 at 2. simpl in E1. fold (abs s) in E1.
  pose proof (beq_pins _ _ E1) as P1. rewrite Hpins in P1. pose proof (beq_held _ _ E1) as H1. rewrite Hheld in H1.
  assert (Hcl1 : forall x, content (abs s1) x = disk (abs s1) x) by (intros; by rewrite (beq_content _ _ E1), (beq_disk _ _ E1)).
  assert (Hsz : (size (dom (∅ : gmap Z nat)) < NBUF)%nat) by (rewrite dom_empty_L, size_empty; unfold NBUF; lia).
  wstep. eapply wpl_call; [apply (install_trans_wp L start bs); rewrite ?P1; done|].
  intros _ s2 (Hl2 & Hok2 & W2 & P2). simpl in P2. rewrite P1 in P2.
  unfold on_log. wstep. wstep. eapply wpl_call.
  { apply (write_head_wp L start [] HL); unfold abs in *; simpl; rewrite ?P2; try done.
    - rewrite Hl2. by eapply txn_done.
    - by rewrite (wr_held _ _ _ W2). }
  simpl. intros _ s3 (Hl3 & Hok3 & P3 & h2 & Hh2 & W3). unfold abs in W3, P3. simpl in W3, P3. fold (abs s2) in *.
  fold (abs s3) in *. rewrite P2 in P3. pose proof (wrote_trans _ _ _ _ _ W2 W3) as W.
  replace (home_writes start (abs s1) bs) with (imap (fun i b => (b, disk (abs s) (start + Z.of_nat i + 1))) bs) in W.
  2: { apply imap_ext. intros i b _. by rewrite Hcl1, (beq_disk _ _ E1). }
  split; [done|]. split; [done|]. split; [rewrite Hl3, Hl2; by eapply txn_done|]. split; [done|].
  exists h2. split; [done|]. exact (wrote_trans _ _ _ _ _ (beq_wrote _ _ E1) W).
Qed.

(** C13. Recovery at boot: from a disk whose header lists blocks outside the log,
    initlog returns, has installed exactly the logged blocks and emptied the
    header, and is itself safe against crashes: every prefix of its writes
    leaves a disk that recovers to the same contents. *)
Theorem initlog_recovers bs s :
  boot_state s -> 0 <= start /\ start + Z.of_nat LOGBLOCKS + 1 < 2 ^ 31 ->
  header (disk (abs s) start) bs -> (length bs <= LOGBLOCKS)%nat ->
  Forall (fun b => 0 <= b < 2 ^ 31 /\ home start b) bs ->
  wp (initlog ROOTDEV start) L s (fun _ s' => exists ws, writes (abs s') = writes (abs s) ++ ws /\
    (forall x, disk (abs s') x = apply_writes (disk (abs s)) ws x) /\
    (forall k, same_home start (recovered start (apply_writes (disk (abs s)) (take k ws))) (recovered start (disk (abs s)))) /\
    same_home start (disk (abs s')) (recovered start (disk (abs s))) /\
    boot_state s' /\ log_idle s' /\ txn start [] (lg s')).
Proof using HL.
  intros Hboot Hr Hhdr Hmax Hbs.
  assert (Hhome : Forall (home start) bs) by (eapply Forall_impl; [done|naive_solver]).
  eapply wp_mono; [by apply (initlog_wrote bs)|]. intros _ s' (Hok & T & P & h2 & Hh2 & W).
  set (es := imap _ bs) in W. exists (es ++ [(start, h2)]).
  pose proof (recovery_prefixes start (disk (abs s)) bs h2) as Hpre.
  assert (Hd : head_n (disk (abs s') start) = 0).
  { rewrite (wr_disk _ _ _ W), apply_writes_app. simpl. rewrite upd_eq. apply Hh2. }
  assert (Hcl : forall x, content (abs s') x = disk (abs s') x) by (intros x; eapply wrote_clean; [exact W|apply Hboot]).
  assert (Hh : held (abs s') = ∅) by (rewrite (wr_held _ _ _ W); apply Hboot).
  split; [apply W|]. split; [apply W|]. split; [intros k; by apply Hpre|]. split; [|by split_and!; try split; try done; try apply T].
  intros x Hx. rewrite <- (Hpre (length (es ++ [(start, h2)]))) by done. rewrite take_ge by done.
  rewrite recovered_none; [apply W|]. by rewrite <- (wr_disk _ _ _ W).
Qed.
End Commit.
