(* ===== verification/LogTxn.v ===== *)
(** Transactions of kernel/log.c: what begin_op, log_write and end_op do to the
    log, that the reservation made by begin_op keeps the log from overflowing,
    and what happens when a transaction fills the buffer cache. *)
From S2P Require Import Prelude UserIface Block Log LogCrash.
Local Open Scope Z_scope.

(** Every block of the transaction is pinned once. *)
Definition pins_of (bs : list Z) : gmap Z nat := gset_to_gmap 1%nat (list_to_set bs).

Lemma pins_of_lookup bs b : pins_of bs !! b = if decide (b ∈ bs) then Some 1%nat else None.
Proof.
  unfold pins_of. case_decide; [apply lookup_gset_to_gmap_Some|apply lookup_gset_to_gmap_None]; set_solver.
Qed.

Lemma pins_of_snoc bs b : b ∉ bs -> pin b (pins_of bs) = pins_of (bs ++ [b]).
Proof.
  intros Hb. apply map_eq. intros x. unfold pin. rewrite pins_of_lookup, (decide_False (P := b ∈ bs)) by done. simpl.
  destruct (decide (x = b)) as [->|Hx]; [rewrite lookup_insert_eq|rewrite lookup_insert_ne by done];
    rewrite !pins_of_lookup; repeat case_decide; set_solver.
Qed.

Lemma unpin_pins_of bs b : b ∉ bs -> unpin b (pins_of (b :: bs)) = pins_of bs.
Proof.
  intros Hb. apply map_eq. intros x. unfold unpin. rewrite pins_of_lookup, decide_True by set_solver.
  destruct (decide (x = b)) as [->|Hx]; [rewrite lookup_delete_eq|rewrite lookup_delete_ne by done];
    rewrite !pins_of_lookup; repeat case_decide; set_solver.
Qed.

Lemma unpin_all_pins_of bs : NoDup bs -> unpin_all bs (pins_of bs) = ∅.
Proof.
  induction 1 as [|b bs Hb Hnd IH]; [done|]. simpl. by rewrite unpin_pins_of.
Qed.

Lemma dom_pins_of bs : dom (pins_of bs) = list_to_set bs.
Proof. apply dom_gset_to_gmap. Qed.

Lemma size_pins_of bs : NoDup bs -> size (dom (pins_of bs)) = length bs.
Proof. intros. rewrite dom_pins_of. by apply size_list_to_set. Qed.

Section Txn.
Context {B : Type} `{BufCache B}.
Context (start : Z).
Implicit Types s : lstate B.

(** The log between operations: the blocks [bs] are logged and pinned. *)
Record log_inv (bs : list Z) s : Prop := {
  li_txn : txn start bs (lg s);
  li_nodup : NoDup bs;
  li_ok : bok (bc s);
  li_pins : pins (abs s) = pins_of bs;
  li_head : head_n (disk (abs s) start) = 0;
  li_log : forall x, ~ home start x -> content (abs s) x = disk (abs s) x;
  li_held : forall h b, held (abs s) !! h = Some b -> 0 <= b < 2 ^ 31 /\ home start b
}.

(** Absorption: a block already in the transaction is not logged again. *)
Definition logged (bs : list Z) (b : Z) : list Z := if decide (b ∈ bs) then bs else bs ++ [b].

Lemma logged_nodup bs b : NoDup bs -> NoDup (logged bs b).
Proof using.
  intros Hn. unfold logged. case_decide as Hb; [done|]. apply NoDup_app. split_and!; [done| |apply NoDup_singleton].
  intros x Hx ->%list_elem_of_singleton. done.
Qed.

Lemma txn_take bs l : txn start bs l -> take (Z.to_nat (lh_n l)) (lh_block l) = bs.
Proof using.
  intros T. rewrite (txn_n _ _ _ T), Nat2Z.id. apply list_eq. intros i.
  destruct (decide (i < length bs)%nat) as [Hi|Hi].
  - rewrite lookup_take_lt by done. destruct (lookup_lt_is_Some_2 _ _ Hi) as [b Hb]. rewrite Hb.
    by apply (txn_bs _ _ _ T).
  - rewrite lookup_take_ge by lia. symmetry. apply lookup_ge_None. lia.
Qed.

(** log_write's scan finds the block exactly when it is in the transaction. *)
Lemma log_find_spec bs l b : txn start bs l -> 0 <= b < 2 ^ 31 ->
  if decide (b ∈ bs) then bs !! log_find l b = Some b else log_find l b = length bs.
Proof using.
  intros T Hb. unfold log_find. rewrite (txn_take bs l T), (txn_n _ _ _ T), Nat2Z.id.
  assert (Hin : forall x, x ∈ bs -> u32 x = x).
  { intros x Hx. apply u32_small. eapply Forall_forall in Hx; [|apply (txn_home _ _ _ T)]. simpl in Hx. lia. }
  destruct (find_idx _ bs) as [i|] eqn:E; simpl.
  - apply find_idx_Some in E as [(x & Hx & Hk%Z.eqb_eq) _].
    rewrite Hin in Hk by by eapply list_elem_of_lookup_2. subst x.
    by rewrite decide_True by by eapply list_elem_of_lookup_2.
  - rewrite find_idx_None in E. rewrite decide_False; [done|]. intros Hx. specialize (E b Hx).
    rewrite Hin, Z.eqb_refl in E by done. done.
Qed.

Lemma txn_logged bs l b : txn start bs l -> 0 <= b < 2 ^ 31 -> home start b -> (length bs < LOGBLOCKS)%nat ->
  let l' := with_block (log_find l b) b l in
  txn start (logged bs b) (if decide (Z.of_nat (log_find l b) = lh_n l) then with_n (lh_n l + 1) l' else l').
Proof using.
  intros T Hb Hh Hlt l'. pose proof (log_find_spec bs l b T Hb) as Hf. pose proof (txn_len _ _ _ T) as Hlen.
  pose proof (txn_n _ _ _ T) as Hn. unfold logged. destruct (decide (b ∈ bs)) as [Hin|Hin].
  - pose proof (lookup_lt_Some _ _ _ Hf). rewrite decide_False by lia. unfold l'. destruct T. split; try done; simpl.
    + by rewrite length_insert.
    + intros i x Hi. destruct (decide (i = log_find l b)) as [->|Hne].
      * rewrite list_lookup_insert_eq by lia. congruence.
      * rewrite list_lookup_insert_ne by done. by apply txn_bs.
  - rewrite Hf, decide_True by lia. unfold l'. rewrite Hf. destruct T. split; simpl; try done.
    + rewrite length_app. simpl. lia.
    + rewrite length_app. simpl. lia.
    + by rewrite length_insert.
    + intros i x Hi. apply lookup_app_Some in Hi as [Hi|[Hge Hi]].
      * rewrite list_lookup_insert_ne by (apply lookup_lt_Some in Hi; lia). by apply txn_bs.
      * apply list_lookup_singleton_Some in Hi as [Hi <-]. replace i with (length bs) by lia.
        rewrite list_lookup_insert_eq by lia. done.
    + by apply Forall_app_2; [|apply Forall_singleton].
Qed.

(** What log_write changes: the transaction and the pins. *)
Definition log_written (bs : list Z) (b : Z) s s' : Prop :=
  log_inv (logged bs b) s' /\ outstanding (lg s') = outstanding (lg s) /\ committing (lg s') = committing (lg s) /\
  beq (abs s') (set_pins (pins_of (logged bs b)) (abs s)).

Lemma log_inv_ext bs bs' s s' : log_inv bs s -> txn start bs' (lg s') -> NoDup bs' -> bok (bc s') ->
  beq (abs s') (set_pins (pins_of bs') (abs s)) -> log_inv bs' s'.
Proof using.
  intros [T Hn Hok Hp Hhd Hlog Hheld] T' Hn' Hok' [C D W Hh P]. simpl in *. split; try done.
  - by rewrite D.
  - intros x Hx. rewrite C, D. by apply Hlog.
  - intros h b. rewrite Hh. apply Hheld.
Qed.

Lemma log_write_wp bs h b L s :
  log_inv bs s -> held (abs s) !! h = Some b -> (length bs < LOGBLOCKS)%nat -> 1 <= outstanding (lg s) ->
  log_lock ∉ L -> buf_free L ->
  wp (log_write h) L s (fun _ s' => log_written bs b s s').
Proof using.
  intros I Hh Hlt Hout HL HB. destruct (li_held _ _ I h b Hh) as [Hb Hhome]. pose proof (li_txn _ _ I) as T.
  assert (HB' : buf_free (log_lock :: L)).
  { destruct HB as [HB1 HB2]. split; [|intros i]; apply not_elem_of_cons; by split. }
  pose proof (txn_logged bs (lg s) b T Hb Hhome Hlt) as T'. simpl in T'.
  pose proof (log_find_spec bs (lg s) b T Hb) as Hf. pose proof (txn_n _ _ _ T) as Hn.
  rewrite Hn in T'. unfold log_write. wsteps. rewrite Hn.
  wfalse; [|lia]. wfalse; [|lia]. wstep.
  eapply wpl_call; [apply zoom_bc_wp, (bblockno_spec h b); [apply I|done]|]. intros ? s1 (Hl1 & Hb1 & ->).
  rewrite s32_small by lia. wstep.
  assert (Hlen : (log_find (lg s) b < LOGBLOCKS)%nat).
  { case_decide; [apply lookup_lt_Some in Hf|]; lia. }
  eapply wpl_call; [apply set_block_wp; rewrite Hl1, (txn_len _ _ _ T); done|]. intros _ s2 ->. rewrite Hl1, Hb1.
  unfold logged, log_written in *. destruct (decide (b ∈ bs)) as [Hin|Hin].
  - pose proof (lookup_lt_Some _ _ _ Hf). rewrite decide_False in T' by lia. rewrite decide_False by lia. wsteps.
    assert (E : beq (abs (mkLstate (with_block (log_find (lg s) b) b (lg s)) (bc s))) (set_pins (pins_of bs) (abs s))).
    { split; try done. apply (li_pins _ _ I). }
    split; [done|]. unfold logged. rewrite decide_True by done. split; [|done]. by eapply log_inv_ext; try apply I.
  - rewrite Hf in *. rewrite decide_True in T' by lia. rewrite decide_True by lia. wstep. wstep. eapply wpl_call.
    { apply zoom_bc_wp, (bpin_spec h b); simpl; try done; [apply I| ]. fold (abs s). rewrite (li_pins _ _ I).
      rewrite pins_of_lookup, decide_False by done. simpl. unfold NBUF. lia. }
    simpl. intros _ s3 (Hl3 & Hok3 & E3). unfold on_log. wsteps.
    assert (E : beq (abs (mkLstate (with_n (Z.of_nat (length bs) + 1) (lg s3)) (bc s3))) (set_pins (pins_of (bs ++ [b])) (abs s))).
    { fold (abs s3) (abs s) in E3. by rewrite (li_pins _ _ I), pins_of_snoc in E3. }
    split; [done|]. unfold logged. rewrite decide_False by done. rewrite Hl3 in *. split_and!; try done.
    eapply log_inv_ext; try done.
    pose proof (logged_nodup bs b (li_nodup _ _ I)) as Hd. unfold logged in Hd. by rewrite decide_False in Hd.
Qed.

Lemma begin_op_wp bs L s :
  log_inv bs s -> log_lock ∉ L -> begin_op_waits (lg s) = false ->
  wp begin_op L s (fun _ s' => s' = mkLstate (with_outstanding (outstanding (lg s) + 1) (lg s)) (bc s)).
Proof using. intros I HL Hw. unfold begin_op. wsteps. rewrite Hw. unfold on_log. by wsteps. Qed.

Lemma begin_op_blocks bs L s :
  log_inv bs s -> log_lock ∉ L -> begin_op_waits (lg s) = true -> begin_op L s = Blocked "begin_op".
Proof using. intros I HL Hw. unfold begin_op, acquire, gets, mbind, M_bind. rewrite decide_False by done. by rewrite Hw. Qed.

Lemma log_inv_lg bs s l : log_inv bs s -> txn start bs l -> log_inv bs (mkLstate l (bc s)).
Proof using. intros [] T. by split. Qed.

(** The writes of a commit are the current contents: nothing changes for the
    readers. *)
Lemma commit_content bs A A' h1 h2 : (length bs <= LOGBLOCKS)%nat ->
  wrote A A' (log_writes start A bs ++ [(start, h1)] ++ saved A bs ++ [(start, h2)]) ->
  same_home start (content A') (content A).
Proof using.
  intros Hmax W x Hx. rewrite (wr_content _ _ _ W), app_assoc, apply_writes_app.
  pose proof (installed_home start (mkBabs (content A) (content A) [] ∅ ∅) bs h1 Hmax x Hx) as Hi.
  rewrite apply_writes_app. simpl. rewrite upd_ne; [|intros ->; apply Hx; unfold LOGBLOCKS; lia].
  etrans; [exact Hi|]. unfold committed. simpl. by case_decide.
Qed.

Lemma commit_wp bs L s :
  log_inv bs s -> held (abs s) = ∅ -> (length bs < NBUF)%nat -> buf_free L ->
  wp commit L s (fun _ s' => bok (bc s') /\ lg s' = with_n 0 (lg s) /\ pins (abs s') = ∅ /\ held (abs s') = ∅ /\
    head_n (disk (abs s') start) = 0 /\ (forall x, ~ home start x -> content (abs s') x = disk (abs s') x) /\
    same_home start (content (abs s')) (content (abs s)) /\
    same_home start (disk (abs s')) (committed (abs s) bs)).
Proof using.
  intros I Hh Hlt HL. pose proof (li_txn _ _ I) as T. destruct (decide (bs = [])) as [->|Hne].
  - unfold commit. wsteps. rewrite (txn_n _ _ _ T). wfalse; [|simpl; lia]. wsteps. destruct I. split; [done|].
    split; [done|]. split; [|by split_and!]. destruct s as [[] c]. simpl in *. unfold with_n. simpl. do 2 f_equal.
    exact (txn_n _ _ _ T).
  - assert (Hp : Forall (pinned (abs s)) bs).
    { apply Forall_forall. intros b Hb. unfold pinned. rewrite (li_pins _ _ I), pins_of_lookup, decide_True by done. done. }
    eapply wp_mono; [apply (commit_wrote L start HL bs); try done; try apply I|].
    { rewrite (li_pins _ _ I), size_pins_of; [done|apply I]. }
    { split; try done; apply I. }
    intros _ s' (Hok' & Hl' & P' & h1 & h2 & Hh1 & Hh2 & W). pose proof (txn_max _ _ _ T) as Hmax.
    rewrite (li_pins _ _ I), unpin_all_pins_of in P' by apply I.
    assert (Hd : head_n (disk (abs s') start) = 0).
    { rewrite (wr_disk _ _ _ W), !apply_writes_app. simpl. rewrite upd_eq. apply Hh2. }
    do 3 (split; [done|]). split; [by rewrite (wr_held _ _ _ W)|]. split; [done|]. split; [|split].
    + intros x Hx. eapply wrote_clean; [exact W|by apply I].
    + by eapply commit_content.
    + intros x Hx. rewrite (wr_disk _ _ _ W).
      rewrite <- (recovered_installed start (abs s) bs h1 h2) by done.
      rewrite <- apply_writes_app, <- app_assoc, recovered_none; [done|]. by rewrite <- (wr_disk _ _ _ W).
Qed.

Lemma txn_outstanding bs l n c : txn start bs l -> txn start bs (with_committing c (with_outstanding n l)).
Proof using. intros []. by split. Qed.

(** end_op of an operation that is not the last one only counts it. *)
Lemma end_op_more_wp L s :
  committing (lg s) = false -> outstanding (lg s) <> 1 -> log_lock ∉ L ->
  wp end_op L s (fun _ s' => s' = mkLstate (with_outstanding (outstanding (lg s) - 1) (lg s)) (bc s)).
Proof using.
  intros Hc Ho HL. unfold end_op. wsteps. unfold on_log. wsteps. rewrite Hc.
  rewrite bool_decide_false by lia. by wsteps.
Qed.

(** The last one commits. *)
Lemma end_op_last_wp bs L s :
  log_inv bs s -> held (abs s) = ∅ -> (length bs < NBUF)%nat ->
  committing (lg s) = false -> outstanding (lg s) = 1 -> log_lock ∉ L -> buf_free L ->
  wp end_op L s (fun _ s' => log_inv [] s' /\ outstanding (lg s') = 0 /\ committing (lg s') = false /\
    held (abs s') = ∅ /\
    same_home start (content (abs s')) (content (abs s)) /\
    same_home start (disk (abs s')) (committed (abs s) bs)).
Proof using.
  intros I Hh Hlt Hc Ho HL HB. unfold end_op. wsteps. unfold on_log. wsteps. rewrite Hc, Ho. simpl. wsteps. cbn [lg bc].
  set (l := with_committing true (with_outstanding 0 (lg s))).
  assert (Tl : txn start bs l) by apply txn_outstanding, I.
  eapply wpl_call; [by apply (commit_wp bs), HB; [apply log_inv_lg| |]|].
  intros _ s1 (Hok & Hl1 & Hp & Hh1 & Hd & Hcl & Hco & Hdi). wsteps. split; [done|]. rewrite Hl1.
  split; [|by split_and!]. split; try done; simpl.
  - by apply (txn_outstanding [] _ 0 false (txn_done start bs l Tl)).
  - constructor.
  - intros h b. unfold abs in *. simpl. by rewrite Hh1, lookup_empty.
Qed.

(** ** A transaction that pins every buffer *)
Lemma write_log_full bs L s :
  log_inv bs s -> held (abs s) = ∅ -> length bs = NBUF -> buf_free L ->
  panics write_log L s "bget: no buffers".
Proof using.
  intros I Hh Hlen HL. pose proof (li_txn _ _ I) as T. pose proof (txn_range _ _ _ T).
  unfold write_log. apply panics_bind, wpl_gets. rewrite (txn_n _ _ _ T), Nat2Z.id. simpl. apply panics_head.
  unfold write_log_body. apply panics_bind, wpl_gets. rewrite (txn_n _ _ _ T), decide_True by (rewrite Hlen; unfold NBUF; lia).
  apply panics_head, panics_zoom. rewrite (txn_dev _ _ _ T), (txn_start _ _ _ T), u32_small by (unfold LOGBLOCKS in *; lia).
  assert (E : in_use (abs s) = list_to_set bs) by (rewrite in_use_held, (li_pins _ _ I) by done; apply dom_pins_of).
  apply bread_full; [apply I| | |done]; fold (abs s); simpl; fold (abs s); rewrite E.
  - rewrite elem_of_list_to_set. intros Hin. eapply Forall_forall in Hin; [|apply (txn_home _ _ _ T)].
    apply Hin. unfold LOGBLOCKS. lia.
  - rewrite size_list_to_set by apply I. done.
Qed.

Lemma commit_full bs L s :
  log_inv bs s -> held (abs s) = ∅ -> length bs = NBUF -> buf_free L ->
  panics commit L s "bget: no buffers".
Proof using.
  intros I Hh Hlen HL. unfold commit. apply panics_bind, wpl_gets.
  rewrite (txn_n _ _ _ (li_txn _ _ I)), decide_True by (rewrite Hlen; unfold NBUF; lia).
  apply panics_head. by eapply write_log_full.
Qed.

Lemma end_op_full bs L s :
  log_inv bs s -> held (abs s) = ∅ -> length bs = NBUF -> committing (lg s) = false ->
  outstanding (lg s) = 1 -> log_lock ∉ L -> buf_free L ->
  panics end_op L s "bget: no buffers".
Proof using.
  intros I Hh Hlen Hc Ho HL HB. unfold end_op. apply panics_bind, wpl_acquire; [done|].
  apply panics_bind, wpl_gets. apply panics_bind. unfold on_log. wstep. rewrite Hc, Ho. simpl.
  apply panics_bind. wstep. apply panics_bind. wstep. apply panics_head. cbn [lg bc].
  eapply commit_full; try done. apply log_inv_lg; [done|]. apply txn_outstanding, I.
Qed.

(** ** Runs of operations *)

(** [r] holds, for every operation in progress, how many log_writes it may still
    do. The steps are the calls of kernel/fs.c and kernel/sysfile.c to the log
    and the cache. *)
Inductive txn_step : list nat * lstate B -> list nat * lstate B -> Prop :=
| step_begin r s s' :
    begin_op [] s = Ok tt [] s' -> txn_step (r, s) (r ++ [Z.to_nat MAXOPBLOCKS], s')
| step_write r s s' i k h b :
    r !! i = Some (S k) -> held (abs s) !! h = Some b -> log_write h [] s = Ok tt [] s' ->
    txn_step (r, s) (<[i := k]> r, s')
| step_end r s s' i k :
    r !! i = Some k -> (length r = 1%nat -> held (abs s) = ∅) -> end_op [] s = Ok tt [] s' ->
    txn_step (r, s) (delete i r, s')
| step_bread r s s' b h :
    0 <= b < 2 ^ 31 -> home start b -> b ∉ (map_img (held (abs s)) : gset Z) ->
    (b ∈ in_use (abs s) \/ (size (in_use (abs s)) < NBUF)%nat) ->
    zoom (bread ROOTDEV b) [] s = Ok h [] s' -> txn_step (r, s) (r, s')
| step_bstore r s s' h b d :
    held (abs s) !! h = Some b -> block_ok d -> zoom (bstore h d) [] s = Ok tt [] s' -> txn_step (r, s) (r, s')
| step_brelse r s s' h b :
    held (abs s) !! h = Some b -> clean (abs s) b -> zoom (brelse h) [] s = Ok tt [] s' -> txn_step (r, s) (r, s').

(** What begin_op reserves is enough. *)
Definition reserved (r : list nat) s : Prop :=
  outstanding (lg s) = Z.of_nat (length r) /\ committing (lg s) = false /\
  Forall (fun k => (k <= Z.to_nat MAXOPBLOCKS)%nat) r /\
  exists bs, log_inv bs s /\ (length bs + sum_list r <= LOGBLOCKS)%nat.

Lemma reserved_max r : Forall (fun k => (k <= Z.to_nat MAXOPBLOCKS)%nat) r ->
  (sum_list r <= length r * Z.to_nat MAXOPBLOCKS)%nat.
Proof using. change (Z.to_nat MAXOPBLOCKS) with 10%nat. induction 1; simpl; lia. Qed.

Lemma sum_list_lookup r i k : r !! i = Some k -> sum_list r = (k + sum_list (delete i r))%nat.
Proof using.
  revert i. induction r as [|a r IH]; intros [|i] Hi; simplify_eq/=; [done|]. rewrite (IH i Hi). lia.
Qed.

Lemma sum_list_insert r i k k' : r !! i = Some k -> (sum_list (<[i := k']> r) + k = sum_list r + k')%nat.
Proof using.
  revert i. induction r as [|a r IH]; intros [|i] Hi; simplify_eq/=; [lia|]. pose proof (IH i Hi). lia.
Qed.

Lemma buf_free_empty : buf_free [].
Proof using. split; [|intros i]; apply not_elem_of_nil. Qed.

(** A step that keeps the in-memory log, the pins and the log's blocks. *)
Lemma reserved_bc r s s' : reserved r s -> lg s' = lg s -> bok (bc s') -> pins (abs s') = pins (abs s) ->
  (forall x, disk (abs s') x = disk (abs s) x) -> (forall x, ~ home start x -> content (abs s') x = content (abs s) x) ->
  (forall h b, held (abs s') !! h = Some b -> 0 <= b < 2 ^ 31 /\ home start b) -> reserved r s'.
Proof using.
  intros (Ho & Hc & HF & bs & I & Hsum) Hl Hok Hp Hd Hcn Hh. unfold reserved. rewrite Hl. split_and!; try done.
  exists bs. split; [|done]. destruct I as [T Hnd Hok' Hp' Hhd Hlog Hheld]. split; rewrite ?Hl, ?Hp, ?Hd; try done.
  intros x Hx. rewrite Hcn, Hd by done. by apply Hlog.
Qed.

Lemma reserved_begin r s s' : reserved r s -> begin_op [] s = Ok tt [] s' ->
  reserved (r ++ [Z.to_nat MAXOPBLOCKS]) s'.
Proof using.
  intros (Ho & Hc & HF & bs & I & Hsum) Hrun. destruct (begin_op_waits (lg s)) eqn:Hw.
  { rewrite (begin_op_blocks bs) in Hrun by (done || apply not_elem_of_nil). done. }
  pose proof (begin_op_wp bs [] s I (not_elem_of_nil _) Hw) as Hb. apply (wp_run _ _ _ _ _ _ _ Hb) in Hrun as [_ ->].
  unfold begin_op_waits in Hw. rewrite Hc in Hw. simpl in Hw. apply bool_decide_eq_false in Hw.
  rewrite (txn_n _ _ _ (li_txn _ _ I)), Ho in Hw. unfold reserved. simpl. rewrite length_app. simpl length.
  split; [lia|]. split; [done|]. split; [apply Forall_app_2; [done|by apply Forall_singleton]|].
  exists bs. split; [apply log_inv_lg; [done|]; by apply (txn_outstanding bs _ _ (committing (lg s))), I|].
  pose proof (reserved_max r HF). rewrite sum_list_with_app. unfold MAXOPBLOCKS, LOGBLOCKS in *. simpl in *. lia.
Qed.

Lemma logged_length bs b : (length (logged bs b) <= S (length bs))%nat.
Proof using. unfold logged. case_decide; [lia|]. rewrite length_app. simpl. lia. Qed.

(** With something left of its reservation an operation can log a block. *)
Lemma reserved_log_write r s i k h b L :
  reserved r s -> r !! i = Some (S k) -> held (abs s) !! h = Some b -> log_lock ∉ L -> buf_free L ->
  wp (log_write h) L s (fun _ s' => (exists bs, log_written bs b s s') /\ reserved (<[i := k]> r) s').
Proof using.
  intros (Ho & Hc & HF & bs & I & Hsum) Hi Hh HL HB.
  pose proof (sum_list_lookup r i _ Hi). pose proof (sum_list_insert r i _ k Hi). pose proof (lookup_lt_Some _ _ _ Hi).
  eapply wp_mono; [apply (log_write_wp bs h b); try done; lia|].
  intros ? s' W. split; [by exists bs|]. destruct (W) as (I' & Ho' & Hc' & _). unfold reserved.
  rewrite Ho', Hc', length_insert. split; [done|]. split; [done|]. split.
  - apply Forall_insert; [done|]. pose proof (Forall_lookup_1 _ _ _ _ HF Hi). simpl in *. lia.
  - exists (logged bs b). split; [done|]. pose proof (logged_length bs b). lia.
Qed.

Lemma reserved_end r s s' i k : reserved r s -> r !! i = Some k -> (length r = 1%nat -> held (abs s) = ∅) ->
  end_op [] s = Ok tt [] s' -> reserved (delete i r) s'.
Proof using.
  intros (Ho & Hc & HF & bs & I & Hsum) Hi Hh Hrun. pose proof (sum_list_lookup r i _ Hi) as Hs.
  pose proof (lookup_lt_Some _ _ _ Hi) as Hlt. pose proof (length_delete r i ltac:(by eexists)) as Hl.
  destruct (decide (length r = 1%nat)) as [H1|H1].
  - assert (Hr : delete i r = []) by (apply length_zero_iff_nil; lia). rewrite Hr. specialize (Hh H1).
    destruct (decide (length bs = NBUF)) as [Hfull|Hfull].
    { assert (Hp : panics end_op [] s "bget: no buffers").
      { eapply end_op_full; try done; [lia|apply not_elem_of_nil|apply buf_free_empty]. }
      unfold panics in Hp. by rewrite Hp in Hrun. }
    pose proof (txn_max _ _ _ (li_txn _ _ I)).
    assert (Hw : wp end_op [] s (fun _ s' => reserved [] s')).
    { eapply wp_mono; [apply (end_op_last_wp bs); try done|].
      - unfold LOGBLOCKS, NBUF in *. lia.
      - lia.
      - apply not_elem_of_nil.
      - apply buf_free_empty.
      - intros _ s1 (I1 & Ho1 & Hc1 & _). split; [done|]. split; [done|]. split; [constructor|]. exists [].
        split; [done|]. simpl. unfold LOGBLOCKS. lia. }
    by apply (wp_run _ _ _ _ _ _ _ Hw) in Hrun as [_ ?].
  - assert (Hw := end_op_more_wp [] s Hc ltac:(lia) (not_elem_of_nil _)).
    apply (wp_run _ _ _ _ _ _ _ Hw) in Hrun as [_ ->]. unfold reserved. simpl.
    split; [rewrite Ho; lia|]. split; [done|]. split; [by apply Forall_delete|]. exists bs.
    split; [|lia]. apply log_inv_lg; [done|]. by apply (txn_outstanding bs _ _ (committing (lg s))), I.
Qed.

Lemma reserved_held r s h b : reserved r s -> held (abs s) !! h = Some b -> 0 <= b < 2 ^ 31 /\ home start b.
Proof using. intros (_ & _ & _ & bs & I & _). apply I. Qed.

Lemma reserved_step x y : txn_step x y -> reserved x.1 x.2 -> reserved y.1 y.2.
Proof using.
  intros Hst R. destruct Hst as [r s s' Hrun|r s s' i k h b Hi Hh Hrun|r s s' i k Hi Hh Hrun
    |r s s' b h Hb Hhome Hnh Hu Hrun|r s s' h b d Hh Hd Hrun|r s s' h b Hh Hc Hrun]; simpl in *.
  - by eapply reserved_begin.
  - pose proof (reserved_log_write r s i k h b [] R Hi Hh (not_elem_of_nil _) buf_free_empty) as Hw.
    by apply (wp_run _ _ _ _ _ _ _ Hw) in Hrun as (_ & _ & ?).
  - by eapply reserved_end.
  - destruct (R) as (_ & _ & _ & bs & I & _).
    assert (Hw := zoom_bc_wp _ [] s _ (bread_spec b [] (bc s) (li_ok _ _ I) ltac:(lia) Hnh Hu buf_free_empty)).
    apply (wp_run _ _ _ _ _ _ _ Hw) in Hrun as (_ & Hl & Hok & _ & [C D W Hh P]). fold (abs s) (abs s') in *. simpl in *.
    eapply reserved_bc; try done. intros h' b'. rewrite Hh. intros [[<- <-]|[_ ?]]%lookup_insert_Some; [done|].
    by eapply reserved_held.
  - destruct (R) as (_ & _ & _ & bs & I & _).
    assert (Hw := zoom_bc_wp _ [] s _ (bstore_spec h b d [] (bc s) (li_ok _ _ I) Hh Hd)).
    apply (wp_run _ _ _ _ _ _ _ Hw) in Hrun as (_ & Hl & Hok & [C D W Hh' P]). fold (abs s) (abs s') in *. simpl in *.
    eapply reserved_bc; try done; [|intros ? ?; rewrite Hh'; by eapply reserved_held].
    intros x Hx. rewrite C. apply upd_ne. intros ->. apply Hx. by eapply reserved_held.
  - destruct (R) as (_ & _ & _ & bs & I & _).
    assert (Hw := zoom_bc_wp _ [] s _ (brelse_spec h b [] (bc s) (li_ok _ _ I) Hh Hc buf_free_empty)).
    apply (wp_run _ _ _ _ _ _ _ Hw) in Hrun as (_ & Hl & Hok & [C D W Hh' P]). fold (abs s) (abs s') in *. simpl in *.
    eapply reserved_bc; try done. intros ? ?. rewrite Hh'. intros [_ ?]%lookup_delete_Some. by eapply reserved_held.
Qed.

(** C22. The reservation of begin_op is enough: in every run of operations that
    call log_write at most MAXOPBLOCKS times each, from an empty log, a
    log_write finds room in the log. It does not panic, records the block once
    (a block already logged is absorbed) and leaves it pinned. *)
Theorem log_space_reserved s0 r s i k h b :
  log_inv [] s0 -> outstanding (lg s0) = 0 -> committing (lg s0) = false ->
  rtc txn_step ([], s0) (r, s) -> r !! i = Some (S k) -> held (abs s) !! h = Some b ->
  wp (log_write h) [] s (fun _ s' => exists bs, log_written bs b s s').
Proof using.
  intros I0 Ho Hc Hrun Hi Hh.
  assert (R : reserved (r, s).1 (r, s).2).
  { revert Hrun. apply (rtc_ind_r (fun x => reserved x.1 x.2)); [|intros y z _ Hst; by apply reserved_step].
    split; [done|]. split; [done|]. split; [constructor|]. exists []. split; [done|]. simpl. unfold LOGBLOCKS. lia. }
  eapply wp_mono; [by eapply reserved_log_write; [..|apply not_elem_of_nil|apply buf_free_empty]|].
  intros _ s' [HW _]. exact HW.
Qed.

(** The other side of the same constants: NBUF is not larger than
    LOGBLOCKS, so a transaction that has filled the log has also pinned every
    buffer, and the commit of its last operation panics for want of a buffer for
    the first log block. *)
Theorem full_transaction_panics bs s :
  log_inv bs s -> held (abs s) = ∅ -> length bs = LOGBLOCKS -> committing (lg s) = false ->
  outstanding (lg s) = 1 -> panics end_op [] s "bget: no buffers".
Proof using.
  intros. eapply end_op_full; try done; [apply not_elem_of_nil|apply buf_free_empty].
Qed.
End Txn.
