(* ===== verification/LogSample.v ===== *)
(** The theorems of the log at concrete transactions over the buffer cache of
    kernel/bio.c, booted on a blank disk with the log at block 2. *)
From S2P Require Import Prelude UserIface Bio Block Log LogCrash LogTxn.
Local Open Scope Z_scope.

Section Fill.
Context {B : Type} `{BufCache B}.

(** A transaction of one operation that has logged the [n] blocks from 100. *)
Record filled (n : nat) (s : lstate B) : Prop := {
  fi_inv : log_inv 2 (Z.of_nat <$> seq 100 n) s;
  fi_held : held (abs s) = ∅;
  fi_out : outstanding (lg s) = 1;
  fi_com : committing (lg s) = false
}.

Lemma seq_notin n : Z.of_nat (100 + n) ∉ (Z.of_nat <$> seq 100 n).
Proof. intros (x & Hx & Hin%elem_of_seq)%list_elem_of_fmap. lia. Qed.

(** Logging one more block. *)
Definition log_block (b : Z) : M (lstate B) unit :=
  h ← zoom (bread ROOTDEV b); log_write h;; zoom (brelse h).

Lemma log_block_wp n s : (n < LOGBLOCKS)%nat -> filled n s ->
  wp (log_block (Z.of_nat (100 + n))) [] s (fun _ s' => filled (S n) s').
Proof.
  intros Hn [I Hh Ho Hc]. set (b := Z.of_nat (100 + n)). set (bs := Z.of_nat <$> seq 100 n) in *.
  assert (Hlen : length bs = n) by (unfold bs; by rewrite length_fmap, length_seq).
  assert (Hb : 0 <= b < 2 ^ 31) by (unfold b, LOGBLOCKS in *; lia).
  unfold log_block. wstep. wstep. eapply wpl_call.
  { apply zoom_bc_wp, bread_spec; [apply I|lia|by apply not_held| |apply buf_free_empty].
    right. fold (abs s). rewrite in_use_held, (li_pins _ _ _ I), size_pins_of by (done || apply I). unfold LOGBLOCKS, NBUF in *. lia. }
  intros h s1 (Hl1 & Hok1 & _ & E1). fold (abs s) (abs s1) in E1. rewrite Hh, insert_empty in E1.
  assert (I1 : log_inv 2 bs s1).
  { destruct I as [T Hnd _ Hp Hhd Hlog _]. destruct E1 as [C D W Hh1 P]. simpl in *. split; rewrite ?Hl1, ?P, ?D; try done.
    - intros x Hx. rewrite C, D. by apply Hlog.
    - intros h' b'. rewrite Hh1. intros [<- <-]%lookup_singleton_Some. split; [done|]. unfold home, b, LOGBLOCKS. lia. }
  wstep. eapply wpl_call.
  { apply (log_write_wp 2 bs h b); [done| |lia|rewrite Hl1; lia|apply not_elem_of_nil|apply buf_free_empty].
    rewrite (beq_held _ _ E1). apply lookup_singleton_eq. }
  intros ? s2 (I2 & Ho2 & Hc2 & E2). unfold logged in *. rewrite decide_False in I2, E2 by apply seq_notin.
  assert (Hh2 : held (abs s2) = {[h := b]}) by (rewrite (beq_held _ _ E2); apply (beq_held _ _ E1)).
  eapply wpl_call.
  { apply zoom_bc_wp, (brelse_spec h b); [apply I2| | |apply buf_free_empty]; fold (abs s2).
    - rewrite Hh2. apply lookup_singleton_eq.
    - left. unfold pinned. rewrite (li_pins _ _ _ I2), pins_of_lookup, decide_True by set_solver. done. }
  intros ? s3 (Hl3 & Hok3 & [C D W Hh3 P]). fold (abs s2) (abs s3) in *. simpl in *. rewrite Hh2, delete_singleton_eq in Hh3.
  split; [done|]. split; [|done|by rewrite Hl3, Ho2, Hl1|by rewrite Hl3, Hc2, Hl1].
  rewrite seq_S, fmap_app. fold bs b. simpl. destruct I2 as [T2 Hnd2 _ Hp2 Hhd2 Hlog2 _].
  split; rewrite ?Hl3, ?P, ?D; try done.
  - intros x Hx. rewrite C, D. by apply Hlog2.
  - intros h' b'. by rewrite Hh3, lookup_empty.
Qed.

Lemma fill_from s0 n : filled 0 s0 -> (n <= LOGBLOCKS)%nat -> exists s, filled n s.
Proof.
  intros H0. induction n as [|n IH]; intros Hn; [by exists s0|].
  destruct IH as [s Hs]; [lia|]. destruct (wp_exists _ _ _ _ (log_block_wp n s ltac:(lia) Hs)) as (_ & s' & _ & Hs').
  by exists s'.
Qed.
End Fill.

Definition blank_log (o : Z) : log := mkLog 2 o false ROOTDEV 0 (replicate LOGBLOCKS 0).
Definition blank (o : Z) : lstate bcache := mkLstate (blank_log o) booted.

Lemma blank_txn o : txn 2 [] (blank_log o).
Proof. split; try done; try (vm_compute; lia). Qed.

Lemma blank_content x : content (abs (blank 0)) x = zero_block /\ disk (abs (blank 0)) x = zero_block.
Proof. split; [apply booted_ok|done]. Qed.

Lemma blank_inv o : log_inv 2 [] (blank o).
Proof.
  destruct booted_ok as (Hok & Hh & Hp & Hc). split; try done.
  - apply blank_txn.
  - constructor.
Qed.

Lemma fill n : (n <= LOGBLOCKS)%nat -> exists s : lstate bcache, filled n s.
Proof. apply (fill_from (blank 1)). split; [apply blank_inv|apply booted_ok|done|done]. Qed.

(** ** Witnesses *)
Lemma commit_crash_safe_witness : exists s : lstate bcache, filled 3 s /\
  wp commit [] s (fun _ s' => exists ws, writes (abs s') = writes (abs s) ++ ws /\
    (forall x, disk (abs s') x = apply_writes (disk (abs s)) ws x) /\
    (forall k, same_home 2 (recovered 2 (apply_writes (disk (abs s)) (take k ws)))
       (if decide (k <= 3)%nat then disk (abs s) else committed (abs s) [100; 101; 102])) /\
    same_home 2 (disk (abs s')) (committed (abs s) [100; 101; 102]) /\
    log_idle 2 s' /\ txn 2 [] (lg s') /\ pins (abs s') = unpin_all [100; 101; 102] (pins (abs s))).
Proof.
  destruct (fill 3) as [s Hs]; [unfold LOGBLOCKS; lia|]. exists s. split; [done|]. destruct Hs as [I Hh Ho Hc].
  change (Z.of_nat <$> seq 100 3) with [100; 101; 102] in I.
  apply (commit_crash_safe [] 2 buf_free_empty [100; 101; 102] s); try done; try apply I.
  - apply Forall_forall. intros b Hb. unfold pinned. rewrite (li_pins _ _ _ I), pins_of_lookup, decide_True by done. done.
  - rewrite (li_pins _ _ _ I). vm_compute. lia.
  - split; try done; apply I.
Defined.

(** A disk on which a transaction of blocks 100 and 101 was committed and not
    installed when the machine crashed. *)
Definition crash_header : block := put_block 1 101 (put_block 0 100 (put_n 2 zero_block)).
Definition crash_disk : gmap Z block :=
  {[ 2 := crash_header; 3 := replicate BSIZE 7; 4 := replicate BSIZE 8 ]}.
Definition crashed : lstate bcache := mkLstate (blank_log 0) (mkBcache boot_bufs crash_disk [] 1).

Lemma crash_disk_ok b : block_ok (disk_block crash_disk b).
Proof.
  assert (Hr : forall v, 0 <= v < 256 -> block_ok (replicate BSIZE v)).
  { intros v Hv. split; [apply length_replicate|by apply Forall_replicate]. }
  unfold disk_block, crash_disk.
  destruct (decide (b = 2)) as [->|H2]; [by apply put_block_ok, put_block_ok, put_n_ok, Hr; unfold LOGBLOCKS; lia|].
  rewrite lookup_insert_ne by done. destruct (decide (b = 3)) as [->|H3]; [by apply Hr|].
  rewrite lookup_insert_ne by done. destruct (decide (b = 4)) as [->|H4]; [by apply Hr|].
  rewrite lookup_singleton_ne by done. by apply Hr.
Qed.

Lemma crash_header_is : header (disk (abs crashed) 2) [100; 101].
Proof.
  split; [apply (crash_disk_ok 2)|by vm_compute|].
  intros [|[|i]] b Hb; simplify_eq/=; by vm_compute.
Qed.

Lemma initlog_recovers_witness :
  wp (initlog ROOTDEV 2) [] crashed (fun _ s' => exists ws, writes (abs s') = writes (abs crashed) ++ ws /\
    (forall x, disk (abs s') x = apply_writes (disk (abs crashed)) ws x) /\
    (forall k, same_home 2 (recovered 2 (apply_writes (disk (abs crashed)) (take k ws))) (recovered 2 (disk (abs crashed)))) /\
    same_home 2 (disk (abs s')) (recovered 2 (disk (abs crashed))) /\
    boot_state s' /\ log_idle 2 s' /\ txn 2 [] (lg s')).
Proof.
  apply (initlog_recovers [] 2 buf_free_empty [100; 101] crashed).
  - destruct (wp_exists _ _ _ _ (binit_wp [] crash_disk 1 crash_disk_ok)) as ([] & s' & Hrun & Hs).
    rewrite binit_run in Hrun. injection Hrun as <-. destruct Hs as (Hok & Hh & Hp & Hc). by split.
  - unfold LOGBLOCKS. lia.
  - apply crash_header_is.
  - unfold LOGBLOCKS. simpl. lia.
  - repeat constructor; try lia; unfold home, LOGBLOCKS; lia.
Defined.

(** After begin_op and bread the new operation may log the block it holds. *)
Lemma log_space_reserved_witness : exists (s : lstate bcache) h, held (abs s) !! h = Some 100 /\
  rtc (txn_step 2) ([], blank 0) ([10%nat], s) /\
  wp (log_write h) [] s (fun _ s' => exists bs, log_written 2 bs 100 s s').
Proof.
  assert (Hb : begin_op [] (blank 0) = Ok tt [] (blank 1)) by reflexivity.
  pose proof (blank_inv 1) as I1. destruct booted_ok as (Hok & Hh & Hp & _).
  assert (Hu : (size (in_use (abs (blank 1))) < NBUF)%nat).
  { rewrite in_use_held, (li_pins _ _ _ I1) by exact Hh. vm_compute. lia. }
  assert (Hw : wp (zoom (bread ROOTDEV 100)) [] (blank 1) (fun h s => lg s = lg (blank 1) /\ held (abs s) = {[h := 100]})).
  { eapply wp_mono; [apply zoom_bc_wp, bread_spec; [exact Hok|lia|by apply not_held|by right|apply buf_free_empty]|].
    intros h s (Hl & _ & _ & E). split; [done|]. etrans; [apply (beq_held _ _ E)|]. simpl. by rewrite Hh. }
  destruct (wp_exists _ _ _ _ Hw) as (h & s & Hrun & _ & E).
  assert (Hheld : held (abs s) !! h = Some 100) by (rewrite E; apply lookup_singleton_eq).
  assert (Hst : rtc (txn_step 2) ([], blank 0) ([10%nat], s)).
  { eapply rtc_l; [apply step_begin; exact Hb|]. apply rtc_once. apply (step_bread 2 [10%nat] (blank 1) s 100 h);
      [lia|unfold home, LOGBLOCKS; lia|apply not_held; exact Hh|right; exact Hu|exact Hrun]. }
  exists s, h. split; [exact Hheld|]. split; [exact Hst|].
  exact (log_space_reserved 2 (blank 0) [10%nat] s 0 9 h 100 (blank_inv 0) eq_refl eq_refl Hst eq_refl Hheld).
Defined.

Lemma full_transaction_panics_witness : exists s : lstate bcache, filled 30 s /\ panics end_op [] s "bget: no buffers".
Proof.
  destruct (fill 30) as [s Hs]; [unfold LOGBLOCKS; lia|]. exists s. split; [done|]. destruct Hs as [I Hh Ho Hc].
  by apply (full_transaction_panics 2 (Z.of_nat <$> seq 100 30) s I Hh).
Defined.
