(* ===== verification/Fs.v ===== *)
(** The file system, kernel/fs.c: the block allocator, inodes and their table,
    file contents, directories and paths, over the log and the buffer cache.
    [U] is the memory of the calling process. *)
From S2P Require Import Prelude UserIface Block Sleeplock CStrings Log.
Local Open Scope Z_scope.

(** * Constants and on-disk formats (kernel/fs.h, kernel/stat.h, kernel/param.h) *)
Definition ROOTINO : Z := 1.
Definition FSMAGIC : Z := 0x10203040.
Definition NDIRECT : nat := 11.
Definition NINDIRECT : nat := 256.
Definition NDINDIRECT : Z := 65536.
Definition MAXFILE : Z := Z.of_nat NDIRECT + Z.of_nat NINDIRECT + NDINDIRECT.
Definition NINODE : nat := 50.
Definition DIRSIZ : nat := 14.
Definition T_DIR : Z := 1.
Definition T_FILE : Z := 2.
Definition T_DEVICE : Z := 3.
Definition T_SYMLINK : Z := 4.

Record superblock := mkSb {
  sb_magic : Z; sb_size : Z; sb_nblocks : Z; sb_ninodes : Z;
  sb_nlog : Z; sb_logstart : Z; sb_inodestart : Z; sb_bmapstart : Z
}.

Definition sb_of (d : block) : superblock :=
  mkSb (get_le 4 0 d) (get_le 4 4 d) (get_le 4 8 d) (get_le 4 12 d)
       (get_le 4 16 d) (get_le 4 20 d) (get_le 4 24 d) (get_le 4 28 d).

Record dinode := mkDinode {
  di_type : Z; di_major : Z; di_minor : Z; di_nlink : Z; di_size : Z; di_addrs : list Z
}.

Definition DINODE_SIZE : nat := 64.
Definition NADDRS : nat := NDIRECT + 1 + 1.
Definition IPB : Z := 16.
Definition IBLOCK (i : Z) (sb : superblock) : Z := u32 (i / IPB + sb_inodestart sb).
Definition BPB : Z := Z.of_nat BSIZE * 8.
Definition BBLOCK (b : Z) (sb : superblock) : Z := u32 (b / BPB + sb_bmapstart sb).

(** The dinode at byte offset [o] of a block, and its replacement. *)
Definition get_dinode (o : nat) (d : block) : dinode :=
  mkDinode (s16 (get_le 2 o d)) (s16 (get_le 2 (o + 2) d)) (s16 (get_le 2 (o + 4) d)) (s16 (get_le 2 (o + 6) d))
    (get_le 4 (o + 8) d) ((fun i => get_le 4 (o + 12 + 4 * i) d) <$> seq 0 NADDRS).
Fixpoint put_addrs (o : nat) (l : list Z) (d : block) : block :=
  match l with
  | [] => d
  | a :: l' => put_addrs (o + 4) l' (put_le 4 o a d)
  end.
Definition put_dinode (o : nat) (x : dinode) (d : block) : block :=
  put_addrs (o + 12) (di_addrs x)
    (put_le 4 (o + 8) (di_size x) (put_le 2 (o + 6) (di_nlink x) (put_le 2 (o + 4) (di_minor x)
      (put_le 2 (o + 2) (di_major x) (put_le 2 o (di_type x) d))))).
Definition dinode_off (inum : Z) : nat := Z.to_nat (inum mod IPB) * DINODE_SIZE.

Record dirent := mkDirent { de_inum : Z; de_name : list Z }.
Definition DIRENT_SIZE : Z := 16.
Definition dirent_of (l : list Z) : dirent := mkDirent (get_le 2 0 l) (take DIRSIZ (drop 2 l)).
Definition dirent_bytes (e : dirent) : list Z := le_bytes 2 (de_inum e) ++ de_name e.

(** * Memory (kernel/file.h) *)
Inductive fs_ops := default_fs_ops | ext_fs_ops.

Record inode := mkInode {
  i_dev : Z; i_inum : Z; i_ref : Z; i_lock : sleeplock; i_valid : Z;
  i_type : Z; i_major : Z; i_minor : Z; i_nlink : Z; i_size : Z; i_addrs : list Z;
  i_ops : option fs_ops
}.

Definition zero_inode : inode := mkInode 0 0 0 (mkSleep 0 "" 0) 0 0 0 0 0 0 (replicate NADDRS 0) None.

Definition with_iname (dev inum : Z) (x : inode) : inode :=
  mkInode dev inum 1 (i_lock x) 0 (i_type x) (i_major x) (i_minor x) (i_nlink x) (i_size x) (i_addrs x) (i_ops x).
Definition with_ref (n : Z) (x : inode) : inode :=
  mkInode (i_dev x) (i_inum x) n (i_lock x) (i_valid x) (i_type x) (i_major x) (i_minor x) (i_nlink x) (i_size x) (i_addrs x) (i_ops x).
Definition with_ilock (l : sleeplock) (x : inode) : inode :=
  mkInode (i_dev x) (i_inum x) (i_ref x) l (i_valid x) (i_type x) (i_major x) (i_minor x) (i_nlink x) (i_size x) (i_addrs x) (i_ops x).
Definition with_ivalid (v : Z) (x : inode) : inode :=
  mkInode (i_dev x) (i_inum x) (i_ref x) (i_lock x) v (i_type x) (i_major x) (i_minor x) (i_nlink x) (i_size x) (i_addrs x) (i_ops x).
Definition with_dinode (d : dinode) (x : inode) : inode :=
  mkInode (i_dev x) (i_inum x) (i_ref x) (i_lock x) (i_valid x) (di_type d) (di_major d) (di_minor d) (di_nlink d) (di_size d) (di_addrs d) (i_ops x).
Definition dinode_of (x : inode) : dinode :=
  mkDinode (i_type x) (i_major x) (i_minor x) (i_nlink x) (i_size x) (i_addrs x).
Definition with_type (t : Z) (x : inode) : inode :=
  with_dinode (mkDinode t (i_major x) (i_minor x) (i_nlink x) (i_size x) (i_addrs x)) x.
Definition with_nlink (n : Z) (x : inode) : inode :=
  with_dinode (mkDinode (i_type x) (i_major x) (i_minor x) n (i_size x) (i_addrs x)) x.
Definition with_size (n : Z) (x : inode) : inode :=
  with_dinode (mkDinode (i_type x) (i_major x) (i_minor x) (i_nlink x) n (i_addrs x)) x.
Definition with_addr (i : nat) (a : Z) (x : inode) : inode :=
  with_dinode (mkDinode (i_type x) (i_major x) (i_minor x) (i_nlink x) (i_size x) (<[i := a]> (i_addrs x))) x.
Definition with_dev (ma mi : Z) (x : inode) : inode :=
  with_dinode (mkDinode (i_type x) ma mi (i_nlink x) (i_size x) (i_addrs x)) x.
Definition with_ops (o : option fs_ops) (x : inode) : inode :=
  mkInode (i_dev x) (i_inum x) (i_ref x) (i_lock x) (i_valid x) (i_type x) (i_major x) (i_minor x) (i_nlink x) (i_size x) (i_addrs x) o.

(** * The state of the file system
    [kbuf] is the kernel object that an address argument with [user = 0] points
    into (a local variable of the caller); [out] what printf has printed. *)
Record fss (B U : Type) := mkFss {
  lst : lstate B;
  sb : superblock;
  itable : list inode;
  kbuf : list Z;
  usr : U;
  curpid : Z;
  cwd : nat;
  out : list (string * list Z)
}.
Arguments mkFss {B U}.
Arguments lst {B U}.
Arguments sb {B U}.
Arguments itable {B U}.
Arguments kbuf {B U}.
Arguments usr {B U}.
Arguments curpid {B U}.
Arguments cwd {B U}.
Arguments out {B U}.

#[export] Program Instance fss_lst B U : Lens (fss B U) (lstate B) := {
  view := lst;
  over c s := mkFss c (sb s) (itable s) (kbuf s) (usr s) (curpid s) (cwd s) (out s)
}.
Next Obligation. done. Qed.
Next Obligation. by intros B U []. Qed.
Next Obligation. done. Qed.

#[export] Program Instance fss_usr B U : Lens (fss B U) U := {
  view := usr;
  over c s := mkFss (lst s) (sb s) (itable s) (kbuf s) c (curpid s) (cwd s) (out s)
}.
Next Obligation. done. Qed.
Next Obligation. by intros B U []. Qed.
Next Obligation. done. Qed.

Section Operations.
Context {B U : Type} `{BufCache B} `{UserMemory U}.
Local Abbreviation FM := (M (fss B U)).

Definition set_sb (x : superblock) (s : fss B U) : fss B U :=
  mkFss (lst s) x (itable s) (kbuf s) (usr s) (curpid s) (cwd s) (out s).
Definition set_itable (t : list inode) (s : fss B U) : fss B U :=
  mkFss (lst s) (sb s) t (kbuf s) (usr s) (curpid s) (cwd s) (out s).
Definition set_kbuf (k : list Z) (s : fss B U) : fss B U :=
  mkFss (lst s) (sb s) (itable s) k (usr s) (curpid s) (cwd s) (out s).
Definition set_cwd (c : nat) (s : fss B U) : fss B U :=
  mkFss (lst s) (sb s) (itable s) (kbuf s) (usr s) (curpid s) c (out s).
Definition printf (fmt : string) (args : list Z) : FM unit :=
  modify (fun s => mkFss (lst s) (sb s) (itable s) (kbuf s) (usr s) (curpid s) (cwd s) (out s ++ [(fmt, args)])).

(** The calls to the cache and to the log. *)
Definition fbread (dev b : Z) : FM nat := zoom (C := lstate B) (zoom (bread dev b)).
Definition fbdata (h : nat) : FM block := zoom (C := lstate B) (zoom (bdata h)).
Definition fbstore (h : nat) (d : block) : FM unit := zoom (C := lstate B) (zoom (bstore h d)).
Definition fbrelse (h : nat) : FM unit := zoom (C := lstate B) (zoom (brelse h)).
Definition flog_write (h : nat) : FM unit := zoom (C := lstate B) (log_write h).
Definition fbegin_op : FM unit := zoom (C := lstate B) begin_op.
Definition fend_op : FM unit := zoom (C := lstate B) end_op.

(** The inode [ip] of the table. *)
Definition inode_at (ip : nat) (s : fss B U) : inode := nth ip (itable s) zero_inode.
Definition on_inode (ip : nat) (f : inode -> inode) (s : fss B U) : fss B U :=
  set_itable (alter f ip (itable s)) s.
Definition iset (ip : nat) (f : inode -> inode) : FM unit := modify (on_inode ip f).
Definition iof (ip : nat) : FM inode := gets (inode_at ip).

(** * Blocks *)
Definition readsb (dev : Z) : FM unit :=
  bp ← fbread dev 1;
  d ← fbdata bp;
  modify (set_sb (sb_of d));;
  fbrelse bp.

Definition bzero (dev bno : Z) : FM unit :=
  bp ← fbread dev (u32 bno);
  fbstore bp zero_block;;
  flog_write bp;;
  fbrelse bp.

(** The byte and the mask of bit [bi] of a bitmap block. *)
Definition bit_set (bi : Z) (d : block) : bool :=
  negb (Z.land (nth (Z.to_nat (bi / 8)) d 0) (Z.shiftl 1 (bi mod 8)) =? 0).
Definition set_bit (bi : Z) (d : block) : block :=
  alter (fun v => Z.lor v (Z.shiftl 1 (bi mod 8))) (Z.to_nat (bi / 8)) d.
Definition clear_bit (bi : Z) (d : block) : block :=
  alter (fun v => Z.ldiff v (Z.shiftl 1 (bi mod 8))) (Z.to_nat (bi / 8)) d.

Definition balloc_scan_body (dev b : Z) (bp : nat) (bi : Z) : FM (Z + option Z) :=
  x ← gets sb;
  if (bi <? BPB) && (u32 (b + bi) <? sb_size x) then
    d ← fbdata bp;
    if bit_set bi d then mret (inl (bi + 1))
    else
      fbstore bp (set_bit bi d);;
      flog_write bp;;
      fbrelse bp;;
      bzero dev (b + bi);;
      mret (inr (Some (u32 (b + bi))))
  else mret (inr None).

Definition balloc_body (dev : Z) (b : Z) : FM (Z + Z) :=
  x ← gets sb;
  if u32 b <? sb_size x then
    bp ← fbread dev (BBLOCK b x);
    r ← loop (S (Z.to_nat BPB)) (balloc_scan_body dev b bp) 0;
    match r with
    | Some a => mret (inr a)
    | None => fbrelse bp;; mret (inl (b + BPB))
    end
  else
    printf "balloc: out of blocks" [];;
    mret (inr 0).

Definition balloc (dev : Z) : FM Z :=
  x ← gets sb;
  loop (S (S (Z.to_nat (sb_size x / BPB)))) (balloc_body dev) 0.

Definition bfree (dev b : Z) : FM unit :=
  x ← gets sb;
  bp ← fbread dev (BBLOCK b x);
  d ← fbdata bp;
  let bi := b mod BPB in
  if bit_set bi d then
    fbstore bp (clear_bit bi d);;
    flog_write bp;;
    fbrelse bp
  else panic "freeing free block".

(** * Inodes *)
Definition iinit : FM unit :=
  modify (fun s => set_itable (with_ilock (initsleeplock "inode") <$> itable s) s).

Definition same_inode (dev inum : Z) (x : inode) : bool :=
  (0 <? i_ref x) && (i_dev x =? dev) && (i_inum x =? inum).

(** One pass finds the entry of the inode; the first free entry it has seen is
    used when there is none. *)
Definition iget (dev inum : Z) : FM nat :=
  acquire itable_lock;;
  t ← gets itable;
  match find_idx (same_inode dev inum) t with
  | Some ip => iset ip (fun x => with_ref (i_ref x + 1) x);; release itable_lock;; mret ip
  | None =>
      match find_idx (fun x => i_ref x =? 0) t with
      | None => panic "iget: no inodes"
      | Some ip => iset ip (with_iname dev inum);; release itable_lock;; mret ip
      end
  end.

Definition idup (ip : nat) : FM nat :=
  acquire itable_lock;;
  iset ip (fun x => with_ref (i_ref x + 1) x);;
  release itable_lock;;
  mret ip.

Definition ialloc_body (dev type inum : Z) : FM (Z + option nat) :=
  x ← gets sb;
  if inum <? sb_ninodes x then
    bp ← fbread dev (IBLOCK inum x);
    d ← fbdata bp;
    if di_type (get_dinode (dinode_off inum) d) =? 0 then
      fbstore bp (put_dinode (dinode_off inum) (mkDinode type 0 0 0 0 (replicate NADDRS 0)) d);;
      flog_write bp;;
      fbrelse bp;;
      ip ← iget dev inum;
      mret (inr (Some ip))
    else
      fbrelse bp;;
      mret (inl (inum + 1))
  else
    printf "ialloc: no inodes" [];;
    mret (inr None).

Definition ialloc (dev type : Z) : FM (option nat) :=
  x ← gets sb;
  loop (S (Z.to_nat (sb_ninodes x))) (ialloc_body dev type) 1.

Definition iupdate (ip : nat) : FM unit :=
  x ← gets sb;
  i ← iof ip;
  bp ← fbread (i_dev i) (IBLOCK (i_inum i) x);
  d ← fbdata bp;
  fbstore bp (put_dinode (dinode_off (i_inum i)) (dinode_of i) d);;
  flog_write bp;;
  fbrelse bp.

Definition get_ilock (ip : nat) (s : fss B U) : sleeplock := i_lock (inode_at ip s).
Definition set_ilock (ip : nat) (l : sleeplock) : fss B U -> fss B U := on_inode ip (with_ilock l).
Definition iacquiresleep (ip : nat) : FM unit := acquiresleep (inode_lock ip) (get_ilock ip) (set_ilock ip) curpid.
Definition ireleasesleep (ip : nat) : FM unit := releasesleep (inode_lock ip) (get_ilock ip) (set_ilock ip).
Definition iholdingsleep (ip : nat) : FM bool := holdingsleep (inode_lock ip) (get_ilock ip) curpid.

Definition ilock (ip : nat) : FM unit :=
  i ← iof ip;
  if i_ref i <? 1 then panic "ilock"
  else
    iacquiresleep ip;;
    i ← iof ip;
    if i_valid i =? 0 then
      x ← gets sb;
      bp ← fbread (i_dev i) (IBLOCK (i_inum i) x);
      d ← fbdata bp;
      iset ip (with_dinode (get_dinode (dinode_off (i_inum i)) d));;
      fbrelse bp;;
      iset ip (with_ivalid 1);;
      i ← iof ip;
      if i_type i =? 0 then panic "ilock: no type" else mret tt
    else mret tt.

Definition iunlock (ip : nat) : FM unit :=
  b ← iholdingsleep ip;
  i ← iof ip;
  if negb (b : bool) || (i_ref i <? 1) then panic "iunlock"
  else ireleasesleep ip.

(** * Contents *)

(** The words of an indirect block. *)
Definition get_word (i : nat) (d : block) : Z := get_le 4 (4 * i) d.
Definition put_word (i : nat) (a : Z) (d : block) : block := put_le 4 (4 * i) a d.

(** [ip->addrs[i]], allocating it when it is 0; 0 when the disk is full. *)
Definition addr_or_alloc (ip i : nat) : FM Z :=
  x ← iof ip;
  let addr := nth i (i_addrs x) 0 in
  if addr =? 0 then
    addr ← balloc (i_dev x);
    if addr =? 0 then mret 0 else iset ip (with_addr i addr);; mret addr
  else mret addr.

(** Entry [i] of the indirect block [addr], allocating it when it is 0. *)
Definition word_or_alloc (dev addr : Z) (i : nat) : FM Z :=
  bp ← fbread dev addr;
  d ← fbdata bp;
  let a := get_word i d in
  r ← (if a =? 0 then
         n ← balloc dev;
         (if n =? 0 then mret tt else d' ← fbdata bp; fbstore bp (put_word i n d');; flog_write bp);;
         mret n
       else mret a);
  fbrelse bp;;
  mret r.

Definition bmap (ip : nat) (bn : Z) : FM Z :=
  x ← iof ip;
  if bn <? Z.of_nat NDIRECT then addr_or_alloc ip (Z.to_nat bn)
  else
    let bn := bn - Z.of_nat NDIRECT in
    if bn <? Z.of_nat NINDIRECT then
      addr ← addr_or_alloc ip NDIRECT;
      if addr =? 0 then mret 0 else word_or_alloc (i_dev x) addr (Z.to_nat bn)
    else
      let bn := bn - Z.of_nat NINDIRECT in
      if bn <? NDINDIRECT then
        addr ← addr_or_alloc ip (NDIRECT + 1);
        if addr =? 0 then mret 0
        else
          addr ← word_or_alloc (i_dev x) addr (Z.to_nat (bn / Z.of_nat NINDIRECT));
          word_or_alloc (i_dev x) addr (Z.to_nat (bn mod Z.of_nat NINDIRECT))
      else panic "bmap: out of range".

(** ** itrunc *)
Definition free_direct_body (ip : nat) (i : nat) : FM (nat + unit) :=
  if decide (i < NDIRECT)%nat then
    x ← iof ip;
    let a := nth i (i_addrs x) 0 in
    (if a =? 0 then mret tt else bfree (i_dev x) a;; iset ip (with_addr i 0));;
    mret (inl (S i))
  else mret (inr tt).

(** The loop over the entries of an indirect block; its data is read afresh in
    every round, as the code does through the pointer. *)
Definition free_words_body (dev : Z) (bp : nat) (free_entry : Z -> FM unit) (j : nat) : FM (nat + unit) :=
  if decide (j < NINDIRECT)%nat then
    d ← fbdata bp;
    (if get_word j d =? 0 then mret tt else free_entry (get_word j d));;
    mret (inl (S j))
  else mret (inr tt).

(** Free what the indirect block [a] lists with [free_entry], then the block. *)
Definition free_indirect (dev a : Z) (free_entry : Z -> FM unit) : FM unit :=
  bp ← fbread dev a;
  loop (S NINDIRECT) (free_words_body dev bp free_entry) O;;
  fbrelse bp;;
  bfree dev a.

Definition itrunc (ip : nat) : FM unit :=
  loop (S NDIRECT) (free_direct_body ip) O;;
  x ← iof ip;
  let a := nth NDIRECT (i_addrs x) 0 in
  (if a =? 0 then mret tt
   else free_indirect (i_dev x) a (bfree (i_dev x));; iset ip (with_addr NDIRECT 0));;
  let a := nth (NDIRECT + 1) (i_addrs x) 0 in
  (if a =? 0 then mret tt
   else free_indirect (i_dev x) a (fun b => free_indirect (i_dev x) b (bfree (i_dev x)));;
        iset ip (with_addr (NDIRECT + 1) 0));;
  iset ip (with_size 0);;
  iupdate ip.

Definition iput (ip : nat) : FM unit :=
  acquire itable_lock;;
  i ← iof ip;
  (if (i_ref i =? 1) && negb (i_valid i =? 0) && (i_nlink i =? 0) then
     iacquiresleep ip;;
     release itable_lock;;
     itrunc ip;;
     iset ip (with_type 0);;
     iupdate ip;;
     iset ip (with_ivalid 0);;
     ireleasesleep ip;;
     acquire itable_lock
   else mret tt);;
  iset ip (fun x => with_ref (i_ref x - 1) x);;
  release itable_lock.

Definition iunlockput (ip : nat) : FM unit :=
  iunlock ip;;
  iput ip.

Definition ireclaim_body (dev inum : Z) : FM (Z + unit) :=
  x ← gets sb;
  if inum <? sb_ninodes x then
    bp ← fbread dev (IBLOCK inum x);
    d ← fbdata bp;
    let di := get_dinode (dinode_off inum) d in
    ip ← (if negb (di_type di =? 0) && (di_nlink di =? 0) then
            printf "ireclaim: orphaned inode %d" [inum];;
            ip ← iget dev inum;
            mret (Some ip)
          else mret None);
    fbrelse bp;;
    (match ip with
     | Some ip => fbegin_op;; ilock ip;; iunlock ip;; iput ip;; fend_op
     | None => mret tt
     end);;
    mret (inl (inum + 1))
  else mret (inr tt).

Definition ireclaim (dev : Z) : FM unit :=
  x ← gets sb;
  loop (S (Z.to_nat (sb_ninodes x))) (ireclaim_body dev) 1.

Definition fsinit (dev : Z) : FM unit :=
  readsb dev;;
  x ← gets sb;
  if negb (sb_magic x =? FSMAGIC) then panic "invalid file system"
  else
    zoom (C := lstate B) (initlog dev (sb_logstart x));;
    ireclaim dev.

Record stat := mkStat { st_dev : Z; st_ino : Z; st_type : Z; st_nlink : Z; st_size : Z }.
Definition stati (ip : nat) : FM stat :=
  x ← iof ip;
  mret (mkStat (i_dev x) (i_inum x) (i_type x) (i_nlink x) (i_size x)).

(** ** either_copyout and either_copyin of kernel/proc.c *)
Definition splice (o : nat) (l d : list Z) : list Z := take o d ++ l ++ drop (o + length l) d.

Definition either_copyout (user_dst : bool) (dst : Z) (bs : list Z) : FM Z :=
  if user_dst then zoom (C := U) (ucopyout dst bs)
  else
    k ← gets kbuf;
    if decide (0 <= dst /\ dst + Z.of_nat (length bs) <= Z.of_nat (length k)) then
      modify (set_kbuf (splice (Z.to_nat dst) bs k));; mret 0
    else undef "memmove to a kernel object".

(** The result and the bytes that were copied, all of them when it is 0. *)
Definition either_copyin (user_src : bool) (src : Z) (len : Z) : FM (Z * list Z) :=
  if user_src then zoom (C := U) (ucopyin src len)
  else
    k ← gets kbuf;
    if decide (0 <= src /\ src + len <= Z.of_nat (length k)) then
      mret (0, take (Z.to_nat len) (drop (Z.to_nat src) k))
    else undef "memmove from a kernel object".

Definition readi_body (ip : nat) (user_dst : bool) (n : Z) (x : Z * Z * Z) : FM ((Z * Z * Z) + Z) :=
  let '(tot, off, dst) := x in
  if tot <? n then
    addr ← bmap ip (off / Z.of_nat BSIZE);
    if addr =? 0 then mret (inr tot)
    else
      i ← iof ip;
      bp ← fbread (i_dev i) addr;
      let m := Z.min (n - tot) (Z.of_nat BSIZE - off mod Z.of_nat BSIZE) in
      d ← fbdata bp;
      r ← either_copyout user_dst dst (take (Z.to_nat m) (drop (Z.to_nat (off mod Z.of_nat BSIZE)) d));
      if r =? -1 then fbrelse bp;; mret (inr (u32 (-1)))
      else fbrelse bp;; mret (inl (u32 (tot + m), u32 (off + m), u64 (dst + m)))
  else mret (inr tot).

Definition readi (ip : nat) (user_dst : bool) (dst off n : Z) : FM Z :=
  i ← iof ip;
  if (i_size i <? off) || (u32 (off + n) <? off) then mret 0
  else
    let n := if i_size i <? u32 (off + n) then i_size i - off else n in
    tot ← loop (S (Z.to_nat n)) (readi_body ip user_dst n) (0, off, dst);
    mret (s32 tot).

(** The loop of writei leaves [tot] and [off]. *)
Definition writei_body (ip : nat) (user_src : bool) (n : Z) (x : Z * Z * Z) : FM ((Z * Z * Z) + (Z * Z)) :=
  let '(tot, off, src) := x in
  if tot <? n then
    addr ← bmap ip (off / Z.of_nat BSIZE);
    if addr =? 0 then mret (inr (tot, off))
    else
      i ← iof ip;
      bp ← fbread (i_dev i) addr;
      let m := Z.min (n - tot) (Z.of_nat BSIZE - off mod Z.of_nat BSIZE) in
      r ← either_copyin user_src src m;
      d ← fbdata bp;
      fbstore bp (splice (Z.to_nat (off mod Z.of_nat BSIZE)) r.2 d);;
      if r.1 =? -1 then fbrelse bp;; mret (inr (tot, off))
      else flog_write bp;; fbrelse bp;; mret (inl (u32 (tot + m), u32 (off + m), u64 (src + m)))
  else mret (inr (tot, off)).

Definition writei (ip : nat) (user_src : bool) (src off n : Z) : FM Z :=
  i ← iof ip;
  if (i_size i <? off) || (u32 (off + n) <? off) then mret (-1)
  else if MAXFILE * Z.of_nat BSIZE <? u32 (off + n) then mret (-1)
  else
    r ← loop (S (Z.to_nat n)) (writei_body ip user_src n) (0, off, src);
    i ← iof ip;
    (if i_size i <? r.2 then iset ip (with_size r.2) else mret tt);;
    iupdate ip;;
    mret (s32 r.1).

(** * Directories *)

(** A string function that would read outside its arguments is undefined. *)
Definition defined {A} (o : option A) : FM A :=
  match o with Some a => mret a | None => undef "string" end.

Definition namecmp (s t : list Z) : option Z := strncmp s t DIRSIZ.

(** [readi(dp, 0, (uint64)&de, off, sizeof(de))] into a local dirent. *)
Definition read_dirent (dp : nat) (off : Z) (msg : string) : FM dirent :=
  modify (set_kbuf (replicate 16 0));;
  r ← readi dp false 0 off DIRENT_SIZE;
  if negb (r =? DIRENT_SIZE) then panic msg
  else k ← gets kbuf; mret (dirent_of k).

Definition dirlookup_body (dp : nat) (name : list Z) (off : Z) : FM (Z + option (nat * Z)) :=
  x ← iof dp;
  if off <? i_size x then
    de ← read_dirent dp off "dirlookup read";
    if de_inum de =? 0 then mret (inl (u32 (off + DIRENT_SIZE)))
    else
      c ← defined (namecmp name (de_name de));
      if c =? 0 then ip ← iget (i_dev x) (de_inum de); mret (inr (Some (ip, off)))
      else mret (inl (u32 (off + DIRENT_SIZE)))
  else mret (inr None).

(** The inode of the entry and its offset ([*poff]). *)
Definition dirlookup (dp : nat) (name : list Z) : FM (option (nat * Z)) :=
  x ← iof dp;
  if negb (i_type x =? T_DIR) then panic "dirlookup not DIR"
  else loop (S (Z.to_nat (i_size x))) (dirlookup_body dp name) 0.

Definition dirlink_body (dp : nat) (off : Z) : FM (Z + Z) :=
  x ← iof dp;
  if u32 off <? i_size x then
    de ← read_dirent dp off "dirlink read";
    if de_inum de =? 0 then mret (inr off) else mret (inl (off + DIRENT_SIZE))
  else mret (inr off).

Definition dirlink (dp : nat) (name : list Z) (inum : Z) : FM Z :=
  r ← dirlookup dp name;
  match r with
  | Some (ip, _) => iput ip;; mret (-1)
  | None =>
      x ← iof dp;
      off ← loop (S (Z.to_nat (i_size x))) (dirlink_body dp) 0;
      nm ← defined (strncpy (replicate DIRSIZ 0) name DIRSIZ);
      modify (set_kbuf (dirent_bytes (mkDirent (inum mod 2 ^ 16) nm)));;
      r ← writei dp false 0 (u32 off) DIRENT_SIZE;
      if negb (r =? DIRENT_SIZE) then mret (-1) else mret 0
  end.
End Operations.

(** * Paths *)
Definition slash : Z := 47.

(** A path is a string with its terminator; [None] reads past the end. *)
Fixpoint skip_slashes (path : list Z) : option (list Z) :=
  match path with
  | [] => None
  | c :: p => if c =? slash then skip_slashes p else Some path
  end.

(** The characters up to the next slash or terminator, and the rest. *)
Fixpoint span_elem (path : list Z) : option (list Z * list Z) :=
  match path with
  | [] => None
  | c :: p =>
      if (c =? slash) || (c =? 0) then Some ([], path)
      else r ← span_elem p; Some (c :: r.1, r.2)
  end.

(** The new value of the DIRSIZ bytes at [name]. *)
Definition copy_elem (s name : list Z) : list Z :=
  if (DIRSIZ <=? length s)%nat then take DIRSIZ s
  else s ++ 0 :: drop (S (length s)) name.

(** [Some None] is the null pointer: there is no element. *)
Definition skipelem (path name : list Z) : option (option (list Z * list Z)) :=
  p ← skip_slashes path;
  if default 0 (head p) =? 0 then Some None
  else
    r ← span_elem p;
    q ← skip_slashes r.2;
    Some (Some (q, copy_elem r.1 name)).

Section Paths.
Context {B U : Type} `{BufCache B} `{UserMemory U}.
Local Abbreviation FM := (M (fss B U)).

Definition namex_body (nameiparent : bool) (x : nat * list Z * list Z) : FM ((nat * list Z * list Z) + option (nat * list Z)) :=
  let '(ip, path, name) := x in
  e ← defined (skipelem path name);
  match e with
  | None =>
      if nameiparent then iput ip;; mret (inr None) else mret (inr (Some (ip, name)))
  | Some (path, name) =>
      ilock ip;;
      i ← iof ip;
      if negb (i_type i =? T_DIR) then iunlockput ip;; mret (inr None)
      else if nameiparent && (default 0 (head path) =? 0) then iunlock ip;; mret (inr (Some (ip, name)))
      else
        r ← dirlookup ip name;
        match r with
        | None => iunlockput ip;; mret (inr None)
        | Some (next, _) => iunlockput ip;; mret (inl (next, path, name))
        end
  end.

(** The inode, and the last element left in [name]. *)
Definition namex (path : list Z) (nameiparent : bool) (name : list Z) : FM (option (nat * list Z)) :=
  ip ← (if default 0 (head path) =? slash then iget ROOTDEV ROOTINO
        else c ← gets cwd; idup c);
  loop (S (length path)) (namex_body nameiparent) (ip, path, name).

Definition namei (path : list Z) : FM (option nat) :=
  r ← namex path false (replicate DIRSIZ 0);
  mret (fst <$> r).

Definition nameiparent (path name : list Z) : FM (option (nat * list Z)) := namex path true name.

(** * The operations behind a file: fs.c's own and the monitored ones of
    kernel/ext.c *)
Definition default_read (ip : nat) (user_dst : bool) (dst off n : Z) : FM Z := readi ip user_dst dst off (u32 n).
Definition default_write (ip : nat) (user_src : bool) (src off n : Z) : FM Z := writei ip user_src src off (u32 n).

Definition ext_write (ip : nat) (user_src : bool) (src off n : Z) : FM Z :=
  p ← gets curpid;
  i ← iof ip;
  printf "[MONITOR] PID %d is writing to inode %d (size %d)" [p; i_inum i; n];;
  default_write ip user_src src off n.
Definition ext_read (ip : nat) (user_dst : bool) (dst off n : Z) : FM Z :=
  p ← gets curpid;
  i ← iof ip;
  printf "[MONITOR] PID %d is reading from inode %d (size %d)" [p; i_inum i; n];;
  default_read ip user_dst dst off n.

Definition ops_read (o : fs_ops) : nat -> bool -> Z -> Z -> Z -> FM Z :=
  match o with default_fs_ops => default_read | ext_fs_ops => ext_read end.
Definition ops_write (o : fs_ops) : nat -> bool -> Z -> Z -> Z -> FM Z :=
  match o with default_fs_ops => default_write | ext_fs_ops => ext_write end.
End Paths.
