(* ===== verification/FsBlocks.v ===== *)
(** The block layer of kernel/fs.c inside a transaction: how bread, stores that
    are logged, and brelse change what the file system sees, and the correctness
    of the block allocator. *)
From S2P Require Import Prelude UserIface Block Sleeplock CStrings Log LogCrash LogTxn Fs.
Local Open Scope Z_scope.

Lemma map_img_size (m : gmap nat Z) : (size (map_img m : gset Z) <= size m)%nat.
Proof.
  induction m as [|i x m Hi IH] using map_ind; [by rewrite map_img_empty_L|].
  rewrite map_size_insert_None by done. etrans; [apply subseteq_size, map_img_insert_subseteq|].
  rewrite union_comm_L. etrans; [apply size_union_1|]. lia.
Qed.

(** * Bits of the free map *)
Lemma land_bit v k : 0 <= k -> (Z.land v (Z.shiftl 1 k) =? 0) = negb (Z.testbit v k).
Proof.
  intros Hk. rewrite Z.shiftl_1_l. destruct (Z.testbit v k) eqn:E; simpl.
  - apply Z.eqb_neq. intros Hz. apply (f_equal (fun x => Z.testbit x k)) in Hz.
    rewrite Z.land_spec, E, Z.pow2_bits_true, Z.bits_0 in Hz by done. done.
  - apply Z.eqb_eq, Z.bits_inj'. intros n Hn. rewrite Z.land_spec, Z.bits_0.
    destruct (decide (n = k)) as [->|Hne]; [by rewrite E|]. rewrite Z.pow2_bits_false by done. apply andb_false_r.
Qed.

Lemma bit_set_testbit bi d : 0 <= bi -> bit_set bi d = Z.testbit (nth (Z.to_nat (bi / 8)) d 0) (bi mod 8).
Proof.
  intros Hb. unfold bit_set. rewrite land_bit, negb_involutive; [done|]. apply Z.mod_pos_bound. lia.
Qed.

Lemma nth_alter (f : Z -> Z) i j (d : block) : (i < length d)%nat ->
  nth j (alter f i d) 0 = if decide (j = i) then f (nth i d 0) else nth j d 0.
Proof.
  intros Hi. rewrite !nth_lookup. case_decide as E; [subst j|by rewrite list_lookup_alter_ne].
  rewrite list_lookup_alter_eq. by destruct (lookup_lt_is_Some_2 d i Hi) as [x ->].
Qed.

(** A bit of a block: its byte and its position there determine it. *)
Lemma bit_set_alter f (v : bool) bi bj d :
  (forall x k, 0 <= k -> Z.testbit (f x) k = if decide (k = bi mod 8) then v else Z.testbit x k) ->
  0 <= bi < BPB -> 0 <= bj -> length d = BSIZE ->
  bit_set bj (alter f (Z.to_nat (bi / 8)) d) = if decide (bj = bi) then v else bit_set bj d.
Proof.
  intros Hf Hi Hj Hd. rewrite !bit_set_testbit by lia. assert (BPB = 8192) as HB by done.
  rewrite nth_alter by (rewrite Hd; unfold BSIZE; zdiv).
  case_decide as E1; case_decide as E2; try done.
  - subst bj. rewrite Hf by (apply Z.mod_pos_bound; lia). by rewrite decide_True.
  - rewrite Hf by (apply Z.mod_pos_bound; lia). rewrite decide_False; [by rewrite E1|]. intros E3. apply E2.
    apply Z2Nat.inj in E1; [|apply Z.div_pos; lia..]. zdiv.
  - subst bj. done.
Qed.

Lemma bit_set_set bi bj d : 0 <= bi < BPB -> 0 <= bj -> length d = BSIZE ->
  bit_set bj (set_bit bi d) = if decide (bj = bi) then true else bit_set bj d.
Proof.
  intros. apply bit_set_alter; try done. intros x k Hk. pose proof (Z.mod_pos_bound bi 8 ltac:(lia)).
  rewrite Z.lor_spec, Z.shiftl_1_l, Z.pow2_bits_eqb by lia.
  case_decide as E; [subst; by rewrite Z.eqb_refl, orb_true_r|].
  rewrite (proj2 (Z.eqb_neq _ _)) by done. apply orb_false_r.
Qed.

Lemma bit_set_clear bi bj d : 0 <= bi < BPB -> 0 <= bj -> length d = BSIZE ->
  bit_set bj (clear_bit bi d) = if decide (bj = bi) then false else bit_set bj d.
Proof.
  intros. apply bit_set_alter; try done. intros x k Hk. pose proof (Z.mod_pos_bound bi 8 ltac:(lia)).
  rewrite Z.ldiff_spec, Z.shiftl_1_l, Z.pow2_bits_eqb by lia.
  case_decide as E; [subst; by rewrite Z.eqb_refl, andb_false_r|].
  rewrite (proj2 (Z.eqb_neq _ _)) by done. apply andb_true_r.
Qed.

Lemma alter_byte_ok f i d : (forall x, is_byte x -> is_byte (f x)) -> block_ok d -> block_ok (alter f i d).
Proof.
  intros Hf [Hl Hd]. split; [by rewrite length_alter|]. apply Forall_lookup. intros j x Hx.
  destruct (decide (j = i)) as [->|Hne]; [|rewrite list_lookup_alter_ne in Hx by done; by eapply Forall_lookup_1].
  rewrite list_lookup_alter_eq in Hx. destruct (d !! i) as [y|] eqn:Hy; simplify_eq/=. apply Hf. by eapply Forall_lookup_1.
Qed.

Lemma byte_bits x : 0 <= x -> (is_byte x <-> forall k, 8 <= k -> Z.testbit x k = false).
Proof.
  intros Hx. unfold is_byte. split.
  - intros [_ Hlt] k Hk. destruct (decide (x = 0)) as [->|Hne]; [apply Z.bits_0|].
    apply Z.bits_above_log2; [done|]. apply Z.log2_lt_pow2; [lia|].
    eapply Z.lt_le_trans; [exact Hlt|]. change 256 with (2 ^ 8). apply Z.pow_le_mono_r; lia.
  - intros Hb. split; [done|]. destruct (decide (x < 256)) as [|Hge]; [done|].
    assert (8 <= Z.log2 x) by (apply Z.log2_le_pow2; lia). specialize (Hb (Z.log2 x) ltac:(done)).
    rewrite Z.bit_log2 in Hb by lia. done.
Qed.

Lemma set_bit_ok bi d : block_ok d -> block_ok (set_bit bi d).
Proof.
  apply alter_byte_ok. intros x Hx. pose proof (Z.mod_pos_bound bi 8 ltac:(lia)).
  assert (0 <= x) by apply Hx. assert (0 <= Z.lor x (Z.shiftl 1 (bi mod 8))).
  { apply Z.lor_nonneg. split; [done|]. apply Z.shiftl_nonneg. lia. }
  rewrite byte_bits in Hx |- * by done. intros k Hk.
  rewrite Z.lor_spec, Hx, Z.shiftl_1_l, Z.pow2_bits_false by lia. done.
Qed.

Lemma clear_bit_ok bi d : block_ok d -> block_ok (clear_bit bi d).
Proof.
  apply alter_byte_ok. intros x Hx. assert (0 <= x) by apply Hx.
  assert (0 <= Z.ldiff x (Z.shiftl 1 (bi mod 8))) by (apply Z.ldiff_nonneg; by left).
  rewrite byte_bits in Hx |- * by done. intros k Hk. by rewrite Z.ldiff_spec, Hx.
Qed.

Lemma logged_in bs b x : x ∉ logged bs b -> x ∉ bs /\ x <> b.
Proof. unfold logged. case_decide; set_solver. Qed.

Section Tx.
Context {B U : Type} `{BufCache B} `{UserMemory U}.
Implicit Types s : fss B U.

(** Inside a transaction that has logged [bs], holding the buffers [hd], the
    blocks have the contents [c]. *)
Record tx (bs : list Z) (hd : gmap nat Z) (c : Z -> block) s : Prop := {
  tx_inv : log_inv (sb_logstart (sb s)) bs (lst s);
  tx_out : 1 <= outstanding (lg (lst s));
  tx_held : held (abs (lst s)) = hd;
  tx_content : forall x, content (abs (lst s)) x = c x;
  tx_clean : forall x, x ∉ bs -> content (abs (lst s)) x = disk (abs (lst s)) x
}.

(** Everything but the log and the cache is unchanged. *)
Record same_rest s s' : Prop := {
  sr_sb : sb s' = sb s;
  sr_itable : itable s' = itable s;
  sr_kbuf : kbuf s' = kbuf s;
  sr_usr : usr s' = usr s;
  sr_pid : curpid s' = curpid s;
  sr_cwd : cwd s' = cwd s;
  sr_out : out s' = out s
}.

#[export] Instance same_rest_preorder : PreOrder same_rest.
Proof using. split; [by split|]. intros ??? [] []. split; congruence. Qed.

Lemma lst_zoom_wp {X} (m : M (lstate B) X) L s Q :
  wp m L (lst s) Q -> wp (zoom (C := lstate B) m) L s (fun r s' => same_rest s s' /\ Q r (lst s')).
Proof using. intros Hm. eapply wp_mono; [by apply zoom_wp|]. intros r s' (x & -> & HQ). by split. Qed.

(** A block outside the log. *)
Definition fsblock s (b : Z) : Prop := 0 <= b < 2 ^ 31 /\ home (sb_logstart (sb s)) b.

Lemma fsblock_rest s s' b : same_rest s s' -> fsblock s b -> fsblock s' b.
Proof using. intros R [Hb Hh]. unfold fsblock. by rewrite (sr_sb _ _ R). Qed.

Definition printed (fmt : string) (args : list Z) s : fss B U :=
  mkFss (lst s) (sb s) (itable s) (kbuf s) (usr s) (curpid s) (cwd s) (out s ++ [(fmt, args)]).

Lemma tx_printed bs hd c fmt args s : tx bs hd c s -> tx bs hd c (printed fmt args s).
Proof using. intros []. by split. Qed.

Section Steps.
Context (L : list lock).
Hypothesis HL : buf_free L.
Hypothesis HLL : log_lock ∉ L.

Lemma fbread_wp bs hd c b s :
  tx bs hd c s -> fsblock s b -> b ∉ (map_img hd : gset Z) -> (length bs + size hd < NBUF)%nat ->
  wp (fbread ROOTDEV b) L s (fun h s' => same_rest s s' /\ hd !! h = None /\ tx bs (<[h := b]> hd) c s').
Proof using HL.
  intros [I Ho Hh Hc Hcl] [Hb Hhome] Hnh Hsz. unfold fbread.
  assert (Hin : (size (in_use (abs (lst s))) < NBUF)%nat).
  { unfold in_use. rewrite (li_pins _ _ _ I), Hh, dom_pins_of. eapply Nat.le_lt_trans; [|exact Hsz].
    rewrite size_union_alt. apply Nat.add_le_mono; [by rewrite size_list_to_set by apply I|].
    etrans; [apply subseteq_size, subseteq_difference_l; reflexivity|]. apply map_img_size. }
  eapply wp_mono.
  { apply lst_zoom_wp, zoom_bc_wp, bread_spec; [apply I|lia| |by right|done]. unfold abs in Hh. by rewrite Hh. }
  intros h s' (R & Hl & Hok & Hn & E). fold (abs (lst s)) (abs (lst s')) in *. rewrite Hh in *.
  destruct E as [C D W Hh' P]. simpl in *. split; [done|]. split; [done|].
  split; rewrite ?(sr_sb _ _ R), ?Hl; try done.
  - destruct I as [T Hnd _ Hp Hhd Hlog Hheld]. split; rewrite ?Hl, ?P, ?D; try done.
    + intros x Hx. rewrite C, D. by apply Hlog.
    + intros h' b'. rewrite Hh'. intros [[<- <-]|[_ Hin']]%lookup_insert_Some; [done|]. eapply Hheld. by rewrite Hh.
  - intros x. by rewrite C.
  - intros x Hx. rewrite C, D. by apply Hcl.
Qed.

Lemma fbdata_wp bs hd c h b s :
  tx bs hd c s -> hd !! h = Some b -> wp (fbdata h) L s (fun d s' => s' = s /\ d = c b).
Proof using.
  intros [I Ho Hh Hc Hcl] Hb. unfold fbdata. eapply wp_mono.
  { apply lst_zoom_wp, zoom_bc_wp, (bdata_spec h b); [apply I|]. fold (abs (lst s)). by rewrite Hh. }
  intros d s' (R & Hl & E & ->). split; [|apply Hc].
  destruct s as [[] ], s' as [[] ], R; simpl in *; congruence.
Qed.

(** A store that is logged at once. *)
Lemma fstore_log_wp bs hd c h b d s :
  tx bs hd c s -> hd !! h = Some b -> block_ok d -> (length bs < LOGBLOCKS)%nat ->
  wp (fbstore h d;; flog_write h) L s (fun _ s' => same_rest s s' /\ tx (logged bs b) hd (upd c b d) s').
Proof using HL HLL.
  intros [I Ho Hh Hc Hcl] Hb Hd Hlt. unfold fbstore, flog_write.
  destruct (li_held _ _ _ I h b) as [Hbr Hhome]; [by rewrite Hh|].
  wstep. wstep. eapply wpl_call.
  { apply lst_zoom_wp, zoom_bc_wp, (bstore_spec h b d); [apply I| |done]. fold (abs (lst s)). by rewrite Hh. }
  intros ? s1 (R1 & Hl1 & Hok1 & [C1 D1 W1 H1 P1]). fold (abs (lst s)) (abs (lst s1)) in *. simpl in *.
  assert (I1 : log_inv (sb_logstart (sb s)) bs (lst s1)).
  { destruct I as [T Hnd _ Hp Hhd Hlog Hheld]. split; rewrite ?Hl1, ?P1, ?D1, ?H1; try done.
    intros x Hx. rewrite C1, D1, upd_ne by (by intros ->). by apply Hlog. }
  eapply wpl_call.
  { apply lst_zoom_wp, (log_write_wp (sb_logstart (sb s)) bs h b); try done; [by rewrite H1, Hh|by rewrite Hl1]. }
  intros [] s2 (R2 & I2 & Ho2 & Hc2 & E2). destruct E2 as [C2 D2 W2 H2 P2]. simpl in *.
  split; [done|]. split; [by etrans|]. split.
  - by rewrite (sr_sb _ _ R2), (sr_sb _ _ R1).
  - by rewrite Ho2, Hl1.
  - by rewrite H2, H1.
  - intros x. rewrite C2, C1. unfold upd. case_decide; [done|]. apply Hc.
  - intros x [Hx Hne]%logged_in. rewrite C2, D2, C1, D1, upd_ne by done. by apply Hcl.
Qed.

(** The same with what follows. *)
Lemma fstore_log_wpl {X} bs hd c h b d s (k : unit -> M (fss B U) X) Q :
  tx bs hd c s -> hd !! h = Some b -> block_ok d -> (length bs < LOGBLOCKS)%nat ->
  (forall s', same_rest s s' -> tx (logged bs b) hd (upd c b d) s' -> wpl (k tt) L s' Q) ->
  wpl (fbstore h d ≫= fun _ => flog_write h ≫= k) L s Q.
Proof using HL HLL.
  intros T Hb Hd Hlt Hk. apply wpl_assoc, wpl_bind. eapply wpl_call; [by apply (fstore_log_wp bs hd c h b d)|].
  intros [] s' [R T']. by apply Hk.
Qed.

Lemma fbrelse_wp bs hd c h b s :
  tx bs hd c s -> hd !! h = Some b ->
  wp (fbrelse h) L s (fun _ s' => same_rest s s' /\ tx bs (delete h hd) c s').
Proof using HL.
  intros [I Ho Hh Hc Hcl] Hb. unfold fbrelse. eapply wp_mono.
  { apply lst_zoom_wp, zoom_bc_wp, (brelse_spec h b); [apply I| | |done]; fold (abs (lst s)); [by rewrite Hh|].
    destruct (decide (b ∈ bs)) as [Hin|Hin]; [left|by right; apply Hcl].
    unfold pinned. by rewrite (li_pins _ _ _ I), pins_of_lookup, decide_True by done. }
  intros ? s' (R & Hl & Hok & [C D W Hh' P]). fold (abs (lst s)) (abs (lst s')) in *. simpl in *.
  split; [done|]. split; rewrite ?(sr_sb _ _ R), ?Hl; try done.
  - destruct I as [T Hnd _ Hp Hhd Hlog Hheld]. split; rewrite ?Hl, ?P, ?D; try done.
    + intros x Hx. rewrite C, D. by apply Hlog.
    + intros h' b'. rewrite Hh'. intros [_ ?]%lookup_delete_Some. by eapply Hheld.
  - by rewrite Hh', Hh.
  - intros x. by rewrite C.
  - intros x Hx. rewrite C, D. by apply Hcl.
Qed.

(** * The block allocator *)
Section Alloc.
Context (x : superblock) (hd : gmap nat Z).

(** The free map lies outside the log and describes blocks an int can number. *)
Record layout : Prop := {
  ly_size : 0 < sb_size x < 2 ^ 30;
  ly_bmap : 0 < sb_bmapstart x < 2 ^ 30;
  ly_home : forall b, 0 <= b < sb_size x -> home (sb_logstart x) (BBLOCK b x)
}.

Definition used (c : Z -> block) (b : Z) : bool := bit_set (b mod BPB) (c (BBLOCK b x)).

(** A free block is a data block; block 0 is not free. *)
Record map_ok (c : Z -> block) : Prop := {
  mo_free : forall b, 0 <= b < sb_size x -> used c b = false ->
    home (sb_logstart x) b /\ forall b', 0 <= b' < sb_size x -> BBLOCK b' x <> b;
  mo_boot : used c 0 = true
}.

(** The buffers held meanwhile are of blocks in use, not of the free map. *)
Definition held_ok (c : Z -> block) : Prop := forall h b, hd !! h = Some b ->
  used c b = true /\ forall b', 0 <= b' < sb_size x -> BBLOCK b' x <> b.

Definition alloc_block (b : Z) (c : Z -> block) : Z -> block :=
  upd (upd c (BBLOCK b x) (set_bit (b mod BPB) (c (BBLOCK b x)))) b zero_block.

Hypothesis HY : layout.

Lemma BBLOCK_eq b : 0 <= b < sb_size x -> BBLOCK b x = b / BPB + sb_bmapstart x /\ 0 <= BBLOCK b x < 2 ^ 31.
Proof using HY.
  intros Hb. destruct HY as [Hs Hm _]. unfold BBLOCK. change BPB with 8192. rewrite u32_small; zdiv.
Qed.

Lemma used_alloc c b b' : map_ok c -> (forall y, block_ok (c y)) ->
  0 <= b < sb_size x -> used c b = false -> 0 <= b' < sb_size x ->
  used (alloc_block b c) b' = (bool_decide (b' = b) || used c b').
Proof using HY.
  intros Hm Hc Hb Hu Hb'. unfold used at 1, alloc_block.
  rewrite upd_ne by by apply (mo_free c Hm b Hb Hu). unfold upd. case_decide as E.
  - rewrite bit_set_set; [|apply Z.mod_pos_bound; done|apply Z.mod_pos_bound; done|apply Hc].
    destruct (BBLOCK_eq b Hb), (BBLOCK_eq b' Hb'). case_decide as Em.
    + assert (b' = b) as -> by (change BPB with 8192 in *; zdiv). by rewrite bool_decide_true.
    + rewrite bool_decide_false by congruence. unfold used. by rewrite E.
  - rewrite bool_decide_false by congruence. done.
Qed.

Lemma bzero_wp bs c b s :
  tx bs hd c s -> sb s = x -> 0 <= b < 2 ^ 31 -> home (sb_logstart x) b -> b ∉ (map_img hd : gset Z) ->
  (length bs + size hd < NBUF)%nat ->
  wp (bzero ROOTDEV b) L s (fun _ s' => same_rest s s' /\ tx (logged bs b) hd (upd c b zero_block) s').
Proof using HL HLL.
  intros T Hsb Hb Hhome Hn Hsz. unfold bzero. rewrite u32_small by lia. wstep. wstep.
  eapply wpl_call; [apply fbread_wp; try done; split; [done|by rewrite Hsb]|].
  intros h s1 (R1 & Hh & T1).
  apply (fstore_log_wpl _ _ _ h b zero_block _ _ _ T1); [apply lookup_insert_eq|apply zero_block_ok|unfold NBUF, LOGBLOCKS in *; lia|].
  intros s2 R2 T2. eapply wpl_call; [apply (fbrelse_wp _ _ _ h b _ T2), lookup_insert_eq|].
  intros _ s3 [R3 T3]. rewrite delete_insert_id in T3 by done. split; [done|]. split; [|done].
  by do 2 (etrans; [eassumption|]).
Qed.

(** What balloc leaves behind when it returns [r]. *)
Definition allocated (bs : list Z) (c : Z -> block) s (r : Z) s' : Prop :=
  (r = 0 /\ (forall b, 0 <= b < sb_size x -> used c b = true) /\ tx bs hd c s' /\
   exists s1, same_rest s s1 /\ s' = printed "balloc: out of blocks" [] s1) \/
  (0 < r < sb_size x /\ used c r = false /\ (forall b, 0 <= b < r -> used c b = true) /\ same_rest s s' /\
   tx (logged (logged bs (BBLOCK r x)) r) hd (alloc_block r c) s').

(** The scan of one block of the free map, held as buffer [h]. *)
Lemma balloc_scan_wp bs c h b s :
  tx bs (<[h := BBLOCK b x]> hd) c s -> sb s = x -> hd !! h = None -> map_ok c -> held_ok c ->
  (length bs + size hd + 2 < NBUF)%nat -> 0 <= b < sb_size x -> b mod BPB = 0 ->
  (forall y, 0 <= y < b -> used c y = true) ->
  wp (loop (S (Z.to_nat BPB)) (balloc_scan_body ROOTDEV b h) 0) L s (fun r s' =>
    match r with
    | Some a => 0 < a /\ allocated bs c s a s'
    | None => s' = s /\ forall y, 0 <= y < Z.min (b + BPB) (sb_size x) -> used c y = true
    end).
Proof using All.
  intros T Hsb Hh Hm Hho Hsz Hb Hb0 Hpre. pose proof (ly_size HY) as Hls.
  assert (HBPB : BPB = 8192) by done.
  apply (wpl_loop (fun bi s1 => s1 = s /\ 0 <= bi <= BPB /\ b + bi <= sb_size x /\
    forall y, 0 <= y < b + bi -> used c y = true) (fun bi => Z.to_nat (BPB - bi))); [| |lia].
  2: { split; [done|]. split; [lia|]. split; [lia|]. rewrite Z.add_0_r. done. }
  intros bi s1 (-> & Hbi & Hle & Hu). unfold balloc_scan_body. wstep. wstep. wstep. rewrite Hsb.
  rewrite u32_small by lia.
  destruct (Z.ltb_spec bi BPB) as [Hlt|Hlt]; [destruct (Z.ltb_spec (b + bi) (sb_size x)) as [Hlt'|Hlt']|]; simpl;
    [|wsteps; split; [done|]; split; [done|]; intros y Hy; apply Hu; lia..].
  assert (Hin : 0 <= b + bi < sb_size x) by lia.
  assert (Hmod : (b + bi) mod BPB = bi) by (rewrite HBPB in *; zdiv).
  assert (Hblk : BBLOCK (b + bi) x = BBLOCK b x).
  { destruct (BBLOCK_eq b Hb) as [-> _], (BBLOCK_eq (b + bi) Hin) as [-> _]. rewrite HBPB in *. f_equal. zdiv. }
  assert (Hus : used c (b + bi) = bit_set bi (c (BBLOCK b x))) by (unfold used; by rewrite Hmod, Hblk).
  wstep. eapply wpl_call; [apply (fbdata_wp _ _ _ h (BBLOCK b x) _ T), lookup_insert_eq|]. intros d s1 [-> ->].
  destruct (bit_set bi (c (BBLOCK b x))) eqn:Hbit.
  { wsteps. split; [done|]. split; [|lia]. split; [done|]. split; [lia|]. split; [lia|].
    intros y Hy. destruct (decide (y = b + bi)) as [->|]; [done|]. apply Hu. lia. }
  destruct (mo_free c Hm _ Hin Hus) as [Hfh Hfb].
  assert (Hpos : b + bi <> 0) by (intros E; rewrite E, (mo_boot c Hm) in Hus; done).
  apply (fstore_log_wpl _ _ _ h (BBLOCK b x) _ _ _ _ T); [apply lookup_insert_eq| |unfold LOGBLOCKS, NBUF in *; lia|].
  { apply set_bit_ok. rewrite <- (tx_content _ _ _ _ T). apply bok_block, T. }
  intros s2 R2 T2. wstep. eapply wpl_call; [apply (fbrelse_wp _ _ _ h (BBLOCK b x) _ T2), lookup_insert_eq|].
  intros _ s3 [R3 T3]. rewrite delete_insert_id in T3 by done. wstep.
  eapply wpl_call.
  { apply (bzero_wp _ _ _ _ T3); try done; [by rewrite (sr_sb _ _ R3), (sr_sb _ _ R2)|lia| |].
    - intros (h' & Hh')%elem_of_map_img. destruct (Hho h' _ Hh') as [Hx _]. congruence.
    - unfold logged. case_decide; rewrite ?length_app; simpl; lia. }
  intros _ s4 [R4 T4]. wsteps. split; [done|]. split; [lia|]. right.
  split; [lia|]. split; [done|]. split; [done|]. split; [by do 2 (etrans; [eassumption|])|].
  unfold alloc_block. by rewrite Hblk, Hmod.
Qed.

Lemma allocated_rest bs c s s1 r s' : same_rest s s1 -> allocated bs c s1 r s' -> allocated bs c s r s'.
Proof using.
  intros R [(Hr & Hu & T & s2 & R2 & E)|(Hr & Hu & Hb & R2 & T)]; [left|right].
  - split; [done|]. split; [done|]. split; [done|]. exists s2. split; [by etrans|done].
  - split; [done|]. split; [done|]. split; [done|]. split; [by etrans|done].
Qed.

Lemma balloc_wp bs c s :
  tx bs hd c s -> sb s = x -> map_ok c -> held_ok c -> (length bs + size hd + 2 < NBUF)%nat ->
  wp (balloc ROOTDEV) L s (allocated bs c s).
Proof using All.
  intros T Hsb Hm Hho Hsz. pose proof (ly_size HY) as Hls. assert (HBPB : BPB = 8192) by done.
  unfold balloc. wstep. wstep. wstep. rewrite Hsb. eapply wpl_call; [|intros r s' HQ; split; [done|exact HQ]].
  apply (wpl_loop (fun b s1 => same_rest s s1 /\ tx bs hd c s1 /\ 0 <= b /\ b mod BPB = 0 /\ b < sb_size x + BPB /\
    forall y, 0 <= y < Z.min b (sb_size x) -> used c y = true) (fun b => Z.to_nat ((sb_size x + BPB - b) / BPB))).
  - intros b s1 (R & T1 & Hb & Hmod & Hmax & Hu). unfold balloc_body. wstep. wstep. wstep.
    rewrite (sr_sb _ _ R), Hsb, u32_small by lia.
    destruct (Z.ltb_spec b (sb_size x)) as [Hlt|Hge]; last first.
    { unfold printf. wsteps. split; [done|]. left. split; [done|]. split; [intros y Hy; apply Hu; lia|].
      split; [by apply tx_printed|]. by exists s1. }
    destruct (BBLOCK_eq b ltac:(lia)) as [_ Hbb].
    assert (Hn : BBLOCK b x ∉ (map_img hd : gset Z)).
    { intros (h & Hh)%elem_of_map_img. destruct (Hho h _ Hh) as [_ Hne]. apply (Hne b); [lia|done]. }
    wstep. eapply wpl_call.
    { apply (fbread_wp _ _ _ _ _ T1); [|done|lia]. split; [done|]. rewrite (sr_sb _ _ R), Hsb. by apply (ly_home HY). }
    intros h s2 (R2 & Hh & T2). wstep. eapply wpl_call.
    { apply (balloc_scan_wp bs c h b); try done.
      - by rewrite (sr_sb _ _ R2), (sr_sb _ _ R).
      - intros y Hy. apply Hu. lia. }
    intros [a|] s3 Hr; wsteps.
    { split; [done|]. destruct Hr as [_ Hr]. eapply allocated_rest; [|exact Hr]. by etrans. }
    destruct Hr as [-> Hu']. eapply wpl_call; [apply (fbrelse_wp _ _ _ h (BBLOCK b x) _ T2), lookup_insert_eq|].
    intros _ s4 [R4 T4]. rewrite delete_insert_id in T4 by done. wsteps. split; [done|]. split.
    + split; [by do 2 (etrans; [eassumption|])|]. split; [done|]. rewrite HBPB in *. split; [lia|]. split; [zdiv|]. split; [lia|].
      intros y Hy. apply Hu'. lia.
    + rewrite HBPB in *. zdiv.
  - split; [done|]. split; [done|]. rewrite HBPB. split; [lia|]. split; [done|]. split; [lia|]. lia.
  - rewrite HBPB. zdiv.
Qed.

(** The free map after bfree. *)
Definition free_block (b : Z) (c : Z -> block) : Z -> block :=
  upd c (BBLOCK b x) (clear_bit (b mod BPB) (c (BBLOCK b x))).

Lemma used_free c b b' : (forall y, block_ok (c y)) -> 0 <= b < sb_size x -> 0 <= b' < sb_size x ->
  used (free_block b c) b' = (negb (bool_decide (b' = b)) && used c b').
Proof using HY.
  intros Hc Hb Hb'. unfold used at 1, free_block, upd. case_decide as E.
  - rewrite bit_set_clear; [|apply Z.mod_pos_bound; done|apply Z.mod_pos_bound; done|apply Hc].
    destruct (BBLOCK_eq b Hb), (BBLOCK_eq b' Hb'). case_decide as Em.
    + assert (b' = b) as -> by (change BPB with 8192 in *; zdiv). by rewrite bool_decide_true.
    + rewrite bool_decide_false by congruence. unfold used. by rewrite E.
  - rewrite bool_decide_false by congruence. done.
Qed.

Lemma bfree_wp bs c b s :
  tx bs hd c s -> sb s = x -> 0 <= b < sb_size x -> used c b = true ->
  BBLOCK b x ∉ (map_img hd : gset Z) -> (length bs + size hd < NBUF)%nat ->
  wp (bfree ROOTDEV b) L s (fun _ s' => same_rest s s' /\ tx (logged bs (BBLOCK b x)) hd (free_block b c) s').
Proof using All.
  intros T Hsb Hb Hu Hn Hsz. destruct (BBLOCK_eq b Hb) as [_ Hbb]. unfold bfree. wstep. wstep. wstep. rewrite Hsb.
  wstep. eapply wpl_call.
  { apply (fbread_wp _ _ _ _ _ T); [|done|done]. split; [done|]. rewrite Hsb. by apply (ly_home HY). }
  intros h s1 (R1 & Hh & T1). wstep.
  eapply wpl_call; [apply (fbdata_wp _ _ _ h (BBLOCK b x) _ T1), lookup_insert_eq|]. intros d s2 [-> ->].
  unfold used in Hu. rewrite Hu.
  apply (fstore_log_wpl _ _ _ h (BBLOCK b x) _ _ _ _ T1); [apply lookup_insert_eq| |unfold LOGBLOCKS, NBUF in *; lia|].
  { apply clear_bit_ok. rewrite <- (tx_content _ _ _ _ T). apply bok_block, T. }
  intros s2 R2 T2. eapply wpl_call; [apply (fbrelse_wp _ _ _ h (BBLOCK b x) _ T2), lookup_insert_eq|].
  intros _ s3 [R3 T3]. rewrite delete_insert_id in T3 by done. split; [done|]. split; [|done].
  by do 2 (etrans; [eassumption|]).
Qed.

(** Freeing a free block panics. *)
Lemma bfree_panics bs c b s :
  tx bs hd c s -> sb s = x -> 0 <= b < sb_size x -> used c b = false ->
  BBLOCK b x ∉ (map_img hd : gset Z) -> (length bs + size hd < NBUF)%nat ->
  panics (bfree ROOTDEV b) L s "freeing free block".
Proof using All.
  intros T Hsb Hb Hu Hn Hsz. destruct (BBLOCK_eq b Hb) as [_ Hbb]. unfold bfree.
  apply panics_bind, wpl_gets. rewrite Hsb. apply panics_bind. eapply wpl_call.
  { apply (fbread_wp _ _ _ _ _ T); [|done|done]. split; [done|]. rewrite Hsb. by apply (ly_home HY). }
  intros h s1 (R1 & Hh & T1). apply panics_bind.
  eapply wpl_call; [apply (fbdata_wp _ _ _ h (BBLOCK b x) _ T1), lookup_insert_eq|]. intros d s2 [-> ->].
  unfold used in Hu. by rewrite Hu.
Qed.

(** C24. The block allocator: inside a transaction balloc returns the first block
    the free map has free, marked in use and zeroed, with every other bit of the
    map and every other block as before; it returns 0, with nothing changed, only
    when every block is in use. *)
Theorem balloc_correct bs c s :
  tx bs hd c s -> sb s = x -> map_ok c -> held_ok c -> (length bs + size hd + 2 < NBUF)%nat ->
  wp (balloc ROOTDEV) L s (fun r s' =>
    (r = 0 /\ (forall b, 0 <= b < sb_size x -> used c b = true) /\ tx bs hd c s') \/
    (0 < r < sb_size x /\ used c r = false /\ (forall b, 0 <= b < r -> used c b = true) /\
     exists bs' c', tx bs' hd c' s' /\ same_rest s s' /\ (length bs' <= length bs + 2)%nat /\ c' r = zero_block /\
       (forall b, 0 <= b < sb_size x -> used c' b = (bool_decide (b = r) || used c b)) /\
       forall y, y <> r -> y <> BBLOCK r x -> c' y = c y)).
Proof using All.
  intros T Hsb Hm Hho Hsz. eapply wp_mono; [by apply (balloc_wp bs c)|].
  intros r s' [(Hr & Hu & T' & _)|(Hr & Hu & Hb & R & T')]; [by left|right].
  split; [done|]. split; [done|]. split; [done|].
  exists (logged (logged bs (BBLOCK r x)) r), (alloc_block r c). split; [done|]. split; [done|]. split.
  { pose proof (logged_length (logged bs (BBLOCK r x)) r). pose proof (logged_length bs (BBLOCK r x)). lia. }
  split; [apply upd_eq|]. split.
  - intros b Hb'. apply used_alloc; try done; [|lia]. intros y. rewrite <- (tx_content _ _ _ _ T). apply bok_block, T.
  - intros y Hy Hy'. unfold alloc_block. by rewrite !upd_ne.
Qed.
End Alloc.
End Steps.
End Tx.
