(* ===== verification/FsPath.v ===== *)
(** Path names: skipelem of kernel/fs.c, iterated as namex does, against a
    reference that splits a path at its slashes. *)
From S2P Require Import Prelude UserIface Block Sleeplock CStrings Log Fs.
Local Open Scope Z_scope.

(** The non-empty pieces of [l] between slashes; [cur] is the current one. *)
Fixpoint pieces (cur l : list Z) : list (list Z) :=
  let done := match cur with [] => [] | _ => [cur] end in
  match l with
  | [] => done
  | c :: l' => if c =? slash then done ++ pieces [] l' else pieces (cur ++ [c]) l'
  end.

(** The string in a name field of DIRSIZ bytes. *)
Fixpoint name_str (l : list Z) : list Z :=
  match l with
  | [] => []
  | c :: l' => if c =? 0 then [] else c :: name_str l'
  end.

(** The elements namex looks up: skipelem until it returns 0. *)
Fixpoint path_elems (fuel : nat) (path name : list Z) : option (list (list Z)) :=
  match fuel with
  | O => None
  | S k =>
      e ← skipelem path name;
      match e with
      | None => Some []
      | Some (rest, nm) => r ← path_elems k rest nm; Some (name_str nm :: r)
      end
  end.

(** * One element *)
Fixpoint drop_slashes (l : list Z) : list Z :=
  match l with
  | c :: l' => if c =? slash then drop_slashes l' else l
  | [] => []
  end.

Lemma skip_slashes_end l : skip_slashes (l ++ [0]) = Some (drop_slashes l ++ [0]).
Proof. induction l as [|c l IH]; [done|]. simpl. by destruct (c =? slash). Qed.

Lemma pieces_drop l : pieces [] l = pieces [] (drop_slashes l).
Proof. induction l as [|c l IH]; [done|]. simpl. destruct (c =? slash) eqn:E; [done|]. simpl. by rewrite E. Qed.

Lemma drop_slashes_length l : (length (drop_slashes l) <= length l)%nat.
Proof. induction l as [|c l IH]; [done|]. simpl. destruct (c =? slash); simpl; lia. Qed.

Lemma drop_slashes_forall P l : Forall P l -> Forall P (drop_slashes l).
Proof. induction 1 as [|c l Hc Hl IH]; [constructor|]. simpl. destruct (c =? slash); [done|by constructor]. Qed.

(** Characters that belong to an element. *)
Definition plain_char (c : Z) : Prop := c <> slash /\ c <> 0.

Definition elem_end (l : list Z) : Prop := match l with [] => True | c :: _ => c = slash end.

(** A path that does not begin with a slash is an element and what follows. *)
Lemma elem_split l : Forall (fun c => c <> 0) l -> exists e r, l = e ++ r /\ Forall plain_char e /\ elem_end r.
Proof.
  induction 1 as [|c l Hc Hl (e & r & -> & He & Hr)]; [by exists [], []|].
  destruct (decide (c = slash)) as [->|Hne]; [by exists [], (slash :: e ++ r)|].
  exists (c :: e), r. split; [done|]. split; [by constructor|done].
Qed.

Lemma span_elem_split e r : Forall plain_char e -> elem_end r -> span_elem (e ++ r ++ [0]) = Some (e, r ++ [0]).
Proof.
  intros He Hr. induction He as [|c e [H1 H2] He IH].
  - destruct r as [|c r]; [done|]. simpl in *. subst c. done.
  - simpl. rewrite (proj2 (Z.eqb_neq c slash)), (proj2 (Z.eqb_neq c 0)) by done. simpl. by rewrite IH.
Qed.

Lemma pieces_plain cur e r : Forall plain_char e -> pieces cur (e ++ r) = pieces (cur ++ e) r.
Proof.
  intros He. revert cur. induction He as [|c e [H1 H2] He IH]; intros cur; [by rewrite app_nil_r|].
  simpl. rewrite (proj2 (Z.eqb_neq c slash)) by done. by rewrite IH, <- app_assoc.
Qed.

Lemma pieces_elem e r : e <> [] -> elem_end r -> pieces e r = e :: pieces [] r.
Proof. intros He Hr. destruct e as [|a e], r as [|c r]; try done. simpl in *. by subst c. Qed.

Lemma name_str_app e l : Forall plain_char e -> name_str (e ++ 0 :: l) = e.
Proof. induction 1 as [|c e [_ H2] He IH]; [done|]. simpl. by rewrite (proj2 (Z.eqb_neq c 0)), IH. Qed.

Lemma name_str_all e : Forall plain_char e -> name_str e = e.
Proof. induction 1 as [|c e [_ H2] He IH]; [done|]. simpl. by rewrite (proj2 (Z.eqb_neq c 0)), IH. Qed.

(** The name field holds the element, cut to DIRSIZ characters. *)
Lemma copy_elem_str e name : Forall plain_char e -> name_str (copy_elem e name) = take DIRSIZ e.
Proof.
  intros He. unfold copy_elem. destruct (Nat.leb_spec DIRSIZ (length e)) as [Hle|Hgt].
  - apply name_str_all. by apply Forall_take.
  - rewrite name_str_app by done. rewrite take_ge by lia. done.
Qed.

Lemma path_elems_pieces k l name : Forall (fun c => c <> 0) l -> (length l < k)%nat ->
  path_elems k (l ++ [0]) name = Some (take DIRSIZ <$> pieces [] l).
Proof.
  revert l name. induction k as [|k IH]; intros l name Hl Hk; [lia|]. simpl. unfold skipelem.
  rewrite skip_slashes_end, pieces_drop. simpl. assert (Hd := drop_slashes_length l).
  destruct (elem_split (drop_slashes l)) as (e & r & E & He & Hr); [by apply drop_slashes_forall|].
  destruct e as [|c e].
  - assert (r = []) as ->; [|by rewrite E].
    destruct r as [|c r]; [done|]. simpl in Hr, E. subst c. exfalso. clear -E.
    induction l as [|c l IH]; simpl in E; [done|]. destruct (Z.eqb_spec c slash); [auto|]. congruence.
  - assert (Hc : c <> 0) by (by apply Forall_cons in He as [[_ ?] _]).
    assert (HP : pieces [] (drop_slashes l) = (c :: e) :: pieces [] r) by (rewrite E, pieces_plain by done; by apply pieces_elem).
    rewrite HP, E, <- app_assoc. simpl head. simpl default. rewrite (proj2 (Z.eqb_neq c 0)) by done.
    rewrite (span_elem_split (c :: e) r) by done. simpl fst. simpl snd. simpl. rewrite skip_slashes_end. simpl.
    assert (Hr' := drop_slashes_length r). assert (Hlen : length (drop_slashes l) = (S (length e) + length r)%nat) by (by rewrite E, length_app).
    rewrite IH; [|apply drop_slashes_forall|lia].
    + simpl. by rewrite copy_elem_str, <- pieces_drop.
    + apply drop_slashes_forall in Hl. rewrite E in Hl. by apply Forall_app in Hl as [_ ?].
Qed.

(** Path parsing: iterating skipelem over a path as namex does yields exactly
    the non-empty pieces of the path between its slashes, in order, each cut to
    the DIRSIZ characters a directory entry holds; every path ends within as many
    steps as it has characters, plus one. *)
Theorem skipelem_splits l name :
  Forall (fun c => c <> 0) l -> path_elems (S (length l)) (l ++ [0]) name = Some (take DIRSIZ <$> pieces [] l).
Proof. intros Hl. apply path_elems_pieces; [done|lia]. Qed.

(** "//usr/a_long_file_name/x" has three elements, the second cut to 14 characters. *)
Definition long_path : list Z := [47; 47; 117; 115; 114; 47; 97; 95; 108; 111; 110; 103; 95; 102; 105; 108; 101; 95; 110; 97; 109; 101; 47; 120].

Lemma skipelem_splits_witness :
  path_elems 25 (long_path ++ [0]) (replicate DIRSIZ 0) =
  Some [[117; 115; 114]; [97; 95; 108; 111; 110; 103; 95; 102; 105; 108; 101; 95; 110; 97]; [120]].
Proof.
  rewrite (skipelem_splits long_path); [reflexivity|]. repeat constructor; discriminate.
Defined.
