(* ===== verification/FsInode.v ===== *)
(** Inodes on disk: the encoding of a dinode in its block, and iupdate of
    kernel/fs.c, which writes the copy of an inode in memory back. *)
From S2P Require Import Prelude UserIface Block Sleeplock CStrings Log LogCrash LogTxn Fs FsBlocks.
Local Open Scope Z_scope.

(** Lengths of updated blocks. *)
Ltac len := first [lia | rewrite length_put_le; [len | len]].

(** * Encoding *)

(** Values that fit the fields of a dinode. *)
Record dinode_ok (d : dinode) : Prop := {
  do_type : - 2 ^ 15 <= di_type d < 2 ^ 15;
  do_major : - 2 ^ 15 <= di_major d < 2 ^ 15;
  do_minor : - 2 ^ 15 <= di_minor d < 2 ^ 15;
  do_nlink : - 2 ^ 15 <= di_nlink d < 2 ^ 15;
  do_size : 0 <= di_size d < 2 ^ 32;
  do_len : length (di_addrs d) = NADDRS;
  do_addrs : Forall (fun a => 0 <= a < 2 ^ 32) (di_addrs d)
}.

Lemma s16_mod v : - 2 ^ 15 <= v < 2 ^ 15 -> s16 (v mod 2 ^ 16) = v.
Proof. intros Hv. unfold s16. rewrite Z.add_mod_idemp_l, Z.mod_small by lia. lia. Qed.

Lemma length_put_addrs o l d : (o + 4 * length l <= length d)%nat -> length (put_addrs o l d) = length d.
Proof.
  revert o d. induction l as [|a l IH]; intros o d Hl; simpl in *; [done|].
  rewrite IH; rewrite length_put_le; lia.
Qed.

Lemma put_addrs_is_byte o l d : Forall is_byte d -> Forall is_byte (put_addrs o l d).
Proof. revert o d. induction l as [|a l IH]; intros o d Hd; simpl; [done|]. apply IH. by apply put_le_is_byte. Qed.

Lemma get_put_addrs_ne n q o l d : (o + 4 * length l <= length d)%nat -> (q + n <= o \/ o + 4 * length l <= q)%nat ->
  get_le n q (put_addrs o l d) = get_le n q d.
Proof.
  revert o d. induction l as [|a l IH]; intros o d Hl Hq; simpl in *; [done|].
  rewrite IH by (rewrite ?length_put_le; lia). apply get_put_le_ne; lia.
Qed.

Lemma get_put_addrs o l d i a : (o + 4 * length l <= length d)%nat -> l !! i = Some a -> 0 <= a < 2 ^ 32 ->
  get_le 4 (o + 4 * i) (put_addrs o l d) = a.
Proof.
  revert o d i. induction l as [|b l IH]; intros o d i Hl Hi Ha; [done|]. simpl length in Hl.
  change (put_addrs o (b :: l) d) with (put_addrs (o + 4) l (put_le 4 o b d)). destruct i as [|i].
  - injection Hi as ->. rewrite get_put_addrs_ne by (rewrite ?length_put_le; lia). rewrite Nat.mul_0_r, Nat.add_0_r, get_put_le by lia.
    change (256 ^ Z.of_nat 4) with (2 ^ 32). by apply Z.mod_small.
  - replace (o + 4 * S i)%nat with ((o + 4) + 4 * i)%nat by lia. apply IH; [rewrite length_put_le; lia|done|done].
Qed.

Lemma put_dinode_ok o x d : block_ok d -> length (di_addrs x) = NADDRS -> (o + DINODE_SIZE <= BSIZE)%nat ->
  block_ok (put_dinode o x d).
Proof.
  intros [Hl Hd] Hx Ho. unfold put_dinode, DINODE_SIZE, NADDRS, NDIRECT in *. split.
  - rewrite length_put_addrs; len.
  - apply put_addrs_is_byte. by repeat apply put_le_is_byte.
Qed.

Ltac past_puts := repeat (rewrite get_put_le_ne; [|len|lia]).

(** What is written is read back. *)
Lemma get_put_dinode o x d : dinode_ok x -> (o + DINODE_SIZE <= length d)%nat -> get_dinode o (put_dinode o x d) = x.
Proof.
  intros [Ht Hma Hmi Hnl Hsz Hlen Hall] Ho. unfold DINODE_SIZE, NADDRS, NDIRECT in *. unfold get_dinode, put_dinode.
  destruct x as [t ma mi nl sz al]; simpl di_type in *; simpl di_major in *; simpl di_minor in *; simpl di_nlink in *;
    simpl di_size in *; simpl di_addrs in *.
  rewrite !(get_put_addrs_ne _ _ (o + 12)) by (len).
  f_equal.
  1-5: past_puts; rewrite get_put_le by len.
  1-4: change (256 ^ Z.of_nat 2) with (2 ^ 16); by apply s16_mod.
  - change (256 ^ Z.of_nat 4) with (2 ^ 32). by apply Z.mod_small.
  - apply list_eq. intros i. rewrite list_lookup_fmap. destruct (decide (i < 13)%nat) as [Hi|Hi].
    + rewrite lookup_seq_lt by done. destruct (lookup_lt_is_Some_2 al i) as [a Ha]; [lia|]. rewrite Ha. simpl. f_equal.
      apply (get_put_addrs (o + 12)); [len|done|]. by eapply Forall_lookup_1 in Hall.
    + rewrite lookup_seq_ge by (unfold NADDRS, NDIRECT; lia). rewrite (proj2 (lookup_ge_None al i)) by lia. done.
Qed.

Lemma get_le_put_dinode n q o x d : length (di_addrs x) = NADDRS -> (o + DINODE_SIZE <= length d)%nat ->
  (q + n <= o \/ o + DINODE_SIZE <= q)%nat -> get_le n q (put_dinode o x d) = get_le n q d.
Proof.
  intros Hx Ho Hq. unfold put_dinode, DINODE_SIZE, NADDRS, NDIRECT in *.
  rewrite get_put_addrs_ne by (len). by past_puts.
Qed.

(** No other dinode of the block changes. *)
Lemma get_put_dinode_ne o o' x d : length (di_addrs x) = NADDRS -> (o + DINODE_SIZE <= length d)%nat ->
  (o' + DINODE_SIZE <= o \/ o + DINODE_SIZE <= o')%nat -> get_dinode o' (put_dinode o x d) = get_dinode o' d.
Proof.
  intros Hx Ho Hd. assert (HD : DINODE_SIZE = 64%nat) by done. unfold get_dinode.
  rewrite !(get_le_put_dinode _ _ o) by (done || lia). f_equal. apply list_fmap_ext. intros i j [-> Hi]%lookup_seq.
  unfold NADDRS, NDIRECT in Hi. apply get_le_put_dinode; [done|done|lia].
Qed.

Lemma dinode_off_range i : (dinode_off i + DINODE_SIZE <= BSIZE)%nat.
Proof.
  unfold dinode_off, IPB, DINODE_SIZE, BSIZE. pose proof (Z.mod_pos_bound i 16 ltac:(lia)). lia.
Qed.

Lemma dinode_off_ne i j : 0 <= i -> 0 <= j -> i <> j -> i / IPB = j / IPB ->
  (dinode_off j + DINODE_SIZE <= dinode_off i \/ dinode_off i + DINODE_SIZE <= dinode_off j)%nat.
Proof. intros Hi Hj Hne E. unfold dinode_off, IPB, DINODE_SIZE in *. zdiv. Qed.

(** * iupdate *)
Section Update.
Context {B U : Type} `{BufCache B} `{UserMemory U}.
Context (x : superblock) (L : list lock) (ip : nat).
Hypothesis HL : buf_free L.
Hypothesis HLL : log_lock ∉ L.
Implicit Types s : fss B U.

(** The contents after inode [i] was written back. *)
Definition put_inode (i : inode) (c : Z -> block) : Z -> block :=
  upd c (IBLOCK (i_inum i) x) (put_dinode (dinode_off (i_inum i)) (dinode_of i) (c (IBLOCK (i_inum i) x))).

Lemma iupdate_wp bs c s :
  let i := inode_at ip s in let b0 := IBLOCK (i_inum i) x in
  tx bs ∅ c s -> sb s = x -> i_dev i = ROOTDEV -> length (i_addrs i) = NADDRS -> 0 <= b0 < 2 ^ 31 ->
  home (sb_logstart x) b0 -> (length bs + 1 < NBUF)%nat ->
  wp (iupdate ip) L s (fun _ s' => same_rest s s' /\ tx (logged bs b0) ∅ (put_inode i c) s').
Proof using HL HLL.
  intros i b0 T Hsb Hdev Hal Hb Hhome Hsz. unfold iupdate, iof. wstep. wstep. wstep. wstep. wstep. fold i. rewrite Hdev, Hsb. fold b0.
  wstep. eapply wpl_call.
  { apply (fbread_wp _ HL _ _ _ _ _ T); [split; [done|by rewrite Hsb]|rewrite map_img_empty_L; apply not_elem_of_empty|rewrite map_size_empty; lia]. }
  intros h s1 (R1 & _ & T1). rewrite insert_empty in T1.
  assert (Hh : ({[h := b0]} : gmap nat Z) !! h = Some b0) by apply lookup_singleton_eq.
  wstep. eapply wpl_call; [by apply (fbdata_wp _ _ _ _ h b0 _ T1)|]. intros d s1' [-> ->].
  apply (fstore_log_wpl _ HL HLL _ _ _ h b0 _ _ _ _ T1 Hh); [|unfold LOGBLOCKS, NBUF in *; lia|].
  { apply put_dinode_ok; [|done|apply dinode_off_range]. rewrite <- (tx_content _ _ _ _ T). apply bok_block, T. }
  intros s2 R2 T2. eapply wpl_call; [by apply (fbrelse_wp _ HL _ _ _ h b0 _ T2)|].
  intros _ s3 [R3 T3]. rewrite delete_singleton_eq in T3. split; [done|]. split; [|done].
  by do 2 (etrans; [eassumption|]).
Qed.

(** iupdate writes an inode back faithfully: the dinode of its number then
    decodes to the copy in memory, every other dinode and every other block is as
    before, and one block was logged. *)
Theorem iupdate_correct bs c s :
  let i := inode_at ip s in let b0 := IBLOCK (i_inum i) x in
  tx bs ∅ c s -> sb s = x -> i_dev i = ROOTDEV -> dinode_ok (dinode_of i) -> 0 <= i_inum i ->
  i_inum i / IPB + sb_inodestart x < 2 ^ 31 -> 0 <= sb_inodestart x -> home (sb_logstart x) b0 -> (length bs + 1 < NBUF)%nat ->
  wp (iupdate ip) L s (fun _ s' => same_rest s s' /\ exists c', tx (logged bs b0) ∅ c' s' /\
    get_dinode (dinode_off (i_inum i)) (c' b0) = dinode_of i /\
    (forall j, 0 <= j -> j <> i_inum i -> j / IPB + sb_inodestart x < 2 ^ 31 ->
       get_dinode (dinode_off j) (c' (IBLOCK j x)) = get_dinode (dinode_off j) (c (IBLOCK j x))) /\
    forall y, y <> b0 -> c' y = c y).
Proof using HL HLL.
  intros i b0 T Hsb Hdev Hok Hi Hib Hst Hhome Hsz.
  assert (HI : forall j, 0 <= j -> j / IPB + sb_inodestart x < 2 ^ 31 -> IBLOCK j x = j / IPB + sb_inodestart x).
  { intros j Hj Hlt. unfold IBLOCK. apply u32_small. assert (0 <= j / IPB) by (apply Z.div_pos; unfold IPB; lia). lia. }
  assert (Hb : 0 <= b0 < 2 ^ 31).
  { unfold b0. rewrite HI by done. assert (0 <= i_inum i / IPB) by (apply Z.div_pos; unfold IPB; lia). lia. }
  assert (Hc : forall y, block_ok (c y)) by (intros y; rewrite <- (tx_content _ _ _ _ T); apply bok_block, T).
  eapply wp_mono; [apply (iupdate_wp bs c s); try done; apply Hok|]. intros _ s' [R T']. split; [done|].
  exists (put_inode i c). split; [done|]. unfold put_inode. fold b0. pose proof (dinode_off_range (i_inum i)) as Hr.
  split; [|split].
  - rewrite upd_eq. apply get_put_dinode; [done|by rewrite (proj1 (Hc _))].
  - intros j Hj Hne Hlt. unfold upd. case_decide as E; [|done]. fold b0 in E. rewrite E. apply get_put_dinode_ne.
    + apply Hok.
    + by rewrite (proj1 (Hc _)).
    + apply dinode_off_ne; try done. unfold b0 in E. rewrite !HI in E by done. lia.
  - intros y Hy. by apply upd_ne.
Qed.
End Update.
