(* ===== verification/FsMap.v ===== *)
(** The blocks of a file, bmap of kernel/fs.c: direct, indirect and double
    indirect addresses as a tree of slots, and the correctness of bmap. *)
From S2P Require Import Prelude UserIface Block Sleeplock CStrings Log LogCrash LogTxn Fs FsBlocks.
Local Open Scope Z_scope.

(** * Slots *)

(** The places that hold block addresses: the direct addresses, the indirect
    block and its entries, the double indirect block, its entries and theirs. *)
Inductive slot :=
  | SDirect (i : nat)
  | SInd | SIndEntry (i : nat)
  | SDbl | SDblEntry (i : nat) | SDblLeaf (i j : nat).

#[export] Instance slot_eq_dec : EqDecision slot.
Proof. solve_decision. Defined.

Definition slot_ok (p : slot) : Prop :=
  match p with
  | SDirect i => (i < NDIRECT)%nat
  | SInd | SDbl => True
  | SIndEntry i | SDblEntry i => (i < NINDIRECT)%nat
  | SDblLeaf i j => (i < NINDIRECT)%nat /\ (j < NINDIRECT)%nat
  end.

Definition is_leaf (p : slot) : bool :=
  match p with SDirect _ | SIndEntry _ | SDblLeaf _ _ => true | _ => false end.

(** Entry [i] of the indirect block [a]; 0 when there is none. *)
Definition child (c : Z -> block) (a : Z) (i : nat) : Z := if a =? 0 then 0 else get_word i (c a).

Definition slot_addr (c : Z -> block) (al : list Z) (p : slot) : Z :=
  match p with
  | SDirect i => nth i al 0
  | SInd => nth NDIRECT al 0
  | SIndEntry i => child c (nth NDIRECT al 0) i
  | SDbl => nth (NDIRECT + 1) al 0
  | SDblEntry i => child c (nth (NDIRECT + 1) al 0) i
  | SDblLeaf i j => child c (child c (nth (NDIRECT + 1) al 0) i) j
  end.

(** The slot of file block [bn]. *)
Definition bn_slot (bn : Z) : slot :=
  if bn <? Z.of_nat NDIRECT then SDirect (Z.to_nat bn)
  else
    let bn := bn - Z.of_nat NDIRECT in
    if bn <? Z.of_nat NINDIRECT then SIndEntry (Z.to_nat bn)
    else
      let bn := bn - Z.of_nat NINDIRECT in
      SDblLeaf (Z.to_nat (bn / Z.of_nat NINDIRECT)) (Z.to_nat (bn mod Z.of_nat NINDIRECT)).

Definition file_block (c : Z -> block) (al : list Z) (bn : Z) : Z := slot_addr c al (bn_slot bn).

Lemma bn_slot_ok bn : 0 <= bn < MAXFILE -> slot_ok (bn_slot bn) /\ is_leaf (bn_slot bn) = true.
Proof.
  intros Hb. unfold bn_slot, MAXFILE, NDINDIRECT in Hb |- *. unfold NDIRECT, NINDIRECT in Hb |- *.
  destruct (Z.ltb_spec bn (Z.of_nat 11)); [split; [|done]; simpl; unfold NDIRECT; lia|].
  destruct (Z.ltb_spec (bn - Z.of_nat 11) (Z.of_nat 256)); (split; [|done]); simpl; unfold NINDIRECT; [lia|].
  split; zdiv.
Qed.

Lemma bn_slot_inj bn bn' : 0 <= bn -> 0 <= bn' -> bn_slot bn = bn_slot bn' -> bn = bn'.
Proof.
  intros Hb Hb'. unfold bn_slot, NDIRECT, NINDIRECT.
  destruct (Z.ltb_spec bn (Z.of_nat 11)), (Z.ltb_spec bn' (Z.of_nat 11));
    [|destruct (Z.ltb_spec (bn' - Z.of_nat 11) (Z.of_nat 256))|destruct (Z.ltb_spec (bn - Z.of_nat 11) (Z.of_nat 256))
     |destruct (Z.ltb_spec (bn - Z.of_nat 11) (Z.of_nat 256)), (Z.ltb_spec (bn' - Z.of_nat 11) (Z.of_nat 256))];
    intros E; try discriminate E; injection E; intros; try lia.
  apply Z2Nat.inj in H3, H4; zdiv.
Qed.

(** * Well-formed files *)
Lemma get_put_word i j a d : block_ok d -> (i < NINDIRECT)%nat -> (j < NINDIRECT)%nat -> 0 <= a < 2 ^ 32 ->
  get_word j (put_word i a d) = if decide (j = i) then a else get_word j d.
Proof.
  intros [Hl _] Hi Hj Ha. unfold get_word, put_word, NINDIRECT in *. case_decide as E.
  - subst j. rewrite get_put_le by (rewrite Hl; unfold BSIZE; lia). change (256 ^ Z.of_nat 4) with (2 ^ 32).
    by apply Z.mod_small.
  - rewrite get_put_le_ne; [done|rewrite Hl; unfold BSIZE; lia|lia].
Qed.

Lemma put_word_ok i a d : block_ok d -> (i < NINDIRECT)%nat -> block_ok (put_word i a d).
Proof.
  intros [Hl Hd] Hi. unfold put_word, NINDIRECT in *. split; [|by apply put_le_is_byte].
  rewrite length_put_le; [done|]. rewrite Hl. unfold BSIZE. lia.
Qed.

Lemma get_word_zero i : get_word i zero_block = 0.
Proof.
  unfold get_word, get_le, zero_block. rewrite drop_replicate, take_replicate.
  generalize (4 `min` (BSIZE - 4 * i))%nat. induction n; simpl; lia.
Qed.

Lemma child_zero c i : child c 0 i = 0.
Proof. done. Qed.

(** ** Nodes and entries *)
Definition is_node (p : slot) : bool := negb (is_leaf p).
Definition entry (p : slot) (i : nat) : slot :=
  match p with SInd => SIndEntry i | SDbl => SDblEntry i | SDblEntry k => SDblLeaf k i | _ => p end.


Lemma entry_ok p i : is_node p = true -> slot_ok p -> (i < NINDIRECT)%nat -> slot_ok (entry p i).
Proof. by destruct p. Qed.

Lemma entry_inj p q i j : is_node p = true -> is_node q = true -> entry p i = entry q j -> p = q /\ i = j.
Proof. destruct p, q; simpl; intros; simplify_eq; done. Qed.

(** The slots on the way to [p]. *)
Definition trail (p : slot) : list slot :=
  match p with
  | SDirect _ | SInd | SDbl => [p]
  | SIndEntry _ => [SInd; p]
  | SDblEntry _ => [SDbl; p]
  | SDblLeaf i _ => [SDbl; SDblEntry i; p]
  end.

Lemma trail_ok p q : slot_ok p -> q ∈ trail p -> slot_ok q.
Proof. destruct p; simpl; intros Hp; rewrite ?elem_of_cons, ?elem_of_nil; intros; destruct_or?; simplify_eq/=; naive_solver. Qed.

Lemma trail_entry p i : is_node p = true -> trail (entry p i) = trail p ++ [entry p i].
Proof. by destruct p. Qed.

Lemma trail_sub p i : is_node p = true -> trail p ⊆ trail (entry p i).
Proof. intros Hp. rewrite trail_entry by done. intros q Hq. apply elem_of_app. by left. Qed.

Lemma trail_self p : p ∈ trail p.
Proof. destruct p; set_solver. Qed.

Section Tree.
Context (x : superblock).
Hypothesis HY : layout x.

(** A block of a file: in use, outside the log and the free map. *)
Record data_block (c : Z -> block) (a : Z) : Prop := {
  db_range : 0 < a < sb_size x;
  db_used : used x c a = true;
  db_home : home (sb_logstart x) a;
  db_map : forall b, 0 <= b < sb_size x -> BBLOCK b x <> a
}.

(** Every address is of such a block, and no block is used twice. *)
Record tree_ok (c : Z -> block) (al : list Z) : Prop := {
  to_len : length al = NADDRS;
  to_block : forall y, block_ok (c y);
  to_addr : forall p, slot_ok p -> slot_addr c al p <> 0 -> data_block c (slot_addr c al p);
  to_inj : forall p q, slot_ok p -> slot_ok q -> slot_addr c al p <> 0 ->
    slot_addr c al p = slot_addr c al q -> p = q
}.

(** From [(c, al)] to [(c', al')] the slot [p] was filled with the fresh block
    [a]; nothing else that belongs to the file changed. *)
Record fills (p : slot) (a : Z) (c : Z -> block) (al : list Z) (c' : Z -> block) (al' : list Z) : Prop := {
  fi_len : length al' = length al;
  fi_block : forall y, block_ok (c' y);
  fi_addr : forall q, slot_ok q -> slot_addr c' al' q = if decide (q = p) then a else slot_addr c al q;
  fi_used : forall b, 0 <= b < sb_size x -> used x c' b = (bool_decide (b = a) || used x c b);
  fi_zero : c' a = zero_block;
  fi_data : forall q, slot_ok q -> is_leaf q = true -> slot_addr c al q <> 0 ->
    c' (slot_addr c al q) = c (slot_addr c al q);
  fi_boot : c' 0 = c 0;
  fi_frame : forall y, y <> a -> (forall b, 0 <= b < sb_size x -> BBLOCK b x <> y) ->
    (forall q, slot_ok q -> slot_addr c al q <> y) -> c' y = c y
}.

Lemma fills_map_ok p a c al c' al' : 0 < a < sb_size x -> fills p a c al c' al' -> map_ok x c -> map_ok x c'.
Proof using HY.
  intros Ha F [Hf Hb]. pose proof (ly_size x HY). split.
  - intros b Hb' Hu. rewrite (fi_used _ _ _ _ _ _ F) in Hu by done. apply orb_false_iff in Hu as [_ Hu]. by apply Hf.
  - rewrite (fi_used _ _ _ _ _ _ F), Hb by lia. apply orb_true_r.
Qed.

Lemma fills_tree_ok p a c al c' al' :
  tree_ok c al -> map_ok x c -> fills p a c al c' al' -> 0 < a < sb_size x -> used x c a = false ->
  slot_addr c al p = 0 -> tree_ok c' al'.
Proof using HY.
  intros [Hlen Hbk Had Hinj] Hm F Ha Hu Hp. pose proof F as [Fl Fb Fa Fu Fz Fd F0 _].
  destruct (mo_free x c Hm a ltac:(lia) Hu) as [Hah Hab].
  assert (Hfresh : forall q, slot_ok q -> slot_addr c al q <> a).
  { intros q Hq E. assert (Hn : slot_addr c al q <> 0) by lia. pose proof (db_used _ _ (Had q Hq Hn)). congruence. }
  split.
  - congruence.
  - done.
  - intros q Hq. rewrite Fa by done. case_decide as E; intros Hn.
    + split; [done| |done|done]. rewrite Fu by lia. by rewrite bool_decide_true.
    + destruct (Had q Hq Hn) as [D1 D2 D3 D4]. split; try done. rewrite Fu by lia. rewrite D2. apply orb_true_r.
  - intros q r Hq Hr. rewrite !Fa by done. case_decide as Eq; case_decide as Er; intros Hn E; subst; try done.
    + by destruct (Hfresh r Hr).
    + by destruct (Hfresh q Hq).
    + by apply Hinj.
Qed.

Lemma alloc_keeps c a y : map_ok x c -> 0 <= a < sb_size x -> data_block c y -> used x c a = false ->
  alloc_block x a c y = c y.
Proof using.
  intros Hm Ha [D1 D2 D3 D4] Hu. unfold alloc_block. rewrite !upd_ne; [done| |congruence].
  intros ->. by apply (D4 a).
Qed.

Lemma alloc_block_ok c a : (forall y, block_ok (c y)) -> forall y, block_ok (alloc_block x a c y).
Proof using.
  intros Hc y. unfold alloc_block, upd. repeat case_decide; [apply zero_block_ok|by apply set_bit_ok|done].
Qed.

Lemma alloc_boot c a : 0 < a < sb_size x -> alloc_block x a c 0 = c 0.
Proof using HY.
  intros Ha. unfold alloc_block. rewrite !upd_ne; [done| |lia]. destruct (BBLOCK_eq x HY a ltac:(lia)) as [-> _].
  pose proof (ly_bmap x HY). change BPB with 8192. zdiv.
Qed.

(** The slots in the inode. *)
Definition top_slot (i : nat) : slot :=
  if decide (i < NDIRECT)%nat then SDirect i else if decide (i = NDIRECT) then SInd else SDbl.

Lemma top_slot_entry q i : (exists j, q = SIndEntry j) \/ (exists j, q = SDblEntry j) \/ (exists j k, q = SDblLeaf j k) ->
  q <> top_slot i.
Proof using. unfold top_slot. repeat case_decide; naive_solver. Qed.

Lemma nth_insert (l : list Z) i j v : (i < length l)%nat -> nth j (<[i := v]> l) 0 = if decide (j = i) then v else nth j l 0.
Proof using.
  intros Hi. rewrite !nth_lookup. case_decide; [subst; by rewrite list_lookup_insert_eq|by rewrite list_lookup_insert_ne].
Qed.

Section Fill.
Context (c : Z -> block) (al : list Z) (a : Z).
Hypothesis HT : tree_ok c al.
Hypothesis HM : map_ok x c.
Hypothesis Ha : 0 < a < sb_size x.
Hypothesis Hu : used x c a = false.

(** Children of blocks that did not change. *)
Lemma child_keeps c' p i : slot_ok p ->
  (slot_addr c al p <> 0 -> c' (slot_addr c al p) = c (slot_addr c al p)) ->
  child c' (slot_addr c al p) i = child c (slot_addr c al p) i.
Proof using.
  intros Hp Hc. unfold child. destruct (Z.eqb_spec (slot_addr c al p) 0); [done|]. by rewrite Hc.
Qed.

Lemma alloc_child p i : slot_ok p ->
  child (alloc_block x a c) (slot_addr c al p) i = child c (slot_addr c al p) i.
Proof using HT HM Ha Hu.
  intros Hp. apply child_keeps; [done|]. intros Hn. apply alloc_keeps; try done; [lia|]. by apply (to_addr _ _ HT).
Qed.

Lemma alloc_new_child i : child (alloc_block x a c) a i = 0.
Proof using Ha.
  unfold child. rewrite (proj2 (Z.eqb_neq a 0)) by lia. unfold alloc_block. rewrite upd_eq. apply get_word_zero.
Qed.

Lemma fills_top i : (i < NADDRS)%nat -> nth i al 0 = 0 ->
  fills (top_slot i) a c al (alloc_block x a c) (<[i := a]> al).
Proof using HT HM Ha Hu HY.
  intros Hi Hz. pose proof (to_len _ _ HT) as Hlen. unfold NADDRS, NDIRECT in Hi, Hlen.
  split.
  - apply length_insert.
  - apply alloc_block_ok, HT.
  - intros q Hq.
    destruct q as [j| |j| |j|j k]; simpl in Hq |- *; rewrite nth_insert by lia; unfold NDIRECT in *.
    + unfold top_slot, NDIRECT. destruct (decide (i < 11)%nat); [|destruct (decide (i = 11)%nat)]; repeat case_decide; simplify_eq/=; lia || done.
    + unfold top_slot, NDIRECT. destruct (decide (i < 11)%nat); [|destruct (decide (i = 11)%nat)]; repeat case_decide; simplify_eq/=; lia || done.
    + rewrite (decide_False (P := SIndEntry j = top_slot i)) by (apply top_slot_entry; by eauto 6). case_decide as E; [|by apply (alloc_child SInd)].
      rewrite alloc_new_child, E, Hz. done.
    + unfold top_slot, NDIRECT. destruct (decide (i < 11)%nat); [|destruct (decide (i = 11)%nat)]; repeat case_decide; simplify_eq/=; lia || done.
    + rewrite (decide_False (P := SDblEntry j = top_slot i)) by (apply top_slot_entry; by eauto 6). case_decide as E; [|by apply (alloc_child SDbl)].
      rewrite alloc_new_child. simpl in E. rewrite E, Hz. done.
    + rewrite (decide_False (P := SDblLeaf j k = top_slot i)) by (apply top_slot_entry; by eauto 6). case_decide as E.
      * rewrite alloc_new_child. simpl in E. rewrite E, Hz. done.
      * change (nth (11 + 1) al 0) with (slot_addr c al SDbl). rewrite (alloc_child SDbl) by done.
        destruct Hq. by apply (alloc_child (SDblEntry j)).
  - intros b Hb. apply used_alloc; try done; [apply HT|lia].
  - apply upd_eq.
  - intros q Hq _ Hn. apply alloc_keeps; try done; [lia|]. by apply (to_addr _ _ HT).
  - by apply alloc_boot.
  - intros y Hy Hb _. unfold alloc_block. rewrite !upd_ne; [done| |done]. intros ->. apply (Hb a); [lia|done].
Qed.

(** ** Entries of indirect blocks *)
Lemma entry_addr c0 p i : is_node p = true -> slot_addr c0 al (entry p i) = child c0 (slot_addr c0 al p) i.
Proof using. by destruct p. Qed.

Section Entry.
Context (pp : slot) (i : nat).
Hypothesis Hpp : is_node pp = true.
Hypothesis Hppok : slot_ok pp.
Hypothesis Hi : (i < NINDIRECT)%nat.
Let pa : Z := slot_addr c al pp.
Hypothesis Hpa : pa <> 0.
Hypothesis Hz : child c pa i = 0.

Definition put_entry : Z -> block := upd (alloc_block x a c) pa (put_word i a (c pa)).

Lemma parent_block : data_block c pa.
Proof using All. by apply (to_addr _ _ HT). Qed.

Lemma put_entry_keeps y : data_block c y -> y <> pa -> put_entry y = c y.
Proof using All. intros Hd Hne. unfold put_entry. rewrite upd_ne by done. apply alloc_keeps; try done. lia. Qed.

Lemma put_entry_new : put_entry a = zero_block.
Proof using All.
  unfold put_entry. rewrite upd_ne; [apply upd_eq|]. intros E. pose proof (db_used _ _ parent_block). congruence.
Qed.

Lemma put_entry_child q j : is_node q = true -> slot_ok q -> (j < NINDIRECT)%nat ->
  child put_entry (slot_addr c al q) j = if decide (entry q j = entry pp i) then a else child c (slot_addr c al q) j.
Proof using All.
  intros Hq Hqok Hj. pose proof (ly_size x HY). destruct (decide (q = pp)) as [->|Hne].
  - fold pa. unfold child. rewrite (proj2 (Z.eqb_neq pa 0)) by done. unfold put_entry. rewrite upd_eq.
    rewrite get_put_word; [|apply HT|done|done|lia]. destruct (decide (j = i)) as [->|Hne]; [by rewrite decide_True|].
    rewrite decide_False; [done|]. intros E. by apply entry_inj in E as [_ ?].
  - rewrite decide_False by (intros E; by apply entry_inj in E as [? _]). apply child_keeps; [done|]. intros Hn.
    apply put_entry_keeps; [by apply (to_addr _ _ HT)|]. intros E. apply Hne. by apply (to_inj _ _ HT).
Qed.

Lemma put_entry_used b : 0 <= b < sb_size x -> used x put_entry b = (bool_decide (b = a) || used x c b).
Proof using All.
  intros Hb. rewrite <- (used_alloc x HY c a b); [|done|apply HT|lia|done|done]. unfold used, put_entry.
  rewrite upd_ne; [done|]. apply (db_map _ _ parent_block). done.
Qed.

Lemma fills_entry : fills (entry pp i) a c al put_entry al.
Proof using All.
  pose proof (db_range _ _ parent_block) as Hpr. split.
  - done.
  - intros y. unfold put_entry, upd. case_decide; [apply put_word_ok; [apply HT|done]|apply alloc_block_ok, HT].
  - intros q Hq. destruct q as [j| |j| |j|j k]; simpl in Hq.
    + by rewrite decide_False by by destruct pp.
    + by rewrite decide_False by by destruct pp.
    + by apply (put_entry_child SInd).
    + by rewrite decide_False by by destruct pp.
    + by apply (put_entry_child SDbl).
    + destruct Hq as [Hj Hk]. change (slot_addr ?f al (SDblLeaf j k)) with (child f (child f (slot_addr f al SDbl) j) k).
      change (slot_addr put_entry al SDbl) with (slot_addr c al SDbl).
      rewrite (put_entry_child SDbl) by done. change (entry SDbl j) with (SDblEntry j). case_decide as E.
      * rewrite decide_False by (intros E'; rewrite <- E in E'; done).
        unfold child at 1. rewrite (proj2 (Z.eqb_neq a 0)) by lia. rewrite put_entry_new, get_word_zero.
        change (child c (slot_addr c al SDbl) j) with (slot_addr c al (SDblEntry j)).
        rewrite E, entry_addr by done. fold pa. rewrite Hz. done.
      * change (child c (slot_addr c al SDbl) j) with (slot_addr c al (SDblEntry j)).
        by apply (put_entry_child (SDblEntry j)).
  - apply put_entry_used.
  - apply put_entry_new.
  - intros q Hq Hl Hn. apply put_entry_keeps; [by apply (to_addr _ _ HT)|]. intros E.
    apply (to_inj _ _ HT) in E; try done. subst q. unfold is_node in Hpp. by rewrite Hl in Hpp.
  - unfold put_entry. rewrite upd_ne by lia. by apply alloc_boot.
  - intros y Hy Hb Hq. unfold put_entry, alloc_block. rewrite !upd_ne; [done| |done|].
    + intros ->. apply (Hb a); [lia|done].
    + intros ->. by apply (Hq pp).
Qed.
End Entry.
End Fill.

(** * Growing a file *)

(** The file was extended: what it had is where it was, what it got was free, and
    blocks in use that are not the file's are untouched. *)
Record extends (c : Z -> block) (al : list Z) (c' : Z -> block) (al' : list Z) : Prop := {
  e_tree : tree_ok c' al';
  e_map : map_ok x c';
  e_keep : forall q, slot_ok q -> slot_addr c al q <> 0 -> slot_addr c' al' q = slot_addr c al q;
  e_fresh : forall q, slot_ok q -> slot_addr c' al' q <> slot_addr c al q -> used x c (slot_addr c' al' q) = false;
  e_used : forall b, 0 <= b < sb_size x -> used x c b = true -> used x c' b = true;
  e_frame : forall y, 0 <= y < sb_size x -> used x c y = true -> (forall b, 0 <= b < sb_size x -> BBLOCK b x <> y) ->
    (forall q, slot_ok q -> slot_addr c al q <> y) -> c' y = c y
}.

Lemma extends_refl c al : tree_ok c al -> map_ok x c -> extends c al c al.
Proof using. intros. by split. Qed.

Lemma extends_trans c al c1 al1 c2 al2 : extends c al c1 al1 -> extends c1 al1 c2 al2 -> extends c al c2 al2.
Proof using.
  intros [T1 M1 K1 F1 U1 R1] [T2 M2 K2 F2 U2 R2]. split; try done.
  - intros q Hq Hn. rewrite K2; [by apply K1|done|by rewrite K1].
  - intros q Hq Hne. destruct (decide (slot_addr c1 al1 q = slot_addr c al q)) as [E|E].
    + assert (Hf : used x c1 (slot_addr c2 al2 q) = false) by (apply F2; [done|congruence]).
      assert (Hn : slot_addr c2 al2 q <> 0).
      { intros Hz. assert (Hn1 : slot_addr c1 al1 q <> 0) by congruence. rewrite (K2 q Hq Hn1) in Hz. done. }
      destruct (used x c (slot_addr c2 al2 q)) eqn:Hu; [|done]. apply U1 in Hu; [congruence|].
      pose proof (db_range _ _ (to_addr _ _ T2 q Hq Hn)). lia.
    + assert (Hn : slot_addr c1 al1 q <> 0).
      { intros Hz. assert (Hn0 : slot_addr c al q <> 0) by congruence. by rewrite (K1 q Hq Hn0) in E. }
      rewrite (K2 q Hq Hn). by apply F1.
  - intros b Hb Hu. apply U2; [done|]. by apply U1.
  - intros y Hy Hu Hb Hq. rewrite (R2 y Hy (U1 y Hy Hu) Hb); [by apply R1|]. intros q Hok E.
    destruct (decide (slot_addr c1 al1 q = slot_addr c al q)) as [E1|E1]; [apply (Hq q Hok); congruence|].
    apply F1 in E1; [|done]. congruence.
Qed.

(** The file grew: only [leaf] among the data slots may have been filled, and
    every data block it had is what it was. *)
Record grows (leaf : slot) (c : Z -> block) (al : list Z) (c' : Z -> block) (al' : list Z) : Prop := {
  g_ext : extends c al c' al';
  g_addr : forall q, slot_ok q -> is_leaf q = true -> q <> leaf -> slot_addr c' al' q = slot_addr c al q;
  g_data : forall q, slot_ok q -> is_leaf q = true -> slot_addr c al q <> 0 ->
    c' (slot_addr c al q) = c (slot_addr c al q);
  g_boot : c' 0 = c 0
}.

Lemma grows_refl leaf c al : tree_ok c al -> map_ok x c -> grows leaf c al c al.
Proof using. intros. split; try done; by apply extends_refl. Qed.

Lemma grows_trans leaf c al c1 al1 c2 al2 :
  grows leaf c al c1 al1 -> grows leaf c1 al1 c2 al2 -> grows leaf c al c2 al2.
Proof using.
  intros [E1 A1 D1 B1] [E2 A2 D2 B2]. split; try done.
  - by eapply extends_trans.
  - intros q Hq Hl Hn. by rewrite A2, A1.
  - intros q Hq Hl Hn. pose proof (e_keep _ _ _ _ E1 q Hq Hn) as Hk.
    rewrite <- Hk, D2; [|done..|by rewrite Hk]. rewrite Hk. by apply D1.
  - congruence.
Qed.

Lemma fills_grows leaf p a c al c' al' :
  p = leaf \/ is_node p = true -> tree_ok c al -> map_ok x c -> fills p a c al c' al' -> 0 < a < sb_size x ->
  used x c a = false -> slot_addr c al p = 0 -> grows leaf c al c' al'.
Proof using HY.
  intros Hp HT HM F Ha Hu Hz. split; [split|..].
  - by eapply fills_tree_ok.
  - by eapply fills_map_ok.
  - intros q Hq Hn. rewrite (fi_addr _ _ _ _ _ _ F) by done. rewrite decide_False; [done|]. by intros ->.
  - intros q Hq. rewrite (fi_addr _ _ _ _ _ _ F) by done. by case_decide.
  - intros b Hb Hub. rewrite (fi_used _ _ _ _ _ _ F), Hub by done. apply orb_true_r.
  - intros y Hy Huy Hb Hq. apply (fi_frame _ _ _ _ _ _ F); try done. congruence.
  - intros q Hq Hl Hn. rewrite (fi_addr _ _ _ _ _ _ F) by done. rewrite decide_False; [done|]. intros ->.
    destruct Hp as [->|Hp]; [done|]. unfold is_node in Hp. by rewrite Hl in Hp.
  - apply (fi_data _ _ _ _ _ _ F).
  - apply (fi_boot _ _ _ _ _ _ F).
Qed.

(** ** bmap *)
Section Bmap.
Context {B U : Type} `{BufCache B} `{UserMemory U}.
Context (L : list lock) (ip : nat).
Hypothesis HL : buf_free L.
Hypothesis HLL : log_lock ∉ L.
Implicit Types s : fss B U.

Definition set_addrs (al : list Z) (i : inode) : inode :=
  with_dinode (mkDinode (i_type i) (i_major i) (i_minor i) (i_nlink i) (i_size i) al) i.

(** Inside a transaction, the inode [ip] has the addresses [al]. *)
Record mapped (bs : list Z) (c : Z -> block) (al : list Z) s : Prop := {
  mp_tx : tx bs ∅ c s;
  mp_sb : sb s = x;
  mp_ip : (ip < length (itable s))%nat;
  mp_addrs : i_addrs (inode_at ip s) = al;
  mp_dev : i_dev (inode_at ip s) = ROOTDEV;
  mp_tree : tree_ok c al;
  mp_map : map_ok x c
}.

(** What bmap may change outside the log: the addresses of the inode, and the
    console. *)
Record bmap_frame s s' : Prop := {
  bf_sb : sb s' = sb s;
  bf_itable : exists al, itable s' = alter (set_addrs al) ip (itable s);
  bf_kbuf : kbuf s' = kbuf s;
  bf_usr : usr s' = usr s;
  bf_pid : curpid s' = curpid s;
  bf_cwd : cwd s' = cwd s
}.

Lemma alter_set_addrs_id s : itable s = alter (set_addrs (i_addrs (inode_at ip s))) ip (itable s).
Proof using.
  apply list_eq. intros j. destruct (decide (j = ip)) as [->|Hne]; [|by rewrite list_lookup_alter_ne].
  rewrite list_lookup_alter_eq. unfold inode_at. rewrite nth_lookup. destruct (itable s !! ip) as [[]|]; done.
Qed.

Lemma set_addrs_twice a1 a2 (t : list inode) : alter (set_addrs a2) ip (alter (set_addrs a1) ip t) = alter (set_addrs a2) ip t.
Proof using.
  apply list_eq. intros j. destruct (decide (j = ip)) as [->|Hne]; [|by rewrite !list_lookup_alter_ne].
  rewrite !list_lookup_alter_eq. by destruct (t !! ip).
Qed.

Lemma bmap_frame_rest s s' : same_rest s s' -> bmap_frame s s'.
Proof using.
  intros R. split; try apply R. exists (i_addrs (inode_at ip s)). rewrite (sr_itable _ _ R). apply alter_set_addrs_id.
Qed.

Lemma bmap_frame_trans s1 s2 s3 : bmap_frame s1 s2 -> bmap_frame s2 s3 -> bmap_frame s1 s3.
Proof using.
  intros [S1 [a1 I1] K1 U1 P1 C1] [S2 [a2 I2] K2 U2 P2 C2]. split; try congruence.
  exists a2. by rewrite I2, I1, set_addrs_twice.
Qed.

(** What is logged on the way to [p] besides [bs]: blocks of the free map and
    blocks on the trail. *)
Definition logs (ps : list slot) (bs : list Z) (c : Z -> block) (al : list Z) (bs' : list Z) : Prop :=
  forall b, b ∈ bs' -> b ∈ bs \/ (exists a, 0 <= a < sb_size x /\ b = BBLOCK a x) \/
    exists q, q ∈ ps /\ slot_addr c al q = b /\ b <> 0.

Lemma logs_mono ps ps' bs c al bs' : ps ⊆ ps' -> logs ps bs c al bs' -> logs ps' bs c al bs'.
Proof using.
  intros Hps Hl b Hb. destruct (Hl b Hb) as [?|[?|(q & Hq & Hs)]]; [by left|by right; left|]. right; right.
  exists q. split; [by apply Hps|done].
Qed.

Lemma logs_refl ps bs c al : logs ps bs c al bs.
Proof using. intros b Hb. by left. Qed.

Lemma logs_trans ps ps' bs c1 al1 bs1 c2 al2 bs2 :
  Forall slot_ok ps -> extends c1 al1 c2 al2 -> ps ⊆ ps' ->
  logs ps bs c1 al1 bs1 -> logs ps' bs1 c2 al2 bs2 -> logs ps' bs c2 al2 bs2.
Proof using.
  intros Hok G Hps L1 L2 b Hb. destruct (L2 b Hb) as [Hb1|Hb2]; [|by right].
  destruct (L1 b Hb1) as [?|[?|(q & Hq & Hs & Hn)]]; [by left|by right; left|]. right; right. exists q.
  split; [by apply Hps|]. split; [|done]. rewrite <- Hs in Hn |- *. apply (e_keep _ _ _ _ G); [|done].
  by eapply Forall_forall in Hok.
Qed.

Lemma logs_alloc ps bs c al r : 0 <= r < sb_size x -> (exists q, q ∈ ps /\ slot_addr c al q = r /\ r <> 0) ->
  logs ps bs c al (logged (logged bs (BBLOCK r x)) r).
Proof using.
  intros Hr Hq b Hb. unfold logged in Hb.
  assert (Hc : b ∈ bs \/ b = BBLOCK r x \/ b = r).
  { repeat case_decide; rewrite ?elem_of_app, ?list_elem_of_singleton in Hb; by destruct_or?; subst; auto. }
  destruct Hc as [?|[->| ->]]; [by left|right; left; by exists r|by right; right].
Qed.

Lemma logs_put ps bs bs' c al a : logs ps bs c al bs' -> (exists q, q ∈ ps /\ slot_addr c al q = a /\ a <> 0) ->
  logs ps bs c al (logged bs' a).
Proof using.
  intros Hl Hq b Hb. unfold logged in Hb. case_decide; [by apply Hl|].
  apply elem_of_app in Hb as [?| ->%list_elem_of_singleton]; [by apply Hl|by right; right].
Qed.

Definition full (c : Z -> block) : Prop := forall b, 0 <= b < sb_size x -> used x c b = true.

(** The outcome of filling slot [p] on the way to [leaf]. *)
Definition got_slot (leaf p : slot) (k : nat) (bs : list Z) (c : Z -> block) (al : list Z) s (r : Z) s' : Prop :=
  exists bs' c' al', mapped bs' c' al' s' /\ grows leaf c al c' al' /\ bmap_frame s s' /\
    (length bs' <= length bs + k)%nat /\ logs (trail p) bs c' al' bs' /\ slot_addr c' al' p = r /\
    (r <> 0 -> slot_addr c al p = 0 -> c' r = zero_block) /\ (r = 0 -> full c').

Lemma inode_at_alter s f j : (j < length (itable s))%nat ->
  inode_at ip (on_inode j f s) = if decide (ip = j) then f (inode_at ip s) else inode_at ip s.
Proof using.
  intros Hj. unfold inode_at, on_inode. simpl. rewrite !nth_lookup. case_decide as E.
  - subst j. rewrite list_lookup_alter_eq. by destruct (lookup_lt_is_Some_2 _ _ Hj) as [y ->].
  - by rewrite list_lookup_alter_ne.
Qed.

Lemma mapped_ext bs bs' c c' al s s' :
  mapped bs c al s -> tx bs' ∅ c' s' -> same_rest s s' -> tree_ok c' al -> map_ok x c' -> mapped bs' c' al s'.
Proof using.
  intros [T Hsb Hip Hal Hdev HT HM] T' R HT' HM'. unfold inode_at in *.
  split; unfold inode_at; rewrite ?(sr_sb _ _ R), ?(sr_itable _ _ R); done.
Qed.

Lemma tx_iset bs hd c f s : tx bs hd c s -> tx bs hd c (on_inode ip f s).
Proof using. intros []. by split. Qed.

Lemma bmap_frame_iset s i a : bmap_frame s (on_inode ip (with_addr i a) s).
Proof using.
  split; try done. exists (<[i := a]> (i_addrs (inode_at ip s))). simpl. apply list_eq. intros j.
  destruct (decide (j = ip)) as [->|Hne]; [|by rewrite !list_lookup_alter_ne].
  rewrite !list_lookup_alter_eq. unfold inode_at. rewrite nth_lookup. by destruct (itable s !! ip) as [y|].
Qed.

Lemma addr_or_alloc_wp leaf i bs c al s :
  let p := top_slot i in
  mapped bs c al s -> (i < NADDRS)%nat -> p = leaf \/ is_node p = true -> (length bs + 2 < NBUF)%nat ->
  wp (addr_or_alloc ip i) L s (got_slot leaf p 2 bs c al s).
Proof using All.
  intros p MP Hi Hp Hsz. destruct (MP) as [T Hsb Hip Hal Hdev HT HM].
  assert (Hsa : forall c0 al0, slot_addr c0 al0 p = nth i al0 0).
  { intros c0 al0. unfold p, top_slot, NADDRS, NDIRECT in *. repeat case_decide; simpl; unfold NDIRECT; f_equal; lia. }
  unfold addr_or_alloc, iof. wstep. wstep. wstep. rewrite Hal. destruct (Z.eqb_spec (nth i al 0) 0) as [Hz|Hnz]; last first.
  { wsteps. split; [done|]. exists bs, c, al. split; [done|]. split; [by apply grows_refl|].
    split; [by apply bmap_frame_rest|]. split; [lia|]. split; [apply logs_refl|]. split; [apply Hsa|]. split; [|done]. intros _. by rewrite Hsa. }
  rewrite Hdev. wstep. eapply wpl_call.
  { eapply (balloc_wp L HL HLL x ∅ HY bs c s); try done. rewrite map_size_empty. lia. }
  intros r s1 [(-> & Hfull & T1 & s0 & R0 & ->)|(Hr & Hu & _ & R1 & T1)].
  { rewrite Z.eqb_refl. wsteps. split; [done|]. exists bs, c, al. split; [|split; [by apply grows_refl|]].
    - split; unfold inode_at in *; simpl; rewrite ?(sr_sb _ _ R0), ?(sr_itable _ _ R0); done.
    - split; [|split; [lia|split; [apply logs_refl|split; [by rewrite Hsa|by split]]]].
      destruct (bmap_frame_rest _ _ R0) as []. by split. }
  rewrite (proj2 (Z.eqb_neq r 0)) by lia. unfold iset. wsteps. split; [done|].
  pose proof (fills_top c al r HT HM Hr Hu i Hi Hz) as F. fold p in F.
  exists (logged (logged bs (BBLOCK r x)) r), (alloc_block x r c), (<[i := r]> al).
  assert (Hip1 : (ip < length (itable s1))%nat) by by rewrite (sr_itable _ _ R1).
  assert (G : grows leaf c al (alloc_block x r c) (<[i := r]> al)) by (eapply fills_grows; try done; by rewrite Hsa).
  assert (Ei : inode_at ip s1 = inode_at ip s) by (unfold inode_at; by rewrite (sr_itable _ _ R1)).
  assert (Hsr : slot_addr (alloc_block x r c) (<[i := r]> al) p = r).
  { rewrite Hsa, nth_insert by (rewrite (to_len _ _ HT); done). by rewrite decide_True. }
  split; [|split; [done|split; [|split; [|split; [|split; [done|split]]]]]].
  - destruct (g_ext _ _ _ _ _ G) as [G1 G2 _ _ _ _]. split; simpl; rewrite ?(sr_sb _ _ R1); try done.
    + by apply tx_iset.
    + by rewrite length_alter.
    + rewrite inode_at_alter, decide_True by done. simpl. by rewrite Ei, Hal.
    + rewrite inode_at_alter, decide_True by done. simpl. by rewrite Ei.
  - eapply bmap_frame_trans; [by apply bmap_frame_rest|apply bmap_frame_iset].
  - pose proof (logged_length (logged bs (BBLOCK r x)) r). pose proof (logged_length bs (BBLOCK r x)). lia.
  - apply logs_alloc; [lia|]. exists p. split; [apply trail_self|]. split; [done|lia].
  - intros _ _. apply upd_eq.
  - lia.
Qed.

Lemma word_or_alloc_wp leaf pp i bs c al s :
  let p := entry pp i in
  mapped bs c al s -> is_node pp = true -> slot_ok pp -> slot_addr c al pp <> 0 -> (i < NINDIRECT)%nat ->
  p = leaf \/ is_node p = true -> (length bs + 3 < NBUF)%nat ->
  wp (word_or_alloc ROOTDEV (slot_addr c al pp) i) L s (got_slot leaf p 3 bs c al s).
Proof using All.
  intros p MP Hpp Hok Hpa Hi Hp Hsz. destruct (MP) as [T Hsb Hip Hal Hdev HT HM].
  set (pa := slot_addr c al pp) in *. pose proof (to_addr _ _ HT pp Hok Hpa) as D. fold pa in D.
  pose proof (ly_size x HY) as Hls. destruct (D) as [D1 D2 D3 D4].
  assert (Hbk : fsblock s pa) by (split; [lia|by rewrite Hsb]).
  assert (Hch : slot_addr c al p = get_word i (c pa)).
  { unfold p. rewrite entry_addr by done. fold pa. unfold child. by rewrite (proj2 (Z.eqb_neq pa 0)). }
  unfold word_or_alloc. wstep. wstep. eapply wpl_call.
  { apply (fbread_wp _ HL _ _ _ _ _ T); [done|rewrite map_img_empty_L; set_solver|rewrite map_size_empty; lia]. }
  intros h s1 (R1 & _ & T1). rewrite insert_empty in T1.
  assert (Hh : ({[h := pa]} : gmap nat Z) !! h = Some pa) by apply lookup_singleton_eq.
  wstep. eapply wpl_call; [by apply (fbdata_wp _ _ _ _ h pa _ T1)|]. intros d s1' [-> ->]. wstep.
  assert (Hsb1 : sb s1 = x) by by rewrite (sr_sb _ _ R1).
  destruct (Z.eqb_spec (get_word i (c pa)) 0) as [Hz|Hnz]; last first.
  { wsteps. eapply wpl_call; [by apply (fbrelse_wp _ HL _ _ _ h pa _ T1)|].
    intros _ s2 [R2 T2]. rewrite delete_singleton_eq in T2. wsteps. split; [done|].
    assert (R : same_rest s s2) by by etrans.
    exists bs, c, al. split; [by eapply mapped_ext|]. split; [by apply grows_refl|].
    split; [by apply bmap_frame_rest|]. split; [lia|]. split; [apply logs_refl|]. split; [done|]. split; [by rewrite Hch|done]. }
  wstep. eapply wpl_call.
  { apply (balloc_wp L HL HLL x {[h := pa]} HY bs c s1); try done; [|rewrite map_size_singleton; lia].
    intros h' b' [<- <-]%lookup_singleton_Some. done. }
  intros r s2 [(-> & Hfull & T2 & s0 & R0 & ->)|(Hr & Hu & _ & R2 & T2)].
  { rewrite Z.eqb_refl. wsteps. eapply wpl_call; [by apply (fbrelse_wp _ HL _ _ _ h pa _ T2)|].
    intros _ s3 [R3 T3]. rewrite delete_singleton_eq in T3. wsteps. split; [done|].
    exists bs, c, al. split; [|split; [by apply grows_refl|split; [|split; [lia|split; [apply logs_refl|split; [by rewrite Hch|by split]]]]]].
    - split; unfold inode_at in *; try done; rewrite ?(sr_sb _ _ R3), ?(sr_itable _ _ R3); simpl;
        rewrite ?(sr_sb _ _ R0), ?(sr_itable _ _ R0), ?(sr_itable _ _ R1); done.
    - eapply bmap_frame_trans; [by apply bmap_frame_rest|]. eapply bmap_frame_trans; [by apply bmap_frame_rest|].
      eapply bmap_frame_trans; [|by apply bmap_frame_rest]. split; try done. eexists. apply (alter_set_addrs_id s0). }
  rewrite (proj2 (Z.eqb_neq r 0)) by lia. wstep. wstep.
  eapply wpl_call; [by apply (fbdata_wp _ _ _ _ h pa _ T2)|]. intros d s2' [-> ->].
  rewrite (alloc_keeps c r pa) by (try done; lia). eapply wpl_call.
  { apply (fstore_log_wp _ HL HLL _ _ _ h pa _ _ T2); [done|apply put_word_ok; [apply HT|done]|].
    pose proof (logged_length (logged bs (BBLOCK r x)) r). pose proof (logged_length bs (BBLOCK r x)).
    unfold LOGBLOCKS, NBUF in *. lia. }
  intros _ s3 [R3 T3]. wsteps. eapply wpl_call; [by apply (fbrelse_wp _ HL _ _ _ h pa _ T3)|].
  intros _ s4 [R4 T4]. rewrite delete_singleton_eq in T4. wsteps. split; [done|].
  assert (R : same_rest s s4) by (do 3 (etrans; [eassumption|]); done).
  assert (Hcz : child c pa i = 0) by (unfold child; by rewrite (proj2 (Z.eqb_neq pa 0))).
  pose proof (fills_entry c al r HT HM Hr Hu pp i Hpp Hok Hi Hpa Hcz) as F. fold p in F.
  change (upd (alloc_block x r c) pa (put_word i r (c pa))) with (put_entry c al r pp i) in T4.
  assert (G : grows leaf c al (put_entry c al r pp i) al).
  { eapply fills_grows; try done. by rewrite Hch. }
  eexists _, (put_entry c al r pp i), al. split; [eapply mapped_ext; try done; apply (g_ext _ _ _ _ _ G)|]. split; [done|].
  assert (Hsr : slot_addr (put_entry c al r pp i) al p = r).
  { rewrite (fi_addr _ _ _ _ _ _ F) by by apply entry_ok. by rewrite decide_True. }
  split; [by apply bmap_frame_rest|]. split; [|split; [|split; [done|split]]].
  - pose proof (logged_length (logged (logged bs (BBLOCK r x)) r) pa). pose proof (logged_length (logged bs (BBLOCK r x)) r).
    pose proof (logged_length bs (BBLOCK r x)). lia.
  - unfold p. rewrite trail_entry by done. fold p. apply logs_put.
    + apply logs_alloc; [lia|]. exists p. split; [apply elem_of_app; right; apply list_elem_of_here|]. split; [done|lia].
    + exists pp. split; [apply elem_of_app; left; apply trail_self|]. split; [|done]. by apply (e_keep _ _ _ _ (g_ext _ _ _ _ _ G)).
  - intros _ _. apply (fi_zero _ _ _ _ _ _ F).
  - lia.
Qed.

Lemma grows_weaken p leaf c al c' al' : is_node p = true -> grows p c al c' al' -> grows leaf c al c' al'.
Proof using.
  intros Hp [G1 G2 G3 G4]. split; try done. intros q Hq Hl _. apply G2; try done.
  intros ->. unfold is_node in Hp. by rewrite Hl in Hp.
Qed.

(** Two steps on the way to a leaf. *)
Lemma got_slot_trans node leaf k1 k2 bs c al s s1 bs1 c1 al1 r2 s2 :
  is_node node = true -> is_leaf leaf = true -> slot_ok leaf ->
  trail node ⊆ trail leaf -> grows node c al c1 al1 -> bmap_frame s s1 -> (length bs1 <= length bs + k1)%nat ->
  logs (trail node) bs c1 al1 bs1 -> slot_ok node ->
  got_slot leaf leaf k2 bs1 c1 al1 s1 r2 s2 -> got_slot leaf leaf (k1 + k2) bs c al s r2 s2.
Proof using.
  intros Hn Hl Hok Htr G F Hlen Hlg Hnok (bs' & c' & al' & MP & G' & F' & Hlen' & Hlg' & Hr & Hz & Hf).
  exists bs', c', al'. split; [done|]. split; [eapply grows_trans; [by eapply grows_weaken|done]|].
  split; [by eapply bmap_frame_trans|]. split; [lia|]. split.
  { apply (logs_trans (trail node) _ bs c1 al1 bs1); try done; [|apply (g_ext _ _ _ _ _ G')]. apply Forall_forall. intros q Hq. by eapply trail_ok. }
  split; [done|]. split; [|done].
  intros Hr2 Hzero. apply Hz; [done|]. rewrite (g_addr _ _ _ _ _ G); try done. intros ->. unfold is_node in Hn. by rewrite Hl in Hn.
Qed.

(** An entry that is there is read, whatever the block. *)
Lemma word_or_alloc_found a i bs c al s :
  mapped bs c al s -> 0 <= a < 2 ^ 31 -> home (sb_logstart x) a -> get_word i (c a) <> 0 -> (length bs + 3 < NBUF)%nat ->
  wp (word_or_alloc ROOTDEV a i) L s (fun r s' => r = get_word i (c a) /\ mapped bs c al s' /\ same_rest s s').
Proof using All.
  intros MP Ha Hhome Hw Hsz. destruct (MP) as [T Hsb Hip Hal Hdev HT HM].
  unfold word_or_alloc. wstep. wstep. eapply wpl_call.
  { apply (fbread_wp _ HL _ _ _ _ _ T); [split; [done|by rewrite Hsb]|rewrite map_img_empty_L; set_solver|rewrite map_size_empty; lia]. }
  intros h s1 (R1 & _ & T1). rewrite insert_empty in T1.
  assert (Hh : ({[h := a]} : gmap nat Z) !! h = Some a) by apply lookup_singleton_eq.
  wstep. eapply wpl_call; [by apply (fbdata_wp _ _ _ _ h a _ T1)|]. intros d s1' [-> ->]. wstep.
  rewrite (proj2 (Z.eqb_neq _ 0)) by done. wsteps. eapply wpl_call; [by apply (fbrelse_wp _ HL _ _ _ h a _ T1)|].
  intros _ s2 [R2 T2]. rewrite delete_singleton_eq in T2. wsteps. split; [done|]. split; [done|].
  assert (R : same_rest s s2) by by etrans. split; [by eapply mapped_ext|done].
Qed.

(** On a full disk an absent entry stays absent. *)
Lemma word_or_alloc_full a i bs c al s :
  mapped bs c al s -> full c -> 0 <= a < sb_size x -> home (sb_logstart x) a ->
  (forall b, 0 <= b < sb_size x -> BBLOCK b x <> a) -> get_word i (c a) = 0 -> (length bs + 3 < NBUF)%nat ->
  wp (word_or_alloc ROOTDEV a i) L s (fun r s' => r = 0 /\ mapped bs c al s' /\ bmap_frame s s').
Proof using All.
  intros MP Hfull Ha Hhome Hmap Hw Hsz. destruct (MP) as [T Hsb Hip Hal Hdev HT HM]. pose proof (ly_size x HY) as Hls.
  unfold word_or_alloc. wstep. wstep. eapply wpl_call.
  { apply (fbread_wp _ HL _ _ _ _ _ T); [split; [lia|by rewrite Hsb]|rewrite map_img_empty_L; set_solver|rewrite map_size_empty; lia]. }
  intros h s1 (R1 & _ & T1). rewrite insert_empty in T1.
  assert (Hh : ({[h := a]} : gmap nat Z) !! h = Some a) by apply lookup_singleton_eq.
  wstep. eapply wpl_call; [by apply (fbdata_wp _ _ _ _ h a _ T1)|]. intros d s1' [-> ->]. wstep.
  rewrite Hw, Z.eqb_refl. wstep. eapply wpl_call.
  { apply (balloc_wp L HL HLL x {[h := a]} HY bs c s1); try done; [by rewrite (sr_sb _ _ R1)| |rewrite map_size_singleton; lia].
    intros h' b' [<- <-]%lookup_singleton_Some. split; [by apply Hfull|done]. }
  intros r s2 [(-> & _ & T2 & s0 & R0 & ->)|(Hr & Hu & _)]; [|rewrite Hfull in Hu by lia; done].
  rewrite Z.eqb_refl. wsteps. eapply wpl_call; [by apply (fbrelse_wp _ HL _ _ _ h a _ T2)|].
  intros _ s3 [R3 T3]. rewrite delete_singleton_eq in T3. wsteps. split; [done|]. split; [done|]. split.
  - split; unfold inode_at in *; try done; rewrite ?(sr_sb _ _ R3), ?(sr_itable _ _ R3); simpl;
      rewrite ?(sr_sb _ _ R0), ?(sr_itable _ _ R0), ?(sr_sb _ _ R1), ?(sr_itable _ _ R1); done.
  - eapply bmap_frame_trans; [by apply bmap_frame_rest|]. eapply bmap_frame_trans; [by apply bmap_frame_rest|].
    eapply bmap_frame_trans; [|by apply bmap_frame_rest]. split; try done. eexists. apply (alter_set_addrs_id s0).
Qed.

Lemma boot_not_map b : 0 <= b < sb_size x -> BBLOCK b x <> 0.
Proof using HY.
  intros Hb. destruct (BBLOCK_eq x HY b Hb) as [-> _]. pose proof (ly_bmap x HY). change BPB with 8192. zdiv.
Qed.

(** A zero address in the double indirect block leads the code to the boot
    block. *)
Lemma word_or_alloc_boot leaf i bs c al s :
  mapped bs c al s -> full c -> c 0 = zero_block -> home (sb_logstart x) 0 -> (length bs + 3 < NBUF)%nat ->
  slot_ok leaf -> slot_addr c al leaf = 0 ->
  wp (word_or_alloc ROOTDEV 0 i) L s (got_slot leaf leaf 3 bs c al s).
Proof using All.
  intros MP Hfull Hzb Hhome Hsz Hok Hleaf. pose proof (ly_size x HY) as Hls. eapply wp_mono.
  { apply (word_or_alloc_full 0 i bs c al s MP Hfull); [lia|done|apply boot_not_map|by rewrite Hzb, get_word_zero|done]. }
  intros r s' (-> & MP' & F). exists bs, c, al. split; [done|]. split; [apply grows_refl; apply MP|].
  split; [done|]. split; [lia|]. split; [apply logs_refl|]. split; [done|]. by split.
Qed.

(** Nothing is found below a slot that could not be filled. *)
Lemma got_slot_none node leaf k bs c al s s' : is_node node = true -> is_leaf leaf = true -> slot_ok leaf ->
  trail node ⊆ trail leaf -> (forall c' al', slot_addr c' al' node = 0 -> slot_addr c' al' leaf = 0) ->
  got_slot node node k bs c al s 0 s' -> got_slot leaf leaf k bs c al s 0 s'.
Proof using.
  intros Hn Hl Hok Htr Hchild (bs' & c' & al' & MP & G & F & Hlen & Hlg & Hr & _ & Hf). exists bs', c', al'.
  split; [done|]. split; [by eapply grows_weaken|]. split; [done|]. split; [done|].
  split; [by eapply logs_mono|]. split; [by apply Hchild|by split].
Qed.

Lemma got_slot_more leaf p k k' bs c al s r s' : (k <= k')%nat ->
  got_slot leaf p k bs c al s r s' -> got_slot leaf p k' bs c al s r s'.
Proof using.
  intros Hk (bs' & c' & al' & MP & G & F & Hlen & Hr). exists bs', c', al'.
  split; [done|]. split; [done|]. split; [done|]. split; [lia|done].
Qed.

Lemma bmap_direct bn bs c al s :
  mapped bs c al s -> 0 <= bn < Z.of_nat NDIRECT -> (length bs + 2 < NBUF)%nat ->
  wp (addr_or_alloc ip (Z.to_nat bn)) L s (got_slot (SDirect (Z.to_nat bn)) (SDirect (Z.to_nat bn)) 2 bs c al s).
Proof using All.
  intros MP Hbn Hsz.
  assert (Ht : top_slot (Z.to_nat bn) = SDirect (Z.to_nat bn)) by (unfold top_slot; by rewrite decide_True by lia).
  rewrite <- Ht. apply addr_or_alloc_wp; try done; [unfold NADDRS; lia|by left].
Qed.

(** The indirect block and one of its entries. *)
Lemma bmap_indirect i j bs c al s node leaf :
  node = top_slot i -> leaf = entry node j -> is_node node = true -> is_leaf leaf = true -> slot_ok node -> slot_ok leaf ->
  (i < NADDRS)%nat -> (j < NINDIRECT)%nat -> mapped bs c al s -> (length bs + 5 < NBUF)%nat ->
  wp (addr ← addr_or_alloc ip i; if addr =? 0 then mret 0 else word_or_alloc ROOTDEV addr j) L s
    (got_slot leaf leaf 5 bs c al s).
Proof using All.
  intros -> -> Hn Hl Hnok Hlok Hi Hj MP Hsz. wstep. wstep.
  eapply wpl_call; [apply (addr_or_alloc_wp (top_slot i) i bs c al s MP Hi); [by left|lia]|].
  intros a s1 Hg. destruct (Z.eqb_spec a 0) as [->|Hnz].
  { wsteps. split; [done|]. eapply got_slot_more; [|eapply (got_slot_none (top_slot i)); try done]; [lia|by apply trail_sub|].
    intros c' al' Hz. rewrite entry_addr by done. by rewrite Hz. }
  destruct Hg as (bs1 & c1 & al1 & MP1 & G1 & F1 & Hlen1 & Hlg1 & <- & _).
  eapply wpl_call; [apply (word_or_alloc_wp (entry (top_slot i) j)); try done; [by left|lia]|].
  intros r s2 Hg2. split; [done|]. eapply (got_slot_trans (top_slot i) _ 2 3); try done. by apply trail_sub.
Qed.

Lemma bmap_wp bn bs c al s :
  mapped bs c al s -> 0 <= bn < MAXFILE -> c 0 = zero_block -> home (sb_logstart x) 0 -> (length bs + 8 < NBUF)%nat ->
  wp (bmap ip bn) L s (got_slot (bn_slot bn) (bn_slot bn) 8 bs c al s).
Proof using All.
  intros MP Hbn H0b Hhome Hsz. destruct (bn_slot_ok bn Hbn) as [Hok Hleaf].
  assert (Hdev := mp_dev _ _ _ _ MP). unfold bmap, iof. wstep. wstep. wstep. rewrite Hdev.
  unfold bn_slot in *. destruct (Z.ltb_spec bn (Z.of_nat NDIRECT)) as [Hd|Hd].
  { eapply wpl_call; [apply bmap_direct; try done; lia|]. intros r s' Hg. split; [done|].
    eapply got_slot_more; [|done]. lia. }
  destruct (Z.ltb_spec (bn - Z.of_nat NDIRECT) (Z.of_nat NINDIRECT)) as [Hi|Hi].
  { set (j := Z.to_nat (bn - Z.of_nat NDIRECT)) in *.
    eapply wpl_call; [apply (bmap_indirect NDIRECT j bs c al s SInd (SIndEntry j)); try done; [unfold NADDRS; lia|lia]|].
    intros r s' Hg. split; [done|]. eapply got_slot_more; [|done]. lia. }
  set (bn2 := bn - Z.of_nat NDIRECT - Z.of_nat NINDIRECT) in *.
  rewrite (proj2 (Z.ltb_lt bn2 NDINDIRECT)) by (unfold bn2, MAXFILE in *; lia).
  set (i := Z.to_nat (bn2 / Z.of_nat NINDIRECT)) in *. set (j := Z.to_nat (bn2 mod Z.of_nat NINDIRECT)) in *.
  destruct Hok as [Hiok Hjok]. assert (Htr : trail SDbl ⊆ trail (SDblLeaf i j)).
  { intros q Hq. apply list_elem_of_singleton in Hq as ->. apply list_elem_of_here. }
  wstep.
  eapply wpl_call; [apply (addr_or_alloc_wp SDbl (NDIRECT + 1) bs c al s MP); [unfold NADDRS; lia|by left|lia]|].
  change (top_slot (NDIRECT + 1)) with SDbl. intros a s1 Hg. destruct (Z.eqb_spec a 0) as [->|Hnz].
  { wsteps. split; [done|]. eapply got_slot_more; [|eapply (got_slot_none SDbl); try done]; [lia|].
    intros c' al' Hz. simpl in *. by rewrite Hz. }
  destruct Hg as (bs1 & c1 & al1 & MP1 & G1 & F1 & Hlen1 & Hlg1 & <- & _). wstep.
  eapply wpl_call; [apply (word_or_alloc_wp (SDblEntry i) SDbl i); try done; [by left|lia]|].
  change (entry SDbl i) with (SDblEntry i). intros a2 s2 (bs2 & c2 & al2 & MP2 & G2 & F2 & Hlen2 & Hlg2 & <- & _ & Hf2).
  assert (G12 : grows (SDblEntry i) c al c2 al2) by (eapply grows_trans; [by eapply (grows_weaken SDbl)|done]).
  assert (F12 : bmap_frame s s2) by by eapply bmap_frame_trans.
  assert (Hlg12 : logs (trail (SDblEntry i)) bs c2 al2 bs2).
  { apply (logs_trans (trail SDbl) _ bs c1 al1 bs1); try done; [by repeat constructor|apply (g_ext _ _ _ _ _ G2)|by apply (trail_sub SDbl)]. }
  destruct (decide (slot_addr c2 al2 (SDblEntry i) = 0)) as [Hz|Hnz2].
  - rewrite Hz. eapply wpl_call.
    { apply (word_or_alloc_boot (SDblLeaf i j) j bs2 c2 al2); try done; [by apply Hf2|by rewrite (g_boot _ _ _ _ _ G12)|lia|].
      simpl in *. by rewrite Hz. }
    intros r s3 Hg. split; [done|]. eapply (got_slot_trans (SDblEntry i) _ 5 3); try done; [by apply (trail_sub (SDblEntry i))|lia].
  - eapply wpl_call; [apply (word_or_alloc_wp (SDblLeaf i j) (SDblEntry i) j); try done; [by left|lia]|].
    intros r s3 Hg. split; [done|]. eapply (got_slot_trans (SDblEntry i) _ 5 3); try done; [by apply (trail_sub (SDblEntry i))|lia].
Qed.

(** C12. bmap: for every block number of a file of which no block is shared, it
    returns the address the inode and its indirect blocks then have for it. No
    other block of the file moves, no data block that was there changes, nor does
    a block in use that is neither the file's nor of the free map; a block that
    was not there is a free block, zeroed; 0 is returned only when the disk is
    full. The boot block is assumed to be zero, as mkfs leaves it. *)
Theorem bmap_correct bn bs c al s :
  mapped bs c al s -> 0 <= bn < MAXFILE -> c 0 = zero_block -> home (sb_logstart x) 0 -> (length bs + 8 < NBUF)%nat ->
  wp (bmap ip bn) L s (fun r s' => exists bs' c' al', mapped bs' c' al' s' /\ bmap_frame s s' /\
    (length bs' <= length bs + 8)%nat /\ file_block c' al' bn = r /\
    (forall n, 0 <= n < MAXFILE -> n <> bn -> file_block c' al' n = file_block c al n) /\
    (forall n, 0 <= n < MAXFILE -> file_block c al n <> 0 ->
       file_block c' al' n = file_block c al n /\ c' (file_block c al n) = c (file_block c al n)) /\
    (forall y, 0 <= y < sb_size x -> used x c y = true -> (forall b, 0 <= b < sb_size x -> BBLOCK b x <> y) ->
       (forall q, slot_ok q -> slot_addr c al q <> y) -> c' y = c y) /\
    (r <> 0 -> file_block c al bn = 0 -> c' r = zero_block) /\ (r = 0 -> full c')).
Proof using All.
  intros MP Hbn Hzb Hhome Hsz. eapply wp_mono; [by apply (bmap_wp bn bs c al s)|].
  intros r s' (bs' & c' & al' & MP' & G & F & Hlen & _ & Hr & Hz & Hf). exists bs', c', al'.
  split; [done|]. split; [done|]. split; [done|]. split; [done|]. split; [|split; [|split; [apply (e_frame _ _ _ _ (g_ext _ _ _ _ _ G))|by split]]].
  - intros n Hn Hne. destruct (bn_slot_ok n Hn). apply (g_addr _ _ _ _ _ G); try done.
    intros E. apply Hne. apply bn_slot_inj; lia || done.
  - intros n Hn Hnz. destruct (bn_slot_ok n Hn). split; [by apply (e_keep _ _ _ _ (g_ext _ _ _ _ _ G))|by apply (g_data _ _ _ _ _ G)].
Qed.

(** C40. When the disk is full and a block of the double indirect range needs a
    new first-level block, bmap goes on with address 0: it takes the entry from
    the boot block and returns it as a block of the file. *)
Theorem bmap_reads_boot_block bn bs c al s :
  let n := bn - Z.of_nat NDIRECT - Z.of_nat NINDIRECT in
  let i := Z.to_nat (n / Z.of_nat NINDIRECT) in let j := Z.to_nat (n mod Z.of_nat NINDIRECT) in
  mapped bs c al s -> full c -> 0 <= n < NDINDIRECT -> slot_addr c al SDbl <> 0 -> slot_addr c al (SDblEntry i) = 0 ->
  get_word j (c 0) <> 0 -> home (sb_logstart x) 0 -> (length bs + 3 < NBUF)%nat ->
  file_block c al bn = 0 /\
  wp (bmap ip bn) L s (fun r s' => r = get_word j (c 0) /\ mapped bs c al s').
Proof using All.
  intros n i j MP Hfull Hn Hd He Hw Hhome Hsz. pose proof (ly_size x HY) as Hls.
  assert (Hi : (i < NINDIRECT)%nat) by (unfold i, NDINDIRECT, NINDIRECT in *; zdiv).
  assert (Hlt : (bn <? Z.of_nat NDIRECT) = false /\ (bn - Z.of_nat NDIRECT <? Z.of_nat NINDIRECT) = false) by (split; apply Z.ltb_ge; lia).
  destruct Hlt as [Hlt1 Hlt2]. split.
  { unfold file_block, bn_slot. rewrite Hlt1, Hlt2. fold n i j. simpl in *. by rewrite He. }
  destruct (to_addr _ _ (mp_tree _ _ _ _ MP) SDbl I Hd) as [D1 D2 D3 D4].
  unfold bmap, iof. wstep. wstep. wstep. rewrite (mp_dev _ _ _ _ MP), Hlt1, Hlt2. fold n.
  rewrite (proj2 (Z.ltb_lt n NDINDIRECT)) by lia. fold i j.
  unfold addr_or_alloc, iof. wstep. wstep. wstep. rewrite (mp_addrs _ _ _ _ MP).
  change (nth (NDIRECT + 1) al 0) with (slot_addr c al SDbl). rewrite (proj2 (Z.eqb_neq (slot_addr c al SDbl) 0)) by done.
  wstep. rewrite (proj2 (Z.eqb_neq (slot_addr c al SDbl) 0)) by done. wstep. eapply wpl_call.
  { apply (word_or_alloc_full _ i bs c al s MP Hfull); try done; [lia|].
    rewrite <- He. simpl. unfold child. by rewrite (proj2 (Z.eqb_neq _ 0)). }
  intros r s1 (-> & MP1 & F1). eapply wpl_call; [apply (word_or_alloc_found 0 j bs c al s1 MP1); try done; lia|].
  intros r s2 (-> & MP2 & F2). done.
Qed.
End Bmap.
End Tree.
