(* ===== verification/FsRead.v ===== *)
(** Reading files, readi of kernel/fs.c: the bytes of a file, and that readi
    delivers them to kernel or user memory. *)
From S2P Require Import Prelude UserIface Block Sleeplock CStrings Log LogCrash LogTxn Fs FsBlocks FsMap.
Local Open Scope Z_scope.

(** * The bytes of a file *)
Definition BS : Z := Z.of_nat BSIZE.

Definition file_byte (c : Z -> block) (al : list Z) (p : Z) : Z :=
  nth (Z.to_nat (p mod BS)) (c (file_block c al (p / BS))) 0.

Definition file_bytes (c : Z -> block) (al : list Z) (off n : Z) : list Z :=
  (fun i => file_byte c al (off + Z.of_nat i)) <$> seq 0 (Z.to_nat n).

(** Every block below the size is there. *)
Definition no_holes (c : Z -> block) (al : list Z) (size : Z) : Prop :=
  forall n, 0 <= n -> n * BS < size -> file_block c al n <> 0.

Lemma length_file_bytes c al off n : length (file_bytes c al off n) = Z.to_nat n.
Proof. unfold file_bytes. by rewrite length_fmap, length_seq. Qed.

Lemma file_bytes_lookup c al off n i : (i < Z.to_nat n)%nat ->
  file_bytes c al off n !! i = Some (file_byte c al (off + Z.of_nat i)).
Proof. intros Hi. unfold file_bytes. by rewrite list_lookup_fmap, lookup_seq_lt. Qed.

Lemma file_bytes_app c al off a b : 0 <= a -> 0 <= b ->
  file_bytes c al off (a + b) = file_bytes c al off a ++ file_bytes c al (off + a) b.
Proof.
  intros Ha Hb. unfold file_bytes. rewrite Z2Nat.inj_add, seq_app, fmap_app by done. f_equal.
  apply list_eq. intros i. rewrite !list_lookup_fmap. destruct (decide (i < Z.to_nat b)%nat) as [Hi|Hi].
  - rewrite !lookup_seq_lt by done. simpl. do 2 f_equal. lia.
  - by rewrite !lookup_seq_ge by lia.
Qed.

Lemma take_drop_nth (d : list Z) o m : (o + m <= length d)%nat ->
  take m (drop o d) = (fun i => nth (o + i) d 0) <$> seq 0 m.
Proof.
  intros Hm. apply list_eq. intros i. rewrite list_lookup_fmap. destruct (decide (i < m)%nat) as [Hi|Hi].
  - rewrite lookup_take_lt, lookup_drop, lookup_seq_lt by done. simpl. rewrite nth_lookup.
    by destruct (lookup_lt_is_Some_2 d (o + i)) as [v ->]; [lia|].
  - rewrite lookup_take_ge, lookup_seq_ge by lia. done.
Qed.

(** The part of one block. *)
Lemma file_bytes_block c al off m : (forall y, block_ok (c y)) -> 0 <= off -> 0 <= m -> off mod BS + m <= BS ->
  take (Z.to_nat m) (drop (Z.to_nat (off mod BS)) (c (file_block c al (off / BS)))) = file_bytes c al off m.
Proof.
  intros Hc Ho Hm Hle. assert (HB : BS = 1024) by done. rewrite HB in *.
  pose proof (Z.mod_pos_bound off 1024 ltac:(lia)).
  rewrite take_drop_nth by (rewrite (proj1 (Hc _)); unfold BSIZE; lia).
  apply list_fmap_ext. intros i y [-> Hi]%lookup_seq. unfold file_byte. rewrite HB.
  assert (E : (off + Z.of_nat (0 + i)) / 1024 = off / 1024) by zdiv. rewrite E. f_equal. zdiv.
Qed.

Lemma nth_is_byte l i : Forall is_byte l -> is_byte (nth i l 0).
Proof.
  intros Hl. rewrite nth_lookup. destruct (l !! i) eqn:E; [by eapply Forall_lookup_1|]. unfold is_byte. simpl. lia.
Qed.

Lemma file_byte_ok c al p : (forall y, block_ok (c y)) -> is_byte (file_byte c al p).
Proof. intros Hc. apply nth_is_byte, Hc. Qed.

Lemma file_bytes_ok c al off n : (forall y, block_ok (c y)) -> Forall is_byte (file_bytes c al off n).
Proof. intros Hc. apply Forall_fmap, Forall_true. intros i. by apply file_byte_ok. Qed.

(** * Copying out *)
Lemma length_splice o l d : (o + length l <= length d)%nat -> length (splice o l d) = length d.
Proof. intros. unfold splice. rewrite !length_app, length_take, length_drop. lia. Qed.

Lemma splice_nil o d : splice o [] d = d.
Proof. unfold splice. simpl. rewrite Nat.add_0_r. apply take_drop. Qed.

Lemma splice_splice o l l' d : (o + length l + length l' <= length d)%nat ->
  splice (o + length l) l' (splice o l d) = splice o (l ++ l') d.
Proof.
  intros Hl. assert (Hp : length (take o d ++ l) = (o + length l)%nat) by (rewrite length_app, length_take; lia).
  unfold splice at 2. rewrite app_assoc. unfold splice at 1.
  rewrite take_app_length' by done. rewrite drop_app_ge by lia. rewrite drop_drop, Hp.
  unfold splice. rewrite <- !app_assoc. do 3 f_equal. rewrite length_app. f_equal. lia.
Qed.

Section Copy.
Context {B U : Type} `{BufCache B} `{UserMemory U}.
Implicit Types s : fss B U.

(** Everything but the memory read into is unchanged. *)
Record same_fs s s' : Prop := {
  sf_lst : lst s' = lst s;
  sf_sb : sb s' = sb s;
  sf_itable : itable s' = itable s;
  sf_pid : curpid s' = curpid s;
  sf_cwd : cwd s' = cwd s;
  sf_out : out s' = out s
}.

(** [len] bytes can be stored at [dst]. *)
Definition dst_ok (user : bool) (dst len : Z) s : Prop :=
  if user then uok (usr s) /\ 0 <= dst /\ dst + len < 2 ^ 64
  else 0 <= dst /\ dst + len <= Z.of_nat (length (kbuf s)).

(** The bytes [l] were stored at [dst], and nothing else was. *)
Definition delivered (user : bool) (dst : Z) (l : list Z) s s' : Prop :=
  if user then
    kbuf s' = kbuf s /\ uok (usr s') /\ bytes_at (uview (usr s')) dst l /\
    forall a b, uview (usr s) a = Some b -> a < dst \/ dst + Z.of_nat (length l) <= a -> uview (usr s') a = Some b
  else usr s' = usr s /\ kbuf s' = splice (Z.to_nat dst) l (kbuf s).

Lemma delivered_nil user dst s : (user = true -> uok (usr s)) -> delivered user dst [] s s.
Proof. intros Hu. destruct user; simpl; [|by rewrite splice_nil]. split_and!; [done|by apply Hu|apply bytes_at_nil|done]. Qed.

Lemma delivered_dst user dst l len s s' :
  dst_ok user dst len s -> delivered user dst l s s' -> Z.of_nat (length l) <= len ->
  dst_ok user (dst + Z.of_nat (length l)) (len - Z.of_nat (length l)) s'.
Proof.
  destruct user; simpl.
  - intros (Hu & H1 & H2) (_ & Hu' & _) Hl. split; [done|lia].
  - intros [H1 H2] (_ & ->) Hl. rewrite length_splice by lia. lia.
Qed.

Lemma delivered_app user dst l l' s s1 s2 :
  dst_ok user dst (Z.of_nat (length l + length l')) s -> delivered user dst l s s1 ->
  delivered user (dst + Z.of_nat (length l)) l' s1 s2 -> delivered user dst (l ++ l') s s2.
Proof.
  destruct user; simpl.
  - intros (Hu & H1 & H2) (K1 & U1 & B1 & V1) (K2 & U2 & B2 & V2). rewrite length_app. split_and!; [congruence|done| |].
    + apply bytes_at_app. split; [|done]. eapply bytes_at_keep; [exact B1| |exact V2]. by left.
    + intros a b Ha Hd. apply V2; [apply V1; [done|lia]|lia].
  - intros [H1 H2] (U1 & K1) (U2 & K2). split; [congruence|]. rewrite K2, K1.
    rewrite Z2Nat.inj_add, Nat2Z.id by lia. apply splice_splice. lia.
Qed.

Lemma delivered_rest user dst l s s1 s2 s3 : same_rest s s1 -> same_rest s2 s3 ->
  delivered user dst l s1 s2 -> delivered user dst l s s3.
Proof.
  intros [_ _ K1 U1 _ _ _] [_ _ K2 U2 _ _ _]. destruct user; simpl; rewrite K2, U2, K1, U1; done.
Qed.

Lemma dst_rest user dst len s s' : same_rest s s' -> dst_ok user dst len s -> dst_ok user dst len s'.
Proof. intros [_ _ K U' _ _ _]. destruct user; simpl; by rewrite ?K, ?U'. Qed.

(** What a read leaves alone besides the file system's blocks. *)
Record read_frame s s' : Prop := {
  rf_sb : sb s' = sb s;
  rf_itable : itable s' = itable s;
  rf_pid : curpid s' = curpid s;
  rf_cwd : cwd s' = cwd s;
  rf_out : out s' = out s
}.

#[export] Instance read_frame_preorder : PreOrder read_frame.
Proof. split; [by split|]. intros ??? [] []. split; congruence. Qed.

Lemma read_frame_rest s s' : same_rest s s' -> read_frame s s'.
Proof. intros []. by split. Qed.

Lemma read_frame_fs s s' : same_fs s s' -> read_frame s s'.
Proof. intros []. by split. Qed.

Lemma tx_same_fs bs hd c s s' : same_fs s s' -> tx bs hd c s -> tx bs hd c s'.
Proof. intros [Hl Hsb _ _ _ _] []. split; by rewrite ?Hl, ?Hsb. Qed.

Lemma either_copyout_wp user dst l L s :
  dst_ok user dst (Z.of_nat (length l)) s -> Forall is_byte l -> avail ulocks L ->
  wp (either_copyout user dst l) L s (fun r s' => same_fs s s' /\
    (r = 0 /\ delivered user dst l s s' \/
     r = -1 /\ user = true /\ exists k, (k < length l)%nat /\ delivered user dst (take k l) s s')).
Proof.
  intros Hd Hl HL. unfold either_copyout. destruct user; simpl in *.
  - destruct Hd as (Hu & H1 & H2). eapply wp_mono; [apply zoom_wp, ucopyout_spec; try done|].
    intros r s' (u & -> & Hu' & k & Hk & Hb & Hv & Hr). split; [by split|]. destruct Hr as [[-> ->]|(-> & Hlt & _)].
    + left. split; [done|]. rewrite take_ge in Hb by lia. by split_and!.
    + right. split; [done|]. split; [done|]. exists k. split; [done|]. split_and!; try done.
      intros a b Ha. rewrite length_take_le by lia. by apply Hv.
  - wsteps. rewrite decide_True by done. wsteps. split; [done|]. split; [by split|]. left. by split.
Qed.
End Copy.

(** * readi *)
Section Read.
Context {B U : Type} `{BufCache B} `{UserMemory U}.
Context (x : superblock) (HY : layout x) (L : list lock) (ip : nat).
Hypothesis HL : buf_free L.
Hypothesis HLL : log_lock ∉ L.
Implicit Types s : fss B U.

Lemma data_addr c al p : tree_ok x c al -> slot_ok p -> slot_addr c al p <> 0 ->
  0 <= slot_addr c al p < 2 ^ 31 /\ home (sb_logstart x) (slot_addr c al p).
Proof using HY.
  intros HT Hp Hn. destruct (to_addr _ _ _ HT p Hp Hn) as [D1 D2 D3 D4]. pose proof (ly_size x HY). split; [lia|done].
Qed.

Lemma addr_or_alloc_found i bs c al s : mapped x ip bs c al s -> nth i al 0 <> 0 ->
  wp (addr_or_alloc ip i) L s (fun r s' => r = nth i al 0 /\ s' = s).
Proof using.
  intros MP Hn. unfold addr_or_alloc, iof. wstep. wstep. wstep. rewrite (mp_addrs _ _ _ _ _ _ MP), (proj2 (Z.eqb_neq _ 0)) by done.
  wsteps. done.
Qed.

(** The entry of a node that is there. *)
Lemma entry_found p i bs c al s : mapped x ip bs c al s -> is_node p = true -> slot_ok p -> slot_addr c al (entry p i) <> 0 ->
  (length bs + 3 < NBUF)%nat -> slot_addr c al p <> 0 /\
  wp (word_or_alloc ROOTDEV (slot_addr c al p) i) L s (fun r s' =>
    r = slot_addr c al (entry p i) /\ mapped x ip bs c al s' /\ same_rest s s').
Proof using All.
  intros MP Hp Hok Hn Hsz. rewrite entry_addr in * by done. unfold child in *.
  destruct (Z.eqb_spec (slot_addr c al p) 0) as [E|E]; [done|]. split; [done|].
  destruct (data_addr c al p (mp_tree _ _ _ _ _ _ MP) Hok E) as [D1 D2].
  by apply (word_or_alloc_found x HY L ip HL HLL).
Qed.

(** A block that is there is found, and nothing is written. *)
Lemma bmap_found bn bs c al s :
  mapped x ip bs c al s -> 0 <= bn < MAXFILE -> file_block c al bn <> 0 -> (length bs + 3 < NBUF)%nat ->
  wp (bmap ip bn) L s (fun r s' => r = file_block c al bn /\ mapped x ip bs c al s' /\ same_rest s s').
Proof using All.
  intros MP Hbn Hn Hsz. destruct (bn_slot_ok bn Hbn) as [Hok _]. unfold file_block in *.
  unfold bmap, iof. wstep. wstep. wstep. rewrite (mp_dev _ _ _ _ _ _ MP). unfold bn_slot in *.
  destruct (Z.ltb_spec bn (Z.of_nat NDIRECT)) as [Hd|Hd].
  { eapply wpl_call; [by apply (addr_or_alloc_found _ bs c al s MP)|]. by intros r s' [-> ->]. }
  destruct (Z.ltb_spec (bn - Z.of_nat NDIRECT) (Z.of_nat NINDIRECT)) as [Hi|Hi].
  { destruct (entry_found SInd _ bs c al s MP eq_refl I Hn Hsz) as [Hp Hw]. wstep.
    eapply wpl_call; [by apply (addr_or_alloc_found NDIRECT bs c al s MP)|]. intros r s' [-> ->].
    change (nth NDIRECT al 0) with (slot_addr c al SInd). rewrite (proj2 (Z.eqb_neq _ 0)) by done.
    eapply wpl_call; [exact Hw|]. done. }
  set (n := bn - Z.of_nat NDIRECT - Z.of_nat NINDIRECT) in *. destruct Hok as [Hiok Hjok].
  rewrite (proj2 (Z.ltb_lt n NDINDIRECT)) by (unfold n, MAXFILE in *; lia).
  set (i := Z.to_nat (n / Z.of_nat NINDIRECT)) in *.
  destruct (entry_found (SDblEntry i) _ bs c al s MP eq_refl Hiok Hn Hsz) as [Hp _].
  destruct (entry_found SDbl _ bs c al s MP eq_refl I Hp Hsz) as [Hp' Hw']. wstep.
  eapply wpl_call; [by apply (addr_or_alloc_found (NDIRECT + 1) bs c al s MP)|]. intros r s' [-> ->].
  change (nth (NDIRECT + 1) al 0) with (slot_addr c al SDbl). rewrite (proj2 (Z.eqb_neq _ 0)) by done. wstep.
  eapply wpl_call; [exact Hw'|]. intros r s1 (-> & MP1 & R1). change (entry SDbl i) with (SDblEntry i).
  destruct (entry_found (SDblEntry i) _ bs c al s1 MP1 eq_refl Hiok Hn Hsz) as [_ Hw1].
  eapply wpl_call; [exact Hw1|]. intros r s2 (-> & MP2 & R2). split; [done|]. split; [done|]. split; [done|by etrans].
Qed.

Lemma mapped_frame bs c al s s' : mapped x ip bs c al s -> tx bs ∅ c s' -> read_frame s s' -> mapped x ip bs c al s'.
Proof using.
  intros [T Hsb Hip Hal Hdev HT HM] T' R. unfold inode_at in *.
  split; unfold inode_at; rewrite ?(rf_sb _ _ R), ?(rf_itable _ _ R); done.
Qed.

(** One piece of the file, of a block that is there. *)
Lemma readi_body_wp user n tot off dst bs c al s :
  mapped x ip bs c al s -> 0 <= tot -> 0 <= off -> tot < n -> n <= MAXFILE * BS -> off + (n - tot) <= MAXFILE * BS ->
  file_block c al (off / BS) <> 0 -> dst_ok user dst (n - tot) s -> dst + (n - tot) < 2 ^ 64 -> avail ulocks L -> (length bs + 3 < NBUF)%nat ->
  let m := Z.min (n - tot) (BS - off mod BS) in
  wp (readi_body ip user n (tot, off, dst)) L s (fun r s' =>
    mapped x ip bs c al s' /\ read_frame s s' /\
    (r = inl (tot + m, off + m, dst + m) /\ delivered user dst (file_bytes c al off m) s s' \/
     r = inr (2 ^ 32 - 1) /\ user = true /\ exists k, 0 <= k < m /\ delivered user dst (file_bytes c al off k) s s')).
Proof using All.
  intros MP Ht Ho Hlt Hn Hmax Hfb Hd Hdm HU Hsz m. assert (HBS : BS = 1024) by done. assert (HMF : MAXFILE = 65803) by done.
  pose proof (Z.mod_pos_bound off BS ltac:(lia)). assert (Hm : 0 < m) by (unfold m; lia).
  assert (Hbn : 0 <= off / BS < MAXFILE) by (rewrite HBS, HMF in *; zdiv).
  assert (HT := mp_tree _ _ _ _ _ _ MP). destruct (bn_slot_ok _ Hbn) as [Hok Hleaf].
  assert (Hl : length (file_bytes c al off m) = Z.to_nat m) by apply length_file_bytes.
  unfold readi_body. rewrite (proj2 (Z.ltb_lt tot n)) by done. fold BS. wstep. wstep.
  eapply wpl_call; [by apply (bmap_found _ bs c al s MP)|]. intros r s1 (-> & MP1 & R1).
  rewrite (proj2 (Z.eqb_neq (file_block _ _ _) 0)) by done. unfold iof. wstep. wstep. wstep. rewrite (mp_dev _ _ _ _ _ _ MP1).
  destruct (data_addr c al _ HT Hok Hfb) as [D1 D2]. eapply wpl_call.
  { apply (fbread_wp _ HL _ _ _ _ _ (mp_tx _ _ _ _ _ _ MP1)); [split; [exact D1|by rewrite (mp_sb _ _ _ _ _ _ MP1)]|rewrite map_img_empty_L; apply not_elem_of_empty|rewrite map_size_empty; lia]. }
  intros h s2 (R2 & _ & T2). rewrite insert_empty in T2. fold (file_block c al (off / BS)) in T2.
  assert (R12 : same_rest s s2) by by etrans.
  assert (Hh : ({[h := file_block c al (off / BS)]} : gmap nat Z) !! h = Some (file_block c al (off / BS))) by apply lookup_singleton_eq.
  wstep. eapply wpl_call; [by apply (fbdata_wp _ _ _ _ h (file_block c al (off / BS)) _ T2)|]. intros d s2' [-> ->].
  fold m. rewrite (file_bytes_block c al off m) by (apply HT || unfold m; lia). wstep. eapply wpl_call.
  { apply (either_copyout_wp user dst (file_bytes c al off m)); [|by apply file_bytes_ok, HT|done].
    apply (dst_rest user dst _ s s2 R12). rewrite Hl, Z2Nat.id by lia. unfold m.
    destruct user; simpl in *; [destruct Hd; split; [done|lia]|lia]. }
  intros r s3 [S3 Hr]. assert (T3 := tx_same_fs _ _ _ _ _ S3 T2).
  assert (Hfr : forall s4, same_rest s3 s4 -> tx bs (delete h {[h := file_block c al (off / BS)]}) c s4 ->
    mapped x ip bs c al s4 /\ read_frame s s4).
  { intros s4 R4 T4. rewrite delete_singleton_eq in T4. assert (F : read_frame s s4).
    { etrans; [by apply read_frame_rest|]. etrans; [by apply read_frame_fs|]. by apply read_frame_rest. }
    split; [by apply (mapped_frame bs c al s)|done]. }
  destruct Hr as [[-> Hdel]|(-> & -> & k & Hk & Hdel)].
  - change (0 =? -1) with false. cbv iota. wstep. eapply wpl_call; [by apply (fbrelse_wp _ HL _ _ _ h (file_block c al (off / BS)) _ T3)|].
    intros _ s4 [R4 T4]. wsteps. split; [done|]. destruct (Hfr s4 R4 T4) as [MP4 F4]. split; [done|]. split; [done|]. left.
    rewrite !u32_small, u64_small by (destruct user; simpl in Hd; lia). split; [done|]. by eapply delivered_rest.
  - rewrite Z.eqb_refl. wstep. eapply wpl_call; [by apply (fbrelse_wp _ HL _ _ _ h (file_block c al (off / BS)) _ T3)|].
    intros _ s4 [R4 T4]. wsteps. split; [done|]. destruct (Hfr s4 R4 T4) as [MP4 F4]. split; [done|]. split; [done|]. right.
    split; [done|]. split; [done|]. exists (Z.of_nat k). split; [lia|]. eapply delivered_rest; [done..|].
    replace (file_bytes c al off (Z.of_nat k)) with (take k (file_bytes c al off m)); [done|].
    replace m with (Z.of_nat k + (m - Z.of_nat k)) by lia. rewrite file_bytes_app by lia.
    apply take_app_length'. rewrite length_file_bytes. lia.
Qed.

(** Pieces put together. *)
Lemma delivered_piece user dst c al off tot m n s s1 s2 :
  dst_ok user dst n s -> 0 <= tot -> 0 <= m -> tot + m <= n ->
  delivered user dst (file_bytes c al off tot) s s1 ->
  delivered user (dst + tot) (file_bytes c al (off + tot) m) s1 s2 ->
  delivered user dst (file_bytes c al off (tot + m)) s s2.
Proof using.
  intros Hd Ht Hm Hle D1 D2. rewrite file_bytes_app by done. eapply delivered_app; [|exact D1|].
  - rewrite !length_file_bytes. destruct user; simpl in *; [destruct Hd as (? & ? & ?); split; [done|lia]|lia].
  - rewrite length_file_bytes, Z2Nat.id by done. done.
Qed.

Lemma dst_piece user dst c al off tot n s s1 :
  dst_ok user dst n s -> 0 <= tot <= n -> delivered user dst (file_bytes c al off tot) s s1 -> dst_ok user (dst + tot) (n - tot) s1.
Proof using.
  intros Hd Ht D. pose proof (delivered_dst user dst _ n s s1 Hd D) as Hs.
  rewrite length_file_bytes, Z2Nat.id in Hs by lia. apply Hs. lia.
Qed.

Lemma readi_loop_wp user n off dst bs c al s :
  mapped x ip bs c al s -> 0 <= off -> 0 <= n -> off + n <= MAXFILE * BS -> no_holes c al (off + n) ->
  dst_ok user dst n s -> dst + n < 2 ^ 64 -> avail ulocks L -> (length bs + 3 < NBUF)%nat ->
  wp (loop (S (Z.to_nat n)) (readi_body ip user n) (0, off, dst)) L s (fun r s' =>
    mapped x ip bs c al s' /\ read_frame s s' /\
    (r = n /\ delivered user dst (file_bytes c al off n) s s' \/
     r = 2 ^ 32 - 1 /\ user = true /\ exists k, 0 <= k < n /\ delivered user dst (file_bytes c al off k) s s')).
Proof using All.
  intros MP Ho Hn Hmax Hnh Hd Hdm HU Hsz. assert (HBS : BS = 1024) by done.
  apply (wpl_loop (fun y s1 => exists tot, y = (tot, off + tot, dst + tot) /\ 0 <= tot <= n /\ mapped x ip bs c al s1 /\
    read_frame s s1 /\ delivered user dst (file_bytes c al off tot) s s1) (fun y => Z.to_nat (n - y.1.1))); [| |simpl; lia].
  2: { exists 0. rewrite !Z.add_0_r. split; [done|]. split; [lia|]. split; [done|]. split; [done|].
       apply delivered_nil. intros ->. apply Hd. }
  intros y s1 (tot & -> & Ht & MP1 & F1 & D1). destruct (decide (tot < n)) as [Hlt|Hge]; last first.
  { unfold readi_body. rewrite (proj2 (Z.ltb_ge tot n)) by lia. wsteps. split; [done|]. split; [done|]. split; [done|].
    left. assert (tot = n) as -> by lia. done. }
  assert (Hfb : file_block c al ((off + tot) / BS) <> 0) by (apply Hnh; rewrite HBS; zdiv).
  assert (Hd1 := dst_piece user dst c al off tot n s s1 Hd Ht D1).
  eapply wpl_call; [apply (readi_body_wp user n tot (off + tot) (dst + tot) bs c al s1 MP1); lia || done|].
  intros r s2 (MP2 & F2 & Hr). pose proof (Z.mod_pos_bound (off + tot) BS ltac:(lia)) as Hmod.
  set (m := Z.min (n - tot) (BS - (off + tot) mod BS)) in *. assert (Hm : 0 < m <= n - tot) by (unfold m; lia).
  assert (F : read_frame s s2) by by etrans.
  destruct Hr as [[-> D2]|(-> & -> & k & Hk & D2)]; (split; [done|]).
  - split; [|simpl; lia]. exists (tot + m). split; [by rewrite !Z.add_assoc|]. split; [lia|]. split; [done|]. split; [done|].
    apply (delivered_piece user dst c al off tot m n s s1); lia || done.
  - split; [done|]. split; [done|]. right. split; [done|]. split; [done|]. exists (tot + k). split; [lia|].
    apply (delivered_piece true dst c al off tot k n s s1); try done; lia.
Qed.

(** The number of bytes readi delivers at most. *)
Definition readable (size off n : Z) : Z :=
  if (size <? off) || (2 ^ 32 <=? off + n) then 0 else Z.min n (size - off).

Lemma readi_wp user dst off n bs c al s :
  let size := i_size (inode_at ip s) in let m := readable size off n in
  mapped x ip bs c al s -> 0 <= size <= MAXFILE * BS -> no_holes c al size -> 0 <= off < 2 ^ 32 -> 0 <= n < 2 ^ 32 ->
  dst_ok user dst m s -> dst + m < 2 ^ 64 -> avail ulocks L -> (length bs + 3 < NBUF)%nat ->
  wp (readi ip user dst off n) L s (fun r s' => mapped x ip bs c al s' /\ read_frame s s' /\
    (r = m /\ delivered user dst (file_bytes c al off m) s s' \/
     r = -1 /\ user = true /\ exists k, 0 <= k < m /\ delivered user dst (file_bytes c al off k) s s')).
Proof using All.
  intros size m MP Hs Hnh Ho Hn Hd Hdm HU Hsz. assert (HM : MAXFILE * BS = 67382272) by done.
  assert (Hz : m = 0 -> mapped x ip bs c al s /\ read_frame s s /\ (0 = m /\ delivered user dst (file_bytes c al off m) s s)).
  { intros ->. split; [done|]. split; [done|]. split; [done|]. apply delivered_nil. intros ->. apply Hd. }
  unfold readi, iof. wstep. wstep. wstep. fold size. unfold m, readable in *.
  destruct (Z.ltb_spec size off) as [Hlt|Hle]; simpl in *; [wsteps; split; [done|]; destruct Hz as (? & ? & ?); by auto|].
  destruct (Z.leb_spec (2 ^ 32) (off + n)) as [Hov|Hno].
  - assert (E : u32 (off + n) <? off = true).
    { apply Z.ltb_lt. unfold u32. assert (off + n = (off + n - 2 ^ 32) + 1 * 2 ^ 32) as -> by lia.
      rewrite Z.mod_add, Z.mod_small by lia. lia. }
    rewrite E. wsteps. split; [done|]. destruct Hz as (? & ? & ?); by auto.
  - rewrite u32_small by lia. rewrite (proj2 (Z.ltb_ge (off + n) off)) by lia. wstep.
    assert (E : (if size <? off + n then size - off else n) = Z.min n (size - off)) by (destruct (Z.ltb_spec size (off + n)); lia).
    rewrite E. set (k := Z.min n (size - off)) in *. eapply wpl_call.
    { apply (readi_loop_wp user k off dst bs c al s); try done; try (unfold k in *; lia).
      intros b Hb Hlt. apply Hnh; [done|]. unfold k in *. lia. }
    intros r s' (MP' & F & Hr). wsteps. split; [done|]. split; [done|]. split; [done|].
    destruct Hr as [[-> D]|(-> & -> & D)]; [left|by right]. split; [|done]. apply s32_small. unfold k. lia.
Qed.

(** C14. readi: for a file without holes it stores at [dst], in kernel or user
    memory, exactly the bytes of the file from [off] on, up to the end of the
    file or [n] bytes, and returns their number; or, when user memory ends
    early, a prefix of them, returning -1. Nothing is written or logged. *)
Theorem readi_correct user dst off n bs c al s :
  let size := i_size (inode_at ip s) in let m := readable size off n in
  mapped x ip bs c al s -> 0 <= size <= MAXFILE * BS -> no_holes c al size -> 0 <= off < 2 ^ 32 -> 0 <= n < 2 ^ 32 ->
  dst_ok user dst m s -> dst + m < 2 ^ 64 -> avail ulocks L -> (length bs + 3 < NBUF)%nat ->
  wp (readi ip user dst off n) L s (fun r s' => mapped x ip bs c al s' /\ read_frame s s' /\
    (r = m /\ delivered user dst (file_bytes c al off m) s s' \/
     r = -1 /\ user = true /\ exists k, 0 <= k < m /\ delivered user dst (file_bytes c al off k) s s')).
Proof using All. exact (readi_wp user dst off n bs c al s). Qed.
End Read.
