(* ===== verification/FsWrite.v ===== *)
(** Writing files, writei of kernel/fs.c: what the file holds afterwards, what
    else of the disk is untouched, and how many blocks are logged. *)
From S2P Require Import Prelude UserIface Block Sleeplock CStrings Log LogCrash LogTxn Fs FsBlocks FsInode FsMap FsRead.
Local Open Scope Z_scope.

(** * Copying in *)
Section Copy.
Context {B U : Type} `{BufCache B} `{UserMemory U}.
Implicit Types s : fss B U.

(** The bytes [l] lie at [src]. *)
Definition src_ok (user : bool) (src : Z) (l : list Z) s : Prop :=
  Forall is_byte l /\ 0 <= src /\ src + Z.of_nat (length l) < 2 ^ 64 /\
  if user then uok (usr s) /\ bytes_at (uview (usr s)) src l
  else src + Z.of_nat (length l) <= Z.of_nat (length (kbuf s)) /\ take (length l) (drop (Z.to_nat src) (kbuf s)) = l.

(** Reading the source may only make more user memory readable. *)
Definition src_frame s s' : Prop :=
  kbuf s' = kbuf s /\ (uok (usr s) -> uok (usr s')) /\ forall a b, uview (usr s) a = Some b -> uview (usr s') a = Some b.

#[export] Instance src_frame_preorder : PreOrder src_frame.
Proof.
  split; [by split|]. intros s1 s2 s3 (K1 & U1 & V1) (K2 & U2 & V2). split; [congruence|]. split; auto.
Qed.

Lemma src_ok_frame user src l s s' : src_frame s s' -> src_ok user src l s -> src_ok user src l s'.
Proof.
  intros (K & HU & V) (Hl & H1 & H2 & Hs). split; [done|]. split; [done|]. split; [done|].
  destruct user; [|by rewrite K]. destruct Hs as [Hu Hb]. split; [by apply HU|by eapply bytes_at_mono].
Qed.

Lemma src_piece user src l k m s : src_ok user src l s -> (k + m <= length l)%nat ->
  src_ok user (src + Z.of_nat k) (take m (drop k l)) s.
Proof.
  intros (Hl & H1 & H2 & Hs) Hk. assert (Hlen : length (take m (drop k l)) = m) by (rewrite length_take, length_drop; lia).
  split; [by apply Forall_take, Forall_drop|]. split; [lia|]. split; [lia|]. destruct user.
  - destruct Hs as [Hu Hb]. split; [done|]. intros j b Hj. pose proof (lookup_lt_Some _ _ _ Hj) as Hlt. rewrite Hlen in Hlt.
    rewrite lookup_take_lt, lookup_drop in Hj by done. apply Hb in Hj. rewrite <- Hj. f_equal. lia.
  - destruct Hs as [H3 Hs]. rewrite Hlen. split; [lia|].
    pose proof (f_equal (fun y => take m (drop k y)) Hs) as E. simpl in E. rewrite <- E.
    rewrite Z2Nat.inj_add, Nat2Z.id by lia. rewrite <- drop_drop, skipn_firstn_comm, take_take. f_equal. lia.
Qed.

Lemma bytes_at_inj view va l l' : bytes_at view va l -> bytes_at view va l' -> length l = length l' -> l = l'.
Proof.
  intros Hb Hb' Hlen. apply list_eq. intros i. destruct (l !! i) as [b|] eqn:E.
  - pose proof (lookup_lt_Some _ _ _ E) as Hlt. destruct (lookup_lt_is_Some_2 l' i) as [b' E']; [lia|].
    rewrite E'. apply Hb in E. apply Hb' in E'. congruence.
  - apply lookup_ge_None in E. symmetry. apply lookup_ge_None. lia.
Qed.

Lemma either_copyin_wp user src l L s :
  src_ok user src l s -> avail ulocks L ->
  wp (either_copyin user src (Z.of_nat (length l))) L s (fun r s' => same_fs s s' /\ src_frame s s' /\ r = (0, l)).
Proof.
  intros (Hl & H1 & H2 & Hs) HL. unfold either_copyin. destruct user.
  - destruct Hs as [Hu Hb]. eapply wp_mono; [apply zoom_wp, ucopyin_spec; try done; lia|].
    intros [r1 r2] s' (u & -> & Hu' & Hv & Hr). simpl in *. split; [by split|]. split; [by split|].
    assert (Hb' : bytes_at (uview u) src l) by by eapply bytes_at_mono.
    destruct Hr as [(-> & Hlen & _ & Hr2)|(-> & i & Hi & Hn)].
    + f_equal. eapply bytes_at_inj; [exact Hr2|exact Hb'|lia].
    + destruct (lookup_lt_is_Some_2 l (Z.to_nat i)) as [b Hbi]; [lia|]. apply Hb' in Hbi.
      rewrite Z2Nat.id in Hbi by lia. congruence.
  - destruct Hs as [H3 Hs]. wsteps. rewrite decide_True by lia. wsteps. split; [done|]. split; [by split|]. split; [by split|].
    by rewrite Nat2Z.id, Hs.
Qed.
End Copy.

(** * The slots of consecutive blocks *)
Definition trails (b : Z) (k : nat) : list slot := seq 0 k ≫= fun i => trail (bn_slot (b + Z.of_nat i)).

Lemma elem_of_trails b k q : q ∈ trails b k <-> exists n, b <= n < b + Z.of_nat k /\ q ∈ trail (bn_slot n).
Proof.
  unfold trails. rewrite list_elem_of_bind. split.
  - intros (i & Hq & Hi%elem_of_seq). exists (b + Z.of_nat i). split; [lia|done].
  - intros (n & Hn & Hq). exists (Z.to_nat (n - b)). split; [|apply elem_of_seq; lia]. by replace (b + _) with n by lia.
Qed.

Lemma trails_ok b k : 0 <= b -> b + Z.of_nat k <= MAXFILE -> Forall slot_ok (trails b k).
Proof.
  intros Hb Hk. apply Forall_forall. intros q (n & Hn & Hq)%elem_of_trails. eapply trail_ok; [|done].
  apply bn_slot_ok. lia.
Qed.

(** The indirect blocks on the way to four consecutive blocks: at most three. *)
Definition nodes4 (b : Z) : list slot :=
  if decide (b + 3 < 267) then [SInd]
  else if decide (b < 267) then [SInd; SDbl; SDblEntry 0]
  else [SDbl; SDblEntry (Z.to_nat ((b - 267) / 256)); SDblEntry (Z.to_nat ((b - 264) / 256))].

Definition slots4 (b : Z) : list slot := [bn_slot b; bn_slot (b + 1); bn_slot (b + 2); bn_slot (b + 3)] ++ nodes4 b.

Lemma slots4_leaf b n : b <= n <= b + 3 -> bn_slot n ∈ slots4 b.
Proof.
  intros Hn. apply elem_of_app. left. assert (n = b \/ n = b + 1 \/ n = b + 2 \/ n = b + 3) as [->|[->|[->| ->]]] by lia;
    rewrite !elem_of_cons; auto.
Qed.

Lemma trails_slots4 b k : 0 <= b -> (k <= 4)%nat -> trails b k ⊆ slots4 b.
Proof.
  intros Hb Hk q (n & Hn & Hq)%elem_of_trails.
  assert (Hleaf := slots4_leaf b n ltac:(lia)). revert Hq Hleaf.
  unfold bn_slot at 1 2. change (Z.of_nat NDIRECT) with 11. change (Z.of_nat NINDIRECT) with 256.
  destruct (Z.ltb_spec n 11); [set_solver|]. destruct (Z.ltb_spec (n - 11) 256); simpl; intros Hq Hl;
    rewrite !elem_of_cons, elem_of_nil in Hq.
  - destruct Hq as [->|[->|[]]]; [|done]. apply elem_of_app. right. unfold nodes4.
    repeat case_decide; [apply list_elem_of_here|apply list_elem_of_here|lia].
  - destruct Hq as [->|[->|[->|[]]]]; [| |done]; apply elem_of_app; right; unfold nodes4; repeat case_decide; try lia;
      rewrite !elem_of_cons; [tauto|tauto| |].
    + right; right; left. f_equal. zdiv.
    + right. assert ((n - 11 - 256) / 256 = (b - 267) / 256 \/ (n - 11 - 256) / 256 = (b - 264) / 256) as [-> | ->] by zdiv; auto.
Qed.

Lemma length_slots4 b : (length (slots4 b) <= 7)%nat.
Proof. unfold slots4, nodes4. repeat case_decide; simpl; lia. Qed.

Lemma nth_splice o l d i : (o + length l <= length d)%nat ->
  nth i (splice o l d) 0 = if decide (o <= i < o + length l)%nat then nth (i - o) l 0 else nth i d 0.
Proof.
  intros Hl. unfold splice. assert (Ho : length (take o d) = o) by (rewrite length_take; lia). rewrite !nth_lookup. f_equal.
  destruct (decide (i < o)%nat) as [Hi|Hi].
  - rewrite decide_False by lia. rewrite lookup_app_l, lookup_take_lt by lia. done.
  - rewrite lookup_app_r, Ho by lia. case_decide as E; [by rewrite lookup_app_l by lia|].
    rewrite lookup_app_r, lookup_drop by lia. do 2 f_equal. lia.
Qed.

Lemma splice_ok o l d : block_ok d -> Forall is_byte l -> (o + length l <= BSIZE)%nat -> block_ok (splice o l d).
Proof.
  intros [Hd Hb] Hl Ho. split; [by rewrite length_splice by lia|]. unfold splice.
  repeat apply Forall_app_2; [by apply Forall_take|done|by apply Forall_drop].
Qed.

Lemma block_of p : 0 <= p < MAXFILE * BS -> 0 <= p / BS < MAXFILE.
Proof. intros Hp. change BS with 1024 in *. change MAXFILE with 65803 in *. zdiv. Qed.

Section Disk.
Context (x : superblock).
Hypothesis HY : layout x.

(** With one block of free map, four consecutive blocks log at most eight. *)
Lemma logs_bound b k bs c al bs' : 0 <= b -> (k <= 4)%nat -> sb_size x <= BPB -> NoDup bs' ->
  logs x (trails b k) bs c al bs' -> (length bs' <= length bs + 8)%nat.
Proof using HY.
  intros Hb Hk Hsz Hnd Hl. assert (Hsub : bs' ⊆ bs ++ BBLOCK 0 x :: (slot_addr c al <$> slots4 b)).
  { intros y Hy. destruct (Hl y Hy) as [?|[(a & Ha & ->)|(q & Hq & <- & _)]].
    - apply elem_of_app. by left.
    - apply elem_of_app. right. apply elem_of_cons. left. pose proof (ly_size x HY). assert (0 < BPB) by done.
      destruct (BBLOCK_eq x HY a Ha) as [-> _], (BBLOCK_eq x HY 0 ltac:(lia)) as [-> _]. by rewrite !Z.div_small by lia.
    - apply elem_of_app. right. apply elem_of_cons. right. apply list_elem_of_fmap. exists q. split; [done|].
      by apply (trails_slots4 b k). }
  pose proof (submseteq_length _ _ (NoDup_submseteq _ _ Hnd Hsub)) as Hlen.
  rewrite length_app, length_cons, length_fmap in Hlen. pose proof (length_slots4 b). lia.
Qed.

(** A block that holds no addresses and no bits of the free map. *)
Definition plain (c : Z -> block) (al : list Z) (a : Z) : Prop :=
  (forall b, 0 <= b < sb_size x -> BBLOCK b x <> a) /\
  forall q, slot_ok q -> is_node q = true -> slot_addr c al q <> 0 -> slot_addr c al q <> a.

Lemma child_upd c al a d p i : plain c al a -> slot_ok p -> is_node p = true ->
  child (upd c a d) (slot_addr c al p) i = child c (slot_addr c al p) i.
Proof using.
  intros [_ Hp] Hok Hn. unfold child. destruct (Z.eqb_spec (slot_addr c al p) 0) as [E|E]; [done|].
  rewrite upd_ne; [done|]. by apply Hp.
Qed.

Lemma slot_addr_upd c al a d q : plain c al a -> slot_ok q -> slot_addr (upd c a d) al q = slot_addr c al q.
Proof using.
  intros Hp Hq. destruct q as [j| |j| |j|j k]; try done; simpl in Hq.
  - by apply (child_upd c al a d SInd).
  - by apply (child_upd c al a d SDbl).
  - destruct Hq as [Hj Hk]. change (slot_addr ?f al (SDblLeaf j k)) with (child f (child f (slot_addr f al SDbl) j) k).
    change (slot_addr (upd c a d) al SDbl) with (slot_addr c al SDbl). rewrite (child_upd c al a d SDbl) by done.
    by apply (child_upd c al a d (SDblEntry j)).
Qed.

Lemma used_upd c al a d b : plain c al a -> 0 <= b < sb_size x -> used x (upd c a d) b = used x c b.
Proof using. intros [Hp _] Hb. unfold used. rewrite upd_ne; [done|]. by apply Hp. Qed.

Lemma data_block_upd c al a d y : plain c al a -> data_block x c y -> data_block x (upd c a d) y.
Proof using. intros Hp [D1 D2 D3 D4]. split; try done. by rewrite (used_upd c al) by (done || lia). Qed.

(** Storing into such a block keeps the file. *)
Lemma upd_tree_ok c al a d : tree_ok x c al -> plain c al a -> block_ok d -> tree_ok x (upd c a d) al.
Proof using.
  intros [T1 T2 T3 T4] Hp Hd. assert (Hs := fun q => slot_addr_upd c al a d q Hp). split; [done| | |].
  - intros y. unfold upd. by case_decide.
  - intros q Hq. rewrite Hs by done. intros Hn. apply (data_block_upd c al); [done|by apply T3].
  - intros q r Hq Hr. rewrite !Hs by done. by apply T4.
Qed.

Lemma upd_map_ok c al a d : map_ok x c -> plain c al a -> map_ok x (upd c a d).
Proof using HY.
  intros [M1 M2] Hp. pose proof (ly_size x HY). split; [|by rewrite (used_upd c al) by (done || lia)].
  intros b Hb. rewrite (used_upd c al) by done. by apply M1.
Qed.

(** Storing into a block of the file touches no other. *)
Lemma upd_extends c al a d : tree_ok x c al -> map_ok x c -> plain c al a -> block_ok d ->
  (exists q, slot_ok q /\ slot_addr c al q = a) -> extends x c al (upd c a d) al.
Proof using HY.
  intros HT HM Hp Hd (q0 & Hq0 & Ha). assert (Hs := fun q => slot_addr_upd c al a d q Hp). split.
  - by apply upd_tree_ok.
  - by eapply upd_map_ok.
  - intros q Hq _. by apply Hs.
  - intros q Hq Hne. by rewrite Hs in Hne.
  - intros b Hb. by rewrite (used_upd c al).
  - intros y Hy Hu Hb Hq. apply upd_ne. intros ->. by apply (Hq q0 Hq0).
Qed.

Lemma leaf_plain c al p : tree_ok x c al -> slot_ok p -> is_leaf p = true -> slot_addr c al p <> 0 -> plain c al (slot_addr c al p).
Proof using.
  intros HT Hp Hl Hn. split; [apply (to_addr _ _ _ HT p Hp Hn)|]. intros q Hq Hnode Hqn E.
  apply (to_inj _ _ _ HT) in E; try done. subst q. unfold is_node in Hnode. by rewrite Hl in Hnode.
Qed.

(** ** The file after [tot] of the [n] bytes [data] *)
Section Written.
Context (size off n : Z) (data : list Z) (c0 : Z -> block) (al0 : list Z).
Hypothesis Hsize : 0 <= off <= size.
Hypothesis Hmax : size <= MAXFILE * BS.
Hypothesis Hmaxn : off + n <= MAXFILE * BS.
Hypothesis Hlen : Z.of_nat (length data) = n.

Record written (tot : Z) (c : Z -> block) (al : list Z) : Prop := {
  w_ext : extends x c0 al0 c al;
  w_other : forall k, 0 <= k < MAXFILE -> k < off / BS \/ off + n <= k * BS -> file_block c al k = file_block c0 al0 k;
  w_holes : no_holes c al (Z.max size (off + tot));
  w_bytes : forall p, 0 <= p < Z.max size (off + tot) ->
    file_byte c al p = if decide (off <= p < off + tot) then nth (Z.to_nat (p - off)) data 0 else file_byte c0 al0 p
}.

Lemma written_0 : tree_ok x c0 al0 -> map_ok x c0 -> no_holes c0 al0 size -> written 0 c0 al0.
Proof using Hsize.
  intros HT HM Hnh. rewrite <- (Z.max_l size (off + 0)) in Hnh by lia. split; [by apply extends_refl|done|done|].
  intros p Hp. by rewrite decide_False by lia.
Qed.

(** bmap on the way: what was there is as it was. *)
Lemma written_grow tot c al c1 al1 : 0 <= tot < n -> written tot c al ->
  grows x (bn_slot ((off + tot) / BS)) c al c1 al1 -> written tot c1 al1.
Proof using Hsize Hmax Hmaxn.
  intros Ht [W1 W2 W3 W4] G. assert (HBS : BS = 1024) by done. split.
  - eapply extends_trans; [exact W1|]. apply (g_ext _ _ _ _ _ _ G).
  - intros k Hk Hout. rewrite <- W2 by done. destruct (bn_slot_ok k Hk). apply (g_addr _ _ _ _ _ _ G); try done.
    intros E. apply bn_slot_inj in E; [|lia|apply Z.div_pos; lia]. subst k. rewrite HBS in *. zdiv.
  - intros k Hk Hlt. destruct (bn_slot_ok k) as [Hok _]; [rewrite HBS in *; lia|]. unfold file_block.
    rewrite (e_keep _ _ _ _ _ (g_ext _ _ _ _ _ _ G)); [|done|]; by apply W3.
  - intros p Hp. rewrite <- W4 by done. assert (Hb : 0 <= p / BS < MAXFILE) by (apply block_of; lia).
    destruct (bn_slot_ok _ Hb) as [Hok Hl]. assert (Hn : file_block c al (p / BS) <> 0) by (apply W3; rewrite HBS; zdiv).
    unfold file_byte. assert (E : file_block c1 al1 (p / BS) = file_block c al (p / BS)) by by apply (e_keep _ _ _ _ _ (g_ext _ _ _ _ _ _ G)).
    rewrite E. f_equal. by apply (g_data _ _ _ _ _ _ G (bn_slot (p / BS))).
Qed.

(** The piece stored at one time. *)
Definition piece_len (tot : Z) : Z := Z.min (n - tot) (BS - (off + tot) mod BS).
Definition stored_piece (tot : Z) : list Z := take (Z.to_nat (piece_len tot)) (drop (Z.to_nat tot) data).

Lemma piece_range tot : 0 <= tot < n ->
  0 < piece_len tot <= n - tot /\ (off + tot) mod BS + piece_len tot <= BS /\ 0 <= (off + tot) mod BS.
Proof using Hlen. intros Ht. unfold piece_len. pose proof (Z.mod_pos_bound (off + tot) BS ltac:(done)). lia. Qed.

Lemma length_piece tot : 0 <= tot < n -> length (stored_piece tot) = Z.to_nat (piece_len tot).
Proof using Hlen.
  intros Ht. destruct (piece_range tot Ht) as (H1 & _ & _). unfold stored_piece. rewrite length_take, length_drop. lia.
Qed.

Lemma nth_piece tot k : 0 <= tot < n -> 0 <= k < piece_len tot ->
  nth (Z.to_nat k) (stored_piece tot) 0 = nth (Z.to_nat (tot + k)) data 0.
Proof using Hlen.
  intros Ht Hk. unfold stored_piece. rewrite !nth_lookup, lookup_take_lt, lookup_drop by lia. do 2 f_equal. lia.
Qed.

(** A byte is of the piece exactly when it is of its block and in its range. *)
Lemma piece_block tot p : 0 <= tot < n -> 0 <= p -> off + tot <= p < off + tot + piece_len tot ->
  p / BS = (off + tot) / BS.
Proof using All.
  intros Ht Hp Hr. destruct (piece_range tot Ht) as (H1 & H2 & H3). change BS with 1024 in *. zdiv.
Qed.

Lemma file_block_upd c al a d k : plain c al a -> 0 <= k < MAXFILE -> file_block (upd c a d) al k = file_block c al k.
Proof using. intros Hp Hk. apply slot_addr_upd; [done|]. by apply bn_slot_ok. Qed.

(** Bytes outside the piece are as before it. *)
Lemma written_byte_out tot c al p : 0 <= tot < n -> written tot c al -> 0 <= p < Z.max size (off + (tot + piece_len tot)) ->
  ~ (off + tot <= p < off + tot + piece_len tot) ->
  p < Z.max size (off + tot) /\
  file_byte c al p = if decide (off <= p < off + (tot + piece_len tot)) then nth (Z.to_nat (p - off)) data 0 else file_byte c0 al0 p.
Proof using Hsize Hlen.
  intros Ht W Hp Hout. destruct (piece_range tot Ht) as (P1 & _ & _). assert (Hlt : p < Z.max size (off + tot)) by lia.
  split; [done|]. rewrite (w_bytes _ _ _ W) by lia. repeat case_decide; lia || done.
Qed.

Lemma written_byte tot c al p : 0 <= tot < n -> written tot c al -> 0 <= p < Z.max size (off + (tot + piece_len tot)) ->
  let a := file_block c al ((off + tot) / BS) in a <> 0 ->
  nth (Z.to_nat (p mod BS)) (upd c a (splice (Z.to_nat ((off + tot) mod BS)) (stored_piece tot) (c a)) (file_block c al (p / BS))) 0 =
  if decide (off <= p < off + (tot + piece_len tot)) then nth (Z.to_nat (p - off)) data 0 else file_byte c0 al0 p.
Proof using All.
  intros Ht W Hp a Ha. assert (HBS : BS = 1024) by done. destruct (piece_range tot Ht) as (P1 & P2 & P3).
  assert (HT := e_tree _ _ _ _ _ (w_ext _ _ _ W)). assert (Hlp := length_piece tot Ht).
  assert (Hca : length (c a) = BSIZE) by apply HT. pose proof (Z.mod_pos_bound p BS ltac:(lia)) as Hpm.
  destruct (decide (p / BS = (off + tot) / BS)) as [E|E].
  - assert (Hsub : p mod BS - (off + tot) mod BS = p - (off + tot)) by (rewrite !Z.mod_eq, E by lia; lia).
    rewrite E. fold a. rewrite upd_eq, nth_splice by (rewrite Hca, Hlp; unfold BS, BSIZE in *; lia). rewrite Hlp.
    destruct (decide (off + tot <= p < off + tot + piece_len tot)) as [Hin|Hout].
    + rewrite decide_True by lia. rewrite decide_True by lia.
      replace (Z.to_nat (p mod BS) - Z.to_nat ((off + tot) mod BS))%nat with (Z.to_nat (p - (off + tot))) by lia.
      rewrite nth_piece by lia. f_equal. lia.
    + rewrite decide_False by lia. destruct (written_byte_out tot c al p Ht W Hp Hout) as [_ <-]. unfold file_byte. by rewrite E.
  - assert (Hout : ~ (off + tot <= p < off + tot + piece_len tot)) by (intros Hin; apply E; apply (piece_block tot); lia).
    destruct (written_byte_out tot c al p Ht W Hp Hout) as [Hlt <-]. unfold file_byte. f_equal. apply upd_ne. intros Eq.
    assert (Hpb : 0 <= p / BS < MAXFILE) by (apply block_of; lia). assert (Hb : 0 <= (off + tot) / BS < MAXFILE) by (apply block_of; lia).
    destruct (bn_slot_ok _ Hpb) as [Hok1 _], (bn_slot_ok _ Hb) as [Hok2 _]. apply E. apply bn_slot_inj; [lia|lia|].
    apply (to_inj _ _ _ HT); try done. unfold a, file_block in *. congruence.
Qed.

Lemma written_store tot c al : 0 <= tot < n -> written tot c al ->
  let a := file_block c al ((off + tot) / BS) in a <> 0 -> Forall is_byte data ->
  written (tot + piece_len tot)
    (upd c a (splice (Z.to_nat ((off + tot) mod BS)) (stored_piece tot) (c a))) al.
Proof using All.
  intros Ht W a Ha Hby. destruct (W) as [W1 W2 W3 W4]. assert (HBS : BS = 1024) by done. assert (HT := e_tree _ _ _ _ _ W1).
  destruct (piece_range tot Ht) as (P1 & P2 & P3). assert (Hlp := length_piece tot Ht).
  assert (Hbn : 0 <= (off + tot) / BS < MAXFILE) by (apply block_of; lia). destruct (bn_slot_ok _ Hbn) as [Hok Hleaf].
  assert (Hp : plain c al a) by by apply leaf_plain.
  assert (Hd : (Z.to_nat ((off + tot) mod BS) + length (stored_piece tot) <= BSIZE)%nat) by (rewrite Hlp; unfold BS, BSIZE in *; lia).
  assert (Hca : length (c a) = BSIZE) by apply HT. split.
  - eapply extends_trans; [exact W1|]. apply upd_extends; [done|apply W1|done| |by exists (bn_slot ((off + tot) / BS))].
    apply splice_ok; [apply HT|by apply Forall_take, Forall_drop|done].
  - intros k Hk Hout. rewrite file_block_upd by done. by apply W2.
  - intros k Hk Hlt. rewrite file_block_upd by (done || rewrite HBS in *; lia).
    destruct (decide (k * BS < Z.max size (off + tot))) as [Hin|Hin]; [by apply W3|].
    replace k with ((off + tot) / BS); [done|]. rewrite HBS in *. zdiv.
  - intros p Hpr. unfold file_byte at 1. rewrite file_block_upd by (done || apply block_of; lia).
    by apply written_byte.
Qed.
End Written.
End Disk.

(** * writei *)
Section Write.
Context {B U : Type} `{BufCache B} `{UserMemory U}.
Context (x : superblock) (HY : layout x) (L : list lock) (ip : nat).
Hypothesis HL : buf_free L.
Hypothesis HLL : log_lock ∉ L.
Hypothesis HU : avail ulocks L.
Implicit Types s : fss B U.

(** What the loop may change besides blocks: the addresses of the inode, the
    pages of the process that reading them made present, the console. *)
Record wframe s s' : Prop := {
  wf_sb : sb s' = sb s;
  wf_itable : exists al, itable s' = alter (set_addrs al) ip (itable s);
  wf_pid : curpid s' = curpid s;
  wf_cwd : cwd s' = cwd s;
  wf_src : src_frame s s'
}.

Lemma wframe_trans s1 s2 s3 : wframe s1 s2 -> wframe s2 s3 -> wframe s1 s3.
Proof using.
  intros [S1 [a1 I1] P1 C1 F1] [S2 [a2 I2] P2 C2 F2]. split; try congruence; [|by etrans].
  exists a2. by rewrite I2, I1, set_addrs_twice.
Qed.

Lemma wframe_bmap s s' : bmap_frame ip s s' -> wframe s s'.
Proof using. intros [F1 F2 F3 F4 F5 F6]. split; try done. split; [done|]. by rewrite F4. Qed.

Lemma wframe_rest s s' : same_rest s s' -> wframe s s'.
Proof using. intros R. by apply wframe_bmap, bmap_frame_rest. Qed.

Lemma wframe_src s s' : same_fs s s' -> src_frame s s' -> wframe s s'.
Proof using.
  intros [F1 F2 F3 F4 F5 F6] Hs. split; try done. exists (i_addrs (inode_at ip s)). rewrite F3. apply alter_set_addrs_id.
Qed.

Section Loop.
Context (user : bool) (src off n size : Z) (data : list Z) (bs0 : list Z) (c0 : Z -> block) (al0 : list Z) (s0 : fss B U).
Hypothesis Hsize : 0 <= off <= size.
Hypothesis Hmax : size <= MAXFILE * BS.
Hypothesis Hmaxn : off + n <= MAXFILE * BS.
Hypothesis Hlen : Z.of_nat (length data) = n.
Hypothesis Hn : n <= 3 * BS.
Hypothesis Hmap : sb_size x <= BPB.
Hypothesis Hbs : (length bs0 + 16 < NBUF)%nat.
Hypothesis Hsrc : src_ok user src data s0.
Hypothesis Hhome : home (sb_logstart x) 0.

(** The number of blocks the write touches. *)
Definition touched : nat := Z.to_nat ((off + n - 1) / BS - off / BS + 1).

Lemma touched_range : (touched <= 4)%nat /\ off / BS + Z.of_nat touched <= MAXFILE /\ 0 <= off / BS.
Proof using All.
  unfold touched. clear Hmap Hbs Hsrc Hhome. change BS with 1024 in *. change MAXFILE with 65803 in *. zdiv.
Qed.

(** After [tot] bytes. *)
Record wstate (tot : Z) (bs : list Z) (c : Z -> block) (al : list Z) s : Prop := {
  ws_mapped : mapped x ip bs c al s;
  ws_frame : wframe s0 s;
  ws_written : written x size off n data c0 al0 tot c al;
  ws_logs : logs x (trails (off / BS) touched) bs0 c al bs;
  ws_boot : c 0 = zero_block
}.

Lemma wstate_len tot bs c al s : wstate tot bs c al s -> (length bs <= length bs0 + 8)%nat.
Proof using All.
  intros [M _ _ Lg _]. destruct touched_range as (H1 & _ & H2). eapply (logs_bound x HY); try done.
  apply (li_nodup _ _ _ (tx_inv _ _ _ _ (mp_tx _ _ _ _ _ _ M))).
Qed.

Lemma touched_trail tot : 0 <= tot < n -> trail (bn_slot ((off + tot) / BS)) ⊆ trails (off / BS) touched.
Proof using All.
  intros Ht q Hq. apply elem_of_trails. exists ((off + tot) / BS). split; [|done]. unfold touched.
  clear Hmap Hbs Hsrc Hhome. change BS with 1024 in *. zdiv.
Qed.

(** After bmap. *)
Lemma wstate_bmap tot bs c al s r s1 : 0 <= tot < n -> wstate tot bs c al s ->
  let p := bn_slot ((off + tot) / BS) in got_slot x ip p p 8 bs c al s r s1 ->
  exists bs1 c1 al1, wstate tot bs1 c1 al1 s1 /\ slot_addr c1 al1 p = r /\ (r = 0 -> full x c1).
Proof using All.
  intros Ht [M F W Lg Hb] p (bs1 & c1 & al1 & M1 & G & F1 & _ & Lg1 & Hr & _ & Hf). exists bs1, c1, al1.
  split; [|by split]. destruct touched_range as (_ & T2 & T3). split.
  - done.
  - eapply wframe_trans; [done|]. by apply wframe_bmap.
  - by eapply written_grow.
  - eapply (logs_trans x (trails (off / BS) touched)); [by apply trails_ok|apply (g_ext _ _ _ _ _ _ G)|done|done|].
    eapply logs_mono; [by apply touched_trail|done].
  - by rewrite (g_boot _ _ _ _ _ _ G).
Qed.

(** After the piece was stored. *)
Lemma wstate_store tot bs c al s s' : 0 <= tot < n -> wstate tot bs c al s ->
  let a := file_block c al ((off + tot) / BS) in a <> 0 -> wframe s s' ->
  let c' := upd c a (splice (Z.to_nat ((off + tot) mod BS)) (stored_piece off n data tot) (c a)) in
  tx (logged bs a) ∅ c' s' -> itable s' = itable s -> wstate (tot + piece_len off n tot) (logged bs a) c' al s'.
Proof using All.
  intros Ht [M F W Lg Hb] a Ha F' c' T' Hit. destruct touched_range as (_ & T2 & T3).
  assert (Hbn : 0 <= (off + tot) / BS < MAXFILE) by (apply block_of; lia). destruct (bn_slot_ok _ Hbn) as [Hok Hleaf].
  assert (HT := mp_tree _ _ _ _ _ _ M).
  assert (W' := written_store x HY size off n data c0 al0 Hsize Hmax Hmaxn Hlen tot c al Ht W Ha (proj1 Hsrc)). fold a c' in W'.
  assert (Hs : forall q, slot_ok q -> slot_addr c' al q = slot_addr c al q).
  { intros q Hq. apply (slot_addr_upd x); [by apply leaf_plain|done]. }
  split.
  - destruct M as [_ M2 M3 M4 M5 _ _]. unfold inode_at in *.
    split; try apply (w_ext _ _ _ _ _ _ _ _ _ _ W'); unfold inode_at; rewrite ?Hit; try done. by rewrite (wf_sb _ _ F').
  - by eapply wframe_trans.
  - done.
  - apply logs_put.
    + intros b Hb'. destruct (Lg b Hb') as [?|[?|(q & Hq & Hsq)]]; [by left|by right; left|]. right; right. exists q.
      split; [done|]. rewrite Hs; [done|]. by eapply Forall_forall in Hq; [|by apply trails_ok].
    + exists (bn_slot ((off + tot) / BS)). split; [by apply (touched_trail tot), trail_self|]. split; [|done]. by apply Hs.
  - unfold c'. by rewrite upd_ne.
Qed.

(** One piece, in a block that is there. *)
Lemma store_piece_wp tot bs c al s : 0 <= tot < n -> wstate tot bs c al s ->
  let a := file_block c al ((off + tot) / BS) in let m := piece_len off n tot in a <> 0 ->
  wp (bp ← fbread ROOTDEV a;
      r ← either_copyin user (src + tot) m;
      d ← fbdata bp;
      fbstore bp (splice (Z.to_nat ((off + tot) mod BS)) r.2 d);;
      if r.1 =? -1 then fbrelse bp;; mret (inr (tot, off + tot))
      else flog_write bp;; fbrelse bp;; mret (inl (u32 (tot + m), u32 (off + tot + m), u64 (src + tot + m)))) L s
    (fun r s' => exists bs' c', r = inl (tot + m, off + (tot + m), src + (tot + m)) /\ wstate (tot + m) bs' c' al s').
Proof using All.
  intros Ht W a m Ha. assert (Hl := wstate_len _ _ _ _ _ W). assert (M := ws_mapped _ _ _ _ _ W). assert (HT := mp_tree _ _ _ _ _ _ M).
  change (MAXFILE * BS) with 67382272 in *. assert (HBS : BS = 1024) by done.
  assert (Hbn : 0 <= (off + tot) / BS < MAXFILE) by (apply block_of; change (MAXFILE * BS) with 67382272; lia).
  destruct (data_addr x HY c al _ HT (proj1 (bn_slot_ok _ Hbn)) Ha) as [D1 D2]. fold (file_block c al ((off + tot) / BS)) a in D1, D2.
  wstep. wstep. eapply wpl_call.
  { apply (fbread_wp _ HL _ _ _ _ _ (mp_tx _ _ _ _ _ _ M)); [split; [exact D1|by rewrite (mp_sb _ _ _ _ _ _ M)]|rewrite map_img_empty_L; apply not_elem_of_empty|rewrite map_size_empty; lia]. }
  intros h s2 (R2 & _ & T2). rewrite insert_empty in T2.
  assert (Hh : ({[h := a]} : gmap nat Z) !! h = Some a) by apply lookup_singleton_eq.
  destruct (piece_range off n data Hlen tot Ht) as (P1 & P2 & P3). assert (Hlp := length_piece off n data Hlen tot Ht).
  assert (Hm : m = Z.of_nat (length (stored_piece off n data tot))) by (unfold m; lia). wstep. eapply wpl_call.
  { rewrite Hm. apply (either_copyin_wp user (src + tot)); [|done]. replace tot with (Z.of_nat (Z.to_nat tot)) at 1 by lia.
    apply src_piece; [|lia]. eapply src_ok_frame; [|exact Hsrc]. etrans; [apply (wf_src _ _ (ws_frame _ _ _ _ _ W))|].
    apply (wf_src _ _ (wframe_rest _ _ R2)). }
  intros r s3 (S3 & F3 & ->). assert (T3 := tx_same_fs _ _ _ _ _ S3 T2). wstep.
  eapply wpl_call; [by apply (fbdata_wp _ _ _ _ h a _ T3)|]. intros d s3' [-> ->].
  change ((0, stored_piece off n data tot).1 =? -1) with false. cbv iota.
  change ((0, stored_piece off n data tot).2) with (stored_piece off n data tot).
  apply (fstore_log_wpl _ HL HLL _ _ _ h a _ _ _ _ T3 Hh); [|unfold LOGBLOCKS, NBUF in *; lia|].
  { apply splice_ok; [apply HT|apply Forall_take, Forall_drop, Hsrc|rewrite Hlp; unfold BS, BSIZE in *; lia]. }
  intros s4 R4 T4. wstep. eapply wpl_call; [by apply (fbrelse_wp _ HL _ _ _ h a _ T4)|].
  intros _ s5 [R5 T5]. rewrite delete_singleton_eq in T5. wsteps. split; [done|].
  eexists _, _. destruct Hsrc as (_ & Hs1 & Hs2 & _). rewrite !u32_small, u64_small by (unfold m; lia). rewrite !Z.add_assoc. split; [done|].
  apply (wstate_store tot bs c al s); try done.
  - eapply wframe_trans; [by apply wframe_rest|]. eapply wframe_trans; [by apply wframe_src|]. apply wframe_rest. by etrans.
  - by rewrite (sr_itable _ _ R5), (sr_itable _ _ R4), (sf_itable _ _ S3), (sr_itable _ _ R2).
Qed.

Lemma writei_body_wp tot bs c al s : 0 <= tot < n -> wstate tot bs c al s ->
  wp (writei_body ip user n (tot, off + tot, src + tot)) L s (fun r s' => exists bs' c' al',
    r = inr (tot, off + tot) /\ wstate tot bs' c' al' s' /\ full x c' \/
    exists m, 0 < m <= n - tot /\ r = inl (tot + m, off + (tot + m), src + (tot + m)) /\ wstate (tot + m) bs' c' al' s').
Proof using All.
  intros Ht W. assert (HBS : BS = 1024) by done. assert (Hl := wstate_len tot bs c al s W).
  assert (Hbn : 0 <= (off + tot) / BS < MAXFILE) by (apply block_of; lia).
  unfold writei_body. rewrite (proj2 (Z.ltb_lt tot n)) by lia. fold BS. wstep. wstep.
  eapply wpl_call; [by apply (bmap_wp x HY L ip HL HLL _ bs c al s); [apply W|done|apply W|done|lia]|].
  intros r s1 Hg. apply (wstate_bmap tot) in Hg as (bs1 & c1 & al1 & W1 & Hr & Hf); [|done|done].
  destruct (Z.eqb_spec r 0) as [Hz|Hnz]; [wsteps; split; [done|]; exists bs1, c1, al1; left; split; [done|]; split; [done|by apply Hf]|].
  change (file_block c1 al1 ((off + tot) / BS) = r) in Hr. subst r.
  unfold iof. wstep. wstep. rewrite (mp_dev _ _ _ _ _ _ (ws_mapped _ _ _ _ _ W1)). fold (piece_len off n tot).
  eapply wpl_call; [by apply (store_piece_wp tot bs1 c1 al1 s1)|]. intros r s2 (bs2 & c2 & -> & W2). split; [done|].
  exists bs2, c2, al1. right. exists (piece_len off n tot). split; [|by split]. apply (piece_range off n data Hlen tot Ht).
Qed.

Lemma writei_loop_wp : wstate 0 bs0 c0 al0 s0 -> 0 <= n ->
  wp (loop (S (Z.to_nat n)) (writei_body ip user n) (0, off, src)) L s0 (fun r s' => exists tot bs c al,
    r = (tot, off + tot) /\ 0 <= tot <= n /\ wstate tot bs c al s' /\ (tot < n -> full x c)).
Proof using All.
  intros W0 Hn0. apply (wpl_loop (fun y s => exists tot bs c al, y = (tot, off + tot, src + tot) /\ 0 <= tot <= n /\
    wstate tot bs c al s) (fun y => Z.to_nat (n - y.1.1))); [| |simpl; lia].
  2: { exists 0, bs0, c0, al0. rewrite !Z.add_0_r. split; [done|]. split; [lia|done]. }
  intros y s (tot & bs & c & al & -> & Ht & W). destruct (decide (tot < n)) as [Hlt|Hge]; last first.
  { unfold writei_body. rewrite (proj2 (Z.ltb_ge tot n)) by lia. wsteps. split; [done|]. exists tot, bs, c, al.
    split; [done|]. split; [lia|]. split; [done|lia]. }
  eapply wpl_call; [apply (writei_body_wp tot bs c al s); [lia|done]|].
  intros r s' (bs' & c' & al' & [(-> & W' & Hf)|(m & Hm & -> & W')]); (split; [done|]).
  - exists tot, bs', c', al'. split; [done|]. split; [lia|]. by split.
  - split; [|simpl; lia]. exists (tot + m), bs', c', al'. split; [done|]. split; [lia|done].
Qed.
End Loop.

(** The block of an inode: in use, and not part of the free map or of the file. *)
Record ino_block (c : Z -> block) (al : list Z) (b : Z) : Prop := {
  ib_range : 0 <= b < sb_size x;
  ib_used : used x c b = true;
  ib_home : home (sb_logstart x) b;
  ib_map : forall b', 0 <= b' < sb_size x -> BBLOCK b' x <> b;
  ib_slot : forall q, slot_ok q -> slot_addr c al q <> b
}.

Lemma ino_block_extends c al c' al' b : extends x c al c' al' -> ino_block c al b -> ino_block c' al' b.
Proof using.
  intros E [I1 I2 I3 I4 I5]. split; try done; [by apply (e_used _ _ _ _ _ E)|]. intros q Hq Eq.
  destruct (decide (slot_addr c' al' q = slot_addr c al q)) as [E1|E1]; [apply (I5 q Hq); congruence|].
  apply (e_fresh _ _ _ _ _ E) in E1; [|done]. congruence.
Qed.

Lemma ino_block_plain c al b : ino_block c al b -> plain x c al b.
Proof using. intros [I1 I2 I3 I4 I5]. split; [done|]. intros q Hq _ _. by apply I5. Qed.

(** Storing there changes no byte of the file. *)
Lemma file_byte_ino c al b d p : ino_block c al b -> 0 <= p < MAXFILE * BS -> file_byte (upd c b d) al p = file_byte c al p.
Proof using.
  intros I Hp. assert (Hb := block_of p Hp). unfold file_byte. rewrite (file_block_upd x); [|by apply ino_block_plain|done].
  rewrite upd_ne; [done|]. apply (ib_slot _ _ _ I). by apply bn_slot_ok.
Qed.

Lemma inode_at_addrs al s s' : (ip < length (itable s))%nat -> itable s' = alter (set_addrs al) ip (itable s) ->
  inode_at ip s' = set_addrs al (inode_at ip s).
Proof using.
  intros Hip E. unfold inode_at. rewrite E, !nth_lookup, list_lookup_alter_eq.
  by destruct (lookup_lt_is_Some_2 _ _ Hip) as [i ->].
Qed.

(** The addresses of a well-formed file fit a dinode. *)
Lemma tree_addrs c al : tree_ok x c al -> Forall (fun a => 0 <= a < 2 ^ 32) al.
Proof using HY.
  intros HT. apply Forall_lookup. intros i a Ha. pose proof (lookup_lt_Some _ _ _ Ha) as Hi. rewrite (to_len _ _ _ HT) in Hi.
  destruct (decide (a = 0)) as [->|Hne]; [done|]. pose proof (ly_size x HY).
  assert (Hs : slot_ok (top_slot i) /\ slot_addr c al (top_slot i) = a).
  { unfold top_slot, NADDRS, NDIRECT in *. repeat case_decide; simpl; rewrite nth_lookup; unfold NDIRECT; split; try done;
      [by rewrite Ha|by subst i; rewrite Ha|]. assert (i = 12)%nat as -> by lia. by rewrite Ha. }
  destruct Hs as [Hs <-]. pose proof (db_range _ _ _ (to_addr _ _ _ HT _ Hs Hne)). lia.
Qed.

(** ** The end of writei: the size and the dinode *)
Definition resized (size : Z) (al : list Z) (i : inode) : inode := with_size size (set_addrs al i).

Lemma resized_id al i : set_addrs al i = resized (i_size i) al i.
Proof using. by destruct i. Qed.

Lemma set_itable_id s : set_itable (itable s) s = s.
Proof using. by destruct s. Qed.

(** The size grows when the write went past it. *)
Lemma set_size_wp sz e al s0 s : (ip < length (itable s0))%nat -> itable s = alter (set_addrs al) ip (itable s0) ->
  i_size (inode_at ip s0) = sz ->
  wp (if sz <? e then iset ip (with_size e) else mret tt) L s (fun _ s' =>
    s' = set_itable (alter (resized (Z.max sz e) al) ip (itable s0)) s).
Proof using.
  intros Hip Hit Hsz. destruct (Z.ltb_spec sz e) as [Hlt|Hge].
  - unfold iset. wsteps. split; [done|]. unfold on_inode. rewrite Hit, Z.max_r by lia. f_equal.
    apply list_eq. intros j. destruct (decide (j = ip)) as [->|Hne]; [|by rewrite !list_lookup_alter_ne].
    rewrite !list_lookup_alter_eq. by destruct (itable s0 !! ip).
  - wsteps. split; [done|]. rewrite <- (set_itable_id s) at 1. rewrite Hit, Z.max_l by lia. f_equal.
    apply list_eq. intros j. destruct (decide (j = ip)) as [->|Hne]; [|by rewrite !list_lookup_alter_ne].
    rewrite !list_lookup_alter_eq. unfold inode_at in Hsz. rewrite nth_lookup in Hsz.
    destruct (itable s0 !! ip) as [i|] eqn:E; [|done]. simpl in *. subst sz. by rewrite resized_id.
Qed.

(** What writei has done when it returns [r]. *)
Record wrote_file (off n : Z) (data bs : list Z) (c : Z -> block) (al : list Z) s (r : Z)
    (bs' : list Z) (c' : Z -> block) (al' : list Z) s' : Prop := {
  wd_mapped : mapped x ip bs' c' al' s';
  wd_logged : (length bs' <= length bs + 9)%nat;
  wd_inode : itable s' = alter (resized (Z.max (i_size (inode_at ip s)) (off + r)) al') ip (itable s);
  wd_dinode : get_dinode (dinode_off (i_inum (inode_at ip s))) (c' (IBLOCK (i_inum (inode_at ip s)) x)) = dinode_of (inode_at ip s');
  wd_holes : no_holes c' al' (Z.max (i_size (inode_at ip s)) (off + r));
  wd_bytes : forall p, 0 <= p < Z.max (i_size (inode_at ip s)) (off + r) ->
    file_byte c' al' p = if decide (off <= p < off + r) then nth (Z.to_nat (p - off)) data 0 else file_byte c al p;
  wd_frame : forall y, 0 <= y < sb_size x -> used x c y = true -> (forall b, 0 <= b < sb_size x -> BBLOCK b x <> y) ->
    (forall q, slot_ok q -> slot_addr c al q <> y) -> y <> IBLOCK (i_inum (inode_at ip s)) x -> c' y = c y;
  wd_full : r < n -> full x c';
  wd_src : src_frame s s'
}.

(** The dinode written back keeps what the loop did. *)
Lemma wrote_file_iupdate off n data bs c al s r bs1 c1 al1 s1 s' :
  let i := inode_at ip s in let b0 := IBLOCK (i_inum i) x in let sz := Z.max (i_size i) (off + r) in
  let T := alter (resized sz al1) ip (itable s) in
  0 <= off <= i_size i -> 0 <= r <= n -> i_size i <= MAXFILE * BS -> off + n <= MAXFILE * BS -> Z.of_nat (length data) = n ->
  dinode_ok (dinode_of i) -> i_dev i = ROOTDEV -> (ip < length (itable s))%nat -> sb s = x -> ino_block c al b0 ->
  wstate off n (i_size i) data bs c al s r bs1 c1 al1 s1 -> (length bs1 <= length bs + 8)%nat -> (r < n -> full x c1) ->
  same_rest (set_itable T s1) s' -> tx (logged bs1 b0) ∅ (put_inode x (resized sz al1 i) c1) s' ->
  wrote_file off n data bs c al s r (logged bs1 b0) (put_inode x (resized sz al1 i) c1) al1 s'.
Proof using HY.
  intros i b0 sz T Hoff Hr Hmax Hmaxn Hlen Hdi Hdev Hip Hsb Hib [M F W Lg Hb] Hl1 Hfull R T'.
  pose proof (w_ext _ _ _ _ _ _ _ _ _ _ W) as E. assert (I1 := ino_block_extends _ _ _ _ _ E Hib). assert (P1 := ino_block_plain _ _ _ I1).
  assert (HT := e_tree _ _ _ _ _ E). change (MAXFILE * BS) with 67382272 in *. pose proof (ly_size x HY) as Hls.
  assert (Hi' : inode_at ip s' = resized sz al1 i).
  { unfold inode_at. rewrite (sr_itable _ _ R). simpl. unfold T. rewrite nth_lookup, list_lookup_alter_eq.
    unfold i, inode_at. rewrite nth_lookup. by destruct (lookup_lt_is_Some_2 _ _ Hip) as [i0 ->]. }
  assert (Hdi' : dinode_ok (dinode_of (resized sz al1 i))).
  { destruct Hdi as [D1 D2 D3 D4 D5 D6 D7]. split; try done; simpl; [unfold sz; lia|apply HT|by eapply tree_addrs]. }
  set (d := put_dinode (dinode_off (i_inum i)) (dinode_of (resized sz al1 i)) (c1 b0)).
  change (put_inode x (resized sz al1 i) c1) with (upd c1 b0 d) in *.
  assert (Hdok : block_ok d) by (apply put_dinode_ok; [apply HT|apply Hdi'|apply dinode_off_range]).
  split.
  - split; [done|by rewrite (sr_sb _ _ R); simpl; rewrite (wf_sb _ _ F)|rewrite (sr_itable _ _ R); simpl; unfold T; by rewrite length_alter| | | |].
    + by rewrite Hi'.
    + by rewrite Hi'.
    + by apply upd_tree_ok.
    + eapply upd_map_ok; [done| |exact P1]. apply E.
  - pose proof (logged_length bs1 b0). lia.
  - by rewrite (sr_itable _ _ R).
  - fold i b0. rewrite Hi', upd_eq. apply get_put_dinode; [done|]. pose proof (dinode_off_range (i_inum i)). by rewrite (proj1 (to_block _ _ _ HT b0)).
  - intros k Hk Hlt. fold i sz in Hlt. rewrite (file_block_upd x) by (done || change BS with 1024 in *; change MAXFILE with 65803; unfold sz in *; lia).
    by apply (w_holes _ _ _ _ _ _ _ _ _ _ W).
  - intros p Hp. fold i sz in Hp. rewrite file_byte_ino by (done || change (MAXFILE * BS) with 67382272; unfold sz in *; lia).
    by apply (w_bytes _ _ _ _ _ _ _ _ _ _ W).
  - intros y Hy Hu Hm Hq Hne. rewrite upd_ne by done. by apply (e_frame _ _ _ _ _ E).
  - intros Hlt b Hbr. rewrite (used_upd x c1 al1) by done. by apply Hfull.
  - etrans; [apply (wf_src _ _ F)|]. apply (wf_src _ _ (wframe_rest _ _ R)).
Qed.

Lemma writei_wp user src off n data bs c al s :
  let i := inode_at ip s in let b0 := IBLOCK (i_inum i) x in
  mapped x ip bs c al s -> 0 <= off <= i_size i -> i_size i <= MAXFILE * BS -> off + n <= MAXFILE * BS -> n <= 3 * BS ->
  no_holes c al (i_size i) -> dinode_ok (dinode_of i) -> ino_block c al b0 -> c 0 = zero_block -> home (sb_logstart x) 0 ->
  Z.of_nat (length data) = n -> src_ok user src data s -> sb_size x <= BPB -> (length bs + 16 < NBUF)%nat ->
  wp (writei ip user src off n) L s (fun r s' => 0 <= r <= n /\ exists bs' c' al',
    wrote_file off n data bs c al s r bs' c' al' s').
Proof using All.
  intros i b0 M Hoff Hmax Hmaxn Hn3 Hnh Hdi Hib Hz Hhome Hlen Hsrc Hmap Hbs. assert (HM : MAXFILE * BS = 67382272) by done.
  unfold writei, iof. wstep. wstep. wstep. fold i. rewrite (proj2 (Z.ltb_ge _ _)) by lia. rewrite (u32_small (off + n)) by lia.
  rewrite (proj2 (Z.ltb_ge _ _)) by lia. simpl orb. cbv iota. fold BS. rewrite (proj2 (Z.ltb_ge (MAXFILE * BS) _)) by lia.
  assert (W0 : wstate off n (i_size i) data bs c al s 0 bs c al s).
  { split; [done|by apply wframe_rest| |apply logs_refl|done]. apply written_0; [done|apply M|apply M|done]. }
  wstep. eapply wpl_call; [by apply (writei_loop_wp user src off n (i_size i) data bs c al s); try done; lia|].
  intros y s1 (r & bs1 & c1 & al1 & -> & Hr & W1 & Hf). simpl snd. simpl fst.
  assert (Hl1 : (length bs1 <= length bs + 8)%nat) by by apply (wstate_len user src off n (i_size i) data bs c al s Hoff Hmax Hmaxn Hlen Hn3 Hmap Hbs Hsrc Hhome r bs1 c1 al1 s1).
  assert (M1 := ws_mapped _ _ _ _ _ _ _ _ _ _ _ _ _ W1). assert (F1 := ws_frame _ _ _ _ _ _ _ _ _ _ _ _ _ W1).
  destruct (wf_itable _ _ F1) as [al' Hit]. assert (Hip := mp_ip _ _ _ _ _ _ M).
  assert (Ei := inode_at_addrs al' s s1 Hip Hit). fold i in Ei.
  assert (al' = al1) as -> by (pose proof (mp_addrs _ _ _ _ _ _ M1) as Ha; by rewrite Ei in Ha).
  wstep. wstep. wstep. rewrite Ei. change (i_size (set_addrs al1 i)) with (i_size i).
  eapply wpl_call; [by apply (set_size_wp (i_size i) (off + r) al1 s)|]. intros ? s2 ->. wstep.
  set (s2 := set_itable _ s1). assert (Ei2 : inode_at ip s2 = resized (Z.max (i_size i) (off + r)) al1 i).
  { unfold s2, inode_at. simpl. rewrite nth_lookup, list_lookup_alter_eq. unfold i, inode_at. rewrite nth_lookup.
    by destruct (lookup_lt_is_Some_2 _ _ Hip) as [i0 ->]. }
  assert (T2 : tx bs1 ∅ c1 s2) by (destruct (mp_tx _ _ _ _ _ _ M1); by split).
  pose proof (ib_range _ _ _ Hib). pose proof (ly_size x HY). eapply wpl_call.
  { apply (iupdate_wp x L ip HL HLL bs1 c1 s2 T2); rewrite ?Ei2.
    - apply (mp_sb _ _ _ _ _ _ M1).
    - apply (mp_dev _ _ _ _ _ _ M).
    - apply (to_len _ _ _ (mp_tree _ _ _ _ _ _ M1)).
    - change (IBLOCK _ x) with b0. lia.
    - apply (ib_home _ _ _ Hib).
    - lia. }
  intros _ s3 [R3 T3]. wsteps. split; [done|]. rewrite s32_small by lia. split; [done|]. rewrite Ei2 in T3.
  eexists _, _, al1. eapply (wrote_file_iupdate off n data bs c al s r bs1 c1 al1 s1 s3); try done; apply M.
Qed.

(** C7. writei of at most three blocks' worth of bytes, what filewrite asks for at
    a time, to a file without holes whose tree and free map are well formed: it
    returns the number [r] of bytes written, less than [n] only when the disk is
    full. The file then holds those bytes at [off] and what it held everywhere
    else, its size and its dinode on disk agree with that, no block in use that
    is not the file's changed, and at most nine blocks were logged, within the
    MAXOPBLOCKS reserved for an operation. *)
Theorem writei_correct user src off n data bs c al s :
  let i := inode_at ip s in let b0 := IBLOCK (i_inum i) x in
  mapped x ip bs c al s -> 0 <= off <= i_size i -> i_size i <= MAXFILE * BS -> off + n <= MAXFILE * BS -> n <= 3 * BS ->
  no_holes c al (i_size i) -> dinode_ok (dinode_of i) -> ino_block c al b0 -> c 0 = zero_block -> home (sb_logstart x) 0 ->
  Z.of_nat (length data) = n -> src_ok user src data s -> sb_size x <= BPB -> (length bs + 16 < NBUF)%nat ->
  wp (writei ip user src off n) L s (fun r s' => 0 <= r <= n /\ exists bs' c' al',
    wrote_file off n data bs c al s r bs' c' al' s').
Proof using All. exact (writei_wp user src off n data bs c al s). Qed.

(** C23. What writei wrote, readi reads: bytes of a kernel object written to a file
    come back when the same range is read into an object of the kernel, wherever
    in the blocks of the file the range lies. *)
Theorem writei_readi_roundtrip src dst off n data bs c al s :
  let i := inode_at ip s in let b0 := IBLOCK (i_inum i) x in
  mapped x ip bs c al s -> 0 <= off <= i_size i -> i_size i <= MAXFILE * BS -> off + n <= MAXFILE * BS -> n <= 3 * BS ->
  no_holes c al (i_size i) -> dinode_ok (dinode_of i) -> ino_block c al b0 -> c 0 = zero_block -> home (sb_logstart x) 0 ->
  Z.of_nat (length data) = n -> src_ok false src data s -> sb_size x <= BPB -> (length bs + 16 < NBUF)%nat ->
  0 <= dst -> dst + n <= Z.of_nat (length (kbuf s)) -> Z.of_nat (length (kbuf s)) < 2 ^ 64 ->
  wp (r ← writei ip false src off n; r' ← readi ip false dst off (u32 r); mret (r, r')) L s (fun p s' =>
    p.1 = p.2 /\ kbuf s' = splice (Z.to_nat dst) (take (Z.to_nat p.1) data) (kbuf s) /\
    (p.1 = n \/ exists c', full x c' /\ forall y, content (abs (lst s')) y = c' y)).
Proof using All.
  intros i b0 M Hoff Hmax Hmaxn Hn3 Hnh Hdi Hib Hz Hhome Hlen Hsrc Hmap Hbs Hd1 Hd2 Hd3. assert (HM : MAXFILE * BS = 67382272) by done.
  wstep. wstep. eapply wpl_call; [by apply (writei_wp false src off n data bs c al s)|].
  intros r s1 (Hr & bs1 & c1 & al1 & W). rewrite u32_small by lia.
  assert (Hi : i_size (inode_at ip s1) = Z.max (i_size i) (off + r)).
  { unfold inode_at at 1. rewrite (wd_inode _ _ _ _ _ _ _ _ _ _ _ _ W), nth_lookup, list_lookup_alter_eq.
    by destruct (lookup_lt_is_Some_2 _ _ (mp_ip _ _ _ _ _ _ M)) as [i0 ->]. }
  assert (Hm : readable (i_size (inode_at ip s1)) off r = r).
  { unfold readable. rewrite Hi, (proj2 (Z.ltb_ge _ _)), (proj2 (Z.leb_gt _ _)) by lia. simpl. lia. }
  destruct (wd_src _ _ _ _ _ _ _ _ _ _ _ _ W) as (Hk & _). assert (Hl1 := wd_logged _ _ _ _ _ _ _ _ _ _ _ _ W).
  wstep. eapply wpl_call.
  { apply (readi_wp x HY L ip HL HLL false dst off r bs1 c1 al1 s1); rewrite ?Hm, ?Hi; try lia; try done.
    - apply W.
    - apply W.
    - simpl. rewrite Hk. lia. }
  rewrite Hm. intros r' s2 (M2 & F2 & [[-> [_ D]]|(_ & ? & _)]); [|done]. wsteps. split; [done|]. split; [done|]. split.
  - rewrite D, Hk. simpl fst. f_equal. apply list_eq. intros j. destruct (decide (j < Z.to_nat r)%nat) as [Hj|Hj]; last first.
    { rewrite lookup_take_ge, (proj2 (lookup_ge_None _ _)); [done|rewrite length_file_bytes; lia|lia]. }
    rewrite file_bytes_lookup, lookup_take_lt by done. rewrite (wd_bytes _ _ _ _ _ _ _ _ _ _ _ _ W) by lia. rewrite decide_True by lia.
    destruct (lookup_lt_is_Some_2 data j) as [v Hv]; [lia|]. rewrite nth_lookup. replace (Z.to_nat (off + Z.of_nat j - off)) with j by lia. by rewrite Hv.
  - destruct (decide (r < n)) as [Hlt|Hge]; [right|left; simpl; lia]. exists c1. split; [by apply (wd_full _ _ _ _ _ _ _ _ _ _ _ _ W)|].
    apply (mp_tx _ _ _ _ _ _ M2).
Qed.
End Write.
