(* ===== verification/FsSample.v ===== *)
(** The theorems of the block layer at concrete disks: a small file system with
    the log at block 2 and the free map at block 46, on the buffer cache of
    kernel/bio.c and the user memory of kernel/vm.c. *)
From S2P Require Import Prelude Riscv Kalloc Vm Shm UserMem CopyOut UserIface VmUser VmSample Pipe PipeSample.
From S2P Require Import CStrings Bio Block Sleeplock Log LogCrash LogTxn LogSample Fs FsBlocks FsInode FsMap FsRead FsWrite.
Local Open Scope Z_scope.
Import VmSample.Machine Kalloc.Sample.

Definition sample_sb : superblock := mkSb FSMAGIC 200 153 200 31 2 33 46.

Lemma sample_layout : layout sample_sb.
Proof.
  split; [simpl; lia|simpl; lia|]. intros b Hb. unfold BBLOCK, home, LOGBLOCKS. change BPB with 8192. simpl in *.
  rewrite u32_small; zdiv.
Qed.

(** A file system in a transaction that has not logged anything, on disk [d],
    with one inode of [size] bytes in the table and the kernel object [k]. *)
Definition fs_with (d : gmap Z block) (al : list Z) (size : Z) (k : list Z) : fss bcache vms :=
  mkFss (mkLstate (blank_log 1) (mkBcache boot_bufs d [] 1)) sample_sb
    [mkInode ROOTDEV 1 1 (mkSleep 1 "inode" 1) 1 T_FILE 0 0 1 size al (Some default_fs_ops)] k proc_a 1 0 [].
Definition fs_on (d : gmap Z block) (al : list Z) : fss bcache vms := fs_with d al 0 [].

Lemma fs_with_tx d al size k : (forall b, block_ok (disk_block d b)) -> d !! 2 = None -> tx [] ∅ (disk_block d) (fs_with d al size k).
Proof.
  intros Hd H2. destruct (wp_exists _ _ _ _ (binit_wp [] d 1 Hd)) as ([] & s' & Hrun & Hs).
  rewrite binit_run in Hrun. injection Hrun as <-. destruct Hs as (Hok & Hh & Hp & Hc).
  split; simpl; try done. split; try done; try apply blank_txn. apply NoDup_nil_2.
  change (head_n (disk_block d 2) = 0). unfold disk_block. by rewrite H2.
Qed.

Lemma fs_with_mapped d al size k : (forall b, block_ok (disk_block d b)) -> d !! 2 = None ->
  tree_ok sample_sb (disk_block d) al -> map_ok sample_sb (disk_block d) ->
  mapped sample_sb 0 [] (disk_block d) al (fs_with d al size k).
Proof. intros Hd H2 HT HM. split; [by apply fs_with_tx|reflexivity|simpl; lia|reflexivity|reflexivity|exact HT|exact HM]. Qed.

Lemma filled_ok n v : (n <= BSIZE)%nat -> is_byte v -> block_ok (replicate n v ++ replicate (BSIZE - n) 0).
Proof.
  intros Hn Hv. split; [rewrite length_app, !length_replicate; lia|].
  apply Forall_app. split; apply Forall_replicate; [done|]. unfold is_byte. lia.
Qed.

(** The free map with the first [n] bytes set. *)
Definition bitmap (n : nat) : block := replicate n 255 ++ replicate (BSIZE - n) 0.

Lemma bitmap_used n d b : (n <= BSIZE)%nat -> d !! 46 = Some (bitmap n) -> 0 <= b < 200 ->
  used sample_sb (disk_block d) b = (b <? 8 * Z.of_nat n).
Proof.
  intros Hn Hd Hb. unfold used, disk_block, BBLOCK. change BPB with 8192. simpl.
  rewrite Z.div_small, Z.mod_small by lia. change (u32 (0 + 46)) with 46. rewrite Hd. simpl.
  rewrite bit_set_testbit by lia. unfold bitmap. pose proof (Z.mod_pos_bound b 8 ltac:(lia)).
  destruct (Z.ltb_spec b (8 * Z.of_nat n)) as [Hlt|Hge].
  - rewrite app_nth1 by (rewrite length_replicate; zdiv). rewrite nth_lookup, lookup_replicate_2 by zdiv. simpl.
    change 255 with (Z.ones 8). apply Z.ones_spec_low. lia.
  - rewrite app_nth2 by (rewrite length_replicate; zdiv). rewrite nth_lookup.
    destruct (replicate _ _ !! _) as [v|] eqn:E; [apply lookup_replicate in E as [-> _]|]; apply Z.bits_0.
Qed.

Lemma bitmap_map_ok n d : (6 <= n <= BSIZE)%nat -> d !! 46 = Some (bitmap n) -> map_ok sample_sb (disk_block d).
Proof.
  intros Hn Hd. split.
  - intros b Hb Hu. simpl in Hb. rewrite (bitmap_used n) in Hu by (done || lia). apply Z.ltb_ge in Hu. split.
    + unfold home, LOGBLOCKS. simpl. lia.
    + intros b' Hb'. simpl in Hb'. unfold BBLOCK. change BPB with 8192. simpl. rewrite Z.div_small by lia. change (u32 (0 + 46)) with 46. lia.
  - rewrite (bitmap_used n) by (done || lia). apply Z.ltb_lt. lia.
Qed.

(** A disk with the first 48 blocks in use. *)
Definition disk48 : gmap Z block := {[ 46 := bitmap 6 ]}.

Lemma disk48_ok b : block_ok (disk_block disk48 b).
Proof.
  unfold disk_block, disk48. destruct (decide (b = 46)) as [->|Hne].
  - apply (filled_ok 6); [unfold BSIZE; lia|done].
  - rewrite lookup_singleton_ne by done. apply zero_block_ok.
Qed.

Lemma no_file_slot c p : slot_addr c (replicate NADDRS 0) p = 0.
Proof.
  destruct p as [j| |j| |j|j k]; try done. unfold slot_addr. rewrite nth_lookup.
  by destruct (_ !! j) as [v|] eqn:E; [apply lookup_replicate in E as [-> _]|].
Qed.

Lemma no_file_tree c : (forall b, block_ok (c b)) -> tree_ok sample_sb c (replicate NADDRS 0).
Proof. intros Hc. split; try done; intros p; intros; by rewrite no_file_slot in *. Qed.

Definition fs48 : fss bcache vms := fs_on disk48 (replicate NADDRS 0).

Lemma log_lock_nil : log_lock ∉ ([] : list lock).
Proof. apply not_elem_of_nil. Qed.

(** ** Witnesses *)
Lemma balloc_correct_witness :
  wp (balloc ROOTDEV) [] fs48 (fun r s' => r = 48 /\ exists bs' c', tx bs' ∅ c' s' /\ c' 48 = zero_block).
Proof.
  eapply wp_mono.
  { apply (balloc_correct [] buf_free_nil log_lock_nil sample_sb ∅ sample_layout [] (disk_block disk48) fs48).
    - by apply fs_with_tx; [apply disk48_ok|].
    - done.
    - by apply (bitmap_map_ok 6); [unfold BSIZE; lia|].
    - intros h b Hb. by rewrite lookup_empty in Hb.
    - rewrite map_size_empty. unfold NBUF. simpl. lia. }
  assert (H48 : forall b, 0 <= b < 200 -> used sample_sb (disk_block disk48) b = (b <? 48)).
  { intros b Hb. by apply (bitmap_used 6); [unfold BSIZE; lia| |]. }
  intros r s' [(_ & Hu & _)|(Hr & Hu & Hb & bs' & c' & T & _ & _ & Hz & _)].
  - specialize (Hu 48 ltac:(simpl; lia)). by rewrite H48 in Hu by lia.
  - simpl in Hr. assert (r = 48) as ->.
    { rewrite H48 in Hu by lia. apply Z.ltb_ge in Hu. destruct (decide (r = 48)); [done|].
      specialize (Hb 48 ltac:(lia)). by rewrite H48 in Hb by lia. }
    split; [done|]. by exists bs', c'.
Defined.

Lemma bmap_correct_witness :
  wp (bmap 0 300) [] fs48 (fun r s' => r <> 0 -> exists c' al', file_block c' al' 300 = r /\ c' r = zero_block).
Proof.
  eapply wp_mono.
  { apply (bmap_correct sample_sb sample_layout [] 0 buf_free_nil log_lock_nil 300 [] (disk_block disk48) (replicate NADDRS 0) fs48).
    - apply fs_with_mapped; [apply disk48_ok|reflexivity|apply no_file_tree, disk48_ok|].
      by apply (bitmap_map_ok 6); [unfold BSIZE; lia|].
    - done.
    - done.
    - unfold home, LOGBLOCKS. simpl. lia.
    - unfold NBUF. simpl. lia. }
  intros r s' (bs' & c' & al' & _ & _ & _ & Hr & _ & _ & _ & Hz & _) Hnz. exists c', al'. split; [done|]. by apply Hz.
Defined.

(** A full disk whose boot block is not zero, and a file with an empty double
    indirect block. *)
Definition boot_block : block := replicate 4 1 ++ replicate (BSIZE - 4) 0.
Definition full_disk : gmap Z block := {[ 0 := boot_block; 46 := bitmap 25 ]}.
Definition dbl_addrs : list Z := replicate 12 0 ++ [50].

Lemma full_disk_ok b : block_ok (disk_block full_disk b).
Proof.
  unfold disk_block, full_disk. destruct (decide (b = 0)) as [->|H0].
  { apply (filled_ok 4); [unfold BSIZE; lia|done]. }
  rewrite lookup_insert_ne by done. destruct (decide (b = 46)) as [->|Hne].
  - apply (filled_ok 25); [unfold BSIZE; lia|done].
  - rewrite lookup_singleton_ne by done. apply zero_block_ok.
Qed.

Lemma full_disk_full : full sample_sb (disk_block full_disk).
Proof.
  intros b Hb. simpl in Hb. rewrite (bitmap_used 25); [|unfold BSIZE; lia|done|done]. apply Z.ltb_lt. lia.
Qed.

Lemma dbl_slot p : slot_ok p -> p <> SDbl -> slot_addr (disk_block full_disk) dbl_addrs p = 0.
Proof.
  assert (H50 : disk_block full_disk 50 = zero_block) by done.
  assert (Hc : forall i, child (disk_block full_disk) 50 i = 0).
  { intros i. unfold child. change (50 =? 0) with false. cbv iota. rewrite H50. apply get_word_zero. }
  destruct p as [j| |j| |j|j k]; intros Hp Hn; try done; simpl slot_addr.
  - unfold slot_ok, NDIRECT in Hp. do 11 (destruct j as [|j]; [done|]). lia.
  - apply Hc.
  - change (nth (NDIRECT + 1) dbl_addrs 0) with 50. by rewrite Hc.
Qed.

Lemma full_disk_tree : tree_ok sample_sb (disk_block full_disk) dbl_addrs.
Proof.
  split; [done|apply full_disk_ok| |].
  - intros p Hp Hn. destruct (decide (p = SDbl)) as [->|Hne]; [|by rewrite dbl_slot in Hn].
    change (slot_addr _ _ SDbl) with 50. split; [simpl; lia|apply full_disk_full; simpl; lia|unfold home, LOGBLOCKS; simpl; lia|].
    intros b Hb. simpl in Hb. unfold BBLOCK. change BPB with 8192. simpl. by rewrite Z.div_small by lia.
  - intros p q Hp Hq Hn E. destruct (decide (p = SDbl)) as [->|Hne]; [|by rewrite dbl_slot in Hn].
    destruct (decide (q = SDbl)) as [->|Hne]; [done|]. by rewrite (dbl_slot q) in E.
Qed.

Lemma bmap_reads_boot_block_witness : file_block (disk_block full_disk) dbl_addrs 267 = 0 /\
  wp (bmap 0 267) [] (fs_on full_disk dbl_addrs) (fun r s' => r = 16843009 /\
    mapped sample_sb 0 [] (disk_block full_disk) dbl_addrs s').
Proof.
  apply (bmap_reads_boot_block sample_sb sample_layout [] 0 buf_free_nil log_lock_nil 267 [] (disk_block full_disk)
    dbl_addrs (fs_on full_disk dbl_addrs)).
  - apply fs_with_mapped; [apply full_disk_ok|reflexivity|apply full_disk_tree|].
    by apply (bitmap_map_ok 25); [unfold BSIZE; lia|].
  - apply full_disk_full.
  - vm_compute. split; congruence.
  - vm_compute. congruence.
  - apply dbl_slot; [vm_compute; lia|congruence].
  - vm_compute. congruence.
  - unfold home, LOGBLOCKS. simpl. lia.
  - unfold NBUF. simpl. lia.
Defined.

(** The block of inode 1. *)
Lemma sample_ino_block : ino_block sample_sb (disk_block disk48) (replicate NADDRS 0) (IBLOCK 1 sample_sb).
Proof.
  change (IBLOCK 1 sample_sb) with 33. split; [simpl; lia| |unfold home, LOGBLOCKS; simpl; lia| |].
  - by rewrite (bitmap_used 6); [|unfold BSIZE; lia| |lia].
  - intros b Hb. simpl in Hb. unfold BBLOCK. change BPB with 8192. simpl. by rewrite Z.div_small by lia.
  - intros q Hq. by rewrite no_file_slot.
Qed.

Lemma sample_dinode size : 0 <= size < 2 ^ 32 -> dinode_ok (mkDinode T_FILE 0 0 1 size (replicate NADDRS 0)).
Proof. intros Hs. split; cbn [di_type di_major di_minor di_nlink di_size di_addrs]; try done; try (unfold T_FILE; lia). by apply Forall_replicate. Qed.

Lemma disk48_map_ok : map_ok sample_sb (disk_block disk48).
Proof. by apply (bitmap_map_ok 6); [unfold BSIZE; lia|]. Qed.

Lemma home_0 : home (sb_logstart sample_sb) 0.
Proof. unfold home, LOGBLOCKS. simpl. lia. Qed.

Lemma iupdate_correct_witness :
  wp (iupdate 0) [] fs48 (fun _ s' => same_rest fs48 s' /\ exists c', tx [33] ∅ c' s' /\
    get_dinode (dinode_off 1) (c' 33) = mkDinode T_FILE 0 0 1 0 (replicate NADDRS 0)).
Proof.
  eapply wp_mono.
  { apply (iupdate_correct sample_sb [] 0 buf_free_nil log_lock_nil [] (disk_block disk48) fs48).
    - by apply fs_with_tx; [apply disk48_ok|].
    - reflexivity.
    - reflexivity.
    - by apply sample_dinode.
    - simpl. lia.
    - by vm_compute.
    - simpl. lia.
    - change (IBLOCK (i_inum (inode_at 0 fs48)) sample_sb) with 33. unfold home, LOGBLOCKS. simpl. lia.
    - unfold NBUF. simpl. lia. }
  intros ? s' (R & c' & T & Hd & _). split; [done|]. exists c'. by split.
Defined.

Lemma no_locks_avail : avail ulocks [].
Proof. apply avail_nil. Qed.

(** Two blocks' worth of bytes written to an empty file from a kernel object. *)
Definition two_blocks : list Z := replicate 1500 7.
Definition fs_two : fss bcache vms := fs_with disk48 (replicate NADDRS 0) 0 two_blocks.

Lemma two_blocks_src : src_ok false 0 two_blocks fs_two.
Proof.
  assert (Hl : length two_blocks = 1500%nat) by apply length_replicate.
  split; [by apply Forall_replicate|]. rewrite Hl. split; [lia|]. split; [lia|]. simpl kbuf. rewrite Hl. split; [lia|].
  change (Z.to_nat 0) with O. rewrite drop_0. apply take_ge. lia.
Qed.

Lemma writei_correct_witness :
  wp (writei 0 false 0 0 1500) [] fs_two (fun r s' => 0 <= r <= 1500 /\ exists bs' c' al',
    wrote_file sample_sb 0 0 1500 two_blocks [] (disk_block disk48) (replicate NADDRS 0) fs_two r bs' c' al' s').
Proof.
  apply (writei_correct sample_sb sample_layout [] 0 buf_free_nil log_lock_nil no_locks_avail false 0 0 1500 two_blocks [] (disk_block disk48)
    (replicate NADDRS 0) fs_two).
  - apply fs_with_mapped; [apply disk48_ok|reflexivity|apply no_file_tree, disk48_ok|apply disk48_map_ok].
  - simpl. lia.
  - by vm_compute.
  - by vm_compute.
  - by vm_compute.
  - intros n Hn Hlt. change (i_size (inode_at 0 fs_two)) with 0 in Hlt. change BS with 1024 in Hlt. lia.
  - by apply sample_dinode.
  - apply sample_ino_block.
  - reflexivity.
  - apply home_0.
  - unfold two_blocks. by rewrite length_replicate.
  - apply two_blocks_src.
  - by vm_compute.
  - unfold NBUF. simpl. lia.
Defined.

Lemma writei_readi_roundtrip_witness :
  wp (r ← writei 0 false 0 0 1500; r' ← readi 0 false 0 0 (u32 r); mret (r, r')) [] fs_two (fun p s' =>
    p.1 = p.2 /\ kbuf s' = splice 0 (take (Z.to_nat p.1) two_blocks) two_blocks /\
    (p.1 = 1500 \/ exists c', full sample_sb c' /\ forall y, content (abs (lst s')) y = c' y)).
Proof.
  apply (writei_readi_roundtrip sample_sb sample_layout [] 0 buf_free_nil log_lock_nil no_locks_avail 0 0 0 1500 two_blocks []
    (disk_block disk48) (replicate NADDRS 0) fs_two).
  - apply fs_with_mapped; [apply disk48_ok|reflexivity|apply no_file_tree, disk48_ok|apply disk48_map_ok].
  - simpl. lia.
  - by vm_compute.
  - by vm_compute.
  - by vm_compute.
  - intros n Hn Hlt. change (i_size (inode_at 0 fs_two)) with 0 in Hlt. change BS with 1024 in Hlt. lia.
  - by apply sample_dinode.
  - apply sample_ino_block.
  - reflexivity.
  - apply home_0.
  - unfold two_blocks. by rewrite length_replicate.
  - apply two_blocks_src.
  - by vm_compute.
  - unfold NBUF. simpl. lia.
  - lia.
  - simpl kbuf. unfold two_blocks. rewrite length_replicate. lia.
  - simpl kbuf. unfold two_blocks. rewrite length_replicate. lia.
Defined.

(** A file of ten bytes in block 47. *)
Definition disk_ten : gmap Z block := {[ 46 := bitmap 6; 47 := replicate BSIZE 5 ]}.
Definition ten_addrs : list Z := 47 :: replicate 12 0.
Definition fs_ten : fss bcache vms := fs_with disk_ten ten_addrs 10 [].

Lemma disk_ten_ok b : block_ok (disk_block disk_ten b).
Proof.
  unfold disk_block, disk_ten. destruct (decide (b = 46)) as [->|H46].
  { apply (filled_ok 6); [unfold BSIZE; lia|done]. }
  rewrite lookup_insert_ne by done. destruct (decide (b = 47)) as [->|H47].
  - split; [apply length_replicate|by apply Forall_replicate].
  - rewrite lookup_singleton_ne by done. apply zero_block_ok.
Qed.

Lemma ten_slot c p : slot_addr c ten_addrs p = if decide (p = SDirect 0) then 47 else 0.
Proof.
  destruct p as [[|j]| |j| |j|j k]; try done. rewrite decide_False by done. unfold slot_addr, ten_addrs.
  change (nth (S j) (47 :: replicate 12 0) 0) with (nth j (replicate 12 0) 0). rewrite nth_lookup.
  by destruct (_ !! j) as [v|] eqn:E; [apply lookup_replicate in E as [-> _]|].
Qed.

Lemma ten_tree : tree_ok sample_sb (disk_block disk_ten) ten_addrs.
Proof.
  split; [done|apply disk_ten_ok| |].
  - intros p Hp. rewrite ten_slot. case_decide; [|done]. intros _. split; [simpl; lia| |unfold home, LOGBLOCKS; simpl; lia|].
    + by rewrite (bitmap_used 6); [|unfold BSIZE; lia| |lia].
    + intros b Hb. simpl in Hb. unfold BBLOCK. change BPB with 8192. simpl. by rewrite Z.div_small by lia.
  - intros p q Hp Hq. rewrite !ten_slot. repeat case_decide; intros; congruence.
Qed.

Lemma readi_correct_witness :
  wp (readi 0 true 0 4 100) [] fs_ten (fun r s' => mapped sample_sb 0 [] (disk_block disk_ten) ten_addrs s' /\ read_frame fs_ten s' /\
    (r = 6 /\ delivered true 0 (file_bytes (disk_block disk_ten) ten_addrs 4 6) fs_ten s' \/
     r = -1 /\ true = true /\ exists k, 0 <= k < 6 /\ delivered true 0 (file_bytes (disk_block disk_ten) ten_addrs 4 k) fs_ten s')).
Proof.
  apply (readi_correct sample_sb sample_layout [] 0 buf_free_nil log_lock_nil true 0 4 100 [] (disk_block disk_ten) ten_addrs fs_ten).
  - apply fs_with_mapped; [apply disk_ten_ok|reflexivity|apply ten_tree|by apply (bitmap_map_ok 6); [unfold BSIZE; lia|]].
  - split; by vm_compute.
  - intros n Hn Hlt. change (i_size (inode_at 0 fs_ten)) with 10 in Hlt. change BS with 1024 in Hlt.
    assert (n = 0) as -> by lia. done.
  - lia.
  - lia.
  - split; [apply proc_a_ok|]. change (readable (i_size (inode_at 0 fs_ten)) 4 100) with 6. lia.
  - change (readable (i_size (inode_at 0 fs_ten)) 4 100) with 6. lia.
  - apply no_locks_avail.
  - unfold NBUF. simpl. lia.
Defined.
