(* ===== verification/File.v ===== *)
(** Open files, kernel/file.c and the rest of kernel/pipe.c: the table of open
    files and the operations behind file descriptors.  The devices of devsw are
    an interface; a process that would sleep is the Blocked outcome. *)
From S2P Require Import Prelude UserIface Pipe Block Log Fs.
Local Open Scope Z_scope.

Definition NFILE : nat := 100.
Definition NDEV : Z := 10.
Definition NOFILE : nat := 16.
Definition CONSOLE : Z := 1.
Definition RD_MAJOR : Z := 2.

Inductive ftype := FD_NONE | FD_PIPE | FD_INODE | FD_DEVICE.

#[export] Instance ftype_eq_dec : EqDecision ftype.
Proof. solve_decision. Defined.

Record file := mkFile {
  f_type : ftype; f_ref : Z; f_readable : bool; f_writable : bool;
  f_pipe : Z; f_ip : nat; f_off : Z; f_major : Z
}.

Definition zero_file : file := mkFile FD_NONE 0 false false 0 0 0 0.

(** The device switch: what [devsw[major].read] and [.write] are now, run on the
    devices and the memory of the process. *)
Class Devices (D U : Type) := {
  dev_read : D -> Z -> option (bool -> Z -> Z -> Z -> M (D * U) Z);
  dev_write : D -> Z -> option (bool -> Z -> Z -> Z -> M (D * U) Z)
}.

(** Pages of kernel memory (kalloc and kfree). *)
Class KernelPages (U : Type) := {
  ukalloc : M U Z;
  ukfree : Z -> M U unit
}.

(** * State *)
Record files (B U D : Type) := mkFiles {
  fsys : fss B U;
  ftable : list file;
  ofile : list (option nat);
  pipes : gmap Z pipe;
  pwakeups : list (Z * chan);
  devs : D;
  pkilled : bool;
  monitor_enabled : Z
}.
Arguments mkFiles {B U D}.
Arguments fsys {B U D}.
Arguments ftable {B U D}.
Arguments ofile {B U D}.
Arguments pipes {B U D}.
Arguments pwakeups {B U D}.
Arguments devs {B U D}.
Arguments pkilled {B U D}.
Arguments monitor_enabled {B U D}.

Section Lenses.
Context {B U D : Type}.

Definition set_fsys (c : fss B U) (s : files B U D) : files B U D :=
  mkFiles c (ftable s) (ofile s) (pipes s) (pwakeups s) (devs s) (pkilled s) (monitor_enabled s).
Definition set_user (u : U) (f : fss B U) : fss B U := over (C := U) u f.

#[export] Program Instance files_fsys : Lens (files B U D) (fss B U) := {
  view := fsys;
  over := set_fsys
}.
Next Obligation. done. Qed.
Next Obligation. by intros []. Qed.
Next Obligation. done. Qed.

#[export] Program Instance files_usr : Lens (files B U D) U := {
  view s := usr (fsys s);
  over u s := set_fsys (set_user u (fsys s)) s
}.
Next Obligation. done. Qed.
Next Obligation. by intros [[] ?]. Qed.
Next Obligation. done. Qed.

#[export] Program Instance files_devs : Lens (files B U D) (D * U) := {
  view s := (devs s, usr (fsys s));
  over x s := mkFiles (set_user x.2 (fsys s)) (ftable s) (ofile s) (pipes s) (pwakeups s) x.1 (pkilled s) (monitor_enabled s)
}.
Next Obligation. by intros []. Qed.
Next Obligation. by intros [[] ?]. Qed.
Next Obligation. done. Qed.
End Lenses.

Section Operations.
Context {B U D : Type} `{BufCache B} `{UserMemory U} `{Devices D U} `{KernelPages U}.
Local Abbreviation FM := (M (files B U D)).

Definition set_ftable (t : list file) (s : files B U D) : files B U D :=
  mkFiles (fsys s) t (ofile s) (pipes s) (pwakeups s) (devs s) (pkilled s) (monitor_enabled s).
Definition set_ofile (t : list (option nat)) (s : files B U D) : files B U D :=
  mkFiles (fsys s) (ftable s) t (pipes s) (pwakeups s) (devs s) (pkilled s) (monitor_enabled s).
Definition set_pipes (p : gmap Z pipe) (w : list (Z * chan)) (s : files B U D) : files B U D :=
  mkFiles (fsys s) (ftable s) (ofile s) p w (devs s) (pkilled s) (monitor_enabled s).

Definition onfs {A} (m : M (fss B U) A) : FM A := zoom (C := fss B U) m.

Definition file_at (f : nat) (s : files B U D) : file := nth f (ftable s) zero_file.
Definition fof (f : nat) : FM file := gets (file_at f).
Definition fset (f : nat) (g : file -> file) : FM unit := modify (fun s => set_ftable (alter g f (ftable s)) s).

Definition with_fref (n : Z) (x : file) : file :=
  mkFile (f_type x) n (f_readable x) (f_writable x) (f_pipe x) (f_ip x) (f_off x) (f_major x).
Definition with_foff (o : Z) (x : file) : file :=
  mkFile (f_type x) (f_ref x) (f_readable x) (f_writable x) (f_pipe x) (f_ip x) o (f_major x).
Definition closed (x : file) : file :=
  mkFile FD_NONE 0 (f_readable x) (f_writable x) (f_pipe x) (f_ip x) (f_off x) (f_major x).

Definition filealloc : FM (option nat) :=
  acquire ftable_lock;;
  t ← gets ftable;
  match find_idx (fun x => f_ref x =? 0) t with
  | Some f => fset f (with_fref 1);; release ftable_lock;; mret (Some f)
  | None => release ftable_lock;; mret None
  end.

Definition filedup (f : nat) : FM nat :=
  acquire ftable_lock;;
  x ← fof f;
  if f_ref x <? 1 then panic "filedup"
  else
    fset f (fun x => with_fref (f_ref x + 1) x);;
    release ftable_lock;;
    mret f.

(** ** Pipes behind files: a pipe lives in the page at its address *)

(** Run a pipe operation on the pipe at [a]. *)
Definition onpipe {A} (a : Z) (m : M (pstate U) A) : FM A := fun L s =>
  match pipes s !! a with
  | None => Undef "pipe"
  | Some p =>
      match m L (mkPstate p [] (usr (fsys s))) with
      | Ok r L' q => Ok r L' (set_pipes (<[a := pi q]> (pipes s)) (pwakeups s ++ (pair a <$> wakeups q))
                               (set_fsys (set_user (Pipe.usr q) (fsys s)) s))
      | Panic e => Panic e
      | Undef e => Undef e
      | Blocked e => Blocked e
      | OutOfFuel => OutOfFuel
      end
  end.

(** pipeclose with the release of the page when both ends are closed. *)
Definition fpipeclose (a : Z) (writable : bool) : FM unit :=
  acquire (pipe_lock a);;
  ps ← gets pipes;
  match ps !! a with
  | None => undef "pipe"
  | Some p =>
      let '(p', c, last) := pipeclose writable p in
      modify (fun s => set_pipes (<[a := p']> (pipes s)) (pwakeups s ++ [(a, c)]) s);;
      release (pipe_lock a);;
      if (last : bool) then
        modify (fun s => set_pipes (delete a (pipes s)) (pwakeups s) s);;
        zoom (C := U) (ukfree a)
      else mret tt
  end.

Definition fileclose (f : nat) : FM unit :=
  acquire ftable_lock;;
  x ← fof f;
  if f_ref x <? 1 then panic "fileclose"
  else
    fset f (fun x => with_fref (f_ref x - 1) x);;
    if 0 <? f_ref x - 1 then release ftable_lock
    else
      ff ← fof f;
      fset f closed;;
      release ftable_lock;;
      match f_type ff with
      | FD_PIPE => fpipeclose (f_pipe ff) (f_writable ff)
      | FD_INODE | FD_DEVICE => onfs fbegin_op;; onfs (iput (f_ip ff));; onfs fend_op
      | FD_NONE => mret tt
      end.

Definition pipealloc : FM (option (nat * nat)) :=
  f0 ← filealloc;
  match f0 with
  | None => mret None
  | Some f0 =>
      f1 ← filealloc;
      match f1 with
      | None => fileclose f0;; mret None
      | Some f1 =>
          a ← zoom (C := U) ukalloc;
          if a =? 0 then fileclose f0;; fileclose f1;; mret None
          else
            modify (fun s => set_pipes (<[a := pipe_init (replicate (Z.to_nat PIPESIZE) 5)]> (pipes s)) (pwakeups s) s);;
            fset f0 (fun x => mkFile FD_PIPE (f_ref x) true false a (f_ip x) (f_off x) (f_major x));;
            fset f1 (fun x => mkFile FD_PIPE (f_ref x) false true a (f_ip x) (f_off x) (f_major x));;
            mret (Some (f0, f1))
      end
  end.

(** [struct stat] as copyout sends it: the padding after [nlink] is sent as the
    stack held it, here 0. *)
Definition stat_bytes (st : stat) : list Z :=
  le_bytes 4 (st_dev st) ++ le_bytes 4 (st_ino st) ++ le_bytes 2 (st_type st) ++ le_bytes 2 (st_nlink st) ++
  replicate 4 0 ++ le_bytes 8 (st_size st).

Definition filestat (f : nat) (addr : Z) : FM Z :=
  x ← fof f;
  match f_type x with
  | FD_INODE | FD_DEVICE =>
      onfs (ilock (f_ip x));;
      st ← onfs (stati (f_ip x));
      onfs (iunlock (f_ip x));;
      r ← zoom (C := U) (ucopyout addr (stat_bytes st));
      if r <? 0 then mret (-1) else mret 0
  | _ => mret (-1)
  end.

(** A pipe operation that sleeps blocks. *)
Definition finished (o : outcome_seg) : FM Z :=
  match o with Ret r => mret r | Asleep _ => blocked "pipe" end.

Definition fileread (f : nat) (addr n : Z) : FM Z :=
  x ← fof f;
  if negb (f_readable x) then mret (-1)
  else
    match f_type x with
    | FD_PIPE =>
        k ← gets pkilled;
        o ← onpipe (f_pipe x) (piperead (f_pipe x) addr n k);
        finished o
    | FD_DEVICE =>
        d ← gets devs;
        if (f_major x <? 0) || (NDEV <=? f_major x) then mret (-1)
        else
          match dev_read d (f_major x) with
          | None => mret (-1)
          | Some rd =>
              r ← zoom (C := D * U) (rd true addr (f_off x) n);
              (if 0 <? r then fset f (fun x => with_foff (u32 (f_off x + r)) x) else mret tt);;
              mret r
          end
    | FD_INODE =>
        onfs (ilock (f_ip x));;
        i ← onfs (iof (f_ip x));
        match i_ops i with
        | None => panic "fileread: no read operation defined"
        | Some o =>
            r ← onfs (ops_read o (f_ip x) true addr (f_off x) n);
            (if 0 <? r then fset f (fun x => with_foff (u32 (f_off x + r)) x) else mret tt);;
            onfs (iunlock (f_ip x));;
            mret r
        end
    | FD_NONE => panic "fileread"
    end.

(** The bytes of one transaction: what fits in MAXOPBLOCKS. *)
Definition max_write : Z := ((MAXOPBLOCKS - 1 - 1 - 2) / 2) * Z.of_nat BSIZE.

Definition filewrite_body (f : nat) (addr n : Z) (i : Z) : FM (Z + Z) :=
  if i <? n then
    let n1 := Z.min (n - i) max_write in
    x ← fof f;
    onfs fbegin_op;;
    onfs (ilock (f_ip x));;
    y ← onfs (iof (f_ip x));
    match i_ops y with
    | None => panic "filewrite: no write operation defined"
    | Some o =>
        r ← onfs (ops_write o (f_ip x) true (u64 (addr + i)) (f_off x) n1);
        (if 0 <? r then fset f (fun x => with_foff (u32 (f_off x + r)) x) else mret tt);;
        onfs (iunlock (f_ip x));;
        onfs fend_op;;
        if negb (r =? n1) then mret (inr i) else mret (inl (i + r))
    end
  else mret (inr i).

Definition filewrite (f : nat) (addr n : Z) : FM Z :=
  x ← fof f;
  if negb (f_writable x) then mret (-1)
  else
    match f_type x with
    | FD_PIPE =>
        k ← gets pkilled;
        o ← onpipe (f_pipe x) (pipewrite (f_pipe x) addr n (fun _ => k) 0);
        finished o
    | FD_DEVICE =>
        d ← gets devs;
        if (f_major x <? 0) || (NDEV <=? f_major x) then mret (-1)
        else
          match dev_write d (f_major x) with
          | None => mret (-1)
          | Some wr =>
              r ← zoom (C := D * U) (wr true addr (f_off x) n);
              (if 0 <? r then fset f (fun x => with_foff (u32 (f_off x + r)) x) else mret tt);;
              mret r
          end
    | FD_INODE =>
        i ← loop (S (Z.to_nat n)) (filewrite_body f addr n) 0;
        mret (if i =? n then n else -1)
    | FD_NONE => panic "filewrite"
    end.
End Operations.
