(* ===== verification/Sysfile.v ===== *)
(** The system calls on files, kernel/sysfile.c, with the fetching of arguments
    of kernel/syscall.c.  A system call is given the argument registers
    a0 to a5 of the trapframe. *)
From S2P Require Import Prelude UserIface CStrings Block Log Fs File.
Local Open Scope Z_scope.

Definition MAXPATH : Z := 128.
Definition MAX_SYMLINK_DEPTH : nat := 10.
Definition O_RDONLY : Z := 0x000.
Definition O_WRONLY : Z := 0x001.
Definition O_RDWR : Z := 0x002.
Definition O_CREATE : Z := 0x200.
Definition O_TRUNC : Z := 0x400.
Definition O_NOFOLLOW : Z := 0x004.

(** copyinstr of the calling process, with the bytes copied, and [p->sz]. *)
Class UserStrings (U : Type) := {
  ucopyinstr : Z -> Z -> M U (Z * list Z);
  usz : U -> Z
}.

Section Args.
Context {U : Type} `{UserMemory U} `{UserStrings U}.

(** * Arguments (kernel/syscall.c) *)
Definition argraw {S} (args : list Z) (n : nat) : M S Z :=
  match args !! n with Some a => mret a | None => panic "argraw" end.
Definition argint {S} (args : list Z) (n : nat) : M S Z := a ← argraw args n; mret (s32 a).
Definition argaddr {S} (args : list Z) (n : nat) : M S Z := argraw args n.

(** The uint64 at [addr]; [None] is -1. *)
Definition fetchaddr (addr : Z) : M U (option Z) :=
  sz ← gets usz;
  if (sz <=? addr) || (sz <? u64 (addr + 8)) then mret None
  else
    r ← ucopyin addr 8;
    if r.1 =? 0 then mret (Some (le_value r.2)) else mret None.

(** The length of the string and the buffer; [None] is -1. *)
Definition fetchstr (addr max : Z) : M U (option (Z * list Z)) :=
  r ← ucopyinstr addr max;
  if r.1 <? 0 then mret None
  else match strlen r.2 with Some n => mret (Some (n, r.2)) | None => undef "strlen" end.

Definition argstr (args : list Z) (n : nat) (max : Z) : M U (option (Z * list Z)) :=
  a ← argaddr args n; fetchstr a max.
End Args.

Section Calls.
Context {B U D : Type} `{BufCache B} `{UserMemory U} `{UserStrings U} `{Devices D U} `{KernelPages U}.
Local Abbreviation FM := (M (files B U D)).
Variable args : list Z.

Definition onusr {A} (m : M U A) : FM A := zoom (C := U) m.

(** The descriptor and the file; [None] is -1. *)
Definition argfd (n : nat) : FM (option (nat * nat)) :=
  fd ← argint args n;
  t ← gets ofile;
  if (fd <? 0) || (Z.of_nat NOFILE <=? fd) then mret None
  else match t !! Z.to_nat fd with
       | Some (Some f) => mret (Some (Z.to_nat fd, f))
       | _ => mret None
       end.

Definition fdalloc (f : nat) : FM Z :=
  t ← gets ofile;
  match find_idx (fun o => match o with None => true | Some _ => false end) t with
  | Some fd => modify (set_ofile (<[fd := Some f]> t));; mret (Z.of_nat fd)
  | None => mret (-1)
  end.

Definition clear_fd (fd : nat) : FM unit := modify (fun s => set_ofile (<[fd := None]> (ofile s)) s).

Definition sys_dup : FM Z :=
  a ← argfd 0;
  match a with
  | None => mret (-1)
  | Some (_, f) =>
      fd ← fdalloc f;
      if fd <? 0 then mret (-1) else filedup f;; mret fd
  end.

Definition sys_read : FM Z :=
  p ← argaddr args 1;
  n ← argint args 2;
  a ← argfd 0;
  match a with None => mret (-1) | Some (_, f) => fileread f p n end.

Definition sys_write : FM Z :=
  p ← argaddr args 1;
  n ← argint args 2;
  a ← argfd 0;
  match a with None => mret (-1) | Some (_, f) => filewrite f p n end.

Definition sys_close : FM Z :=
  a ← argfd 0;
  match a with
  | None => mret (-1)
  | Some (fd, f) => clear_fd fd;; fileclose f;; mret 0
  end.

Definition sys_fstat : FM Z :=
  st ← argaddr args 1;
  a ← argfd 0;
  match a with None => mret (-1) | Some (_, f) => filestat f st end.

Definition name0 : list Z := replicate DIRSIZ 0.

(** The label [bad] of sys_link. *)
Definition link_bad (ip : nat) : FM Z :=
  onfs (ilock ip);;
  onfs (iset ip (fun x => with_nlink (s16 (i_nlink x - 1)) x));;
  onfs (iupdate ip);;
  onfs (iunlockput ip);;
  onfs fend_op;;
  mret (-1).

Definition sys_link : FM Z :=
  old ← onusr (argstr args 0 MAXPATH);
  match old with
  | None => mret (-1)
  | Some (_, old) =>
      new ← onusr (argstr args 1 MAXPATH);
      match new with
      | None => mret (-1)
      | Some (_, new) =>
          onfs fbegin_op;;
          o ← onfs (namei old);
          match o with
          | None => onfs fend_op;; mret (-1)
          | Some ip =>
              onfs (ilock ip);;
              x ← onfs (iof ip);
              if i_type x =? T_DIR then onfs (iunlockput ip);; onfs fend_op;; mret (-1)
              else
                onfs (iset ip (fun x => with_nlink (s16 (i_nlink x + 1)) x));;
                onfs (iupdate ip);;
                onfs (iunlock ip);;
                d ← onfs (nameiparent new name0);
                match d with
                | None => link_bad ip
                | Some (dp, name) =>
                    onfs (ilock dp);;
                    y ← onfs (iof dp);
                    x ← onfs (iof ip);
                    r ← (if negb (i_dev y =? i_dev x) then mret (-1) else onfs (dirlink dp name (i_inum x)));
                    if r <? 0 then onfs (iunlockput dp);; link_bad ip
                    else
                      onfs (iunlockput dp);;
                      onfs (iput ip);;
                      onfs fend_op;;
                      mret 0
                end
          end
      end
  end.

Definition isdirempty_body (dp : nat) (off : Z) : FM (Z + bool) :=
  x ← onfs (iof dp);
  if u32 off <? i_size x then
    de ← onfs (read_dirent dp off "isdirempty: readi");
    if negb (de_inum de =? 0) then mret (inr false) else mret (inl (off + DIRENT_SIZE))
  else mret (inr true).

Definition isdirempty (dp : nat) : FM bool :=
  x ← onfs (iof dp);
  loop (S (Z.to_nat (i_size x))) (isdirempty_body dp) (2 * DIRENT_SIZE).

Definition unlink_bad (dp : nat) : FM Z :=
  onfs (iunlockput dp);;
  onfs fend_op;;
  mret (-1).

Definition dot : list Z := [46; 0].
Definition dotdot : list Z := [46; 46; 0].

Definition sys_unlink : FM Z :=
  a ← onusr (argstr args 0 MAXPATH);
  match a with
  | None => mret (-1)
  | Some (_, path) =>
      onfs fbegin_op;;
      d ← onfs (nameiparent path name0);
      match d with
      | None => onfs fend_op;; mret (-1)
      | Some (dp, name) =>
          onfs (ilock dp);;
          c1 ← onfs (defined (namecmp name dot));
          c2 ← onfs (defined (namecmp name dotdot));
          if (c1 =? 0) || (c2 =? 0) then unlink_bad dp
          else
            r ← onfs (dirlookup dp name);
            match r with
            | None => unlink_bad dp
            | Some (ip, off) =>
                onfs (ilock ip);;
                x ← onfs (iof ip);
                if i_nlink x <? 1 then panic "unlink: nlink < 1"
                else
                  e ← (if i_type x =? T_DIR then isdirempty ip else mret true);
                  if negb (e : bool) then onfs (iunlockput ip);; unlink_bad dp
                  else
                    onfs (modify (set_kbuf (replicate 16 0)));;
                    w ← onfs (writei dp false 0 off DIRENT_SIZE);
                    if negb (w =? DIRENT_SIZE) then panic "unlink: writei"
                    else
                      (if i_type x =? T_DIR then
                         onfs (iset dp (fun x => with_nlink (s16 (i_nlink x - 1)) x));; onfs (iupdate dp)
                       else mret tt);;
                      onfs (iunlockput dp);;
                      onfs (iset ip (fun x => with_nlink (s16 (i_nlink x - 1)) x));;
                      onfs (iupdate ip);;
                      onfs (iunlockput ip);;
                      onfs fend_op;;
                      mret 0
            end
      end
  end.

(** The label [fail] of create. *)
Definition create_fail (ip dp : nat) : FM (option nat) :=
  onfs (iset ip (with_nlink 0));;
  onfs (iupdate ip);;
  onfs (iunlockput ip);;
  onfs (iunlockput dp);;
  mret None.

Definition create (path : list Z) (type major minor : Z) : FM (option nat) :=
  d ← onfs (nameiparent path name0);
  match d with
  | None => mret None
  | Some (dp, name) =>
      onfs (ilock dp);;
      r ← onfs (dirlookup dp name);
      match r with
      | Some (ip, _) =>
          onfs (iunlockput dp);;
          onfs (ilock ip);;
          x ← onfs (iof ip);
          if (type =? T_FILE) && ((i_type x =? T_FILE) || (i_type x =? T_DEVICE)) then mret (Some ip)
          else onfs (iunlockput ip);; mret None
      | None =>
          y ← onfs (iof dp);
          o ← onfs (ialloc (i_dev y) type);
          match o with
          | None => onfs (iunlockput dp);; mret None
          | Some ip =>
              onfs (ilock ip);;
              onfs (iset ip (fun x => with_nlink 1 (with_dev major minor x)));;
              onfs (iupdate ip);;
              x ← onfs (iof ip);
              dots ← (if type =? T_DIR then
                        r1 ← onfs (dirlink ip dot (i_inum x));
                        if r1 <? 0 then mret false
                        else r2 ← onfs (dirlink ip dotdot (i_inum y)); mret (negb (r2 <? 0))
                      else mret true);
              if negb (dots : bool) then create_fail ip dp
              else
                r3 ← onfs (dirlink dp name (i_inum x));
                if r3 <? 0 then create_fail ip dp
                else
                  (if type =? T_DIR then
                     onfs (iset dp (fun x => with_nlink (s16 (i_nlink x + 1)) x));; onfs (iupdate dp)
                   else mret tt);;
                  onfs (iunlockput dp);;
                  mret (Some ip)
          end
      end
  end.

(** The loop of sys_open over symbolic links; the inode is returned locked. *)
Definition open_body (omode : Z) (x : list Z * nat) : FM ((list Z * nat) + option nat) :=
  let '(path, depth) := x in
  o ← onfs (namei path);
  match o with
  | None => onfs fend_op;; mret (inr None)
  | Some ip =>
      onfs (ilock ip);;
      y ← onfs (iof ip);
      if (i_type y =? T_SYMLINK) && negb (Z.land omode O_NOFOLLOW =? 0) then
        onfs (iunlockput ip);; onfs fend_op;; mret (inr None)
      else if negb (i_type y =? T_SYMLINK) then mret (inr (Some ip))
      else if (MAX_SYMLINK_DEPTH <=? depth)%nat then
        onfs (iunlockput ip);; onfs fend_op;; mret (inr None)
      else
        onfs (modify (set_kbuf path));;
        len ← onfs (readi ip false 0 0 (MAXPATH - 1));
        if len <=? 0 then onfs (iunlockput ip);; onfs fend_op;; mret (inr None)
        else
          k ← onfs (gets kbuf);
          onfs (iunlockput ip);;
          mret (inl (<[Z.to_nat len := 0]> k, S depth))
  end.

(** [path] as the array of MAXPATH bytes it is. *)
Definition path_array (path : list Z) : list Z := path ++ replicate (Z.to_nat MAXPATH - length path) 0.

(** The inode to open, locked; [None] after an error, with the transaction
    ended. *)
Definition open_inode (path : list Z) (omode : Z) : FM (option nat) :=
  if negb (Z.land omode O_CREATE =? 0) then
    o ← create path T_FILE 0 0;
    match o with
    | None => onfs fend_op;; mret None
    | Some ip => mret (Some ip)
    end
  else
    o ← loop (S (S MAX_SYMLINK_DEPTH)) (open_body omode) (path_array path, O);
    match o with
    | None => mret None
    | Some ip =>
        x ← onfs (iof ip);
        if (i_type x =? T_DIR) && negb (omode =? O_RDONLY) then
          onfs (iunlockput ip);; onfs fend_op;; mret None
        else mret (Some ip)
    end.

Definition sys_open : FM Z :=
  omode ← argint args 1;
  a ← onusr (argstr args 0 MAXPATH);
  match a with
  | None => mret (-1)
  | Some (_, path) =>
      onfs fbegin_op;;
      o ← open_inode path omode;
      match o with
      | None => mret (-1)
      | Some ip =>
          mon ← gets monitor_enabled;
          onfs (iset ip (with_ops (Some (if mon =? 0 then default_fs_ops else ext_fs_ops))));;
          x ← onfs (iof ip);
          if (i_type x =? T_DEVICE) && ((i_major x <? 0) || (NDEV <=? i_major x)) then
            onfs (iunlockput ip);; onfs fend_op;; mret (-1)
          else
            g ← filealloc;
            fd ← (match g with None => mret (-1) | Some f => fdalloc f end);
            match g with
            | None => onfs (iunlockput ip);; onfs fend_op;; mret (-1)
            | Some f =>
                if fd <? 0 then
                  fileclose f;; onfs (iunlockput ip);; onfs fend_op;; mret (-1)
                else
                  fset f (fun y => mkFile (if i_type x =? T_DEVICE then FD_DEVICE else FD_INODE) (f_ref y)
                    (Z.land omode O_WRONLY =? 0)
                    (negb (Z.land omode O_WRONLY =? 0) || negb (Z.land omode O_RDWR =? 0))
                    (f_pipe y) ip 0 (if i_type x =? T_DEVICE then i_major x else f_major y));;
                  (if negb (Z.land omode O_TRUNC =? 0) && (i_type x =? T_FILE) then onfs (itrunc ip) else mret tt);;
                  onfs (iunlock ip);;
                  onfs fend_op;;
                  mret fd
            end
      end
  end.

(** sys_mkdir, sys_mknod: a new inode that nobody keeps. *)
Definition make_node (type major minor : Z) : FM Z :=
  a ← onusr (argstr args 0 MAXPATH);
  match a with
  | None => onfs fend_op;; mret (-1)
  | Some (_, path) =>
      o ← create path type major minor;
      match o with
      | None => onfs fend_op;; mret (-1)
      | Some ip => onfs (iunlockput ip);; onfs fend_op;; mret 0
      end
  end.

Definition sys_mkdir : FM Z := onfs fbegin_op;; make_node T_DIR 0 0.

Definition sys_mknod : FM Z :=
  onfs fbegin_op;;
  major ← argint args 1;
  minor ← argint args 2;
  make_node T_DEVICE (s16 major) (s16 minor).

Definition sys_chdir : FM Z :=
  onfs fbegin_op;;
  a ← onusr (argstr args 0 MAXPATH);
  match a with
  | None => onfs fend_op;; mret (-1)
  | Some (_, path) =>
      o ← onfs (namei path);
      match o with
      | None => onfs fend_op;; mret (-1)
      | Some ip =>
          onfs (ilock ip);;
          x ← onfs (iof ip);
          if negb (i_type x =? T_DIR) then onfs (iunlockput ip);; onfs fend_op;; mret (-1)
          else
            onfs (iunlock ip);;
            c ← onfs (gets cwd);
            onfs (iput c);;
            onfs fend_op;;
            onfs (modify (set_cwd ip));;
            mret 0
      end
  end.

Definition sys_pipe : FM Z :=
  fdarray ← argaddr args 0;
  p ← pipealloc;
  match p with
  | None => mret (-1)
  | Some (rf, wf) =>
      fd0 ← fdalloc rf;
      fd1 ← (if fd0 <? 0 then mret (-1) else fdalloc wf);
      if (fd0 <? 0) || (fd1 <? 0) then
        (if 0 <=? fd0 then clear_fd (Z.to_nat fd0) else mret tt);;
        fileclose rf;;
        fileclose wf;;
        mret (-1)
      else
        r0 ← onusr (ucopyout fdarray (le_bytes 4 fd0));
        r1 ← (if r0 <? 0 then mret (-1) else onusr (ucopyout (u64 (fdarray + 4)) (le_bytes 4 fd1)));
        if (r0 <? 0) || (r1 <? 0) then
          clear_fd (Z.to_nat fd0);;
          clear_fd (Z.to_nat fd1);;
          fileclose rf;;
          fileclose wf;;
          mret (-1)
        else mret 0
  end.

Definition sys_symlink : FM Z :=
  a ← onusr (argstr args 0 MAXPATH);
  match a with
  | None => mret (-1)
  | Some (n, target) =>
      b ← onusr (argstr args 1 MAXPATH);
      match b with
      | None => mret (-1)
      | Some (_, path) =>
          onfs fbegin_op;;
          o ← create path T_SYMLINK 0 0;
          match o with
          | None => onfs fend_op;; mret (-1)
          | Some ip =>
              onfs (modify (set_kbuf target));;
              w ← onfs (writei ip false 0 0 n);
              if negb (w =? n) then onfs (iunlockput ip);; onfs fend_op;; mret (-1)
              else onfs (iunlockput ip);; onfs fend_op;; mret 0
          end
      end
  end.
End Calls.
