(* ===== verification/Shell.v ===== *)
(** The shell, user/sh.c: its lexer and parser against a grammar, the strings that
    nulterminate leaves, and the processes and descriptors of a command that runs.
    malloc is taken to have memory for every node: the code does not test for a null
    pointer before it writes through it. *)
From S2P Require Import Prelude CStrings Sysfile.
Local Open Scope Z_scope.

Definition MAXARGS : nat := 10.

Definition BAR : Z := 124.
Definition LPAREN : Z := 40.
Definition RPAREN : Z := 41.
Definition SEMI : Z := 59.
Definition AMP : Z := 38.
Definition LESS : Z := 60.
Definition MORE : Z := 62.
Definition PLUS : Z := 43.
Definition LETTER : Z := 97.

(** [whitespace] and [symbols]. *)
Definition whitespace : list Z := [32; 9; 13; 10; 11].
Definition symbols : list Z := [LESS; BAR; MORE; AMP; SEMI; LPAREN; RPAREN].

(** [strchr(set, c) != 0]. *)
Definition has (set : list Z) (c : Z) : bool :=
  match strchr (set ++ [0]) c with Some (Some _) => true | _ => false end.

(** A word of the line: the offsets of its start and of its end. *)
Definition word : Type := nat * nat.

(** [struct cmd] and its kinds. *)
Inductive cmd :=
  | EXEC (argv : list word)
  | REDIR (c : cmd) (file : word) (mode fd : Z)
  | PIPE (left right : cmd)
  | LIST (left right : cmd)
  | BACK (c : cmd).

(** A redirection to put around a command. *)
Definition redir : Type := word * Z * Z.
Definition wrap (c : cmd) (r : redir) : cmd := REDIR c r.1.1 r.1.2 r.2.
Definition wrap_all (c : cmd) (rs : list redir) : cmd := foldl wrap c rs.

Section Parser.
(** The characters of the line before the terminator. *)
Context (line : list Z).

Definition es : nat := length line.

(** [*s] *)
Definition deref (s : nat) : M nat Z :=
  match line !! s with
  | Some c => mret c
  | None => if decide (s = es) then mret 0 else undef "past the line"
  end.

(** [while(s < es && f( *s)) s++] *)
Fixpoint span (f : Z -> bool) (l : list Z) : nat :=
  match l with [] => O | c :: l' => if f c then S (span f l') else O end.
Definition skip (f : Z -> bool) (s : nat) : nat := (s + span f (drop s line))%nat.
Definition in_word (c : Z) : bool := negb (has whitespace c) && negb (has symbols c).

Definition set_ps (s : nat) : M nat unit := modify (fun _ => s).

(** The state is [*ps]; the result, the token and its ends. *)
Definition gettoken : M nat (Z * nat * nat) :=
  ps ← gets id;
  let q := skip (has whitespace) ps in
  c ← deref q;
  r ← (if c =? 0 then mret (c, q)
       else if has [BAR; LPAREN; RPAREN; SEMI; AMP; LESS] c then mret (c, S q)
       else if c =? MORE then
         c' ← deref (S q);
         mret (if c' =? MORE then (PLUS, S (S q)) else (c, S q))
       else mret (LETTER, skip in_word q));
  set_ps (skip (has whitespace) r.2);;
  mret (r.1, q, r.2).

Definition peek (toks : list Z) : M nat bool :=
  ps ← gets id;
  let s := skip (has whitespace) ps in
  set_ps s;;
  c ← deref s;
  mret (negb (c =? 0) && has toks c).

Definition redir_of (tok : Z) (w : word) : option redir :=
  if tok =? LESS then Some (w, O_RDONLY, 0)
  else if tok =? MORE then Some (w, Z.lor (Z.lor O_WRONLY O_CREATE) O_TRUNC, 1)
  else if tok =? PLUS then Some (w, Z.lor O_WRONLY O_CREATE, 1)
  else None.

Definition parseredirs_body (rs : list redir) : M nat (list redir + list redir) :=
  b ← peek [LESS; MORE];
  if (b : bool) then
    tok ← gettoken;
    t ← gettoken;
    let '(a, q, eq) := t in
    if negb (a =? LETTER) then panic "missing file for redirection"
    else mret (inl (rs ++ match redir_of tok.1.1 (q, eq) with Some r => [r] | None => [] end))
  else mret (inr rs).

(** The redirections that parseredirs puts around its command. *)
Definition parseredirs : M nat (list redir) := loop (S (S es)) parseredirs_body [].

(** The loop of parseexec: the arguments and the redirections so far.  The
    redirections are put around the command whose argv the loop fills. *)
Definition parseargs_body (x : list word * list redir) : M nat (list word * list redir + list word * list redir) :=
  let '(args, rs) := x in
  b ← peek [BAR; RPAREN; AMP; SEMI];
  if (b : bool) then mret (inr x)
  else
    t ← gettoken;
    let '(tok, q, eq) := t in
    if tok =? 0 then mret (inr x)
    else if negb (tok =? LETTER) then panic "syntax"
    else
      let args := args ++ [(q, eq)] in
      if decide (MAXARGS <= length args)%nat then panic "too many args"
      else rs' ← parseredirs; mret (inl (args, rs ++ rs')).

Definition amps_body (c : cmd) : M nat (cmd + cmd) :=
  b ← peek [AMP]; if (b : bool) then gettoken;; mret (inl (BACK c)) else mret (inr c).
Definition amps (c : cmd) : M nat cmd := loop (S (S es)) amps_body c.

Fixpoint parseline (n : nat) : M nat cmd :=
  match n with
  | O => fun _ _ => OutOfFuel
  | S n =>
      c ← parsepipe n;
      c ← amps c;
      b ← peek [SEMI];
      if (b : bool) then gettoken;; c' ← parseline n; mret (LIST c c') else mret c
  end
with parsepipe (n : nat) : M nat cmd :=
  match n with
  | O => fun _ _ => OutOfFuel
  | S n =>
      c ← parseexec n;
      b ← peek [BAR];
      if (b : bool) then gettoken;; c' ← parsepipe n; mret (PIPE c c') else mret c
  end
with parseexec (n : nat) : M nat cmd :=
  match n with
  | O => fun _ _ => OutOfFuel
  | S n =>
      b ← peek [LPAREN];
      if (b : bool) then parseblock n
      else
        rs ← parseredirs;
        x ← loop (S (S es)) parseargs_body ([], rs);
        mret (wrap_all (EXEC x.1) x.2)
  end
with parseblock (n : nat) : M nat cmd :=
  match n with
  | O => fun _ _ => OutOfFuel
  | S n =>
      b ← peek [LPAREN];
      if negb b then panic "parseblock"
      else
        gettoken;;
        c ← parseline n;
        b ← peek [RPAREN];
        if negb b then panic "syntax - missing )"
        else
          gettoken;;
          rs ← parseredirs;
          mret (wrap_all c rs)
  end.

(** The stores of nulterminate to the line and its terminator. *)
Definition cut (buf : list Z) (w : word) : list Z := <[w.2 := 0]> buf.
Fixpoint nulterminate (c : cmd) (buf : list Z) : list Z :=
  match c with
  | EXEC argv => foldl cut buf argv
  | REDIR c file _ _ => cut (nulterminate c buf) file
  | PIPE l r | LIST l r => nulterminate r (nulterminate l buf)
  | BACK c => nulterminate c buf
  end.

(** The command and the line it points into. *)
Definition parsecmd : M nat (cmd * list Z) :=
  c ← parseline (4 * es + 4);
  peek [];;
  s ← gets id;
  if decide (s <> es) then panic "syntax" else mret (c, nulterminate c (line ++ [0])).

(** * Tokens *)
Inductive token := Word (w : word) | Sym (c : Z).

(** The tokens from offset [p] on. *)
Fixpoint lex (n p : nat) : list token :=
  match n with
  | O => []
  | S n =>
      let s := skip (has whitespace) p in
      match line !! s with
      | None => []
      | Some c =>
          if has [BAR; LPAREN; RPAREN; SEMI; AMP; LESS] c then Sym c :: lex n (S s)
          else if c =? MORE then if decide (line !! S s = Some MORE) then Sym PLUS :: lex n (S (S s)) else Sym MORE :: lex n (S s)
          else Word (s, skip in_word s) :: lex n (skip in_word s)
      end
  end.
Definition toks (p : nat) : list token := lex (S es) p.

Lemma span_le f l : (span f l <= length l)%nat.
Proof. induction l as [|c l IH]; simpl; [done|]. destruct (f c); simpl; lia. Qed.

Lemma skip_range f s : (s <= es)%nat -> (s <= skip f s <= es)%nat.
Proof. intros Hs. unfold skip. pose proof (span_le f (drop s line)). rewrite length_drop in *. unfold es in *. lia. Qed.

Lemma span_stop f l c : drop (span f l) l !! O = Some c -> f c = false.
Proof. induction l as [|x l IH]; simpl; [done|]. destruct (f x) eqn:E; simpl; [done|]. by intros [= <-]. Qed.

Lemma skip_stop f s c : line !! skip f s = Some c -> f c = false.
Proof. intros H. apply (span_stop f (drop s line)). rewrite drop_drop, lookup_drop. by rewrite Nat.add_0_r. Qed.

Lemma span_in f l i c : (i < span f l)%nat -> l !! i = Some c -> f c = true.
Proof. revert i. induction l as [|x l IH]; intros i; simpl; [lia|]. destruct (f x) eqn:E; [|lia]. destruct i; simpl; [by intros _ [= <-]|]. intros ?. apply IH. lia. Qed.

Lemma skip_in f s i c : (s <= i < skip f s)%nat -> line !! i = Some c -> f c = true.
Proof.
  unfold skip. intros Hi Hc. apply (span_in f (drop s line) (i - s)); [lia|]. rewrite lookup_drop. by replace (s + (i - s))%nat with i by lia.
Qed.

Lemma skip_skip f s : skip f (skip f s) = skip f s.
Proof.
  unfold skip at 1. destruct (drop (skip f s) line) as [|c l] eqn:E; simpl; [lia|]. rewrite (skip_stop f s c); [lia|].
  rewrite <- (Nat.add_0_r (skip f s)), <- lookup_drop, E. done.
Qed.

Lemma skip_more f s c : line !! s = Some c -> f c = true -> (s < skip f s)%nat.
Proof. intros Hc Hf. unfold skip. rewrite (drop_S line c s Hc). simpl. rewrite Hf. lia. Qed.

Lemma has_spec set c : 0 ∉ set -> has set c = true <-> c ∈ set.
Proof.
  intros H0. unfold has. induction set as [|x set IH]; simpl; [set_solver|]. apply not_elem_of_cons in H0 as [Hx H0]. rewrite decide_False by done.
  destruct (decide (x = c)) as [->|Hne]; [set_solver|]. rewrite elem_of_cons, <- IH by done. destruct (strchr (set ++ [0]) c) as [[|]|]; simpl; naive_solver.
Qed.

(** A character that starts a token. *)
Lemma char_cases c : has whitespace c = false -> has [BAR; LPAREN; RPAREN; SEMI; AMP; LESS] c = true \/ c = MORE \/
  has [BAR; LPAREN; RPAREN; SEMI; AMP; LESS] c = false /\ c <> MORE /\ in_word c = true.
Proof.
  intros Hw. destruct (has [_; _; _; _; _; _] c) eqn:E; [by left|]. destruct (decide (c = MORE)) as [->|Hne]; [by right; left|]. right; right. split_and!; try done.
  unfold in_word. rewrite Hw. simpl. apply negb_true_iff. destruct (has symbols c) eqn:Es; [|done]. exfalso. apply not_true_iff_false in E. apply E.
  apply has_spec in Es; [|by vm_compute; set_solver]. apply has_spec; [by vm_compute; set_solver|]. unfold symbols in Es. set_solver.
Qed.

Lemma lex_enough n m p : (p <= es)%nat -> (es - p < n)%nat -> (es - p < m)%nat -> lex n p = lex m p.
Proof.
  revert m p. induction n as [|n IH]; intros m p Hp Hn Hm; [lia|]. destruct m as [|m]; [lia|]. simpl.
  pose proof (skip_range (has whitespace) p Hp) as Hs. set (s := skip (has whitespace) p) in *. destruct (line !! s) as [c|] eqn:Ec; [|done].
  pose proof (lookup_lt_Some _ _ _ Ec) as Hlt. change (length line) with es in Hlt.
  destruct (char_cases c (skip_stop _ _ _ Ec)) as [->|[->|(-> & Hne & Hw)]].
  - f_equal. apply IH; lia.
  - simpl. case_decide as E; [|f_equal; apply IH; lia]. apply lookup_lt_Some in E. change (length line) with es in E. f_equal. apply IH; lia.
  - rewrite (proj2 (Z.eqb_neq _ _)) by done. pose proof (skip_more _ _ _ Ec Hw). pose proof (skip_range in_word s). f_equal. apply IH; lia.
Qed.

#[local] Notation ws := (skip (has whitespace)).
#[local] Notation simple := [BAR; LPAREN; RPAREN; SEMI; AMP; LESS].

Lemma toks_skip p : (p <= es)%nat -> toks (ws p) = toks p.
Proof. intros Hp. unfold toks. cbn [lex]. by rewrite skip_skip. Qed.

Lemma toks_unfold p : (p <= es)%nat -> toks p =
  match line !! ws p with
  | None => []
  | Some c =>
      if has simple c then Sym c :: toks (S (ws p))
      else if c =? MORE then if decide (line !! S (ws p) = Some MORE) then Sym PLUS :: toks (S (S (ws p))) else Sym MORE :: toks (S (ws p))
      else Word (ws p, skip in_word (ws p)) :: toks (skip in_word (ws p))
  end.
Proof.
  intros Hp. pose proof (skip_range (has whitespace) p Hp) as Hs. unfold toks. cbn [lex]. fold lex. set (s := ws p) in *. destruct (line !! s) as [c|] eqn:Ec; [|done].
  pose proof (lookup_lt_Some _ _ _ Ec) as Hlt. change (length line) with es in Hlt.
  destruct (char_cases c (skip_stop _ _ _ Ec)) as [->|[->|(-> & Hne & Hw)]].
  - f_equal. apply (lex_enough es (S es)); lia.
  - simpl. case_decide as E; [|f_equal; apply (lex_enough es (S es)); lia].
    apply lookup_lt_Some in E. change (length line) with es in E. f_equal. apply (lex_enough es (S es)); lia.
  - rewrite (proj2 (Z.eqb_neq _ _)) by done. pose proof (skip_more _ _ _ Ec Hw). pose proof (skip_range in_word s). f_equal. apply (lex_enough es (S es)); lia.
Qed.

(** The next token. *)
Lemma toks_cases p : (p <= es)%nat ->
  ws p = es /\ toks p = [] \/
  (exists c, line !! ws p = Some c /\ has simple c = true /\ (S (ws p) <= es)%nat /\ toks p = Sym c :: toks (S (ws p))) \/
  line !! ws p = Some MORE /\ (S (ws p) <= es)%nat /\
    (line !! S (ws p) = Some MORE /\ (S (S (ws p)) <= es)%nat /\ toks p = Sym PLUS :: toks (S (S (ws p))) \/
     line !! S (ws p) <> Some MORE /\ toks p = Sym MORE :: toks (S (ws p))) \/
  (exists c, line !! ws p = Some c /\ has simple c = false /\ c <> MORE /\ in_word c = true /\ (ws p < skip in_word (ws p) <= es)%nat /\
     toks p = Word (ws p, skip in_word (ws p)) :: toks (skip in_word (ws p))).
Proof.
  intros Hp. pose proof (skip_range (has whitespace) p Hp) as Hs. rewrite (toks_unfold p Hp). set (s := ws p) in *.
  destruct (line !! s) as [c|] eqn:Ec; [|left; apply lookup_ge_None in Ec; change (length line) with es in Ec; split; [lia|done]].
  pose proof (lookup_lt_Some _ _ _ Ec) as Hlt. change (length line) with es in Hlt. right.
  destruct (char_cases c (skip_stop _ _ _ Ec)) as [E|[->|(E & Hne & Hw)]].
  - left. exists c. by rewrite E.
  - right; left. change (has simple MORE) with false. rewrite Z.eqb_refl. split_and!; try done. case_decide as E; [left|by right].
    pose proof (lookup_lt_Some _ _ _ E) as Hl2. by change (length line) with es in Hl2.
  - right; right. exists c. rewrite E. rewrite (proj2 (Z.eqb_neq _ _)) by done. pose proof (skip_more _ _ _ Ec Hw). pose proof (skip_range in_word s).
    split_and!; try done; lia.
Qed.

Lemma deref_at s c L p : line !! s = Some c -> wp (deref s) L p (fun r p' => r = c /\ p' = p).
Proof. intros E. unfold deref. rewrite E. by wsteps. Qed.

Lemma deref_end L p : wp (deref es) L p (fun r p' => r = 0 /\ p' = p).
Proof. unfold deref. rewrite lookup_ge_None_2 by done. rewrite decide_True by done. by wsteps. Qed.

Lemma deref_ok s L p : (s <= es)%nat -> wp (deref s) L p (fun r p' => r = default 0 (line !! s) /\ p' = p).
Proof.
  intros Hs. destruct (line !! s) as [c|] eqn:E; [by eapply wp_mono; [apply (deref_at s c)|]|]. apply lookup_ge_None in E. change (length line) with es in E.
  replace s with es by lia. eapply wp_mono; [apply deref_end|]. done.
Qed.

Lemma toks_length p : (p <= es)%nat -> (length (toks p) <= es - p)%nat.
Proof.
  unfold toks. generalize (S es) as n. intros n. revert p. induction n as [|n IH]; intros p Hp; simpl; [lia|].
  pose proof (skip_range (has whitespace) p Hp) as Hs. set (s := ws p) in *. destruct (line !! s) as [c|] eqn:Ec; [|simpl; lia].
  pose proof (lookup_lt_Some _ _ _ Ec) as Hlt. change (length line) with es in Hlt.
  destruct (char_cases c (skip_stop _ _ _ Ec)) as [->|[->|(-> & Hne & Hw)]].
  - simpl. specialize (IH (S s)). lia.
  - simpl. case_decide as E; simpl; [|specialize (IH (S s)); lia]. apply lookup_lt_Some in E. change (length line) with es in E. specialize (IH (S (S s))). lia.
  - rewrite (proj2 (Z.eqb_neq _ _)) by done. simpl. pose proof (skip_more _ _ _ Ec Hw). pose proof (skip_range in_word s). specialize (IH (skip in_word s)). lia.
Qed.

Context (Hnul : 0 ∉ line).

Lemma nonzero s c : line !! s = Some c -> c <> 0.
Proof using Hnul. intros E ->. apply Hnul. by eapply list_elem_of_lookup_2. Qed.

(** The characters of symbols as peek sees them. *)
Definition sym_char (c : Z) : Z := if c =? PLUS then MORE else c.

Definition starts (set : list Z) (ts : list token) : bool :=
  match ts with Sym c :: _ => has set (sym_char c) | _ => false end.

Lemma peek_wp set L p : (p <= es)%nat -> (forall c, c ∈ set -> c ∈ symbols) ->
  wp (peek set) L p (fun b p' => (p' <= es)%nat /\ toks p' = toks p /\ b = starts set (toks p)).
Proof using Hnul.
  intros Hp Hset. pose proof (skip_range (has whitespace) p Hp) as Hs. unfold peek, set_ps. wsteps. change (id p) with p.
  eapply wpl_call; [apply deref_ok; lia|]. intros c p' [-> ->]. wsteps. split; [done|]. split; [lia|]. split; [by apply toks_skip|].
  assert (H0 : 0 ∉ set) by (intros H0%Hset; unfold symbols in H0; set_solver).
  destruct (toks_cases p Hp) as [[E ->]|[(c & E & Hc & _ & ->)|[(E & _ & Ht)|(c & E & Hc & Hne & Hw & _ & ->)]]].
  - rewrite E, lookup_ge_None_2 by done. done.
  - rewrite E. simpl. rewrite (proj2 (Z.eqb_neq _ _)) by by eapply nonzero. simpl. unfold sym_char. destruct (Z.eqb_spec c PLUS) as [->|]; [by vm_compute in Hc|done].
  - rewrite E. simpl. destruct Ht as [(_ & _ & ->)|(_ & ->)]; done.
  - rewrite E. simpl. rewrite (proj2 (Z.eqb_neq _ _)) by by eapply nonzero. simpl. apply not_true_iff_false. rewrite has_spec by done. intros Hcs%Hset.
    unfold in_word in Hw. apply andb_true_iff in Hw as [_ Hw]. apply negb_true_iff, not_true_iff_false in Hw. apply Hw, has_spec; [unfold symbols; set_solver|done].
Qed.

Lemma gettoken_wp L p : (p <= es)%nat -> wp gettoken L p (fun r p' => (p' <= es)%nat /\
  match toks p with
  | [] => r.1.1 = 0 /\ toks p' = []
  | Sym c :: ts => r.1.1 = c /\ c <> 0 /\ c <> LETTER /\ toks p' = ts
  | Word w :: ts => r = (LETTER, w.1, w.2) /\ toks p' = ts
  end).
Proof using Hnul.
  intros Hp. pose proof (skip_range (has whitespace) p Hp) as Hs. unfold gettoken, set_ps. wsteps. change (id p) with p.
  eapply wpl_call; [apply deref_ok; lia|]. intros c p' [-> ->]. wstep.
  destruct (toks_cases p Hp) as [[E ->]|[(c & E & Hc & Hle & ->)|[(E & Hle & Ht)|(c & E & Hc & Hne & Hw & Hle & ->)]]]; rewrite E; simpl default.
  - rewrite lookup_ge_None_2 by done. simpl. wsteps. split; [done|]. cbn [fst snd]. split; [apply skip_range; lia|]. split; [done|]. rewrite toks_skip by lia.
    rewrite <- E, toks_skip by done. destruct (toks_cases p Hp) as [[_ ?]|Hc]; [done|]. exfalso.
    destruct Hc as [(c & Hc & _)|[(Hc & _)|(c & Hc & _)]]; rewrite E, lookup_ge_None_2 in Hc by done; done.
  - rewrite (proj2 (Z.eqb_neq _ _)), Hc by by eapply nonzero. wsteps. split; [done|]. cbn [fst snd]. split; [apply skip_range; lia|]. split; [done|].
    split; [by eapply nonzero|]. split; [intros ->; by vm_compute in Hc|]. by apply toks_skip.
  - simpl. wstep. eapply wpl_call; [by apply deref_ok|]. intros c p' [-> ->]. wsteps. split; [done|].
    destruct Ht as [(E2 & Hle2 & ->)|(E2 & ->)].
    + rewrite E2. simpl. split; [by apply skip_range|]. split_and!; try done. by apply toks_skip.
    + destruct (Z.eqb_spec (default 0 (line !! S (ws p))) MORE) as [Hm|_].
      { destruct (line !! S (ws p)) as [c|]; simpl in Hm; [by subst c|done]. }
      simpl. split; [by apply skip_range|]. split_and!; try done. by apply toks_skip.
  - rewrite (proj2 (Z.eqb_neq _ _)), Hc, (proj2 (Z.eqb_neq _ _)) by first [done|by eapply nonzero]. wsteps. split; [done|]. cbn [fst snd].
    split; [apply skip_range; lia|]. split; [done|]. apply toks_skip. lia.
Qed.

End Parser.

(** * The grammar

    [Sym PLUS] is the token [>>].  Redirections may stand between the arguments;
    an empty command is an EXEC without arguments. *)
Inductive g_redirs : list token -> list redir -> Prop :=
  | g_redirs_nil : g_redirs [] []
  | g_redirs_cons op w r ts rs : redir_of op w = Some r -> g_redirs ts rs -> g_redirs (Sym op :: Word w :: ts) (r :: rs).

Inductive g_args : list token -> list word -> list redir -> Prop :=
  | g_args_nil : g_args [] [] []
  | g_args_cons w tr rs ts args rs' : g_redirs tr rs -> g_args ts args rs' -> g_args (Word w :: tr ++ ts) (w :: args) (rs ++ rs').

Fixpoint backs (k : nat) (c : cmd) : cmd := match k with O => c | S k => backs k (BACK c) end.

Inductive g_line : list token -> cmd -> Prop :=
  | g_line_one ts c k : g_pipe ts c -> g_line (ts ++ replicate k (Sym AMP)) (backs k c)
  | g_line_seq ts c k ts' c' : g_pipe ts c -> g_line ts' c' -> g_line (ts ++ replicate k (Sym AMP) ++ Sym SEMI :: ts') (LIST (backs k c) c')
with g_pipe : list token -> cmd -> Prop :=
  | g_pipe_one ts c : g_exec ts c -> g_pipe ts c
  | g_pipe_cons ts c ts' c' : g_exec ts c -> g_pipe ts' c' -> g_pipe (ts ++ Sym BAR :: ts') (PIPE c c')
with g_exec : list token -> cmd -> Prop :=
  | g_exec_block ts c tr rs : g_line ts c -> g_redirs tr rs -> g_exec (Sym LPAREN :: ts ++ Sym RPAREN :: tr) (wrap_all c rs)
  | g_exec_args tr rs ts args rs' : g_redirs tr rs -> g_args ts args rs' -> (length args < MAXARGS)%nat ->
      g_exec (tr ++ ts) (wrap_all (EXEC args) (rs ++ rs')).

Scheme g_line_mut := Induction for g_line Sort Prop with g_pipe_mut := Induction for g_pipe Sort Prop with g_exec_mut := Induction for g_exec Sort Prop.
Combined Scheme g_mut from g_line_mut, g_pipe_mut, g_exec_mut.

Section Correct.
Context (line : list Z) (Hnul : 0 ∉ line).
#[local] Notation es := (es line).
#[local] Notation toks := (toks line).

(** ** Every derivation is found *)

Lemma token_word L p w ts : (p <= es)%nat -> toks p = Word w :: ts ->
  wp (gettoken line) L p (fun r p' => r = (LETTER, w.1, w.2) /\ (p' <= es)%nat /\ toks p' = ts).
Proof using Hnul. intros Hp E. eapply wp_mono; [by apply gettoken_wp|]. rewrite E. naive_solver. Qed.

Lemma token_sym L p c ts : (p <= es)%nat -> toks p = Sym c :: ts ->
  wp (gettoken line) L p (fun r p' => r.1.1 = c /\ (p' <= es)%nat /\ toks p' = ts).
Proof using Hnul. intros Hp E. eapply wp_mono; [by apply gettoken_wp|]. rewrite E. naive_solver. Qed.

Lemma peek_at set L p b : (p <= es)%nat -> (forall c, c ∈ set -> c ∈ symbols) -> starts set (toks p) = b ->
  wp (peek line set) L p (fun r p' => r = b /\ (p' <= es)%nat /\ toks p' = toks p).
Proof using Hnul. intros Hp Hs <-. eapply wp_mono; [by apply peek_wp|]. naive_solver. Qed.

Lemma redir_op op w r : redir_of op w = Some r -> op = LESS \/ op = MORE \/ op = PLUS.
Proof. unfold redir_of. destruct (Z.eqb_spec op LESS), (Z.eqb_spec op MORE), (Z.eqb_spec op PLUS); tauto || done. Qed.

Ltac insyms := intros ? ?; unfold symbols; set_solver.

Lemma redirs_found ts rs : g_redirs ts rs -> forall fuel acc rest L p, (p <= es)%nat -> toks p = ts ++ rest -> starts [LESS; MORE] rest = false ->
  (length ts < fuel)%nat -> wp (loop fuel (parseredirs_body line) acc) L p (fun r p' => r = acc ++ rs /\ (p' <= es)%nat /\ toks p' = rest).
Proof using Hnul.
  induction 1 as [|op w r ts rs Hop Hg IH]; intros fuel acc rest L p Hp Ht Hst Hk; (destruct fuel as [|fuel]; [simpl in Hk; lia|]); rewrite loop_S; wsteps; unfold parseredirs_body at 1; wsteps.
  - eapply wpl_call; [apply (peek_at _ _ _ false); [done|insyms|by rewrite Ht]|]. intros ? p1 (-> & Hp1 & Ht1). wsteps. split; [done|]. split; [by rewrite app_nil_r|].
    split; [done|]. by rewrite Ht1, Ht.
  - eapply wpl_call; [apply (peek_at _ _ _ true); [done|insyms|rewrite Ht; by destruct (redir_op _ _ _ Hop) as [->|[->| ->]]]|]. intros ? p1 (-> & Hp1 & Ht1). wstep.
    rewrite Ht in Ht1. eapply wpl_call; [by apply (token_sym _ _ op (Word w :: ts ++ rest))|]. intros t p2 (E2 & Hp2 & Ht2). wstep.
    eapply wpl_call; [by apply (token_word _ _ w (ts ++ rest))|]. intros ? p3 (-> & Hp3 & Ht3). rewrite Z.eqb_refl. cbn [negb]. wsteps.
    rewrite E2, <- surjective_pairing, Hop. eapply wpl_call; [apply (IH _ (acc ++ [r]) rest); try done; simpl in Hk; lia|].
    intros r' p4 (-> & Hp4 & Ht4). split; [done|]. split; [by rewrite <- app_assoc|done].
Qed.

Lemma parseredirs_found ts rs rest L p : g_redirs ts rs -> (p <= es)%nat -> toks p = ts ++ rest -> starts [LESS; MORE] rest = false ->
  wp (parseredirs line) L p (fun r p' => r = rs /\ (p' <= es)%nat /\ toks p' = rest).
Proof using Hnul.
  intros Hg Hp Ht Hs. apply (redirs_found ts rs); try done. pose proof (toks_length line p Hp) as Hl. rewrite Ht, length_app in Hl. lia.
Qed.

(** What follows is empty or one of the symbols. *)
Definition ends (set : list Z) (rest : list token) : Prop :=
  match rest with [] => True | Sym c :: _ => c ∈ set | Word _ :: _ => False end.

Lemma ends_starts set set' rest : ends set rest -> forallb (fun c => negb (has set' (sym_char c))) set = true -> starts set' rest = false.
Proof.
  destruct rest as [|[w|c] rest]; simpl; try done. intros Hc Hb. rewrite forallb_forall in Hb. apply negb_true_iff, Hb. by apply list_elem_of_In.
Qed.

#[local] Notation stops := [BAR; RPAREN; AMP; SEMI].

Lemma args_redirs ts args rs rest : g_args ts args rs -> ends stops rest -> starts [LESS; MORE] (ts ++ rest) = false.
Proof. intros [|]; [|done]. intros He. by eapply ends_starts. Qed.

Lemma args_found ts args rs : g_args ts args rs -> forall fuel acc racc rest L p, (p <= es)%nat -> toks p = ts ++ rest -> ends stops rest ->
  (length acc + length args < MAXARGS)%nat -> (length ts < fuel)%nat ->
  wp (loop fuel (parseargs_body line) (acc, racc)) L p (fun r p' => r = (acc ++ args, racc ++ rs) /\ (p' <= es)%nat /\ toks p' = rest).
Proof using Hnul.
  induction 1 as [|w tr rs ts args rs' Hr Ha IH]; intros fuel acc racc rest L p Hp Ht He Hm Hk; (destruct fuel as [|fuel]; [simpl in Hk; lia|]); rewrite loop_S; wsteps; unfold parseargs_body at 1; wsteps.
  - rewrite !app_nil_r. simpl in Ht. destruct rest as [|[w|c] rest]; [| done |].
    + eapply wpl_call; [apply (peek_at _ _ _ false); [done|insyms|by rewrite Ht]|]. intros ? p1 (-> & Hp1 & Ht1). wstep.
      eapply wpl_call; [by apply gettoken_wp|]. rewrite Ht1, Ht. intros [[tok q] eq] p2 (Hp2 & E & Ht2). simpl in E. subst tok. wsteps. done.
    + eapply wpl_call; [apply (peek_at _ _ _ true); [done|insyms|]|]. { rewrite Ht. cbn [starts]. simpl in He. rewrite !elem_of_cons in He. destruct He as [->|[->|[->|[->|?%not_elem_of_nil]]]]; done. }
      intros ? p1 (-> & Hp1 & Ht1). wsteps. by rewrite Ht1, Ht.
  - eapply wpl_call; [apply (peek_at _ _ _ false); [done|insyms|by rewrite Ht]|]. intros ? p1 (-> & Hp1 & Ht1). wstep.
    rewrite Ht in Ht1. eapply wpl_call; [by apply (token_word _ _ w ((tr ++ ts) ++ rest))|]. intros ? p2 (-> & Hp2 & Ht2).
    change (LETTER =? 0) with false. change (negb (LETTER =? LETTER)) with false. cbv iota. rewrite length_app. simpl in Hm |- *. wfalse; [|lia]. wsteps.
    rewrite <- app_assoc in Ht2. eapply wpl_call; [apply (parseredirs_found tr rs (ts ++ rest)); try done; by eapply args_redirs|].
    intros ? p3 (-> & Hp3 & Ht3). wsteps. rewrite <- surjective_pairing. eapply wpl_call; [apply (IH _ (acc ++ [w]) (racc ++ rs) rest); try done|].
    + rewrite length_app. simpl. lia.
    + simpl in Hk. rewrite length_app in Hk. lia.
    + intros r p4 (-> & Hp4 & Ht4). split; [done|]. split; [by rewrite <- !app_assoc|done].
Qed.

Lemma amps_found k : forall fuel c rest L p, (p <= es)%nat -> toks p = replicate k (Sym AMP) ++ rest -> starts [AMP] rest = false -> (k < fuel)%nat ->
  wp (loop fuel (amps_body line) c) L p (fun r p' => r = backs k c /\ (p' <= es)%nat /\ toks p' = rest).
Proof using Hnul.
  induction k as [|k IH]; intros fuel c rest L p Hp Ht Hs Hk; (destruct fuel as [|fuel]; [lia|]); rewrite loop_S; wsteps; unfold amps_body at 1; wsteps.
  - eapply wpl_call; [apply (peek_at _ _ _ false); [done|insyms|by rewrite Ht]|]. intros ? p1 (-> & Hp1 & Ht1). wsteps. by rewrite Ht1, Ht.
  - eapply wpl_call; [apply (peek_at _ _ _ true); [done|insyms|by rewrite Ht]|]. intros ? p1 (-> & Hp1 & Ht1). wstep. rewrite Ht in Ht1.
    eapply wpl_call; [by apply (token_sym _ _ AMP (replicate k (Sym AMP) ++ rest))|]. intros t p2 (_ & Hp2 & Ht2). wsteps.
    eapply wpl_call; [apply (IH _ (BACK c) rest); try done; lia|]. done.
Qed.

Lemma parseline_S n : parseline line (S n) =
  (c ← parsepipe line n; c ← amps line c; b ← peek line [SEMI];
   if (b : bool) then gettoken line;; c' ← parseline line n; mret (LIST c c') else mret c).
Proof. done. Qed.
Lemma parsepipe_S n : parsepipe line (S n) =
  (c ← parseexec line n; b ← peek line [BAR]; if (b : bool) then gettoken line;; c' ← parsepipe line n; mret (PIPE c c') else mret c).
Proof. done. Qed.
Lemma parseexec_S n : parseexec line (S n) =
  (b ← peek line [LPAREN]; if (b : bool) then parseblock line n
   else rs ← parseredirs line; x ← loop (S (S es)) (parseargs_body line) ([], rs); mret (wrap_all (EXEC x.1) x.2)).
Proof. done. Qed.
Lemma parseblock_S n : parseblock line (S n) =
  (b ← peek line [LPAREN]; if negb b then panic "parseblock"
   else gettoken line;; c ← parseline line n; b ← peek line [RPAREN];
     if negb b then panic "syntax - missing )" else gettoken line;; rs ← parseredirs line; mret (wrap_all c rs)).
Proof. done. Qed.

(** [f] finds the derivation of [c] from [ts] when [set] is what may follow. *)
Definition finds (f : nat -> M nat cmd) (extra : nat) (set : list Z) (ts : list token) (c : cmd) : Prop :=
  forall n rest L p, (p <= es)%nat -> toks p = ts ++ rest -> ends set rest -> (4 * length (toks p) + extra <= n)%nat ->
    wp (f n) L p (fun r p' => r = c /\ (p' <= es)%nat /\ toks p' = rest).

Lemma head_found ts k c rest n L p : finds (parsepipe line) 3 [RPAREN; AMP; SEMI] ts c -> (p <= es)%nat -> toks p = ts ++ replicate k (Sym AMP) ++ rest ->
  ends [RPAREN; SEMI] rest -> (4 * length (toks p) + 3 <= n)%nat ->
  wp (c ← parsepipe line n; amps line c) L p (fun r p' => r = backs k c /\ (p' <= es)%nat /\ toks p' = rest).
Proof using Hnul.
  intros Hf Hp Ht He Hn. wsteps. eapply wpl_call; [apply (Hf _ (replicate k (Sym AMP) ++ rest)); try done|].
  { destruct k; [destruct rest as [|[]]; simpl in *; set_solver|simpl; set_solver]. }
  intros c' p1 (-> & Hp1 & Ht1). apply (amps_found k _ _ rest); try done; [by eapply ends_starts|].
  pose proof (toks_length line p1 Hp1) as Hl. rewrite Ht1, length_app, length_replicate in Hl. lia.
Qed.

Lemma line_found_one ts c k : finds (parsepipe line) 3 [RPAREN; AMP; SEMI] ts c -> finds (parseline line) 4 [RPAREN] (ts ++ replicate k (Sym AMP)) (backs k c).
Proof using Hnul.
  intros Hf [|n] rest L p Hp Ht He Hn; [lia|]. rewrite parseline_S. rewrite <- app_assoc in Ht. apply wp_intro, wpl_assoc. wstep.
  eapply wpl_call; [apply (head_found ts k c rest); try done; [destruct rest as [|[]]; simpl in *; set_solver|lia]|]. intros c' p1 (-> & Hp1 & Ht1). wstep.
  eapply wpl_call; [apply (peek_at _ _ _ false); [done|insyms|rewrite Ht1; by eapply ends_starts]|]. intros ? p2 (-> & Hp2 & Ht2). wsteps. by rewrite Ht2.
Qed.

Lemma line_found_seq ts c k ts' c' : finds (parsepipe line) 3 [RPAREN; AMP; SEMI] ts c -> finds (parseline line) 4 [RPAREN] ts' c' ->
  finds (parseline line) 4 [RPAREN] (ts ++ replicate k (Sym AMP) ++ Sym SEMI :: ts') (LIST (backs k c) c').
Proof using Hnul.
  intros Hf Hf' [|n] rest L p Hp Ht He Hn; [lia|]. rewrite parseline_S. rewrite <- !app_assoc in Ht. apply wp_intro, wpl_assoc. wstep.
  eapply wpl_call; [apply (head_found ts k c (Sym SEMI :: ts' ++ rest)); try done; [simpl; set_solver|lia]|]. intros c1 p1 (-> & Hp1 & Ht1). wstep.
  eapply wpl_call; [apply (peek_at _ _ _ true); [done|insyms|by rewrite Ht1]|]. intros ? p2 (-> & Hp2 & Ht2). wstep. rewrite Ht1 in Ht2.
  eapply wpl_call; [by apply (token_sym _ _ SEMI (ts' ++ rest))|]. intros t p3 (_ & Hp3 & Ht3). wstep.
  eapply wpl_call; [apply (Hf' _ rest); try done|].
  { rewrite Ht3. rewrite Ht in Hn. rewrite !length_app in *. simpl in *. rewrite ?length_app in Hn. lia. }
  intros c2 p4 (-> & Hp4 & Ht4). by wsteps.
Qed.

Lemma pipe_found_one ts c : finds (parseexec line) 2 stops ts c -> finds (parsepipe line) 3 [RPAREN; AMP; SEMI] ts c.
Proof using Hnul.
  intros Hf [|n] rest L p Hp Ht He Hn; [lia|]. rewrite parsepipe_S. wsteps.
  eapply wpl_call; [apply (Hf _ rest); try done; [destruct rest as [|[]]; simpl in *; set_solver|lia]|]. intros c1 p1 (-> & Hp1 & Ht1). wstep.
  eapply wpl_call; [apply (peek_at _ _ _ false); [done|insyms|rewrite Ht1; by eapply ends_starts]|]. intros ? p2 (-> & Hp2 & Ht2). wsteps. by rewrite Ht2.
Qed.

Lemma pipe_found_cons ts c ts' c' : finds (parseexec line) 2 stops ts c -> finds (parsepipe line) 3 [RPAREN; AMP; SEMI] ts' c' ->
  finds (parsepipe line) 3 [RPAREN; AMP; SEMI] (ts ++ Sym BAR :: ts') (PIPE c c').
Proof using Hnul.
  intros Hf Hf' [|n] rest L p Hp Ht He Hn; [lia|]. rewrite parsepipe_S. rewrite <- app_assoc in Ht. wsteps.
  eapply wpl_call; [apply (Hf _ (Sym BAR :: ts' ++ rest)); try done; [simpl; set_solver|lia]|]. intros c1 p1 (-> & Hp1 & Ht1). wstep.
  eapply wpl_call; [apply (peek_at _ _ _ true); [done|insyms|by rewrite Ht1]|]. intros ? p2 (-> & Hp2 & Ht2). wstep. rewrite Ht1 in Ht2.
  eapply wpl_call; [by apply (token_sym _ _ BAR (ts' ++ rest))|]. intros t p3 (_ & Hp3 & Ht3). wstep.
  eapply wpl_call; [apply (Hf' _ rest); try done|].
  { rewrite Ht3. rewrite Ht in Hn. rewrite !length_app in *. simpl in *. rewrite ?length_app in Hn. lia. }
  intros c2 p4 (-> & Hp4 & Ht4). by wsteps.
Qed.

Lemma exec_found_block ts c tr rs : finds (parseline line) 4 [RPAREN] ts c -> g_redirs tr rs ->
  finds (parseexec line) 2 stops (Sym LPAREN :: ts ++ Sym RPAREN :: tr) (wrap_all c rs).
Proof using Hnul.
  intros Hf Hr [|[|n]] rest L p Hp Ht He Hn; [lia|rewrite Ht in Hn; simpl in Hn; lia|]. rewrite parseexec_S. wsteps.
  eapply wpl_call; [apply (peek_at _ _ _ true); [done|insyms|by rewrite Ht]|]. intros ? p1 (-> & Hp1 & Ht1). rewrite parseblock_S. wsteps. rewrite Ht in Ht1.
  eapply wpl_call; [apply (peek_at _ _ _ true); [done|insyms|by rewrite Ht1]|]. intros ? p2 (-> & Hp2 & Ht2). cbn [negb]. wstep. rewrite Ht1 in Ht2.
  simpl in Ht2. rewrite <- app_assoc in Ht2. eapply wpl_call; [by apply (token_sym _ _ LPAREN (ts ++ Sym RPAREN :: tr ++ rest))|]. intros t p3 (_ & Hp3 & Ht3). wstep.
  eapply wpl_call; [apply (Hf _ (Sym RPAREN :: tr ++ rest)); try done; [simpl; set_solver|]|].
  { rewrite Ht3. rewrite Ht in Hn. simpl in Hn. rewrite !length_app in *. simpl in *. rewrite ?length_app in *. lia. }
  intros c1 p4 (-> & Hp4 & Ht4). wstep.
  eapply wpl_call; [apply (peek_at _ _ _ true); [done|insyms|by rewrite Ht4]|]. intros ? p5 (-> & Hp5 & Ht5). cbn [negb]. wstep. rewrite Ht4 in Ht5.
  eapply wpl_call; [by apply (token_sym _ _ RPAREN (tr ++ rest))|]. intros t' p6 (_ & Hp6 & Ht6). wstep.
  eapply wpl_call; [apply (parseredirs_found tr rs rest); try done; by eapply ends_starts|]. intros ? p7 (-> & Hp7 & Ht7). by wsteps.
Qed.

Lemma exec_found_args tr rs ts args rs' : g_redirs tr rs -> g_args ts args rs' -> (length args < MAXARGS)%nat ->
  finds (parseexec line) 2 stops (tr ++ ts) (wrap_all (EXEC args) (rs ++ rs')).
Proof using Hnul.
  intros Hr Ha Hm [|n] rest L p Hp Ht He Hn; [lia|]. rewrite parseexec_S. rewrite <- app_assoc in Ht. wsteps.
  assert (Hst : starts [LPAREN] (tr ++ ts ++ rest) = false).
  { destruct Hr as [|op w r tr rs Hop _]; [|by destruct (redir_op _ _ _ Hop) as [->|[->| ->]]]. destruct Ha; [|done]. by eapply ends_starts. }
  eapply wpl_call; [apply (peek_at _ _ _ false); [done|insyms|by rewrite Ht]|]. intros ? p1 (-> & Hp1 & Ht1). wstep. rewrite Ht in Ht1.
  eapply wpl_call; [apply (parseredirs_found tr rs (ts ++ rest)); try done; by eapply args_redirs|]. intros ? p2 (-> & Hp2 & Ht2). wstep.
  eapply wpl_call; [apply (args_found ts args rs' Ha _ [] rs rest); try done|].
  { pose proof (toks_length line p2 Hp2) as Hl. rewrite Ht2, length_app in Hl. lia. }
  intros ? p3 (-> & Hp3 & Ht3). by wsteps.
Qed.

Lemma grammar_found :
  (forall ts c, g_line ts c -> finds (parseline line) 4 [RPAREN] ts c) /\
  (forall ts c, g_pipe ts c -> finds (parsepipe line) 3 [RPAREN; AMP; SEMI] ts c) /\
  (forall ts c, g_exec ts c -> finds (parseexec line) 2 stops ts c).
Proof using Hnul.
  apply g_mut; intros.
  - by apply line_found_one.
  - by apply line_found_seq.
  - by apply pipe_found_one.
  - by apply pipe_found_cons.
  - by apply exec_found_block.
  - by apply exec_found_args.
Qed.

(** ** What is found is a derivation, and the parser always ends *)

Lemma g_redirs_snoc ts rs op w r : g_redirs ts rs -> redir_of op w = Some r -> g_redirs (ts ++ [Sym op; Word w]) (rs ++ [r]).
Proof. induction 1; intros Hop; simpl; constructor; try done; [constructor|auto]. Qed.

Lemma g_args_snoc ts args rs w tr rs' : g_args ts args rs -> g_redirs tr rs' -> g_args (ts ++ Word w :: tr) (args ++ [w]) (rs ++ rs').
Proof.
  induction 1 as [|w1 tr1 rs1 ts args rs2 H1 H2 IH]; intros Hr.
  - simpl. replace tr with (tr ++ []) at 1 by apply app_nil_r. replace rs' with (rs' ++ []) by apply app_nil_r. constructor; [done|constructor].
  - simpl. rewrite <- !app_assoc. constructor; auto.
Qed.

Lemma backs_S k c : backs (S k) c = BACK (backs k c).
Proof. revert c. induction k as [|k IH]; intros c; [done|]. simpl. apply (IH (BACK c)). Qed.

Lemma starts_sym set ts : starts set ts = true -> exists c ts', ts = Sym c :: ts' /\ has set (sym_char c) = true.
Proof. destruct ts as [|[w|c] ts]; simpl; try done. intros H. by exists c, ts. Qed.

Lemma peek_safe set L p : (p <= es)%nat -> (forall c, c ∈ set -> c ∈ symbols) ->
  safe (peek line set) L p (fun b p' => (p' <= es)%nat /\ toks p' = toks p /\ b = starts set (toks p)).
Proof using Hnul. intros. by apply safe_wp, peek_wp. Qed.

Lemma sym_safe L p c ts : (p <= es)%nat -> toks p = Sym c :: ts -> safe (gettoken line) L p (fun r p' => r.1.1 = c /\ (p' <= es)%nat /\ toks p' = ts).
Proof using Hnul. intros. by apply safe_wp, token_sym. Qed.

Lemma redir_of_some c w : has [LESS; MORE] (sym_char c) = true -> exists r, redir_of c w = Some r.
Proof.
  intros Hc. apply has_spec in Hc; [|unfold LESS, MORE; set_solver]. unfold sym_char in Hc. unfold redir_of.
  destruct (Z.eqb_spec c PLUS) as [->|]; [eexists; reflexivity|]. rewrite !elem_of_cons in Hc. destruct Hc as [->|[->|?%not_elem_of_nil]]; [eexists; reflexivity|eexists; reflexivity|done].
Qed.

Lemma parseredirs_safe L p : (p <= es)%nat -> safe (parseredirs line) L p (fun rs p' => (p' <= es)%nat /\ exists ts, toks p = ts ++ toks p' /\ g_redirs ts rs).
Proof using Hnul.
  intros Hp. apply (safe_loop (fun rs p' => (p' <= es)%nat /\ exists ts, toks p = ts ++ toks p' /\ g_redirs ts rs) (fun _ p' => length (toks p'))).
  2:{ split; [done|]. exists []. split; [done|constructor]. }
  2:{ pose proof (toks_length line p Hp). lia. }
  intros rs p1 (Hp1 & ts & Ht & Hg). unfold parseredirs_body. eapply safe_bind; [apply peek_safe; [done|insyms]|].
  intros b p2 (Hp2 & Ht2 & ->). destruct (starts _ _) eqn:Es; [|apply safe_ret; rewrite Ht2; by split; [|exists ts]].
  apply starts_sym in Es as (c & ts1 & Ets & Hc). rewrite Ets in Ht2. eapply safe_bind; [by eapply sym_safe|]. intros t p3 (E3 & Hp3 & Ht3). cbv beta.
  eapply safe_bind; [by apply safe_wp, gettoken_wp|]. intros [[a q] eq] p4 [Hp4 Ht4]. rewrite Ht3 in Ht4. destruct ts1 as [|[w|c2] ts1].
  - destruct Ht4 as [E _]. simpl in E. subst a. apply safe_panic.
  - destruct Ht4 as [E Ht4]. injection E as -> -> ->. rewrite Z.eqb_refl. cbn [negb]. rewrite E3, <- surjective_pairing.
    destruct (redir_of_some c w Hc) as [r Hr]. rewrite Hr. apply safe_ret. split; [|rewrite Ets, Ht4; simpl; lia]. split; [done|].
    exists (ts ++ [Sym c; Word w]). split; [rewrite Ht, Ets, Ht4, <- app_assoc; done|by apply g_redirs_snoc].
  - destruct Ht4 as (E & _ & Hne & _). simpl in E. subst a. rewrite (proj2 (Z.eqb_neq _ _)) by done. apply safe_panic.
Qed.

Lemma parseargs_safe L p rs : (p <= es)%nat -> safe (loop (S (S es)) (parseargs_body line) ([], rs)) L p (fun x p' => (p' <= es)%nat /\
  exists ts rs', toks p = ts ++ toks p' /\ x.2 = rs ++ rs' /\ g_args ts x.1 rs' /\ (length x.1 < MAXARGS)%nat).
Proof using Hnul.
  intros Hp. apply (safe_loop (fun x p' => (p' <= es)%nat /\ exists ts rs', toks p = ts ++ toks p' /\ x.2 = rs ++ rs' /\ g_args ts x.1 rs' /\ (length x.1 < MAXARGS)%nat)
    (fun _ p' => length (toks p'))).
  2:{ split; [done|]. exists [], []. rewrite app_nil_r. split_and!; try done; [constructor|unfold MAXARGS; simpl; lia]. }
  2:{ pose proof (toks_length line p Hp). lia. }
  intros [args rs1] p1 (Hp1 & ts & rs' & Ht & Hrs & Hg & Hm). cbn [fst snd] in *. unfold parseargs_body. eapply safe_bind; [apply peek_safe; [done|insyms]|].
  intros b p2 (Hp2 & Ht2 & ->). destruct (starts _ _) eqn:Es; [apply safe_ret; rewrite Ht2; split; [done|]; by exists ts, rs'|].
  eapply safe_bind; [by apply safe_wp, gettoken_wp|]. intros [[tok q] eq] p3 [Hp3 Ht3]. rewrite Ht2 in Ht3. destruct (toks p1) as [|[w|c] ts1] eqn:E1.
  - destruct Ht3 as [E Ht3]. simpl in E. subst tok. apply safe_ret. rewrite Ht3. split; [done|]. by exists ts, rs'.
  - destruct Ht3 as [E Ht3]. injection E as -> -> ->. change (LETTER =? 0) with false. change (negb (LETTER =? LETTER)) with false. cbv iota zeta.
    destruct (decide _) as [|Hlen]; [apply safe_panic|]. eapply safe_bind; [by apply parseredirs_safe|]. intros rs2 p4 (Hp4 & tr & Ht4 & Hg4). apply safe_ret.
    rewrite <- surjective_pairing in *. split; [|rewrite <- Ht3, Ht4; simpl; rewrite length_app; lia]. split; [done|]. exists (ts ++ Word w :: tr), (rs' ++ rs2). cbn [fst snd].
    split_and!; [rewrite Ht, <- Ht3, Ht4, <- app_assoc; done|by rewrite Hrs, app_assoc|by apply g_args_snoc|lia].
  - destruct Ht3 as (E & H0 & Hne & _). simpl in E. subst tok. rewrite !(proj2 (Z.eqb_neq _ _)) by done. apply safe_panic.
Qed.

Lemma amps_safe L p c : (p <= es)%nat -> safe (amps line c) L p (fun c' p' => (p' <= es)%nat /\ exists k, toks p = replicate k (Sym AMP) ++ toks p' /\ c' = backs k c).
Proof using Hnul.
  intros Hp. apply (safe_loop (fun c' p' => (p' <= es)%nat /\ exists k, toks p = replicate k (Sym AMP) ++ toks p' /\ c' = backs k c) (fun _ p' => length (toks p'))).
  2:{ split; [done|]. by exists O. }
  2:{ pose proof (toks_length line p Hp). lia. }
  intros c1 p1 (Hp1 & k & Ht & ->). unfold amps_body. eapply safe_bind; [apply peek_safe; [done|insyms]|].
  intros b p2 (Hp2 & Ht2 & ->). destruct (starts _ _) eqn:Es; [|apply safe_ret; rewrite Ht2; by split; [|exists k]].
  apply starts_sym in Es as (s & ts1 & Ets & Hc). assert (s = AMP) as ->.
  { apply has_spec in Hc; [|unfold AMP; set_solver]. unfold sym_char in Hc. destruct (Z.eqb_spec s PLUS); [by apply list_elem_of_singleton in Hc|by apply list_elem_of_singleton in Hc]. }
  rewrite Ets in Ht2. eapply safe_bind; [by eapply sym_safe|]. intros t p3 (_ & Hp3 & Ht3). apply safe_ret. split; [|rewrite Ets, Ht3; simpl; lia]. split; [done|].
  exists (S k). split; [|by rewrite backs_S]. rewrite Ht, Ets, Ht3. by rewrite replicate_S_end, <- app_assoc.
Qed.

(** [f] ends, and what it returns has a derivation. *)
Definition yields (f : nat -> M nat cmd) (extra : nat) (G : list token -> cmd -> Prop) (n : nat) : Prop :=
  forall L p, (p <= es)%nat -> (4 * length (toks p) + extra <= n)%nat ->
    safe (f n) L p (fun c p' => (p' <= es)%nat /\ exists ts, toks p = ts ++ toks p' /\ G ts c).

(** After a token that peek has seen. *)
Lemma next_safe {A} set (yes no : M nat A) L p (Q : A -> nat -> Prop) : (p <= es)%nat -> (forall c, c ∈ set -> c ∈ symbols) ->
  (forall c ts p', toks p = Sym c :: ts -> has set (sym_char c) = true -> (p' <= es)%nat -> toks p' = ts -> safe yes L p' Q) ->
  (forall p', starts set (toks p) = false -> (p' <= es)%nat -> toks p' = toks p -> safe no L p' Q) ->
  safe (b ← peek line set; if (b : bool) then gettoken line;; yes else no) L p Q.
Proof using Hnul.
  intros Hp Hs Hy Hn. eapply safe_bind; [by apply peek_safe|]. intros b p1 (Hp1 & Ht1 & ->). destruct (starts _ _) eqn:Es; [|by apply Hn].
  apply starts_sym in Es as (c & ts & E & Hc). rewrite E in Ht1. eapply safe_bind; [by eapply sym_safe|]. intros t p2 (_ & Hp2 & Ht2). by eapply Hy.
Qed.

Lemma one_symbol s c : has [s] (sym_char c) = true -> s <> 0 -> s <> MORE -> c = s.
Proof.
  intros Hc H0 Hm. apply has_spec in Hc; [|by intros ?%list_elem_of_singleton]. apply list_elem_of_singleton in Hc. unfold sym_char in Hc. destruct (Z.eqb_spec c PLUS); congruence.
Qed.

Lemma parse_yields n : yields (parseline line) 4 g_line n /\ yields (parsepipe line) 3 g_pipe n /\ yields (parseexec line) 2 g_exec n /\
  yields (parseblock line) 1 g_exec n.
Proof using Hnul.
  induction n as [|n (IHl & IHp & IHe & IHb)]; [split_and!; intros L p Hp Hn; lia|]. split_and!; intros L p Hp Hn.
  - rewrite parseline_S. eapply safe_bind; [apply IHp; [done|lia]|]. intros c p1 (Hp1 & ts & Ht & Hg). eapply safe_bind; [by apply amps_safe|].
    intros c' p2 (Hp2 & k & Ht2 & ->). apply next_safe; [done|insyms| |].
    + intros s ts' p3 Et Hs Hp3 Ht3. apply one_symbol in Hs as ->; [|done|done]. eapply safe_bind; [apply IHl; [done|]|].
      { rewrite Ht, Ht2, Et, !length_app in Hn. simpl in Hn. rewrite Ht3. lia. }
      intros c2 p4 (Hp4 & ts4 & Ht4 & Hg4). apply safe_ret. split; [done|]. exists (ts ++ replicate k (Sym AMP) ++ Sym SEMI :: ts4).
      split; [|by constructor]. rewrite Ht, Ht2, Et, <- Ht3, Ht4, <- !app_assoc. done.
    + intros p3 _ Hp3 Ht3. apply safe_ret. split; [done|]. exists (ts ++ replicate k (Sym AMP)). split; [by rewrite Ht, Ht2, Ht3, <- app_assoc|by constructor].
  - rewrite parsepipe_S. eapply safe_bind; [apply IHe; [done|lia]|]. intros c p1 (Hp1 & ts & Ht & Hg). apply next_safe; [done|insyms| |].
    + intros s ts' p3 Et Hs Hp3 Ht3. apply one_symbol in Hs as ->; [|done|done]. eapply safe_bind; [apply IHp; [done|]|].
      { rewrite Ht, Et, !length_app in Hn. simpl in Hn. rewrite Ht3. lia. }
      intros c2 p4 (Hp4 & ts4 & Ht4 & Hg4). apply safe_ret. split; [done|]. exists (ts ++ Sym BAR :: ts4).
      split; [|by constructor]. rewrite Ht, Et, <- Ht3, Ht4, <- !app_assoc. done.
    + intros p3 _ Hp3 Ht3. apply safe_ret. split; [done|]. exists ts. split; [by rewrite Ht, Ht3|by constructor].
  - rewrite parseexec_S. eapply safe_bind; [apply peek_safe; [done|insyms]|]. intros b p1 (Hp1 & Ht1 & ->). destruct (starts _ _) eqn:Es.
    + eapply safe_mono; [apply IHb; [done|rewrite Ht1; lia]|]. intros c p2. by rewrite Ht1.
    + eapply safe_bind; [by apply parseredirs_safe|]. intros rs p2 (Hp2 & tr & Ht2 & Hg2). eapply safe_bind; [by apply parseargs_safe|].
      intros [args rs2] p3 (Hp3 & ts & rs' & Ht3 & Hrs & Hg3 & Hm). apply safe_ret. split; [done|]. exists (tr ++ ts). cbn [fst snd] in *. subst rs2.
      split; [by rewrite <- Ht1, Ht2, Ht3, <- app_assoc|by constructor].
  - rewrite parseblock_S. eapply safe_bind; [apply peek_safe; [done|insyms]|]. intros b p1 (Hp1 & Ht1 & ->). destruct (starts _ _) eqn:Es; [|apply safe_panic]. cbn [negb].
    apply starts_sym in Es as (s & ts & E & Hs). apply one_symbol in Hs as ->; [|done|done]. rewrite E in Ht1. eapply safe_bind; [by eapply sym_safe|].
    intros t p2 (_ & Hp2 & Ht2). eapply safe_bind; [apply IHl; [done|rewrite Ht2; rewrite E in Hn; simpl in Hn; lia]|]. intros c p3 (Hp3 & ts3 & Ht3 & Hg3).
    eapply safe_bind; [apply peek_safe; [done|insyms]|]. intros b p4 (Hp4 & Ht4 & ->). destruct (starts _ _) eqn:Es; [|apply safe_panic]. cbn [negb].
    apply starts_sym in Es as (s & ts4 & E4 & Hs). apply one_symbol in Hs as ->; [|done|done]. rewrite E4 in Ht4. eapply safe_bind; [by eapply sym_safe|].
    intros t' p5 (_ & Hp5 & Ht5). eapply safe_bind; [by apply parseredirs_safe|]. intros rs p6 (Hp6 & tr & Ht6 & Hg6). apply safe_ret. split; [done|].
    exists (Sym LPAREN :: ts3 ++ Sym RPAREN :: tr). split; [|by constructor]. rewrite E, <- Ht2, Ht3, E4, <- Ht5, Ht6. simpl. by rewrite <- app_assoc.
Qed.

Lemma peek_nothing L p : (p <= es)%nat -> wp (peek line []) L p (fun _ p' => p' = skip line (has whitespace) p /\ (p' <= es)%nat /\ toks p' = toks p).
Proof using Hnul.
  intros Hp. pose proof (skip_range line (has whitespace) p Hp) as Hs. unfold peek, set_ps. wsteps. change (id p) with p.
  eapply wpl_call; [apply deref_ok; lia|]. intros c p' [-> ->]. wsteps. split; [done|]. split; [done|]. split; [lia|by apply toks_skip].
Qed.

Lemma no_tokens p : (p <= es)%nat -> skip line (has whitespace) p = es <-> toks p = [].
Proof.
  intros Hp. destruct (toks_cases line p Hp) as [[E Ht]|[(c & E & _ & _ & Ht)|[(E & _ & [(_ & _ & Ht)|(_ & Ht)])|(c & E & _ & _ & _ & _ & Ht)]]]; rewrite Ht; [done|..].
  all: split; [|done]; intros Hes; rewrite Hes, lookup_ge_None_2 in E; done.
Qed.

Lemma parsecmd_safe : safe (parsecmd line) [] O (fun r p => g_line (toks O) r.1 /\ r.2 = nulterminate r.1 (line ++ [0])).
Proof using Hnul.
  unfold parsecmd. eapply safe_bind; [apply (proj1 (parse_yields _)); [lia|]|].
  { pose proof (toks_length line 0 ltac:(lia)). lia. }
  intros c p (Hp & ts & Ht & Hg). eapply safe_bind; [by apply safe_wp, peek_nothing|]. intros b p1 (-> & Hp1 & Ht1).
  eapply (safe_bind (gets id) _ _ _ (fun x y => x = y /\ y = skip line (has whitespace) p)); [done|]. intros s p2 [-> ->]. destruct (decide _) as [|E]; [apply safe_panic|]. apply dec_stable in E.
  apply no_tokens in E; [|done]. apply safe_ret. cbn [fst snd]. rewrite Ht, E, app_nil_r. done.
Qed.

Lemma parsecmd_found c : g_line (toks O) c -> wp (parsecmd line) [] O (fun r p => r = (c, nulterminate c (line ++ [0]))).
Proof using Hnul.
  intros Hg. unfold parsecmd. wsteps. eapply wpl_call; [apply (proj1 grammar_found _ _ Hg _ []); [lia|by rewrite app_nil_r|done|]|].
  { pose proof (toks_length line 0 ltac:(lia)). lia. }
  intros r p (-> & Hp & Ht). wstep. eapply wpl_call; [by apply peek_nothing|]. intros b p1 (-> & Hp1 & Ht1). wsteps. wfalse; [|intros E; apply E, no_tokens; done].
  by wsteps.
Qed.
End Correct.

(** * The strings of the command *)

Fixpoint words (c : cmd) : list word :=
  match c with
  | EXEC argv => argv
  | REDIR c file _ _ => words c ++ [file]
  | PIPE l r | LIST l r => words l ++ words r
  | BACK c => words c
  end.

Lemma cut_fold buf ws i : foldl cut buf ws !! i = if decide (i ∈ ws.*2 /\ (i < length buf)%nat) then Some 0 else buf !! i.
Proof.
  revert buf. induction ws as [|w ws IH]; intros buf; cbn [foldl fmap list_fmap]; [rewrite decide_False; [done|]; by intros [?%not_elem_of_nil _]|].
  rewrite IH. unfold cut. rewrite length_insert. destruct (decide (i = w.2)) as [->|Hne].
  - destruct (decide (w.2 < length buf)%nat) as [Hlt|Hge].
    + rewrite list_lookup_insert_eq by done. repeat case_decide; try done; set_solver.
    + rewrite !decide_False by tauto. by rewrite list_insert_ge by lia.
  - rewrite list_lookup_insert_ne by done. repeat case_decide; set_solver.
Qed.

Lemma nulterminate_fold c buf : nulterminate c buf = foldl cut buf (words c).
Proof.
  revert buf. induction c as [argv|c IH file mode fd|l IHl r IHr|l IHl r IHr|c IH]; intros buf; simpl; [done|..].
  - by rewrite IH, foldl_app.
  - by rewrite IHl, IHr, foldl_app.
  - by rewrite IHl, IHr, foldl_app.
  - done.
Qed.

(** A word of the tokens: its characters, and what ends it. *)
Lemma token_shape line p w : (p <= es line)%nat -> Word w ∈ toks line p -> (w.1 < w.2 <= es line)%nat /\
  (forall i c, (w.1 <= i < w.2)%nat -> line !! i = Some c -> in_word c = true) /\ forall c, line !! w.2 = Some c -> in_word c = false.
Proof.
  remember (length (toks line p)) as n eqn:En. revert p En. induction n as [|n IH]; intros p En Hp Hw; [by destruct (toks line p); [apply not_elem_of_nil in Hw|]|].
  assert (Hrest : forall t p', toks line p = t :: toks line p' -> (p' <= es line)%nat -> Word w ∈ toks line p' -> (w.1 < w.2 <= es line)%nat /\
    (forall i c, (w.1 <= i < w.2)%nat -> line !! i = Some c -> in_word c = true) /\ forall c, line !! w.2 = Some c -> in_word c = false).
  { intros t p' E Hp' Hw'. apply (IH p'); [rewrite E in En; simpl in En; lia|done|done]. }
  destruct (toks_cases line p Hp) as [[_ E]|[(c & _ & _ & H1 & E)|[(_ & H1 & [(_ & H2 & E)|(_ & E)])|(c & _ & _ & _ & _ & H1 & E)]]]; pose proof Hw as Hw0; rewrite E in Hw.
  - by apply not_elem_of_nil in Hw.
  - apply elem_of_cons in Hw as [|Hw]; [done|]. by eapply Hrest.
  - apply elem_of_cons in Hw as [|Hw]; [done|]. by eapply Hrest.
  - apply elem_of_cons in Hw as [|Hw]; [done|]. by eapply Hrest.
  - apply elem_of_cons in Hw as [Ew|Hw]; [|eapply Hrest; [done|lia|done]]. injection Ew as ->. simpl. split; [done|]. split; [|intros c'; apply skip_stop].
    intros i c' Hi Hc'. eapply (skip_in line in_word); done.
Qed.

(** The words of a command are words of its tokens. *)
Lemma wrap_words c rs w : w ∈ words (wrap_all c rs) <-> w ∈ words c \/ w ∈ rs.*1.*1.
Proof.
  unfold wrap_all. revert c. induction rs as [|r rs IH]; intros c; cbn [foldl]; [set_solver|]. rewrite IH. simpl. set_solver.
Qed.

Lemma redirs_words ts rs w : g_redirs ts rs -> w ∈ rs.*1.*1 -> Word w ∈ ts.
Proof.
  induction 1 as [|op w' r ts rs Hop _ IH]; simpl; [set_solver|]. assert (r.1.1 = w') as ->; [|set_solver].
  unfold redir_of in Hop. destruct (op =? LESS), (op =? MORE), (op =? PLUS); by simplify_eq.
Qed.

Lemma args_words ts args rs w : g_args ts args rs -> w ∈ args \/ w ∈ rs.*1.*1 -> Word w ∈ ts.
Proof.
  induction 1 as [|w' tr rs ts args rs' Hr _ IH]; [set_solver|]. rewrite !fmap_app. pose proof (redirs_words _ _ w Hr). set_solver.
Qed.

Lemma backs_words k c : words (backs k c) = words c.
Proof. revert c. induction k as [|k IH]; intros c; simpl; [done|]. by rewrite IH. Qed.

Lemma grammar_words :
  (forall ts c, g_line ts c -> forall w, w ∈ words c -> Word w ∈ ts) /\
  (forall ts c, g_pipe ts c -> forall w, w ∈ words c -> Word w ∈ ts) /\
  (forall ts c, g_exec ts c -> forall w, w ∈ words c -> Word w ∈ ts).
Proof.
  apply g_mut; intros; cbn [words] in *; rewrite ?wrap_words, ?backs_words, ?fmap_app in *; try set_solver.
  - pose proof (redirs_words tr rs w). set_solver.
  - pose proof (redirs_words tr rs w). pose proof (args_words ts args rs' w). set_solver.
Qed.

(** C31. parsecmd implements its grammar: it always ends, by returning or by one of
    its panics; it returns a command exactly when the tokens of the line derive
    it, with pipes binding tighter than &, and & than the sequence, redirections
    anywhere among at most nine arguments, and blocks in parentheses. *)
Theorem parsecmd_correct line : 0 ∉ line ->
  (forall c, g_line (toks line 0) c <-> exists p, parsecmd line [] O = Ok (c, nulterminate c (line ++ [0])) [] p) /\
  ((exists r p, parsecmd line [] O = Ok r [] p) \/ exists msg, parsecmd line [] O = Panic msg).
Proof.
  intros Hnul. pose proof (parsecmd_safe line Hnul) as Hs. unfold safe in Hs. split.
  - intros c. split.
    + intros Hg. destruct (wp_exists _ _ _ _ (parsecmd_found line Hnul c Hg)) as (r & p & E & ->). by exists p.
    + intros [p E]. rewrite E in Hs. apply Hs.
  - destruct (parsecmd line [] O) as [r L p|msg| | |] eqn:E; try done; [left|right; by exists msg]. destruct Hs as [-> _]. by exists r, p.
Qed.

(** After parsecmd the arguments and file names of the command are C strings:
    at the start of every word the line holds exactly its characters and a
    terminator, although the terminators were stored over the line itself. *)
Theorem nulterminate_strings line c buf p w : 0 ∉ line -> parsecmd line [] O = Ok (c, buf) [] p -> w ∈ words c ->
  (w.1 < w.2)%nat /\ cstr (drop w.1 buf) = Some (take (w.2 - w.1) (drop w.1 line)).
Proof.
  intros Hnul E Hw. pose proof (parsecmd_safe line Hnul) as Hs. unfold safe in Hs. rewrite E in Hs. destruct Hs as (_ & Hg & Hbuf). cbn [fst snd] in Hg, Hbuf. subst buf.
  assert (Hsh : forall v, v ∈ words c -> (v.1 < v.2 <= es line)%nat /\ (forall i x, (v.1 <= i < v.2)%nat -> line !! i = Some x -> in_word x = true) /\
    forall x, line !! v.2 = Some x -> in_word x = false).
  { intros v Hv. eapply (token_shape line O); [lia|]. by eapply (proj1 grammar_words). }
  destruct (Hsh w Hw) as (Hlt & Hin & _). split; [lia|]. unfold es in Hlt. rewrite nulterminate_fold.
  set (b := foldl cut (line ++ [0]) (words c)).
  assert (Hb : forall i, b !! i = if decide (i ∈ (words c).*2 /\ (i < length (line ++ [0%Z]))%nat) then Some 0 else (line ++ [0]) !! i) by (intros i; apply cut_fold).
  assert (Hend : b !! w.2 = Some 0) by (rewrite Hb, decide_True; [done|]; rewrite length_app; simpl; split; [by apply list_elem_of_fmap_2|lia]).
  assert (Hbody : take (w.2 - w.1) (drop w.1 b) = take (w.2 - w.1) (drop w.1 line)).
  { apply list_eq. intros i. destruct (decide (i < w.2 - w.1)%nat) as [Hi|Hi]; [|by rewrite !lookup_take_ge by lia].
    rewrite !lookup_take_lt, !lookup_drop, Hb by lia. rewrite decide_False; [by rewrite lookup_app_l by lia|].
    intros [(v & Ev & Hv)%list_elem_of_fmap _]. destruct (lookup_lt_is_Some_2 line (w.1 + i)%nat ltac:(lia)) as [x Hx].
    destruct (Hsh v Hv) as (_ & _ & Hv2). rewrite <- Ev in Hv2. specialize (Hv2 x Hx). rewrite (Hin (w.1 + i)%nat x) in Hv2; [done|lia|done]. }
  rewrite <- (take_drop (w.2 - w.1) (drop w.1 b)), Hbody, drop_drop. replace (w.1 + (w.2 - w.1))%nat with w.2 by lia. rewrite (drop_S _ _ _ Hend).
  apply cstr_at. intros H0. apply Hnul. apply (subseteq_drop w.1 line), (subseteq_take _ _ _ H0).
Qed.

(** [echo hi >out | (cat; ls) &] *)
Definition sample_line : list Z :=
  [101; 99; 104; 111; 32; 104; 105; 32; 62; 111; 117; 116; 32; 124; 32; 40; 99; 97; 116; 59; 32; 108; 115; 41; 32; 38; 10].
Definition sample_cmd : cmd :=
  BACK (PIPE (REDIR (EXEC [(0, 4); (5, 7)]%nat) (9, 12)%nat 0x601 1) (LIST (EXEC [(16, 19)%nat]) (EXEC [(21, 23)%nat]))).

Lemma parsecmd_correct_witness : 0 ∉ sample_line /\ g_line (toks sample_line 0) sample_cmd.
Proof.
  assert (H0 : 0 ∉ sample_line) by (unfold sample_line; set_solver).
  split; [done|]. apply (proj1 (parsecmd_correct sample_line H0)). eexists. vm_compute. reflexivity.
Defined.

Lemma nulterminate_strings_witness : (9 < 12)%nat /\ cstr (drop 9 (nulterminate sample_cmd (sample_line ++ [0]))) = Some [111; 117; 116].
Proof.
  assert (H0 : 0 ∉ sample_line) by (unfold sample_line; set_solver).
  apply (nulterminate_strings sample_line sample_cmd _ 27 (9, 12)%nat); [done|by vm_compute|]. unfold sample_cmd. simpl. set_solver.
Defined.

(** * Running a command

    What a process does from a call of runcmd on: a tree of system calls, with one
    branch for each result that the code tells apart.  exec returns only when it
    fails. *)
Inductive sys :=
  | Exit (code : Z)
  | Exec (argv : list word) (failed : sys)
  | Close (fd : Z) (k : sys)
  | Open (file : word) (mode : Z) (k : Z -> sys)
  | Dup (fd : Z) (k : sys)
  | MkPipe (k : option (Z * Z) -> sys)
  | Fork (k : Z -> sys)
  | Wait (k : sys)
  | Print (msg : string) (k : sys).

Definition sh_panic (msg : string) : sys := Print msg (Exit 1).

(** fork1, with what the child and the parent do next. *)
Definition fork1 (child parent : sys) : sys :=
  Fork (fun pid => if pid =? -1 then sh_panic "fork" else if pid =? 0 then child else parent).

Fixpoint runcmd (c : cmd) : sys :=
  match c with
  | EXEC argv =>
      match argv with
      | [] => Exit 1
      | _ => Exec argv (Print "exec failed" (Exit 0))
      end
  | REDIR c file mode fd =>
      Close fd (Open file mode (fun r => if r <? 0 then Print "open failed" (Exit 1) else runcmd c))
  | LIST l r => fork1 (runcmd l) (Wait (runcmd r))
  | PIPE l r =>
      MkPipe (fun o =>
        match o with
        | None => sh_panic "pipe"
        | Some (p0, p1) =>
            fork1 (Close 1 (Dup p1 (Close p0 (Close p1 (runcmd l)))))
              (fork1 (Close 0 (Dup p0 (Close p0 (Close p1 (runcmd r)))))
                 (Close p0 (Close p1 (Wait (Wait (Exit 0))))))
        end)
  | BACK c => fork1 (runcmd c) (Exit 0)
  end.

(** What an open descriptor refers to: something from before, a file opened by a
    redirection, or an end of the [n]-th pipe. *)
Inductive obj := Given (x : nat) | Opened (file : word) (mode : Z) | PipeIn (n : nat) | PipeOut (n : nat).

(** The descriptors of a process; a new descriptor is the lowest free one. *)
Definition fds : Type := list (option obj).
Definition lowest (t : fds) : option nat := find_idx (fun o => match o with None => true | Some _ => false end) t.
Definition open_obj (x : obj) (t : fds) : option (nat * fds) := i ← lowest t; Some (i, <[i := Some x]> t).
Definition close_fd (fd : Z) (t : fds) : fds := <[Z.to_nat fd := None]> t.
Definition get_fd (fd : Z) (t : fds) : option obj := t !! Z.to_nat fd ≫= id.

(** A program that a process execs, or a wait, with the descriptors open there. *)
Inductive event := Ran (argv : list word) (t : fds) | Waited (t : fds).

(** The events when every call finds the resources it needs; [n] pipes exist.  The
    events of a child stand before those of its parent. *)
Fixpoint events (p : sys) (t : fds) (n : nat) : list event * nat :=
  match p with
  | Exit _ => ([], n)
  | Exec argv _ => ([Ran argv t], n)
  | Close fd k => events k (close_fd fd t) n
  | Open file mode k =>
      match open_obj (Opened file mode) t with
      | Some (i, t') => events (k (Z.of_nat i)) t' n
      | None => events (k (-1)) t n
      end
  | Dup fd k =>
      match get_fd fd t ≫= fun x => open_obj x t with
      | Some (_, t') => events k t' n
      | None => events k t n
      end
  | MkPipe k =>
      match (r ← open_obj (PipeIn n) t; w ← open_obj (PipeOut n) r.2; Some (r.1, w)) with
      | Some (i, (j, t')) => events (k (Some (Z.of_nat i, Z.of_nat j))) t' (S n)
      | None => events (k None) t n
      end
  | Fork k => let (e, n1) := events (k 0) t n in let (e', n2) := events (k 1) t n1 in (e ++ e', n2)
  | Wait k => let (e, n1) := events k t n in (Waited t :: e, n1)
  | Print _ k => events k t n
  end.

(** * The meaning of a command *)

(** Standard input, output and error, and nothing else. *)
Definition std (i o e : obj) : fds := [Some i; Some o; Some e] ++ replicate 13 None.

Fixpoint meaning (c : cmd) (i o e : obj) (n : nat) : list event * nat :=
  match c with
  | EXEC argv => (match argv with [] => [] | _ => [Ran argv (std i o e)] end, n)
  | REDIR c file mode fd => if fd =? 0 then meaning c (Opened file mode) o e n else meaning c i (Opened file mode) e n
  | PIPE l r =>
      let (a, n1) := meaning l i (PipeOut n) e (S n) in
      let (b, n2) := meaning r (PipeIn n) o e n1 in
      (a ++ b ++ [Waited (std i o e); Waited (std i o e)], n2)
  | LIST l r => let (a, n1) := meaning l i o e n in let (b, n2) := meaning r i o e n1 in (a ++ Waited (std i o e) :: b, n2)
  | BACK c => meaning c i o e n
  end.

(** Redirections are of standard input or output. *)
Fixpoint redirs_ok (c : cmd) : bool :=
  match c with
  | EXEC _ => true
  | REDIR c _ _ fd => ((fd =? 0) || (fd =? 1)) && redirs_ok c
  | PIPE l r | LIST l r => redirs_ok l && redirs_ok r
  | BACK c => redirs_ok c
  end.

(** The descriptors that the two sides of a pipe and their parent have. *)
Lemma pipe_events l r i o e n : events (runcmd (PIPE l r)) (std i o e) n =
  (let (a, n1) := events (runcmd l) (std i (PipeOut n) e) (S n) in
   let (b, n2) := (let (b, n2) := events (runcmd r) (std (PipeIn n) o e) n1 in (b ++ [Waited (std i o e); Waited (std i o e)], n2)) in (a ++ b, n2)).
Proof. reflexivity. Qed.

Lemma runcmd_events c : redirs_ok c = true -> forall i o e n, events (runcmd c) (std i o e) n = meaning c i o e n.
Proof.
  induction c as [argv|c IH file mode fd|l IHl r IHr|l IHl r IHr|c IH]; intros Hc i o e n; cbn [redirs_ok] in Hc; try (apply andb_true_iff in Hc as [H1 H2]).
  - by destruct argv.
  - apply orb_true_iff in H1 as [->%Z.eqb_eq| ->%Z.eqb_eq]; by apply IH.
  - rewrite pipe_events, IHl by done. cbn [meaning]. destruct (meaning l i (PipeOut n) e (S n)) as [a n1]. rewrite IHr by done. by destruct (meaning r _ _ _ _).
  - cbn -[std]. rewrite IHl by done. destruct (meaning l i o e n) as [a n1]. rewrite IHr by done. by destruct (meaning r _ _ _ _).
  - cbn -[std]. rewrite IH by done. destruct (meaning c i o e n) as [a n1]. by rewrite app_nil_r.
Qed.

Lemma wrap_redirs_ok c rs : redirs_ok c = true -> (forall r, r ∈ rs -> r.2 = 0 \/ r.2 = 1) -> redirs_ok (wrap_all c rs) = true.
Proof.
  unfold wrap_all. revert c. induction rs as [|r rs IH]; intros c Hc Hrs; [done|]. cbn [foldl]. apply IH; [|set_solver]. simpl. rewrite Hc.
  destruct (Hrs r) as [->| ->]; [by left|done..].
Qed.

Lemma g_redirs_fds ts rs r : g_redirs ts rs -> r ∈ rs -> r.2 = 0 \/ r.2 = 1.
Proof.
  induction 1 as [|op w r' ts rs Hop _ IH]; [by intros ?%not_elem_of_nil|]. intros [->|Hr]%elem_of_cons; [|auto]. unfold redir_of in Hop.
  destruct (op =? LESS), (op =? MORE), (op =? PLUS); simplify_eq; simpl; tauto.
Qed.

Lemma g_args_fds ts args rs r : g_args ts args rs -> r ∈ rs -> r.2 = 0 \/ r.2 = 1.
Proof. induction 1; [by intros ?%not_elem_of_nil|]. intros [Hr|Hr]%elem_of_app; [by eapply g_redirs_fds|auto]. Qed.

Lemma backs_redirs_ok k c : redirs_ok (backs k c) = redirs_ok c.
Proof. revert c. induction k as [|k IH]; intros c; simpl; [done|]. by rewrite IH. Qed.

Lemma grammar_redirs_ok :
  (forall ts c, g_line ts c -> redirs_ok c = true) /\ (forall ts c, g_pipe ts c -> redirs_ok c = true) /\ (forall ts c, g_exec ts c -> redirs_ok c = true).
Proof.
  apply g_mut; intros; cbn [redirs_ok]; rewrite ?backs_redirs_ok; try (by apply andb_true_iff); try done.
  - apply wrap_redirs_ok; [done|]. intros. by eapply g_redirs_fds.
  - apply wrap_redirs_ok; [done|]. intros x [Hx|Hx]%elem_of_app; [by eapply g_redirs_fds|by eapply g_args_fds].
Qed.

(** ** No process holds both ends of a pipe *)
Definition table_of (ev : event) : fds := match ev with Ran _ t | Waited t => t end.
Definition one_end (t : fds) : Prop := forall k, Some (PipeIn k) ∈ t -> Some (PipeOut k) ∈ t -> False.
(** [x] is no end of the [n]-th pipe or a later one. *)
Definition older (n : nat) (x : obj) : Prop :=
  match x with PipeIn k | PipeOut k => (k < n)%nat | _ => True end.

Lemma elem_of_std x i o e : Some x ∈ std i o e <-> x = i \/ x = o \/ x = e.
Proof.
  unfold std. rewrite elem_of_app, !elem_of_cons, elem_of_nil, elem_of_replicate. naive_solver.
Qed.

Lemma older_S n m x : (n <= m)%nat -> older n x -> older m x.
Proof. destruct x; simpl; lia. Qed.

Lemma meaning_count c i o e n : (n <= (meaning c i o e n).2)%nat.
Proof.
  revert i o e n. induction c as [argv|c IH file mode fd|l IHl r IHr|l IHl r IHr|c IH]; intros i o e n; cbn [meaning].
  - done.
  - destruct (fd =? 0); apply IH.
  - specialize (IHl i (PipeOut n) e (S n)). destruct (meaning l _ _ _ _) as [a n1].
    specialize (IHr (PipeIn n) o e n1). destruct (meaning r _ _ _ _) as [b n2]. simpl in *. lia.
  - specialize (IHl i o e n). destruct (meaning l _ _ _ _) as [a n1].
    specialize (IHr i o e n1). destruct (meaning r _ _ _ _) as [b n2]. simpl in *. lia.
  - apply IH.
Qed.

(** Replacing a descriptor by a new object, or by an end of a new pipe. *)
Lemma one_end_std i o e : one_end (std i o e) <->
  forall k, (PipeIn k = i \/ PipeIn k = o \/ PipeIn k = e) -> (PipeOut k = i \/ PipeOut k = o \/ PipeOut k = e) -> False.
Proof. unfold one_end. by setoid_rewrite elem_of_std. Qed.

Lemma meaning_one_end c i o e n :
  older n i -> older n o -> older n e -> one_end (std i o e) ->
  forall ev, ev ∈ (meaning c i o e n).1 -> one_end (table_of ev).
Proof.
  revert i o e n. induction c as [argv|c IH file mode fd|l IHl r IHr|l IHl r IHr|c IH];
    intros i o e n Hi Ho He H1 ev; pose proof H1 as H1'; rewrite one_end_std in H1'; cbn [meaning].
  - destruct argv; [by intros ?%not_elem_of_nil|]. by intros ->%list_elem_of_singleton.
  - destruct (fd =? 0); apply IH; try done; apply one_end_std; naive_solver.
  - pose proof (meaning_count l i (PipeOut n) e (S n)) as Hn1.
    specialize (IHl i (PipeOut n) e (S n)). destruct (meaning l _ _ _ _) as [a n1].
    specialize (IHr (PipeIn n) o e n1). destruct (meaning r _ _ _ _) as [b n2]. simpl in *.
    rewrite !elem_of_app, !elem_of_cons, elem_of_nil. intros [Ha|[Hb|Hw]].
    + apply IHl; try done; try lia; try (eapply older_S; [|done]; lia). apply one_end_std. intros k.
      destruct i, e; simpl in *; intros [?|[?|?]] [?|[?|?]]; simplify_eq; try lia; naive_solver.
    + apply IHr; try done; try lia; try (eapply older_S; [|done]; lia). apply one_end_std. intros k.
      destruct o, e; simpl in *; intros [?|[?|?]] [?|[?|?]]; simplify_eq; try lia; naive_solver.
    + by destruct Hw as [->|[->|[]]].
  - pose proof (meaning_count l i o e n) as Hn1.
    specialize (IHl i o e n). destruct (meaning l _ _ _ _) as [a n1].
    specialize (IHr i o e n1). destruct (meaning r _ _ _ _) as [b n2]. simpl in *.
    rewrite elem_of_app, elem_of_cons. intros [Ha|[->|Hb]]; [by apply IHl|done|].
    apply IHr; try done; by eapply older_S.
  - by apply IH.
Qed.

(** C32. runcmd wires the processes of a command as its syntax says: when a command
    line is parsed and run with three descriptors open, every program starts, and
    every process waits, with exactly three: those of the shell, where the writer of
    a pipe has the pipe as its output and the reader has the pipe as its input, with
    redirections on top of that.  The process that creates a pipe waits for its two
    sides with the descriptors it had before, neither end of that pipe among them;
    and when the shell's own descriptors are no pipes of this command, no process
    holds both ends of a pipe, so a reader never keeps its own input open. *)
Theorem runcmd_wiring line c buf p i o e : 0 ∉ line -> parsecmd line [] O = Ok (c, buf) [] p ->
  events (runcmd c) (std i o e) 0 = meaning c i o e 0 /\
  (older 0 i -> older 0 o -> older 0 e ->
   forall ev, ev ∈ (events (runcmd c) (std i o e) 0).1 -> one_end (table_of ev)).
Proof.
  intros Hnul E. assert (Hev : events (runcmd c) (std i o e) 0 = meaning c i o e 0).
  { apply runcmd_events. pose proof (parsecmd_safe line Hnul) as Hs. unfold safe in Hs. rewrite E in Hs. destruct Hs as (_ & Hg & _).
    by eapply (proj1 grammar_redirs_ok). }
  split; [done|]. intros Hi Ho He ev. rewrite Hev. apply meaning_one_end; try done.
  apply one_end_std. intros k. destruct i, o, e; simpl in *; try lia; naive_solver.
Qed.

Lemma runcmd_wiring_witness : events (runcmd sample_cmd) (std (Given 0) (Given 1) (Given 2)) 0 =
  ([Ran [(0, 4); (5, 7)]%nat (std (Given 0) (Opened (9, 12)%nat 0x601) (Given 2)); Ran [(16, 19)%nat] (std (PipeIn 0) (Given 1) (Given 2));
    Waited (std (PipeIn 0) (Given 1) (Given 2)); Ran [(21, 23)%nat] (std (PipeIn 0) (Given 1) (Given 2));
    Waited (std (Given 0) (Given 1) (Given 2)); Waited (std (Given 0) (Given 1) (Given 2))], 1%nat).
Proof.
  assert (H0 : 0 ∉ sample_line) by (unfold sample_line; set_solver).
  rewrite (proj1 (runcmd_wiring sample_line sample_cmd _ 27 (Given 0) (Given 1) (Given 2) H0 ltac:(by vm_compute))). reflexivity.
Defined.

(** * The loop of main *)

(** What main does with a line: nothing, a chdir, or a child that runs it. *)
Inductive action := Skip | Chdir (dir : list Z) | Run (text : list Z).

Definition main_line (buf : list Z) : action :=
  let cmd := drop (span (fun c => (c =? 32) || (c =? 9)) buf) buf in
  match cmd with
  | 10 :: _ => Skip
  | 99 :: 100 :: 32 :: _ => Chdir (drop 3 (removelast cmd))
  | _ => Run cmd
  end.

(** The string that gets left in the buffer and the rest of the input; [None] is
    the end of the input. *)
Definition getcmd (input : list Z) : option (list Z * list Z) :=
  let '(buf, rest) := gets_line input 100 in
  match cstr buf with Some (c :: s) => Some (c :: s, rest) | _ => None end.

Fixpoint main_loop (fuel : nat) (input : list Z) : list action :=
  match fuel with
  | O => []
  | S k => match getcmd input with None => [] | Some (s, rest) => main_line s :: main_loop k rest end
  end.

Lemma gets_loop_line l rest max : forall fuel i buf, (forall c, c ∈ l -> c <> 10 /\ c <> 13) -> (length l < fuel)%nat -> i + Z.of_nat (length l) + 1 < max ->
  gets_loop (l ++ 10 :: rest) max fuel i buf = (buf ++ l ++ [10], rest).
Proof.
  induction l as [|c l IH]; intros fuel i buf Hl Hf Hm; (destruct fuel as [|fuel]; [simpl in Hf; lia|]); simpl in *; rewrite decide_True by lia.
  - done.
  - destruct (Hl c) as [H1 H2]; [by left|]. rewrite decide_False by tauto. rewrite IH; [by rewrite <- app_assoc|intros x Hx; apply Hl; by right|lia|lia].
Qed.

(** Lines that fit the buffer are handled one by one. *)
Lemma main_loop_lines lines : (forall l c, l ∈ lines -> c ∈ l -> c <> 0 /\ c <> 10 /\ c <> 13) -> (forall l, l ∈ lines -> (length l < 99)%nat) ->
  forall fuel, (length lines < fuel)%nat ->
  main_loop fuel (mjoin ((fun l => l ++ [10]) <$> lines)) = (fun l => main_line (l ++ [10])) <$> lines.
Proof.
  induction lines as [|l lines IH]; intros Hc Hl fuel Hf; (destruct fuel as [|fuel]; [simpl in Hf; lia|]); [done|]. cbn [fmap list_fmap mjoin list_join main_loop].
  unfold getcmd, gets_line. rewrite <- app_assoc. cbn [app]. rewrite (gets_loop_line l); [|intros c Hcl; specialize (Hc l c); set_solver|specialize (Hl l); set_solver by lia|specialize (Hl l ltac:(by left)); lia].
  cbn [app]. rewrite cstr_at. 2:{ intros [H0|?%list_elem_of_singleton]%elem_of_app; [|done]. by destruct (Hc l 0) as [? _]; [left|..]. }
  destruct (l ++ [10]) as [|x t] eqn:E; [by destruct l|]. f_equal. apply IH; [|intros l' Hl'; apply Hl; by right|simpl in Hf; lia]. intros l' c' Hl'. apply Hc. by right.
Qed.

(** Without a newline at the end of the input the last character of the directory
    is lost: [cd foo] changes to [fo]. *)
Lemma main_cd_at_end d : main_line ([99; 100; 32] ++ d) = Chdir (removelast d).
Proof. unfold main_line. cbn [app]. simpl. by destruct d. Qed.
