(* ===== verification/Proc.v ===== *)
(** Processes, kernel/proc.c: the process table, fork, exit, wait, kill and
    sleep/wakeup.  A function that gives up the CPU is cut there: what follows
    in the code runs when the scheduler comes back to the process. *)
From S2P Require Import Prelude Riscv PhysMem Kalloc PageTable Vm VmFree Shm Fork UserMem CStrings Block.
Local Open Scope Z_scope.

Definition NPROC : nat := 64.

Inductive procstate := UNUSED | USED | SLEEPING | RUNNABLE | RUNNING | ZOMBIE.

#[export] Instance procstate_eq_dec : EqDecision procstate.
Proof. solve_decision. Defined.

(** Sleep channels: the address of a process structure, or any other address. *)
Inductive wchan := ChProc (p : nat) | ChAddr (a : Z).

#[export] Instance wchan_eq_dec : EqDecision wchan.
Proof. solve_decision. Defined.

Record proc := mkProc {
  state : procstate;
  chan : option wchan;
  killed_flag : Z;
  xstate : Z;
  pid : Z;
  parent : option nat;
  kstack : Z;
  sz : Z;
  pagetable : Z;
  trapframe : Z;
  ctx_ra : Z;
  ctx_sp : Z;
  pr_ofile : list (option nat);
  pr_cwd : option nat;
  pname : list Z
}.

Definition no_proc : proc := mkProc UNUSED None 0 0 0 None 0 0 0 0 0 0 [] None [].

(** What the process code asks of open files and directories: filedup,
    fileclose, idup, [begin_op(); iput(); end_op()] and [namei("/")]. *)
Class FileRefs (F : Type) := {
  r_filedup : nat -> M F nat;
  r_fileclose : nat -> M F unit;
  r_idup : nat -> M F nat;
  r_iput : nat -> M F unit;
  r_root : M F (option nat)
}.

(** [cur] is the process on this CPU. *)
Record ptab (F : Type) := mkPtab {
  procs : list proc;
  cur : nat;
  initproc : option nat;
  nextpid : Z;
  pmem : mem;
  pframes : list shm_frame;
  pfiles : F
}.
Arguments mkPtab {F}.
Arguments procs {F}.
Arguments cur {F}.
Arguments initproc {F}.
Arguments nextpid {F}.
Arguments pmem {F}.
Arguments pframes {F}.
Arguments pfiles {F}.

Definition proc_at {F} (i : nat) (s : ptab F) : proc := nth i (procs s) no_proc.
Definition set_procs {F} (t : list proc) (s : ptab F) : ptab F :=
  mkPtab t (cur s) (initproc s) (nextpid s) (pmem s) (pframes s) (pfiles s).
Definition on_proc {F} (i : nat) (f : proc -> proc) (s : ptab F) : ptab F := set_procs (alter f i (procs s)) s.

#[export] Program Instance ptab_mem F : Lens (ptab F) mem := {
  view := pmem;
  over m s := mkPtab (procs s) (cur s) (initproc s) (nextpid s) m (pframes s) (pfiles s)
}.
Next Obligation. done. Qed.
Next Obligation. by intros F []. Qed.
Next Obligation. done. Qed.

#[export] Program Instance ptab_files F : Lens (ptab F) F := {
  view := pfiles;
  over m s := mkPtab (procs s) (cur s) (initproc s) (nextpid s) (pmem s) (pframes s) m
}.
Next Obligation. done. Qed.
Next Obligation. by intros F []. Qed.
Next Obligation. done. Qed.

(** ** Fields *)
Definition with_state (x : procstate) (p : proc) : proc :=
  mkProc x (chan p) (killed_flag p) (xstate p) (pid p) (parent p) (kstack p) (sz p) (pagetable p) (trapframe p) (ctx_ra p) (ctx_sp p) (pr_ofile p) (pr_cwd p) (pname p).
Definition with_chan (c : option wchan) (p : proc) : proc :=
  mkProc (state p) c (killed_flag p) (xstate p) (pid p) (parent p) (kstack p) (sz p) (pagetable p) (trapframe p) (ctx_ra p) (ctx_sp p) (pr_ofile p) (pr_cwd p) (pname p).
Definition with_killed (k : Z) (p : proc) : proc :=
  mkProc (state p) (chan p) k (xstate p) (pid p) (parent p) (kstack p) (sz p) (pagetable p) (trapframe p) (ctx_ra p) (ctx_sp p) (pr_ofile p) (pr_cwd p) (pname p).
Definition with_xstate (x : Z) (p : proc) : proc :=
  mkProc (state p) (chan p) (killed_flag p) x (pid p) (parent p) (kstack p) (sz p) (pagetable p) (trapframe p) (ctx_ra p) (ctx_sp p) (pr_ofile p) (pr_cwd p) (pname p).
Definition with_pid (n : Z) (p : proc) : proc :=
  mkProc (state p) (chan p) (killed_flag p) (xstate p) n (parent p) (kstack p) (sz p) (pagetable p) (trapframe p) (ctx_ra p) (ctx_sp p) (pr_ofile p) (pr_cwd p) (pname p).
Definition with_parent (x : option nat) (p : proc) : proc :=
  mkProc (state p) (chan p) (killed_flag p) (xstate p) (pid p) x (kstack p) (sz p) (pagetable p) (trapframe p) (ctx_ra p) (ctx_sp p) (pr_ofile p) (pr_cwd p) (pname p).
Definition with_kstack (k : Z) (p : proc) : proc :=
  mkProc (state p) (chan p) (killed_flag p) (xstate p) (pid p) (parent p) k (sz p) (pagetable p) (trapframe p) (ctx_ra p) (ctx_sp p) (pr_ofile p) (pr_cwd p) (pname p).
Definition with_sz (n : Z) (p : proc) : proc :=
  mkProc (state p) (chan p) (killed_flag p) (xstate p) (pid p) (parent p) (kstack p) n (pagetable p) (trapframe p) (ctx_ra p) (ctx_sp p) (pr_ofile p) (pr_cwd p) (pname p).
Definition with_pagetable (x : Z) (p : proc) : proc :=
  mkProc (state p) (chan p) (killed_flag p) (xstate p) (pid p) (parent p) (kstack p) (sz p) x (trapframe p) (ctx_ra p) (ctx_sp p) (pr_ofile p) (pr_cwd p) (pname p).
Definition with_trapframe (x : Z) (p : proc) : proc :=
  mkProc (state p) (chan p) (killed_flag p) (xstate p) (pid p) (parent p) (kstack p) (sz p) (pagetable p) x (ctx_ra p) (ctx_sp p) (pr_ofile p) (pr_cwd p) (pname p).
Definition with_context (ra sp : Z) (p : proc) : proc :=
  mkProc (state p) (chan p) (killed_flag p) (xstate p) (pid p) (parent p) (kstack p) (sz p) (pagetable p) (trapframe p) ra sp (pr_ofile p) (pr_cwd p) (pname p).
Definition with_ofile (fd : nat) (f : option nat) (p : proc) : proc :=
  mkProc (state p) (chan p) (killed_flag p) (xstate p) (pid p) (parent p) (kstack p) (sz p) (pagetable p) (trapframe p) (ctx_ra p) (ctx_sp p) (<[fd := f]> (pr_ofile p)) (pr_cwd p) (pname p).
Definition with_pcwd (c : option nat) (p : proc) : proc :=
  mkProc (state p) (chan p) (killed_flag p) (xstate p) (pid p) (parent p) (kstack p) (sz p) (pagetable p) (trapframe p) (ctx_ra p) (ctx_sp p) (pr_ofile p) c (pname p).
Definition with_name (n : list Z) (p : proc) : proc :=
  mkProc (state p) (chan p) (killed_flag p) (xstate p) (pid p) (parent p) (kstack p) (sz p) (pagetable p) (trapframe p) (ctx_ra p) (ctx_sp p) (pr_ofile p) (pr_cwd p) n.

(** The last assignments of freeproc. *)
Definition freed (p : proc) : proc :=
  mkProc UNUSED None 0 0 0 None (kstack p) 0 0 0 (ctx_ra p) (ctx_sp p) (pr_ofile p) (pr_cwd p) (<[O := 0]> (pname p)).

Section Operations.
Context `{KernelImage} {F : Type} `{FileRefs F}.
Local Abbreviation PM := (M (ptab F)).

(** The address of forkret, where a new process starts. *)
Variable forkret : Z.

Definition pof (i : nat) : PM proc := gets (proc_at i).
Definition pset (i : nat) (f : proc -> proc) : PM unit := modify (on_proc i f).
Definition onmem {A} (m : M mem A) : PM A := zoom (C := mem) m.
Definition onfiles {A} (m : M F A) : PM A := zoom (C := F) m.

(** The memory code run for process [i]. *)
Definition as_proc {A} (i : nat) (m : M vms A) : PM A := fun L s =>
  match m L (mkVms (pmem s) (pframes s) (sz (proc_at i s)) (pagetable (proc_at i s))) with
  | Ok a L' v => Ok a L' (on_proc i (with_sz (p_sz v))
                   (mkPtab (procs s) (cur s) (initproc s) (nextpid s) (vm_mem v) (frames v) (pfiles s)))
  | Panic e => Panic e
  | Undef e => Undef e
  | Blocked e => Blocked e
  | OutOfFuel => OutOfFuel
  end.

(** * The kernel's page table (kernel/vm.c) *)
Definition UART0 : Z := 0x10000000.
Definition VIRTIO0 : Z := 0x10001000.
Definition PLIC : Z := 0x0c000000.

Definition kvmmap (kpgtbl va pa size perm : Z) : M mem unit :=
  r ← mappages kpgtbl va size pa perm;
  if decide (r <> 0) then panic "kvmmap" else mret tt.

Definition mapstacks_body (kpgtbl : Z) (i : nat) : M mem (nat + unit) :=
  if decide (i < NPROC)%nat then
    pa ← kalloc;
    if decide (pa = 0) then panic "kalloc"
    else
      kvmmap kpgtbl (KSTACK (Z.of_nat i)) pa PGSIZE (Z.lor PTE_R PTE_W);;
      mret (inl (S i))
  else mret (inr tt).

Definition proc_mapstacks (kpgtbl : Z) : M mem unit := loop (S NPROC) (mapstacks_body kpgtbl) O.

Definition kvmmake : M mem Z :=
  kpgtbl ← kalloc;
  memset kpgtbl 0 PGSIZE;;
  kvmmap kpgtbl UART0 UART0 PGSIZE (Z.lor PTE_R PTE_W);;
  kvmmap kpgtbl VIRTIO0 VIRTIO0 PGSIZE (Z.lor PTE_R PTE_W);;
  kvmmap kpgtbl PLIC PLIC 0x4000000 (Z.lor PTE_R PTE_W);;
  kvmmap kpgtbl KERNBASE KERNBASE (etext - KERNBASE) (Z.lor PTE_R PTE_X);;
  kvmmap kpgtbl etext etext (PHYSTOP - etext) (Z.lor PTE_R PTE_W);;
  kvmmap kpgtbl TRAMPOLINE trampoline PGSIZE (Z.lor PTE_R PTE_X);;
  proc_mapstacks kpgtbl;;
  mret kpgtbl.

(** * The table *)
Definition procinit : PM unit :=
  modify (fun s => set_procs (imap (fun i p => with_kstack (KSTACK (Z.of_nat i)) (with_state UNUSED p)) (procs s)) s).

Definition allocpid : PM Z :=
  acquire pid_lock;;
  n ← gets nextpid;
  modify (fun s => mkPtab (procs s) (cur s) (initproc s) (s32 (n + 1)) (pmem s) (pframes s) (pfiles s));;
  release pid_lock;;
  mret n.

(** ** Page tables of processes *)
Definition proc_pagetable (i : nat) : PM Z :=
  p ← pof i;
  pt ← onmem uvmcreate;
  if decide (pt = 0) then mret 0
  else
    r ← onmem (mappages pt TRAMPOLINE PGSIZE trampoline (Z.lor PTE_R PTE_X));
    if decide (r < 0) then onmem (uvmfree pt 0);; mret 0
    else
      r ← onmem (mappages pt TRAPFRAME PGSIZE (trapframe p) (Z.lor PTE_R PTE_W));
      if decide (r < 0) then
        onmem (uvmunmap pt TRAMPOLINE 1 false);;
        onmem (uvmfree pt 0);;
        mret 0
      else mret pt.

Definition proc_freepagetable (pt size : Z) : PM unit :=
  onmem (uvmunmap pt TRAMPOLINE 1 false);;
  onmem (uvmunmap pt TRAPFRAME 1 false);;
  onmem (uvmfree pt size).

Definition freeproc (i : nat) : PM unit :=
  p ← pof i;
  (if decide (trapframe p = 0) then mret tt else onmem (kfree (trapframe p)));;
  (if decide (pagetable p = 0) then mret tt else proc_freepagetable (pagetable p) (sz p));;
  pset i freed.

(** The scan of allocproc: the lock of the entry that is found stays held. *)
Definition allocproc_body (i : nat) : PM (nat + option nat) :=
  if decide (i < NPROC)%nat then
    acquire (proc_lock i);;
    p ← pof i;
    if decide (state p = UNUSED) then mret (inr (Some i))
    else release (proc_lock i);; mret (inl (S i))
  else mret (inr None).

Definition allocproc : PM (option nat) :=
  o ← loop (S NPROC) allocproc_body O;
  match o with
  | None => mret None
  | Some i =>
      n ← allocpid;
      pset i (with_pid n);;
      pset i (with_state USED);;
      tf ← onmem kalloc;
      pset i (with_trapframe tf);;
      if decide (tf = 0) then freeproc i;; release (proc_lock i);; mret None
      else
        pt ← proc_pagetable i;
        pset i (with_pagetable pt);;
        if decide (pt = 0) then freeproc i;; release (proc_lock i);; mret None
        else
          p ← pof i;
          pset i (with_context forkret (kstack p + PGSIZE));;
          mret (Some i)
  end.

Definition userinit : PM unit :=
  o ← allocproc;
  modify (fun s => mkPtab (procs s) (cur s) o (nextpid s) (pmem s) (pframes s) (pfiles s));;
  match o with
  | None => undef "initproc"
  | Some i =>
      d ← onfiles r_root;
      pset i (with_pcwd d);;
      pset i (with_state RUNNABLE);;
      release (proc_lock i)
  end.

Definition growproc (n : Z) : PM Z :=
  i ← gets cur;
  p ← pof i;
  if decide (n > 0) then
    if decide (u64 (sz p + n) > TRAPFRAME) then mret (-1)
    else
      r ← onmem (uvmalloc (pagetable p) (sz p) (u64 (sz p + n)) PTE_W);
      if decide (r = 0) then mret (-1) else pset i (with_sz r);; mret 0
  else if decide (n < 0) then
    r ← onmem (uvmdealloc (pagetable p) (sz p) (u64 (sz p + n)));
    pset i (with_sz r);;
    mret 0
  else mret 0.

(** * fork *)
Definition TRAPFRAME_SIZE : Z := 288.
Definition TF_A0 : Z := 112.
Definition TF_EPC : Z := 24.

(** The descriptors of the parent are duplicated one by one. *)
Definition dupfiles_body (ps np : nat) (i : nat) : PM (nat + unit) :=
  if decide (i < 16)%nat then
    p ← pof ps;
    (match pr_ofile p !! i with
     | Some (Some f) => g ← onfiles (r_filedup f); pset np (with_ofile i (Some g))
     | _ => mret tt
     end);;
    mret (inl (S i))
  else mret (inr tt).

Definition kfork : PM Z :=
  i ← gets cur;
  o ← allocproc;
  match o with
  | None => mret (-1)
  | Some np =>
      p ← pof i;
      c ← pof np;
      r ← as_proc i (uvmcopy (pagetable p) (pagetable c) (sz p));
      if decide (r < 0) then freeproc np;; release (proc_lock np);; mret (-1)
      else
        pset np (with_sz (sz p));;
        onmem (memmove (trapframe c) (trapframe p) TRAPFRAME_SIZE);;
        onmem (store64 (trapframe c + TF_A0) 0);;
        loop 17 (dupfiles_body i np) O;;
        (match pr_cwd p with
         | Some d => d' ← onfiles (r_idup d); pset np (with_pcwd (Some d'))
         | None => undef "cwd"
         end);;
        (match safestrcpy (pname c) (pname p) 16 with
         | Some n => pset np (with_name n)
         | None => undef "name"
         end);;
        c ← pof np;
        release (proc_lock np);;
        acquire wait_lock;;
        pset np (with_parent (Some i));;
        release wait_lock;;
        acquire (proc_lock np);;
        pset np (with_state RUNNABLE);;
        release (proc_lock np);;
        mret (pid c)
  end.

(** * Sleeping and waking *)
Definition woken (c : wchan) (p : proc) : proc :=
  if decide (state p = SLEEPING /\ chan p = Some c) then with_state RUNNABLE p else p.

Definition wakeup_body (c : wchan) (i : nat) : PM (nat + unit) :=
  if decide (i < NPROC)%nat then
    me ← gets cur;
    (if decide (i = me) then mret tt
     else
       acquire (proc_lock i);;
       pset i (woken c);;
       release (proc_lock i));;
    mret (inl (S i))
  else mret (inr tt).

Definition wakeup (c : wchan) : PM unit := loop (S NPROC) (wakeup_body c) O.

(** sched up to swtch: the checks; the CPU is then in the scheduler. [noff] is
    the number of locks held. *)
Definition sched : PM unit := fun L s =>
  let i := cur s in
  if decide (proc_lock i ∈ L) then
    if decide (length L = 1%nat) then
      if decide (state (proc_at i s) = RUNNING) then Panic "sched RUNNING" else Ok tt L s
    else Panic "sched locks"
  else Panic "sched p->lock".

Definition yield : PM unit :=
  i ← gets cur;
  acquire (proc_lock i);;
  pset i (with_state RUNNABLE);;
  sched.

(** sleep up to the switch, and from the return of the switch on. *)
Definition sleep_enter (c : wchan) (lk : lock) : PM unit :=
  i ← gets cur;
  acquire (proc_lock i);;
  release lk;;
  pset i (with_chan (Some c));;
  pset i (with_state SLEEPING);;
  sched.

Definition sleep_exit (lk : lock) : PM unit :=
  i ← gets cur;
  pset i (with_chan None);;
  release (proc_lock i);;
  acquire lk.

(** One entry of the scheduler's scan: a RUNNABLE process becomes RUNNING, and
    its lock stays held for it. *)
Definition scheduler_pick (i : nat) : PM bool :=
  acquire (proc_lock i);;
  p ← pof i;
  if decide (state p = RUNNABLE) then
    pset i (with_state RUNNING);;
    modify (fun s => mkPtab (procs s) i (initproc s) (nextpid s) (pmem s) (pframes s) (pfiles s));;
    mret true
  else release (proc_lock i);; mret false.

(** * exit and wait *)
Definition reparent_body (p : nat) (i : nat) : PM (nat + unit) :=
  if decide (i < NPROC)%nat then
    pp ← pof i;
    (if decide (parent pp = Some p) then
       ip ← gets initproc;
       pset i (with_parent ip);;
       match ip with Some x => wakeup (ChProc x) | None => mret tt end
     else mret tt);;
    mret (inl (S i))
  else mret (inr tt).

Definition reparent (p : nat) : PM unit := loop (S NPROC) (reparent_body p) O.

Definition closefiles_body (ps : nat) (fd : nat) : PM (nat + unit) :=
  if decide (fd < 16)%nat then
    p ← pof ps;
    (match pr_ofile p !! fd with
     | Some (Some f) => onfiles (r_fileclose f);; pset ps (with_ofile fd None)
     | _ => mret tt
     end);;
    mret (inl (S fd))
  else mret (inr tt).

(** kexit up to the switch to the scheduler, from which it does not return. *)
Definition kexit (status : Z) : PM unit :=
  i ← gets cur;
  ini ← gets initproc;
  if decide (ini = Some i) then panic "init exiting"
  else
    loop 17 (closefiles_body i) O;;
    p ← pof i;
    (match pr_cwd p with Some d => onfiles (r_iput d) | None => undef "cwd" end);;
    pset i (with_pcwd None);;
    acquire wait_lock;;
    reparent i;;
    p ← pof i;
    (match parent p with Some x => wakeup (ChProc x) | None => mret tt end);;
    acquire (proc_lock i);;
    pset i (with_xstate status);;
    pset i (with_state ZOMBIE);;
    release wait_lock;;
    sched.

Definition killed (i : nat) : PM Z :=
  acquire (proc_lock i);;
  p ← pof i;
  release (proc_lock i);;
  mret (killed_flag p).

Definition setkilled (i : nat) : PM unit :=
  acquire (proc_lock i);;
  pset i (with_killed 1);;
  release (proc_lock i).

(** The scan of kwait: a result, or whether there are children. *)
Definition kwait_body (addr : Z) (me : nat) (x : nat * bool) : PM ((nat * bool) + (Z + bool)) :=
  let '(i, havekids) := x in
  if decide (i < NPROC)%nat then
    pp ← pof i;
    if decide (parent pp = Some me) then
      acquire (proc_lock i);;
      pp ← pof i;
      if decide (state pp = ZOMBIE) then
        p ← pof me;
        r ← (if decide (addr = 0) then mret 0
             else as_proc me (copyout (pagetable p) addr (le_bytes 4 (xstate pp))));
        if decide (r < 0) then
          release (proc_lock i);; release wait_lock;; mret (inr (inl (-1)))
        else
          freeproc i;;
          release (proc_lock i);;
          release wait_lock;;
          mret (inr (inl (pid pp)))
      else release (proc_lock i);; mret (inl (S i, true))
    else mret (inl (S i, havekids))
  else mret (inr (inr havekids)).

(** One round of kwait's loop with wait_lock held: the result, or [None] when it
    goes to sleep on its own process structure. *)
Definition kwait_round (addr : Z) : PM (option Z) :=
  me ← gets cur;
  r ← loop (S NPROC) (kwait_body addr me) (O, false);
  match r with
  | inl v => mret (Some v)
  | inr havekids =>
      k ← (if (havekids : bool) then killed me else mret 1);
      if negb havekids || negb (k =? 0) then release wait_lock;; mret (Some (-1))
      else sleep_enter (ChProc me) wait_lock;; mret None
  end.

Definition kwait (addr : Z) : PM (option Z) :=
  acquire wait_lock;;
  kwait_round addr.

Definition kkill_body (n : Z) (i : nat) : PM (nat + Z) :=
  if decide (i < NPROC)%nat then
    acquire (proc_lock i);;
    p ← pof i;
    if decide (pid p = n) then
      pset i (with_killed 1);;
      (if decide (state p = SLEEPING) then pset i (with_state RUNNABLE) else mret tt);;
      release (proc_lock i);;
      mret (inr 0)
    else release (proc_lock i);; mret (inl (S i))
  else mret (inr (-1)).

Definition kkill (n : Z) : PM Z := loop (S NPROC) (kkill_body n) O.
End Operations.
