(* ===== verification/SleepWake.v ===== *)
(** Sleep and wakeup of kernel/proc.c under every interleaving: processes wait for
    a condition with [sleep] and signal it with [wakeup] as the kernel's users do
    (the sleep locks, the pipes, the console), one statement at a time, the locks
    being the only synchronisation.  No wakeup is lost. *)
From S2P Require Import Prelude Proc.
From stdpp Require Import functions relations.
Local Open Scope Z_scope.

(** * The machine *)

(** Where a process is.  A waiter runs [acquire(lk); while(!ready) sleep(ch, lk);
    ready = 0; release(lk)], a signaller [acquire(lk); ready = 1; wakeup(ch);
    release(lk)].  [SAcquire] to [SLock] are the statements of sleep, [Asleep]
    being inside sched, and [KScan i], [KVisit i] and [KLeave i] those of the
    loop of wakeup at entry [i]. *)
Inductive pc :=
  | Idle
  | WLock | WCheck | WRelease
  | SAcquire | SRelease | SChan | SState | SSched | Asleep | SClear | SUnlock | SLock
  | KLock | KSet | KScan (i : nat) | KVisit (i : nat) | KLeave (i : nat) | KRelease.

#[export] Instance pc_eq_dec : EqDecision pc.
Proof. solve_decision. Defined.

(** The owners of the condition's lock and of the locks of the table. *)
Record machine := mkMachine {
  pcs : nat -> pc;
  tab : nat -> proc;
  ready : bool;
  lk_owner : option nat;
  p_owner : nat -> option nat
}.

Definition goto (t : nat) (p : pc) (m : machine) : machine :=
  mkMachine (<[t := p]> (pcs m)) (tab m) (ready m) (lk_owner m) (p_owner m).
Definition set_ready (b : bool) (m : machine) : machine := mkMachine (pcs m) (tab m) b (lk_owner m) (p_owner m).
Definition set_lk (o : option nat) (m : machine) : machine := mkMachine (pcs m) (tab m) (ready m) o (p_owner m).
Definition set_plock (i : nat) (o : option nat) (m : machine) : machine :=
  mkMachine (pcs m) (tab m) (ready m) (lk_owner m) (<[i := o]> (p_owner m)).
Definition set_proc (i : nat) (f : proc -> proc) (m : machine) : machine :=
  mkMachine (pcs m) (<[i := f (tab m i)]> (tab m)) (ready m) (lk_owner m) (p_owner m).

Section Machine.
(** The channel. *)
Variable ch : wchan.

(** Taking a lock, or waiting for it. *)
Definition take_lk (t : nat) (p : pc) (m : machine) : machine :=
  match lk_owner m with None => goto t p (set_lk (Some t) m) | Some _ => m end.
Definition take_plock (t i : nat) (p : pc) (m : machine) : machine :=
  match p_owner m i with None => goto t p (set_plock i (Some t) m) | Some _ => m end.

(** One statement of process [t].  A sleeping process goes on when it is runnable
    and a scheduler picks it, which takes its lock and makes it RUNNING. *)
Definition run (t : nat) (m : machine) : machine :=
  match pcs m t with
  | Idle => m
  | WLock => take_lk t WCheck m
  | WCheck => if ready m then goto t WRelease (set_ready false m) else goto t SAcquire m
  | WRelease | KRelease => goto t Idle (set_lk None m)
  | SAcquire => take_plock t t SRelease m
  | SRelease => goto t SChan (set_lk None m)
  | SChan => goto t SState (set_proc t (with_chan (Some ch)) m)
  | SState => goto t SSched (set_proc t (with_state SLEEPING) m)
  | SSched => goto t Asleep (set_plock t None m)
  | Asleep =>
      if decide (state (tab m t) = RUNNABLE) then take_plock t t SClear (if decide (p_owner m t = None) then set_proc t (with_state RUNNING) m else m)
      else m
  | SClear => goto t SUnlock (set_proc t (with_chan None) m)
  | SUnlock => goto t SLock (set_plock t None m)
  | SLock => take_lk t WCheck m
  | KLock => take_lk t KSet m
  | KSet => goto t (KScan 0) (set_ready true m)
  | KScan i => if decide (i < NPROC)%nat then if decide (i = t) then goto t (KScan (S i)) m else take_plock t i (KVisit i) m else goto t KRelease m
  | KVisit i => goto t (KLeave i) (set_proc i (woken ch) m)
  | KLeave i => goto t (KScan (S i)) (set_plock i None m)
  end.

(** Any process may start to wait or to signal, and kkill may wake a sleeper. *)
Inductive step : machine -> machine -> Prop :=
  | step_run t m : step m (run t m)
  | step_wait t m : (t < NPROC)%nat -> pcs m t = Idle -> step m (goto t WLock m)
  | step_signal t m : (t < NPROC)%nat -> pcs m t = Idle -> step m (goto t KLock m)
  | step_kill i m : p_owner m i = None -> state (tab m i) = SLEEPING -> step m (set_proc i (fun p => with_state RUNNABLE (with_killed 1 p)) m).

Definition init (m : machine) : Prop :=
  (forall t, pcs m t = Idle) /\ (forall i, state (tab m i) <> SLEEPING /\ p_owner m i = None) /\ lk_owner m = None.

(** * The invariant *)
Definition holds_lk (p : pc) : Prop :=
  match p with WCheck | WRelease | SAcquire | SRelease | KSet | KScan _ | KVisit _ | KLeave _ | KRelease => True | _ => False end.
Definition holds_own (p : pc) : Prop :=
  match p with SRelease | SChan | SState | SSched | SClear | SUnlock => True | _ => False end.
Definition visits (i : nat) (p : pc) : Prop := match p with KVisit j | KLeave j => i = j | _ => False end.

(** Entry [i] is still to be visited by this call of wakeup. *)
Definition to_visit (i : nat) (p : pc) : Prop :=
  match p with KScan j | KVisit j => (j <= i)%nat | KLeave j => (j < i)%nat | _ => False end.

(** What the code of process [i] says of its entry. *)
Definition entry_ok (p : pc) (x : proc) : Prop :=
  match p with
  | SState => state x <> SLEEPING /\ chan x = Some ch
  | SSched => state x = SLEEPING /\ chan x = Some ch
  | Asleep => state x = SLEEPING -> chan x = Some ch
  | _ => state x <> SLEEPING
  end.

(** Process [i] has decided to sleep, or sleeps. *)
Definition decided (p : pc) (x : proc) : Prop :=
  match p with SChan | SState | SSched => True | Asleep => state x = SLEEPING | _ => False end.

Record inv (m : machine) : Prop := {
  i_lk : forall t, lk_owner m = Some t <-> holds_lk (pcs m t);
  i_own : forall i t, p_owner m i = Some t <-> (t = i /\ holds_own (pcs m i)) \/ visits i (pcs m t);
  i_entry : forall i, entry_ok (pcs m i) (tab m i);
  i_range : forall t, pcs m t <> Idle -> (t < NPROC)%nat;
  i_self : forall t, ~ visits t (pcs m t);
  (** Between the test of the condition and sleep's release of its lock the
      condition is false; later a signaller is on its way. *)
  i_false : forall i, pcs m i = SAcquire \/ pcs m i = SRelease -> ready m = false;
  i_promise : forall i, decided (pcs m i) (tab m i) -> ready m = true -> exists t, to_visit i (pcs m t)
}.

(** ** It is preserved *)

(** A step of process [t], which keeps the others where they are. *)
Lemma inv_update t p m tab' ready' lk' po' : inv m -> (t < NPROC)%nat ->
  (lk' = Some t <-> holds_lk p) -> (forall x, x <> t -> lk' = Some x <-> lk_owner m = Some x) ->
  (forall i, po' i = Some t <-> (t = i /\ holds_own p) \/ visits i p) -> (forall i x, x <> t -> po' i = Some x <-> p_owner m i = Some x) ->
  ~ visits t p -> entry_ok p (tab' t) -> (forall i, i <> t -> entry_ok (pcs m i) (tab' i)) ->
  (p = SAcquire \/ p = SRelease -> ready' = false) -> (forall i, i <> t -> pcs m i = SAcquire \/ pcs m i = SRelease -> ready' = false) ->
  (decided p (tab' t) -> ready' = true -> exists x, x <> t /\ to_visit t (pcs m x)) ->
  (forall i, i <> t -> (i < NPROC)%nat -> decided (pcs m i) (tab' i) -> ready' = true -> to_visit i p \/ exists x, x <> t /\ to_visit i (pcs m x)) ->
  inv (mkMachine (<[t := p]> (pcs m)) tab' ready' lk' po').
Proof.
  intros [Hlk Hown Hent Hran Hself Hf Hp] Ht L1 L2 O1 O2 V E1 E2 F1 F2 D1 D2. unfold insert, fn_insert. split; cbn.
  - intros x. case_decide as Hd; [by subst|]. by rewrite L2.
  - intros i x. destruct (decide (t = x)) as [->|Hx].
    + rewrite O1. case_decide; subst; [done|]. naive_solver.
    + rewrite O2, Hown by done. case_decide; [naive_solver|done].
  - intros i. case_decide; [by subst|by auto].
  - intros x Hx. case_decide; [by subst|by auto].
  - intros x. case_decide; [by subst|done].
  - intros i Hi. case_decide; [by auto|by eapply F2].
  - intros i Hi Hr. case_decide as Hd; [subst i; destruct (D1 Hi Hr) as (x & Hx & Hv); exists x; by rewrite decide_False|].
    assert (Hi' : (i < NPROC)%nat) by (apply Hran; intros E; unfold decided in Hi; by rewrite E in Hi).
    destruct (D2 i) as [Hv|(x & Hx & Hv)]; try done; [exists t; by rewrite decide_True|exists x; by rewrite decide_False].
Qed.

(** The same for a step that keeps the condition and the entries: the promise
    is kept if the step leaves no entry unvisited. *)
Lemma inv_move t p m lk' po' : inv m -> (t < NPROC)%nat ->
  (lk' = Some t <-> holds_lk p) -> (forall x, x <> t -> lk' = Some x <-> lk_owner m = Some x) ->
  (forall i, po' i = Some t <-> (t = i /\ holds_own p) \/ visits i p) -> (forall i x, x <> t -> po' i = Some x <-> p_owner m i = Some x) ->
  ~ visits t p -> entry_ok p (tab m t) -> (p = SAcquire \/ p = SRelease -> ready m = false) ->
  (decided p (tab m t) -> decided (pcs m t) (tab m t) \/ ready m = false) ->
  (forall i, i <> t -> (i < NPROC)%nat -> to_visit i (pcs m t) -> to_visit i p) ->
  (forall i, decided (pcs m t) (tab m t) -> ~ to_visit i (pcs m t)) ->
  inv (mkMachine (<[t := p]> (pcs m)) (tab m) (ready m) lk' po').
Proof.
  intros Hi Ht L1 L2 O1 O2 V E1 F1 D1 D2 D3. pose proof Hi as [Hlk Hown Hent Hran Hself Hf Hp].
  apply inv_update; try done; [by eauto| |].
  - intros Hd Hr. destruct (D1 Hd) as [Hd'|]; [|congruence]. destruct (Hp t Hd' Hr) as (x & Hx). exists x. split; [|done].
    intros ->. by eapply D3.
  - intros i Hne Hlt Hd Hr. destruct (Hp i Hd Hr) as (x & Hx). destruct (decide (x = t)) as [->|]; [left; by apply D2|right; by exists x].
Qed.

Lemma own_at t i m : inv m -> p_owner m i = Some t <-> (t = i /\ holds_own (pcs m t)) \/ visits i (pcs m t).
Proof. intros Hi. rewrite (i_own _ Hi). split; intros [[-> ?]|?]; auto. Qed.

(** What a process that moves from [p0] to [p] must say for itself. *)
Record move_ok (m : machine) (t : nat) (p : pc) : Prop := {
  mo_entry : entry_ok p (tab m t);
  mo_false : p = SAcquire \/ p = SRelease -> ready m = false;
  mo_decided : decided p (tab m t) -> decided (pcs m t) (tab m t) \/ ready m = false;
  mo_visit : forall i, i <> t -> (i < NPROC)%nat -> to_visit i (pcs m t) -> to_visit i p;
  mo_sleeps : forall i, decided (pcs m t) (tab m t) -> ~ to_visit i (pcs m t)
}.

Section Moves.
Context (t : nat) (p : pc) (m : machine).
Context (Hi : inv m) (Hidle : pcs m t <> Idle) (Hok : move_ok m t p).

Lemma own_same : (holds_own p <-> holds_own (pcs m t)) -> (forall i, visits i p <-> visits i (pcs m t)) ->
  forall i, p_owner m i = Some t <-> (t = i /\ holds_own p) \/ visits i p.
Proof using All. intros P2 P3 i. by rewrite own_at, P2, P3. Qed.

Lemma self_same : (forall i, visits i p <-> visits i (pcs m t)) -> ~ visits t p.
Proof using All. intros P3. rewrite P3. apply Hi. Qed.

Lemma move_goto : (holds_lk p <-> holds_lk (pcs m t)) -> (holds_own p <-> holds_own (pcs m t)) ->
  (forall i, visits i p <-> visits i (pcs m t)) -> inv (goto t p m).
Proof using All.
  intros P1 P2 P3. apply (inv_move t p m); [done|by apply Hi|by rewrite (i_lk _ Hi), P1|done|by apply own_same|done|by apply self_same|apply Hok..].
Qed.

Lemma move_take_lk : holds_lk p -> (holds_own p <-> holds_own (pcs m t)) ->
  (forall i, visits i p <-> visits i (pcs m t)) -> inv (take_lk t p m).
Proof using All.
  intros P1 P2 P3. unfold take_lk. destruct (lk_owner m) eqn:E; [done|].
  apply (inv_move t p m); [done|by apply Hi|done| |by apply own_same|done|by apply self_same|apply Hok..].
  intros x Hx. cbn. rewrite E. split; congruence.
Qed.

Lemma move_drop_lk : holds_lk (pcs m t) -> ~ holds_lk p -> (holds_own p <-> holds_own (pcs m t)) ->
  (forall i, visits i p <-> visits i (pcs m t)) -> inv (goto t p (set_lk None m)).
Proof using All.
  intros P0%(i_lk _ Hi) P1 P2 P3.
  apply (inv_move t p m); [done|by apply Hi|done| |by apply own_same|done|by apply self_same|apply Hok..].
  intros x Hx. cbn. rewrite P0. split; congruence.
Qed.

(** Lock [i] of the table is the one that [p] holds and the old place did not. *)
Lemma move_take_plock i : (holds_lk p <-> holds_lk (pcs m t)) -> (forall j, ~ ((t = j /\ holds_own (pcs m t)) \/ visits j (pcs m t))) ->
  (forall j, (t = j /\ holds_own p) \/ visits j p <-> i = j) -> ~ visits t p -> inv (take_plock t i p m).
Proof using All.
  intros P1 P2 P3 P4. unfold take_plock. destruct (p_owner m i) eqn:E; [done|].
  apply (inv_move t p m); [done|by apply Hi|by rewrite (i_lk _ Hi), P1|done| | |done|apply Hok..]; intros j; cbn [p_owner set_plock]; unfold insert, fn_insert.
  - rewrite P3. case_decide; [by subst|]. rewrite (i_own _ Hi). split; [|done]. intros Hx. exfalso. apply (P2 j). destruct Hx as [[-> ?]|?]; auto.
  - intros x Hx. case_decide; [subst; rewrite E; split; congruence|done].
Qed.

Lemma move_drop_plock i : (holds_lk p <-> holds_lk (pcs m t)) -> (forall j, (t = j /\ holds_own (pcs m t)) \/ visits j (pcs m t) <-> i = j) ->
  (forall j, ~ ((t = j /\ holds_own p) \/ visits j p)) -> ~ visits t p -> inv (goto t p (set_plock i None m)).
Proof using All.
  intros P1 P2 P3 P4.
  assert (E : forall j, p_owner m j = Some t <-> i = j) by (intros j; rewrite (i_own _ Hi), <- P2; split; intros [[-> ?]|?]; auto).
  apply (inv_move t p m); [done|by apply Hi|by rewrite (i_lk _ Hi), P1|done| | |done|apply Hok..]; intros j; cbn [p_owner set_plock]; unfold insert, fn_insert.
  - split; [|by intros []%P3]. case_decide; [done|]. by rewrite E.
  - intros x Hx. case_decide; [subst; rewrite (proj2 (E j)) by done; split; congruence|done].
Qed.
End Moves.

Lemma set_proc_eq i f m : tab (set_proc i f m) i = f (tab m i).
Proof. cbn. by rewrite fn_lookup_insert. Qed.
Lemma set_proc_ne i j f m : i <> j -> tab (set_proc i f m) j = tab m j.
Proof. intros. cbn. by rewrite fn_lookup_insert_ne. Qed.

Lemma set_plock_tab i o m : tab (set_plock i o m) = tab m.
Proof. done. Qed.

(** A process that holds its own lock, and only that, changes its entry. *)
Lemma move_entry t p f m : inv m -> pcs m t <> Idle -> holds_own (pcs m t) -> ~ holds_lk (pcs m t) ->
  holds_own p -> ~ holds_lk p -> (forall i, ~ visits i p) -> (forall i, ~ to_visit i (pcs m t)) -> entry_ok p (f (tab m t)) ->
  (decided p (f (tab m t)) -> decided (pcs m t) (tab m t)) -> p <> SRelease -> inv (goto t p (set_proc t f m)).
Proof.
  intros Hi Hidle O L O' L' V T E D N. pose proof (i_own _ Hi) as Hown.
  assert (Hv : forall i, ~ visits i (pcs m t)) by (intros i; by destruct (pcs m t)).
  apply (inv_update t p m); rewrite ?set_proc_eq; try done.
  - by apply Hi.
  - cbn. rewrite (i_lk _ Hi). done.
  - intros i. cbn. rewrite Hown. split; [intros [[-> ?]|[]%Hv]; auto|intros [[-> ?]|[]%V]; auto].
  - intros i Hne. rewrite set_proc_ne by done. apply Hi.
  - intros [-> | ->]; done.
  - intros i Hne. apply (i_false _ Hi).
  - intros Hd Hr. apply D in Hd. destruct (i_promise _ Hi t Hd Hr) as (x & Hx). exists x. split; [|done]. by intros ->; apply T in Hx.
  - intros i Hne Hlt Hd Hr. rewrite set_proc_ne in Hd by done. destruct (i_promise _ Hi i Hd Hr) as (x & Hx). right. exists x. split; [|done].
    by intros ->; apply T in Hx.
Qed.

(** The side conditions of the moves, the place [E] being known. *)
Ltac side E := rewrite ?E; cbn; first [done | tauto | (by intros [?|?]) | (intros; lia) | naive_solver].
Ltac moved E := split; side E.

(** The condition is only tested, set and reset by the holder of its lock. *)
Lemma check_inv t m : inv m -> pcs m t = WCheck -> inv (run t m).
Proof.
  intros Hi E. pose proof (i_entry _ Hi t) as Hent. rewrite E in Hent. unfold run. rewrite E. destruct (ready m) eqn:Er.
  - apply (inv_update t WRelease m); try done; try (by intros []).
    + apply Hi. by rewrite E.
    + cbn. by rewrite (i_lk _ Hi), E.
    + intros i. cbn. rewrite own_at, E by done. cbn. naive_solver.
    + intros i _. apply Hi.
  - apply move_goto; [done|by rewrite E|moved E|side E..].
Qed.

Lemma set_inv t m : inv m -> pcs m t = KSet -> inv (run t m).
Proof.
  intros Hi E. pose proof (i_entry _ Hi t) as Hent. rewrite E in Hent. unfold run. rewrite E.
  assert (Hlk : lk_owner m = Some t) by by rewrite (i_lk _ Hi), E.
  apply (inv_update t (KScan 0) m); try done; try (by intros []).
  - apply Hi. by rewrite E.
  - intros i. cbn. rewrite own_at, E by done. cbn. naive_solver.
  - intros i _. apply Hi.
  - intros i Hne Hs. exfalso. apply Hne. assert (lk_owner m = Some i) by (apply (i_lk _ Hi); by destruct Hs as [-> | ->]). congruence.
  - intros i _ _ _ _. left. cbn. lia.
Qed.

(** A scheduler picks a runnable process. *)
Lemma wake_inv t m : inv m -> pcs m t = Asleep -> inv (run t m).
Proof.
  intros Hi E. unfold run. rewrite E. case_decide as Hs; [|done]. unfold take_plock. destruct (p_owner m t) as [o|] eqn:Eo.
  { rewrite decide_False by done. by rewrite Eo. }
  rewrite decide_True by done. cbn [p_owner set_proc]. rewrite Eo. apply (inv_update t SClear m); rewrite ?set_plock_tab, ?set_proc_eq; try done; try (by intros []).
  - apply Hi. by rewrite E.
  - cbn. by rewrite (i_lk _ Hi), E.
  - intros i. cbn. unfold insert, fn_insert. case_decide as Hd; [subst; naive_solver|]. rewrite own_at, E by done. cbn. naive_solver.
  - intros i x Hx. cbn. unfold insert, fn_insert. case_decide; [subst; rewrite Eo; split; congruence|done].
  - intros i Hne. rewrite set_proc_ne by done. apply Hi.
  - intros i _. apply (i_false _ Hi).
  - intros i Hne Hlt Hd Hr. rewrite set_proc_ne in Hd by done. destruct (i_promise _ Hi i Hd Hr) as (x & Hx). right. exists x. split; [|done].
    intros ->. by rewrite E in Hx.
Qed.

(** A visit of wakeup: the entry is locked, so its process is not on its way to
    sleep, and it is woken if it sleeps on the channel. *)
Lemma visit_inv t i m : inv m -> pcs m t = KVisit i -> inv (run t m).
Proof.
  intros Hi E. pose proof (i_entry _ Hi t) as Hent. rewrite E in Hent. unfold run. rewrite E.
  assert (Hown : p_owner m i = Some t) by (rewrite (i_own _ Hi), E; by right).
  assert (Hit : i <> t) by (intros ->; apply (i_self _ Hi t); by rewrite E).
  assert (Hno : ~ holds_own (pcs m i)).
  { intros Ho. assert (p_owner m i = Some i) by (apply (i_own _ Hi); auto). congruence. }
  assert (Hw : entry_ok (pcs m i) (woken ch (tab m i)) /\ ~ decided (pcs m i) (woken ch (tab m i))).
  { pose proof (i_entry _ Hi i) as He. unfold woken. case_decide as Hd; destruct (pcs m i); cbn in *; try done; try tauto; split; try done; tauto. }
  apply (inv_update t (KLeave i) m); try done; try (by intros []).
  - apply Hi. by rewrite E.
  - cbn. by rewrite (i_lk _ Hi), E.
  - intros j. cbn. rewrite own_at, E by done. cbn. naive_solver.
  - cbn. congruence.
  - by rewrite set_proc_ne.
  - intros j Hne. destruct (decide (i = j)) as [->|]; [rewrite set_proc_eq; apply Hw|rewrite set_proc_ne by done; apply Hi].
  - intros j _. apply (i_false _ Hi).
  - intros j Hne Hlt Hd Hr. destruct (decide (i = j)) as [->|Hij]; [rewrite set_proc_eq in Hd; by apply Hw in Hd|]. rewrite set_proc_ne in Hd by done.
    destruct (i_promise _ Hi j Hd Hr) as (x & Hx). destruct (decide (x = t)) as [->|]; [|right; by exists x]. left. rewrite E in Hx. cbn in *. lia.
Qed.

Lemma sleep_run_inv t m : inv m -> inv (run t m).
Proof.
  intros Hi. pose proof (i_entry _ Hi t) as Hent. pose proof (i_false _ Hi t) as Hf. pose proof (i_self _ Hi t) as Hself.
  destruct (pcs m t) as [| | | | | | | | | | | | | | |i|i|i|] eqn:E;
    [unfold run; by rewrite E| |by apply check_inv| | | | | | |by apply wake_inv| | | | |by apply set_inv| |by apply (visit_inv t i)| |];
    unfold run; rewrite E; cbn in Hent.
  1, 10, 11: apply move_take_lk; [done|by rewrite E|moved E|side E..].
  1, 3: apply move_drop_lk; [done|by rewrite E|moved E|side E..].
  - apply move_take_plock; [done|by rewrite E|moved E|side E..].
  - apply move_entry; [done|by rewrite E|side E..].
  - apply move_entry; [done|by rewrite E|side E..].
  - apply move_drop_plock; [done|by rewrite E|moved E|side E..].
  - apply move_entry; [done|by rewrite E|side E..].
  - apply move_drop_plock; [done|by rewrite E|moved E|side E..].
  - case_decide; [case_decide|].
    + apply move_goto; [done|by rewrite E|moved E|side E..].
    + apply move_take_plock; [done|by rewrite E|moved E|side E..].
    + apply move_goto; [done|by rewrite E|moved E|side E..].
  - apply move_drop_plock; [done|by rewrite E|moved E|side E..].
  - apply move_drop_lk; [done|by rewrite E|moved E|side E..].
Qed.

(** Starting to wait or to signal. *)
Lemma start_inv t p m : inv m -> (t < NPROC)%nat -> pcs m t = Idle -> p = WLock \/ p = KLock -> inv (goto t p m).
Proof.
  intros Hi Ht E Hp. pose proof (i_entry _ Hi t) as Hent. rewrite E in Hent.
  destruct Hp as [-> | ->]; (apply (inv_move t _ m);
    [done|done|by rewrite (i_lk _ Hi), E|done|by intros i; rewrite own_at, E by done|done|by intros []|done|by intros [|]|done|by rewrite E|by rewrite E]).
Qed.

Lemma kill_inv i m : inv m -> p_owner m i = None -> state (tab m i) = SLEEPING ->
  inv (set_proc i (fun p => with_state RUNNABLE (with_killed 1 p)) m).
Proof.
  intros Hi Ho Hs. assert (E : pcs m i = Asleep).
  { pose proof (i_entry _ Hi i) as He. destruct (pcs m i) eqn:E; cbn in He; try done; try tauto.
    assert (p_owner m i = Some i) by (rewrite own_at, E by done; by left). congruence. }
  destruct (Hi) as [Hlk Hown Hent Hran Hself Hf Hp].
  split; try done.
  - intros j. destruct (decide (i = j)) as [<-|]; [rewrite set_proc_eq|rewrite set_proc_ne by done; apply Hent]. cbn. by rewrite E.
  - intros j Hd Hr. destruct (decide (i = j)) as [<-|]; [rewrite set_proc_eq in Hd; cbn in Hd; by rewrite E in Hd|]. rewrite set_proc_ne in Hd by done. by apply Hp.
Qed.

Lemma step_inv m m' : inv m -> step m m' -> inv m'.
Proof.
  intros Hi Hs. revert Hi. destruct Hs; intros Hi; [by apply sleep_run_inv|apply start_inv; auto|apply start_inv; auto|by apply kill_inv].
Qed.

Lemma init_inv m : init m -> inv m.
Proof.
  intros (Hpc & Hst & Hlk). split; intros; rewrite ?Hpc in *; cbn in *; try done; [by rewrite Hlk| |by apply Hst|by intros []|naive_solver].
  destruct (Hst i) as [_ ->]. naive_solver.
Qed.

Lemma reachable_inv m0 m : init m0 -> rtc step m0 m -> inv m.
Proof. intros H0%init_inv Hr. induction Hr as [|m m1 m2 Hs _ IH]; [done|]. by apply IH, (step_inv m). Qed.

(** C9. No wakeup is lost: whatever the interleaving of processes that wait for a
    condition with sleep and signal it with wakeup, and whatever processes are
    killed, if the condition holds and a process sleeps on the channel then a
    process that holds the condition's lock is inside wakeup and has still to
    visit the sleeper.  So once the signallers have left the lock, nobody sleeps
    while the condition holds. *)
Theorem no_lost_wakeup m0 m i :
  init m0 -> rtc step m0 m -> state (tab m i) = SLEEPING -> ready m = true ->
  exists t, lk_owner m = Some t /\ to_visit i (pcs m t).
Proof.
  intros H0 Hr Hs Hrd. pose proof (reachable_inv _ _ H0 Hr) as Hi.
  destruct (i_promise _ Hi i) as (t & Ht); [|done|].
  - pose proof (i_entry _ Hi i) as He. destruct (pcs m i); cbn in *; try done; tauto.
  - exists t. split; [|done]. apply (i_lk _ Hi). by destruct (pcs m t).
Qed.
End Machine.

(** * A run: process 0 goes to sleep, process 1 signals *)
Fixpoint runs (ch : wchan) (ts : list nat) (m : machine) : machine :=
  match ts with [] => m | t :: ts' => runs ch ts' (run ch t m) end.

Lemma runs_steps ch ts m : rtc (step ch) m (runs ch ts m).
Proof. revert m. induction ts as [|t ts IH]; intros m; [done|]. eapply rtc_l; [apply step_run|apply IH]. Qed.

Definition boot : machine := mkMachine (fun _ => Idle) (fun _ => no_proc) false None (fun _ => None).
Definition both : machine := goto 1 KLock (goto 0 WLock boot).
Definition signalled : machine := runs (ChAddr 0) [0; 0; 0; 0; 0; 0; 0; 1; 1]%nat both.

Lemma no_lost_wakeup_witness :
  exists t, lk_owner signalled = Some t /\ to_visit 0 (pcs signalled t).
Proof.
  apply (no_lost_wakeup (ChAddr 0) boot signalled 0); [done| |by vm_compute|by vm_compute].
  eapply rtc_l; [apply (step_wait _ 0); [unfold NPROC; lia|done]|]. eapply rtc_l; [apply (step_signal _ 1); [unfold NPROC; lia|done]|].
  apply runs_steps.
Defined.
