(* ===== verification/ProcSpec.v ===== *)
(** What the operations of kernel/proc.c do to the process table: wakeup, kkill,
    reparent and the checks of sched. *)
From S2P Require Import Prelude Riscv PhysMem Kalloc PageTable Vm VmFree Shm Fork UserMem CStrings Block Proc.
Local Open Scope Z_scope.

(** The locks of the table that a scan by process [me] takes. *)
Definition table_locks (me : option nat) : list lock :=
  proc_lock <$> filter (fun i => Some i <> me) (seq 0 NPROC).

Lemma table_locks_avail me i L : avail (table_locks me) L -> (i < NPROC)%nat -> Some i <> me -> proc_lock i ∉ L.
Proof. intros HL Hi Hm. apply HL, list_elem_of_fmap_2, list_elem_of_filter. split; [done|]. apply elem_of_seq. lia. Qed.

(** Updating the entries below [i] one after the other. *)
Definition upto (i : nat) (f : nat -> proc -> proc) (t : list proc) : list proc :=
  imap (fun j p => if decide (j < i)%nat then f j p else p) t.

Lemma upto_0 f t : upto 0 f t = t.
Proof. unfold upto. apply list_eq. intros j. rewrite list_lookup_imap. by destruct (t !! j). Qed.

Lemma upto_S i f t : upto (S i) f t = alter (f i) i (upto i f t).
Proof.
  unfold upto. apply list_eq. intros j. destruct (decide (i = j)) as [->|Hne].
  - rewrite list_lookup_alter_eq, !list_lookup_imap. destruct (t !! j); cbn; [|done]. by rewrite decide_True, decide_False by lia.
  - rewrite list_lookup_alter_ne, !list_lookup_imap by done. destruct (t !! j); cbn; [|done]. repeat case_decide; done || lia.
Qed.

Lemma upto_all f t : length t = NPROC -> upto NPROC f t = imap f t.
Proof.
  intros Hl. unfold upto. apply list_eq. intros j. rewrite !list_lookup_imap. destruct (t !! j) eqn:E; cbn; [|done].
  apply lookup_lt_Some in E. by rewrite decide_True by lia.
Qed.

Lemma upto_id i f t : (forall p, f i p = p) -> upto (S i) f t = upto i f t.
Proof. intros Hf. rewrite upto_S. apply list_eq. intros j. destruct (decide (i = j)) as [->|]; [rewrite list_lookup_alter_eq|by rewrite list_lookup_alter_ne]. destruct (upto j f t !! j); cbn; by rewrite ?Hf. Qed.

Lemma length_upto i f t : length (upto i f t) = length t.
Proof. apply length_imap. Qed.

Section Spec.
Context {F : Type}.
Implicit Types (s : ptab F) (L : list lock).

Lemma wakeup_wp c L s : length (procs s) = NPROC -> avail (table_locks (Some (cur s))) L ->
  wp (wakeup c) L s (fun _ s' => s' = set_procs (imap (fun i => if decide (i = cur s) then id else woken c) (procs s)) s).
Proof.
  intros Hl HL. unfold wakeup. set (f := fun i => if decide (i = cur s) then id else woken c).
  apply (wpl_loop (fun i s1 => (i <= NPROC)%nat /\ s1 = set_procs (upto i f (procs s)) s) (fun i => NPROC - i)%nat).
  - intros i ? (Hi & ->). unfold wakeup_body, pset. wstep. wcase as Hlt; last first.
    { wsteps. split; [done|]. replace i with NPROC by lia. by rewrite upto_all. }
    wsteps. cbn [cur set_procs]. wcase as Hme; [wsteps|wstep].
    + split; [done|]. split; [|lia]. split; [lia|]. rewrite upto_id; [done|]. intros p. unfold f. by rewrite decide_True.
    + apply wpl_acquire; [eapply table_locks_avail; [done|lia|congruence]|]. wsteps. split; [done|]. split; [|lia]. split; [lia|].
      rewrite upto_S. unfold on_proc, set_procs. cbn [procs cur initproc nextpid pmem pframes pfiles]. replace (f i) with (woken c); [done|]. unfold f. by rewrite decide_False.
  - split; [unfold NPROC; lia|]. rewrite upto_0. by destruct s.
  - lia.
Qed.

(** wakeup wakes exactly the sleepers: every process but the caller that sleeps
    on the channel becomes RUNNABLE, and nothing else of the table or of the rest
    of the state changes. *)
Theorem wakeup_correct c L s : length (procs s) = NPROC -> avail (table_locks (Some (cur s))) L ->
  wp (wakeup c) L s (fun _ s' => s' = set_procs (procs s') s /\ forall i p, procs s !! i = Some p ->
    procs s' !! i = Some (if decide (i <> cur s /\ state p = SLEEPING /\ chan p = Some c) then with_state RUNNABLE p else p)).
Proof.
  intros Hl HL. eapply wp_mono; [by apply wakeup_wp|]. intros ? s' ->. split; [done|]. intros i p Hi. cbn. rewrite list_lookup_imap, Hi. cbn.
  unfold woken. f_equal. repeat case_decide; tauto || done.
Qed.

(** What reparent may do to an entry: give it to init if [p] was its parent, and
    wake it if it is init, waiting for a child. *)
Definition reparented (p ini : nat) (handed : bool) (x y : proc) : Prop :=
  exists z, (z = x \/ z = woken (ChProc ini) x) /\ y = if decide (handed = true /\ parent x = Some p) then with_parent (Some ini) z else z.

Lemma woken_parent c x : parent (woken c x) = parent x.
Proof. unfold woken. by case_decide. Qed.

Lemma woken_twice c x : woken c (woken c x) = woken c x.
Proof. unfold woken. repeat case_decide; cbn in *; naive_solver. Qed.

Lemma woken_with_parent c o x : woken c (with_parent o x) = with_parent o (woken c x).
Proof. unfold woken. by repeat case_decide. Qed.

Lemma reparented_woken p ini h x y : reparented p ini h x y -> reparented p ini h x (woken (ChProc ini) y).
Proof.
  intros (z & Hz & ->). exists (woken (ChProc ini) z). split; [destruct Hz as [-> | ->]; rewrite ?woken_twice; auto|].
  case_decide; by rewrite ?woken_with_parent.
Qed.

Lemma reparented_hand p ini x y : reparented p ini false x y -> parent x = Some p -> reparented p ini true x (with_parent (Some ini) y).
Proof. intros (z & Hz & ->) Hp. exists z. split; [done|]. by rewrite decide_False, decide_True by naive_solver. Qed.

Lemma reparented_keep p ini x y : reparented p ini false x y -> parent x <> Some p -> reparented p ini true x y.
Proof. intros (z & Hz & ->) Hp. exists z. split; [done|]. by rewrite !decide_False by naive_solver. Qed.

Lemma reparented_parent p ini x y : reparented p ini false x y -> parent y = parent x.
Proof. intros (z & [-> | ->] & ->); rewrite decide_False by naive_solver; [done|apply woken_parent]. Qed.

(** After entry [i] was handled. *)
Definition reparented_upto (p ini i : nat) s s1 : Prop :=
  s1 = set_procs (procs s1) s /\ length (procs s1) = length (procs s) /\
  forall j x, procs s !! j = Some x -> exists y, procs s1 !! j = Some y /\ reparented p ini (bool_decide (j < i)%nat) x y.

Lemma reparent_wp p ini L s : length (procs s) = NPROC -> initproc s = Some ini -> avail (table_locks (Some (cur s))) L ->
  wp (reparent p) L s (fun _ s' => reparented_upto p ini NPROC s s').
Proof.
  intros Hl Hini HL. unfold reparent.
  apply (wpl_loop (fun i s1 => (i <= NPROC)%nat /\ reparented_upto p ini i s s1) (fun i => NPROC - i)%nat).
  - intros i s1 (Hi & Hs1 & Hl1 & Hrep). unfold reparent_body, pof, pset. wstep. wcase as Hlt; last first.
    { wsteps. split; [done|]. replace NPROC with i by lia. done. }
    destruct (lookup_lt_is_Some_2 (procs s) i) as [x Hx]; [lia|]. destruct (Hrep i x Hx) as (y & Hy & Hxy).
    rewrite bool_decide_false in Hxy by lia. wsteps.
    assert (Hat : proc_at i s1 = y) by (unfold proc_at; by apply nth_lookup_Some). rewrite Hat, (reparented_parent _ _ _ _ Hxy).
    wcase as Hp; wsteps.
    + rewrite Hs1. cbn [initproc set_procs]. rewrite Hini. rewrite <- Hs1.
      eapply wpl_call; [apply wakeup_wp; [unfold on_proc; cbn; by rewrite length_alter, Hl1|rewrite Hs1; exact HL]|].
      intros ? s2 ->. wsteps. split; [done|]. split; [|lia]. split; [lia|]. split; [rewrite Hs1; done|].
      split; [cbn; by rewrite length_imap, length_alter|]. intros j x' Hx'. destruct (Hrep j x' Hx') as (y' & Hy' & Hr').
      cbn [procs set_procs on_proc cur]. rewrite list_lookup_imap.
      set (w := if decide (j = cur s1) then id else woken (ChProc ini)).
      assert (Hw : forall h u v, reparented p ini h u v -> reparented p ini h u (w v)).
      { intros h u v Huv. unfold w. destruct (decide (j = cur s1)); [done|by apply reparented_woken]. }
      destruct (decide (i = j)) as [<-|Hne].
      * simplify_eq. rewrite list_lookup_alter_eq, Hy. eexists. split; [done|]. rewrite bool_decide_true by lia. by apply Hw, reparented_hand.
      * rewrite list_lookup_alter_ne, Hy' by done. eexists. split; [done|]. apply Hw. by rewrite (bool_decide_ext _ (j < i)%nat) by lia.
    + split; [done|]. split; [|lia]. split; [lia|]. split_and!; try done. intros j x' Hx'. destruct (Hrep j x' Hx') as (y' & Hy' & Hr'). exists y'. split; [done|].
      destruct (decide (j = i)) as [->|]; [simplify_eq; rewrite bool_decide_true by lia; by apply reparented_keep|].
      by rewrite (bool_decide_ext _ (j < i)%nat) by lia.
  - split; [unfold NPROC; lia|]. split_and!; [by destruct s|done|]. intros j x Hx. exists x. split; [done|]. exists x. split; [by left|]. by rewrite decide_False by naive_solver.
  - lia.
Qed.

(** An exiting process leaves no orphans: after reparent every process whose
    parent it was belongs to init, no other parent changes, and no process changes
    otherwise, except that init may have been woken; nothing outside the table
    changes. *)
Theorem reparent_correct p ini L s : length (procs s) = NPROC -> initproc s = Some ini -> p <> ini -> avail (table_locks (Some (cur s))) L ->
  wp (reparent p) L s (fun _ s' => s' = set_procs (procs s') s /\ forall i x, procs s !! i = Some x -> exists y, procs s' !! i = Some y /\
    parent y = (if decide (parent x = Some p) then Some ini else parent x) /\ parent y <> Some p /\
    (with_parent None y = with_parent None x \/ with_parent None y = with_parent None (woken (ChProc ini) x))).
Proof.
  intros Hl Hini Hne HL. eapply wp_mono; [by apply reparent_wp|]. intros ? s' (Hs & _ & Hrep). split; [done|].
  intros i x Hx. destruct (Hrep i x Hx) as (y & Hy & z & Hz & ->). apply lookup_lt_Some in Hx. rewrite Hl in Hx.
  rewrite bool_decide_true in * by done. eexists. split; [done|].
  assert (Hpz : parent z = parent x) by (destruct Hz as [-> | ->]; rewrite ?woken_parent; done).
  destruct (decide (parent x = Some p)) as [Hp|Hp].
  - rewrite decide_True by done. split; [done|]. split; [cbn; congruence|]. destruct Hz as [-> | ->]; auto.
  - rewrite decide_False by naive_solver. split; [done|]. split; [congruence|]. destruct Hz as [-> | ->]; auto.
Qed.

(** ** kill *)

(** What kkill does to its victim. *)
Definition kill_entry (p : proc) : proc := with_killed 1 (if decide (state p = SLEEPING) then with_state RUNNABLE p else p).

(** [i] is the first entry with the pid. *)
Definition first_pid (n : Z) (i : nat) s : Prop :=
  (exists p, procs s !! i = Some p /\ pid p = n) /\ forall j p, (j < i)%nat -> procs s !! j = Some p -> pid p <> n.

Lemma kkill_wp n L s : length (procs s) = NPROC -> avail (table_locks None) L ->
  wp (kkill n) L s (fun r s' =>
    r = -1 /\ s' = s /\ (forall i p, procs s !! i = Some p -> pid p <> n) \/
    r = 0 /\ exists i, first_pid n i s /\ s' = on_proc i kill_entry s).
Proof.
  intros Hl HL. unfold kkill.
  apply (wpl_loop (fun i s1 => (i <= NPROC)%nat /\ s1 = s /\ forall j p, (j < i)%nat -> procs s !! j = Some p -> pid p <> n) (fun i => NPROC - i)%nat).
  - intros i ? (Hi & -> & Hno). unfold kkill_body, pof, pset. wstep. wcase as Hlt; last first.
    { wsteps. split; [done|]. left. split_and!; try done. intros j p Hj. apply (Hno j); [|done]. apply lookup_lt_Some in Hj. lia. }
    wstep. apply wpl_acquire; [by eapply table_locks_avail|]. destruct (lookup_lt_is_Some_2 (procs s) i) as [p Hp]; [lia|].
    assert (Hat : proc_at i s = p) by (unfold proc_at; by apply nth_lookup_Some). wsteps. rewrite Hat.
    wcase as Hn; wsteps.
    + wcase as Hs; wsteps; (split; [done|]); right; (split; [done|]); exists i; (split; [split; [by exists p|done]|]);
        unfold on_proc, set_procs; cbn; f_equal; apply list_eq; intros j;
        (destruct (decide (i = j)) as [<-|]; [rewrite !list_lookup_alter_eq, Hp|by rewrite !list_lookup_alter_ne]); cbn; unfold kill_entry;
        [by rewrite decide_True|by rewrite decide_False].
    + split; [done|]. split; [|lia]. split_and!; [lia|done|]. intros j q Hj Hq. destruct (decide (j = i)) as [->|]; [congruence|]. apply (Hno j); [lia|done].
  - split_and!; [unfold NPROC; lia|done|]. intros j p Hj. lia.
  - lia.
Qed.

(** kkill marks its victim and only it: the first process with the pid has its
    killed flag set and is woken if it sleeps, so that it notices; without such a
    process -1 is returned and nothing changes. *)
Theorem kkill_correct n L s : length (procs s) = NPROC -> avail (table_locks None) L ->
  wp (kkill n) L s (fun r s' =>
    r = -1 /\ s' = s /\ (forall i p, procs s !! i = Some p -> pid p <> n) \/
    r = 0 /\ exists i, first_pid n i s /\ s' = on_proc i kill_entry s).
Proof. apply kkill_wp. Qed.
End Spec.

(** ** Killing nobody *)
Section KillZero.
Context `{KernelImage} {F : Type} `{FileRefs F}.
Implicit Types (s : ptab F) (L : list lock).

Lemma bind_Ok {A B} (m : M (ptab F) A) (k : A -> M (ptab F) B) L s b L2 s2 : (m ≫= k) L s = Ok b L2 s2 ->
  exists a L1 s1, m L s = Ok a L1 s1 /\ k a L1 s1 = Ok b L2 s2.
Proof. unfold mbind, M_bind. destruct (m L s) as [a L1 s1| | | |]; try done. by exists a, L1, s1. Qed.

(** The operations on memory leave the table alone. *)
Definition keeps_procs {A} (m : M (ptab F) A) : Prop := forall L s a L' s', m L s = Ok a L' s' -> procs s' = procs s.

Lemma keeps_onmem {A} (m : M mem A) : keeps_procs (onmem m).
Proof. intros L s a L' s' E. unfold onmem, zoom in E. destruct (m L (view s)); by simplify_eq/=. Qed.

Lemma keeps_ret {A} (a : A) : keeps_procs (mret a).
Proof. by intros L s b L' s' [= <- <- <-]. Qed.

Lemma keeps_gets {A} (f : ptab F -> A) : keeps_procs (gets f).
Proof. by intros L s b L' s' [= <- <- <-]. Qed.

Lemma keeps_bind {A B} (m : M (ptab F) A) (k : A -> M (ptab F) B) : keeps_procs m -> (forall a, keeps_procs (k a)) -> keeps_procs (m ≫= k).
Proof. intros Hm Hk L s b L' s' (a & L1 & s1 & E1 & E2)%bind_Ok. rewrite (Hk a _ _ _ _ _ E2). by eapply Hm. Qed.

Lemma keeps_if {A} (P : Prop) `{Decision P} (m m' : M (ptab F) A) : keeps_procs m -> keeps_procs m' -> keeps_procs (if decide P then m else m').
Proof. intros ? ?. by case_decide. Qed.

Lemma proc_pagetable_keeps i : keeps_procs (proc_pagetable (F := F) i).
Proof.
  unfold proc_pagetable, pof.
  repeat first [apply keeps_bind; [|intros ?] | apply keeps_if | apply keeps_onmem | apply keeps_ret | apply keeps_gets].
Qed.

Lemma allocpid_keeps : keeps_procs (allocpid (F := F)).
Proof.
  unfold allocpid. intros L s b L' s' E. apply bind_Ok in E as (u & L1 & s1 & Ea & E). unfold acquire in Ea. case_decide; [done|]. simplify_eq.
  apply bind_Ok in E as (n & L2 & s2 & [= <- <- <-] & E). apply bind_Ok in E as (v & L3 & s3 & [= <- <- <-] & E).
  apply bind_Ok in E as (w & L4 & s4 & Er & E). unfold release in Er. case_decide; [|done]. injection Er as <- <- <-. by injection E as <- <- <-.
Qed.

Lemma allocproc_scan fuel k L s i L1 s1 : loop fuel allocproc_body k L s = Ok (Some i) L1 s1 ->
  s1 = s /\ (k <= i < NPROC)%nat /\ state (proc_at i s) = UNUSED /\ forall j, (k <= j < i)%nat -> state (proc_at j s) <> UNUSED.
Proof.
  revert k L. induction fuel as [|fuel IH]; intros k L E; [done|]. cbn [loop] in E.
  apply bind_Ok in E as (r & L2 & s2 & Eb & E). unfold allocproc_body in Eb. case_decide as Hk; [|injection Eb as <- <- <-; discriminate E].
  apply bind_Ok in Eb as (u & L3 & s3 & Ea & Eb). unfold acquire in Ea. case_decide; [done|]. simplify_eq.
  apply bind_Ok in Eb as (p & L4 & s4 & Ep & Eb). unfold pof, gets in Ep. simplify_eq. case_decide as Hu.
  - injection Eb as <- <- <-. injection E as <- <- <-. split_and!; [done|lia|done|done|]. intros j Hj. lia.
  - apply bind_Ok in Eb as (u' & L5 & s5 & Er & Eb). unfold release in Er. case_decide; [|done]. injection Er as <- <- <-. injection Eb as <- <- <-.
    destruct (IH _ _ E) as (-> & Hi & Hs & Hno). split_and!; [done|lia|lia|done|]. intros j Hj. destruct (decide (j = k)) as [->|]; [done|]. apply Hno. lia.
Qed.

Lemma proc_at_on i f s : (i < length (procs s))%nat -> proc_at i (on_proc i f s) = f (proc_at i s).
Proof.
  intros Hi. destruct (lookup_lt_is_Some_2 _ _ Hi) as [p Hp]. unfold proc_at. cbn. rewrite (nth_lookup_Some (procs s) i no_proc p Hp).
  apply nth_lookup_Some. by rewrite list_lookup_alter_eq, Hp.
Qed.

(** A process is born with the killed flag its entry happens to have. *)
Lemma allocproc_killed forkret L s i L' s' : length (procs s) = NPROC -> allocproc forkret L s = Ok (Some i) L' s' ->
  state (proc_at i s) = UNUSED /\ (forall j, (j < i)%nat -> state (proc_at j s) <> UNUSED) /\
  killed_flag (proc_at i s') = killed_flag (proc_at i s) /\ state (proc_at i s') = USED.
Proof.
  intros Hl E. unfold allocproc in E. apply bind_Ok in E as (o & L1 & s1 & El & E). destruct o as [k|]; [|done].
  apply allocproc_scan in El as (-> & Hk & Hs & Hno).
  apply bind_Ok in E as (n & L2 & s2 & Ea & E). pose proof (allocpid_keeps _ _ _ _ _ Ea) as Hp2.
  apply bind_Ok in E as ([] & L3 & s3 & [= <- <-] & E). apply bind_Ok in E as ([] & L4 & s4 & [= <- <-] & E).
  apply bind_Ok in E as (tf & L5 & s5 & Ek & E). pose proof (keeps_onmem _ _ _ _ _ _ Ek) as Hp5.
  apply bind_Ok in E as ([] & L6 & s6 & [= <- <-] & E). case_decide; [do 2 apply bind_Ok in E as (? & ? & ? & _ & E); done|].
  apply bind_Ok in E as (pt & L7 & s7 & Ep & E). pose proof (proc_pagetable_keeps _ _ _ _ _ _ Ep) as Hp7.
  apply bind_Ok in E as ([] & L8 & s8 & [= <- <-] & E). case_decide; [do 2 apply bind_Ok in E as (? & ? & ? & _ & E); done|].
  apply bind_Ok in E as (q & L9 & s9 & [= <- <- <-] & E). apply bind_Ok in E as ([] & L10 & s10 & [= <- <-] & E).
  injection E as <- <- <-.
  assert (Hat : forall u v : ptab F, procs u = procs v -> proc_at k u = proc_at k v) by (intros u v Hu; unfold proc_at; by rewrite Hu).
  assert (Hlen : forall f (u : ptab F), length (procs (on_proc k f u)) = length (procs u)) by (intros f u; apply length_alter).
  assert (Hfin : proc_at k s7 = with_trapframe tf (with_state USED (with_pid n (proc_at k s)))).
  { rewrite (Hat _ _ Hp7), proc_at_on, (Hat _ _ Hp5), !proc_at_on, (Hat _ _ Hp2); rewrite ?Hp5, ?Hlen, ?Hp2; (done || lia). }
  split_and!; [done|intros j Hj; apply Hno; lia| |];
    (rewrite !proc_at_on, Hfin; [done| |]; rewrite ?Hlen, Hp7, Hlen, Hp5, !Hlen, Hp2; lia).
Qed.

(** C36. kill(0) kills a process that does not exist yet: as the free entries of the
    table have pid 0, kkill(0) returns success and sets the killed flag of the
    first free entry; allocproc does not clear it, so the next process to be
    created gets that entry and is born killed. *)
Theorem kkill_zero_kills_next forkret s i : length (procs s) = NPROC ->
  (forall j, (j < NPROC)%nat -> pid (proc_at j s) = 0 <-> state (proc_at j s) = UNUSED) ->
  (i < NPROC)%nat -> state (proc_at i s) = UNUSED -> (forall j, (j < i)%nat -> state (proc_at j s) <> UNUSED) ->
  exists s1, kkill 0 [] s = Ok 0 [] s1 /\ killed_flag (proc_at i s1) = 1 /\
    forall k L s2, allocproc forkret [] s1 = Ok (Some k) L s2 -> k = i /\ state (proc_at k s2) = USED /\ killed_flag (proc_at k s2) = 1.
Proof.
  intros Hl Hpid Hi Hs Hno. destruct (wp_exists _ _ _ _ (kkill_wp 0 [] s Hl (avail_nil _))) as (r & s1 & E & Hr).
  assert (Hlook : forall j, (j < NPROC)%nat -> procs s !! j = Some (proc_at j s)).
  { intros j Hj. destruct (lookup_lt_is_Some_2 (procs s) j) as [p Hp]; [lia|]. rewrite Hp. f_equal. symmetry. by apply nth_lookup_Some. }
  destruct Hr as [(_ & _ & Hr)|(-> & k & [(p & Hp & Hz) Hk] & ->)].
  { exfalso. apply (Hr i _ (Hlook i Hi)). by apply Hpid. }
  assert (k = i) as ->.
  { assert (Hkn : (k < NPROC)%nat) by (apply lookup_lt_Some in Hp; lia). rewrite (Hlook k Hkn) in Hp. simplify_eq.
    destruct (Nat.lt_trichotomy k i) as [Hlt|[Heq|Hgt]]; [|done|].
    - exfalso. apply (Hno k Hlt). by apply Hpid.
    - exfalso. apply (Hk i _ Hgt (Hlook i Hi)). by apply Hpid. }
  assert (Hat : proc_at i (on_proc i kill_entry s) = kill_entry (proc_at i s)) by (apply proc_at_on; lia).
  exists (on_proc i kill_entry s). split; [done|]. split; [by rewrite Hat|]. intros k L s2 Ea.
  apply allocproc_killed in Ea as (Hu & Hno' & Hkf & Hst); [|by rewrite <- Hl; apply length_alter].
  assert (Hsi : forall j, (state (proc_at j (on_proc i kill_entry s)) = UNUSED <-> state (proc_at j s) = UNUSED)).
  { intros j. destruct (decide (j = i)) as [->|Hne].
    - rewrite Hat. unfold kill_entry. case_decide as Hd; cbn; [rewrite Hd; done|done].
    - unfold proc_at. cbn. rewrite !nth_lookup, list_lookup_alter_ne by done. done. }
  assert (k = i) as ->; [|split_and!; [done|done|by rewrite Hkf, Hat]].
  destruct (Nat.lt_trichotomy k i) as [Hlt|[Heq|Hgt]]; [|done|].
  - exfalso. apply (Hno k Hlt). by apply Hsi.
  - exfalso. apply (Hno' i Hgt). by apply Hsi.
Qed.
End KillZero.

(** * Memory code run for a process *)
Section AsProc.
Context {F : Type}.

Lemma on_proc_id i (t : ptab F) : on_proc i (with_sz (sz (proc_at i t))) t = t.
Proof.
  unfold on_proc, set_procs. replace (alter (with_sz (sz (proc_at i t))) i (procs t)) with (procs t); [by destruct t|].
  apply list_eq. intros j. destruct (decide (j = i)) as [->|]; [|by rewrite list_lookup_alter_ne].
  rewrite list_lookup_alter, decide_True by done. unfold proc_at. destruct (procs t !! i) as [p|] eqn:E; [|done]. simpl. rewrite (nth_lookup_Some _ _ _ _ E). by destruct p.
Qed.

Lemma wp_as_proc {A} i (c : M vms A) L (t : ptab F) (Q : A -> mem -> Prop) :
  let v := mkVms (pmem t) (pframes t) (sz (proc_at i t)) (pagetable (proc_at i t)) in
  wp c L v (fun a v' => exists m', v' = over m' v /\ Q a m') -> wp (as_proc i c) L t (fun a t' => exists m', t' = over m' t /\ Q a m').
Proof.
  intros v. unfold wp, wpl, as_proc. fold v. destruct (c L v) as [a L' v'| | | |]; try done. intros (-> & m' & -> & HQ). split; [done|]. exists m'. split; [|done].
  exact (on_proc_id i (mkPtab (procs t) (cur t) (initproc t) (nextpid t) m' (pframes t) (pfiles t))).
Qed.
End AsProc.
