(* ===== verification/ProcSample.v ===== *)
(** A process table with init and a shell: the witnesses of the theorems on
    processes. *)
From S2P Require Import Prelude Riscv PhysMem Kalloc PageTable Vm VmFree Shm Fork UserMem CStrings Block Proc ProcSpec.
Local Open Scope Z_scope.

Import Kalloc.Sample.

(** Files and directories without references to count. *)
#[export] Instance unit_files : FileRefs unit := {
  r_filedup f := mret f; r_fileclose _ := mret tt; r_idup d := mret d; r_iput _ := mret tt; r_root := mret (Some O)
}.

Definition init_proc : proc := mkProc SLEEPING (Some (ChProc 0)) 0 0 1 None 0 0 0 0 0 0 (replicate 16 None) (Some 0%nat) (replicate 16 0).
Definition shell : proc := mkProc RUNNING None 0 0 2 (Some 0%nat) 0 0 0 0 0 0 (replicate 16 None) (Some 0%nat) (replicate 16 0).
Definition child : proc := mkProc SLEEPING (Some (ChAddr 7)) 0 0 3 (Some 1%nat) 0 0 0 0 0 0 (replicate 16 None) (Some 0%nat) (replicate 16 0).
Definition free_proc : proc := mkProc UNUSED None 0 0 0 None 0 0 0 0 0 0 (replicate 16 None) None (replicate 16 0).

(** The shell runs. *)
Definition table : ptab unit := mkPtab ([init_proc; shell; child] ++ replicate 61 free_proc) 1 (Some 0%nat) 4 memory [] tt.

Lemma wakeup_correct_witness :
  wp (wakeup (ChAddr 7)) [] table (fun _ s' => s' = set_procs (procs s') table /\ forall i p, procs table !! i = Some p ->
    procs s' !! i = Some (if decide (i <> cur table /\ state p = SLEEPING /\ chan p = Some (ChAddr 7)) then with_state RUNNABLE p else p)).
Proof. apply (wakeup_correct (ChAddr 7) [] table); [done|apply avail_nil]. Defined.

Lemma reparent_correct_witness :
  wp (reparent 1) [] table (fun _ s' => s' = set_procs (procs s') table /\ forall i x, procs table !! i = Some x -> exists y, procs s' !! i = Some y /\
    parent y = (if decide (parent x = Some 1%nat) then Some 0%nat else parent x) /\ parent y <> Some 1%nat /\
    (with_parent None y = with_parent None x \/ with_parent None y = with_parent None (woken (ChProc 0) x))).
Proof. apply (reparent_correct 1 0 [] table); [done|done|done|apply avail_nil]. Defined.

Lemma kkill_correct_witness :
  wp (kkill 3) [] table (fun r s' =>
    r = -1 /\ s' = table /\ (forall i p, procs table !! i = Some p -> pid p <> 3) \/
    r = 0 /\ exists i, first_pid 3 i table /\ s' = on_proc i kill_entry table).
Proof. apply (kkill_correct 3 [] table); [done|apply avail_nil]. Defined.

(** The process created after kill(0) is killed. *)
Definition born (s : ptab unit) : option nat := match allocproc 0 [] s with Ok o _ _ => o | _ => None end.

Lemma kkill_zero_kills_next_witness :
  exists s1 L s2, kkill 0 [] table = Ok 0 [] s1 /\ allocproc 0 [] s1 = Ok (Some 3%nat) L s2 /\ killed_flag (proc_at 3 s2) = 1.
Proof.
  assert (Hpid : forall j, (j < NPROC)%nat -> pid (proc_at j table) = 0 <-> state (proc_at j table) = UNUSED).
  { intros j Hj. do 64 (destruct j as [|j]; [vm_compute; split; intros; (done || discriminate)|]). unfold NPROC in Hj. lia. }
  destruct (kkill_zero_kills_next 0 table 3 eq_refl Hpid) as (s1 & Hk & _ & Ha); [unfold NPROC; lia|done| |].
  { intros j Hj. do 3 (destruct j as [|j]; [done|]). lia. }
  assert (Hb : match kkill 0 [] table with Ok _ _ s => born s | _ => None end = Some 3%nat) by (vm_compute; reflexivity).
  rewrite Hk in Hb. unfold born in Hb. destruct (allocproc 0 [] s1) as [o L s2| | | |] eqn:Ea; try discriminate Hb.
  subst o. exists s1, L, s2. by destruct (Ha 3%nat L s2 eq_refl) as (_ & _ & Hkf).
Defined.
