(* ===== verification/Sysproc.v ===== *)
(** The process system calls, kernel/sysproc.c, over the process table of
    kernel/proc.c, the tick counter of kernel/trap.c and the page-fault counter.
    A call that exits or sleeps is cut there. *)
From stdpp Require Import functions.
From S2P Require Import Prelude Riscv PhysMem Kalloc PageTable Vm VmFree Shm Fork UserMem Sem Fs File Sysfile Proc.
Local Open Scope Z_scope.

(** The supervisor registers of a hart that the kernel uses. *)
Inductive sreg := SSTATUS | STVEC | SEPC | SCAUSE | STVAL | SATP | TP | TIME | STIMECMP.

#[export] Instance sreg_eq_dec : EqDecision sreg.
Proof. solve_decision. Defined.

(** The process table, the registers of this hart, [ticks], [pg_fault_cnt] and the
    devices. *)
Record ks (F D : Type) := mkKs {
  k_tab : ptab F;
  k_regs : sreg -> Z;
  ticks : Z;
  pg_fault_cnt : Z;
  k_dev : D
}.
Arguments mkKs {F D}.
Arguments k_tab {F D}.
Arguments k_regs {F D}.
Arguments ticks {F D}.
Arguments pg_fault_cnt {F D}.
Arguments k_dev {F D}.

#[export] Program Instance ks_tab F D : Lens (ks F D) (ptab F) := {
  view := k_tab;
  over t s := mkKs t (k_regs s) (ticks s) (pg_fault_cnt s) (k_dev s)
}.
Next Obligation. done. Qed.
Next Obligation. by intros F D []. Qed.
Next Obligation. done. Qed.

#[export] Program Instance ks_dev F D : Lens (ks F D) D := {
  view := k_dev;
  over d s := mkKs (k_tab s) (k_regs s) (ticks s) (pg_fault_cnt s) d
}.
Next Obligation. done. Qed.
Next Obligation. by intros F D []. Qed.
Next Obligation. done. Qed.

Definition set_reg {F D} (r : sreg) (v : Z) (s : ks F D) : ks F D :=
  mkKs (k_tab s) (<[r := v]> (k_regs s)) (ticks s) (pg_fault_cnt s) (k_dev s).
Definition set_ticks {F D} (n : Z) (s : ks F D) : ks F D :=
  mkKs (k_tab s) (k_regs s) n (pg_fault_cnt s) (k_dev s).
Definition set_faults {F D} (n : Z) (s : ks F D) : ks F D :=
  mkKs (k_tab s) (k_regs s) (ticks s) n (k_dev s).
(** How a system call ends: with a value, by exiting, or asleep. *)
Inductive sysres := Done (r : Z) | Gone | Asleep.

Definition SBRK_EAGER : Z := 1.

Section Calls.
Context `{KernelImage} {F D : Type} `{FileRefs F}.
Local Abbreviation KM := (M (ks F D)).

(** The address of forkret and that of [ticks], the channel of sys_pause. *)
Variables forkret ticks_addr : Z.
(** The argument registers of the call. *)
Variable args : list Z.

Definition onproc {A} (m : M (ptab F) A) : KM A := zoom (C := ptab F) m.
Definition done (m : KM Z) : KM sysres := r ← m; mret (Done r).
Definition myproc : KM nat := gets (fun s => cur (k_tab s)).

Definition sys_exit : KM sysres := n ← argint args 0; onproc (kexit n);; mret Gone.
Definition sys_getpid : KM Z := i ← myproc; p ← onproc (pof i); mret (pid p).
Definition sys_fork : KM Z := onproc (kfork forkret).
Definition sys_wait : KM sysres :=
  p ← argaddr args 0;
  r ← onproc (kwait p);
  match r with Some v => mret (Done v) | None => mret Asleep end.

Definition sys_sbrk : KM Z :=
  n ← argint args 0;
  t ← argint args 1;
  i ← myproc;
  p ← onproc (pof i);
  let addr := sz p in
  if decide (t = SBRK_EAGER \/ n < 0)
  then
    r ← onproc (growproc n);
    if decide (r < 0) then mret (-1) else mret addr
  else if decide (u64 (addr + n) < addr) then mret (-1)
  else if decide (u64 (addr + n) > TRAPFRAME) then mret (-1)
  else onproc (pset i (with_sz (u64 (addr + n))));; mret addr.

(** One round of the loop of sys_pause, with tickslock held. *)
Definition pause_round (n ticks0 : Z) : KM sysres :=
  t ← gets ticks;
  if decide (u32 (t - ticks0) < n)
  then
    i ← myproc;
    k ← onproc (killed i);
    if decide (k <> 0) then release tickslock;; mret (Done (-1))
    else onproc (sleep_enter (ChAddr ticks_addr) tickslock);; mret Asleep
  else release tickslock;; mret (Done 0).

Definition sys_pause : KM sysres :=
  n ← argint args 0;
  let n := if decide (n < 0) then 0 else n in
  acquire tickslock;;
  ticks0 ← gets ticks;
  pause_round n ticks0.

(** What sys_pause does when it wakes up. *)
Definition pause_resume (n ticks0 : Z) : KM sysres :=
  onproc (sleep_exit tickslock);;
  pause_round n ticks0.

Definition sys_kill : KM Z := p ← argint args 0; onproc (kkill p).

Definition sys_uptime : KM Z :=
  acquire tickslock;;
  xticks ← gets ticks;
  release tickslock;;
  mret xticks.

(** The product of three ints: its overflow is not defined. *)
Definition sys_cube : KM Z :=
  n ← argint args 0;
  if decide (- 2 ^ 31 <= n * n < 2 ^ 31 /\ - 2 ^ 31 <= n * n * n < 2 ^ 31) then mret (n * n * n) else undef "overflow".

Definition sys_getpgfault : KM Z := gets pg_fault_cnt.

(** [monitor_enabled] is part of the state of the open files. *)
Definition sys_monitor {B U D'} : M (files B U D') Z :=
  e ← argint args 0;
  modify (fun s => mkFiles (fsys s) (ftable s) (ofile s) (pipes s) (pwakeups s) (devs s) (pkilled s) e);;
  mret 0.

Definition sys_shm_open : KM Z := id ← argint args 0; i ← myproc; onproc (as_proc i (shm_open id)).
Definition sys_shm_close : KM Z := id ← argint args 0; i ← myproc; onproc (as_proc i (shm_close id)).

(** The calls of the semaphore component. *)
Definition sys_sem_create {S} : M S call := id ← argint args 0; v ← argint args 1; mret (CallCreate id v).
Definition sys_sem_free {S} : M S call := id ← argint args 0; mret (CallFree id).
Definition sys_sem_p {S} : M S call := id ← argint args 0; mret (CallP id).
Definition sys_sem_v {S} : M S call := id ← argint args 0; mret (CallV id).
End Calls.
