(* ===== verification/Trap.v ===== *)
(** Traps, kernel/trap.c: the handler of traps from user space and from the
    kernel, the clock and device interrupts through the interrupt controller
    (kernel/plic.c), and the dispatch of system calls (kernel/syscall.c).  printf
    is not modelled. *)
From stdpp Require Import functions.
From S2P Require Import Prelude Riscv PhysMem Kalloc PageTable Vm VmFree Cow Shm Fork UserMem Sysfile Proc Sysproc.
Local Open Scope Z_scope.

(** * The interrupt controller *)
Definition UART0_IRQ : Z := 10.
Definition VIRTIO0_IRQ : Z := 1.
Definition PLIC_SENABLE (hart : Z) : Z := PLIC + 0x2080 + hart * 0x100.
Definition PLIC_SPRIORITY (hart : Z) : Z := PLIC + 0x201000 + hart * 0x2000.
Definition PLIC_SCLAIM (hart : Z) : Z := PLIC + 0x201004 + hart * 0x2000.

(** The registers of the controller, and the interrupt handlers of the devices
    (kernel/uart.c, kernel/virtio_disk.c) with the channels that they wake up. *)
Class IntrDevices (D : Type) := {
  plic_load : Z -> M D Z;
  plic_store : Z -> Z -> M D unit;
  d_uartintr : M D (list wchan);
  d_virtio_disk_intr : M D (list wchan)
}.

(** * System call numbers *)
Inductive sysnum :=
  | SYS_fork | SYS_exit | SYS_wait | SYS_pipe | SYS_read | SYS_kill | SYS_exec | SYS_fstat | SYS_chdir
  | SYS_dup | SYS_getpid | SYS_sbrk | SYS_pause | SYS_uptime | SYS_open | SYS_write | SYS_mknod
  | SYS_unlink | SYS_link | SYS_mkdir | SYS_close | SYS_cube | SYS_getpgfault | SYS_shm_open
  | SYS_shm_close | SYS_sem_create | SYS_sem_free | SYS_sem_p | SYS_sem_v | SYS_monitor | SYS_symlink
  | SYS_load_ramdisk | SYS_unload_ramdisk.

Definition sysno (n : sysnum) : Z :=
  match n with
  | SYS_fork => 1 | SYS_exit => 2 | SYS_wait => 3 | SYS_pipe => 4 | SYS_read => 5 | SYS_kill => 6
  | SYS_exec => 7 | SYS_fstat => 8 | SYS_chdir => 9 | SYS_dup => 10 | SYS_getpid => 11 | SYS_sbrk => 12
  | SYS_pause => 13 | SYS_uptime => 14 | SYS_open => 15 | SYS_write => 16 | SYS_mknod => 17
  | SYS_unlink => 18 | SYS_link => 19 | SYS_mkdir => 20 | SYS_close => 21 | SYS_cube => 22
  | SYS_getpgfault => 23 | SYS_shm_open => 24 | SYS_shm_close => 25 | SYS_sem_create => 26
  | SYS_sem_free => 27 | SYS_sem_p => 28 | SYS_sem_v => 29 | SYS_monitor => 30 | SYS_symlink => 31
  | SYS_load_ramdisk => 32 | SYS_unload_ramdisk => 33
  end.

(** Entries of the table, up to the largest number. *)
Definition NSYSCALLS : nat := 34.

(** The handlers of kernel/sysfile.c (Sysfile and Exec), of the semaphores (Sem) and
    of the RAM disk (Brd), which are modelled on the state of those components. *)
Class OtherCalls (F D : Type) := {
  o_pipe : list Z -> M (ks F D) sysres; o_read : list Z -> M (ks F D) sysres;
  o_exec : list Z -> M (ks F D) sysres; o_fstat : list Z -> M (ks F D) sysres;
  o_chdir : list Z -> M (ks F D) sysres; o_dup : list Z -> M (ks F D) sysres;
  o_open : list Z -> M (ks F D) sysres; o_write : list Z -> M (ks F D) sysres;
  o_mknod : list Z -> M (ks F D) sysres; o_unlink : list Z -> M (ks F D) sysres;
  o_link : list Z -> M (ks F D) sysres; o_mkdir : list Z -> M (ks F D) sysres;
  o_close : list Z -> M (ks F D) sysres; o_sem_create : list Z -> M (ks F D) sysres;
  o_sem_free : list Z -> M (ks F D) sysres; o_sem_p : list Z -> M (ks F D) sysres;
  o_sem_v : list Z -> M (ks F D) sysres; o_monitor : list Z -> M (ks F D) sysres;
  o_symlink : list Z -> M (ks F D) sysres; o_load_ramdisk : list Z -> M (ks F D) sysres;
  o_unload_ramdisk : list Z -> M (ks F D) sysres
}.

(** * Fields of struct trapframe (kernel/proc.h) *)
Definition TF_KERNEL_SATP : Z := 0.
Definition TF_KERNEL_SP : Z := 8.
Definition TF_KERNEL_TRAP : Z := 16.
Definition TF_KERNEL_HARTID : Z := 32.
Definition TF_A7 : Z := 168.

(** * Bits of sstatus, causes *)
Definition SSTATUS_SPP : Z := Z.shiftl 1 8.
Definition SSTATUS_SPIE : Z := Z.shiftl 1 5.
Definition SSTATUS_SIE : Z := Z.shiftl 1 1.
Definition EXTERNAL : Z := 0x8000000000000009.
Definition TIMER : Z := 0x8000000000000005.

(** How usertrap ends: back to the trampoline with the satp of the user, or the
    process exited, sleeps in a system call, or yielded the CPU. *)
Inductive ended := Back (satp : Z) | Exited | Slept | Yielded.

Section Traps.
Context `{KernelImage} {F D : Type} `{FileRefs F} `{IntrDevices D} `{OtherCalls F D}.
Local Abbreviation KM := (M (ks F D)).

(** Addresses: forkret, the counter [ticks], kernelvec, uservec in the trampoline
    page, usertrap. *)
Variables forkret ticks_addr kernelvec uservec usertrap_addr : Z.

Definition r_reg (r : sreg) : KM Z := gets (fun s => k_regs s r).
Definition w_reg (r : sreg) (v : Z) : KM unit := modify (set_reg r v).
Definition onmemory {A} (m : M mem A) : KM A := onproc (onmem m).
Definition cpuid : KM Z := r ← r_reg TP; mret (s32 r).

Definition intr_on : KM unit := x ← r_reg SSTATUS; w_reg SSTATUS (Z.lor x SSTATUS_SIE).
Definition intr_off : KM unit := x ← r_reg SSTATUS; w_reg SSTATUS (Z.land x (Z.lnot SSTATUS_SIE)).
Definition intr_get : KM bool := x ← r_reg SSTATUS; mret (has_bits x SSTATUS_SIE).

(** ** plic.c *)
Definition plicinit : KM unit :=
  zoom (C := D) (plic_store (PLIC + UART0_IRQ * 4) 1);;
  zoom (C := D) (plic_store (PLIC + VIRTIO0_IRQ * 4) 1).

Definition plicinithart : KM unit :=
  hart ← cpuid;
  zoom (C := D) (plic_store (PLIC_SENABLE hart) (Z.lor (Z.shiftl 1 UART0_IRQ) (Z.shiftl 1 VIRTIO0_IRQ)));;
  zoom (C := D) (plic_store (PLIC_SPRIORITY hart) 0).

Definition plic_claim : KM Z :=
  hart ← cpuid;
  irq ← zoom (C := D) (plic_load (PLIC_SCLAIM hart));
  mret (s32 irq).

Definition plic_complete (irq : Z) : KM unit :=
  hart ← cpuid;
  zoom (C := D) (plic_store (PLIC_SCLAIM hart) (u32 irq)).

(** ** Interrupts *)
Definition trapinithart : KM unit := w_reg STVEC kernelvec.

Definition clockintr : KM unit :=
  id ← cpuid;
  (if decide (id = 0)
   then
     acquire tickslock;;
     t ← gets ticks;
     modify (set_ticks (u32 (t + 1)));;
     onproc (wakeup (ChAddr ticks_addr));;
     release tickslock
   else mret tt);;
  t ← r_reg TIME;
  w_reg STIMECMP (u64 (t + 1000000)).

Fixpoint wake_all (l : list wchan) : KM unit :=
  match l with [] => mret tt | c :: l => onproc (wakeup c);; wake_all l end.

Definition devintr : KM Z :=
  cause ← r_reg SCAUSE;
  if decide (cause = EXTERNAL)
  then
    irq ← plic_claim;
    (if decide (irq = UART0_IRQ) then l ← zoom (C := D) d_uartintr; wake_all l
     else if decide (irq = VIRTIO0_IRQ) then l ← zoom (C := D) d_virtio_disk_intr; wake_all l
     else mret tt);;
    (if decide (irq <> 0) then plic_complete irq else mret tt);;
    mret 1
  else if decide (cause = TIMER) then clockintr;; mret 2
  else mret 0.

(** ** System calls *)

(** The argument registers of the trapframe, a0 to a5. *)
Fixpoint load_args (tf : Z) (n : nat) : KM (list Z) :=
  match n with
  | O => mret []
  | S n => l ← load_args tf n; v ← onmemory (load64 (tf + TF_A0 + 8 * Z.of_nat n)); mret (l ++ [v])
  end.

(** The initializer of the table, and the table: the entries that are not named
    there are null. *)
Definition handlers : list (sysnum * (list Z -> KM sysres)) := [
  (SYS_fork, fun _ => done (sys_fork forkret)); (SYS_exit, sys_exit); (SYS_wait, sys_wait);
  (SYS_pipe, o_pipe); (SYS_read, o_read); (SYS_kill, fun args => done (sys_kill args)); (SYS_exec, o_exec);
  (SYS_fstat, o_fstat); (SYS_chdir, o_chdir); (SYS_dup, o_dup); (SYS_getpid, fun _ => done sys_getpid);
  (SYS_sbrk, fun args => done (sys_sbrk args)); (SYS_pause, sys_pause ticks_addr);
  (SYS_uptime, fun _ => done sys_uptime); (SYS_open, o_open); (SYS_write, o_write); (SYS_mknod, o_mknod);
  (SYS_unlink, o_unlink); (SYS_link, o_link); (SYS_mkdir, o_mkdir); (SYS_close, o_close);
  (SYS_cube, fun args => done (sys_cube args)); (SYS_getpgfault, fun _ => done sys_getpgfault);
  (SYS_monitor, o_monitor); (SYS_symlink, o_symlink); (SYS_shm_open, fun args => done (sys_shm_open args));
  (SYS_shm_close, fun args => done (sys_shm_close args)); (SYS_sem_create, o_sem_create);
  (SYS_sem_free, o_sem_free); (SYS_sem_p, o_sem_p); (SYS_sem_v, o_sem_v);
  (SYS_load_ramdisk, o_load_ramdisk); (SYS_unload_ramdisk, o_unload_ramdisk)].
Definition syscalls : list (option (list Z -> KM sysres)) :=
  foldl (fun t x => <[Z.to_nat (sysno x.1) := Some x.2]> t) (replicate NSYSCALLS None) handlers.

Definition syscall : KM sysres :=
  i ← myproc;
  p ← onproc (pof i);
  a7 ← onmemory (load64 (trapframe p + TF_A7));
  let num := s32 a7 in
  match (if decide (num > 0 /\ num < Z.of_nat NSYSCALLS) then syscalls !! Z.to_nat num else None) with
  | Some (Some f) =>
      args ← load_args (trapframe p) 6;
      r ← f args;
      match r with
      | Done v => onmemory (store64 (trapframe p + TF_A0) (u64 v));; mret r
      | _ => mret r
      end
  | _ => onmemory (store64 (trapframe p + TF_A0) (u64 (-1)));; mret (Done (-1))
  end.

(** ** trap.c *)
Definition prepare_return : KM unit :=
  i ← myproc;
  p ← onproc (pof i);
  intr_off;;
  w_reg STVEC uservec;;
  satp ← r_reg SATP;
  onmemory (store64 (trapframe p + TF_KERNEL_SATP) satp);;
  onmemory (store64 (trapframe p + TF_KERNEL_SP) (u64 (kstack p + PGSIZE)));;
  onmemory (store64 (trapframe p + TF_KERNEL_TRAP) usertrap_addr);;
  tp ← r_reg TP;
  onmemory (store64 (trapframe p + TF_KERNEL_HARTID) tp);;
  x ← r_reg SSTATUS;
  w_reg SSTATUS (Z.lor (Z.land x (Z.lnot SSTATUS_SPP)) SSTATUS_SPIE);;
  epc ← onmemory (load64 (trapframe p + TF_EPC));
  w_reg SEPC epc.

(** The branches of usertrap: the device that interrupted, or the end of the
    process's run. *)
Definition handle_syscall (i : nat) (tf : Z) : KM (Z + ended) :=
  k ← onproc (killed i);
  if decide (k <> 0) then onproc (kexit (-1));; mret (inr Exited)
  else
    e ← onmemory (load64 (tf + TF_EPC));
    onmemory (store64 (tf + TF_EPC) (u64 (e + 4)));;
    intr_on;;
    r ← syscall;
    mret (match r with Done _ => inl 0 | Gone => inr Exited | Asleep => inr Slept end).

Definition handle_fault (i : nat) (pt : Z) : KM unit :=
  cause ← r_reg SCAUSE;
  va ← r_reg STVAL;
  c ← (if decide (cause = 15) then onmemory (uvmcow pt va) else mret (-1));
  if decide (c = 0)
  then modify (fun s => set_faults (u64 (pg_fault_cnt s + 1)) s)
  else
    v ← (if decide (cause = 15 \/ cause = 13) then onproc (as_proc i (vmfault pt va)) else mret 0);
    if decide (v <> 0) then mret tt else onproc (setkilled i).

(** Up to the handling of the cause, with the process. *)
Definition usertrap_cause : KM (nat * (Z + ended)) :=
  x ← r_reg SSTATUS;
  if has_bits x SSTATUS_SPP then panic "usertrap: not from user mode"
  else
    w_reg STVEC kernelvec;;
    i ← myproc;
    p ← onproc (pof i);
    sepc ← r_reg SEPC;
    onmemory (store64 (trapframe p + TF_EPC) sepc);;
    cause ← r_reg SCAUSE;
    r ← (if decide (cause = 8) then handle_syscall i (trapframe p)
         else
           d ← devintr;
           if decide (d <> 0) then mret (inl d)
           else handle_fault i (pagetable p);; mret (inl 0));
    mret (i, r).

(** From there on. *)
Definition usertrap_return (i : nat) (which_dev : Z) : KM ended :=
  k ← onproc (killed i);
  if decide (k <> 0) then onproc (kexit (-1));; mret Exited
  else if decide (which_dev = 2) then onproc yield;; mret Yielded
  else
    prepare_return;;
    p ← onproc (pof i);
    mret (Back (MAKE_SATP (pagetable p))).

Definition usertrap : KM ended :=
  x ← usertrap_cause;
  match x.2 with
  | inr e => mret e
  | inl which_dev => usertrap_return x.1 which_dev
  end.

(** kerneltrap up to a yield, and from there on; [running] says that a process
    runs on this hart (myproc() is not null). *)
Definition kerneltrap_return (sepc sstatus : Z) : KM unit := w_reg SEPC sepc;; w_reg SSTATUS sstatus.

Definition kerneltrap (running : bool) : KM bool :=
  sepc ← r_reg SEPC;
  sstatus ← r_reg SSTATUS;
  if negb (has_bits sstatus SSTATUS_SPP) then panic "kerneltrap: not from supervisor mode"
  else
    on ← intr_get;
    if (on : bool) then panic "kerneltrap: interrupts enabled"
    else
      d ← devintr;
      if decide (d = 0) then panic "kerneltrap"
      else if decide (d = 2 /\ running = true) then onproc yield;; mret false
      else kerneltrap_return sepc sstatus;; mret true.
End Traps.
