(* ===== verification/TrapSpec.v ===== *)
(** What kernel/trap.c guarantees: page faults of user programs are resolved, or
    the program is killed; system calls reach their handlers; a paused process
    wakes up when its time has come. *)
From stdpp Require Import functions.
From S2P Require Import Prelude Riscv PhysMem Kalloc PageTable Vm VmFree Cow Shm Fork UserMem CopyOut UserIface VmUser Asm Sysfile Proc ProcSpec Sysproc Trap.
Local Open Scope Z_scope.

(** * The current process *)
Section State.
Context `{KernelImage} {F D : Type}.
Implicit Types (s : ks F D) (m : mem) (T : ptree) (fl : list Z) (L : list lock).

Definition kmem s : mem := pmem (k_tab s).
Definition set_kmem m s : ks F D := mkKs (over m (k_tab s)) (k_regs s) (ticks s) (pg_fault_cnt s) (k_dev s).
Definition me s : proc := proc_at (cur (k_tab s)) (k_tab s).

Lemma wpl_onmemory {A} (c : M mem A) L s Q : wpl c L (kmem s) (fun a L' m => Q a L' (set_kmem m s)) -> wpl (onmemory c) L s Q.
Proof. intros Hw. unfold onmemory, onproc. apply wpl_zoom. unfold onmem. apply wpl_zoom. exact Hw. Qed.

Lemma set_kmem_id s : set_kmem (kmem s) s = s.
Proof. by destruct s as [[] ? ? ? ?]. Qed.

Lemma wpl_onpof i L s Q : Q (proc_at i (k_tab s)) L s -> wpl (onproc (pof i)) L s Q.
Proof. intros HQ. unfold onproc, pof. wstep. wstep. by rewrite over_view. Qed.

(** The address space and the trapframe of the current process are well-formed:
    the trapframe is a page of the kernel's own, mapped for the trampoline. *)
Record uctx s T fl : Prop := {
  uc_cur : (cur (k_tab s) < length (procs (k_tab s)))%nat;
  uc_pt : pt_rep (kmem s) (pagetable (me s)) T;
  uc_kmem : kmem_rep (kmem s) fl;
  uc_valid : uvalid (kmem s) T;
  uc_noalias : noalias (kmem s) T;
  uc_sz : 0 <= sz (me s) <= MAXVA;
  uc_tf : own (kmem s) T (trapframe (me s));
  uc_map : pte_at (kmem s) T TRAPFRAME = pte_entry (trapframe (me s)) (Z.lor PTE_R PTE_W)
}.

(** From [s] to [s'] the process keeps its registers and all it could read; at
    most pages were added, and no page of others changed. *)
Record ukept s T s' T' : Prop := {
  kp_procs : procs (k_tab s') = procs (k_tab s);
  kp_cur : cur (k_tab s') = cur (k_tab s);
  kp_tf : forall r off, (r, off) ∈ trapframe_slots -> field (kmem s') (trapframe (me s)) off = field (kmem s) (trapframe (me s)) off;
  kp_umem : forall x b, umem (kmem s) T x = Some b -> umem (kmem s') T' x = Some b;
  kp_kept : forall q, q <> trapframe (me s) -> foreign (kmem s) T q -> kept (kmem s) (kmem s') T' q
}.

Lemma ukept_refl s T : ukept s T s T.
Proof. by split. Qed.

Lemma ukept_trans s1 T1 s2 T2 s3 T3 : ukept s1 T1 s2 T2 -> ukept s2 T2 s3 T3 -> ukept s1 T1 s3 T3.
Proof.
  intros [P1 C1 F1 U1 K1] [P2 C2 F2 U2 K2]. assert (E : me s2 = me s1) by (unfold me, proc_at; by rewrite C1, P1). rewrite E in *. split; [congruence|congruence| |auto|].
  - intros r off Hin. by rewrite (F2 r off Hin), (F1 r off Hin).
  - intros q Hq Hf. eapply kept_trans; [by apply K1|]. apply K2; [done|]. by apply K1.
Qed.

Lemma me_ext s s' : procs (k_tab s') = procs (k_tab s) -> cur (k_tab s') = cur (k_tab s) -> me s' = me s.
Proof. intros Hp Hc. unfold me, proc_at. by rewrite Hp, Hc. Qed.

(** Registers, counters and devices are no part of it. *)
Lemma uctx_ext s s' T fl : uctx s T fl -> k_tab s' = k_tab s -> uctx s' T fl.
Proof. intros [? ? ? ? ? ? ? ?] E. split; unfold kmem, me; by rewrite E. Qed.

Lemma ukept_ext s T s1 T1 s2 : ukept s T s1 T1 -> k_tab s2 = k_tab s1 -> ukept s T s2 T1.
Proof. intros [? ? ? ? ?] E. split; unfold kmem; by rewrite E. Qed.

Lemma own_page m T p : own m T p -> page_ok p.
Proof. by intros [(? & _) _]. Qed.

(** Storing a field of the trapframe that holds no user register. *)
Definition kernel_fields : list Z := [0; 8; 16; 24; 32].

Lemma kernel_field off : off ∈ kernel_fields -> 0 <= off /\ off + 8 <= PGSIZE /\ off mod 8 = 0 /\ off ∉ trapframe_slots.*2.
Proof.
  intros Hin. repeat (apply elem_of_cons in Hin as [->|Hin]; [split_and!; [done|done|done|by apply (bool_decide_unpack (¬ _)); vm_compute]|]). by apply not_elem_of_nil in Hin.
Qed.

(** The kernel changed the trapframe page only. *)
Lemma tf_step s T fl m' : uctx s T fl -> agree_off {[trapframe (me s)]} (kmem s) m' -> freelist m' = freelist (kmem s) -> ref_count m' = ref_count (kmem s) ->
  uctx (set_kmem m' s) T fl /\ private_step (pagetable (me s)) (kmem s) T (trapframe (me s)) m'.
Proof.
  intros [Hc HT Hk Hu Hn Hsz Htf Hmap] Hag Hf Hr. pose proof (agree_private _ _ _ _ _ HT Hu Hn Hag (own_unreached _ _ _ Htf)) as Hps. split; [|done]. destruct Hps as [HT' Hu' Hn' Hun' Hpte Hum Hkept].
  assert (Hk' : kmem_rep m' fl). { eapply kmem_rep_agree; [exact Hag|done| |done]. intros q Hq ->%elem_of_singleton. destruct Htf as [_ H1]. rewrite (rep_refs _ _ Hk) in H1 by done. lia. }
  split; try done; [|by rewrite Hpte]. apply unreached_own; [by eapply own_page|done|]. change (kmem (set_kmem m' s)) with m'. unfold ref. rewrite Hr. apply Htf.
Qed.

Lemma tf_store_wp s T fl off v L Q : uctx s T fl -> off ∈ kernel_fields -> 0 <= v < 2 ^ 64 ->
  (forall s', uctx s' T fl -> ukept s T s' T -> k_regs s' = k_regs s -> ticks s' = ticks s -> pg_fault_cnt s' = pg_fault_cnt s -> k_dev s' = k_dev s -> me s' = me s ->
    field (kmem s') (trapframe (me s)) off = v -> (forall o, o mod 8 = 0 -> o <> off -> field (kmem s') (trapframe (me s)) o = field (kmem s) (trapframe (me s)) o) ->
    (forall va, pte_at (kmem s') T va = pte_at (kmem s) T va) -> Q tt L s') ->
  wpl (onmemory (store64 (trapframe (me s) + off) v)) L s Q.
Proof.
  intros Hx Hin Hv HQ. destruct (kernel_field off Hin) as (H0 & Hp & H8 & Hnu). set (tf := trapframe (me s)) in *.
  pose proof (own_page _ _ _ (uc_tf _ _ _ Hx)) as Hok. pose proof (page_ok_whole _ Hok) as Hram. apply wpl_onmemory. apply wpl_store64; [unfold ram_ok in *; lia|]. cbv beta.
  set (m' := set_ram _ (kmem s)). assert (Hi : 0 <= off / 8 < 512) by (unfold PGSIZE in Hp; zdiv).
  assert (Hag : agree_off {[tf]} (kmem s) m') by (pose proof (agree_store (kmem s) tf (off / 8) v) as Ha; replace (tf + 8 * (off / 8)) with (tf + off) in Ha by zdiv; apply Ha; [apply Hok|done]).
  destruct (tf_step s T fl m' Hx Hag) as (Hx' & [_ _ _ _ Hpte Hum Hkept]); [done|done|].
  assert (Hoth : forall o, o mod 8 = 0 -> o <> off -> field m' tf o = field (kmem s) tf o) by (intros o Ho Hne; unfold field; simpl; apply load_store_le_ne; simpl; zdiv).
  apply HQ; try done.
  - split; try done.
    + intros r o Hro. apply Hoth; [by eapply (slots_ok PGSIZE trapframe_slots eq_refl)|]. intros ->. apply Hnu, list_elem_of_fmap. by exists (r, off).
    + intros x b. change (kmem (set_kmem m' s)) with m'. by rewrite Hum.
  - unfold field. simpl. rewrite load_store_le. apply Z.mod_small. exact Hv.
Qed.
End State.

(** * Page faults *)
Section Faults.
Context `{KI : KernelImage} {F D : Type} `{FR : FileRefs F} `{ID : IntrDevices D}.
Implicit Types (s : ks F D) (m : mem) (T : ptree) (fl : list Z) (L : list lock).

Lemma same_page_field m m' p off : same_page (ram m) (ram m') p -> 0 <= off -> off + 8 <= PGSIZE -> field m' p off = field m p off.
Proof. intros Hs H0 H8. apply load_le_ext. intros x Hx. symmetry. apply Hs. simpl in Hx. lia. Qed.

Lemma tf_pte_page (p : Z) : page_ok p -> let v := pte_entry p (Z.lor PTE_R PTE_W) in has_bits v PTE_V = true /\ has_bits v PTE_U = false.
Proof. intros Hp%page_ok_pte v. unfold v. rewrite pte_entry_eq, !has_bits_lor by done. by split. Qed.

(** A step of the memory of the process. *)
Lemma ukeep_ukept s T fl m' T' fl' : uctx s T fl -> ukeep (pagetable (me s)) (kmem s) T m' T' fl' -> pte_at m' T' TRAPFRAME = pte_at (kmem s) T TRAPFRAME ->
  uctx (set_kmem m' s) T' fl' /\ ukept s T (set_kmem m' s) T' /\ same_page (ram (kmem s)) (ram m') (trapframe (me s)).
Proof.
  intros [Hc HT Hk Hu Hn Hsz Htf Hmap] [HT' Hk' Hu' Hn' Hum Hkp] Hpte. pose proof (Hkp _ (proj1 Htf)) as Hktf. split_and!; [| |apply Hktf].
  - split; try done; [by eapply kept_own|exact (eq_trans Hpte Hmap)].
  - split; try done; [|by intros q _ Hq; apply Hkp]. intros r off Hin. destruct (proj2 (proj2 (slots_ok PGSIZE trapframe_slots eq_refl)) r off Hin) as (? & ? & _).
    apply same_page_field; [apply Hktf|done|done].
Qed.

(** A fault that the kernel can resolve: a store to a page that is copy-on-write
    (or already writable), or an access below the size where nothing is mapped. *)
Definition resolvable (v cause va size : Z) : Prop :=
  cause = 15 /\ PGROUNDDOWN va < MAXVA /\ has_bits v PTE_V && has_bits v PTE_U && (has_bits v PTE_W || has_bits v PTE_C) = true \/
  va < size /\ has_bits v PTE_V = false.

(** The access to the page of [va] that faulted is now possible. *)
Definition accessible_now s T (va : Z) : Prop :=
  let v := pte_at (kmem s) T (PGROUNDDOWN va) in readable v = true /\ has_bits v PTE_W = true.

Lemma breakable_readable v : breakable v = true -> readable v = true.
Proof. unfold breakable, readable. destruct (has_bits v PTE_V), (has_bits v PTE_U); done. Qed.

Lemma uvmcow_step s T fl va L : uctx s T fl -> 0 <= va -> avail [kmem_lock; ref_lock] L ->
  let v := pte_at (kmem s) T (PGROUNDDOWN va) in
  wp (uvmcow (pagetable (me s)) va) L (kmem s) (fun r m' => exists fl', uctx (set_kmem m' s) T fl' /\ ukept s T (set_kmem m' s) T /\ same_page (ram (kmem s)) (ram m') (trapframe (me s)) /\
    (r = 0 /\ accessible_now (set_kmem m' s) T va \/
     r <> 0 /\ m' = kmem s /\ fl' = fl /\ (fl = [] \/ ~ (PGROUNDDOWN va < MAXVA /\ has_bits v PTE_V && has_bits v PTE_U && (has_bits v PTE_W || has_bits v PTE_C) = true)))).
Proof.
  intros Hx Hva HL v. pose proof Hx as [Hc HT Hk Hu Hn Hsz Htf Hmap]. pose proof (PGROUNDDOWN_nonneg va Hva) as Ha0. set (a := PGROUNDDOWN va) in *.
  assert (Hid : uctx (set_kmem (kmem s) s) T fl /\ ukept s T (set_kmem (kmem s) s) T).
  { rewrite set_kmem_id. split; [done|apply ukept_refl]. }
  eapply wp_mono; [apply (uvmcow_wp (pagetable (me s)) va L (kmem s) T fl HT Hk Hva); [|done]|].
  { intros Ha Hb. apply Hu; [by unfold a in *; lia|]. by apply breakable_readable. }
  fold a v. intros r m' Hr. cbv beta in Hr. destruct (decide (a < MAXVA /\ breakable v = true)) as [[Ha Hb]|Hnb].
  - destruct fl as [|p fl1]; [destruct Hr as [-> ->]; exists []; split_and!; [apply Hid|apply Hid|done|]; right; split_and!; auto|]. destruct Hr as (-> & fl' & Hcc).
    pose proof (breakable_readable v Hb) as Hrd.
    pose proof (cow_ukeep (pagetable (me s)) (kmem s) T fl1 a p m' fl' Hk Hu Hn ltac:(lia) (PGROUNDDOWN_aligned va) Hrd Hcc) as Huk.
    destruct (cow_new_pte (pagetable (me s)) (kmem s) T fl1 a p m' fl' Hk Hu Hn ltac:(lia) (PGROUNDDOWN_aligned va) Hrd Hcc) as (Hnr & HnW & _).
    assert (Htfp : pte_at m' T TRAPFRAME = pte_at (kmem s) T TRAPFRAME).
    { apply (cc_off _ _ _ _ _ _ _ _ Hcc); [split; by vm_compute|]. intros E. assert (Ev : v = pte_at (kmem s) T TRAPFRAME) by (by apply pte_at_page).
      destruct (tf_pte_page _ (own_page _ _ _ Htf)) as [_ HU]. rewrite <- Hmap, <- Ev in HU. unfold readable in Hrd. rewrite HU, andb_false_r in Hrd. done. }
    destruct (ukeep_ukept s T (p :: fl1) m' T fl' Hx Huk Htfp) as (Hx' & Hkp & Hsp). exists fl'. split_and!; [done|done|done|]. left. split; [done|]. by split.
  - destruct Hr as [-> ->]. exists fl. split_and!; [apply Hid|apply Hid|done|]. case_decide as Hd; [left|right].
    + split; [done|]. destruct Hd as [_ Hd]. unfold accessible_now, readable. change (kmem (set_kmem (kmem s) s)) with (kmem s). fold a v.
      destruct (has_bits v PTE_V), (has_bits v PTE_U), (has_bits v PTE_W); done.
    + split_and!; [done|done|done|]. right. intros [Ha Hv]. unfold breakable in Hnb. destruct (has_bits v PTE_V), (has_bits v PTE_U), (has_bits v PTE_W), (has_bits v PTE_C); try done; [by apply Hd|by apply Hd|by apply Hnb].
Qed.

Lemma vmfault_step s T fl va L : uctx s T fl -> 0 <= va -> avail [kmem_lock; ref_lock] L ->
  let v := pte_at (kmem s) T (PGROUNDDOWN va) in
  wp (as_proc (cur (k_tab s)) (vmfault (pagetable (me s)) va)) L (k_tab s) (fun r t' => exists m' T' fl', t' = over m' (k_tab s) /\ uctx (set_kmem m' s) T' fl' /\ ukept s T (set_kmem m' s) T' /\ same_page (ram (kmem s)) (ram m') (trapframe (me s)) /\
    (r <> 0 /\ accessible_now (set_kmem m' s) T' va \/ r = 0 /\ (sz (me s) <= va \/ has_bits v PTE_V = true \/ (length fl' <= 1)%nat))).
Proof.
  intros Hx Hva HL v. pose proof Hx as [Hc HT Hk Hu Hn Hsz Htf Hmap]. pose proof (PGROUNDDOWN_nonneg va Hva) as Ha0. set (a := PGROUNDDOWN va) in *.
  pose proof (PGROUNDDOWN_aligned va) as Hal. fold a in Hal. set (w := mkVms (kmem s) (pframes (k_tab s)) (sz (me s)) (pagetable (me s))).
  eapply wp_mono.
  - apply (wp_as_proc (cur (k_tab s)) _ L (k_tab s) (fun r m' => exists T' fl', uctx (set_kmem m' s) T' fl' /\ ukept s T (set_kmem m' s) T' /\ same_page (ram (kmem s)) (ram m') (trapframe (me s)) /\
      (r <> 0 /\ accessible_now (set_kmem m' s) T' va \/ r = 0 /\ (sz (me s) <= va \/ has_bits v PTE_V = true \/ (length fl' <= 1)%nat)))).
    fold (me s) w. eapply wp_mono; [apply (vmfault_wp va L w T fl HT Hk Hva (proj2 Hsz) HL)|]. fold a v.
    intros r w' (m' & T' & fl' & -> & Hres). exists m'. split; [done|]. exists T', fl'.
    assert (Hux : uext (pagetable (me s)) (sz (me s)) (kmem s) T fl m' T' fl').
    { destruct Hres as [(_ & Hg & _)|(_ & Hlt & HV & Hg)]; (eapply grown_uext; [done|done|done|done| | |exact Hg]); simpl; auto; try done. intros _. pose proof (PGROUNDDOWN_bounds va) as Hb. fold a in Hb. split; [|done]. simpl in Hlt. lia. }
    assert (Htfp : pte_at m' T' TRAPFRAME = pte_at (kmem s) T TRAPFRAME).
    { apply (ux_keep _ _ _ _ _ _ _ _ Hux); [split; by vm_compute|]. rewrite Hmap. by apply tf_pte_page, (own_page _ _ _ Htf). }
    destruct (ukeep_ukept s T fl m' T' fl' Hx (uext_ukeep _ _ _ _ _ _ _ _ Hk Hu Hn Hux) Htfp) as (Hx' & Hkp & Hsp). split_and!; [done|done|done|].
    destruct Hres as [(-> & _ & Hwhy)|(Hr0 & Hlt & HV & Hg)]; [by right|left]. split; [done|].
    assert (Hp : pte_at m' T' a = pte_entry r lazy_perm) by (rewrite <- (Z.add_0_r a); change 0 with (PGSIZE * Z.of_nat 0); by apply (gw_ptes _ _ _ _ _ _ _ _ _ _ Hg)).
    destruct (grown_page (pagetable (me s)) (kmem s) T fl a lazy_perm HT Hk Hal Ha0 ltac:(done) _ _ _ _ r Hg) as (Hok & _); [set_solver|]. apply page_ok_pte in Hok.
    unfold accessible_now, readable. change (kmem (set_kmem m' s)) with m'. fold a. by rewrite Hp, pte_entry_eq, !has_bits_lor by done.
  - intros r t' (m' & -> & T' & fl' & ?). by exists m', T', fl'.
Qed.
End Faults.

(** * usertrap *)
Section Usertrap.
Context `{KI : KernelImage} {F D : Type} `{FR : FileRefs F} `{ID : IntrDevices D}.
Context `{OC : OtherCalls F D} (forkret ticks_addr kernelvec uservec usertrap_addr : Z).
Implicit Types (s : ks F D) (m : mem) (T : ptree) (fl : list Z) (L : list lock).

Definition kill_me s : ks F D := over (C := ptab F) (on_proc (cur (k_tab s)) (with_killed 1) (k_tab s)) s.

(** [s'] differs from [s] at most in the counter of faults. *)
Definition counted s s' : Prop := exists n, s' = set_faults n s.

(** How a fault is handled: resolved, or the process is marked killed because
    there is nothing to resolve or too little memory. *)
Definition fault_end s T fl s' : Prop :=
  let va := k_regs s STVAL in
  exists s1 T1 fl1, uctx s1 T1 fl1 /\ ukept s T s1 T1 /\ k_regs s1 = k_regs s /\ same_page (ram (kmem s)) (ram (kmem s1)) (trapframe (me s)) /\
    (counted s1 s' /\ accessible_now s1 T1 va \/
     s' = kill_me s1 /\ (~ resolvable (pte_at (kmem s) T (PGROUNDDOWN va)) (k_regs s SCAUSE) va (sz (me s)) \/ (length fl <= 1 \/ length fl1 <= 1)%nat)).

Lemma kill_wp s T fl s1 T1 fl1 L : uctx s1 T1 fl1 -> ukept s T s1 T1 -> k_regs s1 = k_regs s -> same_page (ram (kmem s)) (ram (kmem s1)) (trapframe (me s)) -> proc_lock (cur (k_tab s)) ∉ L ->
  ~ resolvable (pte_at (kmem s) T (PGROUNDDOWN (k_regs s STVAL))) (k_regs s SCAUSE) (k_regs s STVAL) (sz (me s)) \/ (length fl <= 1 \/ length fl1 <= 1)%nat ->
  wp (onproc (setkilled (cur (k_tab s)))) L s1 (fun _ s' => fault_end s T fl s').
Proof.
  intros Hx1 Hk1 Hr1 Hsp HL Hwhy. unfold onproc, setkilled, pset. wstep. wstep. wstep. apply wpl_acquire; [done|]. wsteps. split; [done|].
  exists s1, T1, fl1. split_and!; try done. right. split; [|done]. unfold kill_me. by rewrite (kp_cur _ _ _ _ Hk1).
Qed.

Lemma vm_or_kill_wp s T fl s1 L : uctx s1 T fl -> ukept s T s1 T -> kmem s1 = kmem s -> k_regs s1 = k_regs s -> 0 <= k_regs s STVAL ->
  avail [kmem_lock; ref_lock; proc_lock (cur (k_tab s))] L ->
  let va := k_regs s STVAL in
  let v := pte_at (kmem s) T (PGROUNDDOWN va) in
  ~ (k_regs s SCAUSE = 15 /\ PGROUNDDOWN va < MAXVA /\ has_bits v PTE_V && has_bits v PTE_U && (has_bits v PTE_W || has_bits v PTE_C) = true) \/ fl = [] ->
  wp (r ← onproc (as_proc (cur (k_tab s)) (vmfault (pagetable (me s)) va)); if decide (r <> 0) then mret tt else onproc (setkilled (cur (k_tab s)))) L s1 (fun _ s' => fault_end s T fl s').
Proof.
  intros Hx1 Hk1 Em Hr1 Hva HL va v Hnc. assert (Eme : me s1 = me s) by (apply me_ext; apply Hk1). pose proof (kp_cur _ _ _ _ Hk1) as Ecur.
  pose proof (vmfault_step s1 T fl va L Hx1 Hva) as Hw. rewrite Ecur, Eme, Em in Hw. fold v in Hw. wstep. wstep. unfold onproc at 1. wstep.
  eapply wpl_call; [apply Hw; solve_avail|]. clear Hw. intros r t' (m' & T' & fl' & -> & Hx' & Hk' & Hsp & Hor). rewrite ?Eme, ?Em in Hsp. change (over (over m' (k_tab s1)) s1) with (set_kmem m' s1).
  pose proof (ukept_trans _ _ _ _ _ _ Hk1 Hk') as Hkk. destruct Hor as [[Hr Hacc]|[-> Hwhy]].
  - wtrue; [|done]. wsteps. split; [done|]. exists (set_kmem m' s1), T', fl'. split_and!; try done. left. split; [|done]. exists (pg_fault_cnt s1). by destruct s1.
  - wfalse; [|by intros ?]. apply (kill_wp s T fl (set_kmem m' s1) T' fl'); try done; [solve_avail|]. fold va v.
    destruct Hnc as [Hnc| ->]; [|right; left; simpl; lia]. destruct Hwhy as [?|[?|?]]; [left|left|by right; right].
    + intros Hres. unfold resolvable in Hres. destruct Hres as [?|[? ?]]; [done|lia].
    + intros Hres. unfold resolvable in Hres. destruct Hres as [?|[? ?]]; [done|congruence].
Qed.

Lemma handle_fault_wp s T fl L : uctx s T fl -> 0 <= k_regs s STVAL -> k_regs s SCAUSE = 13 \/ k_regs s SCAUSE = 15 ->
  avail [kmem_lock; ref_lock; proc_lock (cur (k_tab s))] L ->
  wp (handle_fault (cur (k_tab s)) (pagetable (me s))) L s (fun _ s' => fault_end s T fl s').
Proof.
  intros Hx Hva Hcause HL. unfold handle_fault, r_reg. do 3 wstep. wstep. wstep. wstep. destruct Hcause as [Ec|Ec]; rewrite Ec.
  - rewrite decide_False by done. wsteps. wfalse; [|done]. rewrite decide_True by auto. apply (vm_or_kill_wp s T fl s L); try done; try apply ukept_refl.
    left. rewrite Ec. by intros [? _].
  - rewrite decide_True by done. apply wpl_onmemory. eapply wpl_call; [apply (uvmcow_step s T fl (k_regs s STVAL) L Hx Hva); solve_avail|].
    intros r m' (fl' & Hx' & Hk' & Hsp & Hor). destruct Hor as [[-> Hacc]|(Hr & -> & -> & Hwhy)].
    + wtrue; [|done]. wsteps. split; [done|]. exists (set_kmem m' s), T, fl'. split_and!; try done. left. split; [|done]. eexists. done.
    + wfalse; [|done]. rewrite decide_True by auto. rewrite set_kmem_id in *.
      apply (vm_or_kill_wp s T fl s L); try done. destruct Hwhy as [?|Hn]; [by right|left]. by intros [_ ?].
Qed.

(** The registers with which sret enters user mode with interrupts enabled. *)
Lemma return_status x :
  let y := Z.lor (Z.land (Z.land x (Z.lnot SSTATUS_SIE)) (Z.lnot SSTATUS_SPP)) SSTATUS_SPIE in
  has_bits y SSTATUS_SPP = false /\ has_bits y SSTATUS_SPIE = true /\ has_bits y SSTATUS_SIE = false.
Proof.
  intros y. unfold y, SSTATUS_SPP, SSTATUS_SPIE, SSTATUS_SIE. rewrite !has_bits_testbit by done. rewrite !Z.lor_spec, !Z.land_spec, !Z.lnot_spec, !Z.shiftl_1_l by done.
  rewrite !Z.pow2_bits_eqb by done. split_and!; by destruct (Z.testbit x 1), (Z.testbit x 5), (Z.testbit x 8).
Qed.

Lemma usertrap_cause_wp s T fl : uctx s T fl -> (forall r, 0 <= k_regs s r < 2 ^ 64) -> has_bits (k_regs s SSTATUS) SSTATUS_SPP = false ->
  k_regs s SCAUSE = 13 \/ k_regs s SCAUSE = 15 ->
  wp (usertrap_cause forkret ticks_addr kernelvec) [] s (fun x s' => x = (cur (k_tab s), inl 0) /\ exists s0, uctx s0 T fl /\ ukept s T s0 T /\
    field (kmem s0) (trapframe (me s)) TF_EPC = k_regs s SEPC /\ (forall r, r <> STVEC -> k_regs s0 r = k_regs s r) /\
    (forall va, pte_at (kmem s0) T va = pte_at (kmem s) T va) /\ fault_end s0 T fl s').
Proof.
  intros Hx Hr Hspp Hcause. unfold usertrap_cause, r_reg, w_reg, myproc. do 3 wstep. rewrite Hspp. wsteps. apply wpl_onpof. wsteps.
  set (s1 := set_reg STVEC kernelvec s). assert (Hx1 : uctx s1 T fl) by by apply (uctx_ext s).
  change (proc_at (cur (k_tab s1)) (k_tab s1)) with (me s1). apply (tf_store_wp s1 T fl TF_EPC (k_regs s1 SEPC) [] _ Hx1); [set_solver|exact (Hr SEPC)|].
  intros s0 Hx0 Hk0 Er0 _ _ _ Em0 Hf0 _ Hp0. wsteps. assert (Hreg : forall r, r <> STVEC -> k_regs s0 r = k_regs s r) by (intros r Hne; rewrite Er0; simpl; by rewrite fn_lookup_insert_ne).
  rewrite (Hreg SCAUSE) by done. rewrite decide_False by (destruct Hcause as [-> | ->]; done). unfold devintr, r_reg. wsteps. rewrite (Hreg SCAUSE) by done.
  rewrite decide_False by (destruct Hcause as [-> | ->]; done). rewrite decide_False by (destruct Hcause as [-> | ->]; done). wsteps. wfalse; [|by intros ?]. wsteps.
  change (cur (k_tab s1)) with (cur (k_tab s)). rewrite <- (kp_cur _ _ _ _ Hk0 : cur (k_tab s0) = cur (k_tab s)). rewrite <- Em0.
  eapply wpl_call; [apply (handle_fault_wp s0 T fl []); [done|rewrite Hreg by done; apply Hr|by rewrite Hreg|apply avail_nil]|].
  intros u s' Hend. cbv beta in Hend. wsteps. split; [done|]. split; [done|]. exists s0. split_and!; try done. destruct Hk0 as [? ? ? ? ?]. by split.
Qed.

(** Ready for the return to user mode at [epc]: traps go to uservec, sret enters
    user mode with interrupts enabled, none comes before it, and the trapframe
    says where uservec finds the kernel. *)
Record ready s epc s' : Prop := {
  rd_stvec : k_regs s' STVEC = uservec;
  rd_sepc : k_regs s' SEPC = epc;
  rd_spp : has_bits (k_regs s' SSTATUS) SSTATUS_SPP = false;
  rd_spie : has_bits (k_regs s' SSTATUS) SSTATUS_SPIE = true;
  rd_sie : has_bits (k_regs s' SSTATUS) SSTATUS_SIE = false;
  rd_satp : field (kmem s') (trapframe (me s)) TF_KERNEL_SATP = k_regs s SATP;
  rd_sp : field (kmem s') (trapframe (me s)) TF_KERNEL_SP = u64 (kstack (me s) + PGSIZE);
  rd_trap : field (kmem s') (trapframe (me s)) TF_KERNEL_TRAP = usertrap_addr;
  rd_hart : field (kmem s') (trapframe (me s)) TF_KERNEL_HARTID = k_regs s TP
}.

Lemma prepare_return_wp s T fl : uctx s T fl -> 0 <= k_regs s SATP < 2 ^ 64 -> 0 <= k_regs s TP < 2 ^ 64 -> 0 <= usertrap_addr < 2 ^ 64 ->
  wp (prepare_return uservec usertrap_addr) [] s (fun _ s' => uctx s' T fl /\ ukept s T s' T /\ (forall va, pte_at (kmem s') T va = pte_at (kmem s) T va) /\
    ready s (field (kmem s) (trapframe (me s)) TF_EPC) s').
Proof.
  intros Hx Hsatp Htp Hua. unfold prepare_return, intr_off, r_reg, w_reg, myproc. wsteps. apply wpl_onpof. wsteps. change (proc_at _ (k_tab s)) with (me s). set (s1 := set_reg STVEC _ _). assert (Hx1 : uctx s1 T fl) by by apply (uctx_ext s). change (me s) with (me s1).
  assert (Hr1 : forall r, r <> SSTATUS -> r <> STVEC -> k_regs s1 r = k_regs s r) by (intros r ? ?; simpl; by rewrite !fn_lookup_insert_ne).
  apply (tf_store_wp s1 T fl TF_KERNEL_SATP _ [] _ Hx1); [set_solver|exact Hsatp|]. intros s2 Hx2 Hk2 Er2 _ _ _ Em2 F2 O2 P2. wsteps. rewrite <- Em2.
  apply (tf_store_wp s2 T fl TF_KERNEL_SP _ [] _ Hx2); [set_solver|auto with width|]. intros s3 Hx3 Hk3 Er3 _ _ _ Em3 F3 O3 P3. wsteps. rewrite <- Em3.
  apply (tf_store_wp s3 T fl TF_KERNEL_TRAP _ [] _ Hx3); [set_solver|done|]. intros s4 Hx4 Hk4 Er4 _ _ _ Em4 F4 O4 P4. wsteps. rewrite <- Em4.
  assert (Hreg4 : k_regs s4 = k_regs s1) by congruence.
  apply (tf_store_wp s4 T fl TF_KERNEL_HARTID _ [] _ Hx4); [set_solver|rewrite Hreg4; exact Htp|]. intros s5 Hx5 Hk5 Er5 _ _ _ Em5 F5 O5 P5. wsteps.
  apply wpl_onmemory. pose proof (page_ok_whole _ (own_page _ _ _ (uc_tf _ _ _ Hx5))) as Hram. rewrite Em5 in Hram.
  apply wpl_load64; [unfold ram_ok, TF_EPC, PGSIZE in *; lia|]. rewrite set_kmem_id. wsteps. split; [done|]. set (s6 := set_reg SEPC _ _).
  assert (Hk6 : ukept s T s6 T) by (apply (ukept_ext s T s5 T); [|done]; apply (ukept_trans s T s1 T); [by apply (ukept_ext s T s T); [apply ukept_refl|]|]; eapply ukept_trans; [exact Hk2|]; eapply ukept_trans; [exact Hk3|]; by eapply ukept_trans).
  rewrite Em2 in F3, O3. rewrite Em3, Em2 in F4, O4. rewrite Em4, Em3, Em2 in F5, O5. 
  destruct (return_status (k_regs s SSTATUS)) as (B1 & B2 & B3). assert (Hst : k_regs s5 SSTATUS = Z.land (k_regs s SSTATUS) (Z.lnot SSTATUS_SIE)) by by rewrite Er5, Hreg4.
  assert (E4 : me s4 = me s) by by rewrite Em4, Em3, Em2. rewrite E4. assert (H1 : trapframe (me s1) = trapframe (me s)) by done. rewrite !H1 in *.
  assert (Hkm : forall o, field (kmem s6) (trapframe (me s)) o = field (kmem s5) (trapframe (me s)) o) by done.
  split_and!; [by apply (uctx_ext s5)|done|intros va; change (pte_at (kmem s5) T va = pte_at (kmem s1) T va); by rewrite P5, P4, P3, P2|]. split.
  - simpl. rewrite !fn_lookup_insert_ne by done. by rewrite Er5, Hreg4.
  - simpl. rewrite fn_lookup_insert. change (load_le _ _ 8) with (field (kmem s5) (trapframe (me s4)) TF_EPC). rewrite E4. by rewrite O5, O4, O3, O2.
  - simpl. rewrite fn_lookup_insert_ne, fn_lookup_insert by done. by rewrite Hst.
  - simpl. rewrite fn_lookup_insert_ne, fn_lookup_insert by done. by rewrite Hst.
  - simpl. rewrite fn_lookup_insert_ne, fn_lookup_insert by done. by rewrite Hst.
  - by rewrite Hkm, O5, O4, O3, F2.
  - by rewrite Hkm, O5, O4, F3.
  - by rewrite Hkm, O5, F4.
  - by rewrite Hkm, F5, Hreg4.
Qed.

Lemma killed_wp i L s Q : proc_lock i ∉ L -> Q (killed_flag (proc_at i (k_tab s))) L s -> wpl (onproc (Proc.killed i)) L s Q.
Proof. intros HL HQ. unfold onproc, Proc.killed, pof. wstep. wstep. apply wpl_acquire; [done|]. wsteps. by rewrite over_view. Qed.

Lemma usertrap_return_wp s T fl : uctx s T fl -> 0 <= k_regs s SATP < 2 ^ 64 -> 0 <= k_regs s TP < 2 ^ 64 -> 0 <= usertrap_addr < 2 ^ 64 -> killed_flag (me s) = 0 ->
  wp (usertrap_return uservec usertrap_addr (cur (k_tab s)) 0) [] s (fun r s' => r = Back (MAKE_SATP (pagetable (me s))) /\ uctx s' T fl /\ ukept s T s' T /\
    (forall va, pte_at (kmem s') T va = pte_at (kmem s) T va) /\ ready s (field (kmem s) (trapframe (me s)) TF_EPC) s').
Proof.
  intros Hx Hsatp Htp Hua Hk. unfold usertrap_return. wstep. wstep. apply killed_wp; [set_solver|]. fold (me s). rewrite Hk. wfalse; [|by intros ?]. wfalse; [|done].
  wstep. eapply wpl_call; [by apply (prepare_return_wp s T fl)|]. intros u s' (Hx' & Hk' & Hp & Hrd). wsteps. apply wpl_onpof. wsteps. split; [done|].
  rewrite <- (kp_cur _ _ _ _ Hk'). fold (me s'). by rewrite (me_ext s s' (kp_procs _ _ _ _ Hk') (kp_cur _ _ _ _ Hk')).
Qed.

Lemma usertrap_return_killed i d s : killed_flag (proc_at i (k_tab s)) <> 0 ->
  usertrap_return uservec usertrap_addr i d [] s = (onproc (kexit (-1));; mret Exited) [] s.
Proof.
  intros Hk. assert (Hr : wpl (onproc (Proc.killed i)) [] s (fun k L s' => k = killed_flag (proc_at i (k_tab s)) /\ L = [] /\ s' = s)) by (apply killed_wp; [set_solver|done]).
  unfold wpl in Hr. unfold usertrap_return, mbind at 1, M_bind at 1. destruct (onproc (Proc.killed i) [] s); try done. destruct Hr as (-> & -> & ->). by rewrite decide_True.
Qed.

Lemma kill_me_killed s : (cur (k_tab s) < length (procs (k_tab s)))%nat -> killed_flag (proc_at (cur (k_tab s)) (k_tab (kill_me s))) = 1.
Proof. intros Hc. unfold kill_me. simpl. by rewrite proc_at_on. Qed.

Lemma ready_ext s1 s epc s' : ready s1 epc s' -> me s1 = me s -> (forall r, r <> STVEC -> k_regs s1 r = k_regs s r) -> ready s epc s'.
Proof. intros [? ? ? ? ? E1 E2 E3 E4] Em Er. rewrite Em, ?Er in * by done. by split. Qed.

(** A page fault of a user program (load or store): either usertrap returns to the trampoline with the page table of the
    process, at the faulting instruction, ready for the return to user mode, with
    all user registers and all the memory the program could read as they were and
    the faulting page now readable and writable; or the process is marked killed
    and exits with status -1, and then the fault could not be resolved (the page
    is neither copy-on-write nor unmapped below the size) or memory was short. *)
Lemma usertrap_fault s T fl : uctx s T fl -> (forall r, 0 <= k_regs s r < 2 ^ 64) -> 0 <= usertrap_addr < 2 ^ 64 ->
  has_bits (k_regs s SSTATUS) SSTATUS_SPP = false -> k_regs s SCAUSE = 13 \/ k_regs s SCAUSE = 15 -> killed_flag (me s) = 0 ->
  let va := k_regs s STVAL in
  let run := usertrap forkret ticks_addr kernelvec uservec usertrap_addr [] s in
  exists s' T' fl', uctx s' T' fl' /\ ukept s T s' T' /\
    (run = Ok (Back (MAKE_SATP (pagetable (me s)))) [] s' /\ accessible_now s' T' va /\ ready s (k_regs s SEPC) s' \/
     run = (onproc (kexit (-1));; mret Exited) [] (kill_me s') /\
     (~ resolvable (pte_at (kmem s) T (PGROUNDDOWN va)) (k_regs s SCAUSE) va (sz (me s)) \/ (length fl <= 1 \/ length fl' <= 1)%nat)).
Proof.
  intros Hx Hr Hua Hspp Hcause Hkl va run. pose proof (usertrap_cause_wp s T fl Hx Hr Hspp Hcause) as Hw. unfold wp, wpl in Hw. unfold run, usertrap.
  destruct (usertrap_cause forkret ticks_addr kernelvec [] s) as [x L s0'| | | |] eqn:Ec; try done. destruct Hw as (-> & -> & s0 & Hx0 & Hk0 & Hepc & Hreg & Hpte & s1 & T1 & fl1 & Hx1 & Hk1 & Hr1 & Hsp & Hor).
  assert (Hrun : forall s', s0' = s' -> (x ← usertrap_cause forkret ticks_addr kernelvec; match x.2 with inl which_dev => usertrap_return uservec usertrap_addr x.1 which_dev | inr e => mret e end) [] s =
    usertrap_return uservec usertrap_addr (cur (k_tab s)) 0 [] s') by (intros s' <-; unfold mbind, M_bind; by rewrite Ec).
  pose proof (ukept_trans _ _ _ _ _ _ Hk0 Hk1) as Hks. assert (Em : me s1 = me s) by (apply me_ext; apply Hks). assert (Em0 : me s0 = me s) by (apply me_ext; apply Hk0).
  rewrite (Hreg STVAL), (Hreg SCAUSE), Em0, Hpte in Hor by done. fold va in Hor. destruct Hor as [[[n En] Hacc]|[En Hwhy]].
  - set (s2 := set_faults n s1) in *. assert (Hx2 : uctx s2 T1 fl1) by by apply (uctx_ext s1). assert (Hr2 : forall r, r <> STVEC -> k_regs s2 r = k_regs s r) by (intros r Hne; change (k_regs s2 r) with (k_regs s1 r); rewrite Hr1; by apply Hreg).
    change (me s1) with (me s2) in Em. pose proof (usertrap_return_wp s2 T1 fl1 Hx2) as Hw. rewrite !Hr2, Em in Hw by done. specialize (Hw (Hr SATP) (Hr TP) Hua Hkl).
    rewrite (kp_cur _ _ _ _ Hks : cur (k_tab s2) = _) in Hw. rewrite (Hrun s2 En). unfold wp, wpl in Hw. destruct (usertrap_return _ _ _ _ [] s2) as [r L s'| | | |]; try done.
    destruct Hw as (-> & -> & Hx' & Hk' & Hp' & Hrd). exists s', T1, fl1. assert (Hk2 : ukept s T s2 T1) by by apply (ukept_ext s T s1 T1). split_and!; [done|by eapply ukept_trans|left].
    split_and!; [done|by unfold accessible_now; rewrite Hp'|]. apply (ready_ext s2); [|done|done]. rewrite <- Hepc. rewrite Em0 in Hsp. by rewrite <- (same_page_field _ _ _ TF_EPC Hsp) by done.
  - exists s1, T1, fl1. split_and!; [done|done|right]. split; [|done]. rewrite (Hrun _ En). apply usertrap_return_killed. rewrite <- (kp_cur _ _ _ _ Hks). by rewrite (kill_me_killed s1 (uc_cur _ _ _ Hx1)).
Qed.
End Usertrap.

(** * System call dispatch *)
Section Dispatch.
Context `{KI : KernelImage} {F D : Type} `{FR : FileRefs F} `{ID : IntrDevices D}.
Context `{OC : OtherCalls F D} (forkret ticks_addr : Z).
Implicit Types (s : ks F D) (T : ptree) (fl : list Z) (L : list lock).

(** The entry that the initializer gives a number is the entry at that number, and
    there are no others. *)
Lemma syscalls_handler n f : (n, f) ∈ handlers (F := F) (D := D) forkret ticks_addr ->
  0 < sysno n < Z.of_nat NSYSCALLS /\ syscalls forkret ticks_addr !! Z.to_nat (sysno n) = Some (Some f).
Proof.
  intros Hin. unfold handlers in Hin. repeat (apply elem_of_cons in Hin as [[= -> ->]|Hin]; [done|]).
  by apply not_elem_of_nil in Hin.
Qed.

Lemma syscalls_number k f : syscalls (F := F) (D := D) forkret ticks_addr !! k = Some (Some f) -> exists n, k = Z.to_nat (sysno n).
Proof.
  unfold syscalls. generalize (handlers (F := F) (D := D) forkret ticks_addr) as l.
  induction l as [|[n g] l IH] using rev_ind; [by intros [? _]%lookup_replicate|].
  rewrite foldl_snoc. intros [(<- & _)|(_ & Hk)]%list_lookup_insert_Some; [by exists n|by apply IH].
Qed.

Lemma load_field s T fl off L : uctx s T fl -> 0 <= off -> off + 8 <= PGSIZE -> onmemory (load64 (trapframe (me s) + off)) L s = Ok (field (kmem s) (trapframe (me s)) off) L s.
Proof.
  intros Hx H0 H8. assert (Hw : wpl (onmemory (load64 (trapframe (me s) + off))) L s (fun v L' s' => v = field (kmem s) (trapframe (me s)) off /\ L' = L /\ s' = s)).
  { apply wpl_onmemory. pose proof (page_ok_whole _ (own_page _ _ _ (uc_tf _ _ _ Hx))) as Hram. apply wpl_load64; [unfold ram_ok in *; lia|]. by rewrite set_kmem_id. }
  unfold wpl in Hw. destruct (onmemory _ L s); try done. by destruct Hw as (-> & -> & ->).
Qed.

Definition arg_fields s : list Z := (fun k => field (kmem s) (trapframe (me s)) (TF_A0 + 8 * Z.of_nat k)) <$> seq 0 6.

Lemma load_args_run s T fl L n : uctx s T fl -> (n <= 6)%nat ->
  load_args (trapframe (me s)) n L s = Ok ((fun k => field (kmem s) (trapframe (me s)) (TF_A0 + 8 * Z.of_nat k)) <$> seq 0 n) L s.
Proof.
  intros Hx. induction n as [|n IH]; intros Hn; [done|]. cbn [load_args]. unfold mbind, M_bind. rewrite IH by lia.
  rewrite <- Z.add_assoc, (load_field s T fl) by (done || unfold TF_A0, PGSIZE; lia). rewrite seq_S, fmap_app. done.
Qed.

(** System calls reach their handlers: with a7 (as an int) the number that the
    initializer of the table gives a handler, syscall runs it on the argument
    registers a0 to a5 and, when it returns, puts its value in a0; with any other
    number it puts -1 there and runs nothing. *)
Lemma syscall_dispatches s T fl L : uctx s T fl ->
  let tf := trapframe (me s) in
  let num := s32 (field (kmem s) tf TF_A7) in
  let run := syscall forkret ticks_addr L s in
  (forall n f, (n, f) ∈ handlers forkret ticks_addr -> num = sysno n -> run = (r ← f (arg_fields s);
    match r with Done v => onmemory (store64 (tf + TF_A0) (u64 v));; mret r | _ => mret r end) L s) /\
  ((forall n, num <> sysno n) -> run = (onmemory (store64 (tf + TF_A0) (u64 (-1)));; mret (Done (-1))) L s).
Proof.
  intros Hx tf num run. assert (Hrun : run = match (if decide (num > 0 /\ num < Z.of_nat NSYSCALLS) then syscalls forkret ticks_addr !! Z.to_nat num else None) with
    | Some (Some f) => (r ← f (arg_fields s); match r with Done v => onmemory (store64 (tf + TF_A0) (u64 v));; mret r | _ => mret r end) L s
    | _ => (onmemory (store64 (tf + TF_A0) (u64 (-1)));; mret (Done (-1))) L s end).
  { unfold run, syscall, myproc. unfold mbind at 1, M_bind at 1. unfold gets at 1. cbn beta iota. unfold mbind at 1, M_bind at 1.
    change (onproc (pof (cur (k_tab s))) L s) with (Ok (me s) L (over (k_tab s) s)). cbn beta iota. replace (over (k_tab s) s) with s by (by destruct s). fold tf.
    unfold mbind at 1, M_bind at 1. rewrite (load_field s T fl) by done. fold num. cbn beta iota zeta. destruct (if decide _ then _ else _) as [[f|]|]; [|done|done].
    unfold mbind at 1, M_bind at 1. by rewrite (load_args_run s T fl). }
  split.
  - intros n f Hf Hn. destruct (syscalls_handler n f Hf) as [? Hl]. rewrite Hrun, decide_True by lia. by rewrite Hn, Hl.
  - intros Hno. rewrite Hrun. case_decide as Hd; [|done]. destruct (syscalls forkret ticks_addr !! Z.to_nat num) as [[f|]|] eqn:E; [|done|done].
    apply syscalls_number in E as [n E]. destruct (Hno n). assert (0 < sysno n) by by destruct n. lia.
Qed.
End Dispatch.

(** * The clock and sys_pause *)
Section Clock.
Context `{KI : KernelImage} {F D : Type} `{FR : FileRefs F} `{ID : IntrDevices D}.
Context (ticks_addr : Z).
Implicit Types (s : ks F D) (i k : nat) (L : list lock).

(** Process [i] runs and is not killed; it sleeps on [ticks]. *)
Record running i s : Prop := {
  ru_cur : cur (k_tab s) = i;
  ru_len : length (procs (k_tab s)) = NPROC;
  ru_killed : killed_flag (proc_at i (k_tab s)) = 0
}.
Record paused i s : Prop := {
  pa_running : running i s;
  pa_state : state (proc_at i (k_tab s)) = SLEEPING;
  pa_chan : Proc.chan (proc_at i (k_tab s)) = Some (ChAddr ticks_addr)
}.

Definition pause_result (n j : Z) i (r : sysres) L s' : Prop :=
  if decide (j < n) then r = Asleep /\ L = [proc_lock i] /\ paused i s' else r = Done 0 /\ L = [] /\ running i s'.

Lemma wpl_release_below {S} (x l : lock) L (s : S) Q : x <> l -> Q tt (x :: L) s -> wpl (release l) (x :: l :: L) s Q.
Proof. intros Hne HQ. unfold wpl, release. rewrite decide_True by set_solver. simpl. rewrite decide_False, decide_True by done. done. Qed.

Lemma sched_wp L (t : ptab F) Q : L = [proc_lock (cur t)] -> state (proc_at (cur t) t) <> RUNNING -> Q tt L t -> wpl sched L t Q.
Proof. intros -> Hs HQ. unfold wpl, sched. rewrite decide_True by set_solver. rewrite decide_True by done. by rewrite decide_False. Qed.

Lemma pause_round_wp i n t0 j s : (i < NPROC)%nat -> running i s -> ticks s = u32 (t0 + j) -> 0 <= j < 2 ^ 32 ->
  wpl (pause_round ticks_addr n t0) [tickslock] s (fun r L s' => ticks s' = ticks s /\ pause_result n j i r L s').
Proof.
  intros Hi Hru Ht Hj. pose proof Hru as [Hc Hl Hk]. unfold pause_round, pause_result, myproc. wsteps. rewrite Ht.
  replace (u32 (u32 (t0 + j) - t0)) with j by (unfold u32; rewrite Zminus_mod_idemp_l; replace (t0 + j - t0) with j by lia; by rewrite Z.mod_small).
  wcase as Hd; [|by wsteps]. wsteps. apply killed_wp; [set_solver|]. rewrite Hc, Hk. wfalse; [|by intros ?]. wstep. unfold onproc, sleep_enter, pset. wstep. wsteps. cbn [view ks_tab]. rewrite Hc.
  apply wpl_release_below; [done|]. wsteps. set (t' := on_proc i _ _). assert (Hat : proc_at i t' = with_state SLEEPING (with_chan (Some (ChAddr ticks_addr)) (proc_at i (k_tab s)))).
  { unfold t'. rewrite !proc_at_on; [done|lia|simpl; rewrite length_alter; lia]. }
  apply sched_wp; [simpl; by rewrite Hc|simpl; rewrite Hc; fold t'; by rewrite Hat|]. wsteps. split; [done|]. split; [done|]. split; [done|].
  split; [split|..]; simpl; try (by fold t'; rewrite Hat); [done|by rewrite !length_alter].
Qed.

Lemma clockintr_wp s L : length (procs (k_tab s)) = NPROC -> k_regs s TP = 0 -> avail (tickslock :: table_locks (Some (cur (k_tab s)))) L ->
  wp (clockintr ticks_addr) L s (fun _ s' => ticks s' = u32 (ticks s + 1) /\
    k_tab s' = set_procs (imap (fun i => if decide (i = cur (k_tab s)) then id else woken (ChAddr ticks_addr)) (procs (k_tab s))) (k_tab s) /\
    k_regs s' = <[STIMECMP := u64 (k_regs s TIME + 1000000)]> (k_regs s)).
Proof.
  intros Hl Htp HL. unfold clockintr, cpuid, r_reg, w_reg. wsteps. rewrite Htp. wtrue; [|done]. wsteps. unfold onproc. wstep.
  eapply wpl_call; [apply wakeup_wp; [done|]|]. { apply avail_push; [eapply avail_incl; [exact HL|set_solver]|]. by intros (? & ? & _)%list_elem_of_fmap. }
  intros u t' ->. by wsteps.
Qed.

(** A tick while process [k] runs: the scheduler that got the CPU from the
    process [i] released its lock; hart 0, running [k], takes the clock interrupt;
    a scheduler picks [i] again, which goes on in sys_pause. *)
Definition run_on k : ks F D -> ks F D := fun s =>
  set_reg TP 0 (over (C := ptab F) (let t := k_tab s in mkPtab (procs t) k (initproc t) (nextpid t) (pmem t) (pframes t) (pfiles t)) s).

Definition pause_tick i k (n t0 : Z) : M (ks F D) sysres :=
  release (proc_lock i);;
  modify (run_on k);;
  clockintr ticks_addr;;
  onproc (scheduler_pick i);;
  pause_resume ticks_addr n t0.

Fixpoint pause_for i k (arg : Z) (t0 : Z) (m : nat) : M (ks F D) sysres :=
  match m with
  | O => sys_pause ticks_addr [arg]
  | S m => r ← pause_for i k arg t0 m; match r with Asleep => pause_tick i k (Z.max 0 (s32 arg)) t0 | _ => mret r end
  end.

Lemma pause_tick_wp i k n t0 j s : (i < NPROC)%nat -> k <> i -> paused i s -> ticks s = u32 (t0 + j) -> 0 <= j -> j + 1 < 2 ^ 32 ->
  wpl (pause_tick i k n t0) [proc_lock i] s (fun r L s' => ticks s' = u32 (t0 + (j + 1)) /\ pause_result n (j + 1) i r L s').
Proof.
  intros Hi Hki [[Hc Hl Hk] Hst Hch] Ht Hj Hj'. unfold pause_tick. wstep. wstep. wsteps.
  eapply wpl_call; [apply clockintr_wp; [done|simpl; by rewrite fn_lookup_insert|apply avail_nil]|]. intros u s1 (Ht1 & Et1 & _). unfold onproc at 1, scheduler_pick, pof, pset. wsteps.
  assert (Hat : proc_at i (k_tab s1) = with_state RUNNABLE (proc_at i (k_tab s))).
  { rewrite Et1. destruct (lookup_lt_is_Some_2 (procs (k_tab s)) i ltac:(lia)) as [p Hp]. unfold proc_at in *. simpl. rewrite (nth_lookup_Some _ _ _ _ Hp) in *.
    apply nth_lookup_Some. rewrite list_lookup_imap, Hp. simpl. rewrite decide_False by congruence. unfold woken. by rewrite decide_True. }
  assert (Hl1 : length (procs (k_tab s1)) = NPROC) by (rewrite Et1; simpl; by rewrite length_imap).
  wtrue; [|cbn [view ks_tab]; by rewrite Hat]. wsteps. unfold pause_resume, onproc, sleep_exit, pset. wsteps. set (s2 := over _ _).
  assert (Hat2 : proc_at i (k_tab s2) = with_chan None (with_state RUNNING (proc_at i (k_tab s1)))) by (unfold s2; simpl; rewrite proc_at_on by (simpl; rewrite length_alter; lia); f_equal; by apply (proc_at_on i); lia).
  assert (Ht2 : ticks s2 = u32 (t0 + (j + 1))) by (change (ticks s2) with (ticks s1); rewrite Ht1; simpl; rewrite Ht; unfold u32; rewrite Zplus_mod_idemp_l; f_equal; lia).
  rewrite <- Ht2. apply pause_round_wp; [done| |done|lia]. split; [done|unfold s2; simpl; by rewrite !length_alter|by rewrite Hat2, Hat].
Qed.

Lemma s32_max arg : (if decide (s32 arg < 0) then 0 else s32 arg) = Z.max 0 (s32 arg).
Proof. case_decide; lia. Qed.

(** C10. sys_pause sleeps exactly the requested number of clock ticks: called with
    n at any value of the 32-bit counter, also when it wraps around meanwhile, the
    process is asleep on [ticks], holding only its own lock, after each of the
    first ticks; at the n-th tick the clock interrupt wakes it, and the call
    returns 0 with no lock held. A negative n returns at once. *)
Theorem pause_ticks s i k arg m : (i < NPROC)%nat -> k <> i -> running i s -> 0 <= ticks s < 2 ^ 32 ->
  let n := Z.max 0 (s32 arg) in
  wpl (pause_for i k arg (ticks s) m) [] s (fun r L s' =>
    ticks s' = u32 (ticks s + Z.min (Z.of_nat m) n) /\
    if decide (Z.of_nat m < n) then r = Asleep /\ L = [proc_lock i] /\ paused i s' else r = Done 0 /\ L = [] /\ running i s').
Proof.
  intros Hi Hki Hru Ht n. pose proof (s32_range arg) as Hn. induction m as [|m IH].
  - cbn [pause_for]. unfold sys_pause, argint, argraw. cbn [lookup list_lookup]. wsteps. rewrite s32_max. fold n.
    eapply wpl_mono; [apply (pause_round_wp i n (ticks s) 0 s); try done; rewrite Z.add_0_r, u32_small; [done|lia]|].
    intros r L s' [Ht' Hr]. rewrite Ht'. split; [rewrite Z.min_l by lia; by rewrite Z.add_0_r, u32_small|]. exact Hr.
  - cbn [pause_for]. wstep. eapply wpl_mono; [exact IH|]. clear IH. cbv beta. intros r L s' [Ht' Hr]. destruct (decide (Z.of_nat m < n)) as [Hd|Hd].
    + destruct Hr as (-> & -> & Hp). fold n. rewrite Z.min_l in Ht' by lia. eapply wpl_mono; [apply (pause_tick_wp i k n (ticks s) (Z.of_nat m) s'); try done; lia|].
      intros r L s2 [Ht2 Hr2]. rewrite Z.min_l by lia. rewrite Nat2Z.inj_succ. by split.
    + destruct Hr as (-> & -> & Hp). wsteps. rewrite decide_False by lia. split; [rewrite Ht'; do 2 f_equal; lia|done].
Qed.
End Clock.
