(* ===== verification/TrapUser.v ===== *)
(** A page fault from end to end: the trampoline (kernel/trampoline.S) around
    usertrap (kernel/trap.c). *)
From stdpp Require Import functions.
From S2P Require Import Prelude Riscv PhysMem Kalloc PageTable Vm VmFree Cow Shm Fork UserMem CopyOut UserIface VmUser Asm Sysfile Proc ProcSpec Sysproc Trap TrapSpec.
Local Open Scope Z_scope.

Section PageFault.
Context `{KI : KernelImage} {F D : Type} `{FR : FileRefs F} `{ID : IntrDevices D}.
Context `{OC : OtherCalls F D} (forkret ticks_addr kernelvec usertrap_addr uservec_addr link : Z).
Implicit Types (s : ks F D) (m : mem) (T : ptree) (fl : list Z) (c : hart).

Lemma make_satp p : page_ok p -> MAKE_SATP p / 2 ^ 60 = 8 /\ satp_root (MAKE_SATP p) = p.
Proof.
  intros Hp%page_ok_pte. destruct Hp as [Hr Hal]. unfold MAKE_SATP, SATP_SV39, satp_root, PGSIZE in *. rewrite Z.shiftr_div_pow2 by done.
  rewrite lor_shiftl_add by (done || zdiv). zdiv.
Qed.

Lemma uctx_maps s T fl c : uctx s T fl -> hmem c = kmem s -> csrs c satp = MAKE_SATP (pagetable (me s)) -> maps c T TRAPFRAME PGSIZE (trapframe (me s)).
Proof.
  intros [Hc HT Hk Hu Hn Hsz Htf Hmap] Hm Hsatp. pose proof (own_page _ _ _ Htf) as Hok. pose proof (page_ok_pte _ Hok) as Hpg. destruct Hok as (Hal & Hlo & Hhi).
  destruct (make_satp (pagetable (me s))) as [S1 S2]; [by eapply (pt_page _ _ _ HT), (pt_root _ _ _ HT)|].
  split; rewrite ?Hm, ?Hsatp, ?S2; try done.
  - split; [done|]. unfold PGSIZE in Hal. zdiv.
  - by apply page_ok_whole.
  - intros i Hi. rewrite (pte_at_page _ _ _ TRAPFRAME), Hmap by (change TRAPFRAME with (67108862 * PGSIZE); unfold PGSIZE in *; zdiv).
    unfold accessible. rewrite pte_entry_pa, pte_entry_eq, !has_bits_lor by done. split; [done|]. split; [done|]. change TRAPFRAME with (67108862 * PGSIZE). unfold PGSIZE in *. zdiv.
  - intros i Hi. replace (PGROUNDDOWN (trapframe (me s) + i)) with (trapframe (me s)); [apply Htf|]. rewrite PGROUNDDOWN_eq. unfold PGSIZE in *. zdiv.
Qed.

Lemma within_agree p m m' : p mod PGSIZE = 0 -> within p PGSIZE m m' -> agree_off {[p]} m m'.
Proof.
  intros Hp (Hb & Hf & Hr) q Hq Hne. split; [|unfold ref; by rewrite Hr]. intros x Hx. symmetry. apply Hb. assert (q <> p) by set_solver. unfold PGSIZE in *. zdiv.
Qed.

(** The kernel gets the CPU from the trampoline with the memory of the hart, its
    page table and the hart id that uservec loaded. *)
Definition enter c s : ks F D := set_reg SATP (csrs c satp) (set_reg TP (gpr c tp) (set_kmem (hmem c) s)).

(** C4. A page fault is invisible to the user program, or ends it. The program
    faults on a load or a store; uservec saves its registers and enters usertrap.
    Either usertrap returns to the trampoline with the program's page table, and
    then userret leaves the kernel with every register of the program as it was
    at the fault, at the faulting instruction, in user mode, with all the memory
    the program could read unchanged, and the page it faulted on now readable and
    writable; or the process exits with status -1, because the page is neither
    copy-on-write nor missing below the size of the process, or memory is short. *)
Theorem page_fault_transparent s T fl c : uctx s T fl -> hmem c = kmem s -> csrs c satp = MAKE_SATP (pagetable (me s)) ->
  (forall r, 0 <= gpr c r < 2 ^ 64) -> (forall r, 0 <= k_regs s r < 2 ^ 64) -> 0 <= usertrap_addr < 2 ^ 64 ->
  has_bits (k_regs s SSTATUS) SSTATUS_SPP = false -> k_regs s SCAUSE = 13 \/ k_regs s SCAUSE = 15 -> killed_flag (me s) = 0 ->
  let va := k_regs s STVAL in
  let run s1 := usertrap forkret ticks_addr kernelvec uservec_addr usertrap_addr [] s1 in
  wp (run_asm link uservec) [] c (fun _ c1 => exists s2 T2 fl2, uctx s2 T2 fl2 /\ (forall x b, umem (kmem s) T x = Some b -> umem (kmem s2) T2 x = Some b) /\
    (run (enter c1 s) = Ok (Back (MAKE_SATP (pagetable (me s)))) [] s2 /\ accessible_now s2 T2 va /\ ready uservec_addr usertrap_addr (enter c1 s) (k_regs s SEPC) s2 /\
     (forall c2, hmem c2 = kmem s2 -> gpr c2 a0 = MAKE_SATP (pagetable (me s)) ->
       wp (run_asm link userret) [] c2 (fun _ c3 => leave c3 = Some Sret /\ hmem c3 = kmem s2 /\ csrs c3 satp = csrs c satp /\ forall r, gpr c3 r = gpr c r)) \/
     run (enter c1 s) = (onproc (kexit (-1));; mret Exited) [] (kill_me s2) /\
     (~ resolvable (pte_at (kmem s) T (PGROUNDDOWN va)) (k_regs s SCAUSE) va (sz (me s)) \/ (length fl <= 1 \/ length fl2 <= 1)%nat))).
Proof.
  intros Hx Hm Hsatp Hg Hr Hua Hspp Hcause Hk va run. pose proof (uctx_maps s T fl c Hx Hm Hsatp) as Hmp. eapply wp_mono; [by apply (uservec_saves link T _ c Hmp)|].
  intros _ c1 (Hsv & Hkf & Hw & _ & Htp1 & Hsa1 & _ & _). rewrite Hm in Hw. pose proof (own_page _ _ _ (uc_tf _ _ _ Hx)) as [Hal _].
  destruct (tf_step s T fl (hmem c1) Hx (within_agree _ _ _ Hal Hw)) as [Hx1 Hps]; [apply Hw|apply Hw|].
  assert (Hfld : forall off, 0 <= field (hmem c) (trapframe (me s)) off < 2 ^ 64) by (intros off; apply (load_le_range _ _ 8)).
  assert (Hr1 : forall r, 0 <= k_regs (enter c1 s) r < 2 ^ 64).
  { intros r. unfold enter. simpl. destruct (decide (r = SATP)) as [->|]; [rewrite fn_lookup_insert, Hsa1; apply Hfld|]. rewrite fn_lookup_insert_ne by done.
    destruct (decide (r = TP)) as [->|]; [rewrite fn_lookup_insert, Htp1; apply Hfld|]. rewrite fn_lookup_insert_ne by done. apply Hr. }
  assert (Hreg : forall r, r <> SATP -> r <> TP -> k_regs (enter c1 s) r = k_regs s r) by (intros r ? ?; unfold enter; simpl; by rewrite !fn_lookup_insert_ne).
  assert (Hxe : uctx (enter c1 s) T fl) by by apply (uctx_ext (set_kmem (hmem c1) s)).
  pose proof (usertrap_fault forkret ticks_addr kernelvec uservec_addr usertrap_addr (enter c1 s) T fl Hxe Hr1 Hua) as Hf. rewrite !Hreg in Hf by done.
  destruct (Hf Hspp Hcause Hk) as (s2 & T2 & fl2 & Hx2 & [Kp Kc Ktf Kum _] & Hor). clear Hf. change (me (enter c1 s)) with (me s) in *. change (kmem (enter c1 s)) with (hmem c1) in *.
  assert (Em2 : me s2 = me s) by (by apply (me_ext s s2)). exists s2, T2, fl2. split; [done|].
  split. { intros x b Hb. apply Kum. by rewrite (ps_umem _ _ _ _ _ Hps). }
  rewrite (ps_pte _ _ _ _ _ Hps) in Hor. destruct Hor as [(Hrun & Hacc & Hrd)|[Hrun Hwhy]]; [left|by right]. split_and!; [done|done|done|].
  intros c2 Hm2 Ha0. pose proof (uctx_maps s2 T2 fl2 (set_csr satp (gpr c2 a0) c2) Hx2 Hm2) as Hmp2. rewrite Em2 in Hmp2. simpl in Hmp2. rewrite fn_lookup_insert in Hmp2. specialize (Hmp2 Ha0).
  eapply wp_mono; [by apply (userret_restores link T2 _ c2 Hmp2)|]. intros _ c3 (Hl3 & Hm3 & Hs3 & Hg3). split_and!; [done|congruence|congruence|].
  intros r. destruct (every_register r) as [off Hin]. by rewrite (Hg3 r off Hin), Hm2, (Ktf r off Hin), (Hsv r off Hin).
Qed.
End PageFault.
