(* ===== verification/TrapSample.v ===== *)
(** A process that faults: the witnesses of the theorems on traps.  Its table is
    made of the pages 0, 1, 2, 5 and 6 of [Kalloc.Sample]; it maps page 4
    copy-on-write at address 0 and the trapframe, page 3, at TRAPFRAME. *)
From stdpp Require Import functions.
From S2P Require Import Prelude Riscv PhysMem Kalloc PageTable Vm VmFree Cow Shm Fork UserMem CopyOut VmSample Asm AsmSample Proc ProcSample Sysproc Trap TrapSpec TrapUser.
Local Open Scope Z_scope.
Import VmSample.Machine Kalloc.Sample.

Definition fault_words : list (Z * Z) := [
  (pg 0, Z.lor (PA2PTE (pg 1)) PTE_V); (pg 1, Z.lor (PA2PTE (pg 2)) PTE_V); (pg 2, pte_entry (pg 4) user_cow);
  (pg 0 + 8 * 255, Z.lor (PA2PTE (pg 5)) PTE_V); (pg 5 + 8 * 511, Z.lor (PA2PTE (pg 6)) PTE_V);
  (pg 6 + 8 * 510, pte_entry (pg 3) (Z.lor PTE_R PTE_W));
  (pg 3, MAKE_SATP (pg 0)); (pg 3 + 8, 4096); (pg 3 + 16, 8192); (pg 3 + 32, 1); (pg 3 + 112, 5); (pg 3 + 168, 22)].
Definition fault_memory : mem := mkMem (ram_of (fault_words ++ link_words)) (pg 7) counts.
Definition fault_tree : ptree := {[ [] := pg 0; [0] := pg 1; [0; 0] := pg 2; [255] := pg 5; [255; 511] := pg 6 ]}.

#[export] Instance quiet : IntrDevices unit := {
  plic_load _ := mret 0; plic_store _ _ := mret tt; d_uartintr := mret []; d_virtio_disk_intr := mret []
}.

Definition faulting : proc := mkProc RUNNING None 0 0 2 (Some 0%nat) 0 PGSIZE (pg 0) (pg 3) 0 0 (replicate 16 None) (Some 0%nat) (replicate 16 0).

(** It stores to address 8. *)
Definition fault_regs (r : sreg) : Z := match r with SCAUSE => 15 | STVAL => 8 | SEPC => 64 | _ => 0 end.
Definition fault_state : ks unit unit :=
  mkKs (mkPtab ([init_proc; faulting; child] ++ replicate 61 free_proc) 1 (Some 0%nat) 4 fault_memory [] tt) fault_regs 4294967295 0 tt.
Definition fault_hart : hart := mkHart (gpr user_hart) (fun _ => MAKE_SATP (pg 0)) None fault_memory.

Lemma fault_rep : pt_rep fault_memory (pg 0) fault_tree.
Proof. apply pt_repb_sound. by vm_compute. Qed.

Lemma fault_free : kmem_rep fault_memory free2.
Proof.
  split.
  - vm_compute. tauto.
  - apply (bool_decide_unpack _). by vm_compute.
  - apply Forall_forall. repeat constructor; by vm_compute.
  - apply Forall_forall. repeat constructor; by vm_compute.
Qed.

Lemma fault_leaves : leaves fault_memory fault_tree = [(67108862, pte_entry (pg 3) (Z.lor PTE_R PTE_W)); (0, pte_entry (pg 4) user_cow)].
Proof. by vm_compute. Qed.

Lemma readable_fault va : 0 <= va < MAXVA -> readable (pte_at fault_memory fault_tree va) = true ->
  va / PGSIZE = 0 /\ PTE2PA (pte_at fault_memory fault_tree va) = pg 4.
Proof.
  intros Hva Hr. pose proof (pte_at_leaf _ _ _ (va_space _ Hva) (readable_V _ Hr)) as Hin. rewrite fault_leaves in Hin. rewrite !elem_of_cons, elem_of_nil in Hin.
  destruct Hin as [[= _ E]|[[= -> ->]|[]]]; [rewrite E in Hr; by vm_compute in Hr|split; by vm_compute].
Qed.

Lemma fault_uctx : uctx fault_state fault_tree free2.
Proof.
  split; change (kmem fault_state) with fault_memory; change (me fault_state) with faulting.
  - vm_compute. lia.
  - exact fault_rep.
  - exact fault_free.
  - intros va Hva [_ ->]%readable_fault; [|done]. split_and!; [by vm_compute|apply (bool_decide_unpack _); by vm_compute|by vm_compute].
  - intros va va' Hva Hva' [-> _]%readable_fault [-> _]%readable_fault _; done.
  - split; by vm_compute.
  - split; [|by vm_compute]. split_and!; [by vm_compute|apply (bool_decide_unpack _); by vm_compute|by vm_compute|].
    intros va Hva [_ ->]%readable_fault E; [|done]. by vm_compute in E.
  - by vm_compute.
Qed.

Lemma fault_range r : 0 <= k_regs fault_state r < 2 ^ 64.
Proof. by destruct r. Qed.

(** A kernel whose other calls return 0. *)
Definition ret0 (args : list Z) : M (ks unit unit) sysres := mret (Done 0).
#[local] Instance no_other : OtherCalls unit unit :=
  Build_OtherCalls unit unit ret0 ret0 ret0 ret0 ret0 ret0 ret0 ret0 ret0 ret0 ret0 ret0 ret0 ret0 ret0 ret0 ret0 ret0 ret0 ret0 ret0.

Lemma page_fault_transparent_witness :
  wp (run_asm 0 uservec) [] fault_hart (fun _ c1 => exists s2 T2 fl2, uctx s2 T2 fl2 /\
    (usertrap 0 0 0 0 8192 [] (enter c1 fault_state) = Ok (Back (MAKE_SATP (pg 0))) [] s2 \/
     usertrap 0 0 0 0 8192 [] (enter c1 fault_state) = (onproc (kexit (-1));; mret Exited) [] (kill_me s2))).
Proof.
  eapply wp_mono; [apply (page_fault_transparent 0 0 0 8192 0 0 fault_state fault_tree free2 fault_hart fault_uctx eq_refl eq_refl user_range fault_range); try (by vm_compute); by right|].
  intros _ c1 (s2 & T2 & fl2 & Hx & _ & [(Hr & _)|[Hr _]]); exists s2, T2, fl2; (split; [exact Hx|]); [by left|by right].
Defined.

(** It pauses for one tick when the counter wraps around. *)
Lemma pause_ticks_witness : wpl (pause_for 0 1 2 1 4294967295 1) [] fault_state (fun r L s' => ticks s' = 0 /\ r = Done 0 /\ L = []).
Proof.
  eapply wpl_mono; [apply (pause_ticks 0 fault_state 1 2 1 1); [unfold NPROC; lia|done|by split|by vm_compute]|]. intros r L s' [Ht Hr]. split; [exact Ht|]. by destruct Hr as (-> & -> & _).
Defined.
