(* ===== verification/Exec.v ===== *)
(** The loader, kernel/exec.c, with the ELF format of kernel/elf.h and sys_exec of
    kernel/sysfile.c, on the process table and the page tables of Proc. *)
From S2P Require Import Prelude Riscv PhysMem Kalloc PageTable Vm VmFree Shm UserMem UserIface VmUser Block CStrings Sysfile Proc.
Local Open Scope Z_scope.

(** * Constants of kernel/param.h and kernel/elf.h *)
Definition MAXARG : nat := 32.
Definition USERSTACK : Z := 1.
Definition ELF_MAGIC : Z := 0x464C457F.
Definition ELF_PROG_LOAD : Z := 1.

(** * The ELF format *)
Record elfhdr := mkElfhdr {
  e_magic : Z;
  e_elf : list Z;
  e_type : Z;
  e_machine : Z;
  e_version : Z;
  e_entry : Z;
  e_phoff : Z;
  e_shoff : Z;
  e_flags : Z;
  e_ehsize : Z;
  e_phentsize : Z;
  e_phnum : Z;
  e_shentsize : Z;
  e_shnum : Z;
  e_shstrndx : Z
}.

Definition sizeof_elfhdr : Z := 64.

Definition elfhdr_of (l : list Z) : elfhdr :=
  mkElfhdr (get_le 4 0 l) (take 12 (drop 4 l)) (get_le 2 16 l) (get_le 2 18 l) (get_le 4 20 l) (get_le 8 24 l) (get_le 8 32 l)
    (get_le 8 40 l) (get_le 4 48 l) (get_le 2 52 l) (get_le 2 54 l) (get_le 2 56 l) (get_le 2 58 l) (get_le 2 60 l) (get_le 2 62 l).

Record proghdr := mkProghdr {
  ph_type : Z;
  ph_flags : Z;
  ph_off : Z;
  ph_vaddr : Z;
  ph_paddr : Z;
  ph_filesz : Z;
  ph_memsz : Z;
  ph_align : Z
}.

Definition sizeof_proghdr : Z := 56.

Definition proghdr_of (l : list Z) : proghdr :=
  mkProghdr (get_le 4 0 l) (get_le 4 4 l) (get_le 8 8 l) (get_le 8 16 l) (get_le 8 24 l) (get_le 8 32 l) (get_le 8 40 l) (get_le 8 48 l).

(** * What exec needs of the file system

    [x_readi ip off n] is readi to a kernel address: the bytes that it stored there,
    as many as it returns. *)
Class ExecFiles (F : Type) := {
  x_begin_op : M F unit;
  x_namei : list Z -> M F (option nat);
  x_ilock : nat -> M F unit;
  x_readi : nat -> Z -> Z -> M F (list Z);
  x_iunlockput : nat -> M F unit;
  x_end_op : M F unit
}.

(** Strings of the user, through the page table of the process. *)
#[export] Instance vms_strings `{KernelImage} : UserStrings vms := {
  usz := p_sz;
  ucopyinstr a max := (pt ← gets p_pagetable; zoom (C := mem) (copyinstr pt a max))
}.

Section Exec.
Context `{KernelImage} {F : Type} `{ExecFiles F}.
Local Abbreviation PM := (M (ptab F)).

Definition flags2perm (flags : Z) : Z :=
  let perm := if has_bits flags 0x1 then PTE_X else 0 in
  if has_bits flags 0x2 then Z.lor perm PTE_W else perm.

(** ** loadseg *)
Definition loadseg_body (pagetable va : Z) (ip : nat) (offset size : Z) (i : Z) : PM (Z + Z) :=
  if decide (i < size) then
    pa ← onmem (walkaddr pagetable (u64 (va + i)));
    if decide (pa = 0) then panic "loadseg: address should exist"
    else
      let n := if decide (size - i < PGSIZE) then size - i else PGSIZE in
      l ← onfiles (x_readi ip (u32 (offset + i)) n);
      onmem (memmove_to pa l);;
      if decide (Z.of_nat (length l) <> n) then mret (inr (-1)) else mret (inl (u32 (i + PGSIZE)))
  else mret (inr 0).

Definition loadseg (pagetable va : Z) (ip : nat) (offset size : Z) : PM Z :=
  loop (S (Z.to_nat ((size + PGSIZE - 1) / PGSIZE))) (loadseg_body pagetable va ip offset size) 0.

(** ** kexec

    A piece of kexec that can go to [bad] returns whether it did not, with the size
    to free. *)

(** One round of the loop over the program headers, on [i], [off] and [sz]. *)
Definition load_body (ip : nat) (pagetable : Z) (elf : elfhdr) (x : Z * Z * Z) : PM ((Z * Z * Z) + (bool * Z)) :=
  let '(i, off, sz) := x in
  if decide (i < e_phnum elf) then
    let next sz := (inl (i + 1, s32 (off + sizeof_proghdr), sz) : (Z * Z * Z) + (bool * Z)) in
    l ← onfiles (x_readi ip (u32 off) sizeof_proghdr);
    if decide (Z.of_nat (length l) <> sizeof_proghdr) then mret (inr (false, sz))
    else
      let ph := proghdr_of l in
      if decide (ph_type ph <> ELF_PROG_LOAD) then mret (next sz)
      else if decide (ph_memsz ph < ph_filesz ph) then mret (inr (false, sz))
      else if decide (u64 (ph_vaddr ph + ph_memsz ph) < ph_vaddr ph) then mret (inr (false, sz))
      else if decide (ph_vaddr ph mod PGSIZE <> 0) then mret (inr (false, sz))
      else
        sz1 ← onmem (uvmalloc pagetable sz (u64 (ph_vaddr ph + ph_memsz ph)) (flags2perm (ph_flags ph)));
        if decide (sz1 = 0) then mret (inr (false, sz))
        else
          r ← loadseg pagetable (ph_vaddr ph) ip (u32 (ph_off ph)) (u32 (ph_filesz ph));
          if decide (r < 0) then mret (inr (false, sz1)) else mret (next sz1)
  else mret (inr (true, sz)).

Definition load_program (ip : nat) (pagetable : Z) (elf : elfhdr) : PM (bool * Z) :=
  loop (S (Z.to_nat (e_phnum elf))) (load_body ip pagetable elf) (0, s32 (e_phoff elf), 0).

(** The argument strings: [argc], [sp] and [ustack] so far. *)
Definition push_body (pagetable stackbase : Z) (argv : list (list Z)) (x : nat * Z * list Z) : PM ((nat * Z * list Z) + option (nat * Z * list Z)) :=
  let '(argc, sp, ustack) := x in
  match argv !! argc with
  | None => mret (inr (Some x))
  | Some arg =>
      if decide (MAXARG <= argc)%nat then mret (inr None)
      else
        let sp := u64 (sp - (Z.of_nat (length arg) + 1)) in
        let sp := sp - sp mod 16 in
        if decide (sp < stackbase) then mret (inr None)
        else
          i ← gets cur;
          r ← as_proc i (copyout pagetable sp (arg ++ [0]));
          if decide (r < 0) then mret (inr None) else mret (inl (S argc, sp, ustack ++ [sp]))
  end.

(** The stack: [argc] and [sp]; [None] is [goto bad]. *)
Definition push_args (pagetable sp stackbase : Z) (argv : list (list Z)) : PM (option (nat * Z)) :=
  o ← loop (S (length argv)) (push_body pagetable stackbase argv) (O, sp, []);
  match o with
  | None => mret None
  | Some (argc, sp, ustack) =>
      if decide (MAXARG <= argc)%nat then undef "ustack"
      else
        let sp := u64 (sp - (Z.of_nat argc + 1) * 8) in
        let sp := sp - sp mod 16 in
        if decide (sp < stackbase) then mret None
        else
          i ← gets cur;
          r ← as_proc i (copyout pagetable sp (concat (le_bytes 8 <$> (ustack ++ [0]))));
          if decide (r < 0) then mret None else mret (Some (argc, sp))
  end.

(** What follows the last slash of the path. *)
Fixpoint last_elem (s last : list Z) : list Z :=
  match s with
  | [] => last
  | c :: s' => last_elem s' (if decide (c = 47) then s' else last)
  end.

Definition TF_SP : Z := 48.
Definition TF_A1 : Z := 120.

Definition bad (pagetable sz : Z) (ip : option nat) : PM Z :=
  (if decide (pagetable <> 0) then proc_freepagetable pagetable sz else mret tt);;
  (match ip with
   | Some ip => onfiles (x_iunlockput ip);; onfiles x_end_op
   | None => mret tt
   end);;
  mret (-1).

(** The commit to the new image. *)
Definition commit_image (i : nat) (p : proc) (pagetable sz entry sp : Z) (path : list Z) : PM unit :=
  onmem (store64 (trapframe p + TF_A1) sp);;
  (match safestrcpy (pname p) (last_elem path path ++ [0]) 16 with
   | Some n => pset i (with_name n)
   | None => undef "name"
   end);;
  pset i (with_pagetable pagetable);;
  pset i (with_sz sz);;
  onmem (store64 (trapframe p + TF_EPC) entry);;
  onmem (store64 (trapframe p + TF_SP) sp).

(** From the loaded program on: the stack, the commit, and the end of the old
    image. *)
Definition start_program (pagetable sz entry : Z) (path : list Z) (argv : list (list Z)) : PM Z :=
  i ← gets cur;
  p ← pof i;
  let oldsz := Proc.sz p in
  let sz := PGROUNDUP sz in
  sz1 ← onmem (uvmalloc pagetable sz (u64 (sz + (USERSTACK + 1) * PGSIZE)) PTE_W);
  if decide (sz1 = 0) then bad pagetable sz None
  else
    let sz := sz1 in
    onmem (uvmclear pagetable (u64 (sz - (USERSTACK + 1) * PGSIZE)));;
    o ← push_args pagetable sz (u64 (sz - USERSTACK * PGSIZE)) argv;
    match o with
    | None => bad pagetable sz None
    | Some (argc, sp) =>
        let oldpagetable := Proc.pagetable p in
        commit_image i p pagetable sz entry sp path;;
        proc_freepagetable oldpagetable oldsz;;
        mret (Z.of_nat argc)
    end.

(** From the open executable on. *)
Definition load_and_start (ip : nat) (path : list Z) (argv : list (list Z)) : PM Z :=
  l ← onfiles (x_readi ip 0 sizeof_elfhdr);
  if decide (Z.of_nat (length l) <> sizeof_elfhdr) then bad 0 0 (Some ip)
  else
    let elf := elfhdr_of l in
    if decide (e_magic elf <> ELF_MAGIC) then bad 0 0 (Some ip)
    else
      i ← gets cur;
      pagetable ← proc_pagetable i;
      if decide (pagetable = 0) then bad 0 0 (Some ip)
      else
        r ← load_program ip pagetable elf;
        if r.1 : bool then
          onfiles (x_iunlockput ip);;
          onfiles x_end_op;;
          start_program pagetable r.2 (e_entry elf) path argv
        else bad pagetable r.2 (Some ip).

(** [argv] holds the strings before the null pointer. *)
Definition kexec (path : list Z) (argv : list (list Z)) : PM Z :=
  onfiles x_begin_op;;
  o ← onfiles (x_namei path);
  match o with
  | None => onfiles x_end_op;; mret (-1)
  | Some ip => onfiles (x_ilock ip);; load_and_start ip path argv
  end.

(** ** sys_exec *)

(** The strings of the user's array, each in a page; whether all were fetched. *)
Definition fetch_body (uargv : Z) (x : nat * list (Z * list Z)) : PM ((nat * list (Z * list Z)) + (bool * list (Z * list Z))) :=
  let '(i, argv) := x in
  if decide (MAXARG <= i)%nat then mret (inr (false, argv))
  else
    c ← gets cur;
    o ← as_proc c (fetchaddr (u64 (uargv + 8 * Z.of_nat i)));
    match o with
    | None => mret (inr (false, argv))
    | Some uarg =>
        if decide (uarg = 0) then mret (inr (true, argv))
        else
          page ← onmem kalloc;
          if decide (page = 0) then mret (inr (false, argv))
          else
            s ← as_proc c (fetchstr uarg PGSIZE);
            match s with
            | None => mret (inr (false, argv ++ [(page, [])]))
            | Some (n, buf) =>
                onmem (memmove_to page buf);;
                mret (inl (S i, argv ++ [(page, take (Z.to_nat n) buf)]))
            end
    end.

Fixpoint free_args (l : list (Z * list Z)) : PM unit :=
  match l with
  | [] => mret tt
  | (page, _) :: l => onmem (kfree page);; free_args l
  end.

Definition sys_exec (args : list Z) : PM Z :=
  uargv ← argaddr args 1;
  c ← gets cur;
  path ← as_proc c (argstr args 0 MAXPATH);
  match path with
  | None => mret (-1)
  | Some (n, buf) =>
      r ← loop (S MAXARG) (fetch_body uargv) (O, []);
      if r.1 : bool then
        ret ← kexec (take (Z.to_nat n) buf) (r.2.*2);
        free_args r.2;;
        mret ret
      else free_args r.2;; mret (-1)
  end.
End Exec.
