(* ===== verification/ExecSpace.v ===== *)
(** The address space that exec builds: all its pages come from the free list,
    nothing else changes, and freeing it gives every page back. *)
From S2P Require Import Prelude Riscv PhysMem Kalloc PageTable Vm VmFree Cow Shm UserMem CopyOut UserIface Block Proc.
Local Open Scope Z_scope.

(** * Sequences of operations on the memory *)
Section Sequences.
Context {S C A B D : Type} `{Lens S C}.

Lemma wp_run_eq (a b : M S A) L s Q : a L s = b L s -> wp a L s Q -> wp b L s Q.
Proof. unfold wp, wpl. by intros ->. Qed.

Lemma seq_assoc (a : M S A) (b : M S B) (c : M S D) L s : ((a;; b);; c) L s = (a;; b;; c) L s.
Proof. unfold mbind, M_bind. by destruct (a L s). Qed.

Lemma zoom_seq (a : M C A) (b : M C B) (c : M C D) L s : zoom (a;; b;; c) L s = (zoom a;; zoom b;; zoom c) L s.
Proof.
  unfold mbind, M_bind, zoom. destruct (a L (view s)) as [x L1 c1| | | |]; try done. rewrite view_over. destruct (b L1 c1) as [y L2 c2| | | |]; try done.
  rewrite over_over, view_over. destruct (c L2 c2); try done. by rewrite !over_over.
Qed.
End Sequences.

(** * Freeing the page table of a process *)
Section Freeing.
Context `{KernelImage} {F : Type}.
Implicit Types (m : mem) (T : ptree) (fl : list Z) (L : list lock) (s : ptab F).

(** Above [top] a table maps only the trampoline and the trapframe. *)
Definition fixed_only m T (top : Z) : Prop :=
  forall va, top <= va < VASPACE -> va / PGSIZE <> TRAMPOLINE / PGSIZE -> va / PGSIZE <> TRAPFRAME / PGSIZE -> has_bits (pte_at m T va) PTE_V = false.

Lemma released_nil X m fl m' fl' : released X m fl [] m' fl' -> kmem_rep m' fl /\ agree_off X m m'.
Proof.
  intros [Hk Hr _ (freed & -> & Hf) Hs]. destruct freed as [|p freed]; [|exfalso; destruct (Hf p) as [[?%elem_of_nil _] _]; [by left|done]].
  split; [done|]. intros q Hq HX. split; [apply Hs; [done|done|left; apply not_elem_of_nil]|]. rewrite Hr by done. simpl. lia.
Qed.

Lemma unmapped_invalid v : has_bits (unmapped v) PTE_V = false.
Proof. unfold unmapped. by destruct (has_bits v PTE_V) eqn:?. Qed.

(** The trampoline and the trapframe are unmapped first. *)
Lemma unmap_fixed_wp root m T fl top L : pt_rep m root T -> kmem_rep m fl -> 0 <= top <= TRAPFRAME -> fixed_only m T top -> avail [kmem_lock; ref_lock] L ->
  wp (uvmunmap root TRAMPOLINE 1 false;; uvmunmap root TRAPFRAME 1 false) L m (fun _ m' =>
    pt_rep m' root T /\ kmem_rep m' fl /\ agree_off (pt_set T) m m' /\
    (forall va, 0 <= va < top -> pte_at m' T va = pte_at m T va) /\
    forall va, top <= va < VASPACE -> has_bits (pte_at m' T va) PTE_V = false).
Proof.
  intros HT Hk Htop Hfx HL. change TRAPFRAME with (67108862 * PGSIZE) in Htop. wstep. wstep.
  eapply wpl_call; [by apply (uvmunmap_wp root TRAMPOLINE 1 false L m T fl)|]. intros u m1 (fl1 & HT1 & Hr1 & Hc1 & Ho1). apply released_nil in Hr1 as [Hk1 Ha1].
  eapply wpl_call; [by apply (uvmunmap_wp root TRAPFRAME 1 false L m1 T fl)|]. intros u' m2 (fl2 & HT2 & Hr2 & Hc2 & Ho2). apply released_nil in Hr2 as [Hk2 Ha2].
  cbv beta. split; [done|]. split_and!; [done|done|by eapply agree_off_trans| |].
  - intros va Hva. rewrite Ho2, Ho1; [done|unfold VASPACE, PGSIZE in *; lia| |unfold VASPACE, PGSIZE in *; lia|]; unfold vrange.
    + change (TRAMPOLINE / PGSIZE) with 67108863. unfold PGSIZE in *. simpl. zdiv.
    + change (TRAPFRAME / PGSIZE) with 67108862. unfold PGSIZE in *. simpl. zdiv.
  - intros va Hva. destruct (decide (va / PGSIZE = TRAPFRAME / PGSIZE)) as [E|Hne].
    { rewrite (pte_at_page _ _ va (TRAPFRAME + PGSIZE * 0)) by (rewrite E; done). rewrite Hc2 by lia. apply unmapped_invalid. }
    rewrite Ho2; [|lia|unfold vrange; simpl; lia]. destruct (decide (va / PGSIZE = TRAMPOLINE / PGSIZE)) as [E|Hne2].
    { rewrite (pte_at_page _ _ va (TRAMPOLINE + PGSIZE * 0)) by (rewrite E; done). rewrite Hc1 by lia. apply unmapped_invalid. }
    rewrite Ho1; [|lia|unfold vrange; simpl; lia]. by apply Hfx.
Qed.

Lemma proc_freepagetable_wp root sz s T fl L :
  let m := pmem s in
  let us := upages m T 0 (upages_of sz) in
  pt_rep m root T -> kmem_rep m fl -> 0 <= sz -> PGROUNDUP sz <= TRAPFRAME -> sz <= PGROUNDUP sz -> freeable m T us -> fixed_only m T (PGROUNDUP sz) -> avail [kmem_lock; ref_lock] L ->
  wp (proc_freepagetable root sz) L s (fun _ s' => exists m' fl', s' = over m' s /\ kmem_rep m' fl' /\
    (forall p, p ∈ fl' <-> p ∈ fl \/ p ∈ pt_set T \/ p ∈ us /\ cnt us p = ref m p) /\
    (forall p, p ∈ us -> ref m' p = ref m p - cnt us p) /\ agree_off (pt_set T ∪ list_to_set us) m m').
Proof.
  intros m us HT Hk H0 Htop Hle Hfr Hfx HL.
  assert (Hw : wp (uvmunmap root TRAMPOLINE 1 false;; uvmunmap root TRAPFRAME 1 false;; uvmfree root sz) L m (fun _ m' => exists fl', kmem_rep m' fl' /\
    (forall p, p ∈ fl' <-> p ∈ fl \/ p ∈ pt_set T \/ p ∈ us /\ cnt us p = ref m p) /\ (forall p, p ∈ us -> ref m' p = ref m p - cnt us p) /\ agree_off (pt_set T ∪ list_to_set us) m m')).
  { eapply wp_run_eq; [apply seq_assoc|]. wstep. wstep. eapply wpl_call; [apply (unmap_fixed_wp root m T fl (PGROUNDUP sz)); try done; lia|]. intros u m1 (HT1 & Hk1 & Ha1 & Hlow & Hno).
    assert (Hus : upages m1 T 0 (upages_of sz) = us).
    { apply upages_ext. intros j Hj. apply Hlow. unfold upages_of in Hj. pose proof (PGROUNDUP_aligned sz). unfold PGSIZE in *. zdiv. }
    assert (Hf1 : forall p, p ∈ us -> ref m1 p = ref m p) by (intros p Hp; destruct (Hfr p Hp) as ((? & _) & ? & _); by apply Ha1).
    eapply wpl_mono; [apply (uvmfree_pages_wp root sz L m1 T fl HT1 Hk1)|].
    - split; [done|]. etrans; [exact Hle|]. etrans; [exact Htop|]. by vm_compute.
    - rewrite Hus. intros p Hp. rewrite (Hf1 p Hp). by apply Hfr.
    - exact Hno.
    - done.
    - cbv zeta. rewrite Hus. intros u' L' m2 (-> & fl2 & Hk2 & Hin & Hr2 & Ha2). split; [done|]. exists fl2. split_and!; [done| | |].
      + intros p. rewrite Hin. split; intros [?|[?|[Hp Hc]]]; auto; right; right; (split; [done|]); [by rewrite <- Hf1|by rewrite Hf1].
      + intros p Hp. by rewrite Hr2, Hf1.
      + eapply agree_off_trans; [eapply agree_off_mono; [exact Ha1|set_solver]|done]. }
  unfold proc_freepagetable, onmem. eapply wp_run_eq; [apply zoom_seq|]. eapply wp_mono; [by apply zoom_wp|]. intros u s' (m' & -> & fl' & ?). by exists m', fl'.
Qed.
End Freeing.

Section Space.
Context `{KernelImage}.
Context (m0 : mem) (fl0 : list Z) (tf : Z).
Implicit Types (m : mem) (T : ptree) (fl : list Z) (us : list (Z * Z)) (L : list lock).

(** The memory and the free pages are those of the beginning. *)
Definition given_back m : Prop := exists fl, kmem_rep m fl /\ fl ≡ₚ fl0 /\ agree_off (list_to_set fl0) m0 m.

(** A table at [root] that maps the pages [us], with their permissions, from
    address 0 on, the trampoline and the trapframe [tf], and nothing else; its
    own pages and [us] were free at the beginning, the others are as they were. *)
Record space (root : Z) m T fl us : Prop := {
  sp_rep : pt_rep m root T;
  sp_kmem : kmem_rep m fl;
  sp_perm : fl0 ≡ₚ elements (pt_set T) ++ us.*1 ++ fl;
  sp_agree : agree_off (list_to_set fl0) m0 m;
  sp_ref : forall p, p ∈ us.*1 -> ref m p = 1;
  sp_ptes : forall j p f, us !! j = Some (p, f) -> 0 <= f < 1024 /\ pte_at m T (PGSIZE * Z.of_nat j) = pte_entry p f;
  sp_tramp : pte_at m T TRAMPOLINE = pte_entry trampoline (Z.lor PTE_R PTE_X);
  sp_tf : pte_at m T TRAPFRAME = pte_entry tf (Z.lor PTE_R PTE_W);
  sp_none : forall va, PGSIZE * Z.of_nat (length us) <= va < VASPACE -> va / PGSIZE <> TRAMPOLINE / PGSIZE -> va / PGSIZE <> TRAPFRAME / PGSIZE ->
    has_bits (pte_at m T va) PTE_V = false
}.

(** The byte at address [x] of the space. *)
Definition ubyte m us (x : Z) : Z :=
  match us !! Z.to_nat (x / PGSIZE) with Some (p, _) => byte (ram m) (p + x mod PGSIZE) | None => 0 end.

Hypothesis Hk0 : kmem_rep m0 fl0.
Hypothesis Htf : page_ok tf.
Hypothesis Htf0 : tf ∉ fl0.

(** There are at most 512 MB of memory. *)
Lemma free_length fl m : kmem_rep m fl -> Z.of_nat (length fl) <= 131072.
Proof.
  intros Hk. assert (Hsub : fl ⊆+ (fun i => KERNBASE + PGSIZE * i) <$> seqZ 0 131072).
  { apply NoDup_submseteq; [apply Hk|]. intros p Hp. pose proof (rep_pages _ _ Hk p Hp) as Hok. pose proof (page_ok_pos _ Hok). destruct Hok as (Hal & _ & Hhi).
    apply list_elem_of_fmap. exists ((p - KERNBASE) / PGSIZE). change PHYSTOP with (KERNBASE + 536870912) in *. change KERNBASE with (524288 * 4096) in *. unfold PGSIZE in *. split; [zdiv|]. apply elem_of_seqZ. zdiv. }
  apply submseteq_length in Hsub. rewrite length_fmap, length_seqZ in Hsub. lia.
Qed.

Section Facts.
Context (root : Z) (m : mem) (T : ptree) (fl : list Z) (us : list (Z * Z)).
Hypothesis Hs : space root m T fl us.

Lemma space_nodup : NoDup (elements (pt_set T) ++ us.*1 ++ fl).
Proof using All. rewrite <- (sp_perm _ _ _ _ _ Hs). apply Hk0. Qed.

Lemma space_in p : p ∈ fl0 <-> p ∈ pt_set T \/ p ∈ us.*1 \/ p ∈ fl.
Proof using All. rewrite (sp_perm _ _ _ _ _ Hs), !elem_of_app, elem_of_elements. tauto. Qed.

Lemma space_user p : p ∈ us.*1 -> page_ok p /\ (p ∉ pt_set T) /\ (p ∉ fl) /\ p ∈ fl0.
Proof using All.
  intros Hp. pose proof space_nodup as (_ & Hd & (_ & Hd2 & _)%NoDup_app)%NoDup_app. assert (Hin : p ∈ fl0) by (apply space_in; tauto).
  split_and!; [by apply (rep_pages _ _ Hk0)| |by apply Hd2|done]. intros Ht. apply (Hd p); [by apply elem_of_elements|]. apply elem_of_app. by left.
Qed.

Lemma space_bound : Z.of_nat (length us) + Z.of_nat (length fl) <= 131072.
Proof using All.
  pose proof (free_length _ _ Hk0) as Hn. rewrite (sp_perm _ _ _ _ _ Hs), !length_app, length_fmap in Hn. lia.
Qed.

Lemma space_user_inj i j p : us.*1 !! i = Some p -> us.*1 !! j = Some p -> i = j.
Proof using All. pose proof space_nodup as (_ & _ & (Hn & _)%NoDup_app)%NoDup_app. intros. by eapply NoDup_lookup. Qed.

(** The user pages, in the order of their addresses. *)
Lemma space_upages n : (n <= length us)%nat -> upages m T 0 n = take n us.*1.
Proof using All.
  induction n as [|n IH]; intros Hn; [done|]. cbn [upages]. rewrite IH by lia. destruct (lookup_lt_is_Some_2 us n ltac:(lia)) as [[p f] Hp].
  destruct (sp_ptes _ _ _ _ _ Hs n p f Hp) as [Hf Hpte]. rewrite Z.add_0_l, Hpte. unfold upage.
  assert (Hok : pte_page p). { apply page_ok_pte, space_user, list_elem_of_fmap. exists (p, f). split; [done|]. by eapply list_elem_of_lookup_2. }
  rewrite pte_entry_valid by done. rewrite pte_entry_pa by done. erewrite take_S_r; [done|]. by rewrite list_lookup_fmap, Hp.
Qed.

(** The table changed within [n] pages from the end of the space on, the first of
    which are now [ps]. *)
Lemma space_extend m1 T1 fl1 ps n perm used :
  pt_rep m1 root T1 -> kmem_rep m1 fl1 -> fl ≡ₚ used ++ ps ++ fl1 -> pt_set T1 = pt_set T ∪ list_to_set used ->
  agree_off (pt_set T1 ∪ list_to_set fl) m m1 -> (forall p, p ∈ ps -> ref m1 p = 1) -> 0 <= perm < 1024 ->
  (length ps <= n <= length fl)%nat ->
  ptes_same_off (vrange (PGSIZE * Z.of_nat (length us)) (Z.of_nat n)) m T m1 T1 ->
  (forall j p, ps !! j = Some p -> pte_at m1 T1 (PGSIZE * Z.of_nat (length us + j)) = pte_entry p perm) ->
  (forall j, (length ps <= j < n)%nat -> has_bits (pte_at m1 T1 (PGSIZE * Z.of_nat (length us + j))) PTE_V = false) ->
  space root m1 T1 fl1 (us ++ ((fun p => (p, perm)) <$> ps)) /\
  forall p, p ∈ us.*1 -> same_page (ram m) (ram m1) p.
Proof using All.
  intros HT1 Hk1 Hp Hset Hag Href Hperm Hn Hoff Hnew Hinv. pose proof space_bound as Hbd. pose proof space_nodup as (_ & Hd & (_ & Hd2 & _)%NoDup_app)%NoDup_app.
  assert (Hus : forall p, p ∈ us.*1 -> same_page (ram m) (ram m1) p /\ ref m1 p = ref m p).
  { intros p Hin. destruct (space_user p Hin) as ((Hal & _) & Hnt & Hnf & _). apply Hag; [done|]. rewrite Hset, !elem_of_union, !elem_of_list_to_set. intros [[?|?]|?]; try done. apply Hnf. rewrite Hp. set_solver. }
  assert (Hkeep : forall va, 0 <= va < VASPACE -> ~ (Z.of_nat (length us) <= va / PGSIZE < Z.of_nat (length us + n)) -> pte_at m1 T1 va = pte_at m T va).
  { intros va Hva Hnr. apply Hoff; [done|]. unfold vrange, PGSIZE in *. rewrite Z.mul_comm, Z.div_mul by done. lia. }
  assert (Hfm : ((fun p => (p, perm)) <$> ps).*1 = ps) by (rewrite <- list_fmap_compose; apply list_fmap_id).
  split; [|intros p Hin; by apply Hus]. split; try done.
  - rewrite fmap_app, Hfm, (sp_perm _ _ _ _ _ Hs), Hset, Hp.
    assert (Hnd : NoDup (used ++ ps ++ fl1)) by (rewrite <- Hp; apply (sp_kmem _ _ _ _ _ Hs)). apply NoDup_app in Hnd as (Hnu & _ & _).
    rewrite elements_disj_union, (elements_list_to_set used Hnu); [solve_Permutation|].
    intros p Ht%elem_of_elements Hu%elem_of_list_to_set. apply (Hd p Ht). apply elem_of_app. right. rewrite Hp. apply elem_of_app. by left.
  - eapply agree_off_trans; [apply Hs|]. eapply agree_off_mono; [exact Hag|]. rewrite Hset. intros p. rewrite !elem_of_union, !elem_of_list_to_set, space_in.
    intros [[?|Hu]|?]; [tauto| |tauto]. right; right. rewrite Hp. set_solver.
  - intros p. rewrite fmap_app, Hfm. intros [Hin|Hin]%elem_of_app; [|by apply Href]. rewrite (proj2 (Hus p Hin)). by apply (sp_ref _ _ _ _ _ Hs).
  - intros j p f [Hj|[Hge Hj]]%lookup_app_Some.
    + destruct (sp_ptes _ _ _ _ _ Hs j p f Hj) as [Hf Hpte]. split; [done|]. apply lookup_lt_Some in Hj. rewrite Hkeep; [done|unfold PGSIZE, VASPACE; lia|unfold PGSIZE; zdiv].
    + rewrite list_lookup_fmap in Hj. destruct (ps !! (j - length us)%nat) as [q|] eqn:Hq; [|done]. injection Hj as -> ->. split; [done|].
      rewrite <- (Hnew _ _ Hq). do 2 f_equal. lia.
  - rewrite (Hkeep TRAMPOLINE); [apply (sp_tramp _ _ _ _ _ Hs)|split; by vm_compute|]. change (TRAMPOLINE / PGSIZE) with 67108863. lia.
  - rewrite (Hkeep TRAPFRAME); [apply (sp_tf _ _ _ _ _ Hs)|split; by vm_compute|]. change (TRAPFRAME / PGSIZE) with 67108862. lia.
  - intros va. rewrite length_app, length_fmap. intros Hva Hn1 Hn2. destruct (decide (va / PGSIZE < Z.of_nat (length us + n))) as [Hlt|Hge].
    + rewrite (pte_at_page _ _ va (PGSIZE * Z.of_nat (length us + (Z.to_nat (va / PGSIZE) - length us)))); [apply Hinv|]; unfold PGSIZE in *; zdiv.
    + rewrite Hkeep; [|unfold PGSIZE in *; lia|unfold PGSIZE in *; lia]. apply (sp_none _ _ _ _ _ Hs); try done. unfold PGSIZE in *. lia.
Qed.
End Facts.

Lemma ubyte_kept m m' us us' x : (forall p, p ∈ us.*1 -> same_page (ram m) (ram m') p) -> 0 <= x < PGSIZE * Z.of_nat (length us) ->
  ubyte m' (us ++ us') x = ubyte m us x.
Proof using.
  intros Hsame Hx. unfold ubyte. destruct (lookup_lt_is_Some_2 us (Z.to_nat (x / PGSIZE))) as [[p f] Hp]; [unfold PGSIZE in *; zdiv|].
  rewrite (lookup_app_l_Some _ _ _ _ Hp), Hp. symmetry. apply (Hsame p); [apply list_elem_of_fmap; exists (p, f); split; [done|by eapply list_elem_of_lookup_2]|unfold PGSIZE; zdiv].
Qed.

Lemma ubyte_kept_same m m' us x : (forall p, p ∈ us.*1 -> same_page (ram m) (ram m') p) -> ubyte m' us x = ubyte m us x.
Proof using.
  intros Hsame. unfold ubyte. destruct (us !! Z.to_nat (x / PGSIZE)) as [[p f]|] eqn:Hp; [|done]. symmetry.
  apply (Hsame p); [apply list_elem_of_fmap; exists (p, f); split; [done|by eapply list_elem_of_lookup_2]|unfold PGSIZE; zdiv].
Qed.

(** [sz] bytes are covered by the pages [us]. *)
Definition covers (sz : Z) us : Prop := 0 <= sz <= PGSIZE * Z.of_nat (length us) /\ PGSIZE * Z.of_nat (length us) < sz + PGSIZE.

Lemma covers_round root m T fl us sz : space root m T fl us -> covers sz us -> PGROUNDUP sz = PGSIZE * Z.of_nat (length us).
Proof using All.
  intros Hs [H1 H2]. pose proof (space_bound _ _ _ _ _ Hs). rewrite PGROUNDUP_eq by (unfold PGSIZE in *; lia). unfold PGSIZE in *. zdiv.
Qed.

(** uvmalloc at the end of the space. *)
Lemma uvmalloc_space_wp root m T fl us oldsz newsz xperm L :
  space root m T fl us -> covers oldsz us -> oldsz <= newsz < 2 ^ 64 -> 0 <= xperm < 1024 -> avail [kmem_lock; ref_lock] L ->
  let perm := Z.lor (Z.lor PTE_R PTE_U) xperm in
  wp (uvmalloc root oldsz newsz xperm) L m (fun r m' => exists T' fl',
    (exists ps, let us' := us ++ ((fun p => (p, perm)) <$> ps) in r = newsz /\ covers newsz us' /\ space root m' T' fl' us' /\
      (forall x, 0 <= x < PGSIZE * Z.of_nat (length us') -> ubyte m' us' x = if decide (x < PGSIZE * Z.of_nat (length us)) then ubyte m us x else 0) /\
      (length fl <= length fl' + 3 * length ps)%nat) \/
    r = 0 /\ space root m' T' fl' us /\ (forall x, ubyte m' us x = ubyte m us x) /\ 3 * newsz > PGSIZE * (3 * Z.of_nat (length us) + Z.of_nat (length fl) - 3)).
Proof using All.
  intros Hs Hc Hsz Hx HL perm. pose proof (space_bound _ _ _ _ _ Hs) as Hbd. assert (Hperm : 0 <= perm < 1024) by by apply lor_low_range.
  pose proof (covers_round _ _ _ _ _ _ Hs Hc) as Hup. destruct Hc as [Hc1 Hc2].
  eapply wp_mono.
  { apply (uvmalloc_any_wp root oldsz newsz xperm L m T fl); try done; try apply Hs; [lia|change MAXVA with (2 ^ 38); unfold PGSIZE in *; lia|].
    intros k Hk _. rewrite Hup, <- Z.mul_add_distr_l. change MAXVA with (2 ^ 38). split; [unfold PGSIZE; lia|].
    apply (sp_none _ _ _ _ _ Hs); [unfold VASPACE, PGSIZE; lia| |]; rewrite Z.mul_comm, Z.div_mul by done.
    - change (TRAMPOLINE / PGSIZE) with 67108863. lia.
    - change (TRAPFRAME / PGSIZE) with 67108862. lia. }
  intros r m' (T' & fl' & [(ps & -> & Hn & Hg & Hlen)|(n & -> & Hn & Hu & Hlen)]); exists T', fl'; rewrite Hup in *; unfold npages_upto in Hn.
  - left. exists ps. destruct Hg as [HT1 Hk1 Hsub (used & Hp & Hset) Href Hz Hptes Hoff Hag].
    assert (Hl : (length ps <= length fl)%nat) by (rewrite Hp, !length_app; lia).
    destruct (space_extend _ _ _ _ _ Hs m' T' fl' ps (length ps) perm used) as [Hs' Hsame]; try done.
    { intros j p Hj. etrans; [|apply (Hptes j p Hj)]. f_equal. lia. }
    { intros j Hj. lia. }
    cbv zeta. rewrite length_app, length_fmap. split_and!; [done|unfold covers; rewrite length_app, length_fmap; unfold PGSIZE in *; zdiv|done| |done].
    intros x Hx0. case_decide as Hd; [apply ubyte_kept; [done|lia]|]. unfold ubyte. rewrite lookup_app_r by (unfold PGSIZE in *; zdiv). rewrite list_lookup_fmap.
    destruct (lookup_lt_is_Some_2 ps (Z.to_nat (x / PGSIZE) - length us)) as [p Hp']; [unfold PGSIZE in *; zdiv|]. rewrite Hp'. simpl. apply (Hz p (list_elem_of_lookup_2 _ _ _ Hp')). unfold PGSIZE; zdiv.
  - right. split; [done|]. destruct Hu as [HT1 Hk1 Hsub (used & Hp & Hset) Hptes Hoff Hag].
    destruct (space_extend _ _ _ _ _ Hs m' T' fl' [] n perm used) as [Hs' Hsame]; try done.
    { by intros p ?%elem_of_nil. }
    { simpl. lia. }
    { intros j [_ Hj]. rewrite Nat2Z.inj_add, Z.mul_add_distr_l. apply Hptes. lia. }
    rewrite fmap_nil, app_nil_r in Hs'. split_and!; [done|by intros x; apply ubyte_kept_same|]. unfold PGSIZE in *. zdiv.
Qed.


Lemma space_fixed root m T fl us : space root m T fl us -> fixed_only m T (PGSIZE * Z.of_nat (length us)).
Proof using. by intros [_ _ _ _ _ _ _ _ Hno]. Qed.

(** Freeing the space gives back every page. *)
Lemma free_space_wp {F} root (s : ptab F) T fl us sz L : space root (pmem s) T fl us -> covers sz us -> avail [kmem_lock; ref_lock] L ->
  wp (proc_freepagetable root sz) L s (fun _ s' => exists m', s' = over m' s /\ given_back m').
Proof using All.
  intros Hs Hc HL. pose proof (space_bound _ _ _ _ _ Hs) as Hbd. pose proof (covers_round _ _ _ _ _ _ Hs Hc) as Hup. destruct Hc as [Hc1 Hc2].
  assert (Hn : upages_of sz = length us) by (unfold upages_of; rewrite Hup; unfold PGSIZE; zdiv).
  assert (Hus : upages (pmem s) T 0 (upages_of sz) = us.*1) by (rewrite Hn, (space_upages _ _ _ _ _ Hs) by lia; by rewrite <- (length_fmap fst us), firstn_all).
  pose proof (space_nodup _ _ _ _ _ Hs) as (_ & _ & (Hnd & _)%NoDup_app)%NoDup_app.
  assert (Hcnt : forall p, p ∈ us.*1 -> cnt us.*1 p = ref (pmem s) p) by (intros p Hp; rewrite (sp_ref _ _ _ _ _ Hs p Hp); by apply cnt_NoDup).
  eapply wp_mono; [apply (proc_freepagetable_wp root sz s T fl L); rewrite ?Hus, ?Hup; try apply Hs; try done; try lia|].
  - change TRAPFRAME with (67108862 * PGSIZE). unfold PGSIZE. lia.
  - intros p Hp. destruct (space_user _ _ _ _ _ Hs p Hp) as (Hok & Hnt & _). split_and!; [done|done|]. rewrite Hcnt by done. lia.
  - by eapply space_fixed.
  - cbv zeta. rewrite Hus. intros u s' (m' & fl' & -> & Hk' & Hin & Hr & Ha). exists m'. split; [done|]. exists fl'. split_and!; [done| |].
    + apply NoDup_Permutation; [apply Hk'|apply Hk0|]. intros p. rewrite Hin, (space_in _ _ _ _ _ Hs). split; [tauto|]. intros [?|[?|?]]; auto.
    + eapply agree_off_trans; [apply Hs|]. eapply agree_off_mono; [exact Ha|]. intros p. rewrite elem_of_union, !elem_of_list_to_set, (space_in _ _ _ _ _ Hs). tauto.
Qed.

(** ** A new table *)

(** A table that maps nothing yet. *)
Record table root m T fl : Prop := {
  tb_rep : pt_rep m root T;
  tb_kmem : kmem_rep m fl;
  tb_perm : fl0 ≡ₚ elements (pt_set T) ++ fl;
  tb_agree : agree_off (list_to_set fl0) m0 m
}.

Lemma table_grow root m T fl m' T' fl' : table root m T fl -> pt_grow root m T fl m' T' fl' -> table root m' T' fl'.
Proof using Hk0.
  intros [HT Hk Hp Ha] [HT' Hk' Hsub (used & -> & Hset) Ha']. assert (Hnd : NoDup (elements (pt_set T) ++ used ++ fl')) by (rewrite <- Hp; apply Hk0).
  apply NoDup_app in Hnd as (_ & Hd & (Hnu & _)%NoDup_app). split; try done.
  - rewrite Hp, Hset, elements_disj_union, (elements_list_to_set used Hnu); [solve_Permutation|]. intros p Ht%elem_of_elements Hu%elem_of_list_to_set. apply (Hd p Ht). apply elem_of_app. by left.
  - eapply agree_off_trans; [exact Ha|]. eapply agree_off_mono; [exact Ha'|]. rewrite Hset. intros p. rewrite elem_of_union, !elem_of_list_to_set, Hp, !elem_of_app, elem_of_elements. tauto.
Qed.

Lemma free_table_wp root m T fl L : table root m T fl -> (forall va, 0 <= va < VASPACE -> has_bits (pte_at m T va) PTE_V = false) -> avail [kmem_lock; ref_lock] L ->
  wp (uvmfree root 0) L m (fun _ m' => given_back m').
Proof using Hk0.
  intros [HT Hk Hp Ha] Hno HL. eapply wp_mono; [apply (uvmfree_pages_wp root 0 L m T fl HT Hk); try done|].
  - intros p Hin. by apply elem_of_nil in Hin.
  - cbv zeta. change (upages m T 0 (upages_of 0)) with (@nil Z). intros u m' (fl' & Hk' & Hin & _ & Ha'). exists fl'. split_and!; [done| |].
    + apply NoDup_Permutation; [apply Hk'|apply Hk0|]. intros p. rewrite Hin, Hp, elem_of_app, elem_of_elements, elem_of_nil. tauto.
    + eapply agree_off_trans; [exact Ha|]. eapply agree_off_mono; [exact Ha'|]. intros p. rewrite elem_of_union, !elem_of_list_to_set, Hp, elem_of_app, elem_of_elements, elem_of_nil. tauto.
Qed.

Lemma trampoline_page : pte_page trampoline.
Proof using.
  pose proof trampoline_lo. pose proof trampoline_hi. pose proof etext_hi. pose proof end_hi. split; [|apply trampoline_aligned]. unfold PHYSTOP, KERNBASE in *. lia.
Qed.

(** uvmcreate and the first mapping at the two fixed addresses. *)
Lemma create_table_wp L : avail [kmem_lock; ref_lock] L ->
  wp uvmcreate L m0 (fun r m' => r = 0 /\ m' = m0 /\ fl0 = [] \/
    exists T fl, table r m' T fl /\ r <> 0 /\ length fl0 = S (length fl) /\ forall va, pte_at m' T va = 0).
Proof using Hk0.
  clear Htf Htf0 tf. intros HL. eapply wp_mono; [by apply (uvmcreate_wp L m0 fl0)|]. intros r m' Hr. destruct fl0 as [|p fl] eqn:E; [left; naive_solver|right].
  destruct Hr as (-> & Hk & HT & Hp & Ha). exists {[ [] := p ]}, fl. pose proof (page_ok_pos _ (rep_pages _ _ Hk0 p ltac:(by left))). split_and!; [|unfold KERNBASE in *; lia|done|done].
  assert (Hset : pt_set ({[ [] := p ]} : ptree) = {[p]}) by (apply set_eq; intros q; rewrite elem_of_pt_set, elem_of_singleton; split; [by intros [? [_ <-]%lookup_singleton_Some]|intros ->; exists []; by rewrite lookup_singleton_eq]).
  split; [done|done|by rewrite Hset, elements_singleton, E|]. eapply agree_off_mono; [exact Ha|]. intros q ->%elem_of_singleton. rewrite E. apply elem_of_list_to_set. by left.
Qed.

(** ... the second mapping, undone when it fails. *)
Lemma map_trapframe_wp {F} (s : ptab F) r m1 T1 m2 T2 fl2 L :
  table r m2 T2 fl2 -> r <> 0 -> (forall va, pte_at m1 T1 va = 0) -> pte_at m2 T2 TRAMPOLINE = pte_entry trampoline (Z.lor PTE_R PTE_X) ->
  ptes_same_off (fun v => v = TRAMPOLINE / PGSIZE) m1 T1 m2 T2 -> avail [kmem_lock; ref_lock] L ->
  wp (r2 ← onmem (mappages r TRAPFRAME PGSIZE tf (Z.lor PTE_R PTE_W));
      if decide (r2 < 0) then onmem (uvmunmap r TRAMPOLINE 1 false);; onmem (uvmfree r 0);; mret 0 else mret r) L (over m2 s : ptab F) (fun r' s' => exists m', s' = over m' s /\
    (r' = 0 /\ given_back m' /\ (length fl2 <= 2)%nat \/ r' <> 0 /\ exists T fl, space r' m' T fl [] /\ (length fl2 <= length fl + 2)%nat)).
Proof using All.
  intros Ht2 Hr Hp1 Hp2 Ho2 HL. assert (Hinv : forall va, 0 <= va < VASPACE -> va / PGSIZE <> TRAMPOLINE / PGSIZE -> has_bits (pte_at m2 T2 va) PTE_V = false) by (intros va Hva Hne; by rewrite Ho2, Hp1).
  unfold onmem. wstep. wstep. wstep.
  eapply wpl_call; [apply (map_page_wp r TRAPFRAME tf (Z.lor PTE_R PTE_W) L m2 T2 fl2); try done; try apply Ht2; [by apply page_ok_pte|by apply Hinv]|].
  intros r3 m3 (T3 & fl3 & Hg3 & Hf3 & Hor). pose proof (table_grow _ _ _ _ _ _ _ Ht2 Hg3) as Ht3. destruct Hor as [(-> & Hp3 & Ho3)|(-> & -> & Ho3)].
  - wfalse; [|lia]. wsteps. rewrite over_over. split; [done|]. exists m3. split; [done|]. right. split; [done|]. exists T3, fl3. split; [|done]. destruct Ht3 as [HT3 Hk3 Hpm3 Ha3].
    split; try done; [by intros p ?%elem_of_nil|by rewrite Ho3|]. intros va Hva Hn1 Hn2. rewrite Ho3; [by apply Hinv|done|done].
  - wtrue; [|lia]. rewrite over_over. wstep. wstep. eapply wpl_call; [apply (uvmunmap_wp r TRAMPOLINE 1 false L m3 T3 []); try done; apply Ht3|].
    intros u m4 (fl4 & HT4 & Hr4 & Hc4 & Ho4). apply released_nil in Hr4 as [Hk4 Ha4]. rewrite over_over. wstep. wstep.
    assert (Ht4 : table r m4 T3 []). { destruct Ht3 as [HT3 Hk3 Hpm3 Ha3]. split; try done. eapply agree_off_trans; [exact Ha3|]. eapply agree_off_mono; [exact Ha4|]. intros p Hp. apply elem_of_list_to_set. rewrite Hpm3, elem_of_app, elem_of_elements. by left. }
    eapply wpl_call; [apply (free_table_wp r m4 T3 [] L Ht4); [|done]|].
    { intros va Hva. destruct (decide (va / PGSIZE = TRAMPOLINE / PGSIZE)) as [E|Hne].
      - rewrite (pte_at_page _ _ va (TRAMPOLINE + PGSIZE * 0)) by (rewrite E; done). rewrite Hc4 by lia. apply unmapped_invalid.
      - rewrite Ho4; [|done|unfold vrange; simpl; lia]. rewrite Ho3 by (done || tauto). by apply Hinv. }
    intros u' m5 Hb. wsteps. rewrite over_over. split; [done|]. exists m5. split; [done|]. left. simpl in *. split_and!; [done|done|lia].
Qed.

Lemma proc_pagetable_wp {F} i (s : ptab F) L : pmem s = m0 -> trapframe (proc_at i s) = tf -> avail [kmem_lock; ref_lock] L ->
  wp (proc_pagetable i) L s (fun r s' => exists m', s' = over m' s /\
    (r = 0 /\ given_back m' /\ (length fl0 <= 5)%nat \/ r <> 0 /\ exists T fl, space r m' T fl [] /\ (length fl0 <= length fl + 5)%nat)).
Proof using All.
  intros Hm Htfi HL. unfold proc_pagetable, pof, onmem. wstep. wstep. wstep. rewrite Htfi. wstep. wstep. change (view s) with (pmem s). rewrite Hm.
  eapply wpl_call; [by apply create_table_wp|]. intros r m1 [(-> & -> & E)|(T1 & fl1 & Ht1 & Hr & Hl1 & Hp1)].
  { wtrue; [|done]. wsteps. split; [done|]. exists m0. split; [done|]. left. rewrite E. split_and!; [done| |simpl; lia]. exists fl0. split_and!; [by rewrite E in *|done|apply agree_off_refl]. }
  wfalse; [|done]. wstep. wstep.
  eapply wpl_call; [apply (map_page_wp r TRAMPOLINE trampoline (Z.lor PTE_R PTE_X) L m1 T1 fl1); try done; try apply Ht1; [by apply trampoline_page|by rewrite Hp1]|].
  intros r2 m2 (T2 & fl2 & Hg2 & Hf2 & Hor). pose proof (table_grow _ _ _ _ _ _ _ Ht1 Hg2) as Ht2. destruct Hor as [(-> & Hp2 & Ho2)|(-> & -> & Ho2)]; last first.
  { wtrue; [|lia]. rewrite !over_over. wstep. wstep. eapply wpl_call; [apply (free_table_wp r m2 T2 [] L Ht2); [|done]|].
    { intros va Hva. rewrite Ho2 by (done || tauto). by rewrite Hp1. }
    intros u m3 Hb. wsteps. rewrite over_over. split; [done|]. exists m3. split; [done|]. left. simpl in *. split_and!; [done|done|lia]. }
  wfalse; [|lia]. rewrite over_over. eapply wpl_mono; [by apply (map_trapframe_wp s r m1 T1 m2 T2 fl2 L)|].
  intros r3 L3 s3 (-> & m3 & -> & Hor). split; [done|]. exists m3. split; [done|]. destruct Hor as [(-> & Hb & Hl)|(Hr3 & T3 & fl3 & Hs3 & Hl)]; [left|right].
  - split_and!; [done|done|lia].
  - split; [done|]. exists T3, fl3. split; [done|lia].
Qed.

(** ** Writing to the space *)

(** The bytes [l] from [a] on replace those of [f]. *)
Definition patch (a : Z) (l : list Z) (f : Z -> Z) (x : Z) : Z := if decide (a <= x) then default (f x) (l !! Z.to_nat (x - a)) else f x.

Lemma patch_app a l l' f x : patch (a + Z.of_nat (length l)) l' (patch a l f) x = patch a (l ++ l') f x.
Proof using.
  unfold patch. destruct (decide (a <= x)) as [Ha|Ha]; [|by rewrite decide_False by lia]. destruct (decide (a + Z.of_nat (length l) <= x)) as [Hb|Hb].
  - rewrite lookup_app_r by lia. rewrite (lookup_ge_None_2 l) by lia. simpl. do 2 f_equal. lia.
  - destruct (lookup_lt_is_Some_2 l (Z.to_nat (x - a)) ltac:(lia)) as [b Hb']. by rewrite (lookup_app_l_Some _ _ _ _ Hb'), Hb'.
Qed.

Lemma patch_ext a l f g x : f x = g x -> patch a l f x = patch a l g x.
Proof using. intros E. unfold patch. case_decide; [|done]. by rewrite E. Qed.

Lemma patch_nil a f x : patch a [] f x = f x.
Proof using. unfold patch. by case_decide. Qed.

Lemma patch_in a l f x b : l !! Z.to_nat (x - a) = Some b -> a <= x -> patch a l f x = b.
Proof using. intros Hl Ha. unfold patch. by rewrite decide_True, Hl. Qed.

Lemma patch_out a l f x : x < a \/ a + Z.of_nat (length l) <= x -> patch a l f x = f x.
Proof using. intros Hx. unfold patch. case_decide; [|done]. by rewrite lookup_ge_None_2 by lia. Qed.

Lemma write_page_step root m T fl us j p f o l : space root m T fl us -> us !! j = Some (p, f) -> 0 <= o -> o + Z.of_nat (length l) <= PGSIZE -> Forall is_byte l ->
  let m' := set_ram (fun r => store_bytes r (p + o) l) m in
  space root m' T fl us /\ forall x, 0 <= x -> ubyte m' us x = patch (PGSIZE * Z.of_nat j + o) l (ubyte m us) x.
Proof using All.
  intros Hs Hj Ho Hlen Hby m'. assert (Hin : p ∈ us.*1) by (apply list_elem_of_fmap; exists (p, f); split; [done|by eapply list_elem_of_lookup_2]).
  destruct (space_user _ _ _ _ _ Hs p Hin) as ((Hal & _) & Hnt & Hnf & Hp0).
  assert (Ha : agree_off {[p]} m m').
  { intros q Hq Hne. split; [|done]. intros x Hx. symmetry. apply byte_store_bytes_out. assert (q <> p) by set_solver. unfold PGSIZE in *. zdiv. }
  assert (Hpte : forall va, pte_at m' T va = pte_at m T va) by (intros va; eapply pte_at_agree; [exact Ha|set_solver|apply Hs]). split.
  - pose proof Hs as [HT Hk Hp Hag Hr Hptes Htr Htrf Hno]. split; try done.
    + eapply pt_rep_agree; [exact Ha|set_solver|done].
    + eapply kmem_rep_agree; [exact Ha|done| |done]. intros q Hq ->%elem_of_singleton. done.
    + eapply agree_off_trans; [exact Hag|]. eapply agree_off_mono; [exact Ha|]. intros q ->%elem_of_singleton. by apply elem_of_list_to_set.
    + intros k q g Hk'. rewrite Hpte. by apply Hptes.
    + by rewrite Hpte.
    + by rewrite Hpte.
    + intros va Hva H1 H2. rewrite Hpte. by apply Hno.
  - intros x Hx. unfold ubyte at 1. destruct (us !! Z.to_nat (x / PGSIZE)) as [[q g]|] eqn:Hq; last first.
    { rewrite patch_out; [by unfold ubyte; rewrite Hq|]. destruct (decide (x / PGSIZE = Z.of_nat j)) as [E|]; [by rewrite E, Nat2Z.id, Hj in Hq|]. unfold PGSIZE in *. zdiv. }
    destruct (decide (Z.to_nat (x / PGSIZE) = j)) as [E|Hne].
    + rewrite E, Hj in Hq. injection Hq as <- <-. assert (Hxj : x = PGSIZE * Z.of_nat j + x mod PGSIZE) by (unfold PGSIZE in *; zdiv). simpl. destruct (decide (o <= x mod PGSIZE < o + Z.of_nat (length l))) as [Hi|Hi].
      * destruct (lookup_lt_is_Some_2 l (Z.to_nat (x mod PGSIZE - o)) ltac:(lia)) as [b Hb]. rewrite (patch_in _ _ _ _ b); [|rewrite <- Hb; f_equal; lia|lia].
        replace (p + x mod PGSIZE) with (p + o + Z.of_nat (Z.to_nat (x mod PGSIZE - o))) by lia. rewrite (byte_store_bytes_in _ _ _ _ _ Hb). apply u8_small. by eapply (Forall_lookup_1 is_byte).
      * rewrite patch_out by lia. unfold ubyte. rewrite E, Hj. apply byte_store_bytes_out. lia.
    + rewrite patch_out by (unfold PGSIZE in *; zdiv). unfold ubyte. rewrite Hq. simpl. apply byte_store_bytes_out. assert (Hqp : q <> p).
      { intros ->. apply Hne. eapply (space_user_inj _ _ _ _ _ Hs); rewrite list_lookup_fmap, ?Hq, ?Hj; done. }
      destruct (space_user _ _ _ _ _ Hs q) as ((Halq & _) & _); [apply list_elem_of_fmap; exists (q, g); split; [done|by eapply list_elem_of_lookup_2]|]. unfold PGSIZE in *. zdiv.
Qed.

(** ** The stack guard *)
Definition no_user (f : Z) : Z := Z.land f (Z.lnot PTE_U).

Lemma no_user_range f : 0 <= f < 1024 -> 0 <= no_user f < 1024.
Proof using.
  intros Hf. unfold no_user. split; [apply Z.land_nonneg; lia|]. rewrite <- (Z.mod_small f 1024) by lia. change 1024 with (2 ^ 10). rewrite <- Z.land_ones by done.
  rewrite <- Z.land_assoc, (Z.land_comm (Z.ones 10)), Z.land_assoc, Z.land_ones by done. apply Z.mod_pos_bound. done.
Qed.

Lemma no_user_entry p f : pte_page p -> Z.land (pte_entry p f) (Z.lnot PTE_U) = pte_entry p (no_user f).
Proof using.
  intros Hp. unfold pte_entry, no_user. rewrite PA2PTE_eq by done. apply Z.bits_inj'. intros i Hi. rewrite !Z.land_spec, !Z.lor_spec, !Z.land_spec, !Z.lnot_spec by done.
  unfold PTE_U, PTE_V. rewrite !Z.shiftl_1_l, !Z.pow2_bits_eqb by done. destruct (decide (i = 4)) as [->|Hne].
  - replace (p / PGSIZE * 1024) with (Z.shiftl (p / PGSIZE) 10) by (by rewrite Z.shiftl_mul_pow2). rewrite Z.shiftl_spec_low by done. by destruct (Z.testbit f 4).
  - rewrite (proj2 (Z.eqb_neq 4 i)) by lia. simpl. by rewrite !andb_true_r.
Qed.

Lemma uvmclear_space_wp root m T fl us j p f L : space root m T fl us -> us !! j = Some (p, f) -> avail [kmem_lock; ref_lock] L ->
  wp (uvmclear root (PGSIZE * Z.of_nat j)) L m (fun _ m' => let us' := <[j := (p, no_user f)]> us in
    space root m' T fl us' /\ forall x, ubyte m' us' x = ubyte m us x).
Proof using All.
  intros Hs Hj HL. pose proof (space_bound _ _ _ _ _ Hs) as Hbd. pose proof (lookup_lt_Some _ _ _ Hj) as Hlt. pose proof Hs as [HT Hk Hp Hag Hr Hptes Htr Htrf Hno].
  destruct (Hptes j p f Hj) as [Hf Hpte]. assert (Hin : p ∈ us.*1) by (apply list_elem_of_fmap; exists (p, f); split; [done|by eapply list_elem_of_lookup_2]).
  destruct (space_user _ _ _ _ _ Hs p Hin) as (Hok & _). pose proof (page_ok_pte _ Hok) as Hpg. assert (Hva : 0 <= PGSIZE * Z.of_nat j < MAXVA) by (change MAXVA with (2 ^ 38); unfold PGSIZE; lia).
  eapply wp_mono; [apply (uvmclear_wp root (PGSIZE * Z.of_nat j) L m T fl HT Hk Hva)|].
  { destruct (T !! vpath (PGSIZE * Z.of_nat j)) eqn:E; [by eexists|]. pose proof (pte_entry_valid p f Hpg Hf) as HV. rewrite <- Hpte in HV. unfold pte_at in HV. by rewrite E in HV. }
  intros u m' ([HT' Hk' _ _ Ha'] & Hnew & Hoff). cbv zeta. rewrite Hpte, no_user_entry in Hnew by done.
  assert (Hkeep : forall va, 0 <= va < VASPACE -> va / PGSIZE <> Z.of_nat j -> pte_at m' T va = pte_at m T va).
  { intros va Hv Hne. apply Hoff; [done|]. by rewrite (Z.mul_comm PGSIZE), Z.div_mul by done. }
  assert (Hfst : (<[j := (p, no_user f)]> us).*1 = us.*1) by (rewrite list_fmap_insert; apply list_insert_id; by rewrite list_lookup_fmap, Hj).
  assert (Hsame : forall q, q ∈ us.*1 -> same_page (ram m) (ram m') q /\ ref m' q = ref m q) by (intros q Hq; destruct (space_user _ _ _ _ _ Hs q Hq) as ((? & _) & ? & _); by apply Ha').
  split.
  - split; rewrite ?Hfst, ?length_insert; try done.
    + eapply agree_off_trans; [exact Hag|]. eapply agree_off_mono; [exact Ha'|]. intros q Hq. apply elem_of_list_to_set, (space_in _ _ _ _ _ Hs). by left.
    + intros q Hq. rewrite (proj2 (Hsame q Hq)). by apply Hr.
    + intros k q g [(-> & [= <- <-] & _)|[Hne Hk2]]%list_lookup_insert_Some; [split; [by apply no_user_range|done]|].
      destruct (Hptes k q g Hk2) as [? Hq]. apply lookup_lt_Some in Hk2. split; [done|]. rewrite Hkeep; [done|unfold PGSIZE, VASPACE in *; lia|rewrite (Z.mul_comm PGSIZE), Z.div_mul by done; lia].
    + rewrite Hkeep; [done|split; by vm_compute|]. change (TRAMPOLINE / PGSIZE) with 67108863. lia.
    + rewrite Hkeep; [done|split; by vm_compute|]. change (TRAPFRAME / PGSIZE) with 67108862. lia.
    + intros va Hv H1 H2. rewrite Hkeep; [by apply Hno|unfold PGSIZE in *; lia|unfold PGSIZE in *; zdiv].
  - intros x. rewrite <- (ubyte_kept_same m m' us x) by (intros q Hq; by apply Hsame). unfold ubyte. destruct (decide (Z.to_nat (x / PGSIZE) = j)) as [->|Hne].
    + rewrite list_lookup_insert_eq by done. by rewrite Hj.
    + by rewrite list_lookup_insert_ne.
Qed.

(** ** copyout to the space *)
Definition writable (f : Z) : Prop := has_bits f PTE_U = true /\ has_bits f PTE_W = true.

Lemma entry_bit p f (k : Z) : pte_page p -> 0 <= f < 1024 -> 1 <= k < 10 -> has_bits (pte_entry p f) (Z.shiftl 1 k) = has_bits f (Z.shiftl 1 k).
Proof using.
  intros Hp Hf Hk. rewrite pte_entry_eq, has_bits_lor; [|done|by apply perm_V_range|]; last first.
  { rewrite Z.shiftl_1_l. split; [lia|]. change 1024 with (2 ^ 10). apply Z.pow_lt_mono_r; lia. }
  rewrite !has_bits_testbit by lia. rewrite Z.lor_spec. unfold PTE_V. rewrite Z.shiftl_1_l, Z.pow2_bits_eqb by lia. rewrite (proj2 (Z.eqb_neq 0 k)) by lia. by rewrite orb_false_r.
Qed.

(** A piece within one page. *)
Lemma copyout_piece_wp (v : vms) root T fl us j p f va l L : space root (vm_mem v) T fl us -> us !! j = Some (p, f) -> writable f -> va / PGSIZE = Z.of_nat j -> l <> [] -> Forall is_byte l ->
  avail [kmem_lock; ref_lock] L ->
  let n := Z.to_nat (piece va (Z.of_nat (length l))) in
  wp (copyout_body root (va, l)) L v (fun r v' => exists m', v' = over m' v /\ r = inl (PGSIZE * (Z.of_nat j + 1), drop n l) /\ (n <= length l)%nat /\ (0 < n)%nat /\
    (drop n l <> [] -> va + Z.of_nat n = PGSIZE * (Z.of_nat j + 1)) /\
    space root m' T fl us /\ forall x, 0 <= x -> ubyte m' us x = patch va (take n l) (ubyte (vm_mem v) us) x).
Proof using All.
  intros Hs Hj [HU HW] Hva Hne Hby HL n. pose proof (space_bound _ _ _ _ _ Hs) as Hbd. pose proof (lookup_lt_Some _ _ _ Hj) as Hlt. destruct (sp_ptes _ _ _ _ _ Hs j p f Hj) as [Hf Hpte].
  assert (Hin : p ∈ us.*1) by (apply list_elem_of_fmap; exists (p, f); split; [done|by eapply list_elem_of_lookup_2]).
  destruct (space_user _ _ _ _ _ Hs p Hin) as (Hok & _). pose proof (page_ok_pte _ Hok) as Hpg. pose proof (page_ok_pos _ Hok) as Hpos.
  assert (Hrd : PGROUNDDOWN va = PGSIZE * Z.of_nat j) by (rewrite PGROUNDDOWN_eq, <- Hva; unfold PGSIZE; zdiv).
  assert (Hl : (0 < length l)%nat) by (destruct l; [done|simpl; lia]).
  assert (Hn : 0 < piece va (Z.of_nat (length l)) <= Z.of_nat (length l) /\ va - PGSIZE * Z.of_nat j + piece va (Z.of_nat (length l)) <= PGSIZE /\
    (piece va (Z.of_nat (length l)) < Z.of_nat (length l) -> va + piece va (Z.of_nat (length l)) = PGSIZE * (Z.of_nat j + 1))).
  { unfold piece. rewrite Hrd. case_decide; unfold PGSIZE in *; zdiv. }
  destruct Hn as (Hn & Hpg' & Hfull). unfold copyout_body. wstep. wtrue; [|lia]. rewrite Hrd. wfalse; [|change MAXVA with (2 ^ 38); unfold PGSIZE; lia].
  assert (HVU : has_bits (pte_entry p f) PTE_V && has_bits (pte_entry p f) PTE_U = true) by (rewrite pte_entry_valid by done; unfold PTE_U in *; by rewrite entry_bit).
  unfold user_page. wstep. wstep. wstep. eapply wpl_call; [apply walkaddr_wp; apply Hs|]. intros r m1 [-> Hr]. change (view v) with (vm_mem v) in Hr. rewrite Hpte, decide_True, pte_entry_pa in Hr by (done || (split; [change MAXVA with (2 ^ 38); unfold PGSIZE; lia|done])).
  subst r. wfalse; [|unfold KERNBASE in *; lia]. wsteps. wfalse; [|unfold KERNBASE in *; lia]. rewrite over_view. wsteps. unfold writable_page. wsteps.
  destruct (T !! vpath (PGSIZE * Z.of_nat j)) as [q|] eqn:Hq; [|unfold pte_at in Hpte; rewrite Hq in Hpte; rewrite <- Hpte in HVU; done].
  eapply wpl_call; [apply walk_look_wp; [apply Hs|change MAXVA with (2 ^ 38); unfold PGSIZE; lia]|]. intros r m1 [-> ->]. unfold slot. rewrite Hq. wsteps.
  eapply wpl_load_leaf; [apply Hs|done|]. change (view v) with (vm_mem v). rewrite Hpte. unfold PTE_W at 1. rewrite entry_bit by done. fold PTE_W. rewrite HW. wsteps.
  wfalse; [|unfold KERNBASE in *; lia]. wsteps. fold n. assert (Hln : length (take n l) = n) by (apply length_take_le; lia). pose proof (page_ok_whole _ Hok) as Hram.
  assert (Hoff : 0 <= va - PGSIZE * Z.of_nat j /\ va - PGSIZE * Z.of_nat j + Z.of_nat n <= PGSIZE) by (split; [unfold PGSIZE in *; zdiv|unfold n; lia]).
  apply wpl_memmove_to; [rewrite Hln; unfold ram_ok in *; lia|]. wsteps. rewrite over_over.
  destruct (write_page_step root (vm_mem v) T fl us j p f (va - PGSIZE * Z.of_nat j) (take n l) Hs Hj) as [Hs' Hub]; [lia|lia|by apply Forall_take|].
  split; [done|]. eexists. split; [done|]. split; [do 2 f_equal; rewrite u64_small; unfold PGSIZE; lia|]. split; [lia|]. split; [lia|].
  split. { intros Hd. assert (Hlt' : (n < length l)%nat) by (destruct (decide (n < length l)%nat); [done|]; by rewrite drop_ge in Hd by lia). unfold n in *. rewrite Z2Nat.id by lia. apply Hfull. lia. }
  split; [exact Hs'|]. intros x Hx. etrans; [by apply Hub|]. f_equal. lia.
Qed.

Lemma copyout_space_wp (v : vms) root T fl us dst l L : space root (vm_mem v) T fl us -> 0 <= dst -> dst + Z.of_nat (length l) <= PGSIZE * Z.of_nat (length us) -> Forall is_byte l ->
  (forall j p f, us !! j = Some (p, f) -> dst / PGSIZE <= Z.of_nat j -> PGSIZE * Z.of_nat j < dst + Z.of_nat (length l) -> writable f) -> avail [kmem_lock; ref_lock] L ->
  wp (copyout root dst l) L v (fun r v' => exists m', v' = over m' v /\ r = 0 /\ space root m' T fl us /\
    forall x, 0 <= x -> ubyte m' us x = patch dst l (ubyte (vm_mem v) us) x).
Proof using All.
  intros Hs Hd Hend Hby Hw HL. unfold copyout.
  apply (wpl_loop (fun x v1 => exists k m1, v1 = over m1 v /\ (k <= length l)%nat /\ x.2 = drop k l /\ (x.2 <> [] -> x.1 = dst + Z.of_nat k) /\ space root m1 T fl us /\
    forall a, 0 <= a -> ubyte m1 us a = patch dst (take k l) (ubyte (vm_mem v) us) a) (fun x => length x.2)).
  - intros [va src] v1 (k & m1 & -> & Hk & Hsrc & Hva & Hs1 & Hub). cbn [fst snd] in *. destruct (decide (src = [])) as [->|Hne].
    + unfold copyout_body. wstep. wfalse; [|simpl; lia]. wsteps. split; [done|]. exists m1. split_and!; try done. assert (k = length l) as -> by (assert (length (drop k l) = 0%nat) as E by (by rewrite <- Hsrc); rewrite length_drop in E; lia). by rewrite firstn_all in Hub.
    + specialize (Hva Hne). assert (Hlk : (k < length l)%nat) by (destruct (decide (k < length l)%nat); [done|]; rewrite drop_ge in Hsrc by lia; done).
      destruct (lookup_lt_is_Some_2 us (Z.to_nat (va / PGSIZE))) as [[p f] Hj]; [unfold PGSIZE in *; zdiv|].
      assert (Hwf : writable f) by (eapply Hw; [exact Hj| |]; unfold PGSIZE in *; zdiv).
      eapply wp_mono; [apply (copyout_piece_wp _ root T fl us (Z.to_nat (va / PGSIZE)) p f va src L); [exact Hs1|exact Hj|exact Hwf|unfold PGSIZE in *; zdiv|done|rewrite Hsrc; by apply Forall_drop|done]|].
      set (n := Z.to_nat (piece _ _)). intros r v2 (m2 & -> & -> & Hn & Hn0 & Hfull & Hs2 & Hub2). rewrite over_over. split.
      * exists (k + n)%nat, m2. cbn [fst snd]. rewrite Hsrc, drop_drop in *. rewrite length_drop in Hn. split_and!; try done; [lia| |].
        { intros Hne2. specialize (Hfull Hne2). lia. }
        intros a Ha. rewrite Hub2 by done. change (vm_mem (over (C := mem) m1 v)) with m1. rewrite (patch_ext _ _ _ (patch dst (take k l) (ubyte (vm_mem v) us))) by by apply Hub.
        rewrite Hva. replace (dst + Z.of_nat k) with (dst + Z.of_nat (length (take k l))) by (rewrite length_take_le; lia). rewrite patch_app. by rewrite take_take_drop.
      * cbn [snd]. rewrite length_drop. lia.
  - exists O, (vm_mem v). cbn [fst snd]. split_and!; try done; [by destruct v|lia|lia|]. intros a _. by rewrite patch_nil.
  - cbn [snd]. lia.
Qed.
End Space.
