(* ===== verification/ExecSpec.v ===== *)
(** What exec does: the image that an executable describes, the layout of the
    stack, and that kexec either installs exactly that or leaves everything as it
    was. *)
From S2P Require Import Prelude Riscv PhysMem Kalloc PageTable Vm VmFree Cow Shm UserMem CopyOut UserIface VmUser Block CStrings Sysfile Proc ProcSpec Exec ExecSpace.
Local Open Scope Z_scope.

(** * Files *)

(** What readi delivers of a file with the bytes [c]. *)
Definition file_read (c : list Z) (off n : Z) : list Z :=
  if decide (Z.of_nat (length c) < off \/ 2 ^ 32 <= off + n) then [] else take (Z.to_nat n) (drop (Z.to_nat off) c).

(** The promises of the file system to exec: [xidle] outside of an operation,
    [xop] in one, [xheld] with a reference to the inode of a file, [xlocked] with
    its lock; [file_at] gives the bytes of the file that a path names. *)
Class ExecFilesSpec (F : Type) `{ExecFiles F} := {
  xidle : F -> Prop;
  xop : F -> Prop;
  xheld : nat -> list Z -> F -> Prop;
  xlocked : nat -> list Z -> F -> Prop;
  file_at : F -> list Z -> option (list Z);
  xlocked_bytes ip c s : xlocked ip c s -> Forall is_byte c /\ Z.of_nat (length c) < 2 ^ 31;
  x_begin_op_wp s : xidle s -> wp x_begin_op [] s (fun _ s' => xop s' /\ file_at s' = file_at s);
  x_namei_wp path s : xop s -> wp (x_namei path) [] s (fun o s' =>
    match o, file_at s path with None, None => xop s' | Some ip, Some c => xheld ip c s' | _, _ => False end);
  x_ilock_wp ip c s : xheld ip c s -> wp (x_ilock ip) [] s (fun _ s' => xlocked ip c s');
  x_readi_wp ip c off n s : xlocked ip c s -> 0 <= off < 2 ^ 32 -> 0 <= n < 2 ^ 32 ->
    wp (x_readi ip off n) [] s (fun l s' => l = file_read c off n /\ xlocked ip c s');
  x_iunlockput_wp ip c s : xlocked ip c s -> wp (x_iunlockput ip) [] s (fun _ s' => xop s');
  x_end_op_wp s : xop s -> wp x_end_op [] s (fun _ s' => xidle s')
}.

(** * The image of a program *)
Definition npages (sz : Z) : nat := Z.to_nat ((sz + PGSIZE - 1) / PGSIZE).

(** The size, the bytes, and the permissions of the pages. *)
Record image := mkImage { im_sz : Z; im_byte : Z -> Z; im_perm : list Z }.

Definition segment_perm (ph : proghdr) : Z := Z.lor (Z.lor PTE_R PTE_U) (flags2perm (ph_flags ph)).

(** A segment extends the image with zeros and puts its bytes of the file at its
    address. *)
Definition add_segment (c : list Z) (ph : proghdr) (im : image) : option image :=
  if decide (ph_type ph <> ELF_PROG_LOAD) then Some im
  else if decide (ph_memsz ph < ph_filesz ph \/ 2 ^ 64 <= ph_vaddr ph + ph_memsz ph \/ ph_vaddr ph mod PGSIZE <> 0) then None
  else
    let sz := Z.max (im_sz im) (ph_vaddr ph + ph_memsz ph) in
    let n := u32 (ph_filesz ph) in
    let off := u32 (ph_off ph) in
    if decide (sz = 0 \/ (n <> 0 /\ Z.of_nat (length c) < off + n)) then None
    else Some (mkImage sz (patch (ph_vaddr ph) (take (Z.to_nat n) (drop (Z.to_nat off) c)) (im_byte im))
                (im_perm im ++ replicate (npages sz - npages (im_sz im)) (segment_perm ph))).

(** The segment of the header at [off]. *)
Definition next_segment (c : list Z) (off : Z) (im : image) : option image :=
  let l := file_read c (u32 off) sizeof_proghdr in
  if decide (Z.of_nat (length l) <> sizeof_proghdr) then None else add_segment c (proghdr_of l) im.

Fixpoint add_segments (c : list Z) (n : nat) (off : Z) (im : image) : option image :=
  match n with
  | O => Some im
  | S n => im' ← next_segment c off im; add_segments c n (s32 (off + sizeof_proghdr)) im'
  end.

Definition empty_image : image := mkImage 0 (fun _ => 0) [].

(** The entry point and the image of an executable. *)
Definition program (c : list Z) : option (Z * image) :=
  let l := file_read c 0 sizeof_elfhdr in
  if decide (Z.of_nat (length l) <> sizeof_elfhdr) then None
  else
    let elf := elfhdr_of l in
    if decide (e_magic elf <> ELF_MAGIC) then None
    else im ← add_segments c (Z.to_nat (e_phnum elf)) (s32 (e_phoff elf)) empty_image; Some (e_entry elf, im).

(** * The stack *)
Definition align16 (sp : Z) : Z := sp - sp mod 16.

(** The strings go below [sp], each at a multiple of 16, down to [base]: their
    addresses, the new [sp] and the bytes. *)
Fixpoint push_strings (base sp : Z) (argv : list (list Z)) (f : Z -> Z) : option (list Z * Z * (Z -> Z)) :=
  match argv with
  | [] => Some ([], sp, f)
  | arg :: argv =>
      let sp := align16 (sp - (Z.of_nat (length arg) + 1)) in
      if decide (sp < base) then None
      else '(us, sp', f') ← push_strings base sp argv (patch sp (arg ++ [0]) f); Some (sp :: us, sp', f')
  end.

(** ... and below them the array of their addresses, ended by 0. *)
Definition push_argv (base sp : Z) (argv : list (list Z)) (f : Z -> Z) : option (Z * (Z -> Z)) :=
  '(us, sp, f) ← push_strings base sp argv f;
  let sp := align16 (sp - (Z.of_nat (length argv) + 1) * 8) in
  if decide (sp < base) then None else Some (sp, patch sp (concat (le_bytes 8 <$> (us ++ [0]))) f).

(** * Loading *)
Section Loading.
Context `{KI : KernelImage} {F : Type} `{EF : ExecFiles F} `{ES : !ExecFilesSpec F}.
Context (m0 : mem) (fl0 : list Z) (tf : Z).
Hypothesis Hk0 : kmem_rep m0 fl0.
Hypothesis Htf : page_ok tf.
Hypothesis Htf0 : tf ∉ fl0.
Implicit Types (s : ptab F) (m : mem) (f : F) (T : ptree) (fl : list Z) (us : list (Z * Z)) (L : list lock) (im : image).
Local Abbreviation space := (space m0 fl0 tf).

(** The state with the memory [m] and the files [f]. *)
Definition with_mf m f s : ptab F := mkPtab (procs s) (cur s) (initproc s) (nextpid s) m (pframes s) f.

Lemma wpl_onmem {A} (c : M mem A) L m f s (P : A -> mem -> Prop) Q : wp c L m P -> (forall a m', P a m' -> Q a L (with_mf m' f s)) -> wpl (onmem c) L (with_mf m f s) Q.
Proof using. intros Hw HQ. unfold onmem. wstep. eapply wpl_call; [exact Hw|]. exact HQ. Qed.

Lemma wpl_onfiles {A} (c : M F A) L m f s (P : A -> F -> Prop) Q : wp c L f P -> (forall a f', P a f' -> Q a L (with_mf m f' s)) -> wpl (onfiles c) L (with_mf m f s) Q.
Proof using. intros Hw HQ. unfold onfiles. wstep. eapply wpl_call; [exact Hw|]. exact HQ. Qed.

Lemma file_read_full c off n : 0 <= off -> 0 < n < 2 ^ 31 -> Z.of_nat (length c) < 2 ^ 31 ->
  if decide (off + n <= Z.of_nat (length c)) then Z.of_nat (length (file_read c off n)) = n /\ file_read c off n = take (Z.to_nat n) (drop (Z.to_nat off) c)
  else Z.of_nat (length (file_read c off n)) < n.
Proof using.
  intros H0 Hn Hc. unfold file_read. case_decide as Hd.
  - rewrite decide_False by lia. rewrite length_take, length_drop. split; [lia|done].
  - case_decide; [simpl; lia|]. rewrite length_take, length_drop. lia.
Qed.

Lemma file_read_bytes c off n : Forall is_byte c -> Forall is_byte (file_read c off n).
Proof using. intros Hc. unfold file_read. case_decide; [constructor|]. by apply Forall_take, Forall_drop. Qed.

Lemma file_read_length c off n : 0 <= n -> Z.of_nat (length (file_read c off n)) <= n.
Proof using. intros Hn. unfold file_read. case_decide; [simpl; lia|]. rewrite length_take. lia. Qed.

(** The pages of a program, all of them for the user. *)
Definition user_pages us : Prop := Forall (fun x => has_bits x.2 PTE_U = true) us.

Lemma walkaddr_space_wp root m T fl us j p g L : space root m T fl us -> user_pages us -> us !! j = Some (p, g) ->
  wp (walkaddr root (PGSIZE * Z.of_nat j)) L m (fun r m' => m' = m /\ r = p) /\ page_ok p.
Proof using All.
  intros Hs HU Hj. pose proof (space_bound m0 fl0 tf Hk0 Htf Htf0 _ _ _ _ _ Hs) as Hbd. pose proof (lookup_lt_Some _ _ _ Hj) as Hlt. destruct (sp_ptes _ _ _ _ _ _ _ _ Hs j p g Hj) as [Hf Hpte].
  destruct (space_user m0 fl0 tf Hk0 Htf Htf0 _ _ _ _ _ Hs p) as (Hok & _); [apply list_elem_of_fmap; exists (p, g); split; [done|by eapply list_elem_of_lookup_2]|]. split; [|done].
  pose proof (page_ok_pte _ Hok) as Hpg. eapply wp_mono; [apply (walkaddr_wp root (PGSIZE * Z.of_nat j) L m T); apply Hs|]. intros r m' [-> ->]. split; [done|].
  rewrite Hpte, decide_True; [by apply pte_entry_pa|]. split; [change MAXVA with (2 ^ 38); unfold PGSIZE; lia|]. rewrite pte_entry_valid by done. unfold PTE_U. rewrite entry_bit by done.
  by apply (Forall_lookup_1 _ _ _ _ HU Hj).
Qed.

(** The bytes of a segment that are loaded after [i] bytes. *)
Definition loaded_upto (c : list Z) (offset size va i : Z) (g : Z -> Z) : Z -> Z := patch va (take (Z.to_nat (Z.min i size)) (drop (Z.to_nat offset) c)) g.

Lemma loadseg_body_wp root va ip c offset size i m f T fl us (g : Z -> Z) s :
  space root m T fl us -> user_pages us -> xlocked ip c f -> va mod PGSIZE = 0 -> 0 <= va -> 0 <= offset < 2 ^ 32 ->
  va + size <= PGSIZE * Z.of_nat (length us) -> 0 <= i < size -> i mod PGSIZE = 0 -> (i = 0 \/ offset + i <= Z.of_nat (length c)) ->
  (forall x, 0 <= x -> ubyte m us x = loaded_upto c offset size va i g x) ->
  wp (loadseg_body root va ip offset size i) [] (with_mf m f s) (fun r s' => exists m' f', s' = with_mf m' f' s /\ space root m' T fl us /\ xlocked ip c f' /\
    (r = inl (i + PGSIZE) /\ offset + Z.min (i + PGSIZE) size <= Z.of_nat (length c) /\ (forall x, 0 <= x -> ubyte m' us x = loaded_upto c offset size va (i + PGSIZE) g x) \/
     r = inr (-1) /\ Z.of_nat (length c) < offset + size)).
Proof using All.
  intros Hs HU Hlk Hal Hva Hoff Hend Hi Himod Hic Hub. pose proof (space_bound m0 fl0 tf Hk0 Htf Htf0 _ _ _ _ _ Hs) as Hbd. destruct (xlocked_bytes _ _ _ Hlk) as [Hcb Hcl].
  destruct (lookup_lt_is_Some_2 us (Z.to_nat ((va + i) / PGSIZE))) as [[p h] Hj]; [unfold PGSIZE in *; zdiv|].
  assert (Hpg : PGSIZE * Z.of_nat (Z.to_nat ((va + i) / PGSIZE)) = va + i) by (unfold PGSIZE in *; zdiv).
  destruct (walkaddr_space_wp root m T fl us _ p h [] Hs HU Hj) as [Hwalk Hok]. rewrite Hpg in Hwalk. pose proof (page_ok_pos _ Hok) as Hpos.
  set (n := if decide (size - i < PGSIZE) then size - i else PGSIZE). assert (Hn : n = Z.min (size - i) PGSIZE /\ 0 < n) by (unfold n; case_decide; unfold PGSIZE in *; lia). destruct Hn as [En Hn].
  assert (Hu : u32 (offset + i) = offset + i) by (apply u32_small; unfold PGSIZE in *; lia).
  unfold loadseg_body. wstep. wtrue; [|lia]. wstep. rewrite u64_small by (unfold PGSIZE in *; lia). eapply wpl_onmem; [exact Hwalk|]. intros r m1 [-> ->]. wfalse; [|unfold KERNBASE in *; lia]. fold n. rewrite Hu.
  wstep. eapply wpl_onfiles; [apply (x_readi_wp ip c); [done|unfold PGSIZE in *; lia|unfold PGSIZE in *; lia]|]. intros l f' [-> Hlk']. wstep.
  pose proof (file_read_length c (offset + i) n ltac:(lia)) as Hll. pose proof (page_ok_whole _ Hok) as Hram. unfold onmem. wstep. apply wpl_memmove_to; [unfold ram_ok in *; unfold PGSIZE in *; lia|].
  destruct (write_page_step m0 fl0 tf Hk0 Htf Htf0 root m T fl us _ p h 0 (file_read c (offset + i) n) Hs Hj) as [Hs' Hub']; [lia|unfold PGSIZE in *; lia|by apply file_read_bytes|]. rewrite Hpg, !Z.add_0_r in *.
  pose proof (file_read_full c (offset + i) n ltac:(lia) ltac:(unfold PGSIZE in *; lia) Hcl) as Hfull. destruct (decide (offset + i + n <= Z.of_nat (length c))) as [Hle|Hgt].
  - destruct Hfull as [Hlen Hval]. wfalse; [|lia]. wsteps. split; [done|]. eexists _, f'. split; [done|]. split; [exact Hs'|]. split; [done|]. left. split_and!.
    + f_equal. apply u32_small. unfold PGSIZE in *. lia.
    + lia.
    + intros x Hx. etrans; [by apply Hub'|]. rewrite (patch_ext _ _ _ _ x (Hub x Hx)). unfold loaded_upto. rewrite Hval. replace (va + i) with (va + Z.of_nat (length (take (Z.to_nat (Z.min i size)) (drop (Z.to_nat offset) c)))).
      2:{ rewrite length_take, length_drop. lia. }
      rewrite patch_app. f_equal. replace (Z.to_nat (offset + i)) with (Z.to_nat offset + Z.to_nat i)%nat by lia. rewrite <- drop_drop. replace (Z.to_nat (Z.min i size)) with (Z.to_nat i) by lia. rewrite take_take_drop. f_equal. lia.
  - wtrue; [|lia]. wsteps. split; [done|]. eexists _, f'. split; [done|]. split; [exact Hs'|]. split; [done|]. right. split; [done|]. lia.
Qed.

Lemma loadseg_wp root va ip c offset size m f T fl us s :
  space root m T fl us -> user_pages us -> xlocked ip c f -> va mod PGSIZE = 0 -> 0 <= va -> 0 <= offset < 2 ^ 32 -> 0 <= size -> va + size <= PGSIZE * Z.of_nat (length us) ->
  wp (loadseg root va ip offset size) [] (with_mf m f s) (fun r s' => exists m' f', s' = with_mf m' f' s /\ space root m' T fl us /\ xlocked ip c f' /\
    (r = 0 /\ (size = 0 \/ offset + size <= Z.of_nat (length c)) /\ (forall x, 0 <= x -> ubyte m' us x = patch va (take (Z.to_nat size) (drop (Z.to_nat offset) c)) (ubyte m us) x) \/
     r = -1 /\ size <> 0 /\ Z.of_nat (length c) < offset + size)).
Proof using All.
  intros Hs HU Hlk Hal Hva Hoff Hsz Hend. unfold loadseg.
  apply (wpl_loop (fun i s1 => exists m1 f1, s1 = with_mf m1 f1 s /\ 0 <= i < size + PGSIZE /\ i mod PGSIZE = 0 /\ (i = 0 \/ offset + Z.min i size <= Z.of_nat (length c)) /\ space root m1 T fl us /\ xlocked ip c f1 /\
    forall x, 0 <= x -> ubyte m1 us x = loaded_upto c offset size va i (ubyte m us) x) (fun i => Z.to_nat ((size + PGSIZE - 1 - i) / PGSIZE))).
  - intros i s1 (m1 & f1 & -> & Hi & Himod & Hic & Hs1 & Hlk1 & Hub). destruct (decide (i < size)) as [Hlt|Hge].
    + eapply wp_mono; [apply (loadseg_body_wp root va ip c offset size i m1 f1 T fl us (ubyte m us) s); try done; lia|].
      intros r s2 (m2 & f2 & -> & Hs2 & Hlk2 & [(-> & Hle & Hub2)|[-> Hgt]]).
      * split; [|unfold PGSIZE in *; zdiv]. exists m2, f2. split_and!; try done; [lia|unfold PGSIZE in *; lia|unfold PGSIZE in *; zdiv|by right].
      * exists m2, f2. split_and!; try done. right. split_and!; [done|lia|done].
    + unfold loadseg_body. wstep. wfalse; [|done]. wsteps. split; [done|]. exists m1, f1. split_and!; try done. left. split_and!; [done| |].
      * destruct Hic as [->|Hic]; [left; lia|right; lia].
      * intros x Hx. rewrite Hub by done. unfold loaded_upto. by replace (Z.min i size) with size by lia.
  - exists m, f. split_and!; try done; [unfold PGSIZE; lia|by left|]. intros x Hx. unfold loaded_upto. rewrite Z.min_l by lia. by rewrite patch_nil.
  - rewrite Z.sub_0_r. lia.
Qed.

(** The space holds the image [im]. *)
Record holds root m T fl us im : Prop := {
  ho_space : space root m T fl us;
  ho_covers : covers (im_sz im) us;
  ho_user : user_pages us;
  ho_perm : us.*2 = im_perm im;
  ho_bytes : forall x, 0 <= x -> ubyte m us x = im_byte im x;
  ho_few : (length fl0 <= length fl + 3 * length us + 5)%nat
}.

(** Three pages for each page of [sz] bytes are more than there were. *)
Definition short (sz : Z) : Prop := PGSIZE * (Z.of_nat (length fl0) - 8) < 3 * sz.

Lemma covers_npages sz us : covers sz us -> npages sz = length us.
Proof using. intros [H1 H2]. unfold npages, PGSIZE in *. zdiv. Qed.

Lemma flags2perm_range g : 0 <= flags2perm g < 1024.
Proof using. unfold flags2perm. destruct (has_bits g 1), (has_bits g 2); by vm_compute. Qed.

Lemma user_perm g : has_bits (Z.lor (Z.lor PTE_R PTE_U) g) PTE_U = true.
Proof using. unfold PTE_U. rewrite has_bits_testbit, !Z.lor_spec by done. change (Z.testbit (Z.shiftl 1 4) 4) with true. by rewrite orb_true_r. Qed.

Lemma ubyte_beyond m us x : PGSIZE * Z.of_nat (length us) <= x -> ubyte m us x = 0.
Proof using. intros Hx. unfold ubyte. rewrite lookup_ge_None_2; [done|]. unfold PGSIZE in *. zdiv. Qed.

Lemma snd_pairs (ps : list Z) (c : Z) : ((fun p => (p, c)) <$> ps).*2 = replicate (length ps) c.
Proof using. induction ps as [|q ps IH]; [done|]. rewrite !fmap_cons. cbn [length replicate snd]. by rewrite IH. Qed.

Lemma grow_wp root m T fl us im newsz xperm L : holds root m T fl us im -> 0 <= newsz < 2 ^ 64 -> 0 <= xperm < 1024 -> avail [kmem_lock; ref_lock] L ->
  let perm := Z.lor (Z.lor PTE_R PTE_U) xperm in
  let sz := Z.max (im_sz im) newsz in
  wp (uvmalloc root (im_sz im) newsz xperm) L m (fun r m' => exists T' fl' us',
    r = sz /\ holds root m' T' fl' us' (mkImage sz (im_byte im) (im_perm im ++ replicate (npages sz - npages (im_sz im)) perm)) \/
    r = 0 /\ us' = us /\ space root m' T' fl' us /\ short sz).
Proof using All.
  intros [Hs Hc HU Hp Hb Hfew] Hn Hx HL perm sz. pose proof (space_bound m0 fl0 tf Hk0 Htf Htf0 _ _ _ _ _ Hs) as Hbd. pose proof (covers_npages _ _ Hc) as Hnp. destruct (decide (newsz < im_sz im)) as [Hlt|Hge].
  { assert (Esz : sz = im_sz im) by lia. unfold uvmalloc. wstep. wtrue; [|done]. wsteps. split; [done|]. exists T, fl, us. left. rewrite Esz. split; [done|]. rewrite Nat.sub_diag, app_nil_r. by split. }
  assert (Esz : sz = newsz) by lia. rewrite Esz in *.
  eapply wp_mono; [apply (uvmalloc_space_wp m0 fl0 tf Hk0 Htf Htf0 root m T fl us (im_sz im) newsz xperm L); try done; lia|].
  intros r m' (T' & fl' & [(ps & -> & Hc' & Hs' & Hub & Hl)|(-> & Hs' & _ & Hsh)]); cbv zeta in *; exists T', fl'.
  - fold perm in Hc', Hs', Hub. eexists. left. split; [done|]. pose proof (covers_npages _ _ Hc') as Hnp'. rewrite length_app, length_fmap in Hnp'. split; cbn [im_sz im_byte im_perm]; [exact Hs'|exact Hc'| | | |].
    + apply Forall_app. split; [done|]. apply Forall_fmap, Forall_forall. intros q _. apply user_perm.
    + rewrite fmap_app, Hp, Hnp, Hnp'. f_equal. replace (length us + length ps - length us)%nat with (length ps) by lia. apply snd_pairs.
    + intros x Hx0. rewrite <- Hb by done. destruct (decide (x < PGSIZE * Z.of_nat (length (us ++ ((fun p => (p, perm)) <$> ps))))) as [Hin|Hout].
      * rewrite Hub by lia. case_decide; [done|]. by rewrite ubyte_beyond by lia.
      * rewrite !ubyte_beyond; [done| |lia]. rewrite length_app in Hout. unfold PGSIZE in *. lia.
    + rewrite length_app, length_fmap. lia.
  - exists us. right. split_and!; try done. unfold short. unfold PGSIZE in *. lia.
Qed.

Lemma get_le_bound n off l : Forall is_byte l -> 0 <= get_le n off l < 256 ^ Z.of_nat n.
Proof using.
  intros Hl. unfold get_le. pose proof (le_value_range (take n (drop off l)) (Forall_take _ _ _ (Forall_drop _ _ _ Hl))) as Hr. split; [lia|].
  eapply Z.lt_le_trans; [apply Hr|]. apply Z.pow_le_mono_r; [lia|]. rewrite length_take. lia.
Qed.

(** How a round of the loop over the headers ends: with the next image, or with a
    space to free. *)
Definition round_end root ip c (next : option image) (st : Z -> Z * Z * Z) s (r : (Z * Z * Z) + (bool * Z)) s' : Prop :=
  exists m' f' T' fl' us', s' = with_mf m' f' s /\ xlocked ip c f' /\
    ((exists im', next = Some im' /\ r = inl (st (im_sz im')) /\ holds root m' T' fl' us' im') \/
     (exists sz', r = inr (false, sz') /\ space root m' T' fl' us' /\ covers sz' us' /\ (next = None \/ exists im', next = Some im' /\ short (im_sz im')))).

Lemma add_segment_wp root ip c ph m f T fl us im (st : Z -> Z * Z * Z) s :
  holds root m T fl us im -> xlocked ip c f -> 0 <= ph_vaddr ph < 2 ^ 64 -> 0 <= ph_memsz ph < 2 ^ 64 -> 0 <= ph_filesz ph ->
  wp (if decide (ph_type ph <> ELF_PROG_LOAD) then mret (inl (st (im_sz im)))
      else if decide (ph_memsz ph < ph_filesz ph) then mret (inr (false, im_sz im))
      else if decide (u64 (ph_vaddr ph + ph_memsz ph) < ph_vaddr ph) then mret (inr (false, im_sz im))
      else if decide (ph_vaddr ph mod PGSIZE <> 0) then mret (inr (false, im_sz im))
      else
        sz1 ← onmem (uvmalloc root (im_sz im) (u64 (ph_vaddr ph + ph_memsz ph)) (flags2perm (ph_flags ph)));
        if decide (sz1 = 0) then mret (inr (false, im_sz im))
        else
          r ← loadseg root (ph_vaddr ph) ip (u32 (ph_off ph)) (u32 (ph_filesz ph));
          if decide (r < 0) then mret (inr (false, sz1)) else mret (inl (st sz1))) [] (with_mf m f s)
    (round_end root ip c (add_segment c ph im) st s).
Proof using All.
  intros Hh Hlk Hv Hm Hf. pose proof Hh as [Hs Hc HU Hp Hb Hfew].
  assert (Hfail : add_segment c ph im = None -> round_end root ip c (add_segment c ph im) st s (inr (false, im_sz im)) (with_mf m f s)).
  { intros E. exists m, f, T, fl, us. split; [done|]. split; [done|]. right. exists (im_sz im). split_and!; try done. by left. }
  unfold add_segment in *. wstep. wcase as Hty.
  { wsteps. split; [done|]. exists m, f, T, fl, us. split; [done|]. split; [done|]. left. by exists im. }
  rewrite ?(decide_False (P := ph_type ph <> ELF_PROG_LOAD)) in * by done. wcase as Hmf; [wsteps; split; [done|]; apply Hfail; by rewrite decide_True by auto|].
  assert (Hov : u64 (ph_vaddr ph + ph_memsz ph) < ph_vaddr ph <-> 2 ^ 64 <= ph_vaddr ph + ph_memsz ph).
  { destruct (decide (2 ^ 64 <= ph_vaddr ph + ph_memsz ph)); [|rewrite u64_small by lia; lia]. unfold u64. split; [done|]. intros _. rewrite <- (Z.mod_add _ (-1)), Z.mod_small by lia. lia. }
  wcase as Hvf; [wsteps; split; [done|]; apply Hfail; by rewrite decide_True by (right; left; by apply Hov)|].
  wcase as Hva; [wsteps; split; [done|]; apply Hfail; by rewrite decide_True by auto|].
  assert (Hsum : ph_vaddr ph + ph_memsz ph < 2 ^ 64) by (rewrite Hov in Hvf; lia). rewrite u64_small by lia. assert (Hva0 : ph_vaddr ph mod PGSIZE = 0) by (destruct (decide (ph_vaddr ph mod PGSIZE = 0)); done).
  rewrite (decide_False (P := ph_memsz ph < ph_filesz ph \/ _)) in * by (intros [?|[?|?]]; [done|lia|done]). cbv zeta in *.
  set (sz := Z.max (im_sz im) (ph_vaddr ph + ph_memsz ph)) in *. set (n := u32 (ph_filesz ph)) in *. set (off := u32 (ph_off ph)) in *.
  wstep. eapply wpl_onmem; [apply (grow_wp root m T fl us im _ _ [] Hh); [lia|apply flags2perm_range|apply avail_nil]|]. fold sz.
  intros sz1 m1 (T1 & fl1 & us1 & [[-> Hh1]|(-> & -> & Hs1 & Hsh)]); clear Hfail.
  2:{ wtrue; [|done]. wsteps. split; [done|]. exists m1, f, T1, fl1, us. split; [done|]. split; [done|]. right. exists (im_sz im). split_and!; try done. case_decide; [by left|right]. by eexists. }
  pose proof Hh1 as [Hs1 Hc1 HU1 Hp1 Hb1 Hfew1]. cbn [im_sz im_byte im_perm] in *. wcase as Hz.
  { wsteps. split; [done|]. exists m1, f, T1, fl1, us1. split; [done|]. split; [done|]. right. exists (im_sz im). rewrite decide_True by auto. split_and!; try done; [|by left]. by replace (im_sz im) with sz by (destruct Hc; lia). }
  pose proof (u32_range (ph_filesz ph)) as Hn. fold n in Hn. assert (Hnf : n <= ph_filesz ph) by (unfold n, u32; apply Z.mod_le; lia). wstep.
  eapply wpl_call; [apply (loadseg_wp root (ph_vaddr ph) ip c off n m1 f T1 fl1 us1 s); try done; [lia|apply u32_range|lia|destruct Hc1; unfold sz in *; lia]|].
  intros r s2 (m2 & f2 & -> & Hs2 & Hlk2 & [(-> & Hlen & Hub2)|(-> & Hn0 & Hlen)]).
  - wfalse; [|lia]. wsteps. split; [done|]. exists m2, f2, T1, fl1, us1. split; [done|]. split; [done|]. left. rewrite decide_False by (intros [?|[? ?]]; [done|destruct Hlen; [done|lia]]). eexists. split; [done|]. split; [done|].
    split; try done. cbn [im_byte]. intros x Hx. rewrite Hub2 by done. apply patch_ext. by apply Hb1.
  - wtrue; [|lia]. wsteps. split; [done|]. exists m2, f2, T1, fl1, us1. split; [done|]. split; [done|]. right. exists sz. rewrite decide_True by auto. split_and!; try done. by left.
Qed.

Lemma load_body_wp root ip c elf i off m f T fl us im s : holds root m T fl us im -> xlocked ip c f -> i < e_phnum elf ->
  wp (load_body ip root elf (i, off, im_sz im)) [] (with_mf m f s) (round_end root ip c (next_segment c off im) (fun z => (i + 1, s32 (off + sizeof_proghdr), z)) s).
Proof using All.
  intros Hh Hlk Hi. destruct (xlocked_bytes _ _ _ Hlk) as [Hcb Hcl]. unfold load_body, next_segment. wstep. wtrue; [|done]. wstep. pose proof (u32_range off) as Hu.
  eapply wpl_onfiles; [apply (x_readi_wp ip c); [done|lia|unfold sizeof_proghdr; lia]|]. intros l f1 [-> Hlk1]. set (l := file_read c (u32 off) sizeof_proghdr). pose proof (file_read_bytes c (u32 off) sizeof_proghdr Hcb) as Hl. fold l in Hl.
  wcase as Hd.
  - wsteps. split; [done|]. exists m, f1, T, fl, us. split; [done|]. split; [done|]. right. exists (im_sz im). destruct Hh. split_and!; try done. by left.
  - pose proof (get_le_bound 8 16 l Hl) as R1. pose proof (get_le_bound 8 40 l Hl) as R2. pose proof (get_le_bound 8 32 l Hl) as R3.
    apply (add_segment_wp root ip c (proghdr_of l) m f1 T fl us im (fun z => (i + 1, s32 (off + sizeof_proghdr), z)) s); try done; apply R3.
Qed.


Lemma next_segment_mono c off im im' : next_segment c off im = Some im' -> im_sz im <= im_sz im'.
Proof using.
  unfold next_segment, add_segment. intros E. repeat (case_decide; simplify_eq; try lia). simpl. lia.
Qed.

Lemma add_segments_mono c n off im im' : add_segments c n off im = Some im' -> im_sz im <= im_sz im'.
Proof using.
  revert off im. induction n as [|n IH]; intros off im E; cbn [add_segments] in E; [by simplify_eq|].
  destruct (next_segment c off im) as [im1|] eqn:E1; [|done]. apply next_segment_mono in E1. apply IH in E. lia.
Qed.

Lemma load_program_wp root ip c elf m f T fl s : space root m T fl [] -> (length fl0 <= length fl + 5)%nat -> xlocked ip c f -> 0 <= e_phnum elf ->
  let whole := add_segments c (Z.to_nat (e_phnum elf)) (s32 (e_phoff elf)) empty_image in
  wp (load_program ip root elf) [] (with_mf m f s) (fun r s' => exists m' f' T' fl' us', s' = with_mf m' f' s /\ xlocked ip c f' /\
    ((exists im, whole = Some im /\ r = (true, im_sz im) /\ holds root m' T' fl' us' im) \/
     (exists sz', r = (false, sz') /\ space root m' T' fl' us' /\ covers sz' us' /\ (whole = None \/ exists im, whole = Some im /\ short (im_sz im))))).
Proof using All.
  intros Hs Hfew Hlk Hph whole. unfold load_program.
  assert (Hh0 : holds root m T fl [] empty_image). { split; try done; [constructor|simpl; lia]. }
  apply (wpl_loop (fun x s1 => exists i off im m1 f1 T1 fl1 us1, x = (i, off, im_sz im) /\ 0 <= i <= e_phnum elf /\ s1 = with_mf m1 f1 s /\ xlocked ip c f1 /\ holds root m1 T1 fl1 us1 im /\
    whole = add_segments c (Z.to_nat (e_phnum elf - i)) off im) (fun x => Z.to_nat (e_phnum elf - x.1.1))).
  - intros x s1 (i & off & im & m1 & f1 & T1 & fl1 & us1 & -> & Hi & -> & Hlk1 & Hh & Hwhole). cbn [fst]. destruct (decide (i < e_phnum elf)) as [Hlt|Hge].
    + eapply wp_mono; [by apply (load_body_wp root ip c elf i off m1 f1 T1 fl1 us1 im s)|].
      replace (Z.to_nat (e_phnum elf - i)) with (S (Z.to_nat (e_phnum elf - (i + 1)))) in Hwhole by lia. cbn [add_segments] in Hwhole.
      intros r s2 (m2 & f2 & T2 & fl2 & us2 & -> & Hlk2 & [(im2 & Hn & -> & Hh2)|(sz2 & -> & Hs2 & Hc2 & Hwhy)]).
      * split; [|cbn [fst]; lia]. rewrite Hn in Hwhole. exists (i + 1), (s32 (off + sizeof_proghdr)), im2, m2, f2, T2, fl2, us2. split_and!; try done; lia.
      * exists m2, f2, T2, fl2, us2. split; [done|]. split; [done|]. right. exists sz2. split_and!; try done. destruct Hwhy as [Hn|(im2 & Hn & Hsh)]; rewrite Hn in Hwhole; [by left|].
        simpl in Hwhole. destruct whole as [im3|]; [|by left]. right. exists im3. split; [done|]. symmetry in Hwhole. apply add_segments_mono in Hwhole. unfold short in *. lia.
    + unfold load_body. wstep. wfalse; [|done]. wsteps. split; [done|]. exists m1, f1, T1, fl1, us1. split; [done|]. split; [done|]. left. exists im. replace (Z.to_nat (e_phnum elf - i)) with O in Hwhole by lia. done.
  - exists 0, (s32 (e_phoff elf)), empty_image, m, f, T, fl, []. split_and!; try done. by rewrite Z.sub_0_r.
  - cbn [fst]. lia.
Qed.
End Loading.
