(* ===== verification/ExecRun.v ===== *)
(** kexec as a whole: the stack of the new program, the commit to it, and the ways
    out when something fails. *)
From S2P Require Import Prelude Riscv PhysMem Kalloc PageTable Vm VmFree Cow Shm UserMem CopyOut UserIface VmUser Block CStrings Sysfile Proc ProcSpec Asm Exec ExecSpace ExecSpec.
Local Open Scope Z_scope.

(** * The arguments *)
Section Stack.
Context `{KI : KernelImage} {F : Type} `{EF : ExecFiles F} `{ES : !ExecFilesSpec F}.
Context (m0 : mem) (fl0 : list Z) (tf : Z).
Hypothesis Hk0 : kmem_rep m0 fl0.
Hypothesis Htf : page_ok tf.
Hypothesis Htf0 : tf ∉ fl0.
Implicit Types (s : ptab F) (m : mem) (f : F) (T : ptree) (fl : list Z) (us : list (Z * Z)) (L : list lock).
Local Abbreviation space := (space m0 fl0 tf).

(** Strings that fit in a page each, and fewer than MAXARG of them. *)
Definition args_ok (argv : list (list Z)) : Prop :=
  Forall (fun a => Forall is_byte a /\ Z.of_nat (length a) < PGSIZE) argv /\ (length argv < MAXARG)%nat.

Lemma align16_spec x : align16 x <= x < align16 x + 16 /\ align16 x mod 16 = 0.
Proof using. unfold align16. zdiv. Qed.

(** A copy to the last page of the space. *)
Lemma push_bytes_wp root m f T fl us p g sp l L s : space root m T fl us -> us !! (length us - 1)%nat = Some (p, g) -> writable g ->
  PGSIZE * (Z.of_nat (length us) - 1) <= sp -> sp + Z.of_nat (length l) <= PGSIZE * Z.of_nat (length us) -> Forall is_byte l -> avail [kmem_lock; ref_lock] L ->
  wp (as_proc (cur s) (copyout root sp l)) L (with_mf m f s) (fun r s' => exists m', s' = with_mf m' f s /\ r = 0 /\ space root m' T fl us /\
    forall x, 0 <= x -> ubyte m' us x = patch sp l (ubyte m us) x).
Proof using All.
  intros Hs Hlast Hw Hlo Hhi Hby HL. pose proof (lookup_lt_Some _ _ _ Hlast) as Hlt.
  eapply wp_mono; [apply (wp_as_proc (cur s) _ L (with_mf m f s) (fun r m' => r = 0 /\ space root m' T fl us /\ forall x, 0 <= x -> ubyte m' us x = patch sp l (ubyte m us) x))|].
  - eapply wp_mono; [apply (copyout_space_wp m0 fl0 tf Hk0 Htf Htf0 _ root T fl us sp l L); [exact Hs|unfold PGSIZE in *; lia|done|done| |done]|].
    + intros j q h Hj Hge Hlt2. assert (j = length us - 1)%nat as ->; [|by rewrite Hlast in Hj; simplify_eq]. apply lookup_lt_Some in Hj. unfold PGSIZE in *. zdiv.
    + intros r v' (m' & -> & -> & Hs' & Hub). by exists m'.
  - intros r s' (m' & -> & -> & Hs' & Hub). by exists m'.
Qed.

Lemma push_strings_wp root m f T fl us p g argv (h : Z -> Z) s :
  let base := PGSIZE * (Z.of_nat (length us) - 1) in
  let top := PGSIZE * Z.of_nat (length us) in
  space root m T fl us -> us !! (length us - 1)%nat = Some (p, g) -> writable g -> (2 <= length us)%nat -> args_ok argv -> (forall x, 0 <= x -> ubyte m us x = h x) ->
  wp (loop (S (length argv)) (push_body root base argv) (O, top, [])) [] (with_mf m f s) (fun o s' => exists m', s' = with_mf m' f s /\ space root m' T fl us /\
    (o = None /\ push_strings base top argv h = None \/
     exists sp ustack h', o = Some (length argv, sp, ustack) /\ push_strings base top argv h = Some (ustack, sp, h') /\ base <= sp <= top /\ length ustack = length argv /\
       forall x, 0 <= x -> ubyte m' us x = h' x)).
Proof using All.
  intros base top Hs Hlast Hw H2 [Hargs Hlen] Hub. pose proof (space_bound m0 fl0 tf Hk0 Htf Htf0 _ _ _ _ _ Hs) as Hbd.
  apply (wpl_loop (fun x s1 => exists argc sp ustack m1 h1, x = (argc, sp, ustack) /\ (argc <= length argv)%nat /\ length ustack = argc /\ s1 = with_mf m1 f s /\ space root m1 T fl us /\ base <= sp <= top /\
    (forall x, 0 <= x -> ubyte m1 us x = h1 x) /\
    push_strings base top argv h = ('(u2, sp2, h2) ← push_strings base sp (drop argc argv) h1; Some (ustack ++ u2, sp2, h2))) (fun x => (length argv - x.1.1)%nat)).
  - intros x s1 (argc & sp & ustack & m1 & h1 & -> & Hac & Hul & -> & Hs1 & Hsp & Hub1 & Heq). cbn [fst]. unfold push_body. destruct (argv !! argc) as [arg|] eqn:Ha; last first.
    { wsteps. split; [done|]. exists m1. split; [done|]. split; [done|]. right. apply lookup_ge_None in Ha. rewrite drop_ge in Heq by lia. simpl in Heq. rewrite app_nil_r in Heq.
      exists sp, ustack, h1. assert (argc = length argv) as -> by lia. done. }
    pose proof (lookup_lt_Some _ _ _ Ha) as Hlt. rewrite (drop_S _ _ _ Ha) in Heq. cbn [push_strings] in Heq. cbv zeta in Heq. destruct (Forall_lookup_1 _ _ _ _ Hargs Ha) as [Hab Hal].
    wstep. rewrite decide_False by lia. rewrite u64_small by (unfold base, top, PGSIZE in *; lia). fold (align16 (sp - (Z.of_nat (length arg) + 1))). set (sp1 := align16 _) in *. pose proof (align16_spec (sp - (Z.of_nat (length arg) + 1))) as [Hal1 _]. fold sp1 in Hal1.
    wcase as Hd.
    { wsteps. split; [done|]. exists m1. split; [done|]. split; [done|]. left. split; [done|]. exact Heq. }
    wsteps. change (cur (with_mf m1 f s)) with (cur s).
    eapply wpl_call; [apply (push_bytes_wp root m1 f T fl us p g sp1 (arg ++ [0]) []); try done; [by unfold base in *; lia|rewrite length_app; simpl; unfold top in *; lia|apply Forall_app; split; [done|by repeat constructor]|apply avail_nil]|].
    intros r s2 (m2 & -> & -> & Hs2 & Hub2). wfalse; [|lia]. wsteps. split; [done|]. split; [|cbn [fst]; lia].
    exists (S argc), sp1, (ustack ++ [sp1]), m2, (patch sp1 (arg ++ [0]) h1). split_and!; try done; [rewrite length_app; simpl; lia|lia|lia| |].
    + intros x Hx. rewrite Hub2 by done. apply patch_ext. by apply Hub1.
    + rewrite Heq. destruct (push_strings base sp1 (drop (S argc) argv) _) as [[[u2 sp2] h2]|]; [|done]. simpl. by rewrite <- app_assoc.
  - exists O, top, [], m, h. split_and!; try done; [lia|unfold base, top, PGSIZE; lia|]. rewrite drop_0. by destruct (push_strings base top argv h) as [[[? ?] ?]|].
  - cbn [fst]. lia.
Qed.

Lemma concat_le_bytes (l : list Z) : length (concat (le_bytes 8 <$> l)) = (8 * length l)%nat /\ Forall is_byte (concat (le_bytes 8 <$> l)).
Proof using.
  induction l as [|x l [IH1 IH2]]; [split; [done|constructor]|]. rewrite fmap_cons. cbn [concat length]. rewrite length_app, length_le_bytes, IH1. split; [lia|].
  apply Forall_app. split; [apply le_bytes_is_byte|done].
Qed.

Lemma push_args_wp root m f T fl us p g argv (h : Z -> Z) s :
  let base := PGSIZE * (Z.of_nat (length us) - 1) in
  let top := PGSIZE * Z.of_nat (length us) in
  space root m T fl us -> us !! (length us - 1)%nat = Some (p, g) -> writable g -> (2 <= length us)%nat -> args_ok argv -> (forall x, 0 <= x -> ubyte m us x = h x) ->
  wp (push_args root top base argv) [] (with_mf m f s) (fun o s' => exists m', s' = with_mf m' f s /\ space root m' T fl us /\
    (o = None /\ push_argv base top argv h = None \/
     exists sp h', o = Some (length argv, sp) /\ push_argv base top argv h = Some (sp, h') /\ base <= sp < top /\ forall x, 0 <= x -> ubyte m' us x = h' x)).
Proof using All.
  intros base top Hs Hlast Hw H2 Hargs Hub. pose proof (space_bound m0 fl0 tf Hk0 Htf Htf0 _ _ _ _ _ Hs) as Hbd. unfold push_args. wstep. wstep. unfold push_argv.
  eapply wpl_call; [by apply (push_strings_wp root m f T fl us p g argv h s)|]. fold base top. intros o s1 (m1 & -> & Hs1 & [[-> Hn]|(sp & ustack & h1 & -> & Hps & Hsp & Hul & Hub1)]).
  { wsteps. split; [done|]. exists m1. split; [done|]. split; [done|]. left. by rewrite Hn. }
  rewrite Hps. pose proof (proj2 Hargs) as Hmax. unfold MAXARG in Hmax. rewrite decide_False by (unfold MAXARG; lia). rewrite u64_small by (unfold base, top, PGSIZE in *; lia).
  fold (align16 (sp - (Z.of_nat (length argv) + 1) * 8)). simpl mbind. set (sp1 := align16 _). pose proof (align16_spec (sp - (Z.of_nat (length argv) + 1) * 8)) as [Hal _]. fold sp1 in Hal. wcase as Hd.
  { wsteps. split; [done|]. exists m1. split; [done|]. split; [done|]. left. by rewrite ?decide_True. }
  wsteps. change (cur (with_mf m1 f s)) with (cur s). destruct (concat_le_bytes (ustack ++ [0])) as [Hcl Hcb]. rewrite length_app, Hul in Hcl. simpl in Hcl.
  eapply wpl_call; [apply (push_bytes_wp root m1 f T fl us p g sp1 _ [] s Hs1 Hlast Hw); [unfold base in *; lia|rewrite Hcl; unfold top in *; lia|done|apply avail_nil]|].
  intros r s2 (m2 & -> & -> & Hs2 & Hub2). wfalse; [|lia]. wsteps. split; [done|]. exists m2. split; [done|]. split; [done|]. right. eexists sp1, _. rewrite ?decide_False by done. split_and!; try done; try lia.
  intros x Hx. rewrite Hub2 by done. apply patch_ext. by apply Hub1.
Qed.
End Stack.

(** * The new image *)
Section Loaded.
Context `{KI : KernelImage}.
Context (tf : Z).
Implicit Types (m : mem) (T : ptree) (fl : list Z) (us : list (Z * Z)).

(** A table at [root] maps the pages [us], none of them shared, from address 0
    on, with the bytes [h], the trampoline and the trapframe, and nothing else. *)
Record loaded root m T us (h : Z -> Z) : Prop := {
  ld_rep : pt_rep m root T;
  ld_nodup : NoDup us.*1;
  ld_pages : forall p, p ∈ us.*1 -> page_ok p /\ (p ∉ pt_set T) /\ ref m p = 1;
  ld_ptes : forall j p g, us !! j = Some (p, g) -> pte_at m T (PGSIZE * Z.of_nat j) = pte_entry p g;
  ld_tramp : pte_at m T TRAMPOLINE = pte_entry trampoline (Z.lor PTE_R PTE_X);
  ld_tf : pte_at m T TRAPFRAME = pte_entry tf (Z.lor PTE_R PTE_W);
  ld_none : fixed_only m T (PGSIZE * Z.of_nat (length us));
  ld_bytes : forall x, 0 <= x -> ubyte m us x = h x
}.

Lemma loaded_agree X root m m' T us h : loaded root m T us h -> agree_off X m m' -> pt_set T ## X -> (forall p, p ∈ us.*1 -> p ∉ X) -> loaded root m' T us h.
Proof.
  intros [HT Hn Hp Hpt Htr Htf Hno Hb] Ha HX HX'. assert (Hpte : forall va, pte_at m' T va = pte_at m T va) by (intros va; by eapply pte_at_agree).
  assert (Hsame : forall p, p ∈ us.*1 -> same_page (ram m) (ram m') p /\ ref m' p = ref m p) by (intros p Hin; destruct (Hp p Hin) as ((? & _) & _); apply Ha; auto).
  split; try done.
  - by eapply pt_rep_agree.
  - intros p Hin. rewrite (proj2 (Hsame p Hin)). by apply Hp.
  - intros j p g Hj. rewrite Hpte. by apply Hpt.
  - by rewrite Hpte.
  - by rewrite Hpte.
  - intros va Hva H1 H2. rewrite Hpte. by apply Hno.
  - intros x Hx. rewrite <- Hb by done. apply ubyte_kept_same. intros p Hin. by apply Hsame.
Qed.

Lemma space_loaded m0 fl0 root m T fl us h : kmem_rep m0 fl0 -> page_ok tf -> tf ∉ fl0 -> space m0 fl0 tf root m T fl us -> (forall x, 0 <= x -> ubyte m us x = h x) -> loaded root m T us h.
Proof.
  intros Hk Htf Htf0 Hs Hb. pose proof Hs as [HT _ _ _ Hr Hpt Htr Ht Hno]. split; try done.
  - by pose proof (space_nodup m0 fl0 tf Hk Htf Htf0 _ _ _ _ _ Hs) as (_ & _ & (Hn & _)%NoDup_app)%NoDup_app.
  - intros p Hin. destruct (space_user m0 fl0 tf Hk Htf Htf0 _ _ _ _ _ Hs p Hin) as (? & ? & _). split_and!; try done. by apply Hr.
  - intros j p g Hj. by apply Hpt.
Qed.
End Loaded.

(** * The old image *)
Section Old.
Context `{KI : KernelImage}.
Implicit Types (m : mem) (T : ptree) (fl : list Z).

(** The table at [root] of a process of [sz] bytes with the trapframe [tf]. *)
Record old_space (tf root sz : Z) m T : Prop := {
  os_rep : pt_rep m root T;
  os_size : 0 <= sz <= PGROUNDUP sz;
  os_top : PGROUNDUP sz <= TRAPFRAME;
  os_free : freeable m T (upages m T 0 (upages_of sz));
  os_fixed : fixed_only m T (PGROUNDUP sz);
  os_tf : tf ∉ pt_set T;
  os_tf_user : tf ∉ upages m T 0 (upages_of sz)
}.

(** What it owns. *)
Definition old_pages m T sz : gset Z := pt_set T ∪ list_to_set (upages m T 0 (upages_of sz)).

Lemma old_space_agree X tf root sz m m' T : old_space tf root sz m T -> agree_off X m m' -> old_pages m T sz ## X ->
  old_space tf root sz m' T /\ upages m' T 0 (upages_of sz) = upages m T 0 (upages_of sz) /\ forall p, p ∈ upages m T 0 (upages_of sz) -> ref m' p = ref m p.
Proof.
  intros [HT Hsz Htop Hfr Hfx Ht1 Ht2] Ha HX. unfold old_pages in HX. assert (HX1 : pt_set T ## X) by set_solver.
  assert (Hpte : forall va, pte_at m' T va = pte_at m T va) by (intros va; by eapply pte_at_agree).
  assert (Hus : upages m' T 0 (upages_of sz) = upages m T 0 (upages_of sz)) by (apply upages_ext; intros; apply Hpte).
  assert (Hr : forall p, p ∈ upages m T 0 (upages_of sz) -> ref m' p = ref m p) by (intros p Hp; destruct (Hfr p Hp) as ((? & _) & _); apply Ha; [done|set_solver]).
  split; [|done]. split; rewrite ?Hus; try done.
  - by eapply pt_rep_agree.
  - intros p Hp. rewrite Hr by done. by apply Hfr.
  - intros va Hva H1 H2. rewrite Hpte. by apply Hfx.
Qed.

(** None of it is free. *)
Lemma old_used tf root sz m T fl p : old_space tf root sz m T -> kmem_rep m fl -> p ∈ old_pages m T sz -> p ∉ fl.
Proof.
  intros [HT _ _ Hfr _ _ _] Hk. unfold old_pages. rewrite elem_of_union, elem_of_list_to_set. intros [Hp|Hp] Hin; pose proof (rep_refs _ _ Hk p Hin) as H0.
  - apply elem_of_pt_set in Hp as [π Hp]. rewrite (pt_ref _ _ _ HT _ _ Hp) in H0. lia.
  - destruct (Hfr p Hp) as (_ & _ & Hc). apply cnt_elem_of in Hp. lia.
Qed.
End Old.

(** * The commit *)
Section Commit.
Context `{KI : KernelImage} {F : Type} `{EF : ExecFiles F} `{ES : !ExecFilesSpec F}.
Implicit Types (s : ptab F) (m : mem) (f : F) (T : ptree) (fl : list Z) (us : list (Z * Z)).

(** The process that runs the new image. *)
Definition switched (root sz : Z) (name : list Z) (p : proc) : proc := with_sz sz (with_pagetable root (with_name name p)).

(** Its trapframe: where it starts, its stack, and the address of argv. *)
Definition start_regs (tf entry sp : Z) m m' : Prop :=
  field m' tf TF_EPC = entry /\ field m' tf TF_SP = sp /\ field m' tf TF_A1 = sp /\
  forall o, 0 <= o < PGSIZE -> o mod 8 = 0 -> o ∉ [TF_EPC; TF_SP; TF_A1] -> field m' tf o = field m tf o.

Lemma field_same m m' q o : same_page (ram m) (ram m') q -> 0 <= o < PGSIZE -> o mod 8 = 0 -> field m' q o = field m q o.
Proof using. intros Hs Ho H8. unfold field. apply load_le_ext. intros i Hi. replace (q + o + i) with (q + (o + i)) by lia. symmetry. apply Hs. unfold PGSIZE in *. zdiv. Qed.

Lemma last_elem_nonzero path last : 0 ∉ path -> 0 ∉ last -> 0 ∉ last_elem path last.
Proof using.
  revert last. induction path as [|c path IH]; intros last Hp Hl; [done|]. apply not_elem_of_cons in Hp as [_ Hp]. simpl. apply IH; [done|]. by case_decide.
Qed.

Lemma wpl_tf_store m f s tf o v L Q : page_ok tf -> 0 <= o -> o + 8 <= PGSIZE ->
  Q tt L (with_mf (set_ram (fun r => store_le r (tf + o) 8 v) m) f s) -> wpl (onmem (store64 (tf + o) v)) L (with_mf m f s) Q.
Proof using.
  intros Hok H0 H1 HQ. unfold onmem. wstep. pose proof (page_ok_whole _ Hok) as Hram. apply wpl_store64; [unfold ram_ok in *; lia|]. exact HQ.
Qed.

Lemma switch_steps i root sz n m f s : on_proc i (with_sz sz) (on_proc i (with_pagetable root) (on_proc i (with_name n) (with_mf m f s))) = with_mf m f (on_proc i (switched root sz n) s).
Proof using. unfold on_proc, set_procs, with_mf, switched. simpl. f_equal. by rewrite !list_alter_alter_eq. Qed.

(** The two pages of the stack. *)
Lemma stack_pages us (perms : list Z) g : us.*2 = perms ++ replicate 2 g ->
  exists p p', us !! length perms = Some (p, g) /\ us !! S (length perms) = Some (p', g) /\ length us = (length perms + 2)%nat /\ (<[length perms := (p, no_user g)]> us).*2 = perms ++ [no_user g; g].
Proof using.
  intros E. assert (Hl : length us = (length perms + 2)%nat) by (rewrite <- (length_fmap snd us), E, length_app; done).
  assert (Hk : forall k, (k < 2)%nat -> exists p, us !! (length perms + k)%nat = Some (p, g)).
  { intros k Hk. destruct (lookup_lt_is_Some_2 us (length perms + k)) as [[p g'] Hp]; [lia|]. exists p. assert (Hg : us.*2 !! (length perms + k)%nat = Some g') by by rewrite list_lookup_fmap, Hp.
    rewrite E, lookup_app_r in Hg by lia. apply lookup_replicate in Hg as [-> _]. done. }
  destruct (Hk 0%nat) as [p Hp]; [lia|]. destruct (Hk 1%nat) as [p' Hp']; [lia|]. rewrite Nat.add_0_r in Hp. rewrite Nat.add_1_r in Hp'. exists p, p'. split_and!; try done.
  rewrite list_fmap_insert, E, insert_app_r_alt, Nat.sub_diag by lia. done.
Qed.

Lemma commit_image_wp m f s root sz entry sp path (tf := trapframe (proc_at (cur s) s)) L :
  page_ok tf -> length (pname (proc_at (cur s) s)) = 16%nat -> 0 ∉ path -> 0 <= entry < 2 ^ 64 -> 0 <= sp < 2 ^ 64 ->
  wp (commit_image (cur s) (proc_at (cur s) s) root sz entry sp path) L (with_mf m f s) (fun _ s' => exists m' n,
    s' = with_mf m' f (on_proc (cur s) (switched root sz n) s) /\ cstr n = Some (take 15 (last_elem path path)) /\
    agree_off {[tf]} m m' /\ freelist m' = freelist m /\ start_regs tf entry sp m m').
Proof using.
  intros Hok Hn Hp He Hsp. unfold commit_image. fold tf. wstep. wstep. apply wpl_tf_store; [done|done|done|].
  destruct (safestrcpy_spec (pname (proc_at (cur s) s)) (last_elem path path ++ [0]) 16 (last_elem path path)) as (n & -> & _ & Hc); [by apply cstr_at, last_elem_nonzero|lia|]. wsteps.
  unfold pset. wsteps. rewrite switch_steps. apply wpl_tf_store; [done|done|done|]. apply wpl_tf_store; [done|done|done|]. split; [done|]. eexists _, n. split; [done|]. split; [done|].
  assert (Ha : forall o v m, 0 <= o -> o + 8 <= PGSIZE -> o mod 8 = 0 -> agree_off {[tf]} m (set_ram (fun r => store_le r (tf + o) 8 v) m)).
  { intros o v m1 H0 H1 H8. pose proof (agree_store m1 tf (o / 8) v (proj1 Hok)) as Hag. replace (8 * (o / 8)) with o in Hag by zdiv. apply Hag. unfold PGSIZE in *. zdiv. }
  split. { eapply agree_off_trans; [by apply (Ha TF_A1)|]. eapply agree_off_trans; [by apply (Ha TF_EPC)|by apply (Ha TF_SP)]. } split; [done|].
  unfold start_regs, field, TF_EPC, TF_SP, TF_A1. simpl. split_and!.
  - rewrite load_store_le_ne by (simpl; lia). rewrite load_store_le. by apply Z.mod_small.
  - rewrite load_store_le. by apply Z.mod_small.
  - rewrite !load_store_le_ne by (simpl; lia). rewrite load_store_le. by apply Z.mod_small.
  - intros o _ H8 Ho. rewrite !not_elem_of_cons in Ho. rewrite !load_store_le_ne; [done|simpl; zdiv..].
Qed.
End Commit.

(** * The whole of kexec *)
Section Run.
Context `{KI : KernelImage} {F : Type} `{EF : ExecFiles F} `{ES : !ExecFilesSpec F}.
Context (s : ptab F) (fl0 : list Z) (T0 : ptree).
Local Abbreviation m0 := (pmem s).
Local Abbreviation p0 := (proc_at (cur s) s).
Local Abbreviation tf := (trapframe (proc_at (cur s) s)).
Local Abbreviation old_us := (upages m0 T0 0 (upages_of (sz p0))).
Hypothesis Hk0 : kmem_rep m0 fl0.
Hypothesis Htf : page_ok tf.
Hypothesis Htf0 : tf ∉ fl0.
Hypothesis Hname : length (pname p0) = 16%nat.
Hypothesis Hcur : (cur s < length (procs s))%nat.
Hypothesis Hold : old_space tf (pagetable p0) (sz p0) m0 T0.
Implicit Types (m : mem) (f : F) (T : ptree) (fl : list Z) (us : list (Z * Z)) (L : list lock) (im : image).
Local Abbreviation space := (space m0 fl0 tf).
Local Abbreviation holds := (holds m0 fl0 tf).

Definition stack_perm : Z := Z.lor (Z.lor PTE_R PTE_U) PTE_W.
Definition stack_top im : Z := PGSIZE * (Z.of_nat (npages (im_sz im)) + 2).

(** Failed: the memory is given back and the process as it was. *)
Definition unchanged (s' : ptab F) : Prop := exists m f, s' = with_mf m f s /\ given_back m0 fl0 m /\ xidle f.

(** Done: the process runs the image [im] from [entry] on, with the stack on top
    of it, and the pages of the old image are free unless others use them. *)
Record running (path : list Z) (entry : Z) im (sp : Z) (h : Z -> Z) (s' : ptab F) : Prop := {
  rn_state : exists root n, cstr n = Some (take 15 (last_elem path path)) /\ s' = with_mf (pmem s') (pfiles s') (on_proc (cur s) (switched root (stack_top im) n) s);
  rn_regs : start_regs tf entry sp m0 (pmem s');
  rn_image : exists T us fl, loaded tf (pagetable (proc_at (cur s) s')) (pmem s') T us h /\ us.*2 = im_perm im ++ [no_user stack_perm; stack_perm] /\ kmem_rep (pmem s') fl /\
    forall p, p ∈ fl <-> p ∈ fl0 /\ (p ∉ pt_set T) /\ (p ∉ us.*1) \/ p ∈ pt_set T0 \/ p ∈ old_us /\ cnt old_us p = ref m0 p;
  rn_shared : forall p, p ∈ old_us -> ref (pmem s') p = ref m0 p - cnt old_us p;
  rn_agree : agree_off (list_to_set fl0 ∪ {[tf]} ∪ old_pages m0 T0 (sz p0)) m0 (pmem s');
  rn_idle : xidle (pfiles s')
}.

Lemma root_pos root m T fl us : space root m T fl us -> root <> 0.
Proof using All. intros Hs. pose proof (page_ok_pos _ (pt_page _ _ _ (sp_rep _ _ _ _ _ _ _ _ Hs) _ _ (pt_root _ _ _ (sp_rep _ _ _ _ _ _ _ _ Hs)))). unfold KERNBASE in *. lia. Qed.

Lemma bad_wp root m f T fl us sz : space root m T fl us -> covers sz us -> xidle f -> wp (bad root sz None) [] (with_mf m f s) (fun r s' => r = -1 /\ unchanged s').
Proof using All.
  intros Hs Hc Hx. pose proof (root_pos _ _ _ _ _ Hs) as Hr. unfold bad. wstep. wtrue; [|done]. wstep.
  eapply wpl_call; [apply (free_space_wp m0 fl0 tf Hk0 Htf Htf0 root (with_mf m f s) T fl us sz []); [exact Hs|done|apply avail_nil]|]. intros u s' (m' & -> & Hb). wsteps. split; [done|]. split; [done|]. by exists m', f.
Qed.

Lemma bad_close_wp m f ip c : given_back m0 fl0 m -> xlocked ip c f -> wp (bad 0 0 (Some ip)) [] (with_mf m f s) (fun r s' => r = -1 /\ unchanged s').
Proof using.
  intros Hb Hx. unfold bad. wstep. wfalse; [|by intros ?]. wsteps. eapply wpl_onfiles; [by eapply x_iunlockput_wp|]. intros u1 f1 H1. eapply wpl_onfiles; [by apply x_end_op_wp|]. intros u2 f2 H2.
  wsteps. split; [done|]. split; [done|]. by exists m, f2.
Qed.

Lemma bad_open_wp root m f T fl us sz ip c : space root m T fl us -> covers sz us -> xlocked ip c f -> wp (bad root sz (Some ip)) [] (with_mf m f s) (fun r s' => r = -1 /\ unchanged s').
Proof using All.
  intros Hs Hc Hx. pose proof (root_pos _ _ _ _ _ Hs) as Hr. unfold bad. wstep. wtrue; [|done]. wstep.
  eapply wpl_call; [apply (free_space_wp m0 fl0 tf Hk0 Htf Htf0 root (with_mf m f s) T fl us sz []); [exact Hs|done|apply avail_nil]|]. intros u s' (m' & -> & Hb). exact (bad_close_wp m' f ip c Hb Hx).
Qed.

Lemma old_off fl' : (forall p, p ∈ fl' -> p ∈ fl0) -> old_pages m0 T0 (sz p0) ## list_to_set fl' ∪ {[tf]}.
Proof using All.
  intros Hsub p Hp. rewrite elem_of_union, elem_of_list_to_set, elem_of_singleton. intros [Hin| ->].
  - by apply (old_used _ _ _ _ _ _ _ Hold Hk0 Hp), Hsub.
  - unfold old_pages in Hp. rewrite elem_of_union, elem_of_list_to_set in Hp. destruct Hold. tauto.
Qed.

Lemma finish_wp root m f T fl us im sp h entry path (argc : Z) : space root m T fl us -> (forall x, 0 <= x -> ubyte m us x = h x) -> us.*2 = im_perm im ++ [no_user stack_perm; stack_perm] ->
  xidle f -> 0 <= entry < 2 ^ 64 -> 0 <= sp < 2 ^ 64 -> 0 ∉ path ->
  wp (commit_image (cur s) p0 root (stack_top im) entry sp path;; proc_freepagetable (pagetable p0) (sz p0);; mret argc) [] (with_mf m f s) (fun r s' => r = argc /\ running path entry im sp h s').
Proof using All.
  intros Hs Hub Hperm Hx He Hsp Hp. pose proof (space_in m0 fl0 tf Hk0 Htf Htf0 _ _ _ _ _ Hs) as Hin. pose proof (space_nodup m0 fl0 tf Hk0 Htf Htf0 _ _ _ _ _ Hs) as (_ & Hd1 & (_ & Hd2 & _)%NoDup_app)%NoDup_app.
  wstep. wstep. eapply wpl_call; [by apply commit_image_wp|]. intros u s1 (m1 & n & -> & Hn & Ha1 & Hfl1 & Hregs).
  assert (Hag : agree_off (list_to_set fl0 ∪ {[tf]}) m0 m1) by (eapply agree_off_trans; [eapply agree_off_mono; [apply (sp_agree _ _ _ _ _ _ _ _ Hs)|set_solver]|eapply agree_off_mono; [exact Ha1|set_solver]]).
  destruct (old_space_agree _ _ _ _ _ _ _ Hold Hag) as (Hold1 & Hus1 & Href1); [by apply old_off|].
  assert (Hk1 : kmem_rep m1 fl). { eapply kmem_rep_agree; [exact Ha1|done| |apply (sp_kmem _ _ _ _ _ _ _ _ Hs)]. intros p Hpf ->%elem_of_singleton. apply Htf0, Hin. auto. }
  assert (Hl1 : loaded tf root m1 T us h).
  { eapply loaded_agree; [eapply space_loaded; [exact Hk0|done|done|exact Hs|done]|exact Ha1| |].
    - intros p Hpt ->%elem_of_singleton. apply Htf0, Hin. auto.
    - intros p Hpu ->%elem_of_singleton. apply Htf0, Hin. auto. }
  wstep. set (s1 := with_mf m1 f _). eapply wpl_call; [apply (proc_freepagetable_wp (pagetable p0) (sz p0) s1 T0 fl []); try apply Hold1; [exact Hk1|apply avail_nil]|]. clear Hold1.
  cbv zeta. change (pmem s1) with m1. rewrite Hus1. intros u' s2 (m2 & fl2 & -> & Hk2 & Hin2 & Hr2 & Ha2). wsteps. split; [done|]. split; [done|].
  assert (Hnew : forall p, p ∈ fl0 -> p ∉ pt_set T0 ∪ list_to_set old_us) by (intros p Hpf Hpo; by apply (old_used _ _ _ _ _ _ _ Hold Hk0 Hpo)).
  assert (Htfo : tf ∉ pt_set T0 ∪ list_to_set old_us) by (pose proof (old_off fl0 (fun _ H => H)) as Ho; unfold old_pages in Ho; set_solver).
  change (over m2 s1) with (with_mf m2 f (on_proc (cur s) (switched root (stack_top im) n) s)). split; cbn [pmem pfiles with_mf].
  - by exists root, n.
  - destruct (Ha2 tf (proj1 Htf) Htfo) as [Hs2 _]. destruct (sp_agree _ _ _ _ _ _ _ _ Hs tf (proj1 Htf)) as [Hs0 _]; [by rewrite elem_of_list_to_set|].
    destruct Hregs as (R1 & R2 & R3 & R4). unfold start_regs. rewrite !(field_same _ _ _ _ Hs2) by done. split_and!; [done..|]. intros o Ho H8 Hne. rewrite (field_same _ _ _ _ Hs2), R4 by done. by apply field_same.
  - exists T, us, fl2. split.
    + assert (Hpt : pagetable (proc_at (cur s) (with_mf m2 f (on_proc (cur s) (switched root (stack_top im) n) s))) = root).
      { unfold proc_at. simpl. rewrite (nth_lookup_Some _ _ _ (switched root (stack_top im) n p0)); [done|]. rewrite list_lookup_alter_eq. unfold proc_at. destruct (lookup_lt_is_Some_2 _ _ Hcur) as [q Hq]. by rewrite Hq, (nth_lookup_Some _ _ _ _ Hq). }
      rewrite Hpt. eapply loaded_agree; [exact Hl1|exact Ha2| |]; intros p Hpi; [intros Hpo; eapply Hnew; [|exact Hpo]; apply Hin; auto|apply Hnew, Hin; auto].
    + split; [done|]. split; [done|]. intros p. rewrite Hin2, Hin. split.
      * intros [Hpf|[Hpt|[Hpo Hc]]]; [left|auto|right; right; by rewrite <- Href1]. split; [auto|]. split; intros Hpi; [apply (Hd1 p); [by apply elem_of_elements|apply elem_of_app; auto]|by apply (Hd2 p)].
      * intros [[[?|[?|?]] [? ?]]|[?|[Hpo Hc]]]; auto; [done..|right; right; by rewrite Href1].
  - intros p Hpo. by rewrite Hr2, Href1.
  - eapply agree_off_trans; [eapply agree_off_mono; [exact Hag|set_solver]|eapply agree_off_mono; [exact Ha2|unfold old_pages; set_solver]].
  - done.
Qed.
(** Why kexec fails after the program is known to be right: no memory, or no room
    for the arguments. *)
Definition no_room im (argv : list (list Z)) : Prop :=
  short fl0 (stack_top im) \/ push_argv (stack_top im - PGSIZE) (stack_top im) argv (im_byte im) = None.

Lemma start_program_wp root m f T fl us im entry path argv : holds root m T fl us im -> xidle f -> 0 <= entry < 2 ^ 64 -> 0 ∉ path -> args_ok argv ->
  wp (start_program root (im_sz im) entry path argv) [] (with_mf m f s) (fun r s' =>
    r = -1 /\ unchanged s' /\ no_room im argv \/
    exists sp h, push_argv (stack_top im - PGSIZE) (stack_top im) argv (im_byte im) = Some (sp, h) /\ r = Z.of_nat (length argv) /\ running path entry im sp h s').
Proof using All.
  intros [Hs Hc HU Hpm Hb Hfew] Hx He Hp Hargs. pose proof (space_bound m0 fl0 tf Hk0 Htf Htf0 _ _ _ _ _ Hs) as Hbd. pose proof (covers_npages _ _ Hc) as Hnp.
  pose proof (covers_round m0 fl0 tf Hk0 Htf Htf0 _ _ _ _ _ _ Hs Hc) as Hup. set (top := PGSIZE * Z.of_nat (length us)) in *. assert (Htop : stack_top im = top + 2 * PGSIZE) by (unfold stack_top, top; rewrite Hnp; lia).
  assert (Hh : holds root m T fl us (mkImage top (im_byte im) (im_perm im))) by (split; try done; cbn [im_sz]; unfold covers, top, PGSIZE; lia).
  assert (Hc' : covers top us) by apply Hh. assert (Ht64 : 0 <= top /\ top + 2 * PGSIZE < 2 ^ 38 /\ 0 < PGSIZE) by (unfold top, PGSIZE; lia).
  assert (Hpl : length (im_perm im) = length us) by (rewrite <- Hpm, length_fmap; done).
  unfold start_program. wsteps. change (cur (with_mf m f s)) with (cur s). unfold pof. wsteps. change (proc_at (cur s) (with_mf m f s)) with p0. rewrite Hup. change (USERSTACK + 1) with 2. rewrite u64_small by lia.
  eapply wpl_onmem; [apply (grow_wp m0 fl0 tf Hk0 Htf Htf0 root m T fl us (mkImage top (im_byte im) (im_perm im)) (top + 2 * PGSIZE) PTE_W []); [exact Hh|lia|by vm_compute|apply avail_nil]|].
  cbn [im_sz im_byte im_perm]. rewrite Z.max_r by lia. intros r m1 (T1 & fl1 & us1 & [[-> Hh1]|(-> & -> & Hs1 & Hsh)]).
  2:{ wtrue; [|done]. eapply wpl_call; [by apply (bad_wp root m1 f T1 fl1 us top)|]. intros r s' [-> Hun]. split; [done|]. left. split; [done|]. split; [done|]. left. by rewrite Htop. }
  wfalse; [|lia]. pose proof Hh1 as [Hs1 Hc1 HU1 Hpm1 Hb1 _]. cbn [im_sz im_byte im_perm] in *. pose proof (covers_npages _ _ Hc1) as Hnp1. pose proof (covers_npages _ _ Hc') as Hnp'.
  replace (npages (top + 2 * PGSIZE) - npages top)%nat with 2%nat in Hpm1 by (rewrite Hnp', Hnp1; destruct Hc1; unfold top, PGSIZE in *; lia). fold stack_perm in Hpm1.
  destruct (stack_pages us1 _ _ Hpm1) as (p & p' & Hg & Hst & Hl1 & Hpm2). rewrite Hpl in *. wstep. replace (u64 (top + 2 * PGSIZE - 2 * PGSIZE)) with top by (rewrite u64_small; lia).
  eapply wpl_onmem; [apply (uvmclear_space_wp m0 fl0 tf Hk0 Htf Htf0 root m1 T1 fl1 us1 (length us) p stack_perm []); [exact Hs1|done|apply avail_nil]|]. cbv zeta.
  set (us2 := <[length us := _]> us1) in *. assert (Hl2 : length us2 = (length us + 2)%nat) by (unfold us2; by rewrite length_insert).
  intros u m2 [Hs2 Hub2]. wstep. replace (u64 (top + 2 * PGSIZE - USERSTACK * PGSIZE)) with (stack_top im - PGSIZE) by (change USERSTACK with 1; rewrite u64_small; lia).
  rewrite <- Htop. pose proof (push_args_wp m0 fl0 tf Hk0 Htf Htf0 root m2 f T1 fl1 us2 p' stack_perm argv (im_byte im) s Hs2) as Hpush. cbv zeta in Hpush.
  replace (PGSIZE * Z.of_nat (length us2)) with (stack_top im) in Hpush by (rewrite Hl2, Htop; unfold top; lia). replace (PGSIZE * (Z.of_nat (length us2) - 1)) with (stack_top im - PGSIZE) in Hpush by (rewrite Hl2, Htop; unfold top; lia).
  assert (Hct : covers (stack_top im) us2) by (unfold covers; rewrite Hl2, Htop; unfold top, PGSIZE; lia).
  eapply wpl_call; [apply Hpush|].
  - unfold us2. rewrite length_insert, Hl1, list_lookup_insert_ne by lia. by replace (length us + 2 - 1)%nat with (S (length us)) by lia.
  - by split.
  - lia.
  - done.
  - intros x Hx0. rewrite Hub2. by apply Hb1.
  - intros o s3 (m3 & -> & Hs3 & [[-> Hnone]|(sp & h & -> & Hsome & Hspr & Hub3)]).
    + eapply wpl_call; [by apply (bad_wp root m3 f T1 fl1 us2 (stack_top im))|]. intros r s' [-> Hun]. split; [done|]. left. split; [done|]. split; [done|]. by right.
    + eapply wpl_call; [apply (finish_wp root m3 f T1 fl1 us2 im sp h entry path (Z.of_nat (length argv))); try done; lia|]. intros r s' [-> Hrun]. split; [done|]. right. by exists sp, h.
Qed.

(** kexec with a program file of the bytes [c]. *)
Lemma load_and_start_wp ip c f path argv : xlocked ip c f -> 0 ∉ path -> args_ok argv ->
  wp (load_and_start ip path argv) [] (with_mf m0 f s) (fun r s' =>
    r = -1 /\ unchanged s' /\ (program c = None \/ exists entry im, program c = Some (entry, im) /\ no_room im argv) \/
    exists entry im sp h, program c = Some (entry, im) /\ push_argv (stack_top im - PGSIZE) (stack_top im) argv (im_byte im) = Some (sp, h) /\
      r = Z.of_nat (length argv) /\ running path entry im sp h s').
Proof using All.
  intros Hlk Hp Hargs. destruct (xlocked_bytes _ _ _ Hlk) as [Hcb Hcl]. unfold load_and_start. wstep. wstep.
  eapply wpl_onfiles; [apply (x_readi_wp ip c); [done|lia|done]|]. intros l f1 [-> Hlk1]. pose proof (file_read_bytes c 0 sizeof_elfhdr Hcb) as Hl.
  assert (Hback : given_back m0 fl0 m0) by (exists fl0; split_and!; [done|done|apply agree_off_refl]).
  remember (program c) as prog eqn:Hprog. unfold program in Hprog. cbv zeta in Hprog. wcase as Hlen.
  { eapply wpl_call; [by apply (bad_close_wp m0 f1 ip c)|]. intros r s' [-> Hun]. split; [done|]. left. split; [done|]. split; [done|]. by left. }
  wcase as Hmag.
  { eapply wpl_call; [by apply (bad_close_wp m0 f1 ip c)|]. intros r s' [-> Hun]. split; [done|]. left. split; [done|]. split; [done|]. by left. }
  set (elf := elfhdr_of (file_read c 0 sizeof_elfhdr)) in *. wsteps. change (cur (with_mf m0 f1 s)) with (cur s).
  eapply wpl_call; [apply (proc_pagetable_wp m0 fl0 tf Hk0 Htf Htf0 (cur s) (with_mf m0 f1 s) []); [done|done|apply avail_nil]|]. intros root s1 (m1 & -> & [(-> & Hb1 & Hfew)|(Hr & T1 & fl1 & Hs1 & Hfew)]); change (over m1 (with_mf m0 f1 s)) with (with_mf m1 f1 s).
  { wtrue; [|done]. eapply wpl_call; [by apply (bad_close_wp m1 f1 ip c)|]. intros r s' [-> Hun]. split; [done|]. left. split; [done|]. split; [done|]. clear Hprog. destruct prog as [[entry im]|]; [right|by left].
    exists entry, im. split; [done|]. left. unfold short, stack_top, PGSIZE. lia. }
  wfalse; [|done]. wstep. eapply wpl_call; [apply (load_program_wp m0 fl0 tf Hk0 Htf Htf0 root ip c elf m1 f1 T1 fl1 s); [done|done|done|apply get_le_bound; done]|].
  intros r s2 (m2 & f2 & T2 & fl2 & us2 & -> & Hlk2 & [(im & Him & -> & Hh)|(sz' & -> & Hs2 & Hc2 & Hwhy)]); cbn [fst snd].
  - wsteps. eapply wpl_onfiles; [by eapply x_iunlockput_wp|]. intros u3 f3 H3. wstep. eapply wpl_onfiles; [by apply x_end_op_wp|]. intros u4 f4 H4. rewrite Him in Hprog. simpl in Hprog.
    eapply wpl_call; [apply (start_program_wp root m2 f4 T2 fl2 us2 im (e_entry elf) path argv); try done; apply (get_le_bound 8 24); done|].
    intros r s3 [(-> & Hun & Hno)|(sp & h & Hpa & -> & Hrun)]; (split; [done|]); [left|right].
    + split; [done|]. split; [done|]. right. by exists (e_entry elf), im.
    + by exists (e_entry elf), im, sp, h.
  - eapply wpl_call; [by apply (bad_open_wp root m2 f2 T2 fl2 us2 sz' ip c)|]. intros r s3 [-> Hun]. split; [done|]. left. split; [done|]. split; [done|].
    destruct Hwhy as [Hw|(im & Him & Hsh)]; [left; rewrite Hprog, Hw; done|right]. exists (e_entry elf), im. split; [by rewrite Hprog, Him|]. left. unfold short, stack_top, npages, PGSIZE in *. zdiv.
Qed.
(** C5. exec either fails with -1, leaves the process as it was and gives back every
    page it took, and then the file does not exist, is not a valid executable, or
    memory or the room for the arguments was short; or it returns the number of
    arguments, and the process has exactly the image of the executable in pages of
    its own with the permissions of its segments, a guard page, a stack page with
    the argument strings and their array, its trapframe set to start at the entry
    point with that stack, and the pages of the old image are freed unless shared. *)
Theorem kexec_correct path argv : xidle (pfiles s) -> 0 ∉ path -> args_ok argv ->
  wp (kexec path argv) [] s (fun r s' =>
    r = -1 /\ unchanged s' /\
      (file_at (pfiles s) path = None \/
       exists c, file_at (pfiles s) path = Some c /\ (program c = None \/ exists entry im, program c = Some (entry, im) /\ no_room im argv)) \/
    exists c entry im sp h, file_at (pfiles s) path = Some c /\ program c = Some (entry, im) /\
      push_argv (stack_top im - PGSIZE) (stack_top im) argv (im_byte im) = Some (sp, h) /\
      r = Z.of_nat (length argv) /\ running path entry im sp h s').
Proof using All.
  intros Hx Hp Hargs. assert (Es : s = with_mf m0 (pfiles s) s) by by destruct s. unfold kexec. rewrite Es at 1. wstep. wstep.
  eapply wpl_onfiles; [by apply x_begin_op_wp|]. intros u f1 [Hop Hfa]. wstep. eapply wpl_onfiles; [by apply x_namei_wp|]. intros o f2. rewrite Hfa. intros Ho.
  destruct o as [ip|], (file_at (pfiles s) path) as [c|] eqn:Hf; try done.
  - wstep. eapply wpl_onfiles; [by eapply x_ilock_wp|]. intros u3 f3 Hlk. eapply wpl_call; [by apply (load_and_start_wp ip c f3 path argv)|].
    intros r s' [(-> & Hun & Hwhy)|(entry & im & sp & h & H1 & H2 & -> & H4)]; (split; [done|]); [left|right].
    + split; [done|]. split; [done|]. right. by exists c.
    + by exists c, entry, im, sp, h.
  - wstep. eapply wpl_onfiles; [by apply x_end_op_wp|]. intros u3 f3 H3. wsteps. split; [done|]. left. split; [done|]. split; [|by left].
    exists m0, f3. split; [done|]. split; [|done]. exists fl0. split_and!; [done|done|apply agree_off_refl].
Qed.
End Run.
