(* ===== verification/ExecSample.v ===== *)
(** A process that runs a program: the witness of the theorem on kexec.  The process
    is that of [TrapSample]; the file system keeps the files in a list and checks
    the order of the calls. *)
From S2P Require Import Prelude Riscv PhysMem Kalloc PageTable Vm VmFree Cow Shm Fork UserMem CopyOut VmSample UserIface VmUser Block CStrings Asm Proc ProcSample TrapSample Exec ExecSpace ExecSpec ExecRun.
Local Open Scope Z_scope.
Import VmSample.Machine Kalloc.Sample.

Inductive stage := Idle | Op | Held (ip : nat) | Locked (ip : nat).
#[export] Instance stage_eq_dec : EqDecision stage.
Proof. solve_decision. Defined.

Record listfs := mkListfs { files : list (list Z * list Z); at_stage : stage }.

Definition to_stage (a b : stage) : M listfs unit :=
  x ← gets at_stage; if decide (x = a) then modify (fun s => mkListfs (files s) b) else undef "stage".

Fixpoint find_file (path : list Z) (l : list (list Z * list Z)) : option nat :=
  match l with
  | [] => None
  | (n, _) :: l => if decide (n = path) then Some O else S <$> find_file path l
  end.

Definition content (ip : nat) (s : listfs) : list Z := default [] (snd <$> files s !! ip).

#[export] Instance list_files : ExecFiles listfs := {
  x_begin_op := to_stage Idle Op;
  x_namei path := (o ← gets (fun s => find_file path (files s)); match o with Some ip => to_stage Op (Held ip);; mret (Some ip) | None => mret None end);
  x_ilock ip := to_stage (Held ip) (Locked ip);
  x_readi ip off n := to_stage (Locked ip) (Locked ip);; gets (fun s => file_read (content ip s) off n);
  x_iunlockput ip := to_stage (Locked ip) Op;
  x_end_op := to_stage Op Idle
}.

Definition listfs_ok (s : listfs) : Prop := Forall (fun x => Forall is_byte x.2 /\ Z.of_nat (length x.2) < 2 ^ 31) (files s).
Definition stands (x : stage) (s : listfs) : Prop := at_stage s = x /\ listfs_ok s.

Lemma to_stage_wp a b s : stands a s -> wp (to_stage a b) [] s (fun _ s' => stands b s' /\ files s' = files s).
Proof. intros [Ha Hok]. unfold to_stage. wsteps. wtrue; [|done]. wsteps. by repeat split. Qed.

Lemma find_file_lt path l ip : find_file path l = Some ip -> (ip < length l)%nat.
Proof.
  revert ip. induction l as [|[n c] l IH]; intros ip; simpl; [done|]. case_decide; [intros [= <-]; lia|]. intros (k & Hk & ->)%fmap_Some. specialize (IH _ Hk). lia.
Qed.

#[export] Program Instance list_files_spec : ExecFilesSpec listfs := {
  xidle := stands Idle;
  xop := stands Op;
  xheld ip c s := stands (Held ip) s /\ (ip < length (files s))%nat /\ content ip s = c;
  xlocked ip c s := stands (Locked ip) s /\ (ip < length (files s))%nat /\ content ip s = c;
  file_at s path := (fun ip => content ip s) <$> find_file path (files s)
}.
Next Obligation.
  intros ip c s [[_ Hok] [Hlt <-]]. unfold content. destruct (lookup_lt_is_Some_2 _ _ Hlt) as [x Hx]. rewrite Hx. exact (Forall_lookup_1 _ _ _ _ Hok Hx).
Qed.
Next Obligation. intros s Hs. eapply wp_mono; [by apply to_stage_wp|]. intros u s' [Hs' Hf]. split; [done|]. unfold content. by rewrite Hf. Qed.
Next Obligation.
  intros path s Hs. simpl. wsteps. destruct (find_file path (files s)) as [ip|] eqn:E; simpl; [|by wsteps].
  wstep. eapply wpl_call; [by apply to_stage_wp|]. intros u s' [Hs' Hf]. wsteps. split; [done|]. unfold content. rewrite Hf. split; [done|]. split; [by eapply find_file_lt|done].
Qed.
Next Obligation. intros ip c s [Hs [Hlt Hc]]. eapply wp_mono; [by apply to_stage_wp|]. intros u s' [Hs' Hf]. unfold content in *. rewrite Hf. done. Qed.
Next Obligation.
  intros ip c off n s [Hs [Hlt Hc]] _ _. simpl. wsteps. eapply wpl_call; [by apply to_stage_wp|]. intros u s' [Hs' Hf]. wsteps. split; [done|]. unfold content in *. rewrite Hf, Hc. done.
Qed.
Next Obligation. intros ip c s [Hs _]. eapply wp_mono; [by apply to_stage_wp|]. by intros u s' [Hs' _]. Qed.
Next Obligation. intros s Hs. eapply wp_mono; [by apply to_stage_wp|]. by intros u s' [Hs' _]. Qed.

(** An executable with one segment of four bytes, eight in memory, at address 0. *)
Definition sample_elf : list Z :=
  le_bytes 4 ELF_MAGIC ++ replicate 12 0 ++ le_bytes 2 2 ++ le_bytes 2 243 ++ le_bytes 4 1 ++ le_bytes 8 2 ++ le_bytes 8 64 ++ le_bytes 8 0 ++ le_bytes 4 0 ++
  le_bytes 2 64 ++ le_bytes 2 56 ++ le_bytes 2 1 ++ le_bytes 2 0 ++ le_bytes 2 0 ++ le_bytes 2 0 ++
  le_bytes 4 ELF_PROG_LOAD ++ le_bytes 4 5 ++ le_bytes 8 120 ++ le_bytes 8 0 ++ le_bytes 8 0 ++ le_bytes 8 4 ++ le_bytes 8 8 ++ le_bytes 8 4096 ++
  [19; 5; 112; 0].

Definition echo_path : list Z := [47; 101].
Definition exec_state : ptab listfs :=
  mkPtab ([init_proc; faulting; child] ++ replicate 61 free_proc) 1 (Some 0%nat) 4 fault_memory [] (mkListfs [(echo_path, sample_elf)] Idle).

Lemma sample_old : old_space (pg 3) (pg 0) PGSIZE fault_memory fault_tree.
Proof.
  assert (Hus : upages fault_memory fault_tree 0 (upages_of PGSIZE) = [pg 4]) by by vm_compute. split; rewrite ?Hus.
  - exact fault_rep.
  - split; by vm_compute.
  - by vm_compute.
  - intros p ->%list_elem_of_singleton. split; [repeat split; by vm_compute|]. split; [apply (bool_decide_unpack _); by vm_compute|by vm_compute].
  - intros va Hva H1 H2. destruct (has_bits (pte_at fault_memory fault_tree va) PTE_V) eqn:HV; [|done]. change (PGROUNDUP PGSIZE) with PGSIZE in Hva.
    assert (Hva0 : 0 <= va < VASPACE) by (unfold PGSIZE in *; lia). pose proof (pte_at_leaf _ _ _ Hva0 HV) as Hin. rewrite fault_leaves in Hin. rewrite !elem_of_cons, elem_of_nil in Hin.
    destruct Hin as [[= E _]|[[= E _]|[]]]; [by destruct H2|]. unfold PGSIZE in *. zdiv.
  - apply (bool_decide_unpack _). by vm_compute.
  - apply (bool_decide_unpack _). by vm_compute.
Qed.

(** It runs: there is memory enough. *)
Lemma exec_runs : returns (kexec echo_path [[97]; [98; 99]]) [] exec_state 2.
Proof. by vm_compute. Qed.

Lemma kexec_correct_witness : wp (kexec echo_path [[97]; [98; 99]]) [] exec_state (fun r s' => r = 2 /\ start_regs (pg 3) 2 12224 fault_memory (pmem s')).
Proof.
  assert (Hw : wp (kexec echo_path [[97]; [98; 99]]) [] exec_state (fun r s' => r = -1 \/ r = 2 /\ start_regs (pg 3) 2 12224 fault_memory (pmem s'))).
  - eapply wp_mono.
    + apply (kexec_correct exec_state free2 fault_tree fault_free); [repeat split; by vm_compute|apply (bool_decide_unpack _); by vm_compute|done|vm_compute; lia|exact sample_old| |apply (bool_decide_unpack _); by vm_compute|].
      * split; [done|]. repeat constructor; apply (bool_decide_unpack _); by vm_compute.
      * split; [|vm_compute; lia]. apply (bool_decide_unpack _). by vm_compute.
    + intros r s' [[-> _]|(c & entry & im & sp & h & Hf & Hp & Hpa & -> & Hrun)]; [by left|right]. split; [done|]. assert (Hc : Some sample_elf = Some c) by exact Hf. injection Hc as <-.
      assert (Hi : (fun x => (x.1, im_sz x.2)) <$> program sample_elf = Some (2, 8)) by by vm_compute. rewrite Hp in Hi. injection Hi as -> Hsz.
      unfold stack_top in Hpa. rewrite Hsz in Hpa. assert (Hsp : forall g, fst <$> push_argv 8192 12288 [[97]; [98; 99]] g = Some 12224) by (intros g; by vm_compute).
      specialize (Hsp (im_byte im)). change (push_argv _ _ _ _) with (push_argv 8192 12288 [[97]; [98; 99]] (im_byte im)) in Hpa. rewrite Hpa in Hsp. injection Hsp as ->. exact (rn_regs _ _ _ _ _ _ _ _ _ Hrun).
  - eapply wp_mono; [exact (wp_result _ _ _ _ _ exec_runs Hw)|]. intros r s' [-> [?|?]]; done.
Defined.
