(* ===== verification/Mkfs.v ===== *)
(** The tool that builds the file system, mkfs/mkfs.c.  The state is the image, a
    host file kept as its blocks, and the variables of the program; leaving the
    program early, by die or a failed assert, is a panic. *)
From S2P Require Import Prelude UserIface Block Sleeplock CStrings Log LogCrash LogTxn Fs FsBlocks FsInode FsMap FsRead.
Local Open Scope Z_scope.

Definition FSSIZE : Z := 2000.
Definition NINODES : Z := 200.

Definition nbitmap : Z := FSSIZE / BPB + 1.
Definition ninodeblocks : Z := NINODES / IPB + 1.
Definition nlog : Z := Z.of_nat LOGBLOCKS + 1.

Record mkst := mkMkst { img : list block; msb : superblock; freeinode : Z; freeblock : Z }.
Definition set_img (l : list block) (s : mkst) : mkst := mkMkst l (msb s) (freeinode s) (freeblock s).
Definition set_msb (x : superblock) (s : mkst) : mkst := mkMkst (img s) x (freeinode s) (freeblock s).
Definition set_freeinode (n : Z) (s : mkst) : mkst := mkMkst (img s) (msb s) n (freeblock s).
Definition set_freeblock (n : Z) (s : mkst) : mkst := mkMkst (img s) (msb s) (freeinode s) n.
Local Abbreviation MK := (M mkst).

(** The number that these bytes of memory are on the RISC-V machine. *)
Definition xshort (x : Z) : Z := le_value (le_bytes 2 x).
Definition xint (x : Z) : Z := le_value (le_bytes 4 x).

(** * Sectors *)
Definition sector (sec : Z) : nat := Z.to_nat (u32 (sec * BS) / BS).

(** A write past the end of the host file fills the gap with zeros. *)
Definition put_sector (k : nat) (d : block) (l : list block) : list block :=
  if decide (k < length l)%nat then <[k := d]> l else l ++ replicate (k - length l) zero_block ++ [d].

Definition wsect (sec : Z) (buf : block) : MK unit := modify (fun s => set_img (put_sector (sector sec) buf (img s)) s).
Definition rsect (sec : Z) : MK block :=
  l ← gets img; match l !! sector sec with Some d => mret d | None => panic "read" end.

(** * Inodes *)
Definition winode (inum : Z) (ip : dinode) : MK unit :=
  x ← gets msb;
  let bn := IBLOCK inum x in
  buf ← rsect bn;
  wsect bn (put_dinode (dinode_off inum) ip buf).

Definition rinode (inum : Z) : MK dinode :=
  x ← gets msb;
  buf ← rsect (IBLOCK inum x);
  mret (get_dinode (dinode_off inum) buf).

Definition ialloc (type : Z) : MK Z :=
  inum ← gets freeinode;
  modify (set_freeinode (u32 (inum + 1)));;
  winode inum (mkDinode (s16 (xshort type)) 0 0 (s16 (xshort 1)) (xint 0) (replicate NADDRS 0));;
  mret inum.

(** The map of the blocks in use. *)
Definition balloc (used : Z) : MK unit :=
  if decide (BPB <= used) then panic "assert"
  else
    x ← gets msb;
    wsect (sb_bmapstart x) (foldl (fun d i => set_bit (Z.of_nat i) d) zero_block (seq 0 (Z.to_nat used))).

(** * Appending to a file *)

(** freeblock++ *)
Definition next_block : MK Z := b ← gets freeblock; modify (set_freeblock (u32 (b + 1)));; mret b.

Definition set_addr (i : nat) (a : Z) (d : dinode) : dinode :=
  mkDinode (di_type d) (di_major d) (di_minor d) (di_nlink d) (di_size d) (<[i := a]> (di_addrs d)).
Definition set_size (n : Z) (d : dinode) : dinode := mkDinode (di_type d) (di_major d) (di_minor d) (di_nlink d) n (di_addrs d).

(** Address [i] of the inode, allocated when it is 0. *)
Definition need_addr (i : nat) (din : dinode) : MK dinode :=
  if decide (xint (nth i (di_addrs din) 0) = 0) then b ← next_block; mret (set_addr i (xint b) din) else mret din.

(** The block [x] of file block [fbn]. *)
Definition block_of (fbn : Z) (din : dinode) : MK (Z * dinode) :=
  if decide (fbn < Z.of_nat NDIRECT) then
    din ← need_addr (Z.to_nat fbn) din;
    mret (xint (nth (Z.to_nat fbn) (di_addrs din) 0), din)
  else
    din ← need_addr NDIRECT din;
    let a := xint (nth NDIRECT (di_addrs din) 0) in
    indirect ← rsect a;
    let k := Z.to_nat (fbn - Z.of_nat NDIRECT) in
    if decide (NINDIRECT <= k)%nat then undef "indirect"
    else
      indirect ← (if decide (get_word k indirect = 0) then
                    b ← next_block;
                    let indirect := put_word k (xint b) indirect in
                    wsect a indirect;; mret indirect
                  else mret indirect);
      mret (xint (get_word k indirect), din).

Definition iappend_body (x : dinode * Z * list Z) : MK ((dinode * Z * list Z) + (dinode * Z)) :=
  let '(din, off, p) := x in
  if decide (0 < Z.of_nat (length p)) then
    let fbn := off / BS in
    if decide (MAXFILE <= fbn) then panic "assert"
    else
      '(x, din) ← block_of fbn din;
      let n1 := Z.min (Z.of_nat (length p)) (u32 ((fbn + 1) * BS - off)) in
      buf ← rsect x;
      wsect x (splice (Z.to_nat (off - fbn * BS)) (take (Z.to_nat n1) p) buf);;
      mret (inl (din, u32 (off + n1), drop (Z.to_nat n1) p))
  else mret (inr (din, off)).

Definition iappend (inum : Z) (p : list Z) : MK unit :=
  din ← rinode inum;
  r ← loop (S (length p)) iappend_body (din, xint (di_size din), p);
  winode inum (set_size (xint r.2) r.1).

(** * main *)
Section Main.

(** The files of the host: what open finds, and what the reads from it deliver, each
    between 1 and BSIZE bytes, until the end or an error. *)
Variable host : list Z -> option (list (list Z)).

Definition user_slash : list Z := [117; 115; 101; 114; 47].

Definition short_name (arg : list Z) : MK (list Z) :=
  match strncmp (arg ++ [0]) (user_slash ++ [0]) 5 with
  | None => undef "strncmp"
  | Some r =>
      let shortname := if decide (r = 0) then drop 5 arg else arg in
      if decide (47 ∈ shortname) then panic "assert" else mret shortname
  end.

Definition skip_underscore (s : list Z) : list Z :=
  match s with [] => [] | c :: s' => if decide (c = 95) then s' else s end.

(** An entry of the root directory; [name] is the field after the copy to it. *)
Definition dir_entry (rootino inum : Z) (name : option (list Z)) : MK unit :=
  match name with
  | None => undef "name"
  | Some name => iappend rootino (dirent_bytes (mkDirent (xshort inum) name))
  end.

Fixpoint append_chunks (inum : Z) (chunks : list (list Z)) : MK unit :=
  match chunks with
  | [] => mret tt
  | buf :: chunks => iappend inum buf;; append_chunks inum chunks
  end.

Definition add_file (rootino : Z) (arg : list Z) : MK unit :=
  shortname ← short_name arg;
  match host arg with
  | None => panic "open"
  | Some chunks =>
      let shortname := skip_underscore shortname in
      if decide (DIRSIZ < length shortname)%nat then panic "assert"
      else
        inum ← ialloc T_FILE;
        dir_entry rootino inum (strncpy (replicate DIRSIZ 0) (shortname ++ [0]) DIRSIZ);;
        append_chunks inum chunks
  end.

Fixpoint add_files (rootino : Z) (args : list (list Z)) : MK unit :=
  match args with
  | [] => mret tt
  | arg :: args => add_file rootino arg;; add_files rootino args
  end.

Fixpoint zero_sectors (l : list nat) : MK unit :=
  match l with
  | [] => mret tt
  | i :: l => wsect (Z.of_nat i) zero_block;; zero_sectors l
  end.

Definition sb_bytes (x : superblock) : list Z :=
  concat (le_bytes 4 <$> [sb_magic x; sb_size x; sb_nblocks x; sb_ninodes x; sb_nlog x; sb_logstart x; sb_inodestart x; sb_bmapstart x]).

(** The size of the root directory becomes a multiple of the block size. *)
Definition fix_root (rootino : Z) : MK unit :=
  din ← rinode rootino;
  let off := xint (di_size din) in
  let off := u32 ((off / BS + 1) * BS) in
  winode rootino (set_size (xint off) din).

Definition main (args : list (list Z)) : MK unit :=
  let nmeta := 2 + nlog + ninodeblocks + nbitmap in
  let nblocks := FSSIZE - nmeta in
  modify (set_msb (mkSb FSMAGIC (xint FSSIZE) (xint nblocks) (xint NINODES) (xint nlog) (xint 2) (xint (2 + nlog)) (xint (2 + nlog + ninodeblocks))));;
  modify (set_freeblock nmeta);;
  zero_sectors (seq 0 (Z.to_nat FSSIZE));;
  x ← gets msb;
  wsect 1 (splice 0 (sb_bytes x) zero_block);;
  rootino ← ialloc T_DIR;
  if decide (rootino <> ROOTINO) then panic "assert"
  else
    dir_entry rootino rootino (strcpy (replicate DIRSIZ 0) [46; 0]);;
    dir_entry rootino rootino (strcpy (replicate DIRSIZ 0) [46; 46; 0]);;
    add_files rootino args;;
    fix_root rootino;;
    used ← gets freeblock;
    balloc used.

(** The program starts with an empty image. *)
Definition start_state : mkst := mkMkst [] (mkSb 0 0 0 0 0 0 0 0) 1 0.
End Main.
