(* ===== verification/MkfsSpec.v ===== *)
(** What mkfs builds: an image that the kernel reads as the files given to it. *)
From S2P Require Import Prelude UserIface Block Sleeplock CStrings Log LogCrash LogTxn Fs FsBlocks FsInode FsMap FsRead FsWrite Mkfs.
Local Open Scope Z_scope.

(** * The image *)
Definition nmeta : Z := 2 + nlog + ninodeblocks + nbitmap.
Definition mkfs_sb : superblock := mkSb FSMAGIC FSSIZE (FSSIZE - nmeta) NINODES nlog 2 (2 + nlog) (2 + nlog + ninodeblocks).

Definition img_block (l : list block) (b : Z) : block := if decide (b < 0) then zero_block else default zero_block (l !! Z.to_nat b).

(** The image has the blocks [c]. *)
Record shows (s : mkst) (c : Z -> block) : Prop := {
  sh_len : Z.of_nat (length (img s)) = FSSIZE;
  sh_img : forall b, img_block (img s) b = c b;
  sh_sb : msb s = mkfs_sb
}.

Lemma xint_small x : 0 <= x < 2 ^ 32 -> xint x = x.
Proof. intros Hx. unfold xint. rewrite le_value_bytes. by apply Z.mod_small. Qed.

Lemma xshort_small x : 0 <= x < 2 ^ 16 -> xshort x = x.
Proof. intros Hx. unfold xshort. rewrite le_value_bytes. by apply Z.mod_small. Qed.

Lemma sector_small b : 0 <= b < FSSIZE -> sector b = Z.to_nat b.
Proof. intros Hb. unfold sector, FSSIZE in *. change BS with 1024. rewrite u32_small by lia. f_equal. zdiv. Qed.

Lemma put_sector_shows s c b d : shows s c -> 0 <= b < FSSIZE -> shows (set_img (put_sector (sector b) d (img s)) s) (upd c b d).
Proof.
  intros [Hl Hi Hs] Hb. rewrite sector_small by done. unfold put_sector. rewrite decide_True by lia. split; [by simpl; rewrite length_insert| |done].
  intros y. simpl. unfold upd. rewrite <- Hi. unfold img_block. case_decide as Hy; [by rewrite decide_False by lia|]. case_decide as E.
  - subst y. by rewrite list_lookup_insert_eq by lia.
  - by rewrite list_lookup_insert_ne by lia.
Qed.

Section Sectors.
Context (L : list lock).

Lemma wsect_wp s c b d : shows s c -> 0 <= b < FSSIZE ->
  wp (wsect b d) L s (fun _ s' => shows s' (upd c b d) /\ freeinode s' = freeinode s /\ freeblock s' = freeblock s).
Proof. intros Hs Hb. unfold wsect. wstep. split; [done|]. split; [by apply put_sector_shows|done]. Qed.

Lemma rsect_wp s c b : shows s c -> 0 <= b < FSSIZE -> wp (rsect b) L s (fun d s' => s' = s /\ d = c b).
Proof.
  intros [Hl Hi Hs] Hb. unfold rsect. wsteps. rewrite sector_small by done. destruct (lookup_lt_is_Some_2 (img s) (Z.to_nat b)) as [d Hd]; [lia|]. rewrite Hd. wsteps. split; [done|]. split; [done|].
  rewrite <- Hi. unfold img_block. by rewrite decide_False, Hd by lia.
Qed.

Lemma IBLOCK_mkfs inum : 0 <= inum < NINODES -> IBLOCK inum mkfs_sb = inum / 16 + 33 /\ 33 <= IBLOCK inum mkfs_sb < 46.
Proof. intros Hi. unfold IBLOCK. change (sb_inodestart mkfs_sb) with 33. change IPB with 16. unfold NINODES in Hi. rewrite u32_small; zdiv. Qed.

(** The block of inode [inum] with [d] in its place. *)
Definition put_din (inum : Z) (d : dinode) (c : Z -> block) : Z -> block :=
  upd c (IBLOCK inum mkfs_sb) (put_dinode (dinode_off inum) d (c (IBLOCK inum mkfs_sb))).
Definition din_at (c : Z -> block) (inum : Z) : dinode := get_dinode (dinode_off inum) (c (IBLOCK inum mkfs_sb)).

Lemma winode_wp s c inum d : shows s c -> 0 <= inum < NINODES ->
  wp (winode inum d) L s (fun _ s' => shows s' (put_din inum d c) /\ freeinode s' = freeinode s /\ freeblock s' = freeblock s).
Proof.
  intros Hs Hi. destruct (IBLOCK_mkfs inum Hi) as [_ Hb]. unfold winode. wsteps. rewrite (sh_sb _ _ Hs).
  eapply wpl_call; [apply (rsect_wp s c); [done|unfold FSSIZE; lia]|]. intros buf s1 [-> ->]. eapply wpl_call; [apply (wsect_wp s c); [done|unfold FSSIZE; lia]|]. by intros u s2 H2.
Qed.

Lemma rinode_wp s c inum : shows s c -> 0 <= inum < NINODES -> wp (rinode inum) L s (fun d s' => s' = s /\ d = din_at c inum).
Proof.
  intros Hs Hi. destruct (IBLOCK_mkfs inum Hi) as [_ Hb]. unfold rinode. wsteps. rewrite (sh_sb _ _ Hs).
  eapply wpl_call; [apply (rsect_wp s c); [done|unfold FSSIZE; lia]|]. intros buf s1 [-> ->]. wsteps. done.
Qed.

Lemma din_put inum inum' d c : (forall y, block_ok (c y)) -> dinode_ok d -> 0 <= inum < NINODES -> 0 <= inum' < NINODES ->
  din_at (put_din inum d c) inum' = if decide (inum' = inum) then d else din_at c inum'.
Proof.
  intros Hc Hd Hi Hi'. destruct (IBLOCK_mkfs inum Hi) as [E _], (IBLOCK_mkfs inum' Hi') as [E' _]. pose proof (dinode_off_range inum) as Ho. unfold din_at, put_din, upd. destruct (decide (inum' = inum)) as [->|D].
  - rewrite decide_True by done. apply get_put_dinode; [done|]. by rewrite (proj1 (Hc _)).
  - case_decide as B; [|done]. rewrite B. apply get_put_dinode_ne; [apply Hd|by rewrite (proj1 (Hc _))|]. apply dinode_off_ne; [lia|lia|done|]. unfold IPB. lia.
Qed.
End Sectors.

(** * The files *)

(** A file as mkfs makes it: type, block addresses and bytes. *)
Record ifile := mkIfile { f_type : Z; f_addrs : list Z; f_data : list Z }.
Definition with_addrs (al : list Z) (x : ifile) : ifile := mkIfile (f_type x) al (f_data x).

(** The blocks that direct and indirect addresses reach. *)
Definition SMALL : Z := Z.of_nat NDIRECT + Z.of_nat NINDIRECT.

(** The blocks [c] hold the files [fl]: every block up to [fb] belongs to one slot,
    the blocks from [fb] on are new, and past its end a file reads as zeros. *)
Record trees (c : Z -> block) (fl : list ifile) (fb : Z) : Prop := {
  tr_block : forall y, block_ok (c y);
  tr_boot : c 0 = zero_block;
  tr_fresh : forall b, fb <= b < FSSIZE -> c b = zero_block;
  tr_len : forall i x, fl !! i = Some x -> length (f_addrs x) = NADDRS;
  tr_range : forall i x p, fl !! i = Some x -> slot_ok p -> slot_addr c (f_addrs x) p <> 0 -> nmeta <= slot_addr c (f_addrs x) p < fb;
  tr_inj : forall i j x y p q, fl !! i = Some x -> fl !! j = Some y -> slot_ok p -> slot_ok q -> slot_addr c (f_addrs x) p <> 0 ->
    slot_addr c (f_addrs x) p = slot_addr c (f_addrs y) q -> i = j /\ p = q;
  tr_data : forall i x k, fl !! i = Some x -> 0 <= k < SMALL * BS -> file_byte c (f_addrs x) k = default 0 (f_data x !! Z.to_nat k);
  tr_onto : forall b, nmeta <= b < fb -> exists i x p, fl !! i = Some x /\ slot_ok p /\ slot_addr c (f_addrs x) p = b
}.

Lemma small_slot k : 0 <= k < SMALL * BS -> slot_ok (bn_slot (k / BS)) /\ is_leaf (bn_slot (k / BS)) = true.
Proof. intros Hk. apply bn_slot_ok. change (SMALL * BS) with 273408 in Hk. change MAXFILE with 65803. change BS with 1024. zdiv. Qed.

Lemma nth_zero_block n : nth n zero_block 0 = 0.
Proof. rewrite nth_lookup. unfold zero_block. destruct (replicate BSIZE 0 !! n) eqn:E; [|done]. by apply lookup_replicate in E as [-> _]. Qed.

Section Fill.
Context (c : Z -> block) (fl : list ifile) (fb : Z) (i : nat) (x : ifile) (p : slot) (c' : Z -> block) (al' : list Z).
Hypothesis HT : trees c fl fb.
Hypothesis Hx : fl !! i = Some x.
Hypothesis Hp : slot_ok p.
Hypothesis Hp0 : slot_addr c (f_addrs x) p = 0.
Hypothesis Hfb : nmeta <= fb < FSSIZE.
Hypothesis Hal : length al' = NADDRS.
Hypothesis Hbl : forall y, block_ok (c' y).
Hypothesis Hnew : forall q, slot_ok q -> slot_addr c' al' q = if decide (q = p) then fb else slot_addr c (f_addrs x) q.
Hypothesis Hold : forall j y q, j <> i -> fl !! j = Some y -> slot_ok q -> slot_addr c' (f_addrs y) q = slot_addr c (f_addrs y) q.
Hypothesis Hch : forall b, c' b = c b \/ b <> 0 /\ exists q, slot_ok q /\ is_node q = true /\ slot_addr c (f_addrs x) q = b.

(** Leaves and blocks without an owner are as they were. *)
Lemma fill_keeps j y q : fl !! j = Some y -> slot_ok q -> is_leaf q = true -> c' (slot_addr c (f_addrs y) q) = c (slot_addr c (f_addrs y) q).
Proof using All.
  intros Hy Hq Hl. destruct (Hch (slot_addr c (f_addrs y) q)) as [?|(Hn & q' & Hq' & Hnd & E)]; [done|].
  destruct (tr_inj _ _ _ HT i j x y q' q Hx Hy Hq' Hq) as [_ ->]; [by rewrite E|done|]. unfold is_node in Hnd. by rewrite Hl in Hnd.
Qed.

Lemma fill_unowned b : b = 0 \/ fb <= b -> c' b = c b.
Proof using All.
  intros Hb. destruct (Hch b) as [?|(Hn & q & Hq & _ & E)]; [done|]. destruct (tr_range _ _ _ HT i x q Hx Hq); [by rewrite E|]. lia.
Qed.

Lemma trees_fill : trees c' (<[i := with_addrs al' x]> fl) (fb + 1).
Proof using All.
  assert (Hm : 0 < nmeta) by done.
  assert (Hlk : forall j y, <[i := with_addrs al' x]> fl !! j = Some y -> j = i /\ y = with_addrs al' x \/ j <> i /\ fl !! j = Some y).
  { intros j y [(-> & <- & _)|[Hne Hy]]%list_lookup_insert_Some; [by left|right; split; [done|done]]. }
  assert (Hadr : forall j y q, <[i := with_addrs al' x]> fl !! j = Some y -> slot_ok q -> slot_addr c' (f_addrs y) q = fb /\ j = i /\ q = p \/
    exists y0, fl !! j = Some y0 /\ slot_addr c' (f_addrs y) q = slot_addr c (f_addrs y0) q /\ f_data y = f_data y0).
  { intros j y q [[-> ->]|[Hne Hy]]%Hlk Hq; [|right; exists y; split_and!; [done|by eapply Hold|done]]. simpl. rewrite Hnew by done. case_decide; [by left|right]. by exists x. }
  split.
  - done.
  - rewrite fill_unowned by auto. apply HT.
  - intros b Hb. rewrite fill_unowned by lia. apply (tr_fresh _ _ _ HT). lia.
  - intros j y [[-> ->]|[_ Hy]]%Hlk; [done|]. by eapply (tr_len _ _ _ HT).
  - intros j y q Hy Hq Hn. destruct (Hadr j y q Hy Hq) as [(-> & _)|(y0 & Hy0 & E & _)]; [lia|]. rewrite E in *. pose proof (tr_range _ _ _ HT j y0 q Hy0 Hq Hn). lia.
  - intros j k y z q r Hy Hz Hq Hr Hn E. destruct (Hadr j y q Hy Hq) as [(E1 & -> & ->)|(y0 & Hy0 & E1 & _)], (Hadr k z r Hz Hr) as [(E2 & -> & ->)|(z0 & Hz0 & E2 & _)]; rewrite E1, E2 in *.
    + done.
    + pose proof (tr_range _ _ _ HT k z0 r Hz0 Hr ltac:(by rewrite <- E)). lia.
    + pose proof (tr_range _ _ _ HT j y0 q Hy0 Hq Hn). lia.
    + exact (tr_inj _ _ _ HT j k y0 z0 q r Hy0 Hz0 Hq Hr Hn E).
  - intros j y k Hy Hk. destruct (small_slot k Hk) as [Hs Hl]. unfold file_byte, file_block. destruct (Hadr j y _ Hy Hs) as [(E & -> & Ep)|(y0 & Hy0 & E & Ed)]; rewrite E.
    + apply Hlk in Hy as [[_ ->]|[? _]]; [|done]. rewrite fill_unowned, (tr_fresh _ _ _ HT), nth_zero_block by lia. simpl. rewrite <- (tr_data _ _ _ HT i x k Hx Hk). unfold file_byte, file_block. by rewrite Ep, Hp0, (tr_boot _ _ _ HT), nth_zero_block.
    + rewrite Ed, (fill_keeps j y0) by done. by apply (tr_data _ _ _ HT j y0 k).
  - intros b Hb. pose proof (lookup_lt_Some _ _ _ Hx) as Hlt. destruct (decide (b = fb)) as [->|Hne].
    + exists i, (with_addrs al' x), p. rewrite list_lookup_insert_eq by done. split_and!; [done|done|]. cbn [f_addrs with_addrs]. rewrite Hnew by done. by rewrite decide_True.
    + destruct (tr_onto _ _ _ HT b ltac:(lia)) as (j & y & q & Hy & Hq & E). destruct (decide (j = i)) as [->|Hji].
      * rewrite Hx in Hy. injection Hy as <-. exists i, (with_addrs al' x), q. rewrite list_lookup_insert_eq by done. split_and!; [done|done|]. cbn [f_addrs with_addrs]. rewrite Hnew by done. rewrite decide_False; [done|]. intros ->. lia.
      * exists j, y, q. rewrite list_lookup_insert_ne by done. split_and!; [done|done|]. by rewrite (Hold j y q).
Qed.
End Fill.

(** ** Where the addresses are *)
Lemma child_off c b d a k : a <> b -> child (upd c b d) a k = child c a k.
Proof. intros Hne. unfold child. case (a =? 0); [done|]. by rewrite upd_ne. Qed.

Lemma slot_addr_off c al b d : (forall q, slot_ok q -> is_node q = true -> slot_addr c al q <> b) -> forall q, slot_ok q -> slot_addr (upd c b d) al q = slot_addr c al q.
Proof.
  intros Hn q Hq. destruct q as [j| |j| |j|j k]; simpl in *; try done.
  - apply child_off, (Hn SInd); done.
  - apply child_off, (Hn SDbl); done.
  - destruct Hq as [Hj Hk]. rewrite (child_off c b d (nth _ al 0) j) by (apply (Hn SDbl); done). apply child_off, (Hn (SDblEntry j)); done.
Qed.

Lemma slot_addr_top c al a k : length al = NADDRS -> (k <= NDIRECT)%nat -> nth k al 0 = 0 -> c a = zero_block ->
  forall q, slot_ok q -> slot_addr c (<[k := a]> al) q = if decide (q = top_slot k) then a else slot_addr c al q.
Proof.
  intros Hl Hk Hz Hc q Hq. assert (Hn : forall j, child c a j = 0) by (intros j; unfold child; case (a =? 0); [done|]; rewrite Hc; apply get_word_zero).
  unfold NADDRS, NDIRECT in *. unfold top_slot. destruct q as [j| |j| |j|j m]; simpl in Hq |- *; rewrite nth_insert by lia; unfold NDIRECT in *.
  - destruct (decide (k < 11)%nat); repeat case_decide; simplify_eq/=; lia || done.
  - destruct (decide (k < 11)%nat); repeat case_decide; simplify_eq/=; lia || done.
  - rewrite (decide_False (P := SIndEntry j = _)) by by repeat case_decide. destruct (decide (11 = k)%nat) as [<-|]; [by rewrite Hn, Hz|done].
  - destruct (decide (k < 11)%nat); repeat case_decide; simplify_eq/=; lia || done.
  - rewrite (decide_False (P := SDblEntry j = _)) by by repeat case_decide. by rewrite decide_False by lia.
  - rewrite (decide_False (P := SDblLeaf j m = _)) by by repeat case_decide. by rewrite decide_False by lia.
Qed.

Section Inode.
Context (c : Z -> block) (fl : list ifile) (fb : Z) (i : nat) (x : ifile).
Hypothesis HT : trees c fl fb.
Hypothesis Hx : fl !! i = Some x.
Hypothesis Hfb : nmeta <= fb < FSSIZE.
Local Abbreviation al := (f_addrs x).

Lemma fill_top k : (k <= NDIRECT)%nat -> nth k al 0 = 0 ->
  trees c (<[i := with_addrs (<[k := fb]> al) x]> fl) (fb + 1) /\
  forall q, slot_ok q -> slot_addr c (<[k := fb]> al) q = if decide (q = top_slot k) then fb else slot_addr c al q.
Proof using All.
  intros Hk Hz. pose proof (tr_len _ _ _ HT i x Hx) as Hl. pose proof (tr_fresh _ _ _ HT fb ltac:(lia)) as Hc. pose proof (slot_addr_top c al fb k Hl Hk Hz Hc) as Hf. split; [|done].
  apply (trees_fill c fl fb i x (top_slot k)); try done; [| |by rewrite length_insert|apply HT|auto].
  - unfold top_slot. repeat case_decide; simpl; done.
  - unfold top_slot. repeat case_decide; subst; simpl; try done. lia.
Qed.

Lemma fill_entry k : (k < NINDIRECT)%nat -> slot_addr c al SInd <> 0 -> slot_addr c al (SIndEntry k) = 0 ->
  let c' := upd c (slot_addr c al SInd) (put_word k fb (c (slot_addr c al SInd))) in
  trees c' (<[i := with_addrs al x]> fl) (fb + 1) /\
  forall q, slot_ok q -> slot_addr c' al q = if decide (q = SIndEntry k) then fb else slot_addr c al q.
Proof using All.
  intros Hk Hn Hz c'. set (pa := slot_addr c al SInd) in *. pose proof (tr_block _ _ _ HT) as Hb. assert (Hoth : forall q, slot_ok q -> is_node q = true -> q <> SInd -> slot_addr c al q <> pa).
  { intros q Hq _ Hne E. destruct (tr_inj _ _ _ HT i i x x SInd q Hx Hx I Hq Hn (eq_sym E)) as [_ ?]. by subst. }
  assert (Hf : forall q, slot_ok q -> slot_addr c' al q = if decide (q = SIndEntry k) then fb else slot_addr c al q).
  { intros q Hq. destruct q as [j| |j| |j|j m]; simpl in Hq; try done.
    - change (child c' pa j = if decide (SIndEntry j = SIndEntry k) then fb else child c pa j). unfold child. rewrite (proj2 (Z.eqb_neq pa 0)) by done. unfold c'.
      rewrite upd_eq, get_put_word; [|done|done|done|change nmeta with 47 in Hfb; unfold FSSIZE in Hfb; lia]. repeat case_decide; simplify_eq; done.
    - rewrite decide_False by done. apply child_off, (Hoth SDbl); done.
    - rewrite decide_False by done. destruct Hq as [Hj Hm]. change (child c' (child c' (nth (NDIRECT + 1) al 0) j) m = child c (child c (nth (NDIRECT + 1) al 0) j) m). unfold c'.
      rewrite (child_off c pa _ (nth _ al 0) j) by (apply (Hoth SDbl); done). apply child_off, (Hoth (SDblEntry j)); done. }
  split; [|done]. apply (trees_fill c fl fb i x (SIndEntry k)); try done; [by eapply (tr_len _ _ _ HT)| | |].
  - intros y. unfold c', upd. case_decide; [by apply put_word_ok|done].
  - intros j y q Hne Hy Hq. apply slot_addr_off; [|done]. intros r Hr _ E. by destruct (tr_inj _ _ _ HT i j x y SInd r Hx Hy I Hr Hn (eq_sym E)) as [? _].
  - intros b. destruct (decide (b = pa)) as [->|Hne]; [right|left; unfold c'; by rewrite upd_ne]. split; [done|]. by exists SInd.
Qed.
End Inode.

(** ** Allocating *)
Definition din_with (al : list Z) (d : dinode) : dinode := mkDinode (di_type d) (di_major d) (di_minor d) (di_nlink d) (di_size d) al.

(** How many of the slots are empty. *)
Definition nfresh (c : Z -> block) (al : list Z) (l : list slot) : Z := Z.of_nat (length (filter (fun p => slot_addr c al p = 0) l)).

Lemma nfresh_cons c al p l : nfresh c al (p :: l) = (if decide (slot_addr c al p = 0) then 1 else 0) + nfresh c al l.
Proof. unfold nfresh. rewrite filter_cons. case_decide; simpl length; lia. Qed.

Lemma nfresh_nonneg c al l : 0 <= nfresh c al l.
Proof. unfold nfresh. lia. Qed.

Lemma next_block_wp L s c : shows s c -> nmeta <= freeblock s < FSSIZE -> wp next_block L s (fun b s' => b = freeblock s /\ shows s' c /\ freeinode s' = freeinode s /\ freeblock s' = freeblock s + 1).
Proof.
  intros [H1 H2 H3] Hlt. unfold next_block. wsteps. split; [done|]. change nmeta with 47 in Hlt. unfold FSSIZE in *. split_and!; [done|by split|done|]. simpl. apply u32_small. lia.
Qed.

Section Blocks.
Context (L : list lock).
Context (s : mkst) (c : Z -> block) (fl : list ifile) (i : nat) (x : ifile) (din : dinode).
Local Abbreviation al := (f_addrs x).
Local Abbreviation fb := (freeblock s).
Hypothesis HS : shows s c.
Hypothesis HT : trees c fl fb.
Hypothesis Hx : fl !! i = Some x.
Hypothesis Hd : di_addrs din = al.
Hypothesis Hfb : nmeta <= fb <= FSSIZE.

Lemma addr_range p : slot_ok p -> slot_addr c al p = 0 \/ nmeta <= slot_addr c al p < FSSIZE.
Proof using All.
  intros Hp. destruct (decide (slot_addr c al p = 0)) as [?|Hn]; [by left|right]. pose proof (tr_range _ _ _ HT i x p Hx Hp Hn). lia.
Qed.

Lemma addr_xint p : slot_ok p -> xint (slot_addr c al p) = slot_addr c al p.
Proof using All. intros Hp. pose proof (addr_range p Hp) as Hr. change nmeta with 47 in Hr. unfold FSSIZE in Hr. apply xint_small. lia. Qed.

Lemma top_slot_addr k : (k <= NDIRECT)%nat -> slot_ok (top_slot k) /\ slot_addr c al (top_slot k) = nth k al 0.
Proof using All. intros Hk. unfold top_slot. repeat case_decide; subst; simpl; (split; [done|done]) || lia. Qed.

Lemma need_addr_wp k : (k <= NDIRECT)%nat -> fb + nfresh c al [top_slot k] <= FSSIZE ->
  wp (need_addr k din) L s (fun din' s' => exists al', shows s' c /\ freeinode s' = freeinode s /\ freeblock s' = fb + nfresh c al [top_slot k] /\ din' = din_with al' din /\
    trees c (<[i := with_addrs al' x]> fl) (freeblock s') /\
    forall q, slot_ok q -> slot_addr c al' q = if decide (q = top_slot k /\ slot_addr c al q = 0) then fb else slot_addr c al q).
Proof using All.
  intros Hk Hsp. destruct (top_slot_addr k Hk) as [Hok Hnth]. unfold need_addr. rewrite Hd, <- Hnth, addr_xint by done. rewrite nfresh_cons in *. wstep. wcase as Hz.
  - change (nfresh c al []) with 0 in *. wsteps. eapply wpl_call; [apply (next_block_wp L s c); [done|lia]|]. intros b s' (-> & Hs' & Hfi & Hfr). wsteps. split; [done|].
    destruct (fill_top c fl fb i x HT Hx ltac:(lia) k Hk) as [Ht Hf]; [by rewrite <- Hnth|]. exists (<[k := fb]> al). rewrite Hfr. split_and!; try done.
    + unfold set_addr, din_with. rewrite Hd, xint_small; [done|]. change nmeta with 47 in Hfb. unfold FSSIZE in Hfb. lia.
    + intros q Hq. rewrite Hf by done. repeat case_decide; subst; naive_solver.
  - change (nfresh c al []) with 0 in *. wsteps. split; [done|]. exists al. rewrite Z.add_0_r. split_and!; try done.
    + destruct din. unfold din_with. simpl in *. by subst.
    + unfold with_addrs. destruct x. by rewrite list_insert_id.
    + intros q Hq. rewrite decide_False; [done|]. by intros [-> ?].
Qed.

(** What block_of leaves: the slots on the way to block [fbn] are there. *)
Definition reached (fbn : Z) (c' : Z -> block) (al' : list Z) (s' : mkst) : Prop :=
  shows s' c' /\ freeinode s' = freeinode s /\ freeblock s' = fb + nfresh c al (trail (bn_slot fbn)) /\
  trees c' (<[i := with_addrs al' x]> fl) (freeblock s') /\ (forall b, b < nmeta -> c' b = c b) /\
  (forall j y q, j <> i -> fl !! j = Some y -> slot_ok q -> slot_addr c' (f_addrs y) q = slot_addr c (f_addrs y) q) /\
  forall q, slot_ok q -> slot_addr c' al' q <> 0 <-> slot_addr c al q <> 0 \/ q ∈ trail (bn_slot fbn).

Lemma block_of_direct_wp fbn : 0 <= fbn < Z.of_nat NDIRECT -> fb + nfresh c al (trail (bn_slot fbn)) <= FSSIZE ->
  wp (block_of fbn din) L s (fun r s' => exists c' al', r = (file_block c' al' fbn, din_with al' din) /\ reached fbn c' al' s').
Proof using All.
  intros Hf. assert (Hbn : bn_slot fbn = top_slot (Z.to_nat fbn)) by (unfold bn_slot, top_slot; rewrite (proj2 (Z.ltb_lt _ _)) by lia; by rewrite decide_True by lia).
  assert (Htr : trail (bn_slot fbn) = [top_slot (Z.to_nat fbn)]) by (rewrite Hbn; unfold top_slot; by rewrite decide_True by lia). unfold reached. rewrite Htr. intros Hsp.
  destruct (top_slot_addr (Z.to_nat fbn)) as [Hok _]; [lia|]. unfold block_of. wstep. wtrue; [|lia]. wsteps.
  eapply wpl_call; [apply need_addr_wp; [lia|done]|]. intros din' s' (al' & Hs' & Hfi & Hfr & -> & Ht & Hq). wsteps. split; [done|]. exists c, al'.
  assert (Hi : (i < length fl)%nat) by (by eapply lookup_lt_Some). rewrite Hfr in Ht. split; [|split_and!; try done; [by rewrite Hfr|]].
  - f_equal. simpl di_addrs. unfold file_block. rewrite Hbn. unfold top_slot. rewrite decide_True by lia. simpl. apply xint_small.
    pose proof (tr_range _ _ _ Ht i (with_addrs al' x) (SDirect (Z.to_nat fbn))) as Hr. rewrite list_lookup_insert_eq in Hr by done. simpl in Hr.
    destruct (decide (nth (Z.to_nat fbn) al' 0 = 0)) as [->|Hn]; [lia|]. specialize (Hr eq_refl ltac:(lia) Hn). change nmeta with 47 in Hr. unfold FSSIZE in *. lia.
  - intros q Hqo. rewrite Hq by done. rewrite list_elem_of_singleton. change nmeta with 47 in Hfb. case_decide as E; [|destruct (decide (q = top_slot (Z.to_nat fbn))); naive_solver]. destruct E as [-> E]. split; [by right|lia].
Qed.

Lemma block_of_indirect_wp fbn : Z.of_nat NDIRECT <= fbn < SMALL -> fb + nfresh c al (trail (bn_slot fbn)) <= FSSIZE ->
  wp (block_of fbn din) L s (fun r s' => exists c' al', r = (file_block c' al' fbn, din_with al' din) /\ reached fbn c' al' s').
Proof using All.
  intros Hf. set (k := Z.to_nat (fbn - Z.of_nat NDIRECT)). assert (Hk : (k < NINDIRECT)%nat) by (unfold SMALL in Hf; unfold k; lia).
  assert (Hbn : bn_slot fbn = SIndEntry k) by (unfold bn_slot; rewrite (proj2 (Z.ltb_ge _ _)) by lia; rewrite (proj2 (Z.ltb_lt (fbn - _) _)) by (unfold SMALL in Hf; lia); done).
  unfold reached, file_block. rewrite Hbn. cbn [trail]. rewrite nfresh_cons. pose proof (nfresh_nonneg c al [SIndEntry k]) as Hnn. intros Hsp.
  assert (Hi : (i < length fl)%nat) by (by eapply lookup_lt_Some). assert (Hm : nmeta = 47) by done.
  pose proof (need_addr_wp NDIRECT) as Hna. change (top_slot NDIRECT) with SInd in Hna.
  unfold block_of. wstep. wfalse; [|lia]. wstep. eapply wpl_call; [apply Hna; [done|rewrite nfresh_cons; change (nfresh c al []) with 0; lia]|]. intros din1 s1 (al1 & Hs1 & Hfi1 & Hfr1 & -> & Ht1 & Hq1).
  rewrite nfresh_cons in Hfr1. change (nfresh c al []) with 0 in Hfr1. clear Hna. set (x1 := with_addrs al1 x) in *. set (fl1 := <[i := x1]> fl) in *.
  assert (Hx1 : fl1 !! i = Some x1) by (unfold fl1; by rewrite list_lookup_insert_eq). assert (Hn1 : slot_addr c al1 SInd <> 0) by (rewrite Hq1 by done; destruct (decide (SInd = SInd /\ slot_addr c al SInd = 0)) as [E|E]; [lia|]; intros E'; by apply E).
  assert (Hfb1 : nmeta <= freeblock s1 <= FSSIZE) by (rewrite Hfr1; destruct (decide (slot_addr c al SInd = 0)); lia).
  pose proof (tr_range _ _ _ Ht1 i x1 SInd Hx1 I Hn1) as Hpr. change (f_addrs x1) with al1 in Hpr. set (pa := slot_addr c al1 SInd) in *.
  assert (Hent : slot_addr c al1 (SIndEntry k) = slot_addr c al (SIndEntry k)) by (rewrite Hq1 by done; by rewrite decide_False by naive_solver).
  assert (Hgw : get_word k (c pa) = slot_addr c al (SIndEntry k)) by (rewrite <- Hent; change (slot_addr c al1 (SIndEntry k)) with (child c pa k); unfold child; by rewrite (proj2 (Z.eqb_neq pa 0))).
  rewrite nfresh_cons in Hsp |- *. change (nfresh c al []) with 0 in *.
  cbn [di_addrs din_with]. change (nth NDIRECT al1 0) with pa. rewrite xint_small by (unfold FSSIZE in *; lia). wstep. eapply wpl_call; [apply (rsect_wp L s1 c); [done|lia]|]. intros ind s2 [-> ->]. fold k. wfalse; [|lia]. rewrite Hgw. wsteps.
  assert (Hset : forall q, slot_ok q -> slot_addr c al1 q <> 0 <-> slot_addr c al q <> 0 \/ q = SInd) by (intros q Hq; rewrite Hq1 by done; destruct (decide (q = SInd /\ slot_addr c al q = 0)) as [[-> E]|E]; [split; [by right|lia]|destruct (decide (q = SInd)); naive_solver]).
  wcase as Hz.
  - wstep. eapply wpl_call; [apply (next_block_wp L s1 c); [done|rewrite Hfr1 in *; lia]|]. intros b s2 (-> & Hs2 & Hfi2 & Hfr2). wstep. rewrite xint_small by (unfold FSSIZE in *; lia).
    eapply wpl_call; [apply (wsect_wp L s2 c pa); [done|lia]|]. intros u s3 (Hs3 & Hfi3 & Hfr3). wsteps. split; [done|].
    destruct (fill_entry c fl1 (freeblock s1) i x1 Ht1 Hx1 ltac:(rewrite Hfr1 in *; lia) k Hk Hn1) as [Ht2 Hq2]; [by rewrite <- Hz, <- Hent|]. cbv zeta in Ht2, Hq2. change (slot_addr c (f_addrs x1) SInd) with pa in Ht2, Hq2.
    change (f_addrs x1) with al1 in Ht2, Hq2. unfold fl1 in Ht2. rewrite list_insert_insert_eq in Ht2. change (with_addrs al1 x1) with (with_addrs al1 x) in Ht2. eexists _, al1. split_and!; [|exact Hs3| | | | | |].
    + f_equal. rewrite Hq2 by done. rewrite decide_True by done. rewrite get_put_word; [|apply HT|done|done|unfold FSSIZE in *; lia]. rewrite decide_True by done. apply xint_small. unfold FSSIZE in *. lia.
    + congruence.
    + rewrite Hfr3, Hfr2, Hfr1. lia.
    + by rewrite Hfr3, Hfr2.
    + intros b Hb. rewrite upd_ne; [done|lia].
    + intros j y q Hne Hy Hq. apply slot_addr_off; [|done]. intros r Hr _ E. assert (Hy1 : fl1 !! j = Some y) by (unfold fl1; by rewrite list_lookup_insert_ne). by destruct (tr_inj _ _ _ Ht1 i j x1 y SInd r Hx1 Hy1 I Hr Hn1 (eq_sym E)) as [? _].
    + intros q Hq. rewrite Hq2 by done. rewrite !elem_of_cons, elem_of_nil. specialize (Hset q Hq). destruct (decide (q = SIndEntry k)); [split; [auto|lia]|tauto].
  - wsteps. split; [done|]. exists c, al1. split_and!; try done.
    + f_equal. rewrite Hgw, Hent. by apply addr_xint.
    + intros q Hq. rewrite !elem_of_cons, elem_of_nil. specialize (Hset q Hq). destruct (decide (q = SIndEntry k)) as [->|]; tauto.
Qed.

Lemma block_of_wp fbn : 0 <= fbn < SMALL -> fb + nfresh c al (trail (bn_slot fbn)) <= FSSIZE ->
  wp (block_of fbn din) L s (fun r s' => exists c' al', r = (file_block c' al' fbn, din_with al' din) /\ reached fbn c' al' s').
Proof using All. intros Hf Hsp. destruct (decide (fbn < Z.of_nat NDIRECT)); [apply block_of_direct_wp|apply block_of_indirect_wp]; (done || lia). Qed.
End Blocks.

(** ** Writing *)
Lemma trees_write c fl fb i x fbn d data : trees c fl fb -> fl !! i = Some x -> 0 <= fbn < SMALL -> file_block c (f_addrs x) fbn <> 0 -> block_ok d ->
  (forall k, 0 <= k < SMALL * BS -> default 0 (data !! Z.to_nat k) = if decide (k / BS = fbn) then nth (Z.to_nat (k mod BS)) d 0 else default 0 (f_data x !! Z.to_nat k)) ->
  let c' := upd c (file_block c (f_addrs x) fbn) d in
  trees c' (<[i := mkIfile (f_type x) (f_addrs x) data]> fl) fb /\
  forall j y q, fl !! j = Some y -> slot_ok q -> slot_addr c' (f_addrs y) q = slot_addr c (f_addrs y) q.
Proof.
  intros HT Hx Hf Hb Hd Hdata c'. destruct (bn_slot_ok fbn) as [Hok Hleaf]; [change SMALL with 267 in Hf; change MAXFILE with 65803; lia|]. unfold file_block in *. set (b := slot_addr c (f_addrs x) (bn_slot fbn)) in *.
  assert (Hs : forall j y q, fl !! j = Some y -> slot_ok q -> slot_addr c' (f_addrs y) q = slot_addr c (f_addrs y) q).
  { intros j y q Hy Hq. apply slot_addr_off; [|done]. intros r Hr Hn E. destruct (tr_inj _ _ _ HT i j x y _ r Hx Hy Hok Hr Hb (eq_sym E)) as [_ <-]. unfold is_node in Hn. by rewrite Hleaf in Hn. }
  assert (Hlk : forall j y, <[i := mkIfile (f_type x) (f_addrs x) data]> fl !! j = Some y -> exists y0, fl !! j = Some y0 /\ f_addrs y = f_addrs y0 /\ f_data y = if decide (j = i) then data else f_data y0).
  { intros j y [(-> & <- & _)|[Hne Hy]]%list_lookup_insert_Some; [exists x; by rewrite decide_True|exists y; by rewrite decide_False]. }
  pose proof (tr_range _ _ _ HT i x _ Hx Hok Hb) as Hr. change nmeta with 47 in Hr. fold b in Hr. split; [|done]. split.
  - intros y. unfold c', upd. case_decide; [done|apply HT].
  - unfold c'. rewrite upd_ne by lia. apply HT.
  - intros y Hy. unfold c'. rewrite upd_ne by lia. by apply (tr_fresh _ _ _ HT).
  - intros j y (y0 & Hy & -> & _)%Hlk. by eapply (tr_len _ _ _ HT).
  - intros j y q (y0 & Hy & -> & _)%Hlk Hq. rewrite (Hs j y0) by done. by eapply (tr_range _ _ _ HT).
  - intros j k y z q r (y0 & Hy & -> & _)%Hlk (z0 & Hz & -> & _)%Hlk Hq Hr'. rewrite (Hs j y0), (Hs k z0) by done. by eapply (tr_inj _ _ _ HT).
  - intros j y k (y0 & Hy & -> & ->)%Hlk Hk. destruct (small_slot k Hk) as [Hsk Hlk']. unfold file_byte, file_block. rewrite (Hs j y0) by done. pose proof (tr_data _ _ _ HT j y0 k Hy Hk) as Hold. unfold file_byte, file_block in Hold.
    unfold c', upd. case_decide as E.
    + destruct (tr_inj _ _ _ HT i j x y0 _ _ Hx Hy Hok Hsk Hb (eq_sym E)) as [<- Ebn]. rewrite decide_True by done. rewrite Hdata by done.
      apply bn_slot_inj in Ebn; [by rewrite decide_True|lia|change BS with 1024; zdiv].
    + rewrite Hold. destruct (decide (j = i)) as [->|]; [|done]. rewrite Hdata by done. rewrite Hx in Hy. injection Hy as <-. rewrite decide_False; [done|]. intros Ek. apply E. by rewrite Ek.
  - intros y Hy. destruct (tr_onto _ _ _ HT y Hy) as (j & z & q & Hz & Hq & E). destruct (decide (j = i)) as [->|Hji].
    + rewrite Hx in Hz. injection Hz as <-. eexists i, _, q. rewrite list_lookup_insert_eq by by eapply lookup_lt_Some. split_and!; [done|done|]. by rewrite <- (Hs i x q) in E.
    + exists j, z, q. rewrite list_lookup_insert_ne by done. split_and!; [done|done|]. by rewrite (Hs j z q).
Qed.

(** The bytes after the end of the file are written. *)
Lemma append_data c fl fb i x fbn l : trees c fl fb -> fl !! i = Some x -> let n := Z.of_nat (length (f_data x)) in fbn = n / BS -> n mod BS + Z.of_nat (length l) <= BS -> 0 <= fbn < SMALL ->
  forall k, 0 <= k < SMALL * BS -> default 0 ((f_data x ++ l) !! Z.to_nat k) =
    if decide (k / BS = fbn) then nth (Z.to_nat (k mod BS)) (splice (Z.to_nat (n - fbn * BS)) l (c (file_block c (f_addrs x) fbn))) 0 else default 0 (f_data x !! Z.to_nat k).
Proof.
  intros HT Hx n Hf Hl Hsm k Hk. pose proof (tr_data _ _ _ HT i x k Hx Hk) as Hold. unfold file_byte in Hold. assert (HB : BS = 1024) by done. rewrite HB in *.
  assert (Hlen : length (c (file_block c (f_addrs x) fbn)) = 1024%nat) by apply (tr_block _ _ _ HT). case_decide as E.
  - rewrite E in Hold. set (d := c (file_block c (f_addrs x) fbn)) in *. set (o := Z.to_nat (n - fbn * 1024)). assert (Ho : Z.of_nat o = n mod 1024 /\ (o < 1024)%nat) by (unfold o; zdiv). rewrite nth_lookup in Hold |- *. unfold splice.
    destruct (decide (Z.to_nat (k mod 1024) < o)%nat) as [H1|H1].
    + rewrite (lookup_app_l (f_data x)) by (unfold n in *; zdiv). rewrite lookup_app_l, lookup_take_lt by (rewrite ?length_take; lia). by rewrite Hold.
    + rewrite (lookup_app_r (take o d)) by (rewrite length_take; lia). rewrite length_take, Nat.min_l by lia. rewrite (lookup_app_r (f_data x)) by (unfold n in *; zdiv).
      destruct (decide (Z.to_nat (k mod 1024) < o + length l)%nat) as [H2|H2].
      * rewrite lookup_app_l by lia. do 2 f_equal. unfold n in *. zdiv.
      * rewrite (lookup_app_r l), lookup_drop by lia. rewrite (lookup_ge_None_2 l) by (unfold n in *; zdiv). replace (o + length l + (Z.to_nat (k mod 1024) - o - length l))%nat with (Z.to_nat (k mod 1024)) by lia.
        rewrite Hold. rewrite lookup_ge_None_2; [done|]. unfold n in *. zdiv.
  - destruct (decide (Z.to_nat k < length (f_data x))%nat); [by rewrite lookup_app_l|]. rewrite (lookup_ge_None_2 (f_data x)) by lia. rewrite lookup_ge_None_2; [done|]. rewrite length_app. unfold n in *. zdiv.
Qed.

(** * Appending *)

(** The slots that a file of [n] bytes has, and how many blocks that is. *)
Definition slot_used (n : Z) (p : slot) : bool :=
  match p with
  | SDirect i => Z.of_nat i * BS <? n
  | SInd => Z.of_nat NDIRECT * BS <? n
  | SIndEntry i => Z.of_nat (NDIRECT + i) * BS <? n
  | _ => false
  end.
Definition blocks_of (n : Z) : Z := (n + BS - 1) / BS + (if decide (Z.of_nat NDIRECT * BS < n) then 1 else 0).

Definition shaped (c : Z -> block) (x : ifile) : Prop := forall p, slot_ok p -> slot_addr c (f_addrs x) p <> 0 <-> slot_used (Z.of_nat (length (f_data x))) p = true.

Lemma blocks_mono n m : n <= m -> blocks_of n <= blocks_of m.
Proof. intros Hn. unfold blocks_of, NDIRECT. change BS with 1024. repeat case_decide; zdiv. Qed.

(** [m] more bytes in the block of the end of the file. *)
Section Piece.
Context (n m : Z).
Hypothesis Hn : 0 <= n.
Hypothesis Hm : 0 < m.
Hypothesis Hb : n mod BS + m <= BS.
Hypothesis Hs : n / BS < SMALL.

Lemma trail_cases : trail (bn_slot (n / BS)) = [SDirect (Z.to_nat (n / BS))] /\ n / BS < 11 \/ trail (bn_slot (n / BS)) = [SInd; SIndEntry (Z.to_nat (n / BS - 11))] /\ 11 <= n / BS < 267.
Proof using All.
  unfold bn_slot. change (Z.of_nat NDIRECT) with 11. change (Z.of_nat NINDIRECT) with 256. change SMALL with 267 in Hs. destruct (Z.ltb_spec (n / BS) 11); [by left|]. rewrite (proj2 (Z.ltb_lt (n / BS - 11) 256)) by lia. right. split; [done|lia].
Qed.

Lemma slot_used_step p : slot_ok p -> slot_used (n + m) p = true <-> slot_used n p = true \/ p ∈ trail (bn_slot (n / BS)).
Proof using All.
  intros Hp. assert (Hsp : 1024 * (n / BS) <= n /\ n + m <= 1024 * (n / BS) + 1024) by (change BS with 1024 in *; zdiv).
  assert (Hin : p ∈ trail (bn_slot (n / BS)) <-> match p with SDirect i => Z.of_nat i = n / BS /\ n / BS < 11 | SInd => 11 <= n / BS | SIndEntry i => Z.of_nat i = n / BS - 11 /\ 11 <= n / BS | _ => False end).
  { destruct trail_cases as [[-> Hk]|[-> Hk]]; rewrite ?elem_of_cons, ?elem_of_nil; destruct p; split; intros H; destruct_or?; simplify_eq; try done; try lia; try (left; done); try (left; f_equal; lia); try (right; left; f_equal; lia).
    all: split; [|lia]; rewrite Z2Nat.id; lia || (change BS with 1024 in *; zdiv). }
  rewrite Hin. clear Hin. set (k := n / BS) in *. clearbody k. destruct p as [j| |j| |j|j l]; simpl in *; unfold NDIRECT, NINDIRECT in *; change BS with 1024 in *; change (Z.of_nat 11) with 11; rewrite ?Z.ltb_lt; try (split; [done|by intros [?|?]]); lia.
Qed.

Lemma blocks_step c x : shaped c x -> Z.of_nat (length (f_data x)) = n -> blocks_of (n + m) = blocks_of n + nfresh c (f_addrs x) (trail (bn_slot (n / BS))).
Proof using All.
  intros Hsh Hln. unfold shaped in Hsh. rewrite Hln in Hsh. assert (Hz : forall p, slot_ok p -> slot_addr c (f_addrs x) p = 0 <-> slot_used n p = false).
  { intros p Hp. specialize (Hsh p Hp). destruct (slot_used n p); destruct (decide (slot_addr c (f_addrs x) p = 0)); naive_solver. }
  assert (Hsp : 1024 * (n / BS) <= n /\ n + m <= 1024 * (n / BS) + 1024 /\ (n + m + BS - 1) / BS = n / BS + 1 /\ (n + BS - 1) / BS = if decide (n = 1024 * (n / BS)) then n / BS else n / BS + 1) by (change BS with 1024 in *; case_decide; zdiv).
  destruct Hsp as (H1 & H2 & H3 & H4). unfold blocks_of. rewrite H3, H4. clear H3 H4. change (Z.of_nat NDIRECT * BS) with 11264.
  destruct trail_cases as [[-> Hk]|[-> Hk]]; rewrite !nfresh_cons; change (nfresh _ _ []) with 0.
  - pose proof (Hz (SDirect (Z.to_nat (n / BS))) ltac:(simpl; unfold NDIRECT; lia)) as H0. cbn [slot_used] in H0. rewrite Z.ltb_ge in H0. assert (0 <= n / BS) by (change BS with 1024; zdiv). rewrite Z2Nat.id in H0 by done. change BS with 1024 in *.
    set (k := n / 1024) in *. clearbody k. repeat case_decide; lia.
  - pose proof (Hz SInd I) as H0. pose proof (Hz (SIndEntry (Z.to_nat (n / BS - 11))) ltac:(simpl; unfold NINDIRECT; lia)) as H0'. cbn [slot_used] in H0, H0'. rewrite Z.ltb_ge in H0, H0'. unfold NDIRECT in *. change BS with 1024 in *.
    set (k := n / 1024) in *. clearbody k. repeat case_decide; lia.
Qed.
End Piece.
