(* ===== verification/MkfsRun.v ===== *)
(** mkfs as a whole: appending to files, the directory, and the image at the end. *)
From S2P Require Import Prelude UserIface Block Sleeplock CStrings Log LogCrash LogTxn Fs FsBlocks FsInode FsMap FsRead FsWrite Mkfs MkfsSpec.
Local Open Scope Z_scope.

(** * iappend *)
Definition flen (x : ifile) : Z := Z.of_nat (length (f_data x)).

Record files_at (c : Z -> block) (fl : list ifile) (fb : Z) : Prop := {
  fa_trees : trees c fl fb;
  fa_shape : forall i x, fl !! i = Some x -> shaped c x;
  fa_type : forall i x, fl !! i = Some x -> 0 <= f_type x < 2 ^ 15;
  fa_free : nmeta <= fb <= FSSIZE
}.

(** The dinode of a file when its size on the disk is [n]. *)
Definition file_din (x : ifile) (n : Z) : dinode := mkDinode (f_type x) 0 0 1 n (f_addrs x).
Definition grow (x : ifile) (al : list Z) (l : list Z) : ifile := mkIfile (f_type x) al (f_data x ++ l).

(** ** Blocks before the data *)
Lemma child_same c c' a k : (a <> 0 -> c' a = c a) -> child c' a k = child c a k.
Proof. intros Hc. unfold child. destruct (Z.eqb_spec a 0); [done|]. by rewrite Hc. Qed.

Lemma slot_addr_same c c' al : (forall q, slot_ok q -> is_node q = true -> slot_addr c al q <> 0 -> c' (slot_addr c al q) = c (slot_addr c al q)) ->
  forall q, slot_ok q -> slot_addr c' al q = slot_addr c al q.
Proof.
  intros Hn q Hq. destruct q as [j| |j| |j|j k]; simpl in *; try done.
  - apply child_same, (Hn SInd); done.
  - apply child_same, (Hn SDbl); done.
  - destruct Hq as [Hj Hk]. rewrite (child_same c c' (nth _ al 0) j) by (apply (Hn SDbl); done). apply child_same, (Hn (SDblEntry j)); done.
Qed.

Lemma files_at_low c c' fl fb : files_at c fl fb -> (forall y, block_ok (c' y)) -> (forall b, c' b = c b \/ 0 < b < nmeta) -> files_at c' fl fb.
Proof.
  intros [HT Hsh Hty Hfb] Hbl Hch. assert (Hhi : forall b, b = 0 \/ nmeta <= b -> c' b = c b) by (intros b Hb; destruct (Hch b); [done|lia]).
  assert (Hs : forall i x q, fl !! i = Some x -> slot_ok q -> slot_addr c' (f_addrs x) q = slot_addr c (f_addrs x) q).
  { intros i x q Hx Hq. apply slot_addr_same; [|done]. intros r Hr _ Hn. apply Hhi. right. by apply (tr_range _ _ _ HT i x r). }
  split; [split| | |done].
  - done.
  - rewrite Hhi by auto. apply HT.
  - intros b Hb. rewrite Hhi by lia. by apply (tr_fresh _ _ _ HT).
  - apply HT.
  - intros i x p Hx Hp. rewrite (Hs i x) by done. by apply (tr_range _ _ _ HT i x).
  - intros i j x y p q Hx Hy Hp Hq. rewrite (Hs i x), (Hs j y) by done. by apply (tr_inj _ _ _ HT).
  - intros i x k Hx Hk. rewrite <- (tr_data _ _ _ HT i x k Hx Hk). destruct (small_slot k Hk) as [Hok _]. unfold file_byte, file_block. rewrite (Hs i x) by done. rewrite Hhi; [done|].
    destruct (decide (slot_addr c (f_addrs x) (bn_slot (k / BS)) = 0)) as [|Hn]; [by left|right]. by apply (tr_range _ _ _ HT i x).
  - intros b Hb. destruct (tr_onto _ _ _ HT b Hb) as (i & x & p & Hx & Hp & E). exists i, x, p. split_and!; [done|done|]. by rewrite (Hs i x).
  - intros i x Hx p Hp. rewrite (Hs i x) by done. by apply (Hsh i x Hx).
  - done.
Qed.

(** * The disk while it is built *)
Definition count (fl : list ifile) : Z := foldr (fun x n => blocks_of (flen x) + n) 0 fl.

Lemma count_insert fl i x x' : fl !! i = Some x -> count (<[i := x']> fl) = count fl - blocks_of (flen x) + blocks_of (flen x').
Proof.
  revert i. induction fl as [|y fl IH]; intros i Hx; [done|]. destruct i as [|i]; simpl in *; [injection Hx as ->; lia|]. rewrite (IH i) by done. lia.
Qed.

Definition sb_block : block := splice 0 (sb_bytes mkfs_sb) zero_block.

(** Inode i+1 is file [i] of [fl], the other inodes are free, and the rest of the
    disk is as it was at the beginning. *)
Record disk (c : Z -> block) (fl : list ifile) (fb : Z) : Prop := {
  dk_files : files_at c fl fb;
  dk_count : fb = nmeta + count fl;
  dk_few : Z.of_nat (length fl) < NINODES;
  dk_small : forall i x, fl !! i = Some x -> flen x <= SMALL * BS;
  dk_din : forall i x, fl !! i = Some x -> din_at c (Z.of_nat i + 1) = file_din x (flen x);
  dk_free : forall n, 0 <= n < NINODES -> n = 0 \/ Z.of_nat (length fl) < n -> di_type (din_at c n) = 0;
  dk_meta : forall b, 0 <= b < nmeta -> ~ 33 <= b < 46 -> c b = if decide (b = 1) then sb_block else zero_block
}.

Section Append.
Context (L : list lock).
Implicit Types (s : mkst) (c : Z -> block) (fl : list ifile) (x : ifile).

Lemma iappend_body_wp s c fl i x n0 p (fb := freeblock s) : shows s c -> files_at c fl fb -> fl !! i = Some x -> p <> [] -> Forall is_byte p ->
  flen x + Z.of_nat (length p) <= SMALL * BS -> fb + blocks_of (flen x + Z.of_nat (length p)) - blocks_of (flen x) <= FSSIZE ->
  wp (iappend_body (file_din x n0, flen x, p)) L s (fun r s' => exists c' al' k, (0 < k <= length p)%nat /\ let x' := grow x al' (take k p) in
    r = inl (file_din x' n0, flen x', drop k p) /\ shows s' c' /\ freeinode s' = freeinode s /\ freeblock s' = fb + blocks_of (flen x') - blocks_of (flen x) /\
    files_at c' (<[i := x']> fl) (freeblock s') /\ forall b, b < nmeta -> c' b = c b).
Proof.
  intros HS [HT Hsh Hty Hfb] Hx Hp Hby Hsm Hsp. set (n := flen x) in *. assert (Hlp : (0 < length p)%nat) by (destruct p; [done|simpl; lia]).
  assert (HB : BS = 1024) by done. assert (HSM : SMALL = 267) by done. assert (Hn0 : 0 <= n) by (unfold n, flen; lia).
  set (fbn := n / BS). assert (Hf : 0 <= fbn < SMALL) by (unfold fbn; rewrite HB, HSM in *; zdiv).
  set (n1 := Z.min (Z.of_nat (length p)) ((fbn + 1) * BS - n)). assert (Hn1 : 0 < n1 <= Z.of_nat (length p) /\ n mod BS + n1 <= BS /\ n - fbn * BS = n mod BS /\ 0 <= (fbn + 1) * BS - n <= BS) by (unfold n1, fbn; rewrite HB; zdiv). destruct Hn1 as (Hn1 & Hpc & Hmod & Hrest).
  assert (Hfr : blocks_of (n + n1) = blocks_of n + nfresh c (f_addrs x) (trail (bn_slot fbn))) by (apply (blocks_step n n1); try done; [lia|apply Hf|by eapply Hsh]).
  pose proof (blocks_mono (n + n1) (n + Z.of_nat (length p)) ltac:(lia)) as Hmono.
  unfold iappend_body. wstep. wtrue; [|lia]. fold fbn. wfalse; [|change MAXFILE with 65803; lia]. wstep.
  eapply wpl_call; [apply (block_of_wp L s c fl i x (file_din x n0) HS HT Hx eq_refl Hfb fbn Hf); unfold fb in *; lia|]. intros r s1 (c1 & al1 & -> & Hs1 & Hfi1 & Hfr1 & Ht1 & Hlow & Hoth & Hset).
  rewrite (u32_small ((fbn + 1) * BS - n)) by lia. fold n1. set (k := Z.to_nat n1) in *. set (fl1 := <[i := with_addrs al1 x]> fl) in *.
  assert (Hi : (i < length fl)%nat) by (by eapply lookup_lt_Some). assert (Hx1 : fl1 !! i = Some (with_addrs al1 x)) by (unfold fl1; by rewrite list_lookup_insert_eq).
  destruct (bn_slot_ok fbn) as [Hok _]; [change MAXFILE with 65803; lia|]. assert (Hb0 : file_block c1 al1 fbn <> 0) by (apply Hset; [done|right; apply trail_self]).
  pose proof (tr_range _ _ _ Ht1 i _ (bn_slot fbn) Hx1 Hok Hb0) as Hbr. change (slot_addr c1 (f_addrs (with_addrs al1 x)) (bn_slot fbn)) with (file_block c1 al1 fbn) in Hbr. set (b := file_block c1 al1 fbn) in *.
  assert (Hfs : freeblock s1 <= FSSIZE) by (unfold fb in *; lia). change nmeta with 47 in Hbr.
  wstep. eapply wpl_call; [apply (rsect_wp L s1 c1); [done|lia]|]. intros d s2 [-> ->]. wstep. eapply wpl_call; [apply (wsect_wp L s1 c1); [done|lia]|]. intros u s2 (Hs2 & Hfi2 & Hfr2). wsteps. split; [done|].
  set (l := take k p) in *. assert (Hll : length l = k) by (unfold l; rewrite length_take; lia).
  destruct (trees_write c1 fl1 (freeblock s1) i (with_addrs al1 x) fbn (splice (Z.to_nat (n - fbn * BS)) l (c1 b)) (f_data x ++ l)) as [Ht2 Hs2']; try done.
  { apply splice_ok; [apply Ht1|by apply Forall_take|]. rewrite Hll. unfold k. rewrite Hmod. unfold BSIZE. rewrite HB in *. zdiv. }
  { apply (append_data c1 fl1 (freeblock s1) i (with_addrs al1 x) fbn l Ht1 Hx1); [done|rewrite Hll; unfold k; rewrite Z2Nat.id by lia; exact Hpc|done]. }
  unfold fl1 in Ht2. rewrite list_insert_insert_eq in Ht2. change (mkIfile _ _ _) with (grow x al1 l) in Ht2. change (file_block c1 (f_addrs (with_addrs al1 x)) fbn) with b in *.
  assert (Hlen : flen (grow x al1 l) = n + n1) by (unfold flen, grow; simpl; rewrite length_app, Hll; unfold k, n, flen; lia).
  eexists _, al1, k. fold l. split; [lia|]. cbv zeta. rewrite Hlen, Hfr2. split_and!; [|exact Hs2|congruence|lia| |].
  - rewrite u32_small by (rewrite HB, HSM in *; lia). done.
  - split; [exact Ht2| | |unfold fb in *; change nmeta with 47 in *; lia].
    + intros j y Hy q Hq. destruct (decide (j = i)) as [->|Hne].
      * rewrite list_lookup_insert_eq in Hy by done. injection Hy as <-. change (Z.of_nat (length (f_data (grow x al1 l)))) with (flen (grow x al1 l)). rewrite Hlen. change (f_addrs (grow x al1 l)) with (f_addrs (with_addrs al1 x)).
        rewrite (Hs2' i _ q Hx1 Hq). change (f_addrs (with_addrs al1 x)) with al1. rewrite Hset by done. rewrite (slot_used_step n n1) by (done || lia). by rewrite (Hsh i x Hx q Hq).
      * rewrite list_lookup_insert_ne in Hy by done. rewrite (Hs2' j y q) by (done || by unfold fl1; rewrite list_lookup_insert_ne). rewrite (Hoth j y q) by done. by apply (Hsh j y).
    + intros j y Hy. apply list_lookup_insert_Some in Hy as [(<- & <- & _)|[_ Hy]]; [by apply (Hty i x)|by apply (Hty j y)].
  - intros y Hy. change nmeta with 47 in Hy. rewrite upd_ne by lia. by apply Hlow.
Qed.

Lemma file_din_ok c fl fb i x n : files_at c fl fb -> fl !! i = Some x -> 0 <= n < 2 ^ 32 -> dinode_ok (file_din x n).
Proof.
  intros [HT _ Hty Hfb] Hx Hn. pose proof (Hty i x Hx). pose proof (tr_len _ _ _ HT i x Hx) as Hl. unfold NADDRS, NDIRECT in Hl. split; cbn [file_din di_type di_major di_minor di_nlink di_size di_addrs]; try lia; [done|].
  apply Forall_lookup_2. intros k a Hk. pose proof (lookup_lt_Some _ _ _ Hk) as Hlt. assert (Ha : exists p, slot_ok p /\ slot_addr c (f_addrs x) p = a).
  { apply (nth_lookup_Some _ _ 0) in Hk. destruct (decide (k < 11)%nat); [exists (SDirect k); simpl; unfold NDIRECT; split; [lia|done]|]. destruct (decide (k = 11)%nat) as [->|]; [by exists SInd|].
    exists SDbl. split; [done|]. replace k with 12%nat in Hk by lia. done. }
  destruct Ha as (p & Hp & <-). destruct (decide (slot_addr c (f_addrs x) p = 0)) as [->|Hne]; [lia|]. pose proof (tr_range _ _ _ HT i x p Hx Hp Hne) as Hr. change nmeta with 47 in *. unfold FSSIZE in *. lia.
Qed.

(** Writing inode i+1 back. *)
Lemma put_din_disk c c1 fl i x x' fb fb' : disk c fl fb -> fl !! i = Some x -> files_at c1 (<[i := x']> fl) fb' -> fb' = fb + blocks_of (flen x') - blocks_of (flen x) -> flen x' <= SMALL * BS ->
  (forall b, b < nmeta -> c1 b = c b) -> disk (put_din (Z.of_nat i + 1) (file_din x' (flen x')) c1) (<[i := x']> fl) fb'.
Proof.
  intros [Hf Hc Hfew Hsm Hdin Hfree Hmeta] Hx Hf1 Hfb Hlen Hlow. pose proof (lookup_lt_Some _ _ _ Hx) as Hlt. set (inum := Z.of_nat i + 1). assert (Hin : 0 <= inum < NINODES) by (unfold inum; lia).
  destruct (IBLOCK_mkfs inum Hin) as [_ Hib]. pose proof (tr_block _ _ _ (fa_trees _ _ _ Hf1)) as Hbl. assert (Hx' : <[i := x']> fl !! i = Some x') by by rewrite list_lookup_insert_eq.
  assert (Hdk : dinode_ok (file_din x' (flen x'))) by (eapply file_din_ok; [exact Hf1|exact Hx'|change (SMALL * BS) with 273408 in Hlen; unfold flen in *; lia]).
  assert (Hlowin : forall n, 0 <= n < NINODES -> din_at c1 n = din_at c n) by (intros n Hn; unfold din_at; rewrite Hlow; [done|destruct (IBLOCK_mkfs n Hn); change nmeta with 47; lia]).
  assert (Hbl' : forall y, block_ok (put_din inum (file_din x' (flen x')) c1 y)) by (intros y; unfold put_din, upd; case_decide; [apply put_dinode_ok; [done|apply Hdk|apply dinode_off_range]|done]).
  split; rewrite ?length_insert; try done.
  - eapply files_at_low; [exact Hf1|done|]. intros b. unfold put_din, upd. case_decide; [right; change nmeta with 47; lia|by left].
  - rewrite (count_insert fl i x x' Hx). lia.
  - intros j y Hy. destruct (decide (j = i)) as [->|Hne]; [rewrite Hx' in Hy; by injection Hy as <-|]. rewrite list_lookup_insert_ne in Hy by done. by apply (Hsm j).
  - intros j y Hy. pose proof (lookup_lt_Some _ _ _ Hy) as Hj. rewrite length_insert in Hj. rewrite din_put by (done || lia). destruct (decide (j = i)) as [->|Hne].
    + rewrite Hx' in Hy. injection Hy as <-. by rewrite decide_True.
    + rewrite list_lookup_insert_ne in Hy by done. rewrite decide_False by (unfold inum; lia). rewrite Hlowin by lia. by apply Hdin.
  - intros n Hn Hor. rewrite din_put by done. rewrite decide_False by (unfold inum; lia). rewrite Hlowin by done. by apply Hfree.
  - intros b Hb Hni. unfold put_din. rewrite upd_ne by lia. rewrite Hlow by lia. by apply Hmeta.
Qed.

(** The bytes [l] are appended to file [i], but its inode is not written yet. *)
Definition appended s c fl (i : nat) x (l : list Z) (al : list Z) s1 : Prop :=
  exists c1, shows s1 c1 /\ freeinode s1 = freeinode s /\ freeblock s1 = freeblock s + blocks_of (flen (grow x al l)) - blocks_of (flen x) /\
    files_at c1 (<[i := grow x al l]> fl) (freeblock s1) /\ forall b, b < nmeta -> c1 b = c b.

Lemma flen_grow x al l : flen (grow x al l) = flen x + Z.of_nat (length l).
Proof. unfold flen, grow. simpl. rewrite length_app. lia. Qed.

Lemma append_loop_wp s c fl i x p : shows s c -> files_at c fl (freeblock s) -> fl !! i = Some x -> Forall is_byte p -> flen x + Z.of_nat (length p) <= SMALL * BS ->
  freeblock s + blocks_of (flen x + Z.of_nat (length p)) - blocks_of (flen x) <= FSSIZE ->
  wp (loop (S (length p)) iappend_body (file_din x (flen x), flen x, p)) L s (fun r s' => exists al', r = (file_din (grow x al' p) (flen x), flen (grow x al' p)) /\ appended s c fl i x p al' s').
Proof.
  intros HS HF Hx Hby Hsm Hsp. apply (wpl_loop (fun z s1 => exists al1 k, (k <= length p)%nat /\ z = (file_din (grow x al1 (take k p)) (flen x), flen (grow x al1 (take k p)), drop k p) /\ appended s c fl i x (take k p) al1 s1) (fun z => length z.2)).
  - intros z s1 (al1 & k & Hk & -> & c1 & HS1 & Hfi1 & Hfr1 & HF1 & Hlow1). cbn [snd]. pose proof (lookup_lt_Some _ _ _ Hx) as Hlt. set (x1 := grow x al1 (take k p)) in *.
    assert (Hl1 : flen x1 = flen x + Z.of_nat k) by (unfold x1; rewrite flen_grow, length_take; lia). destruct (decide (drop k p = [])) as [E|Hne].
    + rewrite E. unfold iappend_body. wstep. wfalse; [|simpl; lia]. wsteps. split; [done|]. exists al1. assert (k = length p) as -> by (apply (f_equal length) in E; rewrite length_drop in E; simpl in E; lia).
      unfold x1 in *. rewrite firstn_all in *. split; [done|]. by exists c1.
    + eapply wp_mono; [apply (iappend_body_wp s1 c1 (<[i := x1]> fl) i x1 (flen x) (drop k p)); try done; [by rewrite list_lookup_insert_eq|by apply Forall_drop|rewrite length_drop; lia|]|].
      { rewrite length_drop, Hfr1, Hl1. replace (flen x + Z.of_nat k + Z.of_nat (length p - k)) with (flen x + Z.of_nat (length p)) by lia. lia. }
      intros r s2 (c2 & al2 & k2 & Hk2 & -> & HS2 & Hfi2 & Hfr2 & HF2 & Hlow2). rewrite length_drop in Hk2.
      assert (Eg : grow x1 al2 (take k2 (drop k p)) = grow x al2 (take (k + k2) p)) by (unfold grow, x1; simpl; by rewrite <- app_assoc, take_take_drop).
      rewrite Eg, list_insert_insert_eq, drop_drop in *. split; [|cbn [snd]; rewrite !length_drop; lia].
      exists al2, (k + k2)%nat. split; [lia|]. split; [done|]. exists c2. split_and!; [done|congruence|rewrite Hfr2, Hfr1; lia|done|]. intros b Hb. by rewrite Hlow2, Hlow1.
  - exists (f_addrs x), O. split; [lia|]. assert (E : grow x (f_addrs x) (take 0 p) = x) by (unfold grow; destruct x; simpl; by rewrite app_nil_r). unfold appended. rewrite E. split; [done|]. exists c. rewrite list_insert_id by done. split_and!; try done. lia.
  - simpl. lia.
Qed.

Lemma iappend_wp s c fl i x p : shows s c -> disk c fl (freeblock s) -> fl !! i = Some x -> Forall is_byte p -> flen x + Z.of_nat (length p) <= SMALL * BS ->
  freeblock s + blocks_of (flen x + Z.of_nat (length p)) - blocks_of (flen x) <= FSSIZE ->
  wp (iappend (Z.of_nat i + 1) p) L s (fun _ s' => exists c' al', shows s' c' /\ freeinode s' = freeinode s /\ disk c' (<[i := grow x al' p]> fl) (freeblock s')).
Proof.
  intros HS HD Hx Hby Hsm Hsp. pose proof (lookup_lt_Some _ _ _ Hx) as Hlt. pose proof (dk_few _ _ _ HD) as Hfew. assert (Hin : 0 <= Z.of_nat i + 1 < NINODES) by lia. assert (HSB : SMALL * BS = 273408) by done.
  unfold iappend. wstep. wstep. eapply wpl_call; [by apply (rinode_wp L s c)|]. intros din s1 [-> ->]. rewrite (dk_din _ _ _ HD i x Hx). cbn [di_size file_din]. assert (Hn : 0 <= flen x) by (unfold flen; lia). rewrite xint_small by lia.
  change (mkDinode _ _ _ _ _ _) with (file_din x (flen x)). wstep. eapply wpl_call; [apply (append_loop_wp s c fl i x p); try done; apply HD|].
  intros r s1 (al' & -> & c1 & HS1 & Hfi1 & Hfr1 & HF1 & Hlow1). cbn [fst snd]. eapply wpl_call; [by apply (winode_wp L s1 c1)|]. intros u s2 (HS2 & Hfi2 & Hfr2). split; [done|].
  assert (Hg := flen_grow x al' p). rewrite xint_small in HS2 by lia. change (set_size (flen (grow x al' p)) (file_din (grow x al' p) (flen x))) with (file_din (grow x al' p) (flen (grow x al' p))) in HS2.
  eexists _, al'. split; [exact HS2|]. split; [congruence|]. eapply put_din_disk; [exact HD|done|by rewrite Hfr2|by rewrite Hfr2|lia|done].
Qed.
End Append.
