(* ===== verification/MkfsMain.v ===== *)
(** What mkfs builds: from the files given to it, an image of which the kernel's file
    system reads exactly these files. *)
From S2P Require Import Prelude UserIface Block Sleeplock CStrings Log LogCrash LogTxn Fs FsBlocks FsInode FsMap FsRead FsWrite Mkfs MkfsSpec MkfsRun.
Local Open Scope Z_scope.

(** * Files by type and bytes *)
Definition contents (fl : list ifile) : list (Z * list Z) := (fun x => (f_type x, f_data x)) <$> fl.
Definition size_of (x : Z * list Z) : Z := Z.of_nat (length x.2).
Definition cost (l : list (Z * list Z)) : Z := foldr (fun x n => blocks_of (size_of x) + n) 0 l.

(** The image holds the files [l], from inode 1 on. *)
Definition stores (s : mkst) (l : list (Z * list Z)) : Prop :=
  exists c fl, shows s c /\ disk c fl (freeblock s) /\ contents fl = l /\ freeinode s = Z.of_nat (length l) + 1.

Lemma cost_count fl : cost (contents fl) = count fl.
Proof. induction fl as [|x fl IH]; [done|]. change (contents (x :: fl)) with ((f_type x, f_data x) :: contents fl). simpl. by rewrite IH. Qed.

Lemma blocks_nonneg n : 0 <= n -> 0 <= blocks_of n.
Proof. intros Hn. unfold blocks_of. change BS with 1024. case_decide; zdiv. Qed.

Lemma cost_app l l' : cost (l ++ l') = cost l + cost l'.
Proof. induction l as [|x l IH]; [done|]. simpl. rewrite IH. lia. Qed.

Lemma cost_nonneg l : 0 <= cost l.
Proof. induction l as [|x l IH]; simpl; [lia|]. pose proof (blocks_nonneg (size_of x) ltac:(unfold size_of; lia)). lia. Qed.

Lemma cost_mono l l' : Forall2 (fun x y => size_of x <= size_of y) l l' -> cost l <= cost l'.
Proof. induction 1 as [|x y l l' Hxy _ IH]; simpl; [lia|]. pose proof (blocks_mono _ _ Hxy). lia. Qed.

Section Stores.
Context (L : list lock).

Lemma contents_lookup fl i ty d : contents fl !! i = Some (ty, d) -> exists x, fl !! i = Some x /\ f_type x = ty /\ f_data x = d.
Proof. unfold contents. rewrite list_lookup_fmap. destruct (fl !! i) as [x|]; [|done]. intros [= <- <-]. by exists x. Qed.

Lemma iappend_stores s l i ty d p : stores s l -> l !! i = Some (ty, d) -> Forall is_byte p -> Z.of_nat (length d + length p) <= SMALL * BS -> nmeta + cost (<[i := (ty, d ++ p)]> l) <= FSSIZE ->
  wp (iappend (Z.of_nat i + 1) p) L s (fun _ s' => stores s' (<[i := (ty, d ++ p)]> l)).
Proof.
  intros (c & fl & HS & HD & <- & Hfi) Hi Hby Hsm Hsp. destruct (contents_lookup fl i ty d Hi) as (x & Hx & <- & <-). assert (Hins : forall al, contents (<[i := grow x al p]> fl) = <[i := (f_type x, f_data x ++ p)]> (contents fl)) by (intros al; unfold contents; by rewrite list_fmap_insert).
  eapply wp_mono; [apply (iappend_wp L s c fl i x p); try done; unfold flen; [lia|]|].
  - rewrite <- (Hins []), cost_count, (count_insert fl i x _ Hx), flen_grow in Hsp. rewrite (dk_count _ _ _ HD). unfold flen in *. lia.
  - intros u s' (c' & al' & HS' & Hfi' & HD'). exists c', (<[i := grow x al' p]> fl). split_and!; [done|done|by apply Hins|]. rewrite length_insert. congruence.
Qed.

(** A new file is empty. *)
Lemma slot_addr_none c p : slot_addr c (replicate NADDRS 0) p = 0.
Proof.
  assert (Hn : forall k, nth k (replicate NADDRS 0) 0 = 0) by (intros k; rewrite nth_lookup; destruct (replicate NADDRS 0 !! k) eqn:E; [|done]; by apply lookup_replicate in E as [-> _]).
  destruct p; cbn [slot_addr]; rewrite ?Hn; done.
Qed.

Definition new_file (ty : Z) : ifile := mkIfile ty (replicate NADDRS 0) [].

Lemma files_at_new c fl fb ty : files_at c fl fb -> 0 <= ty < 2 ^ 15 -> files_at c (fl ++ [new_file ty]) fb.
Proof.
  intros [HT Hsh Hty Hfb] Ht. assert (Hlk : forall i x, (fl ++ [new_file ty]) !! i = Some x -> fl !! i = Some x \/ x = new_file ty).
  { intros i x [?|[_ Hx]]%lookup_app_Some; [by left|right]. by apply list_lookup_singleton_Some in Hx as [_ <-]. }
  split; [split| | |done].
  - apply HT.
  - apply HT.
  - apply HT.
  - intros i x [Hx| ->]%Hlk; [by eapply (tr_len _ _ _ HT)|done].
  - intros i x p [Hx| ->]%Hlk Hp; [by apply (tr_range _ _ _ HT i x)|]. cbn [f_addrs new_file]. by rewrite slot_addr_none.
  - intros i j x y p q Hx Hy Hp Hq Hn E. destruct (Hlk i x Hx) as [Hx'| ->]; [|by rewrite slot_addr_none in Hn]. destruct (Hlk j y Hy) as [Hy'| ->]; [by apply (tr_inj _ _ _ HT i j x y)|]. rewrite E in Hn. by rewrite slot_addr_none in Hn.
  - intros i x k [Hx| ->]%Hlk Hk; [by apply (tr_data _ _ _ HT i x)|]. unfold file_byte, file_block. cbn [f_addrs new_file]. by rewrite slot_addr_none, (tr_boot _ _ _ HT), nth_zero_block.
  - intros b Hb. destruct (tr_onto _ _ _ HT b Hb) as (i & x & p & Hx & Hp & E). exists i, x, p. split_and!; [by apply lookup_app_l_Some|done|done].
  - intros i x [Hx| ->]%Hlk p Hp; [by apply (Hsh i x Hx)|]. cbn [f_addrs new_file f_data]. rewrite slot_addr_none. split; [done|]. destruct p; simpl; try done; rewrite Z.ltb_lt; change BS with 1024; unfold NDIRECT; lia.
  - intros i x [Hx| ->]%Hlk; [by eapply Hty|done].
Qed.

Lemma ialloc_stores s l ty : stores s l -> 0 <= ty < 2 ^ 15 -> Z.of_nat (length l) + 1 < NINODES ->
  wp (ialloc ty) L s (fun r s' => r = Z.of_nat (length l) + 1 /\ stores s' (l ++ [(ty, [])])).
Proof.
  intros (c & fl & HS & HD & <- & Hfi) Hty Hfew. assert (Hlen : length (contents fl) = length fl) by apply length_fmap. rewrite Hlen in *. set (inum := Z.of_nat (length fl) + 1) in *. assert (Hin : 0 <= inum < NINODES) by lia.
  unfold ialloc. wsteps. rewrite Hfi. set (s1 := set_freeinode (u32 (inum + 1)) s). assert (HS1 : shows s1 c) by (destruct HS; by split).
  eapply wpl_call; [by apply (winode_wp L s1 c)|]. intros u s2 (HS2 & Hfi2 & Hfr2). wsteps. split; [done|]. split; [done|].
  assert (Ed : mkDinode (s16 (xshort ty)) 0 0 (s16 (xshort 1)) (xint 0) (replicate NADDRS 0) = file_din (new_file ty) 0).
  { unfold file_din. cbn [f_type f_addrs new_file]. f_equal. rewrite xshort_small by lia. unfold s16. rewrite Z.mod_small; lia. }
  rewrite Ed in HS2. pose proof HD as [HF Hc Hf Hsm Hdin Hfree Hmeta]. pose proof (files_at_new c fl _ ty HF Hty) as HFn. pose proof (tr_block _ _ _ (fa_trees _ _ _ HF)) as Hbl.
  assert (Hdk : dinode_ok (file_din (new_file ty) 0)) by (eapply (file_din_ok c _ _ (length fl)); [exact HFn|by rewrite lookup_app_r, Nat.sub_diag by lia|lia]).
  destruct (IBLOCK_mkfs inum Hin) as [_ Hib]. eexists _, (fl ++ [new_file ty]). split; [exact HS2|]. rewrite Hfr2, Hfi2. change (freeblock s1) with (freeblock s). change (freeinode s1) with (u32 (inum + 1)). split_and!.
  - split; rewrite ?length_app; try done.
    + eapply files_at_low; [exact HFn| |]; intros y; unfold put_din, upd; case_decide; auto; [apply put_dinode_ok; [done|apply Hdk|apply dinode_off_range]|right; change nmeta with 47; lia].
    + rewrite <- cost_count. unfold contents. rewrite fmap_app, cost_app. change (cost (_ <$> [new_file ty])) with 0. fold (contents fl). rewrite cost_count. lia.
    + simpl. lia.
    + intros i x [Hx|[_ [_ <-]%list_lookup_singleton_Some]]%lookup_app_Some; [by apply (Hsm i)|done].
    + intros i x Hx. rewrite din_put; [|done|done|done|apply lookup_lt_Some in Hx; rewrite length_app in Hx; simpl in Hx; lia]. apply lookup_app_Some in Hx as [Hx|[Hge [Hz <-]%list_lookup_singleton_Some]].
      * pose proof (lookup_lt_Some _ _ _ Hx). rewrite decide_False by (unfold inum; lia). by apply Hdin.
      * rewrite decide_True by (unfold inum; lia). done.
    + intros n Hn Hor. simpl in Hor. rewrite din_put by done. rewrite decide_False by (unfold inum; lia). apply Hfree; [done|lia].
    + intros b Hb Hni. unfold put_din. rewrite upd_ne by lia. by apply Hmeta.
  - unfold contents. by rewrite fmap_app.
  - rewrite length_app, Hlen. simpl. unfold NINODES in *. rewrite u32_small; lia.
Qed.
End Stores.

(** * The directory *)
Definition short_of (arg : list Z) : list Z := if decide (take 5 arg = user_slash) then drop 5 arg else arg.
Definition stored_name (arg : list Z) : list Z := skip_underscore (short_of arg).
Definition name_field (name : list Z) : list Z := name ++ replicate (DIRSIZ - length name) 0.
Definition entry_bytes (inum : Z) (name : list Z) : list Z := dirent_bytes (mkDirent inum (name_field name)).

(** The entries of the root directory when it holds the files [inputs], each a name
    and its bytes, and the files of the image. *)
Definition entries (inputs : list (list Z * list Z)) : list (Z * list Z) :=
  (1, [46]) :: (1, [46; 46]) :: imap (fun i x => (Z.of_nat i + 2, x.1)) inputs.
Definition root_data (inputs : list (list Z * list Z)) : list Z := concat ((fun e => entry_bytes e.1 e.2) <$> entries inputs).
Definition want (inputs : list (list Z * list Z)) : list (Z * list Z) := (T_DIR, root_data inputs) :: ((fun x => (T_FILE, x.2)) <$> inputs).

Lemma length_entry_bytes inum name : (length name <= DIRSIZ)%nat -> length (entry_bytes inum name) = 16%nat.
Proof. intros Hn. unfold entry_bytes, dirent_bytes, name_field. cbn [de_inum de_name]. rewrite !length_app, length_le_bytes, length_replicate. unfold DIRSIZ in *. lia. Qed.

Lemma entry_bytes_ok inum name : Forall is_byte name -> Forall is_byte (entry_bytes inum name).
Proof. intros Hn. unfold entry_bytes, dirent_bytes, name_field. cbn [de_inum de_name]. repeat apply Forall_app_2; [apply le_bytes_is_byte|done|]. apply Forall_replicate. by split. Qed.

Lemma root_data_snoc inputs a : root_data (inputs ++ [a]) = root_data inputs ++ entry_bytes (Z.of_nat (length inputs) + 2) a.1.
Proof.
  unfold root_data, entries. rewrite imap_app. cbn [imap]. rewrite !app_comm_cons, fmap_app, concat_app. f_equal. simpl. rewrite app_nil_r. rewrite Nat.add_0_r. done.
Qed.

Lemma want_snoc inputs a : want (inputs ++ [a]) = <[O := (T_DIR, root_data inputs ++ entry_bytes (Z.of_nat (length inputs) + 2) a.1)]> (want inputs) ++ [(T_FILE, a.2)].
Proof. unfold want. rewrite root_data_snoc, fmap_app. done. Qed.

Lemma length_root_data inputs : Forall (fun x => length x.1 <= DIRSIZ)%nat inputs -> length (root_data inputs) = (16 * (length inputs + 2))%nat.
Proof.
  induction inputs as [|a inputs IH] using rev_ind; [done|]. intros [H1 H2]%Forall_app. rewrite root_data_snoc, !length_app, IH by done. rewrite length_entry_bytes by by inversion H2. simpl. lia.
Qed.

(** * The files *)
Lemma cost_insert l i x y : l !! i = Some x -> cost (<[i := y]> l) = cost l - blocks_of (size_of x) + blocks_of (size_of y).
Proof. revert i. induction l as [|z l IH]; intros i Hx; [done|]. destruct i as [|i]; simpl in *; [injection Hx as ->; lia|]. rewrite (IH i) by done. lia. Qed.

Lemma cost_want_mono inputs more : cost (want inputs) <= cost (want (inputs ++ more)).
Proof.
  induction more as [|a more IH] using rev_ind; [by rewrite app_nil_r|]. etrans; [exact IH|]. rewrite app_assoc, want_snoc, cost_app. pose proof (cost_nonneg [(T_FILE, a.2)]). rewrite (cost_insert _ O (T_DIR, root_data (inputs ++ more))) by done.
  match goal with |- context [blocks_of (size_of (T_DIR, ?r ++ ?e))] => pose proof (blocks_mono (size_of (T_DIR, r)) (size_of (T_DIR, r ++ e)) ltac:(unfold size_of; simpl; rewrite length_app; lia)) end. lia.
Qed.

Section Files.
Context (L : list lock) (host : list Z -> option (list (list Z))).

(** The argument names a file that can be stored as [a]. *)
Record input_ok (arg : list Z) (a : list Z * list Z) : Prop := {
  io_str : 0 ∉ arg /\ Forall is_byte arg;
  io_slash : 47 ∉ short_of arg;
  io_name : a.1 = stored_name arg /\ (length (stored_name arg) <= DIRSIZ)%nat;
  io_data : exists chunks, host arg = Some chunks /\ concat chunks = a.2;
  io_small : Forall is_byte a.2 /\ Z.of_nat (length a.2) <= SMALL * BS
}.

Lemma append_chunks_stores s l i ty d chunks : stores s l -> l !! i = Some (ty, d) -> Forall is_byte (concat chunks) -> Z.of_nat (length d + length (concat chunks)) <= SMALL * BS ->
  nmeta + cost (<[i := (ty, d ++ concat chunks)]> l) <= FSSIZE ->
  wp (append_chunks (Z.of_nat i + 1) chunks) L s (fun _ s' => stores s' (<[i := (ty, d ++ concat chunks)]> l)).
Proof.
  revert s l d. induction chunks as [|buf chunks IH]; intros s l d HS Hi Hby Hsm Hsp; cbn [append_chunks concat] in *.
  - wsteps. split; [done|]. by rewrite app_nil_r, list_insert_id.
  - apply Forall_app in Hby as [Hb1 Hb2]. rewrite length_app in Hsm. pose proof (lookup_lt_Some _ _ _ Hi) as Hlt. wstep. wstep. eapply wpl_call; [apply (iappend_stores L s l i ty d buf); try done; [lia|]|].
    { etrans; [|exact Hsp]. rewrite !(cost_insert l i _ _ Hi). pose proof (blocks_mono (size_of (ty, d ++ buf)) (size_of (ty, d ++ buf ++ concat chunks)) ltac:(unfold size_of; simpl; rewrite !length_app; lia)). lia. }
    intros u s1 HS1. eapply wpl_mono; [apply (IH s1 _ (d ++ buf) HS1); try done; [by rewrite list_lookup_insert_eq|rewrite length_app; lia|]|].
    + by rewrite list_insert_insert_eq, <- app_assoc.
    + intros u' L' s2 [-> HS2]. rewrite list_insert_insert_eq, <- app_assoc in HS2. done.
Qed.

Lemma short_name_wp arg s : 0 ∉ arg -> 47 ∉ short_of arg -> wp (short_name arg) L s (fun r s' => r = short_of arg /\ s' = s).
Proof.
  intros H0 Hs. unfold short_name. destruct (strncmp_spec (arg ++ [0]) (user_slash ++ [0]) 5) as (r & -> & Hr); [right; exists arg; by apply cstr_at|left; simpl; lia|].
  rewrite (cstr_fixed_name (arg ++ [0]) arg) in Hr by by apply cstr_at. change (fixed_name (user_slash ++ [0]) 5) with user_slash in Hr.
  assert (E : (if decide (r = 0) then drop 5 arg else arg) = short_of arg) by (unfold short_of; repeat case_decide; tauto). rewrite E. wstep. rewrite decide_False by done. wsteps. done.
Qed.

Lemma add_file_stores s before arg a : stores s (want before) -> input_ok arg a -> Forall (fun x => length x.1 <= DIRSIZ)%nat before -> Z.of_nat (length before) + 2 < NINODES -> nmeta + cost (want (before ++ [a])) <= FSSIZE ->
  wp (add_file host 1 arg) L s (fun _ s' => stores s' (want (before ++ [a]))).
Proof.
  intros HS [[H0 Hab] Hsl [Hnm Hnl] (chunks & Hh & Hd) [Hdb Hds]] Hbl Hfew Hsp. assert (Hlw : length (want before) = S (length before)) by (unfold want; simpl; by rewrite length_fmap).
  assert (Hsn : 0 ∉ stored_name arg /\ Forall is_byte (stored_name arg)).
  { assert (Hsub : forall z, z ∈ stored_name arg -> z ∈ arg). { intros z. unfold stored_name, skip_underscore. assert (Hs' : forall z, z ∈ short_of arg -> z ∈ arg) by (intros z' Hz; unfold short_of in Hz; case_decide; [by apply (subseteq_drop 5 arg)|done]). intros Hz. apply Hs'. destruct (short_of arg) as [|h t]; [done|]. case_decide; [by right|done]. }
    split; [by intros ?%Hsub|]. apply Forall_forall. intros z Hz%Hsub. by apply (proj1 (Forall_forall _ _) Hab). }
  destruct Hsn as [Hs0 Hsb]. unfold add_file. wstep. wstep. eapply wpl_call; [by apply short_name_wp|]. intros r s1 [-> ->]. rewrite Hh. fold (stored_name arg). wfalse; [|lia]. wstep.
  eapply wpl_call; [apply (ialloc_stores L s (want before) T_FILE HS); [unfold T_FILE; lia|lia]|]. intros inum s1 [-> HS1]. rewrite Hlw.
  rewrite (strncpy_spec (replicate DIRSIZ 0) (stored_name arg ++ [0]) DIRSIZ (stored_name arg)); [|by apply cstr_at|by rewrite length_replicate]. rewrite (drop_ge (replicate _ _)) by by rewrite length_replicate. rewrite app_nil_r, (firstn_all2 (stored_name arg)) by done.
  change (stored_name arg ++ replicate (DIRSIZ - length (stored_name arg)) 0) with (name_field (stored_name arg)). rewrite <- Hnm.
  cbn [dir_entry]. rewrite xshort_small by (unfold NINODES in *; lia). fold (entry_bytes (Z.of_nat (S (length before)) + 1) a.1). pose proof (want_snoc before a) as Hw. replace (Z.of_nat (length before) + 2) with (Z.of_nat (S (length before)) + 1) in Hw by lia.
  set (e := entry_bytes _ a.1) in *. assert (He : length e = 16%nat) by (apply length_entry_bytes; by rewrite Hnm). pose proof (length_root_data before Hbl) as Hrl. rewrite Hw, cost_app in Hsp.
  assert (Hb0 : cost [(T_FILE, [])] = 0) by done. pose proof (cost_nonneg [(T_FILE, a.2)]) as Hbn.
  wstep. change 1 with (Z.of_nat 0 + 1) at 1. eapply wpl_call; [apply (iappend_stores L s1 _ 0 T_DIR (root_data before) e HS1); [done|apply entry_bytes_ok; by rewrite Hnm|rewrite Hrl, He; change (SMALL * BS) with 273408; unfold NINODES in *; lia|]|].
  { rewrite insert_app_l by lia. rewrite cost_app, Hb0. lia. }
  intros u s2 HS2. rewrite insert_app_l in HS2 by lia. set (l2 := <[O := _]> (want before)) in *. assert (Hl2 : length l2 = S (length before)) by (unfold l2; by rewrite length_insert).
  assert (Hins : <[S (length before) := (T_FILE, [] ++ concat chunks)]> (l2 ++ [(T_FILE, [])]) = want (before ++ [a])) by (rewrite Hw, insert_app_r_alt, Hl2, Nat.sub_diag by lia; simpl; by rewrite Hd).
  rewrite <- Hins. apply append_chunks_stores; [done|by rewrite lookup_app_r, Hl2, Nat.sub_diag by lia|by rewrite Hd|by rewrite Hd|]. rewrite Hins, Hw, cost_app. done.
Qed.

Lemma add_files_stores s before args inputs : stores s (want before) -> Forall2 input_ok args inputs -> Forall (fun x => length x.1 <= DIRSIZ)%nat before -> Z.of_nat (length before + length inputs) + 1 < NINODES -> nmeta + cost (want (before ++ inputs)) <= FSSIZE ->
  wp (add_files host 1 args) L s (fun _ s' => stores s' (want (before ++ inputs))).
Proof.
  revert s before inputs. induction args as [|arg args IH]; intros s before inputs HS Hin Hbl Hfew Hsp; inversion Hin as [|? a ? inputs' Ha Hin']; subst; cbn [add_files].
  - wsteps. split; [done|]. by rewrite app_nil_r.
  - simpl in Hfew. replace (before ++ a :: inputs') with ((before ++ [a]) ++ inputs') in * by by rewrite <- app_assoc. wstep. wstep. eapply wpl_call; [apply (add_file_stores s before arg a); try done; [lia|]|].
    + pose proof (cost_want_mono (before ++ [a]) inputs'). lia.
    + intros u s1 HS1. apply (IH s1 (before ++ [a]) inputs' HS1 Hin'); [|rewrite length_app; simpl; lia|done]. apply Forall_app. split; [done|]. constructor; [|done]. destruct Ha as [_ _ [-> ?] _ _]. done.
Qed.
End Files.
