(* ===== verification/MkfsImage.v ===== *)
(** The image at the end of mkfs, against the definitions of the kernel's file
    system. *)
From S2P Require Import Prelude UserIface Block Sleeplock CStrings Log LogCrash LogTxn Fs FsBlocks FsInode FsMap FsRead FsWrite Mkfs MkfsSpec MkfsRun MkfsMain.
Local Open Scope Z_scope.

(** * The beginning *)
Lemma get_le_zero n o : get_le n o zero_block = 0.
Proof. unfold get_le, zero_block. rewrite drop_replicate, take_replicate. generalize (n `min` (BSIZE - o))%nat. induction n0; simpl; lia. Qed.

Section Begin.
Context (L : list lock).

Lemma zero_sectors_wp k n s : img s = replicate k zero_block -> Z.of_nat (k + n) <= FSSIZE -> wp (zero_sectors (seq k n)) L s (fun _ s' => s' = set_img (replicate (k + n) zero_block) s).
Proof.
  revert k s. induction n as [|n IH]; intros k s Hi Hn; cbn [zero_sectors seq].
  - wsteps. split; [done|]. rewrite Nat.add_0_r, <- Hi. by destruct s.
  - wstep. wstep. unfold wsect. wstep. rewrite sector_small by lia. rewrite Nat2Z.id, Hi. unfold put_sector. rewrite length_replicate, decide_False, Nat.sub_diag by lia. cbn [replicate app].
    eapply wpl_mono; [apply (IH (S k)); [simpl; by rewrite <- replicate_S_end|lia]|]. intros u L' s' [-> ->]. split; [done|]. replace (k + S n)%nat with (S k + n)%nat by lia. done.
Qed.

Definition first_blocks : Z -> block := upd (fun _ => zero_block) 1 sb_block.

Lemma sb_block_ok : block_ok sb_block.
Proof. apply splice_ok; [apply zero_block_ok| |vm_compute; lia]. apply Forall_concat, Forall_fmap, Forall_true. intros v. apply le_bytes_is_byte. Qed.

Lemma first_blocks_ok y : block_ok (first_blocks y).
Proof. unfold first_blocks, upd. case_decide; [apply sb_block_ok|apply zero_block_ok]. Qed.

Lemma first_disk : disk first_blocks [] nmeta.
Proof.
  assert (Hz : forall b, b <> 1 -> first_blocks b = zero_block) by (intros b Hb; unfold first_blocks; by rewrite upd_ne).
  split; try done; [split; [split|..]|..]; try done.
  - apply first_blocks_ok.
  - intros b Hb. apply Hz. change nmeta with 47 in Hb. lia.
  - lia.
  - intros n Hn _. unfold din_at. rewrite Hz by (destruct (IBLOCK_mkfs n Hn); lia). unfold get_dinode. cbn [di_type]. by rewrite get_le_zero.
Qed.

(** The image with its super block and no files. *)
Lemma begin_wp {A} (k : M mkst A) Q : (forall s, stores s [] -> wpl k L s Q) ->
  wpl (modify (set_msb (mkSb FSMAGIC (xint FSSIZE) (xint (FSSIZE - nmeta)) (xint NINODES) (xint nlog) (xint 2) (xint (2 + nlog)) (xint (2 + nlog + ninodeblocks))));;
    modify (set_freeblock nmeta);;
    zero_sectors (seq 0 (Z.to_nat FSSIZE));;
    x ← gets msb;
    wsect 1 (splice 0 (sb_bytes x) zero_block);; k) L start_state Q.
Proof.
  intros Hk. assert (Esb : mkSb FSMAGIC (xint FSSIZE) (xint (FSSIZE - nmeta)) (xint NINODES) (xint nlog) (xint 2) (xint (2 + nlog)) (xint (2 + nlog + ninodeblocks)) = mkfs_sb) by by vm_compute. rewrite Esb. wsteps.
  eapply wpl_call; [by apply (zero_sectors_wp 0 (Z.to_nat FSSIZE))|]. intros u s1 ->. wsteps. cbn [Nat.add msb set_msb set_freeblock set_img].
  set (s1 := set_img _ _). assert (HS : shows s1 (fun _ => zero_block)).
  { assert (Ei : img s1 = replicate (Z.to_nat FSSIZE) zero_block) by reflexivity. split; [rewrite Ei, length_replicate; by apply Z2Nat.id| |done]. intros b. unfold img_block. rewrite Ei. case_decide; [done|]. destruct (replicate (Z.to_nat FSSIZE) zero_block !! Z.to_nat b) eqn:E; [|done]. by apply lookup_replicate in E as [-> _]. }
  eapply wpl_call; [by apply (wsect_wp L s1 _ 1 sb_block HS)|]. intros u2 s2 (HS2 & Hfi & Hfr). apply Hk. exists first_blocks, []. split_and!; [done| |done|by rewrite Hfi]. rewrite Hfr. exact first_disk.
Qed.
End Begin.

(** * The end *)

(** The bits of the blocks in use. *)
Definition map_block (n : nat) : block := foldl (fun d i => set_bit (Z.of_nat i) d) zero_block (seq 0 n).

Lemma map_block_step n : map_block (S n) = set_bit (Z.of_nat n) (map_block n).
Proof. unfold map_block. by rewrite seq_S, foldl_app. Qed.

Lemma map_block_ok n : block_ok (map_block n).
Proof. induction n as [|n IH]; [apply zero_block_ok|]. rewrite map_block_step. by apply set_bit_ok. Qed.

Lemma map_block_bits n b : Z.of_nat n <= BPB -> 0 <= b -> bit_set b (map_block n) = bool_decide (b < Z.of_nat n).
Proof.
  intros Hn Hb. induction n as [|n IH].
  - rewrite bool_decide_false by lia. unfold bit_set. change (map_block 0) with zero_block. by rewrite nth_zero_block, Z.land_0_l.
  - rewrite map_block_step, bit_set_set; [|lia|done|apply map_block_ok]. rewrite IH by lia. destruct (decide (b = Z.of_nat n)) as [E|E]; [by rewrite bool_decide_true by lia|]. apply bool_decide_ext. lia.
Qed.

(** The size of file [i] on the disk: that of the root directory is rounded up. *)
Definition disk_size (i : nat) (d : list Z) : Z := let n := Z.of_nat (length d) in if decide (i = O) then (n / BS + 1) * BS else n.

Definition addrs_of (c : Z -> block) (i : nat) : list Z := di_addrs (din_at c (Z.of_nat i + 1)).

(** The blocks [c] are a file system with the files [inputs], for the kernel: the
    super block, an empty log, the map of free blocks, and for every file an inode
    whose blocks hold its bytes. *)
Record image_of (c : Z -> block) (inputs : list (list Z * list Z)) : Prop := {
  im_sb : sb_of (c 1) = mkfs_sb;
  im_log : head_n (c 2) = 0;
  im_map : map_ok mkfs_sb c;
  im_din : forall i ty d, want inputs !! i = Some (ty, d) -> din_at c (Z.of_nat i + 1) = mkDinode ty 0 0 1 (disk_size i d) (addrs_of c i);
  im_tree : forall i ty d, want inputs !! i = Some (ty, d) -> tree_ok mkfs_sb c (addrs_of c i) /\ no_holes c (addrs_of c i) (Z.of_nat (length d));
  im_data : forall i ty d, want inputs !! i = Some (ty, d) -> file_bytes c (addrs_of c i) 0 (disk_size i d) = d ++ replicate (Z.to_nat (disk_size i d) - length d) 0;
  im_disjoint : forall i j p q, (i < length (want inputs))%nat -> (j < length (want inputs))%nat -> i <> j -> slot_ok p -> slot_ok q -> slot_addr c (addrs_of c i) p <> 0 ->
    slot_addr c (addrs_of c i) p <> slot_addr c (addrs_of c j) q;
  im_used : forall b, 0 <= b < FSSIZE -> used mkfs_sb c b = true <-> b < nmeta \/ exists i p, (i < length (want inputs))%nat /\ slot_ok p /\ slot_addr c (addrs_of c i) p = b;
  im_free : forall n, Z.of_nat (length (want inputs)) < n < NINODES -> di_type (din_at c n) = 0
}.

Lemma mkfs_layout : layout mkfs_sb.
Proof. split; [done|done|]. intros b Hb. unfold BBLOCK, home, LOGBLOCKS. change BPB with 8192. change (sb_size mkfs_sb) with 2000 in Hb. change (sb_bmapstart mkfs_sb) with 46. change (sb_logstart mkfs_sb) with 2. rewrite u32_small; zdiv. Qed.

Lemma mkfs_BBLOCK b : 0 <= b < FSSIZE -> BBLOCK b mkfs_sb = 46.
Proof. intros Hb. unfold BBLOCK. change BPB with 8192. change (sb_bmapstart mkfs_sb) with 46. unfold FSSIZE in Hb. rewrite u32_small; zdiv. Qed.

Lemma slot_used_bn n k : 0 <= k < SMALL -> slot_used n (bn_slot k) = (k * BS <? n).
Proof.
  intros Hk. change SMALL with 267 in Hk. unfold bn_slot. change (Z.of_nat NDIRECT) with 11. change (Z.of_nat NINDIRECT) with 256. destruct (Z.ltb_spec k 11).
  - cbn [slot_used]. by rewrite Z2Nat.id by lia.
  - rewrite (proj2 (Z.ltb_lt (k - 11) 256)) by lia. cbn [slot_used]. f_equal. f_equal. unfold NDIRECT. lia.
Qed.

Section Final.
Context (c : Z -> block) (fl : list ifile) (fb : Z) (x : ifile) (inputs : list (list Z * list Z)).
Hypothesis HD : disk c fl fb.
Hypothesis Hx : fl !! O = Some x.
Hypothesis Hc : contents fl = want inputs.
Local Abbreviation root_size := ((flen x / BS + 1) * BS).
Hypothesis Hsz : root_size <= SMALL * BS.

(** The blocks after the size of the root directory was rounded up and the map was
    written. *)
Definition last_blocks : Z -> block := upd (put_din 1 (file_din x root_size) c) 46 (map_block (Z.to_nat fb)).
Local Abbreviation c' := last_blocks.

Lemma root_din_ok : dinode_ok (file_din x root_size).
Proof using All.
  apply (file_din_ok c fl fb O x); [apply HD|done|]. change (SMALL * BS) with 273408 in Hsz. split; [|lia]. change BS with 1024. unfold flen. zdiv.
Qed.

Lemma last_ok y : block_ok (c' y).
Proof using All.
  pose proof (tr_block _ _ _ (fa_trees _ _ _ (dk_files _ _ _ HD))) as Hb. unfold last_blocks, put_din, upd. repeat case_decide; [apply map_block_ok|apply put_dinode_ok; [done|apply root_din_ok|apply dinode_off_range]|done].
Qed.

Lemma last_off b : b <> 46 -> ~ 33 <= b < 46 -> c' b = c b.
Proof using. intros H1 H2. unfold last_blocks, put_din. rewrite !upd_ne; [done| |done]. destruct (IBLOCK_mkfs 1) as [_ ?]; [done|]. lia. Qed.

Lemma last_files : files_at c' fl fb.
Proof using All.
  eapply files_at_low; [apply HD|apply last_ok|]. intros b. destruct (decide (0 < b < nmeta)); [by right|left]. apply last_off; change nmeta with 47 in *; lia.
Qed.

Lemma last_din n : 0 <= n < NINODES -> din_at c' n = if decide (n = 1) then file_din x root_size else din_at c n.
Proof using All.
  intros Hn. destruct (IBLOCK_mkfs n Hn) as [_ Hb]. rewrite <- (din_put 1 n (file_din x root_size) c); [|apply HD|apply root_din_ok|done|done]. unfold din_at at 1, last_blocks. rewrite upd_ne by lia. done.
Qed.

(** File [i] of the image. *)
Lemma last_file i ty d : want inputs !! i = Some (ty, d) -> exists y, fl !! i = Some y /\ f_type y = ty /\ f_data y = d /\ addrs_of c' i = f_addrs y /\ din_at c' (Z.of_nat i + 1) = mkDinode ty 0 0 1 (disk_size i d) (f_addrs y).
Proof using All.
  intros Hi. rewrite <- Hc in Hi. apply contents_lookup in Hi as (y & Hy & Ht & Hd). pose proof (lookup_lt_Some _ _ _ Hy) as Hlt. pose proof (dk_few _ _ _ HD). exists y. split_and!; try done; unfold addrs_of; rewrite last_din by lia; destruct (decide (i = O)) as [->|Hne].
  - rewrite decide_True by done. rewrite Hx in Hy. by injection Hy as <-.
  - rewrite decide_False by lia. by rewrite (dk_din _ _ _ HD i y Hy).
  - rewrite decide_True by done. rewrite Hx in Hy. injection Hy as <-. unfold file_din, disk_size. by rewrite decide_True, <- Hd, Ht.
  - rewrite decide_False by lia. rewrite (dk_din _ _ _ HD i y Hy). unfold file_din, disk_size. by rewrite decide_False, <- Hd, Ht.
Qed.

Lemma last_used b : 0 <= b < FSSIZE -> used mkfs_sb c' b = bool_decide (b < fb).
Proof using All.
  intros Hb. pose proof (fa_free _ _ _ (dk_files _ _ _ HD)) as Hf. change nmeta with 47 in Hf. unfold used. rewrite mkfs_BBLOCK by done. unfold last_blocks. rewrite upd_eq. unfold FSSIZE in *. rewrite Z.mod_small by (change BPB with 8192; lia).
  rewrite map_block_bits by (change BPB with 8192; lia). apply bool_decide_ext. lia.
Qed.

Lemma last_tree i y : fl !! i = Some y -> tree_ok mkfs_sb c' (f_addrs y) /\ no_holes c' (f_addrs y) (flen y).
Proof using All.
  intros Hy. pose proof last_files as [HT Hsh _ Hf]. pose proof (dk_small _ _ _ HD i y Hy) as Hsm. change nmeta with 47 in Hf. change (SMALL * BS) with 273408 in Hsm. split.
  - split; [by eapply (tr_len _ _ _ HT)|apply last_ok| |].
    + intros p Hp Hn. pose proof (tr_range _ _ _ HT i y p Hy Hp Hn) as Hr. change nmeta with 47 in Hr. unfold FSSIZE in *. split.
      * change (sb_size mkfs_sb) with 2000. lia.
      * rewrite last_used by (unfold FSSIZE; lia). by rewrite bool_decide_true by lia.
      * unfold home. change (sb_logstart mkfs_sb) with 2. unfold LOGBLOCKS. lia.
      * intros b Hb. change (sb_size mkfs_sb) with FSSIZE in Hb. rewrite mkfs_BBLOCK by done. lia.
    + intros p q Hp Hq Hn E. by destruct (tr_inj _ _ _ HT i i y y p q Hy Hy Hp Hq Hn E).
  - intros n Hn Hlt. assert (Hns : 0 <= n < SMALL) by (change SMALL with 267; change BS with 1024 in Hlt; lia). destruct (bn_slot_ok n) as [Hok _]; [change SMALL with 267 in Hns; change MAXFILE with 65803; lia|].
    apply (Hsh i y Hy _ Hok). rewrite slot_used_bn by done. by apply Z.ltb_lt.
Qed.

Lemma last_image : image_of c' inputs.
Proof using All.
  pose proof last_files as HFs. pose proof HFs as [HT Hsh _ Hf]. pose proof (dk_meta _ _ _ HD) as Hmeta. change nmeta with 47 in Hf. assert (Hlen : length (want inputs) = length fl) by (rewrite <- Hc; apply length_fmap).
  assert (Hat : forall i, (i < length (want inputs))%nat -> exists y, fl !! i = Some y /\ addrs_of c' i = f_addrs y).
  { intros i Hi. destruct (lookup_lt_is_Some_2 _ _ Hi) as [[ty d] Hw]. destruct (last_file i ty d Hw) as (y & Hy & _ & _ & Ha & _). by exists y. }
  split.
  - rewrite last_off by lia. rewrite (Hmeta 1) by (change nmeta with 47; lia). by vm_compute.
  - rewrite last_off by lia. rewrite (Hmeta 2) by (change nmeta with 47; lia). by vm_compute.
  - split; [|rewrite last_used by done; by rewrite bool_decide_true by lia]. intros b Hb Hu. change (sb_size mkfs_sb) with FSSIZE in *. rewrite last_used in Hu by done. apply bool_decide_eq_false in Hu. split; [unfold home; change (sb_logstart mkfs_sb) with 2; unfold LOGBLOCKS; lia|].
    intros b' Hb'. rewrite mkfs_BBLOCK by done. lia.
  - intros i ty d Hw. destruct (last_file i ty d Hw) as (y & _ & _ & _ & -> & ->). done.
  - intros i ty d Hw. destruct (last_file i ty d Hw) as (y & Hy & _ & <- & -> & _). by apply (last_tree i).
  - intros i ty d Hw. destruct (last_file i ty d Hw) as (y & Hy & _ & <- & -> & _). pose proof (dk_small _ _ _ HD i y Hy) as Hsm. unfold flen in Hsm.
    assert (Hds : Z.of_nat (length (f_data y)) <= disk_size i (f_data y) <= SMALL * BS) by (unfold disk_size; case_decide as E; [subst i; rewrite Hx in Hy; injection Hy as <-; unfold flen in Hsz; change BS with 1024 in *; zdiv|lia]).
    apply list_eq. intros k. destruct (decide (k < Z.to_nat (disk_size i (f_data y)))%nat) as [Hk|Hk].
    + rewrite file_bytes_lookup by done. rewrite Z.add_0_l, (tr_data _ _ _ HT i y) by (done || lia). rewrite Nat2Z.id. destruct (f_data y !! k) as [b|] eqn:Hb; [by rewrite (lookup_app_l_Some _ _ _ _ Hb)|]. apply lookup_ge_None in Hb. rewrite lookup_app_r by lia. by rewrite lookup_replicate_2 by lia.
    + rewrite lookup_ge_None_2 by (rewrite length_file_bytes; lia). rewrite lookup_ge_None_2; [done|]. rewrite length_app, length_replicate. lia.
  - intros i j p q Hi Hj Hne Hp Hq Hn E. destruct (Hat i Hi) as (y & Hy & Ey), (Hat j Hj) as (z & Hz & Ez). rewrite Ey in Hn, E. rewrite Ez in E. by destruct (tr_inj _ _ _ HT i j y z p q Hy Hz Hp Hq Hn E).
  - intros b Hb. rewrite last_used, bool_decide_eq_true by done. split.
    + intros Hlt. destruct (decide (b < nmeta)); [by left|right]. destruct (tr_onto _ _ _ HT b ltac:(lia)) as (i & y & p & Hy & Hp & E). exists i, p. pose proof (lookup_lt_Some _ _ _ Hy) as Hi. rewrite <- Hlen in Hi. destruct (Hat i Hi) as (z & Hz & ->). rewrite Hy in Hz. by injection Hz as <-.
    + intros [Hlt|(i & p & Hi & Hp & <-)]; [change nmeta with 47 in Hlt; lia|]. destruct (Hat i Hi) as (y & Hy & Ey). rewrite Ey in *. destruct (decide (slot_addr c' (f_addrs y) p = 0)) as [->|Hn]; [lia|]. by apply (tr_range _ _ _ HT i y p).
  - intros n Hn. rewrite last_din by lia. rewrite decide_False by (rewrite Hlen in Hn; apply lookup_lt_Some in Hx; lia). apply (dk_free _ _ _ HD); [lia|]. rewrite Hlen in Hn. lia.
Qed.
End Final.

(** ** Entries *)
Lemma file_bytes_part c al n m D : 0 <= n -> 0 <= m -> n + m <= D -> file_bytes c al n m = take (Z.to_nat m) (drop (Z.to_nat n) (file_bytes c al 0 D)).
Proof.
  intros Hn Hm HD. replace D with (n + (m + (D - n - m))) by lia. rewrite !file_bytes_app by lia. rewrite drop_app_length' by (by rewrite length_file_bytes). by rewrite take_app_length' by (by rewrite length_file_bytes).
Qed.

Lemma root_entry inputs k name d : Forall (fun y => length y.1 <= DIRSIZ)%nat inputs -> inputs !! k = Some (name, d) -> take 16 (drop (16 * (k + 2)) (root_data inputs)) = entry_bytes (Z.of_nat k + 2) name.
Proof.
  induction inputs as [|a inputs IH] using rev_ind; intros Hl Hk; [done|]. apply Forall_app in Hl as [Hl Ha]. pose proof (length_root_data inputs Hl) as Hrl. rewrite root_data_snoc. apply lookup_app_Some in Hk as [Hk|[Hge [Hz ->]%list_lookup_singleton_Some]].
  - pose proof (lookup_lt_Some _ _ _ Hk). rewrite drop_app_le, take_app_le by (rewrite ?length_drop; lia). by apply IH.
  - assert (k = length inputs) as -> by lia. rewrite drop_app_length' by lia. apply firstn_all2. rewrite length_entry_bytes; [lia|]. by inversion Ha.
Qed.

Lemma dirent_of_entry inum name : 0 <= inum < 2 ^ 16 -> (length name <= DIRSIZ)%nat -> dirent_of (entry_bytes inum name) = mkDirent inum (name_field name).
Proof.
  intros Hi Hn. unfold dirent_of, entry_bytes, dirent_bytes. cbn [de_inum de_name]. f_equal.
  - unfold get_le. rewrite drop_0, take_app_length' by by rewrite length_le_bytes. rewrite le_value_bytes. by apply Z.mod_small.
  - rewrite drop_app_length' by by rewrite length_le_bytes. apply firstn_all2. unfold name_field. rewrite length_app, length_replicate. lia.
Qed.

Section Main.
Context (host : list Z -> option (list (list Z))).

(** The rest of main, after the files. *)
Lemma finish_mkfs_wp s inputs : stores s (want inputs) -> Z.of_nat (length (root_data inputs)) <= 4096 ->
  wp (fix_root 1;; used ← gets freeblock; balloc used) [] s (fun _ s' => exists c fl x, disk c fl (freeblock s') /\ fl !! O = Some x /\ contents fl = want inputs /\ shows s' (last_blocks c (freeblock s') x)).
Proof using.
  intros (c & fl & HS & HD & Hc & Hfi) Hrl. assert (Hx : want inputs !! O = Some (T_DIR, root_data inputs)) by done. rewrite <- Hc in Hx. apply contents_lookup in Hx as (x & Hx & Ht & Hd).
  assert (Hfl : 0 <= flen x <= 4096) by (unfold flen; rewrite Hd; lia). pose proof (fa_free _ _ _ (dk_files _ _ _ HD)) as Hf. change nmeta with 47 in Hf. unfold FSSIZE in Hf.
  unfold fix_root. wsteps. eapply wpl_call; [by apply (rinode_wp [] s c 1)|]. intros din s1 [-> ->]. pose proof (dk_din _ _ _ HD O x Hx) as Hdin. change (Z.of_nat 0 + 1) with 1 in Hdin. rewrite Hdin. cbn [di_size file_din]. rewrite (xint_small (flen x)) by lia.
  assert (Hr : 0 <= (flen x / BS + 1) * BS < 2 ^ 32) by (change BS with 1024; zdiv). rewrite u32_small, xint_small by done.
  change (set_size _ _) with (file_din x ((flen x / BS + 1) * BS)). eapply wpl_call; [by apply (winode_wp [] s c 1)|]. intros u s1 (HS1 & Hfi1 & Hfr1). wsteps. rewrite Hfr1. unfold balloc. wfalse; [|change BPB with 8192; lia]. wsteps. rewrite (sh_sb _ _ HS1).
  eapply wpl_call; [apply (wsect_wp [] s1 _ 46 _ HS1); by split|]. intros u2 s2 (HS2 & Hfi2 & Hfr2). split; [done|]. exists c, fl, x. rewrite Hfr2, Hfr1. split_and!; try done.
Qed.

Lemma names_short args inputs : Forall2 (input_ok host) args inputs -> Forall (fun y => length y.1 <= DIRSIZ)%nat inputs.
Proof using. induction 1 as [|arg y args inputs Ha _ IH]; constructor; [destruct Ha as [_ _ [-> ?] _ _]; done|done]. Qed.

Lemma main_wp args inputs : Forall2 (input_ok host) args inputs -> Z.of_nat (length inputs) + 1 < NINODES -> nmeta + cost (want inputs) <= FSSIZE ->
  wp (main host args) [] start_state (fun _ s' => exists c fl x, disk c fl (freeblock s') /\ fl !! O = Some x /\ contents fl = want inputs /\ shows s' (last_blocks c (freeblock s') x) /\
    length (root_data inputs) = (16 * (length inputs + 2))%nat).
Proof using.
  intros Hin Hfew Hsp. pose proof (names_short _ _ Hin) as Hnl.
  pose proof (length_root_data inputs Hnl) as Hrl. unfold NINODES in Hfew. pose proof (cost_want_mono [] inputs) as Hc0. cbn [app] in Hc0.
  assert (Hdot : nmeta + cost (want []) <= FSSIZE) by by vm_compute. assert (Hd1 : strcpy (replicate DIRSIZ 0) [46; 0] = Some (name_field [46])) by done. assert (Hd2 : strcpy (replicate DIRSIZ 0) [46; 46; 0] = Some (name_field [46; 46])) by done.
  unfold main. wstep. apply begin_wp. intros s0 HS0. wstep. eapply wpl_call; [by apply (ialloc_stores [] s0 [] T_DIR HS0)|]. intros root s1 [-> HS1]. change (Z.of_nat (length []) + 1) with 1. wfalse; [|by intros []].
  rewrite Hd1, Hd2. cbn [dir_entry]. rewrite xshort_small by done. fold (entry_bytes 1 [46]) (entry_bytes 1 [46; 46]). change 1 with (Z.of_nat 0 + 1) at 1. wstep.
  eapply wpl_call; [apply (iappend_stores [] s1 _ 0 T_DIR [] (entry_bytes 1 [46]) HS1); [done|apply entry_bytes_ok; by repeat constructor|done|by vm_compute]|]. intros u2 s2 HS2. wstep. change 1 with (Z.of_nat 0 + 1) at 1.
  eapply wpl_call; [apply (iappend_stores [] s2 _ 0 T_DIR (entry_bytes 1 [46]) (entry_bytes 1 [46; 46]) HS2); [done|apply entry_bytes_ok; by repeat constructor|done|by vm_compute]|]. intros u3 s3 HS3. wstep.
  eapply wpl_call; [apply (add_files_stores [] host s3 [] args inputs HS3 Hin); [constructor|simpl; unfold NINODES; lia|done]|]. intros u4 s4 HS4. cbn [app] in HS4.
  eapply wpl_mono; [apply (finish_mkfs_wp s4 inputs HS4); rewrite Hrl; lia|]. intros u5 L5 s5 (-> & c & fl & x & H1 & H2 & H3 & H4). split; [done|]. by exists c, fl, x.
Qed.

(** C28. When the files are at most 267 blocks each and fit, mkfs builds an image that the
    kernel's file system reads as exactly these files: a super block that describes it,
    an empty log, a map in which a block is in use exactly when it is metadata or belongs
    to one file, for each file an inode whose blocks hold its bytes with no hole and no
    block in common with another, and a directory entry with its name and its inode.  The
    size of the root directory is rounded up to a block more than its full blocks. *)
Theorem mkfs_correct args inputs : Forall2 (input_ok host) args inputs -> Z.of_nat (length inputs) + 1 < NINODES -> nmeta + cost (want inputs) <= FSSIZE ->
  wp (main host args) [] start_state (fun _ s' => exists c, shows s' c /\ image_of c inputs /\
    forall k name d, inputs !! k = Some (name, d) -> dirent_of (file_bytes c (addrs_of c O) (16 * (Z.of_nat k + 2)) 16) = mkDirent (Z.of_nat k + 2) (name_field name)).
Proof using.
  intros Hin Hfew Hsp. pose proof (names_short _ _ Hin) as Hnl. eapply wp_mono; [by apply (main_wp args inputs)|]. intros u s' (c & fl & x & HD & Hx & Hc & HS & Hrl). unfold NINODES in Hfew.
  assert (Hfl : flen x = 16 * (Z.of_nat (length inputs) + 2)). { assert (Hw : want inputs !! O = Some (T_DIR, root_data inputs)) by done. rewrite <- Hc in Hw. apply contents_lookup in Hw as (y & Hy & _ & Hd). rewrite Hx in Hy. injection Hy as <-. unfold flen. rewrite Hd, Hrl. lia. }
  assert (Him : image_of (last_blocks c (freeblock s') x) inputs) by (apply (last_image c fl); try done; rewrite Hfl; change BS with 1024; change SMALL with 267; zdiv).
  eexists. split; [exact HS|]. split; [done|]. intros k name d Hk. pose proof (lookup_lt_Some _ _ _ Hk) as Hlt. pose proof (im_data _ _ Him O T_DIR (root_data inputs) eq_refl) as Hdata.
  assert (HD0 : Z.of_nat (length (root_data inputs)) <= disk_size O (root_data inputs)) by (unfold disk_size; rewrite decide_True by done; change BS with 1024; zdiv).
  rewrite (file_bytes_part _ _ _ _ (disk_size O (root_data inputs))) by lia. rewrite Hdata. replace (Z.to_nat (16 * (Z.of_nat k + 2))) with (16 * (k + 2))%nat by lia. rewrite drop_app_le, take_app_le by (rewrite ?length_drop; lia).
  change (Z.to_nat 16) with 16%nat. rewrite (root_entry inputs k name d Hnl Hk). apply dirent_of_entry; [lia|]. by apply (Forall_lookup_1 _ _ _ _ Hnl Hk).
Qed.

(** When the entries of the root directory fill its blocks (62 files, say), mkfs
    still adds a block to the size of the directory, one that is not there. *)
Theorem mkfs_root_hole args inputs : Forall2 (input_ok host) args inputs -> Z.of_nat (length inputs) + 1 < NINODES -> nmeta + cost (want inputs) <= FSSIZE -> (Z.of_nat (length inputs) + 2) mod 64 = 0 ->
  wp (main host args) [] start_state (fun _ s' => exists c n, shows s' c /\ (n + 1) * BS <= di_size (din_at c ROOTINO) /\ file_block c (di_addrs (din_at c ROOTINO)) n = 0).
Proof using.
  intros Hin Hfew Hsp H64. eapply wp_mono; [by apply (main_wp args inputs)|]. intros u s' (c & fl & x & HD & Hx & Hc & HS & Hrl). unfold NINODES in Hfew.
  assert (Hfl : flen x = 16 * (Z.of_nat (length inputs) + 2)). { assert (Hw : want inputs !! O = Some (T_DIR, root_data inputs)) by done. rewrite <- Hc in Hw. apply contents_lookup in Hw as (y & Hy & _ & Hd). rewrite Hx in Hy. injection Hy as <-. unfold flen. rewrite Hd, Hrl. lia. }
  assert (Hsz : (flen x / BS + 1) * BS <= SMALL * BS) by (rewrite Hfl; change BS with 1024; change SMALL with 267; zdiv).
  eexists _, (flen x / BS). split; [exact HS|]. rewrite (last_din c fl (freeblock s') x inputs HD Hx Hc Hsz) by done. rewrite decide_True by done. cbn [di_size di_addrs file_din]. split; [lia|].
  pose proof (last_files c fl (freeblock s') x inputs HD Hx Hc Hsz) as [_ Hsh _ _]. assert (Hn : 0 <= flen x / BS < SMALL) by (rewrite Hfl; change BS with 1024; change SMALL with 267; zdiv). destruct (bn_slot_ok (flen x / BS)) as [Hok _]; [change SMALL with 267 in Hn; change MAXFILE with 65803; lia|].
  pose proof (Hsh O x Hx _ Hok) as Hz. rewrite slot_used_bn in Hz by done. change (Z.of_nat (length (f_data x))) with (flen x) in Hz. rewrite (proj2 (Z.ltb_ge _ _)) in Hz by (rewrite Hfl; change BS with 1024; zdiv).
  unfold file_block. destruct (decide (slot_addr (last_blocks c (freeblock s') x) (f_addrs x) (bn_slot (flen x / BS)) = 0)); [done|]. by apply Hz in n.
Qed.
End Main.
