(* ===== verification/MkfsSample.v ===== *)
(** An image made of one small file: the witnesses of the theorems on mkfs. *)
From S2P Require Import Prelude UserIface Block CStrings Fs FsBlocks FsMap FsRead Mkfs MkfsSpec MkfsRun MkfsMain MkfsImage.
Local Open Scope Z_scope.

(** The file user/_cat of the host, with the bytes "hi" in two reads. *)
Definition cat_arg : list Z := [117; 115; 101; 114; 47; 95; 99; 97; 116].
Definition cat_host (arg : list Z) : option (list (list Z)) :=
  if decide (arg = cat_arg) then Some [[104]; [105]] else None.

Lemma cat_ok : input_ok cat_host cat_arg ([99; 97; 116], [104; 105]).
Proof.
  split; [split| | | |split].
  - apply (bool_decide_unpack _). by vm_compute.
  - by repeat constructor.
  - apply (bool_decide_unpack _). by vm_compute.
  - split; [by vm_compute|vm_compute; lia].
  - exists [[104]; [105]]. by split.
  - by repeat constructor.
  - by vm_compute.
Qed.

Lemma mkfs_correct_witness :
  wp (main cat_host [cat_arg]) [] start_state (fun _ s' => exists c, shows s' c /\
    dirent_of (file_bytes c (addrs_of c O) 32 16) = mkDirent 2 (name_field [99; 97; 116]) /\
    di_size (din_at c 2) = 2 /\ file_bytes c (addrs_of c 1) 0 2 = [104; 105]).
Proof.
  eapply wp_mono; [apply (mkfs_correct cat_host [cat_arg] [([99; 97; 116], [104; 105])])|].
  - constructor; [exact cat_ok|constructor].
  - by vm_compute.
  - by vm_compute.
  - intros u s' (c & HS & Him & Hde). exists c. split_and!; [done|exact (Hde O _ _ eq_refl)| |].
    + change 2 with (Z.of_nat 1 + 1) at 1. by rewrite (im_din _ _ Him 1 _ _ eq_refl).
    + exact (im_data _ _ Him 1 _ _ eq_refl).
Defined.

(** Sixty-two empty files fill the block of the root directory. *)
Definition empty_host (arg : list Z) : option (list (list Z)) := Some [].

Lemma mkfs_root_hole_witness :
  wp (main empty_host (replicate 62 [120])) [] start_state (fun _ s' => exists c n, shows s' c /\
    (n + 1) * BS <= di_size (din_at c ROOTINO) /\ file_block c (di_addrs (din_at c ROOTINO)) n = 0).
Proof.
  apply (mkfs_root_hole empty_host (replicate 62 [120]) (replicate 62 ([120], []))); [|by vm_compute..].
  apply Forall2_same_length_lookup. split; [done|]. intros i x y [-> _]%lookup_replicate [-> _]%lookup_replicate.
  split; [split| | | |split].
  - apply (bool_decide_unpack _). by vm_compute.
  - by repeat constructor.
  - apply (bool_decide_unpack _). by vm_compute.
  - split; [by vm_compute|vm_compute; lia].
  - by exists [].
  - constructor.
  - by vm_compute.
Defined.
